(* ===== verification/_CoqProject ===== *)
-Q . S2P
Prelude.v
KList.v
KListSort.v
KListOps.v
Bitmap.v
Hash.v
CString.v
Arith64.v
SortSearch.v
Printf.v
Examples.v
Console.v
Ustar.v
Random.v
Block.v
BlockThms.v
Ide.v
IdeThms.v
Inode.v
InodeInv.v
FreeMap.v
InodeThms.v
Directory.v
DirThms.v
FilesysThms.v
Vaddr.v
Execute.v
Fsutil.v
FsutilThms.v
Palloc.v
Ram.v
Pagedir.v
PagedirThms.v
Paging.v
AddressSpace.v
Process.v
ProcessThms.v
StackThms.v
LoadThms.v
Syscall.v
UserMem.v
SyscallThms.v
UserLib.v
Wait.v
WaitThms.v
Intq.v
IntqThms.v
Segments.v
Exception.v
Clock.v
Vga.v
VgaThms.v
Shell.v
ClockThms.v
Malloc.v
MallocInv.v
MallocSteps.v
MallocProofs.v
MallocThms.v
Thread.v
Synch.v
SchedInv.v
SchedProofs.v
SchedSteps.v
SchedThms.v
Init.v
InitThms.v
