(* ===== verification/Prelude.v ===== *)
(** * A verification development for Pintos

    Pintos is a small operating system for the 80x86, here with the changes of a student
    group: threads with priorities, processes with exec and wait, system calls, and a file
    system with directories.  This library models the kernel, its C library, the C library
    of user programs and some programs in Rocq, function by function, and proves what the
    parts promise to each other.  Paths are relative to src/src/.

    ** How C becomes Rocq

    A function of C is a computation of type [M S A] (below in this file): from a state [S]
    to an [Ok] with a value and a new state, a [Panic] (a failed ASSERT, PANIC or
    NOT_REACHED), a [Fault] (a bad pointer, an index out of range, a divide error), or
    [Fuel] where a loop got too small a bound.  Theorems of the form [wp m s Q] say that
    [m] returns and that [Q] holds then: they include termination and the absence of
    panics and faults.  [wlp], [wpp] and [wpf] also admit the outcomes that they name.
    Integers are in Z and wrapped to their width where C wraps ([u8], [u32], [s32], [u64],
    [s64]); bytes are numbers from 0 to 255.  State that several threads share is changed
    by a step relation whose steps are the pieces of code between which another thread
    or an interrupt handler can run.

    Hardware and other code that is not in the repository is a class of operations, and a
    second class of the laws that the code relies on, with a simulated instance that
    shows that the laws can hold: disk controllers (Ide, IdeThms), serial ports (Intq,
    IntqThms), text displays (Vga).  Components of the kernel meet in the same way: block
    devices (Block: [driver_laws], [BlockDevice]) and the system calls that the example
    programs use (Examples: [System]).  Arguments stand for the outcomes of allocations
    and for contents of memory that C leaves undefined.

    ** The files, by component

    - The C library.  KList, KListSort, KListOps: lib/kernel/list.c on a heap of links.
      Bitmap: lib/kernel/bitmap.c.  Hash: lib/kernel/hash.c.  CString: lib/string.c on a
      memory of bytes.  Arith64: lib/arithmetic.c.  SortSearch: lib/stdlib.c.  Printf:
      lib/stdio.c.  Ustar: lib/ustar.c.  Random: lib/random.c.  Console:
      lib/kernel/console.c, with threads and interrupt handlers that print at the same
      time.
    - Devices.  Block, BlockThms: devices/block.c and partition.c.  Ide, IdeThms:
      devices/ide.c.  Intq, IntqThms: devices/intq.c, input.c, serial.c, kbd.c.  Vga,
      VgaThms: devices/vga.c, speaker.c.  Clock, ClockThms: devices/rtc.c, pit.c, timer.c.
    - The file system.  Inode, InodeInv, FreeMap, InodeThms: filesys/inode.c, file.c,
      free-map.c.  Directory, DirThms: filesys/directory.c, filesys.c and the path
      functions of userprog/syscall.c.  FilesysThms: opening files by name.  Fsutil,
      FsutilThms: filesys/fsutil.c, over the file system, lib/ustar.c and a second device.
    - Memory.  Vaddr: threads/vaddr.h, pte.h.  Palloc: threads/palloc.c.  Ram: words and
      blocks of memory.  Pagedir, PagedirThms: userprog/pagedir.c.  Paging: paging_init ()
      of threads/init.c.  AddressSpace: the memory that a process sees.  Malloc,
      MallocInv, MallocSteps, MallocProofs, MallocThms: threads/malloc.c.
    - Threads.  Thread: threads/thread.c and parts of interrupt.c.  Synch:
      threads/synch.c and the step relation of the system.  SchedInv, SchedProofs,
      SchedSteps, SchedThms: the invariant and the theorems.
    - Processes.  Execute: the command line in process_execute ().  Process, ProcessThms,
      StackThms, LoadThms: load () of userprog/process.c, tss.c.  Wait, WaitThms: exec,
      wait and exit between threads.  Syscall, UserMem, SyscallThms: userprog/syscall.c.
      Exception: userprog/exception.c.  Segments: userprog/gdt.c and the interrupt table.
    - Start.  Init, InitThms: threads/init.c and devices/shutdown.c.
    - User programs.  UserLib: lib/user/syscall.c and console.c.  Examples: cat, cp, cmp
      and lineup of examples/.  Shell: the line editor of examples/shell.c.

    The heap of a component is its own: list.c has links, string.c bytes, the file
    system maps from addresses to structures; where components share memory (palloc.c,
    malloc.c, pagedir.c, process.c) they share one state, the RAM of Palloc.

    ** What the theorems show

    - Threads: in every reachable state the lists are consistent, sorted by priority and
      without duplicates, a lock has at most one holder who keeps it until the release,
      a semaphore that is up has no sleeper without one that is about to take it, and
      after a yield the thread of highest priority runs.
    - Processes: wait returns the exit status of the child and no handshake is stuck, for
      parents that wait for each child before they go on; the memory image, the entry
      point and the stack of a loaded program are those of the file and the command line.
    - System calls: each call leaves the semaphore and the table of files in order; what
      is written to a file is read back; user programs reach the kernel's functions with
      their arguments.  A page fault ends the process, except in the kernel.
    - Memory: page directories are maps from pages to frames that do not disturb each
      other, the TLB agrees with them, and pages come back when they are destroyed;
      blocks from malloc do not overlap, have their size and keep their contents.
    - File system: files are arrays of bytes on the disk, directories maps from names to
      sectors; opening by name and reading gives the bytes on the disk; an archive parses
      back to the file it was made from.
    - Devices: the disk driver on any controller that obeys ATA-3 is an array of sectors;
      circular buffers are queues; the serial port sends and receives in order; the
      display is a terminal of 25 rows of 80 cells; output of threads does not mix.
    - Library: lists are sorted in place, hash tables are sets, bitmaps find the first free run,
      64-bit division is division, formatted output and archives are read back.
    - Where the code does not do what it means to, the theorem says what it does instead:
      reads across the end of a file give nothing (InodeThms), so that cat and cp lose the
      end of files (FsutilThms, Examples); nothing can be removed (DirThms); a parent that
      starts two children can get the wrong status (WaitThms); long command lines run
      over an array (Execute); the seed of -rs is ignored (InitThms).

    ** Bounds

    Loops that count have their count.  Loops that follow pointers or strings have fuel,
    and their theorems ask for more than the length of what they run over: a list, a
    string, a file in buffers, a directory in entries.  Loops that wait for hardware or
    for other threads have no fuel of their own: the laws of the hardware bound the polls
    (Ide, Intq), and a thread that waits is one that the step relation does not run.

    ** Not modelled

    - Assembly: threads/loader.S, start.S, intr-stubs.S, switch.S and the linker scripts.
      Their effects are where the models begin: the command line in the boot sector, the
      interrupt frame, the stack of frames of each thread.
    - lib/kernel/debug.c, lib/debug.c, lib/user/debug.c: a panic is a result here, and
      backtraces read the frames of compiled code.  Statistics and other output to people
      is left out except where it is the purpose (printf (), the console, fsutil.c).
    - hex_dump () of lib/stdio.c, bitmap_dump (), bitmap_destroy (), hash_destroy (): only
      output, or a call of free ().
    - main (), bss_init () and usage () of threads/init.c: a sequence of calls to the
      modelled parts, and text.  shutdown_reboot () never returns.
    - The stubs for nice, load average and recent_cpu in threads/thread.c return 0.
    - vm/ has no code.  The other programs of examples/ are loads for the memory system,
      single calls, or need memory maps and directories that the kernel does not support;
      utils/ runs on the host; tests/ is not part of the system. *)

From Stdlib Require Export ZArith Lia.
From stdpp Require Export base gmap numbers list.

(** ** Results of running C code

    [Ok a] is normal return, [Panic] is a failed ASSERT, a PANIC or a
    NOT_REACHED (all of which end in debug_panic, lib/kernel/debug.c), [Fault]
    is an access outside the modelled memory or another undefined behaviour,
    and [Fuel] says that the bound given to a loop of the model was too small. *)
Inductive result (A : Type) : Type :=
| Ok (a : A)
| Panic
| Fault
| Fuel.
Arguments Ok {A} a.
Arguments Panic {A}.
Arguments Fault {A}.
Arguments Fuel {A}.

(** Stateful C code over a state [S]. *)
Definition M (S A : Type) : Type := S → result (A * S).

#[export] Instance M_ret {S} : MRet (M S) := λ A a s, Ok (a, s).
#[export] Instance M_bind {S} : MBind (M S) := λ A B k m s,
  match m s with
  | Ok (a, s') => k a s'
  | Panic => Panic
  | Fault => Fault
  | Fuel => Fuel
  end.

Definition panic {S A} : M S A := λ _, Panic.
Definition fault {S A} : M S A := λ _, Fault.
Definition nofuel {S A} : M S A := λ _, Fuel.
Definition get {S} : M S S := λ s, Ok (s, s).
Definition put {S} (s : S) : M S unit := λ _, Ok (tt, s).
Definition gets {S A} (f : S → A) : M S A := λ s, Ok (f s, s).
Definition modify {S} (f : S → S) : M S unit := λ s, Ok (tt, f s).
(** ASSERT (condition), lib/debug.h. *)
Definition assert {S} (b : bool) : M S unit := if b then mret tt else panic.
(** A read that faults on an unmapped address. *)
Definition from_option {S A} (o : option A) : M S A :=
  match o with Some a => mret a | None => fault end.

(** ** Total correctness

    [wp m s Q]: started in [s], [m] returns normally (no panic, no fault, no
    lack of fuel) in a state that satisfies [Q]. *)
Definition wp {S A} (m : M S A) (s : S) (Q : A → S → Prop) : Prop :=
  match m s with
  | Ok (a, s') => Q a s'
  | _ => False
  end.

Section wp.
Context {S A B : Type}.
Implicit Types (m : M S A) (s : S).

Lemma wp_ret (a : A) s Q : Q a s → wp (mret a) s Q.
Proof. done. Qed.

Lemma wp_bind m (k : A → M S B) s Q :
  wp m s (λ a s', wp (k a) s' Q) → wp (m ≫= k) s Q.
Proof. unfold wp, mbind, M_bind. by destruct (m s) as [[]| | |]. Qed.

Lemma wp_mono m s (Q Q' : A → S → Prop) :
  wp m s Q → (∀ a s', Q a s' → Q' a s') → wp m s Q'.
Proof. unfold wp. destruct (m s) as [[]| | |]; naive_solver. Qed.

Lemma wp_ok m s Q : wp m s Q ↔ ∃ a s', m s = Ok (a, s') ∧ Q a s'.
Proof. unfold wp. destruct (m s) as [[]| | |]; naive_solver. Qed.

Lemma wp_assert (b : bool) s Q : b = true → Q tt s → wp (assert b) s Q.
Proof. by intros ->. Qed.

Lemma wp_from_option (o : option A) a s Q : o = Some a → Q a s → wp (from_option o) s Q.
Proof. by intros ->. Qed.

Lemma wp_get s Q : Q s s → wp get s Q.
Proof. done. Qed.

Lemma wp_put s s' Q : Q tt s' → wp (put s') s Q.
Proof. done. Qed.

Lemma wp_gets (f : S → A) s Q : Q (f s) s → wp (gets f) s Q.
Proof. done. Qed.

Lemma wp_modify (f : S → S) s Q : Q tt (f s) → wp (modify f) s Q.
Proof. done. Qed.
End wp.

(** One step of symbolic execution. *)
Ltac wp_step :=
  lazymatch goal with
  | |- wp (mbind _ _) _ _ => apply wp_bind
  | |- wp (mret _) _ _ => apply wp_ret
  | |- wp (assert _) _ _ => apply wp_assert
  | |- wp get _ _ => apply wp_get
  | |- wp (put _) _ _ => apply wp_put
  | |- wp (gets _) _ _ => apply wp_gets
  | |- wp (modify _) _ _ => apply wp_modify
  end.

(** [wpp m s Q R]: as [wp], but [m] may also panic, if [R] holds. *)
Definition wpp {S A} (m : M S A) (s : S) (Q : A → S → Prop) (R : Prop) : Prop :=
  match m s with
  | Ok (a, s') => Q a s'
  | Panic => R
  | _ => False
  end.

Lemma wpp_bind {S A B} (m : M S A) (k : A → M S B) s Q R :
  wp m s (λ a s', wpp (k a) s' Q R) → wpp (m ≫= k) s Q R.
Proof. unfold wp, wpp, mbind, M_bind. by destruct (m s) as [[]| | |]. Qed.

Lemma wpp_bind_panic {S A B} (m : M S A) (k : A → M S B) s Q R :
  wpp m s (λ a s', wpp (k a) s' Q R) R → wpp (m ≫= k) s Q R.
Proof. unfold wpp, mbind, M_bind. by destruct (m s) as [[]| | |]. Qed.

Lemma wpp_wp {S A} (m : M S A) s (Q : A → S → Prop) (R : Prop) : wp m s Q → wpp m s Q R.
Proof. unfold wp, wpp. by destruct (m s) as [[]| | |]. Qed.

Lemma wp_wpp {S A} (m : M S A) s (Q : A → S → Prop) (R : Prop) :
  ¬ R → wpp m s Q R → wp m s Q.
Proof. unfold wp, wpp. by destruct (m s) as [[]| | |]. Qed.

Lemma wpp_panic {S A} (m : M S A) s : wpp m s (λ _ _, False) True → m s = Panic.
Proof. unfold wpp. by destruct (m s) as [[]| | |]. Qed.

Lemma wpp_mono {S A} (m : M S A) s (Q Q' : A → S → Prop) (R R' : Prop) :
  wpp m s Q R → (∀ a s', Q a s' → Q' a s') → (R → R') → wpp m s Q' R'.
Proof. unfold wpp. destruct (m s) as [[]| | |]; naive_solver. Qed.

(** [wpf m s Q R]: as [wp], but [m] may also fault, if [R] holds. *)
Definition wpf {S A} (m : M S A) (s : S) (Q : A → S → Prop) (R : Prop) : Prop :=
  match m s with
  | Ok (a, s') => Q a s'
  | Fault => R
  | _ => False
  end.

Lemma wpf_bind {S A B} (m : M S A) (k : A → M S B) s Q R :
  wp m s (λ a s', wpf (k a) s' Q R) → wpf (m ≫= k) s Q R.
Proof. unfold wp, wpf, mbind, M_bind. by destruct (m s) as [[]| | |]. Qed.

Lemma wpf_bind_fault {S A B} (m : M S A) (k : A → M S B) s Q R :
  wpf m s (λ a s', wpf (k a) s' Q R) R → wpf (m ≫= k) s Q R.
Proof. unfold wpf, mbind, M_bind. by destruct (m s) as [[]| | |]. Qed.

Lemma wpf_wp {S A} (m : M S A) s (Q : A → S → Prop) (R : Prop) : wp m s Q → wpf m s Q R.
Proof. unfold wp, wpf. by destruct (m s) as [[]| | |]. Qed.

Lemma wp_wpf {S A} (m : M S A) s (Q : A → S → Prop) (R : Prop) : ¬ R → wpf m s Q R → wp m s Q.
Proof. unfold wp, wpf. by destruct (m s) as [[]| | |]. Qed.

Lemma wpf_mono {S A} (m : M S A) s (Q Q' : A → S → Prop) (R R' : Prop) :
  wpf m s Q R → (∀ a s', Q a s' → Q' a s') → (R → R') → wpf m s Q' R'.
Proof. unfold wpf. destruct (m s) as [[]| | |]; naive_solver. Qed.

(** ** Partial correctness

    [wlp m s Q]: if [m] returns normally from [s], then [Q] holds.  It is used
    where a panic is the caller's doing. *)
Definition wlp {S A} (m : M S A) (s : S) (Q : A → S → Prop) : Prop :=
  ∀ a s', m s = Ok (a, s') → Q a s'.

Section wlp.
Context {S A B : Type}.
Implicit Types (m : M S A) (s : S).

Lemma wlp_ret (a : A) s Q : Q a s → wlp (mret a) s Q.
Proof. by intros HQ ? ? [= <- <-]. Qed.

Lemma wlp_bind m (k : A → M S B) s Q :
  wlp m s (λ a s', wlp (k a) s' Q) → wlp (m ≫= k) s Q.
Proof.
  unfold wlp, mbind, M_bind. intros Hm b s'. destruct (m s) as [[a s1]| | |]; [|done..]. by apply Hm.
Qed.

Lemma wlp_mono m s (Q Q' : A → S → Prop) :
  wlp m s Q → (∀ a s', Q a s' → Q' a s') → wlp m s Q'.
Proof. unfold wlp. naive_solver. Qed.

Lemma wlp_assert (b : bool) s Q : (b = true → Q tt s) → wlp (assert b) s Q.
Proof. destruct b; intros HQ a s'; [intros [= <- <-]; auto|done]. Qed.

Lemma wlp_from_option (o : option A) s Q :
  (∀ a, o = Some a → Q a s) → wlp (from_option o) s Q.
Proof. intros HQ a s'. destruct o; [intros [= <- <-]; auto|done]. Qed.

Lemma wlp_fault s Q : wlp (fault : M S A) s Q.
Proof. done. Qed.

Lemma wlp_get s Q : Q s s → wlp get s Q.
Proof. by intros HQ ? ? [= <- <-]. Qed.

Lemma wlp_gets (f : S → A) s Q : Q (f s) s → wlp (gets f) s Q.
Proof. by intros HQ ? ? [= <- <-]. Qed.

Lemma wlp_modify (f : S → S) s Q : Q tt (f s) → wlp (modify f) s Q.
Proof. by intros HQ ? ? [= <- <-]. Qed.
End wlp.

(** One step of symbolic execution. *)
Ltac wlp_step :=
  lazymatch goal with
  | |- wlp (mbind _ _) _ _ => apply wlp_bind
  | |- wlp (mret _) _ _ => apply wlp_ret
  | |- wlp (assert _) _ _ => apply wlp_assert; intros ?
  | |- wlp (from_option _) _ _ => apply wlp_from_option; intros ? ?
  | |- wlp fault _ _ => apply wlp_fault
  | |- wlp get _ _ => apply wlp_get
  | |- wlp (gets _) _ _ => apply wlp_gets
  | |- wlp (modify _) _ _ => apply wlp_modify
  end.

(** ** A component of a larger state

    [zoom g p m] runs [m] on the part of the state that [g] reads and [p] writes. *)
Definition zoom {S T A} (g : S → T) (p : T → S → S) (m : M T A) : M S A := λ s,
  match m (g s) with
  | Ok (a, t) => Ok (a, p t s)
  | Panic => Panic
  | Fault => Fault
  | Fuel => Fuel
  end.

Lemma wp_zoom {S T A} (g : S → T) p (m : M T A) s Q :
  wp m (g s) (λ a t, Q a (p t s)) → wp (zoom g p m) s Q.
Proof. unfold wp, zoom. by destruct (m (g s)) as [[]| | |]. Qed.

(** ** Short-circuit conditions *)
Section conditions.
Context {S : Type}.

(** [a && b], [a || b], [!a] and ASSERT of a condition that reads the state. *)
Definition andM (a b : M S bool) : M S bool := x ← a; if x : bool then b else mret false.
Definition orM (a b : M S bool) : M S bool := x ← a; if x : bool then mret true else b.
Definition notM (a : M S bool) : M S bool := x ← a; mret (negb x).
Definition assertM (a : M S bool) : M S unit := x ← a; assert x.
End conditions.

(** ** Generic lemmas on lists *)
Section lists.
Context {A : Type}.
Implicit Types (l k : list A) (x y : A).

Lemma last_app_cons l x k : last (l ++ x :: k) = last (x :: k).
Proof. rewrite last_app. destruct (last (x :: k)) eqn:E; [done|]. by apply last_None in E. Qed.

Lemma list_snoc_inv l : l = [] ∨ ∃ k x, l = k ++ [x].
Proof. induction l using rev_ind; eauto. Qed.

Lemma filter_ext_in (P P' : A → Prop) `{∀ x, Decision (P x), ∀ x, Decision (P' x)} l :
  (∀ x, x ∈ l → P x ↔ P' x) → filter P l = filter P' l.
Proof.
  induction l as [|x l IH]; intros HP; [done|]. rewrite !filter_cons, IH by set_solver.
  destruct (HP x); [set_solver|]. by repeat case_decide; try tauto.
Qed.

Lemma filter_all (P : A → Prop) `{∀ x, Decision (P x)} l : (∀ x, x ∈ l → P x) → filter P l = l.
Proof.
  induction l as [|x l IH]; intros HP; [done|]. by rewrite filter_cons, decide_True, IH by set_solver.
Qed.

(** Exchanging two elements. *)
Lemma list_swap_perm l i j x y :
  l !! i = Some x → l !! j = Some y → <[j := x]> (<[i := y]> l) ≡ₚ l.
Proof.
  intros Hi Hj. pose proof (lookup_lt_Some _ _ _ Hi). pose proof (lookup_lt_Some _ _ _ Hj).
  apply Permutation_inj. split; [by rewrite !length_insert|].
  exists (λ n, if decide (n = j) then i else if decide (n = i) then j else n). split.
  { intros n n'. repeat case_decide; subst; congruence. }
  intros n. case_decide as E1; subst.
  - by rewrite list_lookup_insert_eq by (rewrite length_insert; lia).
  - rewrite list_lookup_insert_ne by done. case_decide as E2; subst.
    + by rewrite list_lookup_insert_eq by lia.
    + by rewrite list_lookup_insert_ne.
Qed.
End lists.

(** Membership and [NoDup] of explicit lists, split into atoms. *)
Lemma NoDup_app_cons {A} (l k : list A) x :
  NoDup (l ++ x :: k) ↔ x ∉ l ∧ x ∉ k ∧ NoDup (l ++ k).
Proof. rewrite <-Permutation_middle, NoDup_cons, not_elem_of_app. tauto. Qed.

Ltac list_facts :=
  repeat match goal with
  | H : NoDup (_ ++ _ :: _) |- _ => apply NoDup_app_cons in H as (?&?&?)
  | H : NoDup (_ :: _) |- _ => apply NoDup_cons in H as (?&?)
  | H : _ ∉ _ ++ _ |- _ => apply not_elem_of_app in H as [??]
  | H : _ ∉ _ :: _ |- _ => apply not_elem_of_cons in H as [??]
  | H : _ ∈ [] |- _ => by apply elem_of_nil in H
  | H : _ ∈ _ ++ _ |- _ => apply elem_of_app in H as [H|H]
  | H : _ ∈ _ :: _ |- _ => apply elem_of_cons in H as [H|H]; subst
  end.

Lemma NoDup_app_l {A} (l k : list A) : NoDup (l ++ k) → NoDup l.
Proof. by intros (?&_&_)%NoDup_app. Qed.
Lemma NoDup_app_r {A} (l k : list A) : NoDup (l ++ k) → NoDup k.
Proof. by intros (_&_&?)%NoDup_app. Qed.

Ltac nodup_solve :=
  repeat match goal with
  | |- NoDup (_ ++ _ :: _) => apply NoDup_app_cons; split_and!
  | |- NoDup (_ :: _) => apply NoDup_cons; split
  | |- NoDup (_ ++ []) => rewrite app_nil_r
  | |- NoDup [] => constructor
  | |- _ ∉ _ ++ _ => apply not_elem_of_app; split
  | |- _ ∉ _ :: _ => apply not_elem_of_cons; split
  | |- _ ∉ [] => apply not_elem_of_nil
  | |- _ => assumption || congruence
  | |- NoDup _ => by eapply NoDup_app_l
  | |- NoDup _ => by eapply NoDup_app_r
  end.

(** Disequality of two elements that membership facts tell apart. *)
Ltac ne_solve :=
  first [ assumption | apply not_eq_sym; assumption | intros ?; subst; contradiction ].

(** ** Machine integers

    [wrap w z] is [z] stored in an unsigned [w]-bit object, [swrap w z] in a
    signed one (two's complement). *)
Definition wrap (w z : Z) : Z := (z `mod` 2 ^ w)%Z.
Definition swrap (w z : Z) : Z := ((z + 2 ^ (w - 1)) `mod` 2 ^ w - 2 ^ (w - 1))%Z.
Notation u8 := (wrap 8).
Notation u32 := (wrap 32).
Notation u64 := (wrap 64).
Notation s32 := (swrap 32).
Notation s64 := (swrap 64).

Section integers.
Local Open Scope Z_scope.

Lemma wrap_small w z : 0 ≤ z < 2 ^ w → wrap w z = z.
Proof. intros. by apply Z.mod_small. Qed.

Lemma wrap_testbit w z k : 0 ≤ k < w → Z.testbit (wrap w z) k = Z.testbit z k.
Proof. intros. apply Z.mod_pow2_bits_low. lia. Qed.

Lemma wrap_bounds w z : 0 ≤ w → 0 ≤ wrap w z < 2 ^ w.
Proof. intros. apply Z.mod_pos_bound, Z.pow_pos_nonneg; lia. Qed.

Lemma swrap_small w z : 0 < w → - 2 ^ (w - 1) ≤ z < 2 ^ (w - 1) → swrap w z = z.
Proof.
  intros Hw Hz. unfold swrap.
  assert (2 ^ w = 2 * 2 ^ (w - 1)) as E.
  { rewrite <-Z.pow_succ_r by lia. f_equal; lia. }
  rewrite Z.mod_small; lia.
Qed.

Lemma swrap_bounds w z : 0 < w → - 2 ^ (w - 1) ≤ swrap w z < 2 ^ (w - 1).
Proof.
  intros Hw. unfold swrap.
  assert (2 ^ w = 2 * 2 ^ (w - 1)) as E.
  { rewrite <-Z.pow_succ_r by lia. f_equal; lia. }
  pose proof (Z.mod_pos_bound (z + 2 ^ (w - 1)) (2 ^ w)). lia.
Qed.

(** The bits of a word above its width are clear. *)
Lemma testbit_bound w k n : 0 ≤ w < 2 ^ n → n ≤ k → Z.testbit w k = false.
Proof.
  intros Hw Hk. destruct (Z.eq_dec w 0) as [->|]; [apply Z.testbit_0_l|].
  apply Z.bits_above_log2; [lia|]. pose proof (proj1 (Z.log2_lt_pow2 w n ltac:(lia)) ltac:(lia)). lia.
Qed.

(** A number below 2^n is one whose bits from n on are clear. *)
Lemma bits_bound w n : 0 ≤ n → 0 ≤ w → (∀ k, n ≤ k → Z.testbit w k = false) → w < 2 ^ n.
Proof.
  intros Hn Hw Hb. destruct (Z.eq_dec w 0) as [->|]; [lia|].
  apply Z.log2_lt_pow2; [lia|]. destruct (Z.lt_ge_cases (Z.log2 w) n) as [|Hge]; [done|].
  specialize (Hb _ Hge). rewrite Z.bit_log2 in Hb; [done|lia].
Qed.

Lemma land_word a b : 0 ≤ a < 2 ^ 32 → 0 ≤ b → 0 ≤ Z.land a b < 2 ^ 32.
Proof.
  intros Ha Hb. assert (0 ≤ Z.land a b) by (apply Z.land_nonneg; lia). split; [done|].
  apply bits_bound; [lia|done|]. intros k Hk. by rewrite Z.land_spec, (testbit_bound a k 32).
Qed.
Lemma lor_word a b : 0 ≤ a < 2 ^ 32 → 0 ≤ b < 2 ^ 32 → 0 ≤ Z.lor a b < 2 ^ 32.
Proof.
  intros Ha Hb. assert (0 ≤ Z.lor a b) by (apply Z.lor_nonneg; lia). split; [done|].
  apply bits_bound; [lia|done|]. intros k Hk. by rewrite Z.lor_spec, !(testbit_bound _ k 32).
Qed.
(** A word and one above it share no bits. *)
Lemma lor_add n a b : 0 ≤ n → 0 ≤ a < 2 ^ n → b mod 2 ^ n = 0 → Z.lor a b = a + b.
Proof.
  intros Hn Ha Hb. symmetry. apply Z.add_nocarry_lor. apply Z.bits_inj'. intros k Hk. rewrite Z.land_spec, Z.bits_0.
  destruct (Z.lt_ge_cases k n).
  - apply andb_false_iff. right. rewrite <-(Z.mod_pow2_bits_low b n) by lia. by rewrite Hb, Z.bits_0.
  - apply andb_false_iff. left. by apply (testbit_bound _ _ n).
Qed.
End integers.

(** ** Words as little-endian bytes *)
Section bytes.
Local Open Scope Z_scope.

Definition word_bytes (w : Z) : list Z :=
  [w mod 256; w / 2 ^ 8 mod 256; w / 2 ^ 16 mod 256; w / 2 ^ 24 mod 256].
Fixpoint bytes_of (ws : list Z) : list Z :=
  match ws with [] => [] | w :: ws => word_bytes w ++ bytes_of ws end.
Fixpoint words_of (bs : list Z) : list Z :=
  match bs with
  | b0 :: b1 :: b2 :: b3 :: bs => (b0 + 2 ^ 8 * b1 + 2 ^ 16 * b2 + 2 ^ 24 * b3) :: words_of bs
  | _ => []
  end.


Lemma word_bytes_word w : 0 ≤ w < 2 ^ 32 →
  w mod 256 + 2 ^ 8 * (w / 2 ^ 8 mod 256) + 2 ^ 16 * (w / 2 ^ 16 mod 256)
    + 2 ^ 24 * (w / 2 ^ 24 mod 256) = w.
Proof. intros. Z.div_mod_to_equations. lia. Qed.

Lemma words_of_bytes_of ws : Forall (λ w, 0 ≤ w < 2 ^ 32) ws → words_of (bytes_of ws) = ws.
Proof.
  induction 1 as [|w ws Hw _ IH]; [done|]. simpl. rewrite IH.
  f_equal. by apply word_bytes_word.
Qed.

Lemma bytes_of_app ws ws' : bytes_of (ws ++ ws') = bytes_of ws ++ bytes_of ws'.
Proof. induction ws as [|w ws IH]; [done|]. simpl. by rewrite IH. Qed.

Lemma bytes_of_length ws : length (bytes_of ws) = (4 * length ws)%nat.
Proof. induction ws as [|w ws IH]; [done|]. simpl. rewrite IH. lia. Qed.
End bytes.
