(* ===== verification/KList.v ===== *)
(** * Doubly linked lists: lib/kernel/list.c, lib/kernel/list.h

    The heap maps the address of a [struct list_elem] to its two links.  A
    [struct list] at address [l] is its two header elements, the head at [l] and
    the tail at [l + 8] (two 4-byte pointers later).  Every function of list.c is
    a computation over that heap; [is_list h l xs] says that the elements of the
    list at [l] are [xs], and the theorems state each function on [xs]. *)

From S2P Require Import Prelude.
Local Open Scope Z_scope.

(** [struct list_elem]: prev and next links. *)
Record list_elem := mk_elem { prev : Z; next : Z }.

Notation heap := (gmap Z list_elem).
Definition NULL : Z := 0.

(** [&list->head] and [&list->tail]. *)
Definition head_of (l : Z) : Z := l.
Definition tail_of (l : Z) : Z := l + 8.

(** Field reads and writes through a pointer: both fault on a null pointer and
    on an address that holds no element. *)
Definition load (p : Z) : M heap list_elem :=
  if p =? NULL then fault else h ← get; from_option (h !! p).
Definition get_prev (p : Z) : M heap Z := e ← load p; mret (prev e).
Definition get_next (p : Z) : M heap Z := e ← load p; mret (next e).
Definition upd_prev (p v : Z) (h : heap) : heap := alter (λ e, mk_elem v (next e)) p h.
Definition upd_next (p v : Z) (h : heap) : heap := alter (λ e, mk_elem (prev e) v) p h.
Definition set_prev (p v : Z) : M heap unit := _ ← load p; modify (upd_prev p v).
Definition set_next (p v : Z) : M heap unit := _ ← load p; modify (upd_next p v).

(** ** The functions of list.c *)

Definition is_head (elem : Z) : M heap bool :=
  andM (mret (negb (elem =? NULL)))
    (andM (p ← get_prev elem; mret (p =? NULL)) (n ← get_next elem; mret (negb (n =? NULL)))).

Definition is_interior (elem : Z) : M heap bool :=
  andM (mret (negb (elem =? NULL)))
    (andM (p ← get_prev elem; mret (negb (p =? NULL))) (n ← get_next elem; mret (negb (n =? NULL)))).

Definition is_tail (elem : Z) : M heap bool :=
  andM (mret (negb (elem =? NULL)))
    (andM (p ← get_prev elem; mret (negb (p =? NULL))) (n ← get_next elem; mret (n =? NULL))).

Definition list_init (list : Z) : M heap unit :=
  assert (negb (list =? NULL));;
  set_prev (head_of list) NULL;;
  set_next (head_of list) (tail_of list);;
  set_prev (tail_of list) (head_of list);;
  set_next (tail_of list) NULL.

Definition list_begin (list : Z) : M heap Z :=
  assert (negb (list =? NULL));; get_next (head_of list).

Definition list_next (elem : Z) : M heap Z :=
  assertM (orM (is_head elem) (is_interior elem));; get_next elem.

Definition list_end (list : Z) : M heap Z :=
  assert (negb (list =? NULL));; mret (tail_of list).

Definition list_rbegin (list : Z) : M heap Z :=
  assert (negb (list =? NULL));; get_prev (tail_of list).

Definition list_prev (elem : Z) : M heap Z :=
  assertM (orM (is_interior elem) (is_tail elem));; get_prev elem.

Definition list_rend (list : Z) : M heap Z :=
  assert (negb (list =? NULL));; mret (head_of list).

Definition list_head (list : Z) : M heap Z :=
  assert (negb (list =? NULL));; mret (head_of list).

Definition list_tail (list : Z) : M heap Z :=
  assert (negb (list =? NULL));; mret (tail_of list).

Definition list_insert (before elem : Z) : M heap unit :=
  assertM (orM (is_interior before) (is_tail before));;
  assert (negb (elem =? NULL));;
  p ← get_prev before; set_prev elem p;;
  set_next elem before;;
  p ← get_prev before; set_next p elem;;
  set_prev before elem.

Definition list_splice (before first last : Z) : M heap unit :=
  assertM (orM (is_interior before) (is_tail before));;
  if first =? last then mret tt else
  last ← list_prev last;
  assertM (is_interior first);;
  assertM (is_interior last);;
  (* Cleanly remove FIRST...LAST from its current list. *)
  p ← get_prev first; n ← get_next last; set_next p n;;
  n ← get_next last; p ← get_prev first; set_prev n p;;
  (* Splice FIRST...LAST into new list. *)
  p ← get_prev before; set_prev first p;;
  set_next last before;;
  p ← get_prev before; set_next p first;;
  set_prev before last.

Definition list_push_front (list elem : Z) : M heap unit :=
  b ← list_begin list; list_insert b elem.

Definition list_push_back (list elem : Z) : M heap unit :=
  e ← list_end list; list_insert e elem.

Definition list_remove (elem : Z) : M heap Z :=
  assertM (is_interior elem);;
  p ← get_prev elem; n ← get_next elem; set_next p n;;
  n ← get_next elem; p ← get_prev elem; set_prev n p;;
  get_next elem.

Definition list_empty (list : Z) : M heap bool :=
  b ← list_begin list; e ← list_end list; mret (b =? e).

Definition list_front (list : Z) : M heap Z :=
  assertM (notM (list_empty list));; get_next (head_of list).

Definition list_back (list : Z) : M heap Z :=
  assertM (notM (list_empty list));; get_prev (tail_of list).

Definition list_pop_front (list : Z) : M heap Z :=
  front ← list_front list; list_remove front;; mret front.

Definition list_pop_back (list : Z) : M heap Z :=
  back ← list_back list; list_remove back;; mret back.

Fixpoint list_size_loop (fuel : nat) (list e cnt : Z) : M heap Z :=
  match fuel with
  | O => nofuel
  | S fuel =>
    t ← list_end list;
    if e =? t then mret cnt else
    n ← list_next e; list_size_loop fuel list n (u32 (cnt + 1))
  end.
Definition list_size (fuel : nat) (list : Z) : M heap Z :=
  e ← list_begin list; list_size_loop fuel list e 0.

(** An lvalue of type [struct list_elem *]: one of the links of an element. *)
Inductive link := Prev (p : Z) | Next (p : Z).
Definition load_link (a : link) : M heap Z :=
  match a with Prev p => get_prev p | Next p => get_next p end.
Definition store_link (a : link) (v : Z) : M heap unit :=
  match a with Prev p => set_prev p v | Next p => set_next p v end.

Definition swap (a b : link) : M heap unit :=
  t ← load_link a; v ← load_link b; store_link a v;; store_link b t.

Fixpoint list_reverse_loop (fuel : nat) (list e : Z) : M heap unit :=
  match fuel with
  | O => nofuel
  | S fuel =>
    t ← list_end list;
    if e =? t then mret tt else
    swap (Prev e) (Next e);; n ← get_prev e; list_reverse_loop fuel list n
  end.
Definition list_reverse (fuel : nat) (list : Z) : M heap unit :=
  b ← list_empty list;
  if negb b then
    e ← list_begin list;
    list_reverse_loop fuel list e;;
    swap (Next (head_of list)) (Prev (tail_of list));;
    hn ← get_next (head_of list);
    tp ← get_prev (tail_of list);
    swap (Prev hn) (Next tp)
  else mret tt.

Section ordered.
(** [less (a, b, aux)]: a list_less_func with its auxiliary data applied. *)
Variable less : Z → Z → bool.

Fixpoint is_sorted_loop (fuel : nat) (a b : Z) : M heap bool :=
  match fuel with
  | O => nofuel
  | S fuel =>
    a ← list_next a;
    if a =? b then mret true else
    p ← list_prev a;
    if less a p then mret false else is_sorted_loop fuel a b
  end.
Definition is_sorted (fuel : nat) (a b : Z) : M heap bool :=
  if a =? b then mret true else is_sorted_loop fuel a b.

Fixpoint find_end_of_run_loop (fuel : nat) (a b : Z) : M heap Z :=
  match fuel with
  | O => nofuel
  | S fuel =>
    a ← list_next a;
    if a =? b then mret a else
    p ← list_prev a;
    if less a p then mret a else find_end_of_run_loop fuel a b
  end.
Definition find_end_of_run (fuel : nat) (a b : Z) : M heap Z :=
  assert (negb (a =? NULL));;
  assert (negb (b =? NULL));;
  assert (negb (a =? b));;
  find_end_of_run_loop fuel a b.

Fixpoint inplace_merge_loop (fuel : nat) (a0 a1b0 b1 : Z) : M heap unit :=
  match fuel with
  | O => nofuel
  | S fuel =>
    if negb (a0 =? a1b0) && negb (a1b0 =? b1) then
      if negb (less a1b0 a0) then
        a0 ← list_next a0; inplace_merge_loop fuel a0 a1b0 b1
      else
        a1b0 ← list_next a1b0;
        p ← list_prev a1b0;
        list_splice a0 p a1b0;;
        inplace_merge_loop fuel a0 a1b0 b1
    else mret tt
  end.
Definition inplace_merge (fuel : nat) (a0 a1b0 b1 : Z) : M heap unit :=
  assert (negb (a0 =? NULL));;
  assert (negb (a1b0 =? NULL));;
  assert (negb (b1 =? NULL));;
  assertM (is_sorted fuel a0 a1b0);;
  assertM (is_sorted fuel a1b0 b1);;
  inplace_merge_loop fuel a0 a1b0 b1.

(** One execution of the [for] loop of list_sort: the value returned is the
    final [output_run_cnt]. *)
Fixpoint list_sort_pass (loop_fuel fuel : nat) (list a0 output_run_cnt : Z) : M heap Z :=
  match loop_fuel with
  | O => nofuel
  | S loop_fuel =>
    t ← list_end list;
    if a0 =? t then mret output_run_cnt else
    let output_run_cnt := u32 (output_run_cnt + 1) in
    a1b0 ← find_end_of_run fuel a0 t;
    if a1b0 =? t then mret output_run_cnt else
    b1 ← find_end_of_run fuel a1b0 t;
    inplace_merge fuel a0 a1b0 b1;;
    list_sort_pass loop_fuel fuel list b1 output_run_cnt
  end.
Fixpoint list_sort_loop (loop_fuel fuel : nat) (list : Z) : M heap unit :=
  match loop_fuel with
  | O => nofuel
  | S loop_fuel =>
    a0 ← list_begin list;
    output_run_cnt ← list_sort_pass fuel fuel list a0 0;
    if 1 <? output_run_cnt then list_sort_loop loop_fuel fuel list else mret tt
  end.
Definition list_sort (fuel : nat) (list : Z) : M heap unit :=
  assert (negb (list =? NULL));;
  list_sort_loop fuel fuel list;;
  b ← list_begin list; t ← list_end list;
  assertM (is_sorted fuel b t).

Fixpoint list_insert_ordered_loop (fuel : nat) (list elem e : Z) : M heap Z :=
  match fuel with
  | O => nofuel
  | S fuel =>
    t ← list_end list;
    if e =? t then mret e else
    if less elem e then mret e else
    n ← list_next e; list_insert_ordered_loop fuel list elem n
  end.
Definition list_insert_ordered (fuel : nat) (list elem : Z) : M heap unit :=
  assert (negb (list =? NULL));;
  assert (negb (elem =? NULL));;
  e ← list_begin list;
  e ← list_insert_ordered_loop fuel list elem e;
  list_insert e elem.

Fixpoint list_unique_loop (fuel : nat) (list duplicates elem : Z) : M heap unit :=
  match fuel with
  | O => nofuel
  | S fuel =>
    nxt ← list_next elem;
    t ← list_end list;
    if nxt =? t then mret tt else
    if negb (less elem nxt) && negb (less nxt elem) then
      list_remove nxt;;
      (if negb (duplicates =? NULL) then list_push_back duplicates nxt else mret tt);;
      list_unique_loop fuel list duplicates elem
    else list_unique_loop fuel list duplicates nxt
  end.
Definition list_unique (fuel : nat) (list duplicates : Z) : M heap unit :=
  assert (negb (list =? NULL));;
  b ← list_empty list;
  if b : bool then mret tt else
  elem ← list_begin list;
  list_unique_loop fuel list duplicates elem.

Fixpoint list_max_loop (fuel : nat) (list max e : Z) : M heap Z :=
  match fuel with
  | O => nofuel
  | S fuel =>
    t ← list_end list;
    if e =? t then mret max else
    n ← list_next e; list_max_loop fuel list (if less max e then e else max) n
  end.
Definition list_max (fuel : nat) (list : Z) : M heap Z :=
  max ← list_begin list;
  t ← list_end list;
  if negb (max =? t) then e ← list_next max; list_max_loop fuel list max e else mret max.

Fixpoint list_min_loop (fuel : nat) (list min e : Z) : M heap Z :=
  match fuel with
  | O => nofuel
  | S fuel =>
    t ← list_end list;
    if e =? t then mret min else
    n ← list_next e; list_min_loop fuel list (if less e min then e else min) n
  end.
Definition list_min (fuel : nat) (list : Z) : M heap Z :=
  min ← list_begin list;
  t ← list_end list;
  if negb (min =? t) then e ← list_next min; list_min_loop fuel list min e else mret min.
End ordered.

(** ** Representation *)

(** The links of the element at [p], if there is one. *)
Definition nx (h : heap) (p : Z) : option Z := next <$> h !! p.
Definition pv (h : heap) (p : Z) : option Z := prev <$> h !! p.

(** [a] and [b] are neighbours; [path h ps]: all consecutive elements of [ps] are. *)
Definition lnk (h : heap) (a b : Z) : Prop := nx h a = Some b ∧ pv h b = Some a.
Fixpoint path (h : heap) (ps : list Z) : Prop :=
  match ps with
  | a :: (b :: _) as r => lnk h a b ∧ path h r
  | _ => True
  end.

(** The header and interior elements of the list at [l], in order. *)
Definition nodes (l : Z) (xs : list Z) : list Z := head_of l :: xs ++ [tail_of l].

(** The list at [l] is well formed and its interior elements are [xs]. *)
Record is_list (h : heap) (l : Z) (xs : list Z) : Prop := {
  il_path : path h (nodes l xs);
  il_nodup : NoDup (nodes l xs);
  il_nonnull : NULL ∉ nodes l xs;
  il_head : pv h (head_of l) = Some NULL;
  il_tail : nx h (tail_of l) = Some NULL
}.

(** [h] and [h'] agree outside of [ps]. *)
Definition same_outside (ps : list Z) (h h' : heap) : Prop :=
  ∀ q, q ∉ ps → h' !! q = h !! q.

(** *** Reads after writes *)
Section links.
Implicit Types (h : heap) (p q v a b : Z).

Lemma pv_upd_next h p v q : pv (upd_next p v h) q = pv h q.
Proof.
  unfold pv, upd_next. rewrite lookup_alter. case_decide; subst; [|done].
  by destruct (h !! q).
Qed.
Lemma nx_upd_prev h p v q : nx (upd_prev p v h) q = nx h q.
Proof.
  unfold nx, upd_prev. rewrite lookup_alter. case_decide; subst; [|done].
  by destruct (h !! q).
Qed.
Lemma nx_upd_next_ne h p v q : p ≠ q → nx (upd_next p v h) q = nx h q.
Proof. intros. unfold nx, upd_next. by rewrite lookup_alter_ne. Qed.
Lemma pv_upd_prev_ne h p v q : p ≠ q → pv (upd_prev p v h) q = pv h q.
Proof. intros. unfold pv, upd_prev. by rewrite lookup_alter_ne. Qed.
Lemma nx_upd_next_eq h p v : is_Some (h !! p) → nx (upd_next p v h) p = Some v.
Proof. intros [e He]. unfold nx, upd_next. by rewrite lookup_alter_eq, He. Qed.
Lemma pv_upd_prev_eq h p v : is_Some (h !! p) → pv (upd_prev p v h) p = Some v.
Proof. intros [e He]. unfold pv, upd_prev. by rewrite lookup_alter_eq, He. Qed.
Lemma upd_next_mapped h p v q : is_Some (upd_next p v h !! q) ↔ is_Some (h !! q).
Proof.
  unfold upd_next. rewrite lookup_alter. case_decide; subst; [|done].
  by rewrite fmap_is_Some.
Qed.
Lemma upd_prev_mapped h p v q : is_Some (upd_prev p v h !! q) ↔ is_Some (h !! q).
Proof.
  unfold upd_prev. rewrite lookup_alter. case_decide; subst; [|done].
  by rewrite fmap_is_Some.
Qed.
Lemma upd_next_ne h p v q : p ≠ q → upd_next p v h !! q = h !! q.
Proof. intros. unfold upd_next. by rewrite lookup_alter_ne. Qed.
Lemma upd_prev_ne h p v q : p ≠ q → upd_prev p v h !! q = h !! q.
Proof. intros. unfold upd_prev. by rewrite lookup_alter_ne. Qed.

Lemma nx_mapped h p v : nx h p = Some v → is_Some (h !! p).
Proof. unfold nx. destruct (h !! p); naive_solver. Qed.
Lemma pv_mapped h p v : pv h p = Some v → is_Some (h !! p).
Proof. unfold pv. destruct (h !! p); naive_solver. Qed.
End links.

Create HintDb klist.
#[export] Hint Resolve nx_mapped pv_mapped : klist.
#[export] Hint Rewrite pv_upd_next nx_upd_prev : klist.
#[export] Hint Rewrite upd_next_mapped upd_prev_mapped : klist.

(** Symbolic execution of the field accesses. *)
Section wp_links.
Implicit Types (h : heap) (p v : Z).

Lemma wp_load h p e Q : p ≠ NULL → h !! p = Some e → Q e h → wp (load p) h Q.
Proof. intros Hp He HQ. unfold load. rewrite (proj2 (Z.eqb_neq _ _) Hp). unfold wp; simpl.
  unfold mbind, M_bind; simpl. by rewrite He. Qed.
Lemma wp_get_prev h p v Q : p ≠ NULL → pv h p = Some v → Q v h → wp (get_prev p) h Q.
Proof.
  intros Hp Hv HQ. unfold pv in Hv. destruct (h !! p) as [e|] eqn:E; simplify_eq/=.
  apply wp_bind, (wp_load _ _ e); [done..|]. by apply wp_ret.
Qed.
Lemma wp_get_next h p v Q : p ≠ NULL → nx h p = Some v → Q v h → wp (get_next p) h Q.
Proof.
  intros Hp Hv HQ. unfold nx in Hv. destruct (h !! p) as [e|] eqn:E; simplify_eq/=.
  apply wp_bind, (wp_load _ _ e); [done..|]. by apply wp_ret.
Qed.
Lemma wp_set_prev h p v Q :
  p ≠ NULL → is_Some (h !! p) → Q tt (upd_prev p v h) → wp (set_prev p v) h Q.
Proof. intros Hp [e He] HQ. by apply wp_bind, (wp_load _ _ e). Qed.
Lemma wp_set_next h p v Q :
  p ≠ NULL → is_Some (h !! p) → Q tt (upd_next p v h) → wp (set_next p v) h Q.
Proof. intros Hp [e He] HQ. by apply wp_bind, (wp_load _ _ e). Qed.
End wp_links.

(** *** Paths *)
Section paths.
Implicit Types (h : heap) (a b x : Z) (ps qs : list Z).

Lemma path_cons2 h a b ps : path h (a :: b :: ps) ↔ lnk h a b ∧ path h (b :: ps).
Proof. done. Qed.

Lemma path_split h ps x qs : path h (ps ++ x :: qs) ↔ path h (ps ++ [x]) ∧ path h (x :: qs).
Proof.
  induction ps as [|a ps IH]; [simpl; naive_solver|].
  destruct ps as [|b ps]; simpl in *; naive_solver.
Qed.

Lemma path_split2 h ps a b qs :
  path h (ps ++ a :: b :: qs) ↔ path h (ps ++ [a]) ∧ lnk h a b ∧ path h (b :: qs).
Proof. by rewrite path_split, path_cons2. Qed.

Lemma path_app h ps x y qs :
  last ps = Some x → head qs = Some y →
  path h (ps ++ qs) ↔ path h ps ∧ lnk h x y ∧ path h qs.
Proof.
  intros [k ->]%last_Some Hy. destruct qs; simplify_eq/=.
  rewrite <-app_assoc. apply path_split2.
Qed.

Lemma path_tail h a ps : path h (a :: ps) → path h ps.
Proof. destruct ps; simpl; naive_solver. Qed.

(** A path is kept by writes that leave its links alone. *)
Lemma path_ext h h' ps :
  NoDup ps →
  (∀ q, q ∈ ps → last ps ≠ Some q → nx h' q = nx h q) →
  (∀ q, q ∈ ps → head ps ≠ Some q → pv h' q = pv h q) →
  path h ps → path h' ps.
Proof.
  induction ps as [|a [|b ps] IH]; [done..|]. intros Hnd Hn Hp [[Ha Hb] Hps].
  apply NoDup_cons in Hnd as [Hab Hnd]. split; [split|].
  - rewrite Hn; [done|set_solver|]. rewrite last_cons_cons. intros Hl.
    apply last_Some in Hl as [k Hk]. apply Hab. rewrite Hk. set_solver.
  - rewrite Hp; [done|set_solver|]. simpl. set_solver.
  - apply IH; [done| | |done].
    + intros q Hq Hl. apply Hn; [set_solver|]. by rewrite last_cons_cons.
    + intros q Hq Hl. apply Hp; [set_solver|]. simpl. set_solver.
Qed.
End paths.

(** The pointer to the first element of the suffix [ys] of the list at [l]: its
    tail when the suffix is empty. *)
Definition hd_ptr (l : Z) (ys : list Z) : Z := default (tail_of l) (head ys).

Section nodes.
Implicit Types (h : heap) (l x : Z) (xs ys : list Z).

Lemma nodes_split l xs ys :
  nodes l (xs ++ ys) = (head_of l :: xs) ++ hd_ptr l ys :: drop 1 (ys ++ [tail_of l]).
Proof. unfold nodes, hd_ptr. rewrite <-app_assoc. by destruct ys. Qed.

Lemma suffix_nodes l ys : ys ++ [tail_of l] = hd_ptr l ys :: drop 1 (ys ++ [tail_of l]).
Proof. by destruct ys. Qed.

Lemma node_prev h l xs ps x qs :
  is_list h l xs → nodes l xs = ps ++ x :: qs → pv h x = Some (default NULL (last ps)).
Proof.
  intros Hl E. destruct (list_snoc_inv ps) as [->|(ps' & a & ->)].
  - unfold nodes in E; simplify_eq/=. apply Hl.
  - rewrite last_snoc. pose proof (il_path _ _ _ Hl) as Hp. rewrite E in Hp.
    rewrite <-app_assoc in Hp; simpl in Hp. apply path_split2 in Hp. apply Hp.
Qed.

Lemma node_next h l xs ps x qs :
  is_list h l xs → nodes l xs = ps ++ x :: qs → nx h x = Some (default NULL (head qs)).
Proof.
  intros Hl E. destruct qs as [|b qs]; simpl.
  - unfold nodes in E. rewrite app_comm_cons in E. apply app_inj_tail in E as [_ <-]. apply Hl.
  - pose proof (il_path _ _ _ Hl) as Hp. rewrite E in Hp. apply path_split2 in Hp. apply Hp.
Qed.

Lemma node_nonnull h l xs x : is_list h l xs → x ∈ nodes l xs → x ≠ NULL.
Proof. intros Hl Hx ->. by apply Hl in Hx. Qed.

Lemma node_mapped h l xs x : is_list h l xs → x ∈ nodes l xs → is_Some (h !! x).
Proof.
  intros Hl (ps & qs & E)%list_elem_of_split. eapply nx_mapped, node_next; eauto.
Qed.

Lemma hd_ptr_node l xs ys : hd_ptr l ys ∈ nodes l (xs ++ ys).
Proof. rewrite nodes_split. set_solver. Qed.

Lemma hd_ptr_in l ys : hd_ptr l ys ∈ ys ++ [tail_of l].
Proof. rewrite suffix_nodes. set_solver. Qed.

Lemma default_last_in l xs : default l (last xs) ∈ head_of l :: xs.
Proof. destruct (last xs) eqn:E; simpl; [apply last_Some_elem_of in E|]; set_solver. Qed.

Lemma node_ne_head l xs ys x :
  NoDup (nodes l (xs ++ ys)) → x ∈ ys ++ [tail_of l] → x ≠ head_of l.
Proof. unfold nodes. intros [Hh _]%NoDup_cons Hx ->. set_solver. Qed.

Lemma node_ne_tail l xs ys x :
  NoDup (nodes l (xs ++ ys)) → x ∈ head_of l :: xs → x ≠ tail_of l.
Proof.
  unfold nodes. rewrite app_comm_cons. intros (_ & Hd & _)%NoDup_app Hx ->.
  apply (Hd (tail_of l)); set_solver.
Qed.

Lemma hd_ptr_eq_tail h l xs ys :
  is_list h l (xs ++ ys) → hd_ptr l ys = tail_of l ↔ ys = [].
Proof.
  intros Hl. destruct ys as [|y ys]; [done|]. split; [|done]. unfold hd_ptr; simpl. intros ->.
  apply il_nodup in Hl. unfold nodes in Hl. rewrite !NoDup_cons, !NoDup_app in Hl. set_solver.
Qed.
End nodes.

(** *** The traversal primitives on a well-formed list *)

Ltac klist_simp :=
  repeat first
    [ progress autorewrite with klist
    | rewrite nx_upd_next_ne by ne_solve
    | rewrite pv_upd_prev_ne by ne_solve
    | rewrite upd_next_ne by ne_solve
    | rewrite upd_prev_ne by ne_solve ].

Section classify.
Context (h : heap) (x p n : Z).
Context (Hx : x ≠ NULL) (Hp : pv h x = Some p) (Hn : nx h x = Some n).

Lemma wp_is_head Q : Q ((p =? NULL) && negb (n =? NULL)) h → wp (is_head x) h Q.
Proof.
  intros HQ. unfold is_head, andM. rewrite (proj2 (Z.eqb_neq _ _) Hx). simpl.
  repeat wp_step. apply (wp_get_prev _ _ p); [done..|]. repeat wp_step.
  destruct (p =? NULL); simpl in *; [|by apply wp_ret].
  wp_step. by apply (wp_get_next _ _ n).
Qed.

Lemma wp_is_interior Q : Q (negb (p =? NULL) && negb (n =? NULL)) h → wp (is_interior x) h Q.
Proof.
  intros HQ. unfold is_interior, andM. rewrite (proj2 (Z.eqb_neq _ _) Hx). simpl.
  repeat wp_step. apply (wp_get_prev _ _ p); [done..|]. repeat wp_step.
  destruct (p =? NULL); simpl in *; [by apply wp_ret|].
  wp_step. by apply (wp_get_next _ _ n).
Qed.

Lemma wp_is_tail Q : Q (negb (p =? NULL) && (n =? NULL)) h → wp (is_tail x) h Q.
Proof.
  intros HQ. unfold is_tail, andM. rewrite (proj2 (Z.eqb_neq _ _) Hx). simpl.
  repeat wp_step. apply (wp_get_prev _ _ p); [done..|]. repeat wp_step.
  destruct (p =? NULL); simpl in *; [by apply wp_ret|].
  wp_step. by apply (wp_get_next _ _ n).
Qed.

(** ASSERT (is_head (x) || is_interior (x)) holds when [x] has a successor. *)
Lemma wp_assert_has_next Q :
  n ≠ NULL → Q tt h → wp (assertM (orM (is_head x) (is_interior x))) h Q.
Proof.
  intros Hn0%Z.eqb_neq HQ. unfold assertM, orM. repeat wp_step. apply wp_is_head.
  rewrite Hn0. destruct (p =? NULL) eqn:E; simpl; [by repeat wp_step|].
  apply wp_is_interior. by rewrite E, Hn0.
Qed.

(** ASSERT (is_interior (x) || is_tail (x)) holds when [x] has a predecessor. *)
Lemma wp_assert_has_prev Q :
  p ≠ NULL → Q tt h → wp (assertM (orM (is_interior x) (is_tail x))) h Q.
Proof.
  intros Hp0%Z.eqb_neq HQ. unfold assertM, orM. repeat wp_step. apply wp_is_interior.
  rewrite Hp0. destruct (n =? NULL) eqn:E; simpl; [|by repeat wp_step].
  apply wp_is_tail. by rewrite E, Hp0.
Qed.

Lemma wp_assert_interior Q :
  p ≠ NULL → n ≠ NULL → Q tt h → wp (assertM (is_interior x)) h Q.
Proof.
  intros Hp0%Z.eqb_neq Hn0%Z.eqb_neq HQ. unfold assertM. repeat wp_step.
  apply wp_is_interior. by rewrite Hp0, Hn0.
Qed.

Lemma wp_list_next Q : n ≠ NULL → Q n h → wp (list_next x) h Q.
Proof. intros. apply wp_bind, wp_assert_has_next; [done|]. by apply (wp_get_next _ _ n). Qed.

Lemma wp_list_prev Q : p ≠ NULL → Q p h → wp (list_prev x) h Q.
Proof. intros. apply wp_bind, wp_assert_has_prev; [done|]. by apply (wp_get_prev _ _ p). Qed.
End classify.

(** *** Traversal of a well-formed list *)
Section traversal.
Context (h : heap) (l : Z).

Lemma list_nonnull xs : is_list h l xs → l ≠ NULL.
Proof. intros Hl. apply (node_nonnull _ _ _ _ Hl). unfold nodes, head_of. set_solver. Qed.

Lemma tail_nonnull xs : is_list h l xs → tail_of l ≠ NULL.
Proof. intros Hl. apply (node_nonnull _ _ _ _ Hl). unfold nodes. set_solver. Qed.

Lemma hd_ptr_nonnull xs ys : is_list h l (xs ++ ys) → hd_ptr l ys ≠ NULL.
Proof. intros Hl. apply (node_nonnull _ _ _ _ Hl), hd_ptr_node. Qed.

Lemma head_next xs : is_list h l xs → nx h l = Some (hd_ptr l xs).
Proof. intros Hl. rewrite (node_next h l xs [] l (xs ++ [tail_of l])); [by destruct xs|done..]. Qed.

Lemma tail_prev xs : is_list h l xs → pv h (tail_of l) = Some (default l (last xs)).
Proof.
  intros Hl. rewrite (node_prev h l xs (l :: xs) (tail_of l) []); [|done..].
  rewrite last_cons. by destruct (last xs).
Qed.

Lemma elem_next xs y ys : is_list h l (xs ++ y :: ys) → nx h y = Some (hd_ptr l ys).
Proof.
  intros Hl. rewrite (node_next h l (xs ++ y :: ys) (l :: xs) y (ys ++ [tail_of l])); [by destruct ys|done|].
  unfold nodes. by rewrite <-app_assoc.
Qed.

Lemma suffix_prev xs ys :
  is_list h l (xs ++ ys) → pv h (hd_ptr l ys) = Some (default l (last xs)).
Proof.
  intros Hl. rewrite (node_prev h l (xs ++ ys) (l :: xs) (hd_ptr l ys) (drop 1 (ys ++ [tail_of l])));
    [|done|apply nodes_split].
  rewrite last_cons. by destruct (last xs).
Qed.

Lemma suffix_next xs ys :
  is_list h l (xs ++ ys) → ∃ n, nx h (hd_ptr l ys) = Some n.
Proof.
  intros Hl. rewrite (node_next h l (xs ++ ys) (l :: xs) (hd_ptr l ys) (drop 1 (ys ++ [tail_of l])));
    [eauto|done|apply nodes_split].
Qed.

Lemma default_last_nonnull xs ys : is_list h l (xs ++ ys) → default l (last xs) ≠ NULL.
Proof.
  intros Hl. destruct (list_snoc_inv xs) as [->|(k & x & ->)]; [by eapply list_nonnull|].
  rewrite last_snoc. apply (node_nonnull _ _ _ _ Hl). unfold nodes. set_solver.
Qed.

Lemma wp_begin xs Q : is_list h l xs → Q (hd_ptr l xs) h → wp (list_begin l) h Q.
Proof.
  intros Hl HQ. pose proof (list_nonnull _ Hl). unfold list_begin. repeat wp_step.
  { by rewrite (proj2 (Z.eqb_neq _ _)). }
  by apply (wp_get_next _ _ (hd_ptr l xs)); [|apply head_next|].
Qed.

Lemma wp_end Q : l ≠ NULL → Q (tail_of l) h → wp (list_end l) h Q.
Proof.
  intros Hl HQ. unfold list_end. repeat wp_step; [|done]. by rewrite (proj2 (Z.eqb_neq _ _)).
Qed.

Lemma wp_next xs y ys Q :
  is_list h l (xs ++ y :: ys) → Q (hd_ptr l ys) h → wp (list_next y) h Q.
Proof.
  intros Hl HQ.
  apply (wp_list_next h y (default l (last xs)) (hd_ptr l ys)); [| | | |done].
  - by apply (hd_ptr_nonnull xs (y :: ys)).
  - by apply (suffix_prev xs (y :: ys)).
  - by eapply elem_next.
  - apply (hd_ptr_nonnull (xs ++ [y])). by rewrite <-app_assoc.
Qed.

Lemma wp_prev xs y ys Q :
  is_list h l (xs ++ y :: ys) → Q y h → wp (list_prev (hd_ptr l ys)) h Q.
Proof.
  intros Hl HQ. rewrite cons_middle, app_assoc in Hl.
  destruct (suffix_next _ _ Hl) as [n Hn].
  apply (wp_list_prev h (hd_ptr l ys) y n); [| |done| |done].
  - by eapply hd_ptr_nonnull.
  - rewrite (suffix_prev _ _ Hl). by rewrite last_snoc.
  - pose proof (default_last_nonnull _ _ Hl) as Hd. by rewrite last_snoc in Hd.
Qed.

Lemma wp_empty xs Q :
  is_list h l xs → Q (bool_decide (xs = [])) h → wp (list_empty l) h Q.
Proof.
  intros Hl HQ. unfold list_empty. wp_step. apply (wp_begin xs); [done|]. wp_step.
  apply wp_end; [by eapply list_nonnull|]. wp_step.
  replace (hd_ptr l xs =? tail_of l) with (bool_decide (xs = [])); [done|].
  apply eq_bool_prop_intro. rewrite bool_decide_spec, Is_true_true, Z.eqb_eq.
  symmetry. apply (hd_ptr_eq_tail h l []). done.
Qed.
End traversal.

(** *** Insertion and removal *)

(** The nodes on both sides of a position of the list. *)
Lemma nodes_split_pred l xs ys :
  ∃ ps, head_of l :: xs = ps ++ [default l (last xs)] ∧
        nodes l (xs ++ ys) =
          ps ++ default l (last xs) :: hd_ptr l ys :: drop 1 (ys ++ [tail_of l]).
Proof.
  rewrite nodes_split. destruct (list_snoc_inv xs) as [->|(k & x & ->)].
  - by exists [].
  - exists (l :: k). rewrite last_snoc. simpl. by rewrite <-app_assoc.
Qed.

(** What [NoDup] says of two adjacent segments of a list and their surroundings. *)
Lemma NoDup_segments (ps : list Z) a ms fs z qs :
  NoDup (ps ++ a :: ms ++ fs ++ z :: qs) →
  NoDup (ps ++ [a]) ∧ NoDup ms ∧ NoDup fs ∧ NoDup (z :: qs) ∧
  (∀ x, x ∈ ms → x ∉ ps ++ [a] ∧ x ∉ fs ++ z :: qs) ∧
  (∀ x, x ∈ fs → x ∉ ps ++ [a] ∧ x ∉ ms ++ z :: qs) ∧
  (∀ x, x ∈ ps ++ [a] → x ∉ z :: qs).
Proof.
  rewrite (cons_middle a), (app_assoc ps).
  intros (H1 & D1 & (H2 & D2 & (H3 & D3 & H4)%NoDup_app)%NoDup_app)%NoDup_app.
  split_and!; try done; intros x Hx; [split|split|]; intros Hx'.
  - apply (D1 x); set_solver.
  - apply (D2 x); set_solver.
  - apply (D1 x); set_solver.
  - apply elem_of_app in Hx' as [?|?]; [apply (D2 x)|apply (D3 x)]; set_solver.
  - apply (D1 x); set_solver.
Qed.

(** The writes of [hp] leave the links of a path alone. *)
Ltac path_frame hp :=
  unfold hp; intros ?q ?Hq ?Hq'; rewrite ?last_snoc in *; simpl in *; list_facts;
  klist_simp; congruence.

Section path_mutation.
Implicit Types (h : heap) (p b e : Z) (ps qs : list Z).

(** The heap after list_insert. *)
Definition insert_heap h p b e : heap :=
  upd_prev b e (upd_next p e (upd_next e b (upd_prev e p h))).

Lemma path_insert h ps p b qs e :
  NoDup (ps ++ p :: b :: qs) → e ∉ ps ++ p :: b :: qs →
  is_Some (h !! p) → is_Some (h !! b) → is_Some (h !! e) →
  path h (ps ++ p :: b :: qs) → path (insert_heap h p b e) (ps ++ p :: e :: b :: qs).
Proof.
  intros Hnd He Hpm Hbm Hem (Hp1 & Hpb & Hp2)%path_split2.
  list_facts. apply path_split2. split_and!; [|split|apply path_cons2; split; [split|]].
  - refine (path_ext h _ _ _ _ _ Hp1); [nodup_solve|..]; path_frame insert_heap.
  - unfold insert_heap. klist_simp. by rewrite nx_upd_next_eq by (by klist_simp).
  - unfold insert_heap. klist_simp. by rewrite pv_upd_prev_eq by (by klist_simp).
  - unfold insert_heap. klist_simp. by rewrite nx_upd_next_eq by (by klist_simp).
  - unfold insert_heap. klist_simp. by rewrite pv_upd_prev_eq by (by klist_simp).
  - refine (path_ext h _ _ _ _ _ Hp2); [nodup_solve|..]; path_frame insert_heap.
Qed.

(** The heap after list_remove. *)
Definition remove_heap h p n : heap := upd_prev n p (upd_next p n h).

Lemma path_remove h ps p e n qs :
  NoDup (ps ++ p :: e :: n :: qs) → is_Some (h !! p) → is_Some (h !! n) →
  path h (ps ++ p :: e :: n :: qs) → path (remove_heap h p n) (ps ++ p :: n :: qs).
Proof.
  intros Hnd Hpm Hnm (Hp1 & Hpe & (Hen & Hp2)%path_cons2)%path_split2.
  list_facts. apply path_split2. split_and!; [|split|].
  - refine (path_ext h _ _ _ _ _ Hp1); [nodup_solve|..]; path_frame remove_heap.
  - unfold remove_heap. klist_simp. by rewrite nx_upd_next_eq.
  - unfold remove_heap. klist_simp. by rewrite pv_upd_prev_eq by (by klist_simp).
  - refine (path_ext h _ _ _ _ _ Hp2); [nodup_solve|..]; path_frame remove_heap.
Qed.

(** The heap after list_splice: [first..lst], between [fp] and [ln], moves to
    between [bp] and [before]. *)
Definition splice_heap h fp first lst ln bp before : heap :=
  upd_prev before lst (upd_next bp first (upd_next lst before (upd_prev first bp
    (upd_prev ln fp (upd_next fp ln h))))).

Ltac splice_frame :=
  unfold splice_heap; repeat match goal with
  | H : head _ = Some _, H' : context [head _] |- _ => rewrite H in H'
  | H : last _ = Some _, H' : context [last _] |- _ => rewrite H in H'
  end; rewrite ?last_snoc in *; simpl in *; list_facts; klist_simp; congruence.

Lemma path_splice h ps bp ms fs ln qs before fp first lst :
  NoDup (ps ++ bp :: ms ++ fs ++ ln :: qs) →
  head ms = Some before → last ms = Some fp → head fs = Some first → last fs = Some lst →
  (∀ x, x ∈ ps ++ bp :: ms ++ fs ++ ln :: qs → is_Some (h !! x)) →
  path h (ps ++ bp :: ms ++ fs ++ ln :: qs) →
  path (splice_heap h fp first lst ln bp before) (ps ++ bp :: fs ++ ms ++ ln :: qs).
Proof.
  intros Hnd Hms Hms' Hfs Hfs' Hm Hp.
  assert (before ∈ ms) as H by (by apply head_Some_elem_of).
  assert (first ∈ fs) as H0 by (by apply head_Some_elem_of).
  assert (fp ∈ ms) as H1 by (by apply last_Some_elem_of).
  assert (lst ∈ fs) as H2 by (by apply last_Some_elem_of).
  assert (is_Some (h !! bp) ∧ is_Some (h !! before) ∧ is_Some (h !! fp) ∧
          is_Some (h !! first) ∧ is_Some (h !! lst) ∧ is_Some (h !! ln)) as (?&?&?&?&?&?).
  { clear -Hm H H0 H1 H2. split_and!; apply Hm; set_solver. }
  clear Hm. rewrite (cons_middle bp), (app_assoc ps) in Hp.
  rewrite (cons_middle bp), (app_assoc ps).
  rewrite (path_app _ _ bp before) in Hp by (by rewrite ?last_snoc, ?head_app, ?Hms).
  rewrite (path_app _ (ps ++ [bp]) bp first) by (by rewrite ?last_snoc, ?head_app, ?Hfs).
  rewrite (path_app _ ms fp first) in Hp by (by rewrite ?head_app, ?Hfs).
  rewrite (path_app _ fs lst before) by (by rewrite ?head_app, ?Hms).
  rewrite (path_app _ fs lst ln) in Hp by done. rewrite (path_app _ ms fp ln) by done.
  destruct Hp as (Hp1 & _ & Hpm & _ & Hpf & _ & Hp2).
  apply NoDup_segments in Hnd as (Hn1 & Hn2 & Hn3 & Hn4 & Hdm & Hdf & Hde).
  destruct (Hdm before), (Hdm fp), (Hdf first), (Hdf lst); [done..|].
  assert (bp ∉ ln :: qs) by (apply Hde; set_solver).
  assert (ln ∉ ps ++ [bp]) by (intros ?; eapply Hde; set_solver).
  assert (bp ∉ ms) by (intros ?; destruct (Hdm bp); set_solver).
  assert (bp ∉ fs) by (intros ?; destruct (Hdf bp); set_solver).
  assert (∀ q, q ∈ ln :: qs → q ∉ [fp; bp; lst; before; first]) as Hdq.
  { intros q Hq. list_facts; nodup_solve; ne_solve. }
  split_and!.
  - refine (path_ext h _ _ Hn1 _ _ Hp1); intros q Hq Hq'; pose proof (Hde q Hq);
      splice_frame.
  - split; unfold splice_heap; list_facts; klist_simp.
    + by rewrite nx_upd_next_eq by (by klist_simp).
    + by rewrite pv_upd_prev_eq by (by klist_simp).
  - refine (path_ext h _ _ Hn3 _ _ Hpf); intros q Hq Hq'; destruct (Hdf q Hq);
      splice_frame.
  - split; unfold splice_heap; list_facts; klist_simp.
    + by rewrite nx_upd_next_eq by (by klist_simp).
    + by rewrite pv_upd_prev_eq by (by klist_simp).
  - refine (path_ext h _ _ Hn2 _ _ Hpm); intros q Hq Hq'; destruct (Hdm q Hq);
      splice_frame.
  - split; unfold splice_heap; list_facts; klist_simp.
    + by rewrite nx_upd_next_eq by (by klist_simp).
    + by rewrite pv_upd_prev_eq by (by klist_simp).
  - refine (path_ext h _ _ Hn4 _ _ Hp2); intros q Hq Hq'; pose proof (Hdq q Hq); splice_frame.
Qed.
End path_mutation.

(** *** Specifications of the mutating operations *)

Lemma nx_same ps h h' q : same_outside ps h h' → q ∉ ps → nx h' q = nx h q.
Proof. intros Hs Hq. unfold nx. by rewrite Hs. Qed.
Lemma pv_same ps h h' q : same_outside ps h h' → q ∉ ps → pv h' q = pv h q.
Proof. intros Hs Hq. unfold pv. by rewrite Hs. Qed.

Lemma same_outside_trans ps h1 h2 h3 :
  same_outside ps h1 h2 → same_outside ps h2 h3 → same_outside ps h1 h3.
Proof. intros H1 H2 q Hq. by rewrite H2, H1. Qed.
Lemma same_outside_mono ps qs h h' :
  (∀ q, q ∈ ps → q ∈ qs) → same_outside ps h h' → same_outside qs h h'.
Proof. intros Hsub Hs q Hq. apply Hs. naive_solver. Qed.
#[export] Instance same_outside_refl ps : Reflexive (same_outside ps).
Proof. by intros h q _. Qed.

(** A list is kept by whatever writes outside of it. *)
Lemma is_list_frame ps h h' l xs :
  same_outside ps h h' → (∀ q, q ∈ nodes l xs → q ∉ ps) → is_list h l xs → is_list h' l xs.
Proof.
  intros Hs Hd [Hp Hnd Hnn Hh Ht].
  assert (head_of l ∈ nodes l xs) by set_solver.
  assert (tail_of l ∈ nodes l xs) by (unfold nodes; set_solver).
  split; [|done|done| |].
  - apply (path_ext h); [done| | |done]; intros q Hq _.
    + eapply nx_same; eauto.
    + eapply pv_same; eauto.
  - rewrite (pv_same ps h); eauto.
  - rewrite (nx_same ps h); eauto.
Qed.

Lemma nodes_perm_cons l xs ys e : nodes l (xs ++ e :: ys) ≡ₚ e :: nodes l (xs ++ ys).
Proof. unfold nodes. rewrite <-!app_assoc. simpl. solve_Permutation. Qed.

Lemma insert_is_list h l xs ys e :
  is_list h l (xs ++ ys) → e ≠ NULL → e ∉ nodes l (xs ++ ys) → is_Some (h !! e) →
  is_list (insert_heap h (default l (last xs)) (hd_ptr l ys) e) l (xs ++ e :: ys).
Proof.
  intros Hl He0 He Hem.
  destruct (nodes_split_pred l xs ys) as (ps & Eps & E).
  assert (nodes l (xs ++ e :: ys) =
    ps ++ default l (last xs) :: e :: hd_ptr l ys :: drop 1 (ys ++ [tail_of l])) as E'.
  { rewrite nodes_split. change (hd_ptr l (e :: ys)) with e. rewrite Eps, <-app_assoc.
    simpl. rewrite drop_0. by rewrite <-suffix_nodes. }
  assert (is_Some (h !! default l (last xs))).
  { apply (node_mapped _ _ _ _ Hl). rewrite E. set_solver. }
  assert (is_Some (h !! hd_ptr l ys)).
  { apply (node_mapped _ _ _ _ Hl). rewrite E. set_solver. }
  destruct Hl as [Hpath Hnd Hnn Hh Ht].
  assert (hd_ptr l ys ≠ head_of l) by eauto using node_ne_head, hd_ptr_in.
  assert (default l (last xs) ≠ tail_of l) by eauto using node_ne_tail, default_last_in.
  assert (e ≠ head_of l ∧ e ≠ tail_of l) as [??] by (unfold nodes in He; set_solver).
  split.
  - rewrite E'. apply path_insert; rewrite <-?E; try done; congruence.
  - rewrite nodes_perm_cons. by apply NoDup_cons.
  - rewrite nodes_perm_cons. set_solver.
  - unfold insert_heap. by klist_simp.
  - unfold insert_heap. by klist_simp.
Qed.

Lemma insert_same_outside h l xs ys e :
  same_outside (e :: nodes l (xs ++ ys)) h
    (insert_heap h (default l (last xs)) (hd_ptr l ys) e).
Proof.
  intros q Hq. pose proof (hd_ptr_node l xs ys).
  assert (default l (last xs) ∈ nodes l (xs ++ ys)).
  { rewrite nodes_split. pose proof (default_last_in l xs). set_solver. }
  list_facts. unfold insert_heap. by klist_simp.
Qed.

(** list_insert: [e] goes just before the element that the suffix [ys] starts at. *)
Lemma wp_insert h l xs ys e Q :
  is_list h l (xs ++ ys) → e ≠ NULL → e ∉ nodes l (xs ++ ys) → is_Some (h !! e) →
  (∀ h', is_list h' l (xs ++ e :: ys) → same_outside (e :: nodes l (xs ++ ys)) h h' → Q tt h') →
  wp (list_insert (hd_ptr l ys) e) h Q.
Proof.
  intros Hl He0 He Hem HQ.
  pose proof (suffix_prev h l xs ys Hl) as Hp. destruct (suffix_next h l xs ys Hl) as [n Hn].
  pose proof (default_last_nonnull h l xs ys Hl) as Hp0.
  pose proof (hd_ptr_nonnull h l xs ys Hl) as Hb0.
  assert (e ≠ hd_ptr l ys) by (intros ->; by apply He, hd_ptr_node).
  unfold list_insert. wp_step. eapply wp_assert_has_prev; [done..|].
  wp_step. wp_step; [by rewrite (proj2 (Z.eqb_neq _ _))|].
  wp_step. apply (wp_get_prev _ _ _ _ Hb0 Hp).
  wp_step. apply wp_set_prev; [done..|].
  wp_step. apply wp_set_next; [done|by klist_simp|].
  wp_step. apply (wp_get_prev _ _ (default l (last xs))); [done|by klist_simp|].
  wp_step. apply wp_set_next; [done| |].
  { klist_simp. apply (node_mapped _ _ _ _ Hl). rewrite nodes_split.
    pose proof (default_last_in l xs). set_solver. }
  apply wp_set_prev; [done| |].
  { klist_simp. by eapply nx_mapped. }
  apply HQ; [by apply insert_is_list|apply insert_same_outside].
Qed.

Lemma nodes_split_elem l xs e ys :
  ∃ ps, nodes l (xs ++ e :: ys) =
          ps ++ default l (last xs) :: e :: hd_ptr l ys :: drop 1 (ys ++ [tail_of l]) ∧
        nodes l (xs ++ ys) =
          ps ++ default l (last xs) :: hd_ptr l ys :: drop 1 (ys ++ [tail_of l]).
Proof.
  destruct (nodes_split_pred l xs ys) as (ps & Eps & E). exists ps. split; [|done].
  rewrite nodes_split. change (hd_ptr l (e :: ys)) with e.
  rewrite Eps, <-app_assoc. simpl. by rewrite drop_0, <-suffix_nodes.
Qed.

Lemma remove_is_list h l xs e ys :
  is_list h l (xs ++ e :: ys) →
  is_list (remove_heap h (default l (last xs)) (hd_ptr l ys)) l (xs ++ ys) ∧
  same_outside (nodes l (xs ++ ys)) h (remove_heap h (default l (last xs)) (hd_ptr l ys)).
Proof.
  intros Hl. destruct (nodes_split_elem l xs e ys) as (ps & E & E').
  assert (is_Some (h !! default l (last xs))).
  { apply (node_mapped _ _ _ _ Hl). rewrite E. set_solver. }
  assert (is_Some (h !! hd_ptr l ys)).
  { apply (node_mapped _ _ _ _ Hl). rewrite E. set_solver. }
  destruct Hl as [Hpath Hnd Hnn Hh Ht].
  pose proof Hnd as Hnd'. rewrite nodes_perm_cons in Hnd'. apply NoDup_cons in Hnd' as [_ Hnd'].
  assert (hd_ptr l ys ≠ head_of l) by eauto using node_ne_head, hd_ptr_in.
  assert (default l (last xs) ≠ tail_of l) by eauto using node_ne_tail, default_last_in.
  split; [split|].
  - rewrite E'. apply (path_remove _ _ _ e); rewrite <-?E; done.
  - done.
  - rewrite nodes_perm_cons in Hnn. set_solver.
  - unfold remove_heap. by klist_simp.
  - unfold remove_heap. by klist_simp.
  - rewrite E'. intros q Hq. list_facts. unfold remove_heap. by klist_simp.
Qed.

(** list_remove returns the element that followed [e]. *)
Lemma wp_remove h l xs e ys Q :
  is_list h l (xs ++ e :: ys) →
  (∀ h', is_list h' l (xs ++ ys) → same_outside (nodes l (xs ++ ys)) h h' →
         Q (hd_ptr l ys) h') →
  wp (list_remove e) h Q.
Proof.
  intros Hl HQ.
  pose proof (suffix_prev h l xs (e :: ys) Hl) as Hp. change (hd_ptr l (e :: ys)) with e in Hp.
  pose proof (elem_next h l xs e ys Hl) as Hn.
  pose proof (default_last_nonnull h l xs _ Hl) as Hp0.
  assert (hd_ptr l ys ≠ NULL) as Hn0.
  { apply (hd_ptr_nonnull h l (xs ++ [e])). by rewrite <-app_assoc. }
  pose proof (hd_ptr_nonnull h l xs (e :: ys) Hl) as He0. change (hd_ptr l (e :: ys)) with e in He0.
  destruct (remove_is_list h l xs e ys Hl) as [Hl' Hs].
  destruct (nodes_split_elem l xs e ys) as (ps & E & E').
  pose proof (il_nodup _ _ _ Hl) as Hnd. rewrite E in Hnd. list_facts.
  assert (∀ x, x ∈ nodes l (xs ++ e :: ys) → is_Some (h !! x)) as Hm
    by (intros x; by apply (node_mapped _ _ _ _ Hl)).
  unfold list_remove. wp_step. eapply wp_assert_interior; [done..|].
  wp_step. apply (wp_get_prev _ _ _ _ He0 Hp).
  wp_step. apply (wp_get_next _ _ _ _ He0 Hn).
  wp_step. apply wp_set_next; [done|apply Hm; rewrite E; set_solver|].
  wp_step. apply (wp_get_next _ _ (hd_ptr l ys)); [done|by klist_simp|].
  wp_step. apply (wp_get_prev _ _ (default l (last xs))); [done|by klist_simp|].
  wp_step. apply wp_set_prev; [done|klist_simp; apply Hm; rewrite E; set_solver|].
  apply (wp_get_next _ _ (hd_ptr l ys)); [done|by klist_simp|].
  by apply HQ.
Qed.

Lemma wp_push_front h l xs e Q :
  is_list h l xs → e ≠ NULL → e ∉ nodes l xs → is_Some (h !! e) →
  (∀ h', is_list h' l (e :: xs) → same_outside (e :: nodes l xs) h h' → Q tt h') →
  wp (list_push_front l e) h Q.
Proof.
  intros. unfold list_push_front. wp_step. apply (wp_begin _ _ xs); [done|].
  by apply (wp_insert h l [] xs).
Qed.

Lemma wp_push_back h l xs e Q :
  is_list h l xs → e ≠ NULL → e ∉ nodes l xs → is_Some (h !! e) →
  (∀ h', is_list h' l (xs ++ [e]) → same_outside (e :: nodes l xs) h h' → Q tt h') →
  wp (list_push_back l e) h Q.
Proof.
  intros Hl ??? HQ. unfold list_push_back. wp_step. apply wp_end; [by eapply list_nonnull|].
  apply (wp_insert h l xs []); by rewrite ?app_nil_r.
Qed.

Lemma wp_front h l x xs Q : is_list h l (x :: xs) → Q x h → wp (list_front l) h Q.
Proof.
  intros Hl HQ. unfold list_front, assertM, notM. repeat wp_step.
  apply (wp_empty _ _ (x :: xs)); [done|]. repeat wp_step; [done|].
  apply (wp_get_next _ _ x); [by eapply list_nonnull|by apply (head_next _ _ _ Hl)|done].
Qed.

Lemma wp_back h l x xs Q : is_list h l (xs ++ [x]) → Q x h → wp (list_back l) h Q.
Proof.
  intros Hl HQ. unfold list_back, assertM, notM. repeat wp_step.
  apply (wp_empty _ _ (xs ++ [x])); [done|]. repeat wp_step; [by destruct xs|].
  apply (wp_get_prev _ _ x); [by eapply tail_nonnull| |done].
  by rewrite (tail_prev _ _ _ Hl), last_snoc.
Qed.

Lemma wp_pop_front h l x xs Q :
  is_list h l (x :: xs) →
  (∀ h', is_list h' l xs → same_outside (nodes l xs) h h' → Q x h') →
  wp (list_pop_front l) h Q.
Proof.
  intros Hl HQ. unfold list_pop_front. wp_step. eapply wp_front; [done|].
  wp_step. by apply (wp_remove h l [] x xs).
Qed.

Lemma wp_pop_back h l x xs Q :
  is_list h l (xs ++ [x]) →
  (∀ h', is_list h' l xs → same_outside (nodes l xs) h h' → Q x h') →
  wp (list_pop_back l) h Q.
Proof.
  intros Hl HQ. unfold list_pop_back. wp_step. eapply wp_back; [done|].
  wp_step. apply (wp_remove h l xs x []); [done|]. rewrite app_nil_r. intros. by apply HQ.
Qed.
