(* ===== verification/KListSort.v ===== *)
(** * list_splice and list_sort of list.c, stated on the elements of the list

    The natural merge sort of list_sort with its helpers is_sorted,
    find_end_of_run and inplace_merge.  A pass merges pairs of runs, so that the
    number of runs at least halves; the fuel of every loop is enough when it
    exceeds the length of the list by two. *)

From Stdlib Require Import Sorted.
From S2P Require Import Prelude KList.
Local Open Scope Z_scope.

(** ** Moving a segment *)

Lemma nodes_split_segments l xs ms ys :
  ∃ ps, ∀ ms' : list Z, ms' ≡ₚ ms → nodes l (xs ++ ms' ++ ys) =
    ps ++ default l (last xs) :: ms' ++ hd_ptr l ys :: drop 1 (ys ++ [tail_of l]).
Proof.
  destruct (nodes_split_pred l xs []) as (ps & Eps & _). exists ps. intros ms' _.
  unfold nodes. rewrite <-!app_assoc, app_comm_cons, Eps, <-app_assoc, suffix_nodes.
  done.
Qed.

Lemma splice_is_list h l xs ms fs ys before fp first lst :
  is_list h l (xs ++ (ms ++ fs) ++ ys) →
  head ms = Some before → last ms = Some fp → head fs = Some first → last fs = Some lst →
  let h' := splice_heap h fp first lst (hd_ptr l ys) (default l (last xs)) before in
  is_list h' l (xs ++ (fs ++ ms) ++ ys) ∧ same_outside (nodes l (xs ++ (ms ++ fs) ++ ys)) h h'.
Proof.
  intros Hl Hms Hms' Hfs Hfs' h'.
  destruct (nodes_split_segments l xs (ms ++ fs) ys) as (ps & E).
  pose proof (E (ms ++ fs) (reflexivity _)) as E1.
  pose proof (E (fs ++ ms) (Permutation_app_comm _ _)) as E2. clear E.
  set (bp := default l (last xs)) in *. set (ln := hd_ptr l ys) in *.
  assert (∀ x, x ∈ nodes l (xs ++ (ms ++ fs) ++ ys) → is_Some (h !! x)) as Hm
    by (intros x; by apply (node_mapped _ _ _ _ Hl)).
  destruct Hl as [Hpath Hnd Hnn Hh Ht].
  assert (nodes l (xs ++ (fs ++ ms) ++ ys) ≡ₚ nodes l (xs ++ (ms ++ fs) ++ ys)) as Hperm.
  { unfold nodes. by rewrite (Permutation_app_comm fs ms). }
  assert (before ∈ ms) by (by apply head_Some_elem_of).
  assert (first ∈ fs) by (by apply head_Some_elem_of).
  assert (fp ∈ ms) by (by apply last_Some_elem_of).
  assert (lst ∈ fs) by (by apply last_Some_elem_of).
  assert (∀ x, x ∈ ms ++ fs → x ≠ head_of l) as Hnh.
  { intros x Hx. apply (node_ne_head l xs ((ms ++ fs) ++ ys)); [done|set_solver]. }
  assert (∀ x, x ∈ ms ++ fs → x ≠ tail_of l) as Hnt.
  { intros x Hx. apply (node_ne_tail l (xs ++ ms ++ fs) ys); [|set_solver].
    by rewrite <-(app_assoc xs). }
  assert (ln ≠ head_of l).
  { apply (node_ne_head l (xs ++ ms ++ fs) ys); [by rewrite <-(app_assoc xs)|apply hd_ptr_in]. }
  assert (bp ≠ tail_of l).
  { apply (node_ne_tail l xs ((ms ++ fs) ++ ys)); [done|apply default_last_in]. }
  assert (before ≠ head_of l ∧ first ≠ head_of l ∧ fp ≠ tail_of l ∧ lst ≠ tail_of l)
    as (?&?&?&?).
  { split_and!; (apply Hnh || apply Hnt); apply elem_of_app; auto. }
  split; [split|].
  - rewrite E2, <-app_assoc. apply path_splice; rewrite ?(app_assoc ms fs), <-?E1; done.
  - by rewrite Hperm.
  - by rewrite Hperm.
  - unfold h', splice_heap. by klist_simp.
  - unfold h', splice_heap. by klist_simp.
  - rewrite E1. intros q Hq. list_facts. unfold h', splice_heap.
    assert (q ≠ before ∧ q ≠ fp ∧ q ≠ first ∧ q ≠ lst) as (?&?&?&?) by (split_and!; ne_solve).
    by klist_simp.
Qed.

(** An interior element has two neighbours. *)
Lemma elem_links h l xs x :
  is_list h l xs → x ∈ xs →
  x ≠ NULL ∧ ∃ p n, pv h x = Some p ∧ nx h x = Some n ∧ p ≠ NULL ∧ n ≠ NULL.
Proof.
  intros Hl (ys & zs & ->)%list_elem_of_split. split.
  { by apply (hd_ptr_nonnull h l ys (x :: zs)). }
  exists (default l (last ys)), (hd_ptr l zs). split_and!.
  - by apply (suffix_prev h l ys (x :: zs)).
  - by eapply elem_next.
  - by eapply default_last_nonnull.
  - apply (hd_ptr_nonnull h l (ys ++ [x])). by rewrite <-app_assoc.
Qed.

(** list_splice run on the links of the elements it touches. *)
Lemma wp_splice_links h before first lst ln fp bp pl nb nf nl Q :
  (before ≠ NULL ∧ pv h before = Some bp ∧ nx h before = Some nb) → bp ≠ NULL →
  (first ≠ NULL ∧ pv h first = Some fp ∧ nx h first = Some nf) → fp ≠ NULL → nf ≠ NULL →
  (lst ≠ NULL ∧ pv h lst = Some pl ∧ nx h lst = Some ln) → pl ≠ NULL → ln ≠ NULL →
  (pv h ln = Some lst ∧ nx h ln = Some nl) →
  is_Some (h !! fp) → is_Some (h !! bp) →
  first ≠ ln → lst ≠ fp → before ≠ ln → before ≠ first → first ≠ ln →
  Q tt (splice_heap h fp first lst ln bp before) →
  wp (list_splice before first ln) h Q.
Proof.
  intros (?&Hb&?) ? (?&Hf&?) ?? (?&Hl&Hnl) ?? [Hpl ?] ?? Hfl ???? HQ.
  unfold list_splice. wp_step. eapply wp_assert_has_prev; [done..|].
  rewrite (proj2 (Z.eqb_neq _ _) Hfl).
  wp_step. eapply (wp_list_prev h ln lst); [done..|].
  wp_step. eapply wp_assert_interior; [done..|].
  wp_step. eapply wp_assert_interior; [done..|].
  wp_step. apply (wp_get_prev _ _ fp); [done..|].
  wp_step. apply (wp_get_next _ _ ln); [done..|].
  wp_step. apply wp_set_next; [done..|].
  wp_step. apply (wp_get_next _ _ ln); [done|by klist_simp|].
  wp_step. apply (wp_get_prev _ _ fp); [done|by klist_simp|].
  wp_step. apply wp_set_prev; [done|klist_simp; eauto with klist|].
  wp_step. apply (wp_get_prev _ _ bp); [done|by klist_simp|].
  wp_step. apply wp_set_prev; [done|klist_simp; eauto with klist|].
  wp_step. apply wp_set_next; [done|klist_simp; eauto with klist|].
  wp_step. apply (wp_get_prev _ _ bp); [done|by klist_simp|].
  wp_step. apply wp_set_next; [done|by klist_simp|].
  by apply wp_set_prev; [|klist_simp; eauto with klist|].
Qed.

(** list_splice, when the segment [fs] follows the segment [ms] it is moved before. *)
Lemma wp_splice h l xs ms fs ys before first Q :
  is_list h l (xs ++ (ms ++ fs) ++ ys) →
  head ms = Some before → head fs = Some first →
  (∀ h', is_list h' l (xs ++ (fs ++ ms) ++ ys) →
         same_outside (nodes l (xs ++ (ms ++ fs) ++ ys)) h h' → Q tt h') →
  wp (list_splice before first (hd_ptr l ys)) h Q.
Proof.
  intros Hl Hms Hfs HQ.
  destruct (list_snoc_inv ms) as [->|(ms' & fp & Ems)]; [done|].
  destruct (list_snoc_inv fs) as [->|(fs' & lst & Efs)]; [done|].
  assert (last ms = Some fp) as Hms' by (by rewrite Ems, last_snoc).
  assert (last fs = Some lst) as Hfs' by (by rewrite Efs, last_snoc).
  destruct (splice_is_list h l xs ms fs ys before fp first lst) as [Hl' Hs]; [done..|].
  assert (before ∈ ms ∧ fp ∈ ms ∧ first ∈ fs ∧ lst ∈ fs) as (?&?&?&?)
    by (split_and!; (by apply head_Some_elem_of) || (by apply last_Some_elem_of)).
  (* the neighbours *)
  destruct (elem_links h l _ before Hl) as (?&pb&nb&Hpb&?&?&?); [rewrite !elem_of_app; auto|].
  destruct (elem_links h l _ first Hl) as (?&pf&nf&Hpf&?&?&?); [rewrite !elem_of_app; auto|].
  destruct (elem_links h l _ lst Hl) as (?&pl&nl&?&Hnl&?&?); [rewrite !elem_of_app; auto|].
  destruct (elem_links h l _ fp Hl) as (?&?&?&?&?&?&?); [rewrite !elem_of_app; auto|].
  pose proof Hl as Hl1. rewrite <-(app_assoc ms fs), (app_assoc xs ms) in Hl1.
  pose proof Hl1 as Hl2. rewrite (app_assoc (xs ++ ms) fs) in Hl2.
  pose proof (suffix_prev _ _ _ _ Hl) as Hpb'.
  assert (hd_ptr l ((ms ++ fs) ++ ys) = before) as Eb.
  { unfold hd_ptr. by rewrite !head_app, Hms. }
  rewrite Eb, Hpb in Hpb'. injection Hpb' as ->.
  pose proof (suffix_prev _ _ _ _ Hl1) as Hpf'.
  assert (hd_ptr l (fs ++ ys) = first) as Ef by (unfold hd_ptr; by rewrite head_app, Hfs).
  rewrite Ef, last_app, Hms', Hpf in Hpf'. injection Hpf' as ->.
  pose proof (suffix_prev _ _ _ _ Hl2) as Hpl. rewrite last_app, Hfs' in Hpl. simpl in Hpl.
  destruct (suffix_next _ _ _ _ Hl2) as [nl' ?].
  assert (nx h lst = Some (hd_ptr l ys)) as Hnlst.
  { apply (elem_next h l (xs ++ ms ++ fs')). revert Hl2. rewrite Efs, <-!app_assoc. done. }
  rewrite Hnl in Hnlst. injection Hnlst as ->.
  (* distinct elements *)
  destruct (nodes_split_segments l xs (ms ++ fs) ys) as (ps & E).
  pose proof (il_nodup _ _ _ Hl) as Hnd. rewrite (E _ (reflexivity _)), <-(app_assoc ms fs) in Hnd.
  apply NoDup_segments in Hnd as (_ & _ & _ & _ & Hdm & Hdf & _).
  destruct (Hdm before), (Hdm fp), (Hdf first), (Hdf lst); [done..|]. list_facts.
  assert (before ≠ first ∧ lst ≠ fp) as [??] by (split; intros Heq; by rewrite Heq in *).
  apply (wp_splice_links h before first lst (hd_ptr l ys) fp (default l (last xs)) pl nb nf nl');
    try done; eauto with klist.
  apply (node_mapped _ _ _ _ Hl). rewrite nodes_split. apply elem_of_app; left.
  apply default_last_in.
Qed.

(** ** Sorted runs, as functions on the elements *)
Section ordered.
Context (less : Z → Z → bool).
Implicit Types (xs ys zs : list Z) (a b x y : Z).

(** No element is [less] than the one before it. *)
Fixpoint nondec (xs : list Z) : bool :=
  match xs with
  | a :: (b :: _) as r => negb (less b a) && nondec r
  | _ => true
  end.

(** The number of maximal nondecreasing runs. *)
Fixpoint nruns (xs : list Z) : nat :=
  match xs with
  | [] => 0
  | a :: r => match r with
              | [] => 1
              | b :: _ => (if less b a then 1 else 0) + nruns r
              end
  end.

(** The run that continues [a] in [ys], and what follows it. *)
Fixpoint split_run (a : Z) (ys : list Z) : list Z * list Z :=
  match ys with
  | [] => ([], [])
  | y :: ys' => if less y a then ([], ys) else
                let '(r, s) := split_run y ys' in (y :: r, s)
  end.

(** Stable merge: an element of the second list goes first only if it is [less]. *)
Fixpoint merge (xs : list Z) : list Z → list Z :=
  fix merge_aux ys :=
    match xs, ys with
    | [], _ => ys
    | _, [] => xs
    | x :: xs', y :: ys' => if less y x then y :: merge_aux ys' else x :: merge xs' ys
    end.

Lemma split_run_app a ys : ys = (split_run a ys).1 ++ (split_run a ys).2.
Proof.
  revert a; induction ys as [|y ys IH]; intros a; simpl; [done|].
  destruct (less y a); [done|]. specialize (IH y). destruct (split_run y ys); simpl in *.
  by f_equal.
Qed.

Lemma split_run_nondec a ys : nondec (a :: (split_run a ys).1) = true.
Proof.
  revert a; induction ys as [|y ys IH]; intros a; simpl; [done|].
  destruct (less y a) eqn:E; [done|]. specialize (IH y).
  destruct (split_run y ys); simpl in *. by rewrite E.
Qed.

Lemma nruns_cons2 a b xs :
  nruns (a :: b :: xs) = ((if less b a then 1 else 0) + nruns (b :: xs))%nat.
Proof. done. Qed.

Lemma nruns_pos a xs : (1 ≤ nruns (a :: xs))%nat.
Proof. revert a; induction xs as [|b xs IH]; intros a; [done|]. rewrite nruns_cons2.
  specialize (IH b). lia. Qed.

(** The next run starts with a descent, so the runs are counted one by one. *)
Lemma split_run_nruns a ys : nruns (a :: ys) = S (nruns (split_run a ys).2).
Proof.
  revert a; induction ys as [|y ys IH]; intros a; [done|]. rewrite nruns_cons2.
  cbn [split_run]. destruct (less y a) eqn:E; [done|].
  rewrite IH. by destruct (split_run y ys).
Qed.

Lemma nondec_nruns xs : nondec xs = true ↔ (nruns xs ≤ 1)%nat.
Proof.
  induction xs as [|a [|b xs] IH]; [simpl; split; (done || lia)..|].
  rewrite nruns_cons2. change (nondec (a :: b :: xs)) with (negb (less b a) && nondec (b :: xs)).
  pose proof (nruns_pos b xs). destruct (less b a); cbn [negb andb Nat.add]; [split; [done|lia]|done].
Qed.

Lemma nruns_app xs ys : (nruns (xs ++ ys) ≤ nruns xs + nruns ys)%nat.
Proof.
  induction xs as [|a [|b xs] IH]; [simpl; lia| |].
  - destruct ys as [|y ys]; [simpl; lia|]. simpl app. rewrite nruns_cons2.
    change (nruns [a]) with 1%nat. destruct (less y a); lia.
  - simpl app in *. rewrite !nruns_cons2. lia.
Qed.

Lemma merge_cons2 x xs y ys :
  merge (x :: xs) (y :: ys) =
    if less y x then y :: merge (x :: xs) ys else x :: merge xs (y :: ys).
Proof. done. Qed.

Lemma merge_nil_l ys : merge [] ys = ys.
Proof. by destruct ys. Qed.

Lemma merge_perm xs ys : merge xs ys ≡ₚ xs ++ ys.
Proof.
  revert ys; induction xs as [|x xs IH]; intros ys; [by destruct ys|].
  induction ys as [|y ys IH']; [by rewrite app_nil_r|].
  rewrite merge_cons2. destruct (less y x).
  - rewrite IH'. by rewrite <-(Permutation_middle (x :: xs)).
  - by rewrite IH.
Qed.

(** Merging two sorted runs gives one sorted run; only asymmetry of [less] is
    needed. *)
Context (less_asym : ∀ a b, less a b = true → less b a = false).

Lemma merge_nil_r xs : merge xs [] = xs.
Proof. by destruct xs. Qed.

Lemma nondec_cons_inv a xs :
  nondec (a :: xs) = true →
  nondec xs = true ∧ ∀ b, head xs = Some b → less b a = false.
Proof.
  destruct xs as [|b xs]; [done|]. simpl. intros [H1%negb_true_iff H2]%andb_true_iff.
  split; [done|]. by intros ? [= <-].
Qed.
Lemma nondec_cons a xs :
  nondec xs = true → (∀ b, head xs = Some b → less b a = false) → nondec (a :: xs) = true.
Proof. destruct xs as [|b xs]; [done|]. intros H Hb. simpl. by rewrite Hb. Qed.

Lemma merge_nondec xs ys :
  nondec xs = true → nondec ys = true → nondec (merge xs ys) = true.
Proof.
  revert ys; induction xs as [|x xs IH]; intros ys Hx Hy; [by destruct ys|].
  induction ys as [|y ys IH']; [done|].
  pose proof Hx as [Hx1 Hx2]%nondec_cons_inv. pose proof Hy as [Hy1 Hy2]%nondec_cons_inv.
  rewrite merge_cons2. destruct (less y x) eqn:E.
  - apply nondec_cons; [by apply IH'|]. intros b Hb.
    destruct ys as [|y' ys]; [simplify_eq/=; auto|]. rewrite merge_cons2 in Hb.
    destruct (less y' x); simplify_eq/=; auto.
  - apply nondec_cons; [by apply IH|]. intros b Hb.
    destruct xs as [|x' xs]; [by simplify_eq/=|]. rewrite merge_cons2 in Hb.
    destruct (less y x'); simplify_eq/=; auto.
Qed.
End ordered.

(** Two positions of a list are the same pointer only if nothing is between them. *)
Lemma hd_ptr_eqb h l xs zs ys :
  is_list h l (xs ++ zs ++ ys) →
  (hd_ptr l (zs ++ ys) =? hd_ptr l ys) = bool_decide (zs = []).
Proof.
  intros Hl. destruct zs as [|z zs]; [by rewrite Z.eqb_refl|].
  apply Z.eqb_neq. change (hd_ptr l ((z :: zs) ++ ys)) with z. intros E.
  pose proof (il_nodup _ _ _ Hl) as Hnd. unfold nodes in Hnd.
  rewrite <-!app_assoc, (suffix_nodes l ys), <-E in Hnd. simpl in Hnd.
  list_facts. contradiction.
Qed.

Lemma hd_ptr_eqb_tail h l xs zs :
  is_list h l (xs ++ zs) → (hd_ptr l zs =? tail_of l) = bool_decide (zs = []).
Proof.
  intros Hl. change (tail_of l) with (hd_ptr l []). rewrite <-(app_nil_r zs) at 1.
  eapply (hd_ptr_eqb h l xs). by rewrite app_nil_r.
Qed.

(** What an operation may write does not depend on the order of the elements. *)
#[export] Instance same_outside_perm : Proper ((≡ₚ) ==> (=) ==> (=) ==> iff) same_outside.
Proof.
  intros ps qs E h ? <- h' ? <-. unfold same_outside. by setoid_rewrite E.
Qed.
#[export] Instance nodes_perm l : Proper ((≡ₚ) ==> (≡ₚ)) (nodes l).
Proof. intros xs ys E. unfold nodes. by rewrite E. Qed.

Section ordered_specs.
Context (less : Z → Z → bool) (l : Z).
Implicit Types (h : heap) (xs ys zs : list Z) (a x y z : Z).

Lemma wp_is_sorted_loop h fuel xs a zs ys Q :
  is_list h l (xs ++ a :: zs ++ ys) → (length zs < fuel)%nat →
  Q (nondec less (a :: zs)) h → wp (is_sorted_loop less fuel a (hd_ptr l ys)) h Q.
Proof.
  revert fuel xs a; induction zs as [|z zs IH]; intros [|fuel] xs a Hl Hf HQ; try (simpl in *; lia).
  - simpl. wp_step. apply (wp_next _ l xs a ys); [done|]. rewrite Z.eqb_refl. by wp_step.
  - simpl is_sorted_loop. wp_step. eapply (wp_next _ l xs a); [done|].
    assert (is_list h l ((xs ++ [a]) ++ (z :: zs) ++ ys)) as Hl' by (by rewrite <-app_assoc).
    rewrite (hd_ptr_eqb h l (xs ++ [a])) by done. rewrite bool_decide_false by done.
    wp_step. eapply (wp_prev _ l xs a); [done|].
    change (hd_ptr l ((z :: zs) ++ ys)) with z in *.
    revert HQ. change (nondec less (a :: z :: zs)) with (negb (less z a) && nondec less (z :: zs)).
    destruct (less z a); intros HQ; [by wp_step|].
    apply (IH fuel (xs ++ [a])); [done|simpl in *; lia|done].
Qed.

Lemma wp_is_sorted h fuel xs zs ys Q :
  is_list h l (xs ++ zs ++ ys) → (length zs < fuel)%nat →
  Q (nondec less zs) h → wp (is_sorted less fuel (hd_ptr l (zs ++ ys)) (hd_ptr l ys)) h Q.
Proof.
  intros Hl Hf HQ. unfold is_sorted. rewrite (hd_ptr_eqb h l xs) by done.
  destruct zs as [|z zs]; [by apply wp_ret|]. rewrite bool_decide_false by done.
  eapply wp_is_sorted_loop; [done|simpl in *; lia|done].
Qed.

Lemma wp_find_end_of_run_loop h fuel xs a ys Q :
  is_list h l (xs ++ a :: ys) → (length ys < fuel)%nat →
  Q (hd_ptr l (split_run less a ys).2) h →
  wp (find_end_of_run_loop less fuel a (tail_of l)) h Q.
Proof.
  revert fuel xs a; induction ys as [|y ys IH]; intros [|fuel] xs a Hl Hf HQ; try (simpl in *; lia).
  - simpl. wp_step. apply (wp_next _ l xs a []); [done|]. rewrite Z.eqb_refl. by wp_step.
  - simpl find_end_of_run_loop. wp_step. eapply (wp_next _ l xs a); [done|].
    assert (is_list h l ((xs ++ [a]) ++ y :: ys)) as Hl' by (by rewrite <-app_assoc).
    rewrite (hd_ptr_eqb_tail h l (xs ++ [a])) by done. rewrite bool_decide_false by done.
    wp_step. eapply (wp_prev _ l xs a); [done|].
    change (hd_ptr l (y :: ys)) with y in *. revert HQ. cbn [split_run].
    destruct (less y a); intros HQ; [by wp_step|].
    apply (IH fuel (xs ++ [a])); [done|simpl in *; lia|by destruct (split_run less y ys)].
Qed.

Lemma wp_find_end_of_run h fuel xs a ys Q :
  is_list h l (xs ++ a :: ys) → (length ys < fuel)%nat →
  Q (hd_ptr l (split_run less a ys).2) h →
  wp (find_end_of_run less fuel a (tail_of l)) h Q.
Proof.
  intros Hl Hf HQ. unfold find_end_of_run.
  assert (a ≠ NULL) by (apply (elem_links h l _ a Hl); set_solver).
  pose proof (tail_nonnull _ _ _ Hl).
  pose proof (hd_ptr_eqb_tail h l xs (a :: ys) Hl) as E.
  change (hd_ptr l (a :: ys)) with a in E.
  wp_step. wp_step; [by rewrite (proj2 (Z.eqb_neq _ _))|].
  wp_step. wp_step; [by rewrite (proj2 (Z.eqb_neq _ _))|].
  wp_step. wp_step; [by rewrite E|]. by eapply wp_find_end_of_run_loop.
Qed.

Lemma wp_inplace_merge_loop h fuel xs zs zs' ys Q :
  is_list h l (xs ++ zs ++ zs' ++ ys) → (length zs + length zs' < fuel)%nat →
  (∀ h', is_list h' l (xs ++ merge less zs zs' ++ ys) →
         same_outside (nodes l (xs ++ zs ++ zs' ++ ys)) h h' → Q tt h') →
  wp (inplace_merge_loop less fuel
        (hd_ptr l (zs ++ zs' ++ ys)) (hd_ptr l (zs' ++ ys)) (hd_ptr l ys)) h Q.
Proof.
  revert h xs zs zs' Q; induction fuel as [|fuel IH]; intros h xs zs zs' Q Hl Hf HQ; [lia|].
  simpl inplace_merge_loop. rewrite (hd_ptr_eqb h l xs) by done.
  rewrite (hd_ptr_eqb h l (xs ++ zs)) by (by rewrite <-app_assoc).
  destruct zs as [|a zs]; [rewrite merge_nil_l in HQ; by apply HQ|]. rewrite bool_decide_false by done.
  destruct zs' as [|b zs']; [by apply HQ|]. rewrite bool_decide_false by done.
  cbn [negb andb]. change (hd_ptr l ((a :: zs) ++ (b :: zs') ++ ys)) with a.
  change (hd_ptr l ((b :: zs') ++ ys)) with b. rewrite merge_cons2 in HQ.
  destruct (less b a); cbn [negb].
  - wp_step. apply (wp_next _ l (xs ++ a :: zs) b (zs' ++ ys)); [by rewrite <-app_assoc|].
    wp_step. apply (wp_prev _ l (xs ++ a :: zs) b (zs' ++ ys)); [by rewrite <-app_assoc|].
    wp_step. apply (wp_splice h l xs (a :: zs) [b] (zs' ++ ys)); [|done|done|].
    { by rewrite <-app_assoc. }
    intros h1 Hl1 Hs1. apply (IH h1 (xs ++ [b]) (a :: zs) zs').
    + by rewrite <-!app_assoc in *.
    + simpl in *; lia.
    + intros h2 Hl2 Hs2. apply HQ; [by rewrite <-app_assoc in Hl2|].
      apply (same_outside_trans _ _ h1).
      * by rewrite <-app_assoc in Hs1.
      * revert Hs2. apply same_outside_perm; [|done..]. apply nodes_perm.
        rewrite <-!app_assoc. simpl. solve_Permutation.
  - wp_step. apply (wp_next _ l xs a (zs ++ b :: zs' ++ ys)); [done|].
    apply (IH h (xs ++ [a]) zs (b :: zs')).
    + by rewrite <-app_assoc.
    + simpl in *; lia.
    + intros h2 Hl2 Hs2. rewrite <-app_assoc in Hl2, Hs2. by apply HQ.
Qed.

Lemma wp_inplace_merge h fuel xs zs zs' ys Q :
  is_list h l (xs ++ zs ++ zs' ++ ys) → (length zs + length zs' < fuel)%nat →
  nondec less zs = true → nondec less zs' = true →
  (∀ h', is_list h' l (xs ++ merge less zs zs' ++ ys) →
         same_outside (nodes l (xs ++ zs ++ zs' ++ ys)) h h' → Q tt h') →
  wp (inplace_merge less fuel
        (hd_ptr l (zs ++ zs' ++ ys)) (hd_ptr l (zs' ++ ys)) (hd_ptr l ys)) h Q.
Proof.
  intros Hl Hf Hn Hn' HQ. unfold inplace_merge.
  assert (is_list h l ((xs ++ zs) ++ zs' ++ ys)) as Hl1 by (by rewrite <-app_assoc).
  assert (is_list h l (((xs ++ zs) ++ zs') ++ ys)) as Hl2 by (by rewrite <-!app_assoc).
  wp_step. wp_step; [by rewrite (proj2 (Z.eqb_neq _ _) (hd_ptr_nonnull _ _ _ _ Hl))|].
  wp_step. wp_step; [by rewrite (proj2 (Z.eqb_neq _ _) (hd_ptr_nonnull _ _ _ _ Hl1))|].
  wp_step. wp_step; [by rewrite (proj2 (Z.eqb_neq _ _) (hd_ptr_nonnull _ _ _ _ Hl2))|].
  unfold assertM. wp_step. wp_step. apply (wp_is_sorted h fuel xs zs (zs' ++ ys)); [done|lia|].
  wp_step; [done|]. wp_step. wp_step. apply (wp_is_sorted h fuel (xs ++ zs) zs' ys); [done|lia|].
  wp_step; [done|]. by apply (wp_inplace_merge_loop h fuel xs).
Qed.

Context (less_asym : ∀ a b, less a b = true → less b a = false).

(** One pass turns the runs of [ys] into at most [k] runs, where [k], the
    number of runs it writes, is half their number, rounded up. *)
Lemma wp_list_sort_pass h lf fuel xs ys cnt Q :
  is_list h l (xs ++ ys) → (length ys < lf)%nat → (length ys < fuel)%nat →
  0 ≤ cnt → cnt + Z.of_nat (length ys) < 2 ^ 32 →
  (∀ h' ys' k, is_list h' l (xs ++ ys') → ys' ≡ₚ ys →
     same_outside (nodes l (xs ++ ys)) h h' →
     (nruns less ys' ≤ k)%nat → (2 * k ≤ nruns less ys + 1)%nat →
     Q (cnt + Z.of_nat k) h') →
  wp (list_sort_pass less lf fuel l (hd_ptr l ys) cnt) h Q.
Proof.
  revert h xs ys cnt Q; induction lf as [|lf IH];
    intros h xs ys cnt Q Hl Hlf Hf Hc Hc' HQ; [lia|].
  simpl list_sort_pass. wp_step. apply wp_end; [by eapply list_nonnull|].
  rewrite (hd_ptr_eqb_tail h l xs) by done.
  destruct ys as [|a ys]; [|rewrite bool_decide_false by done].
  { rewrite bool_decide_true by done. wp_step. replace cnt with (cnt + Z.of_nat 0) by lia.
    by apply (HQ h [] 0%nat); [..|simpl; lia]. }
  simpl length in *. rewrite wrap_small by lia.
  wp_step. apply (wp_find_end_of_run h fuel xs a ys); [done|lia|].
  pose proof (split_run_app less a ys) as Ea. pose proof (split_run_nondec less a ys) as Na.
  pose proof (split_run_nruns less a ys) as Ra.
  destruct (split_run less a ys) as [r s]; simpl fst in *; simpl snd in *.
  assert (is_list h l ((xs ++ a :: r) ++ s)) as Hl1 by (by rewrite <-app_assoc; simpl; rewrite <-Ea).
  rewrite (hd_ptr_eqb_tail h l (xs ++ a :: r)) by done.
  destruct s as [|b s]; [|rewrite bool_decide_false by done].
  { rewrite bool_decide_true by done. wp_step. change 1 with (Z.of_nat 1).
    apply (HQ h (a :: ys)); [done..| |]; rewrite Ra; simpl; lia. }
  change (hd_ptr l (b :: s)) with b.
  wp_step. apply (wp_find_end_of_run h fuel (xs ++ a :: r) b s); [done| |].
  { rewrite Ea, length_app in Hf. simpl in Hf. lia. }
  pose proof (split_run_app less b s) as Eb. pose proof (split_run_nondec less b s) as Nb.
  pose proof (split_run_nruns less b s) as Rb.
  destruct (split_run less b s) as [r' s']; simpl fst in *; simpl snd in *.
  assert (xs ++ a :: ys = xs ++ (a :: r) ++ (b :: r') ++ s') as E.
  { simpl. rewrite Ea at 1. simpl. by rewrite Eb at 1. }
  assert (length ys = length r + S (length r') + length s')%nat as Elen.
  { rewrite Ea, Eb. rewrite !length_app; simpl; rewrite length_app. lia. }
  wp_step. apply (wp_inplace_merge h fuel xs (a :: r) (b :: r') s');
    [by rewrite <-E|simpl; lia|done|done|].
  rewrite <-E. intros h1 Hl1' Hs1. rewrite app_assoc in Hl1'.
  apply (IH h1 (xs ++ merge less (a :: r) (b :: r')) s'); [done|lia|lia|lia|lia|].
  intros h2 ys' k Hl2 Hp2 Hs2 Hk Hk'.
  replace (cnt + 1 + Z.of_nat k) with (cnt + Z.of_nat (S k)) by lia.
  assert (merge less (a :: r) (b :: r') ++ ys' ≡ₚ a :: ys) as Hp.
  { rewrite merge_perm, Hp2, Ea, Eb. simpl. by rewrite <-app_assoc. }
  apply (HQ h2 (merge less (a :: r) (b :: r') ++ ys')); [by rewrite app_assoc|done| | |].
  - apply (same_outside_trans _ _ h1); [done|]. revert Hs2.
    rewrite <-app_assoc. apply same_outside_perm; [|done..].
    by rewrite <-Hp, Hp2.
  - pose proof (nruns_app less (merge less (a :: r) (b :: r')) ys').
    assert (nruns less (merge less (a :: r) (b :: r')) ≤ 1)%nat
      by (apply nondec_nruns; by apply merge_nondec). lia.
  - lia.
Qed.

Lemma nruns_length xs : (nruns less xs ≤ length xs)%nat.
Proof.
  induction xs as [|a [|b xs] IH]; [simpl; lia..|]. rewrite nruns_cons2.
  simpl length in *. destruct (less b a); lia.
Qed.

Lemma nondec_Sorted xs : nondec less xs = true ↔ Sorted (λ a b, less b a = false) xs.
Proof.
  split.
  - induction xs as [|a [|b xs] IH]; [by repeat constructor..|].
    intros [Hn Hb]%nondec_cons_inv. constructor; [by apply IH|]. constructor. by apply Hb.
  - induction 1 as [|a xs ? IH Hh]; [done|]. apply nondec_cons; [done|].
    destruct Hh; [done|]. by intros ? [= <-].
Qed.

Lemma wp_list_sort_loop h lf fuel xs Q :
  is_list h l xs → (nruns less xs < lf)%nat → (length xs < fuel)%nat →
  Z.of_nat (length xs) < 2 ^ 32 →
  (∀ h' ys, is_list h' l ys → ys ≡ₚ xs → nondec less ys = true →
     same_outside (nodes l xs) h h' → Q tt h') →
  wp (list_sort_loop less lf fuel l) h Q.
Proof.
  revert h xs Q; induction lf as [|lf IH]; intros h xs Q Hl Hlf Hf Hlen HQ; [lia|].
  simpl list_sort_loop. wp_step. apply (wp_begin _ _ xs); [done|]. wp_step.
  apply (wp_list_sort_pass h fuel fuel [] xs); [done|lia|lia|lia|lia|].
  intros h1 ys k Hl1 Hp1 Hs1 Hk Hk'. simpl in Hl1, Hs1.
  pose proof (Permutation_length Hp1) as Elen.
  destruct (Z.ltb_spec 1 (0 + Z.of_nat k)).
  - apply (IH h1 ys); [done|lia|lia|lia|]. intros h2 zs Hl2 Hp2 Hn2 Hs2.
    apply (HQ h2 zs); [done|by rewrite Hp2|done|].
    apply (same_outside_trans _ _ h1); [done|]. by rewrite <-Hp1.
  - wp_step. apply (HQ h1 ys); [done..| |done]. apply nondec_nruns. lia.
Qed.
End ordered_specs.

(** C29: list_sort terminates without a panic or a fault (its own assertions
    included) and leaves the list with the same elements, in nondecreasing order
    according to LESS, writing nothing but the links of the list.  LESS has only
    to be asymmetric. *)
Theorem list_sort_correct (less : Z → Z → bool) (h : heap) (l : Z) (xs : list Z) (fuel : nat) :
  (∀ a b, less a b = true → less b a = false) →
  is_list h l xs → Z.of_nat (length xs) < 2 ^ 32 → (length xs + 1 < fuel)%nat →
  wp (list_sort less fuel l) h (λ _ h', ∃ ys,
    is_list h' l ys ∧ ys ≡ₚ xs ∧ Sorted (λ a b, less b a = false) ys ∧
    same_outside (nodes l xs) h h').
Proof.
  intros Hasym Hl Hlen Hf. unfold list_sort. pose proof (nruns_length less xs).
  wp_step. wp_step; [by rewrite (proj2 (Z.eqb_neq _ _) (list_nonnull _ _ _ Hl))|].
  wp_step. apply (wp_list_sort_loop less l Hasym h fuel fuel xs); [done|lia|lia|done|].
  intros h1 ys Hl1 Hp1 Hn1 Hs1. wp_step. apply (wp_begin _ _ ys); [done|].
  wp_step. apply wp_end; [by eapply list_nonnull|]. unfold assertM. wp_step.
  rewrite <-(app_nil_r ys) at 1. apply (wp_is_sorted less l h1 fuel [] ys []).
  - simpl. by rewrite app_nil_r.
  - rewrite Hp1. lia.
  - wp_step; [done|]. exists ys. by rewrite <-nondec_Sorted.
Qed.

(** ** Concrete lists

    [mk_list l xs] is a heap that holds exactly the list at [l] with elements [xs]. *)

Fixpoint link_nodes (p : Z) (ns : list Z) : list (Z * list_elem) :=
  match ns with
  | [] => []
  | n :: r => (n, mk_elem p (default NULL (head r))) :: link_nodes n r
  end.
Definition mk_list (l : Z) (xs : list Z) : heap := list_to_map (link_nodes NULL (nodes l xs)).

Ltac solve_mk_list :=
  constructor;
  [ by vm_compute
  | by apply (bool_decide_unpack _); vm_compute
  | by apply (bool_decide_unpack _); vm_compute
  | by vm_compute
  | by vm_compute ].

Lemma list_sort_correct_witness :
  wp (list_sort (λ a b, a mod 16 <? b mod 16) 10 96) (mk_list 96 [23; 48; 21; 32; 9])
    (λ _ h', ∃ ys, is_list h' 96 ys ∧ ys ≡ₚ [23; 48; 21; 32; 9] ∧
      Sorted (λ a b, (b mod 16 <? a mod 16) = false) ys ∧
      same_outside (nodes 96 [23; 48; 21; 32; 9]) (mk_list 96 [23; 48; 21; 32; 9]) h').
Proof.
  apply (list_sort_correct (λ a b, a mod 16 <? b mod 16)).
  - intros a b. rewrite Z.ltb_lt, Z.ltb_ge. lia.
  - solve_mk_list.
  - done.
  - simpl; lia.
Defined.
