(* ===== verification/KListOps.v ===== *)
(** * The other whole-list operations of list.c

    list_size, list_init, list_insert_ordered, list_max, list_min, list_unique
    and list_reverse, each refined to a function on the elements of the list. *)

From Stdlib Require Import Sorted.
From S2P Require Import Prelude KList KListSort.
Local Open Scope Z_scope.

(** ** The functions on sequences of elements *)

Section pure.
Context {A : Type} (less : A → A → bool).

(** Before the first element that is greater than [x]. *)
Fixpoint insert_ordered (x : A) (ys : list A) : list A :=
  match ys with
  | [] => [x]
  | y :: ys => if less x y then x :: y :: ys else y :: insert_ordered x ys
  end.

(** The first of the greatest elements of [m :: ys], the first of the least ones. *)
Definition seq_max (m : A) (ys : list A) : A :=
  foldl (λ m e, if less m e then e else m) m ys.
Definition seq_min (m : A) (ys : list A) : A :=
  foldl (λ m e, if less e m then e else m) m ys.

(** The kept elements and the duplicates after [a]. *)
Fixpoint unique_from (a : A) (ys : list A) : list A * list A :=
  match ys with
  | [] => ([], [])
  | y :: ys =>
    if negb (less a y) && negb (less y a) then let '(k, d) := unique_from a ys in (k, y :: d)
    else let '(k, d) := unique_from y ys in (y :: k, d)
  end.

Lemma insert_ordered_perm x ys : insert_ordered x ys ≡ₚ x :: ys.
Proof.
  induction ys as [|y ys IH]; [done|]. simpl. destruct (less x y); [done|].
  rewrite IH. constructor.
Qed.

Lemma insert_ordered_Sorted x ys :
  (∀ a b, less a b = true → less b a = false) →
  Sorted (λ a b, less b a = false) ys → Sorted (λ a b, less b a = false) (insert_ordered x ys).
Proof.
  intros Hasym. induction 1 as [|y ys Hs IH Hh]; simpl; [by repeat constructor|].
  destruct (less x y) eqn:E; [by repeat constructor; auto|]. constructor; [done|].
  destruct ys as [|z ys]; simpl; [by constructor|].
  destruct (less x z) eqn:?; constructor; [done|]. by inversion Hh.
Qed.

Lemma insert_ordered_split x ys : ∃ zs ws,
  ys = zs ++ ws ∧ insert_ordered x ys = zs ++ x :: ws ∧
  Forall (λ z, less x z = false) zs ∧ (∀ w, head ws = Some w → less x w = true).
Proof.
  induction ys as [|y ys (zs & ws & E & E' & Hz & Hw)]; [by exists [], []|]. simpl.
  destruct (less x y) eqn:Hy.
  - exists [], (y :: ys). split_and!; [done..|by intros ? [= <-]].
  - exists (y :: zs), ws. rewrite E' at 1. split_and!; [by rewrite E|done|by constructor|done].
Qed.

Lemma unique_from_perm a ys :
  (unique_from a ys).1 ++ (unique_from a ys).2 ≡ₚ ys.
Proof.
  revert a; induction ys as [|y ys IH]; intros a; [done|]. simpl.
  destruct (negb (less a y) && negb (less y a)).
  - specialize (IH a). destruct (unique_from a ys) as [k d]; simpl in *.
    by rewrite <-Permutation_middle, IH.
  - specialize (IH y). destruct (unique_from y ys) as [k d]; simpl in *. by rewrite IH.
Qed.

(** No two neighbours of the result are equal under the order. *)
Lemma unique_from_distinct a ys :
  Sorted (λ x y, less x y = true ∨ less y x = true) (a :: (unique_from a ys).1).
Proof.
  revert a; induction ys as [|y ys IH]; intros a; [by repeat constructor|]. simpl.
  destruct (negb (less a y) && negb (less y a)) eqn:E.
  - specialize (IH a). by destruct (unique_from a ys).
  - specialize (IH y). destruct (unique_from y ys). constructor; [done|]. constructor.
    destruct (less a y); [by left|]. destruct (less y a); [by right|]. done.
Qed.

Lemma seq_max_spec m ys :
  (∀ a b c, less b a = false → less c b = false → less c a = false) →
  (∀ a b, less a b = true → less b a = false) →
  seq_max m ys ∈ m :: ys ∧ ∀ y, y ∈ m :: ys → less (seq_max m ys) y = false.
Proof.
  intros Htr Hasym. assert (∀ a, less a a = false) as Hirr.
  { intros a. destruct (less a a) eqn:E; [|done]. by rewrite (Hasym _ _ E) in E. }
  revert m; induction ys as [|y ys IH]; intros m.
  { split; [set_solver|]. intros y ->%list_elem_of_singleton. apply Hirr. }
  simpl. destruct (less m y) eqn:E.
  - destruct (IH y) as [Hin Hmax]. split; [set_solver|].
    intros z [->|Hz]%elem_of_cons; [|by apply Hmax].
    apply (Htr _ y); [by apply Hasym|]. apply Hmax. set_solver.
  - destruct (IH m) as [Hin Hmax]. split; [set_solver|].
    intros z [->|[->|Hz]%elem_of_cons]%elem_of_cons; [apply Hmax; set_solver| |apply Hmax; set_solver].
    apply (Htr _ m); [done|]. apply Hmax. set_solver.
Qed.
End pure.

Lemma seq_min_max {A} (less : A → A → bool) m ys :
  seq_min less m ys = seq_max (λ a b, less b a) m ys.
Proof. done. Qed.

(** ** list_init and list_size *)

Lemma wp_list_init h l Q :
  l ≠ NULL → tail_of l ≠ NULL → is_Some (h !! head_of l) → is_Some (h !! tail_of l) →
  (∀ h', is_list h' l [] → same_outside (nodes l []) h h' → Q tt h') →
  wp (list_init l) h Q.
Proof.
  intros Hl%not_eq_sym Ht%not_eq_sym [eh Eh] [et Et] HQ. change l with (head_of l) in Hl.
  assert (head_of l ≠ tail_of l) by (unfold head_of, tail_of; lia).
  unfold list_init. wp_step. wp_step; [by rewrite (proj2 (Z.eqb_neq _ _))|].
  wp_step. apply wp_set_prev; [done|by eauto|].
  wp_step. apply wp_set_next; [done|by rewrite upd_prev_mapped; eauto|].
  wp_step. apply wp_set_prev; [done|by rewrite upd_next_mapped, upd_prev_mapped; eauto|].
  apply wp_set_next; [done|by rewrite upd_prev_mapped, upd_next_mapped, upd_prev_mapped; eauto|].
  apply HQ.
  - split; change (nodes l []) with [head_of l; tail_of l]; [|by nodup_solve|by nodup_solve| |];
      simpl; unfold lnk; klist_simp;
      repeat (first [rewrite nx_upd_next_eq by (klist_simp; by eauto)
                    |rewrite pv_upd_prev_eq by (klist_simp; by eauto)]; klist_simp); done.
  - intros q Hq. unfold nodes in Hq. list_facts. by klist_simp.
Qed.

Section loops.
Context (less : Z → Z → bool) (h : heap) (l : Z).

Lemma wp_list_size_loop fuel xs ys cnt Q :
  is_list h l (xs ++ ys) → (length ys < fuel)%nat →
  0 ≤ cnt → cnt + Z.of_nat (length ys) < 2 ^ 32 →
  Q (cnt + Z.of_nat (length ys)) h → wp (list_size_loop fuel l (hd_ptr l ys) cnt) h Q.
Proof.
  revert xs ys cnt; induction fuel as [|fuel IH]; intros xs ys cnt Hl Hf Hc Hc' HQ; [lia|].
  simpl list_size_loop. wp_step. apply wp_end; [by eapply list_nonnull|].
  rewrite (hd_ptr_eqb_tail h l xs) by done. destruct ys as [|y ys]; simpl length in *.
  { rewrite bool_decide_true, Z.add_0_r in * by done. by wp_step. }
  rewrite bool_decide_false by done. wp_step. apply (wp_next _ l xs y ys); [done|].
  rewrite wrap_small by lia. apply (IH (xs ++ [y])); [by rewrite <-app_assoc|lia|lia|lia|].
  by replace (cnt + 1 + Z.of_nat (length ys)) with (cnt + Z.of_nat (S (length ys))) by lia.
Qed.

Lemma wp_list_insert_ordered_loop fuel xs ys e Q :
  is_list h l (xs ++ ys) → (length ys < fuel)%nat →
  (∀ zs ws, ys = zs ++ ws → insert_ordered less e ys = zs ++ e :: ws → Q (hd_ptr l ws) h) →
  wp (list_insert_ordered_loop less fuel l e (hd_ptr l ys)) h Q.
Proof.
  revert xs ys Q; induction fuel as [|fuel IH]; intros xs ys Q Hl Hf HQ; [lia|].
  simpl list_insert_ordered_loop. wp_step. apply wp_end; [by eapply list_nonnull|].
  rewrite (hd_ptr_eqb_tail h l xs) by done. destruct ys as [|y ys]; simpl length in *.
  { rewrite bool_decide_true by done. wp_step. by apply (HQ [] []). }
  rewrite bool_decide_false by done. change (hd_ptr l (y :: ys)) with y. simpl in HQ.
  destruct (less e y) eqn:E; [wp_step; by apply (HQ [] (y :: ys))|].
  wp_step. apply (wp_next _ l xs y ys); [done|].
  apply (IH (xs ++ [y])); [by rewrite <-app_assoc|lia|].
  intros zs ws -> E'. apply (HQ (y :: zs)); [done|]. simpl. by rewrite E'.
Qed.

Lemma wp_list_max_loop fuel xs ys m Q :
  is_list h l (xs ++ ys) → (length ys < fuel)%nat → Q (seq_max less m ys) h →
  wp (list_max_loop less fuel l m (hd_ptr l ys)) h Q.
Proof.
  revert xs ys m; induction fuel as [|fuel IH]; intros xs ys m Hl Hf HQ; [lia|].
  simpl list_max_loop. wp_step. apply wp_end; [by eapply list_nonnull|].
  rewrite (hd_ptr_eqb_tail h l xs) by done. destruct ys as [|y ys]; simpl length in *.
  { rewrite bool_decide_true by done. by wp_step. }
  rewrite bool_decide_false by done. change (hd_ptr l (y :: ys)) with y.
  wp_step. apply (wp_next _ l xs y ys); [done|].
  apply (IH (xs ++ [y])); [by rewrite <-app_assoc|lia|done].
Qed.
End loops.

(** list_min is list_max for the converse order. *)
Lemma list_min_loop_max less fuel l m e h :
  list_min_loop less fuel l m e h = list_max_loop (λ a b, less b a) fuel l m e h.
Proof.
  revert m e h; induction fuel as [|fuel IH]; intros m e h; [done|].
  simpl. unfold mbind, M_bind. destruct (list_end l h) as [[t h']| | |]; [|done..].
  destruct (e =? t); [done|]. by destruct (list_next e h') as [[n h'']| | |].
Qed.
Lemma list_min_max less fuel l h : list_min less fuel l h = list_max (λ a b, less b a) fuel l h.
Proof.
  unfold list_min, list_max, mbind, M_bind.
  destruct (list_begin l h) as [[m h1]| | |]; [|done..].
  destruct (list_end l h1) as [[t h2]| | |]; [|done..]. destruct (negb (m =? t)); [|done].
  destruct (list_next m h2) as [[n h3]| | |]; [|done..]. apply list_min_loop_max.
Qed.

Section loop_specs.
Context (less : Z → Z → bool) (h : heap) (l : Z).

Lemma wp_list_size fuel xs Q :
  is_list h l xs → (length xs < fuel)%nat → Z.of_nat (length xs) < 2 ^ 32 →
  Q (Z.of_nat (length xs)) h → wp (list_size fuel l) h Q.
Proof.
  intros Hl Hf Hlen HQ. unfold list_size. wp_step. apply (wp_begin _ _ xs); [done|].
  by apply (wp_list_size_loop h l fuel [] xs).
Qed.

Lemma wp_list_insert_ordered fuel xs e Q :
  is_list h l xs → (length xs < fuel)%nat →
  e ≠ NULL → e ∉ nodes l xs → is_Some (h !! e) →
  (∀ h', is_list h' l (insert_ordered less e xs) →
         same_outside (e :: nodes l xs) h h' → Q tt h') →
  wp (list_insert_ordered less fuel l e) h Q.
Proof.
  intros Hl Hf He Hin Hm HQ. unfold list_insert_ordered.
  wp_step. wp_step; [by rewrite (proj2 (Z.eqb_neq _ _) (list_nonnull _ _ _ Hl))|].
  wp_step. wp_step; [by rewrite (proj2 (Z.eqb_neq _ _) He)|].
  wp_step. apply (wp_begin _ _ xs); [done|]. wp_step.
  apply (wp_list_insert_ordered_loop less h l fuel [] xs); [done|done|].
  intros zs ws -> E. apply (wp_insert h l zs ws); [done..|]. by rewrite <-E.
Qed.

Lemma wp_list_max fuel xs Q :
  is_list h l xs → (length xs < fuel)%nat →
  match xs with
  | [] => Q (tail_of l) h
  | x :: xs => Q (seq_max less x xs) h
  end → wp (list_max less fuel l) h Q.
Proof.
  intros Hl Hf HQ. unfold list_max. wp_step. apply (wp_begin _ _ xs); [done|].
  wp_step. apply wp_end; [by eapply list_nonnull|].
  rewrite (hd_ptr_eqb_tail h l []) by done. destruct xs as [|x xs].
  { by rewrite bool_decide_true. }
  rewrite bool_decide_false by done. simpl negb. cbv iota.
  wp_step. apply (wp_next _ l [] x xs); [done|].
  apply (wp_list_max_loop less h l fuel [x] xs); [done|simpl in Hf; lia|done].
Qed.
End loop_specs.

Lemma wp_list_min less h l fuel xs Q :
  is_list h l xs → (length xs < fuel)%nat →
  match xs with
  | [] => Q (tail_of l) h
  | x :: xs => Q (seq_min less x xs) h
  end → wp (list_min less fuel l) h Q.
Proof. intros Hl Hf HQ. unfold wp. rewrite list_min_max. by apply (wp_list_max _ h l fuel xs). Qed.

(** ** list_unique

    The second list, when there is one, is disjoint from the first. *)

Definition dup_list (h : heap) (d l : Z) (xs ds : list Z) : Prop :=
  d = NULL ∨ is_list h d ds ∧ ∀ q, q ∈ nodes l xs → q ∉ nodes d ds.

Lemma dup_list_frame h h' d l xs ys ds :
  dup_list h d l xs ds → same_outside (nodes l ys) h h' →
  (∀ q, q ∈ nodes l ys → q ∈ nodes l xs) → dup_list h' d l ys ds.
Proof.
  intros [?|[Hd Hdj]] Hs Hsub; [by left|]. right. split; [|by auto].
  apply (is_list_frame (nodes l ys) h); [done| |done]. intros q Hq Hq'. by apply (Hdj q); auto.
Qed.

(** Elements of a list but one. *)
Lemma nodes_middle l xs y ys q :
  q ∈ nodes l (xs ++ y :: ys) ↔ q = y ∨ q ∈ nodes l (xs ++ ys).
Proof. by rewrite nodes_perm_cons, elem_of_cons. Qed.

Lemma removed_fresh h l xs y ys :
  is_list h l (xs ++ y :: ys) → y ∉ nodes l (xs ++ ys).
Proof.
  intros [_ Hnd _ _ _]. rewrite nodes_perm_cons in Hnd. by apply NoDup_cons in Hnd as [??].
Qed.

(** Moving the element [y] of the list at [l] to the end of the second list. *)
Lemma wp_move_dup h d l xs y ys ds Q :
  is_list h l (xs ++ y :: ys) → dup_list h d l (xs ++ y :: ys) ds →
  (∀ h', is_list h' l (xs ++ ys) → dup_list h' d l (xs ++ ys) (ds ++ [y]) →
     same_outside (nodes l (xs ++ y :: ys) ++ nodes d ds) h h' → Q tt h') →
  wp (list_remove y) h (λ _ h1, wp (if negb (d =? NULL) then list_push_back d y else mret tt) h1 Q).
Proof.
  intros Hl Hd HQ. pose proof (removed_fresh _ _ _ _ _ Hl) as Hy.
  pose proof (nodes_middle l xs y ys) as Hin.
  apply (wp_remove h l xs y ys); [done|]. intros h1 Hl1 Hs1.
  pose proof (dup_list_frame _ h1 _ _ _ (xs ++ ys) _ Hd Hs1
    ltac:(intros q ?; apply Hin; auto)) as Hd1.
  assert (is_Some (h1 !! y)) as Hm.
  { rewrite Hs1 by done. apply (node_mapped _ _ _ _ Hl), Hin; auto. }
  destruct (Z.eqb_spec d NULL) as [->|Hd0]; simpl negb; cbv iota.
  { wp_step. apply HQ; [done|by left|]. eapply same_outside_mono; [|done].
    intros q Hq. apply elem_of_app; left. apply Hin; auto. }
  destruct Hd as [?|[_ Hdj]]; [done|]. destruct Hd1 as [?|[Hd1 Hdj1]]; [done|].
  apply (wp_push_back h1 d ds); [done| |refine (Hdj y _); apply Hin; auto|done|].
  { apply (node_nonnull _ _ _ _ Hl), Hin; auto. }
  intros h2 Hd2 Hs2. apply HQ.
  - apply (is_list_frame (y :: nodes d ds) h1); [done| |done].
    intros q Hq [->|Hq']%elem_of_cons; [done|]. by apply (Hdj1 q).
  - right. split; [done|]. intros q Hq Hq'. apply (nodes_middle d ds y []) in Hq'.
    rewrite app_nil_r in Hq'. destruct Hq' as [->|Hq']; [done|]. by apply (Hdj1 q).
  - apply (same_outside_trans _ _ h1); eapply same_outside_mono; [|done| |done].
    + intros q Hq. apply elem_of_app; left. apply Hin; auto.
    + intros q [->|Hq]%elem_of_cons; apply elem_of_app; [left; apply Hin; auto|by right].
Qed.

Lemma wp_list_unique_loop less h d l fuel xs a ys ds Q :
  is_list h l (xs ++ a :: ys) → dup_list h d l (xs ++ a :: ys) ds → (length ys < fuel)%nat →
  (∀ h' ks us, unique_from less a ys = (ks, us) →
     is_list h' l (xs ++ a :: ks) → dup_list h' d l (xs ++ a :: ks) (ds ++ us) →
     same_outside (nodes l (xs ++ a :: ys) ++ nodes d ds) h h' → Q tt h') →
  wp (list_unique_loop less fuel l d a) h Q.
Proof.
  revert h xs a ys ds Q; induction fuel as [|fuel IH];
    intros h xs a ys ds Q Hl Hd Hf HQ; [lia|].
  simpl list_unique_loop. wp_step. apply (wp_next _ l xs a ys); [done|].
  wp_step. apply wp_end; [by eapply list_nonnull|].
  rewrite (hd_ptr_eqb_tail h l (xs ++ [a])) by (by rewrite <-app_assoc).
  destruct ys as [|y ys].
  { rewrite bool_decide_true by done. wp_step. apply (HQ h [] []); [done|done| |done].
    by rewrite app_nil_r. }
  rewrite bool_decide_false by done. change (hd_ptr l (y :: ys)) with y. cbn [unique_from] in HQ. simpl in Hf.
  destruct (negb (less a y) && negb (less y a)).
  - assert (xs ++ a :: y :: ys = (xs ++ [a]) ++ y :: ys) as E by (by rewrite <-app_assoc).
    assert (xs ++ a :: ys = (xs ++ [a]) ++ ys) as E' by (by rewrite <-app_assoc).
    rewrite E in Hl, Hd. wp_step. refine (wp_mono _ _ _ _ _ (λ _ h1, wp_bind _ _ h1 Q)).
    apply (wp_move_dup h d l (xs ++ [a]) y ys ds); [done|done|].
    intros h1 Hl1 Hd1 Hs1. rewrite <-E in Hs1. rewrite <-E' in Hl1, Hd1.
    apply (IH h1 xs a ys (ds ++ [y])); [done|done|lia|].
    intros h2 ks us Eu Hl2 Hd2 Hs2. rewrite <-app_assoc in Hd2.
    apply (HQ h2 ks (y :: us)); [by rewrite Eu|done|done|].
    apply (same_outside_trans _ _ h1); [done|]. eapply same_outside_mono; [|done].
    intros q. rewrite !elem_of_app, E, E', (nodes_middle l (xs ++ [a]) y ys), (nodes_middle d ds y []), app_nil_r.
    tauto.
  - rewrite (cons_middle a), (app_assoc xs) in Hl, Hd. apply (IH h (xs ++ [a]) y ys ds); [done|done|lia|].
    intros h2 ks us Eu Hl2 Hd2 Hs2. rewrite <-app_assoc in Hl2, Hd2, Hs2.
    apply (HQ h2 (y :: ks) us); [by rewrite Eu|done..].
Qed.

Lemma wp_list_unique less h d l fuel xs ds Q :
  is_list h l xs → dup_list h d l xs ds → (length xs < fuel)%nat →
  (∀ h', match xs with
         | [] => h' = h
         | x :: xs => is_list h' l (x :: (unique_from less x xs).1) ∧
                      dup_list h' d l (x :: (unique_from less x xs).1)
                        (ds ++ (unique_from less x xs).2)
         end → same_outside (nodes l xs ++ nodes d ds) h h' → Q tt h') →
  wp (list_unique less fuel l d) h Q.
Proof.
  intros Hl Hd Hf HQ. unfold list_unique.
  wp_step. wp_step; [by rewrite (proj2 (Z.eqb_neq _ _) (list_nonnull _ _ _ Hl))|].
  wp_step. apply (wp_empty _ _ xs); [done|]. destruct xs as [|x xs].
  { rewrite bool_decide_true by done. wp_step. by apply HQ. }
  rewrite bool_decide_false by done. wp_step. apply (wp_begin _ _ (x :: xs)); [done|].
  apply (wp_list_unique_loop less h d l fuel [] x xs ds); [done|done|simpl in Hf; lia|].
  intros h' ks us E Hl' Hd' Hs. apply HQ; [|done]. by rewrite E.
Qed.

(** ** list_reverse *)

Definition flip_elem (e : list_elem) : list_elem := mk_elem (next e) (prev e).
(** [h] is [h0] with the links of the elements of [xs] exchanged. *)
Definition flipped (xs : list Z) (h0 h : heap) : Prop :=
  ∀ q, h !! q = if decide (q ∈ xs) then flip_elem <$> h0 !! q else h0 !! q.

Lemma wp_swap_prev_next h p q a b Q :
  p ≠ NULL → q ≠ NULL → pv h p = Some a → nx h q = Some b →
  Q tt (upd_next q a (upd_prev p b h)) → wp (swap (Prev p) (Next q)) h Q.
Proof.
  intros Hp Hq Ea Eb HQ. pose proof (pv_mapped _ _ _ Ea). pose proof (nx_mapped _ _ _ Eb).
  unfold swap, load_link, store_link. wp_step. apply (wp_get_prev _ _ a); [done..|].
  wp_step. apply (wp_get_next _ _ b); [done..|]. wp_step. apply wp_set_prev; [done..|].
  by apply wp_set_next; [|klist_simp|].
Qed.
Lemma wp_swap_next_prev h p q a b Q :
  p ≠ NULL → q ≠ NULL → nx h p = Some a → pv h q = Some b →
  Q tt (upd_prev q a (upd_next p b h)) → wp (swap (Next p) (Prev q)) h Q.
Proof.
  intros Hp Hq Ea Eb HQ. pose proof (nx_mapped _ _ _ Ea). pose proof (pv_mapped _ _ _ Eb).
  unfold swap, load_link, store_link. wp_step. apply (wp_get_next _ _ a); [done..|].
  wp_step. apply (wp_get_prev _ _ b); [done..|]. wp_step. apply wp_set_next; [done..|].
  by apply wp_set_prev; [|klist_simp|].
Qed.

Lemma path_rev_map h h' (f : Z → Z) ps :
  (∀ a b, a ∈ ps → b ∈ ps → lnk h a b → lnk h' (f b) (f a)) →
  path h ps → path h' (f <$> reverse ps).
Proof.
  induction ps as [|a [|b ps] IH]; intros Hf Hp; [done..|].
  destruct Hp as [Hab Hp]. rewrite !reverse_cons, <-app_assoc, fmap_app. simpl.
  apply (path_split h' _ (f b) [f a]). rewrite !reverse_cons, fmap_app in IH. split.
  - apply IH; [|done]. intros c d ??. apply Hf; set_solver.
  - split; [|done]. apply Hf; [set_solver..|done].
Qed.

(** Two updates of the links of one element exchange them. *)
Lemma flip_lookup h y e q :
  h !! y = Some e →
  upd_next y (prev e) (upd_prev y (next e) h) !! q =
    if decide (q = y) then Some (flip_elem e) else h !! q.
Proof.
  intros E. unfold upd_next, upd_prev. case_decide as Hq; subst.
  - by rewrite !lookup_alter_eq, E.
  - by rewrite !lookup_alter_ne by done.
Qed.

Lemma wp_list_reverse_loop h0 h l fuel xs ys Q :
  is_list h0 l (xs ++ ys) → flipped xs h0 h → (length ys < fuel)%nat →
  (∀ h', flipped (xs ++ ys) h0 h' → Q tt h') →
  wp (list_reverse_loop fuel l (hd_ptr l ys)) h Q.
Proof.
  revert h xs ys Q; induction fuel as [|fuel IH]; intros h xs ys Q Hl Hfl Hf HQ; [lia|].
  simpl list_reverse_loop. wp_step. apply wp_end; [by eapply list_nonnull|].
  rewrite (hd_ptr_eqb_tail h0 l xs) by done. destruct ys as [|y ys].
  { rewrite bool_decide_true by done. wp_step. apply HQ. by rewrite app_nil_r. }
  rewrite bool_decide_false by done. change (hd_ptr l (y :: ys)) with y. simpl in Hf.
  pose proof (elem_next h0 l xs y ys Hl) as Hn.
  destruct (h0 !! y) as [e|] eqn:Ey; [|unfold nx in Hn; by rewrite Ey in Hn].
  assert (y ∉ xs) as Hy.
  { pose proof (removed_fresh _ _ _ _ _ Hl) as Hy. unfold nodes in Hy. set_solver. }
  assert (h !! y = Some e) as Ey' by (by rewrite Hfl, decide_False).
  assert (y ≠ NULL) by (apply (hd_ptr_nonnull h0 l xs (y :: ys)); done).
  wp_step. apply (wp_swap_prev_next _ _ _ (prev e) (next e));
    [done|done|unfold pv; by rewrite Ey'|unfold nx; by rewrite Ey'|].
  wp_step. apply (wp_get_prev _ _ (hd_ptr l ys)); [done| |].
  { unfold pv. rewrite (flip_lookup h y e) by done. rewrite decide_True by done.
    unfold nx in Hn. by rewrite Ey in Hn. }
  rewrite (cons_middle y), app_assoc in Hl, HQ.
  apply (IH _ (xs ++ [y])); [done| |lia|done].
  intros q. rewrite (flip_lookup h y e) by done. case_decide as Hq; subst.
  - rewrite decide_True by set_solver. by rewrite Ey.
  - rewrite Hfl. by repeat case_decide; set_solver.
Qed.

(** The pointer that takes the place of [p] in the reversed list. *)
Definition mirror (l p : Z) : Z :=
  if p =? head_of l then tail_of l else if p =? tail_of l then head_of l else p.

Lemma nodes_reverse h l xs : is_list h l xs → nodes l (reverse xs) = mirror l <$> reverse (nodes l xs).
Proof.
  intros [_ Hnd _ _ _]. unfold nodes. rewrite reverse_cons, reverse_app, reverse_singleton.
  rewrite fmap_app. simpl. unfold mirror at 1 3. rewrite !Z.eqb_refl.
  replace (tail_of l =? head_of l) with false by (symmetry; apply Z.eqb_neq; unfold tail_of, head_of; lia).
  do 2 f_equal. rewrite <-(list_fmap_id (reverse xs)) at 1. apply list_fmap_ext.
  intros i x Hx%list_elem_of_lookup_2. rewrite elem_of_reverse in Hx.
  unfold nodes in Hnd. list_facts. unfold mirror.
  destruct (Z.eqb_spec x (head_of l)); [set_solver|].
  destruct (Z.eqb_spec x (tail_of l)) as [->|]; [|done].
  contradiction.
Qed.

Lemma flipped_in xs h0 h q : flipped xs h0 h → q ∈ xs → nx h q = pv h0 q ∧ pv h q = nx h0 q.
Proof.
  intros Hfl Hq. specialize (Hfl q). rewrite decide_True in Hfl by done.
  unfold nx, pv. rewrite Hfl. by destruct (h0 !! q).
Qed.
Lemma flipped_mapped xs h0 h q : flipped xs h0 h → is_Some (h0 !! q) → is_Some (h !! q).
Proof. intros Hfl [e He]. rewrite Hfl, He. case_decide; eauto. Qed.

(** The heap after the last two exchanges; [x] was the first element and [y]
    the last one. *)
Definition reverse_ends (l x y : Z) (h : heap) : heap :=
  upd_next x (tail_of l) (upd_prev y (head_of l)
    (upd_prev (tail_of l) x (upd_next (head_of l) y h))).

Section reverse_links.
Context (h0 h1 : heap) (l : Z) (xs : list Z) (x y : Z).
Context (Hl : is_list h0 l xs) (Hfl : flipped xs h0 h1).
Context (Hx : head xs = Some x) (Hy : last xs = Some y).

Lemma ends_facts :
  head_of l ∉ xs ∧ tail_of l ∉ xs ∧ head_of l ≠ tail_of l ∧ x ∈ xs ∧ y ∈ xs ∧
  head_of l ≠ x ∧ head_of l ≠ y ∧ tail_of l ≠ x ∧ tail_of l ≠ y ∧
  pv h0 x = Some (head_of l) ∧ nx h0 y = Some (tail_of l).
Proof using Hl Hx Hy.
  clear Hfl h1. assert (x ∈ xs) by (by apply head_Some_elem_of). assert (y ∈ xs) by (by apply last_Some_elem_of).
  pose proof (il_nodup _ _ _ Hl) as Hnd. unfold nodes in Hnd.
  assert (pv h0 x = Some (head_of l)).
  { pose proof (suffix_prev h0 l [] xs Hl) as E. unfold hd_ptr in E. by rewrite Hx in E. }
  assert (nx h0 y = Some (tail_of l)).
  { apply last_Some in Hy as [k ->]. exact (elem_next h0 l k y [] Hl). }
  list_facts. split_and!; try done; intros ?; subst; contradiction.
Qed.

Lemma reverse_ends_mapped q : is_Some (h0 !! q) → is_Some (reverse_ends l x y h1 !! q).
Proof. unfold reverse_ends. klist_simp. by apply flipped_mapped with xs. Qed.

Lemma mirror_in p : p ∈ xs → mirror l p = p.
Proof.
  destruct ends_facts as (?&?&_). intros Hp. unfold mirror.
  destruct (Z.eqb_spec p (head_of l)); [by subst|]. by destruct (Z.eqb_spec p (tail_of l)); subst.
Qed.
Lemma mirror_head : mirror l (head_of l) = tail_of l.
Proof. unfold mirror. by rewrite Z.eqb_refl. Qed.
Lemma mirror_tail : mirror l (tail_of l) = head_of l.
Proof.
  destruct ends_facts as (_&_&?&_). unfold mirror.
  by rewrite (proj2 (Z.eqb_neq _ _)), Z.eqb_refl by done.
Qed.

Lemma reverse_links a b :
  lnk h0 a b → a ∈ nodes l xs → b ∈ nodes l xs →
  lnk (reverse_ends l x y h1) (mirror l b) (mirror l a).
Proof.
  intros [Hn Hp] Ha Hb. destruct ends_facts as (?&?&?&Hxin&Hyin&?&?&?&?&Hpx&Hny).
  assert (∀ q, q ∈ nodes l xs → is_Some (h1 !! q)) as Hm.
  { intros q Hq. apply (flipped_mapped xs h0); [done|]. by apply (node_mapped _ _ _ _ Hl). }
  pose proof (node_nonnull _ _ _ _ Hl Ha). pose proof (node_nonnull _ _ _ _ Hl Hb).
  pose proof (il_head _ _ _ Hl). pose proof (il_tail _ _ _ Hl).
  assert (a = head_of l ∨ a ∈ xs) as [->|Ha'].
  { apply elem_of_cons in Ha as [->|Ha]; [by left|]. right.
    apply elem_of_app in Ha as [?| ->%list_elem_of_singleton]; [done|congruence]. }
  - assert (b = x) as ->.
    { change (nx h0 l = Some b) in Hn. rewrite (head_next h0 l xs Hl) in Hn. unfold hd_ptr in Hn. rewrite Hx in Hn. by simplify_eq/=. }
    rewrite mirror_head, mirror_in by done. unfold reverse_ends. split; klist_simp.
    + rewrite nx_upd_next_eq; [done|klist_simp; auto].
    + rewrite pv_upd_prev_eq; [done|klist_simp; apply Hm; unfold nodes; set_solver].
  - rewrite (mirror_in a) by done. assert (b = tail_of l ∨ b ∈ xs) as [->|Hb'].
    { apply elem_of_cons in Hb as [->|Hb]; [congruence|].
      apply elem_of_app in Hb as [?| ->%list_elem_of_singleton]; auto. }
    + assert (a = y) as ->.
      { rewrite (tail_prev h0 l xs Hl), Hy in Hp. by simplify_eq/=. }
      rewrite mirror_tail. unfold reverse_ends. split; klist_simp.
      * rewrite nx_upd_next_eq; [done|]. apply Hm. unfold nodes; set_solver.
      * rewrite pv_upd_prev_eq; [done|klist_simp; auto].
    + assert (x ≠ b) by (intros ->; congruence). assert (y ≠ a) by (intros ->; congruence).
      rewrite mirror_in by done. unfold reverse_ends. destruct (flipped_in _ _ _ b Hfl Hb') as [E _].
      destruct (flipped_in _ _ _ a Hfl Ha') as [_ E'].
      split; klist_simp; congruence.
Qed.

Lemma reverse_is_list :
  is_list (reverse_ends l x y h1) l (reverse xs) ∧
  same_outside (nodes l xs) h0 (reverse_ends l x y h1).
Proof.
  destruct ends_facts as (?&?&?&Hxin&Hyin&?&?&?&?&_&_).
  assert (nodes l (reverse xs) ≡ₚ nodes l xs) as Hperm
    by (unfold nodes; by rewrite reverse_Permutation).
  destruct Hl as [Hp Hnd Hnn Hh Ht]. split; [split|].
  - rewrite (nodes_reverse h0 l xs Hl). apply (path_rev_map h0); [|done].
    intros a b ???. by apply reverse_links.
  - by rewrite Hperm.
  - by rewrite Hperm.
  - unfold reverse_ends. klist_simp. specialize (Hfl (head_of l)).
    unfold pv in *. rewrite Hfl. by rewrite decide_False.
  - unfold reverse_ends. klist_simp. specialize (Hfl (tail_of l)).
    unfold nx in *. rewrite Hfl. by rewrite decide_False.
  - intros q Hq. unfold nodes in Hq. list_facts. unfold reverse_ends. klist_simp.
    rewrite Hfl. by rewrite decide_False.
Qed.
End reverse_links.

Lemma wp_list_reverse h l fuel xs Q :
  is_list h l xs → (length xs < fuel)%nat →
  (∀ h', is_list h' l (reverse xs) → same_outside (nodes l xs) h h' → Q tt h') →
  wp (list_reverse fuel l) h Q.
Proof.
  intros Hl Hf HQ. unfold list_reverse. wp_step. apply (wp_empty _ _ xs); [done|].
  destruct (head xs) as [x|] eqn:Hx; [|destruct xs; [|done]].
  2: { rewrite bool_decide_true by done. by apply wp_ret, HQ. }
  rewrite bool_decide_false by (by destruct xs). simpl negb. cbv iota.
  destruct (last xs) as [y|] eqn:Hy; [|apply last_None in Hy; by subst].
  wp_step. apply (wp_begin _ _ xs); [done|]. wp_step.
  apply (wp_list_reverse_loop h h l fuel [] xs); [done| |done|].
  { intros q. by rewrite decide_False by apply not_elem_of_nil. }
  intros h1 Hfl. simpl in Hfl. destruct (ends_facts h l xs x y Hl Hx Hy) as (?&?&?&Hxin&Hyin&?&?&?&?&Hpx&Hny).
  destruct (flipped_in _ _ _ _ Hfl Hxin) as [Enx _]. destruct (flipped_in _ _ _ _ Hfl Hyin) as [_ Epy].
  pose proof (list_nonnull _ _ _ Hl). pose proof (tail_nonnull _ _ _ Hl).
  assert (nx h1 (head_of l) = Some x) as Ehx.
  { pose proof (head_next h l xs Hl) as E. unfold hd_ptr in E. rewrite Hx in E.
    unfold nx in *. by rewrite Hfl, decide_False. }
  assert (pv h1 (tail_of l) = Some y) as Ety.
  { pose proof (tail_prev h l xs Hl) as E. rewrite Hy in E. unfold pv in *. by rewrite Hfl, decide_False. }
  wp_step. apply (wp_swap_next_prev _ _ _ x y); [done..|].
  wp_step. apply (wp_get_next _ _ y); [done| |].
  { klist_simp. rewrite nx_upd_next_eq; [done|]. by eapply nx_mapped. }
  wp_step. apply (wp_get_prev _ _ x); [done| |].
  { rewrite pv_upd_prev_eq; [done|klist_simp; by eapply pv_mapped]. }
  assert (∀ p, p ∈ xs → p ≠ NULL) as Hnn.
  { intros p Hp. apply (node_nonnull _ _ _ _ Hl). unfold nodes. set_solver. }
  apply (wp_swap_prev_next _ _ _ (tail_of l) (head_of l)); [by auto|by auto|klist_simp; congruence..|].
  destruct (reverse_is_list h h1 l xs x y Hl Hfl Hx Hy). by apply HQ.
Qed.

(** ** The theorems *)

(** list_reverse returns and leaves the list with its elements in the
    opposite order, writing nothing but the links of the list. *)
Theorem list_reverse_correct (h : heap) (l : Z) (xs : list Z) (fuel : nat) :
  is_list h l xs → (length xs < fuel)%nat →
  wp (list_reverse fuel l) h (λ _ h', is_list h' l (reverse xs) ∧ same_outside (nodes l xs) h h').
Proof. intros Hl Hf. by apply (wp_list_reverse h l fuel xs). Qed.

Lemma list_reverse_correct_witness :
  wp (list_reverse 4 96) (mk_list 96 [24; 48; 32]) (λ _ h',
    is_list h' 96 [32; 48; 24] ∧ same_outside (nodes 96 [24; 48; 32]) (mk_list 96 [24; 48; 32]) h').
Proof. apply (list_reverse_correct _ _ [24; 48; 32]); [solve_mk_list|simpl; lia]. Defined.

(** list_unique returns; the list and the duplicates together keep every
    element, no two neighbours left in the list compare equal, and the removed
    elements are appended to DUPLICATES in order (nothing else is written). *)
Theorem list_unique_correct (less : Z → Z → bool) (h : heap) (l d : Z) (xs ds : list Z) (fuel : nat) :
  is_list h l xs → is_list h d ds → (∀ q, q ∈ nodes l xs → q ∉ nodes d ds) →
  (length xs < fuel)%nat →
  wp (list_unique less fuel l d) h (λ _ h', ∃ ks us,
    is_list h' l ks ∧ is_list h' d (ds ++ us) ∧ ks ++ us ≡ₚ xs ∧
    Sorted (λ x y, less x y = true ∨ less y x = true) ks ∧
    same_outside (nodes l xs ++ nodes d ds) h h').
Proof.
  intros Hl Hd Hdj Hf. pose proof (list_nonnull _ _ _ Hd).
  apply (wp_list_unique less h d l fuel xs ds); [done|by right|done|].
  intros h' Hu Hs. destruct xs as [|x xs].
  { subst. exists [], []. rewrite app_nil_r. by split_and!; [..|constructor|]. }
  destruct Hu as [Hl' [?|[Hd' _]]]; [done|].
  exists (x :: (unique_from less x xs).1), (unique_from less x xs).2.
  split_and!; [done..| |by apply unique_from_distinct|done].
  simpl. by rewrite unique_from_perm.
Qed.

Lemma list_unique_correct_witness :
  wp (list_unique (λ a b, a mod 16 <? b mod 16) 10 96 160)
    (mk_list 96 [16; 32; 49; 65] ∪ mk_list 160 []) (λ _ h', ∃ ks us,
    is_list h' 96 ks ∧ is_list h' 160 ([] ++ us) ∧ ks ++ us ≡ₚ [16; 32; 49; 65] ∧
    Sorted (λ x y, (x mod 16 <? y mod 16) = true ∨ (y mod 16 <? x mod 16) = true) ks ∧
    same_outside (nodes 96 [16; 32; 49; 65] ++ nodes 160 [])
      (mk_list 96 [16; 32; 49; 65] ∪ mk_list 160 []) h').
Proof.
  apply (list_unique_correct (λ a b, a mod 16 <? b mod 16)).
  - solve_mk_list.
  - solve_mk_list.
  - intros q Hq Hq'. unfold nodes, head_of, tail_of in *. simpl in *. list_facts; lia.
  - simpl; lia.
Defined.

(** list_insert_ordered into a sorted list leaves a sorted list with the new
    element added, after the elements equal to it and before the first greater
    one, so that the list is a priority queue in FIFO order of insertion. *)
Theorem list_insert_ordered_correct (less : Z → Z → bool) (h : heap) (l e : Z) (xs : list Z) (fuel : nat) :
  (∀ a b, less a b = true → less b a = false) →
  is_list h l xs → Sorted (λ a b, less b a = false) xs → (length xs < fuel)%nat →
  e ≠ NULL → e ∉ nodes l xs → is_Some (h !! e) →
  wp (list_insert_ordered less fuel l e) h (λ _ h', ∃ zs ws,
    xs = zs ++ ws ∧ is_list h' l (zs ++ e :: ws) ∧
    Sorted (λ a b, less b a = false) (zs ++ e :: ws) ∧
    Forall (λ z, less e z = false) zs ∧ (∀ w, head ws = Some w → less e w = true) ∧
    same_outside (e :: nodes l xs) h h').
Proof.
  intros Hasym Hl Hs Hf He Hin Hm.
  apply (wp_list_insert_ordered less h l fuel xs); [done..|]. intros h' Hl' Hs'.
  pose proof (insert_ordered_Sorted less e xs Hasym Hs) as Hsort.
  destruct (insert_ordered_split less e xs) as (zs & ws & E & E' & Hz & Hw).
  exists zs, ws. rewrite <-E'. done.
Qed.

Lemma list_insert_ordered_correct_witness :
  wp (list_insert_ordered Z.ltb 4 96 32) (mk_list 96 [16; 48] ∪ mk_list 32 []) (λ _ h', ∃ zs ws,
    [16; 48] = zs ++ ws ∧ is_list h' 96 (zs ++ 32 :: ws) ∧
    Sorted (λ a b, (b <? a) = false) (zs ++ 32 :: ws) ∧
    Forall (λ z, (32 <? z) = false) zs ∧ (∀ w, head ws = Some w → (32 <? w) = true) ∧
    same_outside (32 :: nodes 96 [16; 48]) (mk_list 96 [16; 48] ∪ mk_list 32 []) h').
Proof.
  apply (list_insert_ordered_correct Z.ltb).
  - intros a b. rewrite Z.ltb_lt, Z.ltb_ge. lia.
  - solve_mk_list.
  - by repeat constructor.
  - simpl; lia.
  - done.
  - by apply (bool_decide_unpack _); vm_compute.
  - by vm_compute; eauto.
Defined.
