(* ===== verification/Bitmap.v ===== *)
(** * Bitmaps: lib/kernel/bitmap.c

    A bitmap is its number of bits and an array of 32-bit elements; all the
    operations of bitmap.c run on it with their index arithmetic in size_t and
    their assertions.  The theorems describe them on the bits [bit b i], the
    [i]-th bit of the array.  malloc and the file operations are arguments: the
    outcome of the allocations (with arbitrary old contents), the bytes that
    file_read_at delivers and file_write_at accepts. *)

From S2P Require Import Prelude.
Local Open Scope Z_scope.
Local Ltac Zify.zify_post_hook ::= Z.div_mod_to_equations.

(** sizeof (elem_type) * CHAR_BIT, for a 32-bit unsigned long. *)
Definition ELEM_BITS : Z := 32.
(** SIZE_MAX, lib/kernel/bitmap.h. *)
Definition BITMAP_ERROR : Z := 2 ^ 32 - 1.

Record bitmap := mk_bitmap { bit_cnt : Z; bits : list Z }.

Definition elem_idx (bit_idx : Z) : Z := bit_idx / ELEM_BITS.
Definition bit_mask (bit_idx : Z) : Z := u32 (Z.shiftl 1 (bit_idx mod ELEM_BITS)).
(** DIV_ROUND_UP (bit_cnt, ELEM_BITS), lib/round.h. *)
Definition DIV_ROUND_UP (x step : Z) : Z := u32 (x + step - 1) / step.
Definition elem_cnt (bit_cnt : Z) : Z := DIV_ROUND_UP bit_cnt ELEM_BITS.
Definition byte_cnt (bit_cnt : Z) : Z := u32 (4 * elem_cnt bit_cnt).
Definition last_mask (b : bitmap) : Z :=
  let last_bits := bit_cnt b mod ELEM_BITS in
  if negb (last_bits =? 0) then u32 (Z.shiftl 1 last_bits - 1) else u32 (-1).

Definition bitmap_size : M bitmap Z := gets bit_cnt.

(** b->bits[idx] as an lvalue: a fault outside of the array. *)
Definition load_elem (idx : Z) : M bitmap Z :=
  b ← get; if decide (0 ≤ idx) then from_option (bits b !! Z.to_nat idx) else fault.
Definition store_elem (idx v : Z) : M bitmap unit :=
  _ ← load_elem idx;
  modify (λ b, mk_bitmap (bit_cnt b) (<[Z.to_nat idx := v]> (bits b))).

Definition bitmap_mark (bit_idx : Z) : M bitmap unit :=
  let idx := elem_idx bit_idx in
  let mask := bit_mask bit_idx in
  v ← load_elem idx; store_elem idx (Z.lor v mask).
Definition bitmap_reset (bit_idx : Z) : M bitmap unit :=
  let idx := elem_idx bit_idx in
  let mask := bit_mask bit_idx in
  v ← load_elem idx; store_elem idx (Z.land v (u32 (Z.lnot mask))).
Definition bitmap_flip (bit_idx : Z) : M bitmap unit :=
  let idx := elem_idx bit_idx in
  let mask := bit_mask bit_idx in
  v ← load_elem idx; store_elem idx (Z.lxor v mask).

Definition bitmap_set (idx : Z) (value : bool) : M bitmap unit :=
  n ← gets bit_cnt; assert (idx <? n);;
  if value then bitmap_mark idx else bitmap_reset idx.
Definition bitmap_test (idx : Z) : M bitmap bool :=
  n ← gets bit_cnt; assert (idx <? n);;
  v ← load_elem (elem_idx idx);
  mret (negb (Z.land v (bit_mask idx) =? 0)).

(** for (i = ...; ...; i++) bitmap_set (b, start + i, value), [n] iterations left. *)
Fixpoint set_loop (n : nat) (start i : Z) (value : bool) : M bitmap unit :=
  match n with
  | O => mret tt
  | S n => bitmap_set (u32 (start + i)) value;; set_loop n start (i + 1) value
  end.
Definition bitmap_set_multiple (start cnt : Z) (value : bool) : M bitmap unit :=
  n ← gets bit_cnt;
  assert (start <=? n);;
  assert (u32 (start + cnt) <=? n);;
  set_loop (Z.to_nat cnt) start 0 value.
Definition bitmap_set_all (value : bool) : M bitmap unit :=
  n ← bitmap_size; bitmap_set_multiple 0 n value.

Fixpoint count_loop (n : nat) (start i : Z) (value : bool) (value_cnt : Z) : M bitmap Z :=
  match n with
  | O => mret value_cnt
  | S n =>
    t ← bitmap_test (u32 (start + i));
    count_loop n start (i + 1) value (if Bool.eqb t value then u32 (value_cnt + 1) else value_cnt)
  end.
Definition bitmap_count (start cnt : Z) (value : bool) : M bitmap Z :=
  n ← gets bit_cnt;
  assert (start <=? n);;
  assert (u32 (start + cnt) <=? n);;
  count_loop (Z.to_nat cnt) start 0 value 0.

Fixpoint contains_loop (n : nat) (start i : Z) (value : bool) : M bitmap bool :=
  match n with
  | O => mret false
  | S n =>
    t ← bitmap_test (u32 (start + i));
    if Bool.eqb t value then mret true else contains_loop n start (i + 1) value
  end.
Definition bitmap_contains (start cnt : Z) (value : bool) : M bitmap bool :=
  n ← gets bit_cnt;
  assert (start <=? n);;
  assert (u32 (start + cnt) <=? n);;
  contains_loop (Z.to_nat cnt) start 0 value.
Definition bitmap_any (start cnt : Z) : M bitmap bool := bitmap_contains start cnt true.
Definition bitmap_none (start cnt : Z) : M bitmap bool := notM (bitmap_contains start cnt true).
Definition bitmap_all (start cnt : Z) : M bitmap bool := notM (bitmap_contains start cnt false).

(** for (i = start; i <= last; i++), [n] iterations left. *)
Fixpoint scan_loop (n : nat) (i cnt : Z) (value : bool) : M bitmap Z :=
  match n with
  | O => mret BITMAP_ERROR
  | S n =>
    c ← bitmap_contains i cnt (negb value);
    if negb c then mret i else scan_loop n (i + 1) cnt value
  end.
Definition bitmap_scan (start cnt : Z) (value : bool) : M bitmap Z :=
  n ← gets bit_cnt;
  assert (start <=? n);;
  if cnt <=? n then
    let last := n - cnt in scan_loop (Z.to_nat (last + 1 - start)) start cnt value
  else mret BITMAP_ERROR.
Definition bitmap_scan_and_flip (start cnt : Z) (value : bool) : M bitmap Z :=
  idx ← bitmap_scan start cnt value;
  (if negb (idx =? BITMAP_ERROR) then bitmap_set_multiple idx cnt (negb value) else mret tt);;
  mret idx.

(** ** Creation: [malloc_b] says whether malloc (sizeof *b) succeeds and
    [malloc_bits] is the block that malloc (byte_cnt (bit_cnt)) gives, with its
    old contents. *)
Definition bitmap_create (malloc_b : bool) (malloc_bits : option (list Z)) (cnt : Z) :
    result (option bitmap) :=
  if malloc_b then
    match malloc_bits with
    | Some old =>
      match bitmap_set_all false (mk_bitmap cnt old) with
      | Ok (_, b) => Ok (Some b)
      | Panic => Panic | Fault => Fault | Fuel => Fuel
      end
    | None =>
      if cnt =? 0 then
        match bitmap_set_all false (mk_bitmap cnt []) with
        | Ok (_, b) => Ok (Some b)
        | Panic => Panic | Fault => Fault | Fuel => Fuel
        end
      else Ok None
    end
  else Ok None.

(** sizeof (struct bitmap) is 8. *)
Definition bitmap_buf_size (bit_cnt : Z) : Z := u32 (8 + byte_cnt bit_cnt).
(** [old]: the words of the block after the struct bitmap. *)
Definition bitmap_create_in_buf (cnt : Z) (old : list Z) (block_size : Z) : result bitmap :=
  if bitmap_buf_size cnt <=? block_size then
    match bitmap_set_all false (mk_bitmap cnt old) with
    | Ok (_, b) => Ok b
    | Panic => Panic | Fault => Fault | Fuel => Fuel
    end
  else Panic.

(** ** Files *)

Definition bitmap_file_size : M bitmap Z := n ← gets bit_cnt; mret (byte_cnt n).
(** file_read_at (file, b->bits, size, 0) stores the bytes [read size 0], at most
    [size] of them, and returns their number; size is an off_t. *)
Definition bitmap_read (read : Z → Z → list Z) : M bitmap bool :=
  b ← get;
  if 0 <? bit_cnt b then
    let size := s32 (byte_cnt (bit_cnt b)) in
    let bs := read size 0 in
    put (mk_bitmap (bit_cnt b) (words_of (bs ++ drop (length bs) (bytes_of (bits b)))));;
    let success := Z.of_nat (length bs) =? size in
    let last := u32 (elem_cnt (bit_cnt b) - 1) in
    v ← load_elem last;
    store_elem last (Z.land v (last_mask b));;
    mret success
  else mret true.
(** file_write_at (file, b->bits, size, 0) returns [write bytes 0], the number of
    bytes it accepted. *)
Definition bitmap_write (write : list Z → Z → Z) : M bitmap bool :=
  b ← get;
  let size := s32 (byte_cnt (bit_cnt b)) in
  mret (write (take (Z.to_nat size) (bytes_of (bits b))) 0 =? size).

(** ** The bits *)

Definition bit (b : bitmap) (i : Z) : bool :=
  Z.testbit (default 0 (bits b !! Z.to_nat (i / ELEM_BITS))) (i mod ELEM_BITS).

(** The array has room for the bits, and its elements are 32-bit words. *)
Record bitmap_wf (b : bitmap) : Prop := {
  wf_cnt : 0 ≤ bit_cnt b < 2 ^ 32;
  wf_room : bit_cnt b ≤ ELEM_BITS * Z.of_nat (length (bits b));
  wf_words : Forall (λ w, 0 ≤ w < 2 ^ 32) (bits b)
}.

(** [b'] is [b] with the bits [j] that satisfy [P] set to [v j]. *)
Record updated (P : Z → Prop) (v : Z → bool) (b b' : bitmap) : Prop := {
  up_wf : bitmap_wf b';
  up_cnt : bit_cnt b' = bit_cnt b;
  up_in : ∀ j, 0 ≤ j → P j → bit b' j = v j;
  up_out : ∀ j, 0 ≤ j → ¬ P j → bit b' j = bit b j;
  up_len : length (bits b') = length (bits b)
}.

Lemma bit_mask_pow i : bit_mask i = 2 ^ (i mod ELEM_BITS).
Proof.
  unfold bit_mask, ELEM_BITS. rewrite Z.shiftl_1_l. apply wrap_small.
  pose proof (Z.mod_pos_bound i 32). split; [lia|]. apply Z.pow_lt_mono_r; lia.
Qed.
Lemma bit_mask_spec i k : 0 ≤ k → Z.testbit (bit_mask i) k = (i mod ELEM_BITS =? k).
Proof.
  intros Hk. rewrite bit_mask_pow. apply Z.pow2_bits_eqb. unfold ELEM_BITS. lia.
Qed.

Lemma elem_in b i : bitmap_wf b → 0 ≤ i < bit_cnt b →
  ∃ w, bits b !! Z.to_nat (elem_idx i) = Some w ∧ 0 ≤ w < 2 ^ 32.
Proof.
  intros [_ Hr Hw] Hi. destruct (lookup_lt_is_Some_2 (bits b) (Z.to_nat (elem_idx i))) as [w E].
  - unfold elem_idx, ELEM_BITS in *. pose proof (Z.div_lt_upper_bound i 32 (Z.of_nat (length (bits b)))).
    lia.
  - exists w. split; [done|]. by apply (Forall_lookup_1 _ _ _ _ Hw E).
Qed.

Lemma wp_load_elem b i w Q :
  0 ≤ i → bits b !! Z.to_nat i = Some w → Q w b → wp (load_elem i) b Q.
Proof.
  intros Hi E HQ. unfold load_elem. repeat wp_step. rewrite decide_True by done.
  by apply (wp_from_option _ w).
Qed.

(** Storing a word that differs from the old one in one bit at most. *)
Lemma store_bit b i w v (f : bool → bool) Q :
  bitmap_wf b → 0 ≤ i < bit_cnt b → bits b !! Z.to_nat (elem_idx i) = Some w →
  0 ≤ v → (∀ k, 0 ≤ k →
    Z.testbit v k = if k =? i mod ELEM_BITS then f (Z.testbit w k) else Z.testbit w k) →
  (∀ b', updated (λ j, j = i) (λ j, f (bit b j)) b b' → Q tt b') →
  wp (store_elem (elem_idx i) v) b Q.
Proof.
  intros Hwf Hi E Hv Hbits HQ. assert (0 ≤ elem_idx i) as Hidx.
  { unfold elem_idx, ELEM_BITS. apply Z.div_pos; lia. }
  unfold store_elem. wp_step. apply (wp_load_elem _ _ w); [done..|]. wp_step. apply HQ.
  pose proof (lookup_lt_Some _ _ _ E) as Hlen. destruct Hwf as [Hc Hr Hw].
  pose proof (Forall_lookup_1 _ _ _ _ Hw E) as Hw'. simpl in Hw'.
  pose proof (Z.mod_pos_bound i ELEM_BITS ltac:(done)) as Hm. unfold ELEM_BITS in Hm.
  assert (∀ j, 0 ≤ j → bit (mk_bitmap (bit_cnt b) (<[Z.to_nat (elem_idx i):=v]> (bits b))) j =
    if j =? i then f (bit b j) else bit b j) as Hbit.
  { intros j Hj. unfold bit; simpl. fold (elem_idx j). pose proof (Z.mod_pos_bound j ELEM_BITS ltac:(done)).
    assert (0 ≤ elem_idx j) by (unfold elem_idx, ELEM_BITS; apply Z.div_pos; lia).
    assert (j = i ↔ elem_idx j = elem_idx i ∧ j mod ELEM_BITS = i mod ELEM_BITS) as Hji.
    { unfold elem_idx, ELEM_BITS. split; [by intros ->|]. lia. }
    destruct (decide (elem_idx j = elem_idx i)) as [Eji|Nji].
    - rewrite Eji, list_lookup_insert_eq by done. simpl. rewrite Hbits, E by lia. simpl.
      destruct (Z.eqb_spec j i), (Z.eqb_spec (j mod ELEM_BITS) (i mod ELEM_BITS)); naive_solver.
    - rewrite list_lookup_insert_ne by lia. by destruct (Z.eqb_spec j i); naive_solver. }
  split; [split| | | |]; simpl.
  - done.
  - by rewrite length_insert.
  - apply Forall_insert; [done|]. split; [done|]. apply bits_bound; [lia|done|].
    intros k Hk. rewrite Hbits by lia. rewrite (testbit_bound w k 32) by lia.
    destruct (Z.eqb_spec k (i mod ELEM_BITS)); [unfold ELEM_BITS in *; lia|done].
  - done.
  - intros j Hj ->. rewrite Hbit by done. by rewrite Z.eqb_refl.
  - intros j Hj Hne. rewrite Hbit by done. by rewrite (proj2 (Z.eqb_neq _ _) Hne).
  - by rewrite length_insert.
Qed.

(** ** The operations, on the bits *)

Lemma updated_refl b P v : bitmap_wf b → (∀ j, 0 ≤ j → P j → v j = bit b j) → updated P v b b.
Proof. intros Hwf Hv. split; [done|done| |done|done]. intros j ??. by rewrite Hv. Qed.

Section ops.
Context (b : bitmap) (Hwf : bitmap_wf b).

Lemma wp_bitmap_mark i Q :
  0 ≤ i < bit_cnt b → (∀ b', updated (λ j, j = i) (λ _, true) b b' → Q tt b') →
  wp (bitmap_mark i) b Q.
Proof.
  intros Hi HQ. destruct (elem_in b i Hwf Hi) as (w & E & Hw). unfold bitmap_mark.
  wp_step. apply (wp_load_elem _ _ w); [unfold elem_idx, ELEM_BITS; lia|done|].
  apply (store_bit b i w _ (λ _, true)); [done..| | |done].
  - apply Z.lor_nonneg. split; [lia|]. rewrite bit_mask_pow. lia.
  - intros k Hk. rewrite Z.lor_spec, bit_mask_spec, (Z.eqb_sym k) by done.
    destruct (_ =? k); [apply orb_true_r|apply orb_false_r].
Qed.

Lemma wp_bitmap_reset i Q :
  0 ≤ i < bit_cnt b → (∀ b', updated (λ j, j = i) (λ _, false) b b' → Q tt b') →
  wp (bitmap_reset i) b Q.
Proof.
  intros Hi HQ. destruct (elem_in b i Hwf Hi) as (w & E & Hw). unfold bitmap_reset.
  wp_step. apply (wp_load_elem _ _ w); [unfold elem_idx, ELEM_BITS; lia|done|].
  apply (store_bit b i w _ (λ _, false)); [done..| | |done].
  - apply Z.land_nonneg. lia.
  - intros k Hk. rewrite Z.land_spec. destruct (Z.lt_ge_cases k 32).
    + rewrite wrap_testbit, Z.lnot_spec, bit_mask_spec, (Z.eqb_sym k) by done.
      destruct (_ =? k); [apply andb_false_r|apply andb_true_r].
    + rewrite (testbit_bound w k 32) by lia. by destruct (k =? _).
Qed.

Lemma wp_bitmap_flip i Q :
  0 ≤ i < bit_cnt b → (∀ b', updated (λ j, j = i) (λ j, negb (bit b j)) b b' → Q tt b') →
  wp (bitmap_flip i) b Q.
Proof.
  intros Hi HQ. destruct (elem_in b i Hwf Hi) as (w & E & Hw). unfold bitmap_flip.
  wp_step. apply (wp_load_elem _ _ w); [unfold elem_idx, ELEM_BITS; lia|done|].
  apply (store_bit b i w _ negb); [done..| | |done].
  - apply Z.lxor_nonneg. rewrite bit_mask_pow. lia.
  - intros k Hk. rewrite Z.lxor_spec, bit_mask_spec, (Z.eqb_sym k) by done.
    destruct (_ =? k); [apply xorb_true_r|apply xorb_false_r].
Qed.

Lemma wp_bitmap_set i v Q :
  0 ≤ i < bit_cnt b → (∀ b', updated (λ j, j = i) (λ _, v) b b' → Q tt b') →
  wp (bitmap_set i v) b Q.
Proof.
  intros Hi HQ. unfold bitmap_set. repeat wp_step; [apply Z.ltb_lt; lia|].
  destruct v; [by apply wp_bitmap_mark|by apply wp_bitmap_reset].
Qed.

Lemma wp_bitmap_test i Q : 0 ≤ i < bit_cnt b → Q (bit b i) b → wp (bitmap_test i) b Q.
Proof.
  intros Hi HQ. destruct (elem_in b i Hwf Hi) as (w & E & Hw).
  unfold bitmap_test. repeat wp_step; [apply Z.ltb_lt; lia|].
  apply (wp_load_elem _ _ w); [unfold elem_idx, ELEM_BITS; lia|done|]. wp_step.
  replace (negb _) with (bit b i); [done|]. unfold bit. fold (elem_idx i). rewrite E. simpl.
  rewrite bit_mask_pow. destruct (Z.testbit w (i mod ELEM_BITS)) eqn:Eb.
  - symmetry. apply negb_true_iff, Z.eqb_neq. intros E0.
    apply (f_equal (λ x, Z.testbit x (i mod ELEM_BITS))) in E0.
    rewrite Z.land_spec, Eb, Z.pow2_bits_true, Z.testbit_0_l in E0 by (unfold ELEM_BITS; lia). done.
  - symmetry. apply negb_false_iff, Z.eqb_eq. apply Z.bits_inj_iff'. intros k Hk.
    rewrite Z.land_spec, Z.testbit_0_l, Z.pow2_bits_eqb by (unfold ELEM_BITS; lia).
    destruct (Z.eqb_spec (i mod ELEM_BITS) k); [subst; by rewrite Eb|apply andb_false_r].
Qed.

(** Bits [start + i] to [start + i + n - 1] all differ from [v] or not. *)
Lemma wp_contains_loop n start i v Q :
  0 ≤ start → 0 ≤ i → start + i + Z.of_nat n ≤ bit_cnt b →
  (∀ r, (r = true ↔ ∃ j, start + i ≤ j < start + i + Z.of_nat n ∧ bit b j = v) → Q r b) →
  wp (contains_loop n start i v) b Q.
Proof.
  revert i; induction n as [|n IH]; intros i Hs Hi Hn HQ.
  { simpl. wp_step. apply HQ. split; [done|]. intros (j & ? & _). lia. }
  cbn [contains_loop]. wp_step. pose proof (wf_cnt _ Hwf).
  rewrite wrap_small by lia. apply wp_bitmap_test; [lia|].
  destruct (Bool.eqb_spec (bit b (start + i)) v) as [E|E].
  - wp_step. apply HQ. split; [|done]. intros _. exists (start + i). split; [lia|done].
  - apply IH; [lia..|]. intros r Hr. apply HQ. rewrite Hr.
    split; intros (j & Hj & Ej); exists j; (split; [|done]); [lia|].
    destruct (decide (j = start + i)); [by subst|lia].
Qed.

Lemma wp_bitmap_contains start cnt v Q :
  0 ≤ start → 0 ≤ cnt → start + cnt ≤ bit_cnt b →
  (∀ r, (r = true ↔ ∃ j, start ≤ j < start + cnt ∧ bit b j = v) → Q r b) →
  wp (bitmap_contains start cnt v) b Q.
Proof.
  intros Hs Hc Hn HQ. pose proof (wf_cnt _ Hwf). unfold bitmap_contains.
  repeat wp_step; [apply Z.leb_le; lia|rewrite wrap_small by lia; by apply Z.leb_le|].
  apply wp_contains_loop; [lia..|]. by rewrite Z.add_0_r, Z2Nat.id.
Qed.

(** The number of bits equal to [v] in a range. *)
Fixpoint count_bits (n : nat) (i : Z) (v : bool) : Z :=
  match n with
  | O => 0
  | S n => (if Bool.eqb (bit b i) v then 1 else 0) + count_bits n (i + 1) v
  end.
Lemma count_bits_bound n i v : 0 ≤ count_bits n i v ≤ Z.of_nat n.
Proof.
  revert i; induction n as [|n IH]; intros i; simpl; [lia|]. specialize (IH (i + 1)).
  destruct (Bool.eqb _ _); lia.
Qed.

Lemma wp_count_loop n start i v c Q :
  0 ≤ start → 0 ≤ i → start + i + Z.of_nat n ≤ bit_cnt b → 0 ≤ c ≤ i →
  Q (c + count_bits n (start + i) v) b → wp (count_loop n start i v c) b Q.
Proof.
  revert i c; induction n as [|n IH]; intros i c Hs Hi Hn Hc HQ.
  { simpl in *. wp_step. by rewrite Z.add_0_r in HQ. }
  cbn [count_loop]. wp_step. pose proof (wf_cnt _ Hwf). rewrite wrap_small by lia.
  apply wp_bitmap_test; [lia|]. simpl in HQ. rewrite Z.add_assoc in HQ.
  replace (start + i + 1) with (start + (i + 1)) in HQ by lia.
  rewrite (wrap_small 32 (c + 1)) by lia.
  destruct (Bool.eqb _ _); apply IH; try lia; [done|by rewrite Z.add_0_r in HQ].
Qed.

Lemma wp_bitmap_count start cnt v Q :
  0 ≤ start → 0 ≤ cnt → start + cnt ≤ bit_cnt b →
  Q (count_bits (Z.to_nat cnt) start v) b → wp (bitmap_count start cnt v) b Q.
Proof.
  intros Hs Hc Hn HQ. pose proof (wf_cnt _ Hwf). unfold bitmap_count.
  repeat wp_step; [apply Z.leb_le; lia|rewrite wrap_small by lia; by apply Z.leb_le|].
  apply wp_count_loop; [lia..|]. by rewrite Z.add_0_r.
Qed.
End ops.

Lemma updated_trans (P P' : Z → Prop) v b b1 b2 :
  updated P (λ _, v) b b1 → updated P' (λ _, v) b1 b2 → (∀ j, P' j ∨ ¬ P' j) →
  updated (λ j, P j ∨ P' j) (λ _, v) b b2.
Proof.
  intros [W1 C1 I1 O1 L1] [W2 C2 I2 O2 L2] Hdec. split; [done|congruence| | |congruence].
  - intros j Hj Hp. destruct (Hdec j) as [HP|HP]; [by apply I2|].
    rewrite O2, I1 by tauto. done.
  - intros j Hj Hn. rewrite O2, O1; tauto.
Qed.

Lemma updated_iff P P' v b b' :
  (∀ j, 0 ≤ j → P j ↔ P' j) → updated P v b b' → updated P' v b b'.
Proof.
  intros HP [W C I O L]. split; [done|done| | |done]; intros j Hj Hp; [apply I|apply O]; try done; by rewrite HP.
Qed.

Lemma wp_set_loop b n start i v Q :
  bitmap_wf b → 0 ≤ start → 0 ≤ i → start + i + Z.of_nat n ≤ bit_cnt b →
  (∀ b', updated (λ j, start + i ≤ j < start + i + Z.of_nat n) (λ _, v) b b' → Q tt b') →
  wp (set_loop n start i v) b Q.
Proof.
  revert b i; induction n as [|n IH]; intros b i Hwf Hs Hi Hn HQ.
  { simpl. wp_step. apply HQ, updated_refl; [done|]. lia. }
  cbn [set_loop]. wp_step. pose proof (wf_cnt _ Hwf). rewrite wrap_small by lia.
  apply wp_bitmap_set; [done|lia|]. intros b1 H1. pose proof (up_cnt _ _ _ _ H1).
  apply IH; [by eapply up_wf|lia|lia|lia|]. intros b2 H2. apply HQ.
  eapply updated_iff, (updated_trans _ _ _ _ _ _ H1 H2).
  - intros j Hj. simpl. lia.
  - intros j. lia.
Qed.

Lemma wp_bitmap_set_multiple b start cnt v Q :
  bitmap_wf b → 0 ≤ start → 0 ≤ cnt → start + cnt ≤ bit_cnt b →
  (∀ b', updated (λ j, start ≤ j < start + cnt) (λ _, v) b b' → Q tt b') →
  wp (bitmap_set_multiple start cnt v) b Q.
Proof.
  intros Hwf Hs Hc Hn HQ. pose proof (wf_cnt _ Hwf). unfold bitmap_set_multiple.
  repeat wp_step; [apply Z.leb_le; lia|rewrite wrap_small by lia; by apply Z.leb_le|].
  apply wp_set_loop; [done|lia..|]. by rewrite Z.add_0_r, Z2Nat.id.
Qed.

(** The [cnt] bits from [i] on are all [v]. *)
Definition run (b : bitmap) (i cnt : Z) (v : bool) : Prop := ∀ j, i ≤ j < i + cnt → bit b j = v.

(** [i] is where the first such group at or after [start] begins. *)
Definition first_run (b : bitmap) (start cnt : Z) (v : bool) (i : Z) : Prop :=
  start ≤ i ∧ i + cnt ≤ bit_cnt b ∧ run b i cnt v ∧ ∀ k, start ≤ k < i → ¬ run b k cnt v.
Definition no_run (b : bitmap) (start cnt : Z) (v : bool) : Prop :=
  ∀ k, start ≤ k → k + cnt ≤ bit_cnt b → ¬ run b k cnt v.

Lemma wp_scan_loop b n i cnt v Q :
  bitmap_wf b → 0 ≤ i → 0 ≤ cnt → Z.of_nat n = Z.max 0 (bit_cnt b - cnt + 1 - i) →
  (∀ r, first_run b i cnt v r → Q r b) → (no_run b i cnt v → Q BITMAP_ERROR b) →
  wp (scan_loop n i cnt v) b Q.
Proof.
  intros Hwf. revert i; induction n as [|n IH]; intros i Hi Hc Hn HQ HE.
  { simpl. wp_step. apply HE. intros k ??. lia. }
  cbn [scan_loop]. wp_step. apply wp_bitmap_contains; [done|lia..|]. intros r Hr.
  destruct r; simpl negb; cbv iota.
  - destruct (proj1 Hr eq_refl) as (j & Hj & Ej).
    assert (¬ run b i cnt v) as Hnr.
    { intros Hrun. rewrite (Hrun j Hj) in Ej. by destruct v. }
    apply IH; [lia..| |].
    + intros r (?&?&?&Hmin). apply HQ. split_and!; [lia|done..|].
      intros k Hk. destruct (decide (k = i)); [by subst|]. apply Hmin. lia.
    + intros Hno. apply HE. intros k ??. destruct (decide (k = i)); [by subst|]. apply Hno; lia.
  - wp_step. apply HQ. split_and!; [lia|lia| |intros; lia]. intros j Hj.
    destruct (Bool.bool_dec (bit b j) v) as [|Hne]; [done|]. exfalso.
    assert (false = true) as E; [|done]. apply Hr. exists j. split; [done|].
    by destruct (bit b j), v.
Qed.

Lemma wp_bitmap_scan b start cnt v Q :
  bitmap_wf b → 0 ≤ start ≤ bit_cnt b → 0 ≤ cnt →
  (∀ r, first_run b start cnt v r → Q r b) → (no_run b start cnt v → Q BITMAP_ERROR b) →
  wp (bitmap_scan start cnt v) b Q.
Proof.
  intros Hwf Hs Hc HQ HE. unfold bitmap_scan. repeat wp_step; [apply Z.leb_le; lia|].
  destruct (Z.leb_spec cnt (bit_cnt b)).
  - apply wp_scan_loop; [done|lia..|done|done].
  - wp_step. apply HE. intros k ??. lia.
Qed.

Lemma wp_bitmap_scan_and_flip b start cnt v Q :
  bitmap_wf b → 0 ≤ start ≤ bit_cnt b → 0 ≤ cnt →
  (∀ r b', first_run b start cnt v r →
     updated (λ j, r ≤ j < r + cnt) (λ _, negb v) b b' → Q r b') →
  (no_run b start cnt v → Q BITMAP_ERROR b) →
  wp (bitmap_scan_and_flip start cnt v) b Q.
Proof.
  intros Hwf Hs Hc HQ HE. unfold bitmap_scan_and_flip. wp_step. apply wp_bitmap_scan; [done..| |].
  - intros r Hr. pose proof Hr as (?&?&?&?). pose proof (wf_cnt _ Hwf).
    destruct (Z.eqb_spec r BITMAP_ERROR) as [E|E]; simpl negb; cbv iota.
    + repeat wp_step. apply HQ; [done|]. apply updated_refl; [done|]. unfold BITMAP_ERROR in E. lia.
    + wp_step. apply wp_bitmap_set_multiple; [done|lia..|]. intros b' Hb'. wp_step. by apply HQ.
  - intros Hno. rewrite Z.eqb_refl. simpl negb. cbv iota. repeat wp_step. by apply HE.
Qed.

(** ** Reading and writing *)

(** The array has exactly the elements it needs, and their bytes fit an off_t. *)
Record bitmap_exact (b : bitmap) : Prop := {
  ex_wf : bitmap_wf b;
  ex_cnt : 0 < bit_cnt b < 2 ^ 32 - ELEM_BITS;
  ex_len : Z.of_nat (length (bits b)) = elem_cnt (bit_cnt b);
  ex_off : byte_cnt (bit_cnt b) < 2 ^ 31
}.

Lemma elem_cnt_bounds n : 0 < n < 2 ^ 32 - ELEM_BITS →
  0 < elem_cnt n ∧ ELEM_BITS * (elem_cnt n - 1) < n ≤ ELEM_BITS * elem_cnt n ∧
  byte_cnt n = 4 * elem_cnt n.
Proof.
  unfold byte_cnt, elem_cnt, DIV_ROUND_UP, ELEM_BITS. intros Hn.
  rewrite (wrap_small 32 (n + 32 - 1)) by lia. rewrite wrap_small; lia.
Qed.

Lemma last_mask_spec b k : 0 ≤ k < ELEM_BITS →
  Z.testbit (last_mask b) k = (bit_cnt b mod ELEM_BITS =? 0) || (k <? bit_cnt b mod ELEM_BITS).
Proof.
  unfold ELEM_BITS. intros Hk. unfold last_mask, ELEM_BITS.
  destruct (Z.eqb_spec (bit_cnt b mod 32) 0); simpl.
  - rewrite wrap_testbit by done. apply Z.bits_m1. lia.
  - rewrite wrap_testbit by done. rewrite Z.shiftl_1_l.
    replace (2 ^ _ - 1) with (Z.ones (bit_cnt b mod 32)) by (rewrite Z.ones_equiv; lia).
    apply Z.testbit_ones_nonneg; lia.
Qed.

Lemma wp_bitmap_read b b0 Q :
  bitmap_exact b → bit_cnt b0 = bit_cnt b → length (bits b0) = length (bits b) →
  (∀ b', bit_cnt b' = bit_cnt b → (∀ i, 0 ≤ i < bit_cnt b → bit b' i = bit b i) → Q true b') →
  wp (bitmap_read (λ size ofs, take (Z.to_nat size) (drop (Z.to_nat ofs) (bytes_of (bits b))))) b0 Q.
Proof.
  intros [Hwf Hc Hlen Hoff] Ec El HQ.
  destruct (elem_cnt_bounds _ Hc) as (He & Hb & Ebytes).
  unfold bitmap_read. repeat wp_step. rewrite Ec, (proj2 (Z.ltb_lt _ _)) by lia.
  rewrite swrap_small by lia. rewrite drop_0.
  assert (length (bytes_of (bits b)) = Z.to_nat (byte_cnt (bit_cnt b))) as Elen.
  { rewrite bytes_of_length. lia. }
  rewrite take_ge by lia. rewrite Elen, Z2Nat.id, Z.eqb_refl by lia.
  rewrite drop_ge by (rewrite bytes_of_length, El; lia). rewrite app_nil_r.
  rewrite words_of_bytes_of by apply Hwf. wp_step. wp_step.
  rewrite wrap_small by (unfold ELEM_BITS in *; lia).
  destruct (lookup_lt_is_Some_2 (bits b) (Z.to_nat (elem_cnt (bit_cnt b) - 1))) as [w Ew]; [lia|].
  wp_step. apply (wp_load_elem _ _ w); [lia|done|]. unfold store_elem. repeat wp_step.
  apply (wp_load_elem _ _ w); [lia|done|]. repeat wp_step. apply HQ; [done|]. intros i Hi.
  unfold bit; simpl. destruct (decide (i / ELEM_BITS = elem_cnt (bit_cnt b) - 1)) as [E|E].
  - rewrite E, list_lookup_insert_eq, Ew by (rewrite ?Ec; lia). simpl.
    rewrite Z.land_spec, last_mask_spec by (unfold ELEM_BITS; lia). rewrite Ec.
    replace (_ || _) with true; [apply andb_true_r|]. symmetry. apply orb_true_iff.
    rewrite Z.eqb_eq, Z.ltb_lt. unfold ELEM_BITS in *. lia.
  - rewrite list_lookup_insert_ne; [done|]. unfold ELEM_BITS in *. lia.
Qed.

(** ** The theorems *)

(** C31: bitmap_scan_and_flip returns the first index at or after START from which
    CNT bits are all VALUE and flips exactly these bits, or returns BITMAP_ERROR,
    leaving the bitmap unchanged, when there is no such group. *)
Theorem bitmap_scan_and_flip_correct (b : bitmap) (start cnt : Z) (value : bool) :
  bitmap_wf b → 0 ≤ start ≤ bit_cnt b → 0 ≤ cnt →
  wp (bitmap_scan_and_flip start cnt value) b (λ r b',
    first_run b start cnt value r ∧ updated (λ j, r ≤ j < r + cnt) (λ _, negb value) b b' ∨
    r = BITMAP_ERROR ∧ b' = b ∧ no_run b start cnt value).
Proof. intros. apply wp_bitmap_scan_and_flip; auto. Qed.

Lemma bitmap_scan_and_flip_correct_witness :
  wp (bitmap_scan_and_flip 1 3 false) (mk_bitmap 40 [0xffff000f; 0xff]) (λ r b',
    first_run (mk_bitmap 40 [0xffff000f; 0xff]) 1 3 false r ∧
      updated (λ j, r ≤ j < r + 3) (λ _, true) (mk_bitmap 40 [0xffff000f; 0xff]) b' ∨
    r = BITMAP_ERROR ∧ b' = mk_bitmap 40 [0xffff000f; 0xff] ∧
      no_run (mk_bitmap 40 [0xffff000f; 0xff]) 1 3 false) ∧
  fst <$> match bitmap_scan_and_flip 1 3 false (mk_bitmap 40 [0xffff000f; 0xff]) with
          | Ok x => Some x | _ => None end = Some 4.
Proof.
  split; [|done]. apply (bitmap_scan_and_flip_correct _ 1 3 false); [|done|done].
  split; [done..|]. by repeat constructor.
Defined.

(** With CNT zero the result is START. *)
Lemma bitmap_scan_and_flip_zero (b : bitmap) (start : Z) (value : bool) :
  bitmap_wf b → 0 ≤ start ≤ bit_cnt b →
  wp (bitmap_scan_and_flip start 0 value) b (λ r _, r = start).
Proof.
  intros Hwf Hs. assert (run b start 0 value) as Hr by (intros j ?; lia).
  apply wp_bitmap_scan_and_flip; [done|done|lia| |].
  - intros r b' (?&?&_&Hmin) _. destruct (decide (r = start)); [done|].
    exfalso. apply (Hmin start); [lia|done].
  - intros Hno. exfalso. apply (Hno start); [lia|lia|done].
Qed.

(** Writing a bitmap to a file and reading it back gives the same bits,
    whatever the bits past the last one; bitmap_write hands all of the elements'
    bytes to file_write_at at offset 0. *)
Theorem bitmap_file_roundtrip (b b0 : bitmap) (write : list Z → Z → Z) :
  bitmap_exact b → bit_cnt b0 = bit_cnt b → length (bits b0) = length (bits b) →
  bitmap_write write b = Ok (write (bytes_of (bits b)) 0 =? Z.of_nat (length (bytes_of (bits b))), b) ∧
  wp (bitmap_read (λ size ofs, take (Z.to_nat size) (drop (Z.to_nat ofs) (bytes_of (bits b))))) b0
    (λ ok b', ok = true ∧ bit_cnt b' = bit_cnt b ∧ ∀ i, 0 ≤ i < bit_cnt b → bit b' i = bit b i).
Proof.
  intros Hb Ec El. split; [|by apply wp_bitmap_read].
  destruct (elem_cnt_bounds _ (ex_cnt _ Hb)) as (?&?&E). pose proof (ex_off _ Hb).
  pose proof (ex_len _ Hb). unfold bitmap_write, mbind, M_bind, get, mret, M_ret.
  rewrite swrap_small, take_ge by (rewrite ?bytes_of_length; lia).
  do 3 f_equal. rewrite bytes_of_length. lia.
Qed.

Lemma bitmap_file_roundtrip_witness :
  bitmap_write (λ bs _, Z.of_nat (length bs)) (mk_bitmap 40 [0xffff000f; 0xab])
    = Ok (true, mk_bitmap 40 [0xffff000f; 0xab]) ∧
  wp (bitmap_read (λ size ofs, take (Z.to_nat size) (drop (Z.to_nat ofs) (bytes_of [0xffff000f; 0xab]))))
    (mk_bitmap 40 [1; 2]) (λ ok b', ok = true ∧ bit_cnt b' = 40 ∧
      ∀ i, 0 ≤ i < 40 → bit b' i = bit (mk_bitmap 40 [0xffff000f; 0xab]) i).
Proof.
  apply (bitmap_file_roundtrip (mk_bitmap 40 [0xffff000f; 0xab]) (mk_bitmap 40 [1; 2])); [|done|done].
  split; [|done..]. split; [done..|]. by repeat constructor.
Defined.

(** A created bitmap has all of its bits clear, whatever the memory held;
    creation fails exactly when an allocation that is needed fails. *)
Theorem bitmap_create_correct (malloc_b : bool) (malloc_bits : option (list Z)) (cnt : Z) :
  0 ≤ cnt < 2 ^ 32 →
  (∀ old, malloc_bits = Some old →
     cnt ≤ ELEM_BITS * Z.of_nat (length old) ∧ Forall (λ w, 0 ≤ w < 2 ^ 32) old) →
  match bitmap_create malloc_b malloc_bits cnt with
  | Ok (Some b) => bitmap_wf b ∧ bit_cnt b = cnt ∧ (∀ i, 0 ≤ i < cnt → bit b i = false) ∧
                   malloc_b = true ∧ (malloc_bits ≠ None ∨ cnt = 0)
  | Ok None => malloc_b = false ∨ malloc_bits = None ∧ cnt ≠ 0
  | _ => False
  end.
Proof.
  intros Hc Hold. assert (∀ ws, bitmap_wf (mk_bitmap cnt ws) →
    wp (bitmap_set_all false) (mk_bitmap cnt ws) (λ _ b,
      bitmap_wf b ∧ bit_cnt b = cnt ∧ ∀ i, 0 ≤ i < cnt → bit b i = false)) as Hset.
  { intros ws Hwf. unfold bitmap_set_all, bitmap_size. repeat wp_step.
    apply wp_bitmap_set_multiple; [done|simpl; lia..|].
    intros b [W C I O]. split_and!; [done..|]. intros i Hi. apply I; simpl; lia. }
  unfold bitmap_create. destruct malloc_b; [|by left]. destruct malloc_bits as [old|].
  - destruct (Hold old eq_refl). specialize (Hset old ltac:(done)). unfold wp in Hset.
    destruct (bitmap_set_all _ _) as [[? b]| | |]; [|done..]. naive_solver.
  - destruct (Z.eqb_spec cnt 0) as [->|]; [|by right].
    specialize (Hset [] ltac:(by split; [..|constructor])). unfold wp in Hset.
    destruct (bitmap_set_all _ _) as [[? b]| | |]; [|done..]. naive_solver.
Qed.

Lemma bitmap_create_correct_witness :
  match bitmap_create true (Some [0xdeadbeef; 0xffffffff]) 40 with
  | Ok (Some b) => bitmap_wf b ∧ bit_cnt b = 40 ∧ (∀ i, 0 ≤ i < 40 → bit b i = false) ∧
                   true = true ∧ (Some [0xdeadbeef; 0xffffffff] ≠ None ∨ 40 = 0)
  | Ok None => true = false ∨ Some [0xdeadbeef; 0xffffffff] = None ∧ 40 ≠ 0
  | _ => False
  end.
Proof.
  apply (bitmap_create_correct true (Some [0xdeadbeef; 0xffffffff]) 40); [done|].
  intros old [= <-]. split; [done|]. by repeat constructor.
Defined.
