(* ===== verification/Hash.v ===== *)
(** * Hash tables: lib/kernel/hash.c

    The buckets are lists of elements, that is, the lists of list.c at the level
    of their elements (KList relates the two); an element stands for the pointer
    to its struct hash_elem.  The functions HASH and LESS of the table are
    arguments, as are the outcomes of the allocations.  The invariant is that
    every element is in the bucket of its hash value, that no two elements are
    equal under LESS, that elem_cnt is their number and that the number of
    buckets is a power of two. *)

From S2P Require Import Prelude.
Local Open Scope Z_scope.

Record hash_table (A : Type) := mk_hash {
  elem_cnt : Z; bucket_cnt : Z; buckets : list (list A) }.
Arguments mk_hash {A} _ _ _.
Arguments elem_cnt {A} _.
Arguments bucket_cnt {A} _.
Arguments buckets {A} _.

(** ** Powers of two *)

Definition turn_off_least_1bit (x : Z) : Z := Z.land x (u32 (x - 1)).
Definition is_power_of_2 (x : Z) : bool := negb (x =? 0) && (turn_off_least_1bit x =? 0).

(** while (!is_power_of_2 (n)) n = turn_off_least_1bit (n); each iteration clears
    a bit, so that 32 iterations are enough. *)
Fixpoint power_loop (fuel : nat) (n : Z) : option Z :=
  if is_power_of_2 n then Some n else
  match fuel with
  | O => None
  | S fuel => power_loop fuel (turn_off_least_1bit n)
  end.
Definition BEST_ELEMS_PER_BUCKET : Z := 2.
Definition new_bucket_count (elem_cnt : Z) : option Z :=
  let n := elem_cnt / BEST_ELEMS_PER_BUCKET in
  let n := if n <? 4 then 4 else n in
  power_loop 32 n.

(** ** Hash functions *)

Definition FNV_32_PRIME : Z := 16777619.
Definition FNV_32_BASIS : Z := 2166136261.
Definition fnv_step (hash byte : Z) : Z := Z.lxor (u32 (hash * FNV_32_PRIME)) byte.
(** On the SIZE bytes of BUF. *)
Definition hash_bytes (buf : list Z) : Z := foldl fnv_step FNV_32_BASIS buf.
(** On the bytes of a string, up to its null byte (a fault if there is none). *)
Fixpoint hash_string_loop (hash : Z) (s : list Z) : option Z :=
  match s with
  | [] => None
  | c :: s => if c =? 0 then Some hash else hash_string_loop (fnv_step hash c) s
  end.
Definition hash_string (s : list Z) : option Z := hash_string_loop FNV_32_BASIS s.
Definition hash_int (i : Z) : Z := hash_bytes (word_bytes (u32 i)).

Section operations.
Context {A : Type} `{EqDecision A}.
Context (hash : A → Z) (less : A → A → bool).
Notation table := (hash_table A).

Definition find_bucket (e : A) : M table Z :=
  n ← gets bucket_cnt; mret (Z.land (hash e) (u32 (n - 1))).
(** The list at &h->buckets[i]. *)
Definition load_bucket (i : Z) : M table (list A) :=
  bs ← gets buckets; from_option (bs !! Z.to_nat i).
Definition store_bucket (i : Z) (b : list A) : M table unit :=
  _ ← load_bucket i;
  modify (λ h, mk_hash (elem_cnt h) (bucket_cnt h) (<[Z.to_nat i := b]> (buckets h))).

Fixpoint find_in (e : A) (b : list A) : option A :=
  match b with
  | [] => None
  | hi :: b => if negb (less hi e) && negb (less e hi) then Some hi else find_in e b
  end.
Definition find_elem (bucket : Z) (e : A) : M table (option A) :=
  b ← load_bucket bucket; mret (find_in e b).

Definition insert_elem (bucket : Z) (e : A) : M table unit :=
  modify (λ h, mk_hash (u32 (elem_cnt h + 1)) (bucket_cnt h) (buckets h));;
  b ← load_bucket bucket; store_bucket bucket (e :: b).
(** list_remove takes the element out of the list it is in. *)
Definition remove_elem (e : A) : M table unit :=
  modify (λ h, mk_hash (u32 (elem_cnt h - 1)) (bucket_cnt h) (buckets h));;
  modify (λ h, mk_hash (elem_cnt h) (bucket_cnt h) (filter (λ x, x ≠ e) <$> buckets h)).

(** The elements of the old buckets, in order, moved to the front of their new ones. *)
Fixpoint move_elems (es : list A) : M table unit :=
  match es with
  | [] => mret tt
  | e :: es =>
    i ← find_bucket e; b ← load_bucket i; store_bucket i (e :: b);; move_elems es
  end.
(** [mem]: whether malloc gives the new buckets. *)
Definition rehash (mem : bool) : M table unit :=
  h ← get;
  let old_buckets := buckets h in
  let old_bucket_cnt := bucket_cnt h in
  match new_bucket_count (elem_cnt h) with
  | None => nofuel
  | Some new_bucket_cnt =>
    if new_bucket_cnt =? old_bucket_cnt then mret tt else
    if negb mem then mret tt else
    put (mk_hash (elem_cnt h) new_bucket_cnt (replicate (Z.to_nat new_bucket_cnt) []));;
    move_elems (concat old_buckets)
  end.

Definition hash_insert (mem : bool) (new : A) : M table (option A) :=
  bucket ← find_bucket new;
  old ← find_elem bucket new;
  (if old is None then insert_elem bucket new else mret tt);;
  rehash mem;;
  mret old.
Definition hash_replace (mem : bool) (new : A) : M table (option A) :=
  bucket ← find_bucket new;
  old ← find_elem bucket new;
  (if old is Some o then remove_elem o else mret tt);;
  insert_elem bucket new;;
  rehash mem;;
  mret old.
Definition hash_find (e : A) : M table (option A) :=
  bucket ← find_bucket e; find_elem bucket e.
Definition hash_delete (mem : bool) (e : A) : M table (option A) :=
  bucket ← find_bucket e;
  found ← find_elem bucket e;
  (if found is Some f then remove_elem f;; rehash mem else mret tt);;
  mret found.

Definition hash_size : M table Z := gets elem_cnt.
Definition hash_empty : M table bool := n ← gets elem_cnt; mret (n =? 0).

(** hash_clear: the elements given to DESTRUCTOR, in order (none if it is null),
    and the empty table. *)
Definition hash_clear (destructor : bool) : M table (list A) :=
  h ← get;
  put (mk_hash 0 (bucket_cnt h) (replicate (Z.to_nat (bucket_cnt h)) []));;
  mret (if destructor then concat (take (Z.to_nat (bucket_cnt h)) (buckets h)) else []).
(** hash_init: [mem] says whether the four buckets could be allocated. *)
Definition hash_init (mem : bool) : option table :=
  if mem then
    match hash_clear false (mk_hash 0 4 (replicate 4 [])) with
    | Ok (_, h) => Some h
    | _ => None
    end
  else None.
End operations.

(** ** Traversal *)

Section traversal.
Context {A S : Type} `{EqDecision A}.
Notation table := (hash_table A).

Fixpoint apply_bucket (action : A → M S unit) (b : list A) : M S unit :=
  match b with
  | [] => mret tt
  | e :: b => action e;; apply_bucket action b
  end.
Fixpoint apply_buckets (action : A → M S unit) (bs : list (list A)) : M S unit :=
  match bs with
  | [] => mret tt
  | b :: bs => apply_bucket action b;; apply_buckets action bs
  end.
Definition hash_apply (h : table) (action : A → M S unit) : M S unit :=
  apply_buckets action (take (Z.to_nat (bucket_cnt h)) (buckets h)).

(** The element of an iterator: the head of its bucket's list, an element of the
    list, or a null pointer. *)
Inductive position := AtHead | AtElem (e : A) | AtNull.
Record hash_iterator := mk_iterator { it_bucket : nat; it_elem : position }.

Definition hash_first : hash_iterator := mk_iterator 0 AtHead.
(** The element after [e]; [None] is the end of the list. *)
Fixpoint next_in (e : A) (b : list A) : option A :=
  match b with
  | [] => None
  | x :: b => if decide (x = e) then head b else next_in e b
  end.
Definition hash_cur (i : hash_iterator) : option A :=
  match it_elem i with AtElem e => Some e | _ => None end.
(** The loop of hash_next, with the current position [next] ([None]: list_end of
    bucket [k]); [rest] are the buckets after [k]. *)
Fixpoint hash_next_loop (k : nat) (next : option A) (rest : list (list A)) : hash_iterator :=
  match next with
  | Some e => mk_iterator k (AtElem e)
  | None =>
    match rest with
    | [] => mk_iterator (k + 1) AtNull
    | b :: rest => hash_next_loop (k + 1) (head b) rest
    end
  end.
Definition hash_next (h : table) (i : hash_iterator) : result (option A * hash_iterator) :=
  match buckets h !! it_bucket i with
  | None => Fault
  | Some b =>
    let rest := drop (it_bucket i + 1) (take (Z.to_nat (bucket_cnt h)) (buckets h)) in
    match it_elem i with
    | AtNull => Panic
    | AtHead => let i' := hash_next_loop (it_bucket i) (head b) rest in Ok (hash_cur i', i')
    | AtElem e => let i' := hash_next_loop (it_bucket i) (next_in e b) rest in Ok (hash_cur i', i')
    end
  end.
End traversal.
Arguments position : clear implicits.
Arguments hash_iterator : clear implicits.

(** ** The number of buckets *)

Lemma turn_off_least_1bit_small x : 0 < x < 2 ^ 32 → turn_off_least_1bit x = Z.land x (x - 1).
Proof. intros. unfold turn_off_least_1bit. by rewrite wrap_small by lia. Qed.

(** Clearing the lowest bit of a number that is no power of two keeps its highest bit. *)
Lemma turn_off_log2 x k :
  0 ≤ k → 2 ^ k < x < 2 ^ (k + 1) → 2 ^ k ≤ Z.land x (x - 1) < 2 ^ (k + 1).
Proof.
  intros Hk Hx. assert (∀ y, 2 ^ k ≤ y < 2 ^ (k + 1) → Z.testbit y k = true) as Hbit.
  { intros y Hy. rewrite <-(Z.log2_unique y k); [apply Z.bit_log2; lia|done|].
    by rewrite <-Z.add_1_r. }
  assert (Z.testbit (Z.land x (x - 1)) k = true) as Hl by (rewrite Z.land_spec, !Hbit by lia; done).
  assert (0 ≤ Z.land x (x - 1)) as H0 by (apply Z.land_nonneg; lia). split.
  - destruct (Z.lt_ge_cases (Z.land x (x - 1)) (2 ^ k)) as [Hlt|]; [|done].
    destruct (Z.eq_dec (Z.land x (x - 1)) 0) as [E|E]; [by rewrite E, Z.testbit_0_l in Hl|].
    rewrite Z.bits_above_log2 in Hl; [done|lia|]. apply Z.log2_lt_pow2; lia.
  - assert (Z.log2 x = k) as E by (apply Z.log2_unique; lia).
    pose proof (Z.log2_land x (x - 1) ltac:(lia) ltac:(lia)).
    destruct (Z.eq_dec (Z.land x (x - 1)) 0) as [->|]; [lia|]. apply Z.log2_lt_pow2; lia.
Qed.

(** It also makes the number divisible by one more power of two. *)
Lemma turn_off_divides x t :
  0 ≤ t → x mod 2 ^ t = 0 → Z.land x (x - 1) mod 2 ^ (t + 1) = 0.
Proof.
  intros Ht Hx. rewrite <-Z.land_ones by lia.
  replace (Z.land (Z.land x (x - 1)) (Z.ones (t + 1))) with
    (Z.land (Z.land x (Z.ones (t + 1))) (Z.land (x - 1) (Z.ones (t + 1)))).
  2: { rewrite <-!Z.land_assoc. f_equal. rewrite Z.land_comm, <-Z.land_assoc. by rewrite Z.land_diag. }
  rewrite !Z.land_ones by lia. apply Z.div_exact in Hx; [|lia].
  rewrite Hx. set (q := x / 2 ^ t). rewrite Z.pow_add_r, Z.pow_1_r by lia.
  assert (0 < 2 ^ t) by lia. set (p := 2 ^ t) in *.
  pose proof (Z.div_mod q 2 ltac:(lia)) as Hq. pose proof (Z.mod_pos_bound q 2 ltac:(lia)).
  assert (p * q mod (p * 2) = p * (q mod 2)) as -> by (apply Z.mul_mod_distr_l; lia).
  destruct (decide (q mod 2 = 0)) as [E|E]; [by rewrite E, Z.mul_0_r|].
  replace (q mod 2) with 1 in * by lia.
  replace ((p * q - 1) mod (p * 2)) with (p - 1).
  2: { apply (Z.mod_unique _ _ (q / 2)); [left; lia|]. rewrite Hq at 1. lia. }
  rewrite Z.mul_1_r. unfold p. replace (2 ^ t - 1) with (Z.ones t) by (rewrite Z.ones_equiv; lia).
  rewrite Z.land_ones by lia. by rewrite Z.mod_same by lia.
Qed.

Lemma is_power_of_2_spec x k :
  0 ≤ k < 32 → 2 ^ k ≤ x < 2 ^ (k + 1) → is_power_of_2 x = (x =? 2 ^ k).
Proof.
  intros Hk Hx. assert (2 ^ (k + 1) ≤ 2 ^ 32) by (apply Z.pow_le_mono_r; lia).
  unfold is_power_of_2. rewrite turn_off_least_1bit_small by lia.
  rewrite (proj2 (Z.eqb_neq x 0)) by lia. simpl. destruct (Z.eqb_spec x (2 ^ k)) as [->|Hne].
  - apply Z.eqb_eq. replace (2 ^ k - 1) with (Z.ones k) by (rewrite Z.ones_equiv; lia).
    rewrite Z.land_ones by lia. by apply Z.mod_same; lia.
  - apply Z.eqb_neq. pose proof (turn_off_log2 x k). lia.
Qed.

Lemma power_loop_spec fuel t x k :
  0 ≤ k < 32 → 2 ^ k ≤ x < 2 ^ (k + 1) → 0 ≤ t → x mod 2 ^ t = 0 → k < t + Z.of_nat fuel →
  power_loop fuel x = Some (2 ^ k).
Proof.
  revert t x; induction fuel as [|fuel IH]; intros t x Hk Hx Ht Hd Hf; simpl;
    rewrite (is_power_of_2_spec x k) by done; destruct (Z.eqb_spec x (2 ^ k)) as [->|Hne]; try done.
  - exfalso. assert (2 ^ (k + 1) ≤ 2 ^ t) by (apply Z.pow_le_mono_r; lia).
    rewrite Z.mod_small in Hd; lia.
  - assert (2 ^ (k + 1) ≤ 2 ^ 32) by (apply Z.pow_le_mono_r; lia).
    rewrite turn_off_least_1bit_small by lia. apply (IH (t + 1)); [done| |lia| |lia].
    + apply turn_off_log2; lia.
    + by apply turn_off_divides.
Qed.

Lemma new_bucket_count_spec n : 0 ≤ n < 2 ^ 32 →
  new_bucket_count n = Some (2 ^ Z.log2 (Z.max 4 (n / 2))) ∧ 2 ≤ Z.log2 (Z.max 4 (n / 2)) < 32.
Proof.
  intros Hn. assert (n / 2 < 2 ^ 31) by (apply Z.div_lt_upper_bound; lia).
  assert (0 ≤ n / 2) by (apply Z.div_pos; lia).
  set (m := Z.max 4 (n / 2)). assert (4 ≤ m < 2 ^ 31) by lia.
  assert (2 ≤ Z.log2 m < 32) as Hl.
  { split; [by apply (Z.log2_le_mono 4); lia|]. enough (Z.log2 m < 31) by lia.
    apply Z.log2_lt_pow2; lia. }
  split; [|done]. unfold new_bucket_count, BEST_ELEMS_PER_BUCKET.
  replace (if n / 2 <? 4 then 4 else n / 2) with m.
  2: { unfold m. destruct (Z.ltb_spec (n / 2) 4); lia. }
  apply (power_loop_spec 32 0); [lia| |lia|apply Z.mod_1_r|lia].
  pose proof (Z.log2_spec m). rewrite Z.add_1_r. lia.
Qed.

(** ** The invariant *)

Definition elems {A} (h : hash_table A) : list A := concat (buckets h).

(** [e] belongs in bucket [idx n e] of a table of [n] buckets. *)
Definition idx {A} (hash : A → Z) (n : Z) (e : A) : Z := Z.land (hash e) (n - 1).
Definition eqv {A} (less : A → A → bool) (a b : A) : bool := negb (less a b) && negb (less b a).

(** What a table asks of the functions it is given: equality under LESS is an
    equivalence and equal elements have equal hash values. *)
Class HashLaws {A} (hash : A → Z) (less : A → A → bool) : Prop := {
  eqv_refl a : eqv less a a = true;
  eqv_trans a b c : eqv less a b = true → eqv less b c = true → eqv less a c = true;
  eqv_hash a b : eqv less a b = true → hash a = hash b
}.

(** The buckets are as many as a power of two, and elements are in their bucket. *)
Record placed {A} (hash : A → Z) (h : hash_table A) : Prop := {
  pl_pow : ∃ k, 2 ≤ k < 32 ∧ bucket_cnt h = 2 ^ k;
  pl_len : Z.of_nat (length (buckets h)) = bucket_cnt h;
  pl_idx : ∀ i b e, buckets h !! i = Some b → e ∈ b → idx hash (bucket_cnt h) e = Z.of_nat i
}.
Record hash_wf {A} (hash : A → Z) (less : A → A → bool) (h : hash_table A) : Prop := {
  hw_placed : placed hash h;
  hw_cnt : elem_cnt h = Z.of_nat (length (elems h));
  hw_nodup : NoDup (elems h);
  hw_distinct : ∀ a b, a ∈ elems h → b ∈ elems h → eqv less a b = true → a = b
}.

Section lemmas.
Context {A : Type} `{EqDecision A} (hash : A → Z) (less : A → A → bool).
Implicit Types (h : hash_table A) (e : A).

Lemma eqv_sym a b : eqv less a b = eqv less b a.
Proof. apply andb_comm. Qed.

Lemma pl_pos h : placed hash h → 4 ≤ bucket_cnt h < 2 ^ 32.
Proof.
  intros [(k & Hk & E) _ _]. rewrite E. split.
  - by apply (Z.pow_le_mono_r 2 2 k); lia.
  - apply Z.pow_lt_mono_r; lia.
Qed.

Lemma idx_range h e : placed hash h →
  Z.land (hash e) (u32 (bucket_cnt h - 1)) = idx hash (bucket_cnt h) e ∧
  0 ≤ idx hash (bucket_cnt h) e < bucket_cnt h.
Proof.
  intros Hp. pose proof (pl_pos h Hp). destruct Hp as [(k & Hk & E) _ _].
  rewrite wrap_small by lia. split; [done|]. unfold idx. rewrite E in *.
  replace (2 ^ k - 1) with (Z.ones k) by (rewrite Z.ones_equiv; lia).
  rewrite Z.land_ones by lia. apply Z.mod_pos_bound. lia.
Qed.

Lemma bucket_exists h e : placed hash h →
  ∃ b, buckets h !! Z.to_nat (idx hash (bucket_cnt h) e) = Some b.
Proof.
  intros Hp. destruct (idx_range h e Hp) as [_ ?]. pose proof (pl_len _ _ Hp).
  destruct (lookup_lt_is_Some_2 (buckets h) (Z.to_nat (idx hash (bucket_cnt h) e))) as [b ?]; [lia|].
  by exists b.
Qed.

Lemma elem_of_elems h e : e ∈ elems h ↔ ∃ i b, buckets h !! i = Some b ∧ e ∈ b.
Proof.
  unfold elems. rewrite list_elem_of_In, in_concat. split.
  - intros (b & Hb & He). apply list_elem_of_In in Hb, He.
    apply list_elem_of_lookup in Hb as [i Hi]. eauto.
  - intros (i & b & Hi & He). exists b. rewrite <-!list_elem_of_In.
    split; [by eapply list_elem_of_lookup_2|done].
Qed.

(** An element of the table is in the bucket that its hash value gives. *)
Lemma elem_in_bucket h e b : placed hash h →
  buckets h !! Z.to_nat (idx hash (bucket_cnt h) e) = Some b → e ∈ elems h → e ∈ b.
Proof.
  intros Hp Hb (i & b' & Hi & He)%elem_of_elems.
  rewrite (pl_idx _ _ Hp i b' e Hi He), Nat2Z.id in Hb. by simplify_eq.
Qed.

Lemma find_in_Some e b x : find_in less e b = Some x → x ∈ b ∧ eqv less x e = true.
Proof.
  induction b as [|y b IH]; [done|]. simpl. fold (eqv less y e). destruct (eqv less y e) eqn:E.
  - intros [= <-]. split; [by left|done].
  - intros [??]%IH. split; [by right|done].
Qed.
Lemma find_in_None e b : find_in less e b = None → ∀ x, x ∈ b → eqv less x e = false.
Proof.
  induction b as [|y b IH]; simpl; [by intros _ x ?%elem_of_nil|].
  fold (eqv less y e). destruct (eqv less y e) eqn:E; [done|].
  intros Hn x [->|Hx]%elem_of_cons; [done|]. by apply IH.
Qed.

Lemma concat_insert (bs : list (list A)) i b e :
  bs !! i = Some b → concat (<[i := e :: b]> bs) ≡ₚ e :: concat bs.
Proof.
  revert i; induction bs as [|b' bs IH]; intros [|i] Hi; simplify_eq/=; [done|].
  rewrite (IH i Hi). apply Permutation_sym, Permutation_middle.
Qed.
Lemma concat_filter e (bs : list (list A)) :
  concat (filter (λ x, x ≠ e) <$> bs) = filter (λ x, x ≠ e) (concat bs).
Proof. induction bs as [|b bs IH]; [done|]. simpl. by rewrite filter_app, <-IH. Qed.
Lemma filter_ne_perm e (l : list A) :
  NoDup l → e ∈ l → l ≡ₚ e :: filter (λ x, x ≠ e) l.
Proof.
  intros Hnd (l1 & l2 & ->)%list_elem_of_split. list_facts.
  assert (∀ l : list A, e ∉ l → filter (λ x, x ≠ e) l = l) as Hf.
  { induction l as [|x l IH]; intros He; [done|]. apply not_elem_of_cons in He as [??].
    rewrite filter_cons_True by done. by rewrite IH. }
  rewrite filter_app, filter_cons_False, !Hf by naive_solver.
  symmetry. apply Permutation_middle.
Qed.
Lemma concat_replicate_nil n : concat (replicate n (@nil A)) = [].
Proof. by induction n. Qed.
End lemmas.

(** ** The operations *)

Section specs.
Context {A : Type} `{EqDecision A} (hash : A → Z) (less : A → A → bool).
Context `{!HashLaws hash less}.
Implicit Types (h : hash_table A) (e : A).

Lemma wp_find_bucket h e Q :
  placed hash h → Q (idx hash (bucket_cnt h) e) h → wp (find_bucket hash e) h Q.
Proof.
  intros Hp HQ. unfold find_bucket. repeat wp_step.
  by rewrite (proj1 (idx_range hash h e Hp)).
Qed.
Lemma wp_load_bucket h i b Q :
  buckets h !! Z.to_nat i = Some b → Q b h → wp (load_bucket i) h Q.
Proof. intros Hb HQ. unfold load_bucket. repeat wp_step. by apply (wp_from_option _ b). Qed.
Lemma wp_store_bucket h i b b' Q :
  buckets h !! Z.to_nat i = Some b' →
  Q tt (mk_hash (elem_cnt h) (bucket_cnt h) (<[Z.to_nat i := b]> (buckets h))) →
  wp (store_bucket i b) h Q.
Proof.
  intros Hb HQ. unfold store_bucket. wp_step. by apply (wp_load_bucket _ _ b'); [|wp_step].
Qed.

Lemma place_elem h e b c :
  placed hash h → buckets h !! Z.to_nat (idx hash (bucket_cnt h) e) = Some b →
  let h' := mk_hash c (bucket_cnt h)
              (<[Z.to_nat (idx hash (bucket_cnt h) e) := e :: b]> (buckets h)) in
  placed hash h' ∧ elems h' ≡ₚ e :: elems h.
Proof.
  intros Hp Hb h'. split; [|by apply concat_insert].
  destruct (idx_range hash h e Hp) as [_ ?]. destruct Hp as [Hpow Hlen Hidx]. split; simpl; [done| |].
  - by rewrite length_insert.
  - intros i b' x Hi Hx. apply list_lookup_insert_Some in Hi as [(<- & <- & _)|[_ Hi]]; [|eauto].
    apply elem_of_cons in Hx as [->|Hx]; [lia|]. by rewrite (Hidx _ _ _ Hb Hx).
Qed.

Lemma wp_move_elems h es Q :
  placed hash h →
  (∀ h', placed hash h' → elems h' ≡ₚ es ++ elems h → elem_cnt h' = elem_cnt h →
     bucket_cnt h' = bucket_cnt h → Q tt h') →
  wp (move_elems hash es) h Q.
Proof.
  revert h; induction es as [|e es IH]; intros h Hp HQ; cbn [move_elems]; [by wp_step; apply HQ|].
  wp_step. apply wp_find_bucket; [done|]. destruct (bucket_exists hash h e Hp) as [b Hb].
  wp_step. apply (wp_load_bucket _ _ b); [done|]. wp_step. apply (wp_store_bucket _ _ _ b); [done|].
  destruct (place_elem h e b (elem_cnt h) Hp Hb) as [Hp' He'].
  apply IH; [done|]. intros h' Hp'' He'' Hc Hn. apply HQ; [done| |done|done].
  rewrite He'', He'. symmetry. apply Permutation_middle.
Qed.

(** rehash keeps the elements. *)
Lemma wp_rehash mem h Q :
  placed hash h → 0 ≤ elem_cnt h < 2 ^ 32 →
  (∀ h', placed hash h' → elems h' ≡ₚ elems h → elem_cnt h' = elem_cnt h →
     (mem = true → bucket_cnt h' = 2 ^ Z.log2 (Z.max 4 (elem_cnt h / 2))) → Q tt h') →
  wp (rehash hash mem) h Q.
Proof.
  intros Hp Hc HQ. unfold rehash. wp_step. wp_step.
  destruct (new_bucket_count_spec _ Hc) as [-> Hk].
  set (n := 2 ^ Z.log2 (Z.max 4 (elem_cnt h / 2))) in *.
  destruct (Z.eqb_spec n (bucket_cnt h)) as [E|E]; [by wp_step; apply HQ|].
  destruct mem; simpl negb; cbv iota; [|by wp_step; apply HQ].
  wp_step. wp_step. assert (0 < n) by (unfold n; lia).
  assert (placed hash (mk_hash (elem_cnt h) n (replicate (Z.to_nat n) []))) as Hp'.
  { split; simpl; [by eauto|rewrite length_replicate; lia|].
    intros i b e [-> _]%lookup_replicate He. by apply elem_of_nil in He. }
  apply wp_move_elems; [done|]. intros h' ? He ??. apply HQ; [done| |done|done].
  rewrite He. unfold elems; simpl. by rewrite concat_replicate_nil, app_nil_r.
Qed.

(** A table whose elements are those of [es]. *)
Lemma hash_wf_perm h es :
  placed hash h → elem_cnt h = Z.of_nat (length es) → elems h ≡ₚ es → NoDup es →
  (∀ a b, a ∈ es → b ∈ es → eqv less a b = true → a = b) → hash_wf hash less h.
Proof.
  intros Hp Hc He Hnd Hd. split; [done|by rewrite He|by rewrite He|].
  intros a b. rewrite He. apply Hd.
Qed.

Lemma wp_insert_elem h e Q :
  placed hash h → elem_cnt h + 1 < 2 ^ 32 → 0 ≤ elem_cnt h →
  (∀ h', placed hash h' → elems h' ≡ₚ e :: elems h → elem_cnt h' = elem_cnt h + 1 → Q tt h') →
  wp (insert_elem (idx hash (bucket_cnt h) e) e) h Q.
Proof.
  intros Hp Hc Hc' HQ. destruct (bucket_exists hash h e Hp) as [b Hb].
  unfold insert_elem. wp_step. wp_step. wp_step. apply (wp_load_bucket _ _ b); [done|].
  apply (wp_store_bucket _ _ _ b); [done|]. simpl. rewrite wrap_small by lia.
  destruct (place_elem h e b (elem_cnt h + 1) Hp Hb). by apply HQ.
Qed.

Lemma wp_remove_elem h e Q :
  placed hash h → NoDup (elems h) → e ∈ elems h → 0 < elem_cnt h < 2 ^ 32 →
  (∀ h', placed hash h' → elems h ≡ₚ e :: elems h' → elem_cnt h' = elem_cnt h - 1 →
     bucket_cnt h' = bucket_cnt h → Q tt h') →
  wp (remove_elem e) h Q.
Proof.
  intros Hp Hnd He Hc HQ. unfold remove_elem. repeat wp_step. simpl. rewrite wrap_small by lia.
  apply HQ; simpl; [|unfold elems at 2; simpl|done|done].
  - destruct Hp as [? ? Hidx]. split; simpl; [done|by rewrite length_fmap|].
    intros i b x (b' & -> & Hb)%list_lookup_fmap_Some Hx. apply list_elem_of_filter in Hx as [_ Hx].
    by eapply Hidx.
  - rewrite concat_filter. by apply filter_ne_perm.
Qed.

(** The element equal to [e], if any. *)
Lemma find_in_elems h e b : hash_wf hash less h →
  buckets h !! Z.to_nat (idx hash (bucket_cnt h) e) = Some b →
  match find_in less e b with
  | Some x => x ∈ elems h ∧ eqv less x e = true
  | None => ∀ x, x ∈ elems h → eqv less x e = false
  end.
Proof.
  intros [Hp _ _ _] Hb. destruct (find_in less e b) as [x|] eqn:E.
  - apply find_in_Some in E as [Hx ?]. split; [|done]. apply elem_of_elems. eauto.
  - intros x Hx. destruct (eqv less x e) eqn:Eq; [|done].
    rewrite <-Eq. apply (find_in_None less e b); [done|].
    apply (elem_in_bucket hash h x b); [done| |done]. unfold idx in *. by rewrite (eqv_hash x e Eq).
Qed.
End specs.

(** ** Iteration *)

Section iteration.
Context {A : Type} `{EqDecision A} (h : hash_table A).

(** The idiom of hash_first's comment: the elements that hash_next returns from
    [i] on, until it returns a null pointer. *)
Fixpoint iterate (fuel : nat) (i : hash_iterator A) : result (list A) :=
  match fuel with
  | O => Fuel
  | S fuel =>
    match hash_next h i with
    | Ok (Some e, i') => match iterate fuel i' with Ok l => Ok (e :: l) | r => r end
    | Ok (None, _) => Ok []
    | Panic => Panic
    | Fault => Fault
    | Fuel => Fuel
    end
  end.

Lemma next_in_middle pre e (suf : list A) : e ∉ pre → next_in e (pre ++ e :: suf) = head suf.
Proof.
  induction pre as [|x pre IH]; simpl; intros He; [by rewrite decide_True|].
  apply not_elem_of_cons in He as [??]. rewrite decide_False by congruence. by apply IH.
Qed.

(** Where the loop of hash_next stops: at the first element of [suf] and the
    buckets after it. *)
Lemma hash_next_loop_spec k (suf : list A) rest :
  match suf ++ concat rest with
  | [] => it_elem (hash_next_loop k (head suf) rest) = AtNull
  | x :: r =>
    ∃ j b, hash_next_loop k (head suf) rest = mk_iterator (k + j) (AtElem x) ∧
      (suf :: rest) !! j = Some (x :: b) ∧ r = b ++ concat (drop j rest)
  end.
Proof.
  revert k suf; induction rest as [|b rest IH]; intros k [|x suf]; simpl.
  - done.
  - exists 0%nat, suf. by rewrite Nat.add_0_r.
  - specialize (IH (k + 1)%nat b). destruct (b ++ concat rest) as [|x r]; [done|].
    destruct IH as (j & b' & -> & Hj & ->). exists (S j), b'. split; [|done].
    f_equal. lia.
  - exists 0%nat, suf. by rewrite Nat.add_0_r.
Qed.

Context (Hlen : Z.of_nat (length (buckets h)) = bucket_cnt h) (Hnd : NoDup (elems h)).

Lemma take_buckets : take (Z.to_nat (bucket_cnt h)) (buckets h) = buckets h.
Proof. apply take_ge. lia. Qed.

Lemma bucket_nodup k b : buckets h !! k = Some b → NoDup b.
Proof.
  intros Hk. apply list_elem_of_split_length in Hk as (l1 & l2 & E & _).
  unfold elems in Hnd. rewrite E, concat_app in Hnd. simpl in Hnd.
  by eapply NoDup_app_l, NoDup_app_r.
Qed.

(** One call of hash_next, with the rest of the current bucket as [next_in] or
    [head] give it. *)
Lemma iterate_from fuel k b suf :
  buckets h !! k = Some b →
  (∀ fuel' k' pre e suf', (fuel' < fuel)%nat → buckets h !! k' = Some (pre ++ e :: suf') →
     (length (suf' ++ concat (drop (S k') (buckets h))) < fuel')%nat →
     iterate fuel' (mk_iterator k' (AtElem e)) = Ok (suf' ++ concat (drop (S k') (buckets h)))) →
  (∃ pre, b = pre ++ suf) →
  (length (suf ++ concat (drop (S k) (buckets h))) < fuel)%nat →
  ∀ i, (let i' := hash_next_loop k (head suf) (drop (S k) (buckets h)) in
        hash_next h i = Ok (hash_cur i', i')) →
  iterate fuel i = Ok (suf ++ concat (drop (S k) (buckets h))).
Proof.
  intros Hk IH [pre Hb] Hf i Hi. destruct fuel as [|fuel]; [lia|]. simpl. rewrite Hi.
  pose proof (hash_next_loop_spec k suf (drop (S k) (buckets h))) as Hs.
  destruct (suf ++ concat (drop (S k) (buckets h))) as [|x r] eqn:E.
  { unfold hash_cur. by rewrite Hs. }
  destruct Hs as (j & b' & -> & Hj & ->). unfold hash_cur. simpl it_elem. cbv iota.
  rewrite drop_drop in *. replace (S k + j)%nat with (S (k + j)) in * by lia.
  rewrite length_cons in Hf. destruct j as [|j]; simplify_eq/=.
  - rewrite Nat.add_0_r in *. rewrite (IH fuel k pre x b'); [done|lia|done|lia].
  - rewrite lookup_drop in Hj. rewrite (IH fuel (k + S j)%nat [] x b'); [done|lia| |lia].
    by replace (k + S j)%nat with (S k + j)%nat by lia.
Qed.

Lemma iterate_elem fuel k pre e suf :
  buckets h !! k = Some (pre ++ e :: suf) →
  (length (suf ++ concat (drop (S k) (buckets h))) < fuel)%nat →
  iterate fuel (mk_iterator k (AtElem e)) = Ok (suf ++ concat (drop (S k) (buckets h))).
Proof.
  revert k pre e suf. induction (lt_wf fuel) as [fuel _ IH]; intros k pre e suf Hk Hf.
  apply (iterate_from fuel k (pre ++ e :: suf)); [done|eauto| |done|].
  { exists (pre ++ [e]). by rewrite <-app_assoc. }
  unfold hash_next; simpl. rewrite Hk, take_buckets, Nat.add_1_r, next_in_middle; [done|].
  pose proof (bucket_nodup _ _ Hk) as Hb. by apply NoDup_app_cons in Hb as (?&_&_).
Qed.

Lemma iterate_first fuel :
  buckets h ≠ [] → (length (elems h) < fuel)%nat → iterate fuel hash_first = Ok (elems h).
Proof.
  intros Hne Hf. assert (∃ b bs, buckets h = b :: bs) as (b & bs & E).
  { destruct (buckets h); [done|eauto]. }
  assert (elems h = b ++ concat (drop 1 (buckets h))) as El by (unfold elems; by rewrite E).
  rewrite El in Hf |- *. apply (iterate_from fuel 0 b b); [by rewrite E| |by exists []|done|].
  - intros fuel' k' pre e suf' _ Hk Hf'. by apply (iterate_elem fuel' k' pre).
  - unfold hash_next; simpl. rewrite take_buckets. by rewrite E.
Qed.
End iteration.

(** ** The theorems *)

Section theorems.
Context {A : Type} `{EqDecision A} (hash : A → Z) (less : A → A → bool).
Context `{!HashLaws hash less}.
Implicit Types (h : hash_table A) (e : A).

(** Adding an element that no element of the table is equal to. *)
Lemma wp_insert_new {B} mem new h (r : B) Q :
  hash_wf hash less h → elem_cnt h + 1 < 2 ^ 32 → (∀ x, x ∈ elems h → eqv less x new = false) →
  (∀ h', hash_wf hash less h' → elems h' ≡ₚ new :: elems h → Q r h') →
  wp (insert_elem (idx hash (bucket_cnt h) new) new;; rehash hash mem;; mret r) h Q.
Proof.
  intros [Hp Hcnt Hnd Hd] Hc Hno HQ. assert (new ∉ elems h) as Hnew.
  { intros Hin. pose proof (Hno _ Hin) as E. by rewrite eqv_refl in E. }
  wp_step. apply (wp_insert_elem hash); [done|done|lia|]. intros h1 Hp1 He1 Hc1.
  wp_step. apply wp_rehash; [done|lia|]. intros h' Hp' He' Hc' _. rewrite He1 in He'.
  wp_step. apply HQ; [|done].
  apply (hash_wf_perm hash less h' (new :: elems h)); [done|simpl; lia|done|by constructor|].
  intros a c [->|Ha]%elem_of_cons [->|Hc'']%elem_of_cons Heq; [done| | |by apply Hd].
  - rewrite eqv_sym, Hno in Heq by done. done.
  - by rewrite Hno in Heq.
Qed.

Lemma wp_remove_wf h e Q :
  hash_wf hash less h → elem_cnt h < 2 ^ 32 → e ∈ elems h →
  (∀ h', hash_wf hash less h' → elems h ≡ₚ e :: elems h' → elem_cnt h' = elem_cnt h - 1 →
     bucket_cnt h' = bucket_cnt h → Q tt h') →
  wp (remove_elem e) h Q.
Proof.
  intros [Hp Hcnt Hnd Hd] Hc He HQ.
  assert (0 < elem_cnt h) by (rewrite Hcnt; destruct (elems h); [by apply elem_of_nil in He|simpl; lia]).
  apply (wp_remove_elem hash); [done..|lia|]. intros h' Hp' He' Hc' Hn'. apply HQ; [|done..].
  assert (length (elems h) = S (length (elems h'))) by (by rewrite He').
  rewrite He' in Hnd. apply NoDup_cons in Hnd as [_ Hnd]. split; [done|lia|done|].
  intros a b Ha Hb. apply Hd; rewrite He'; by right.
Qed.

(** Running find_elem (h, find_bucket (h, e), e). *)
Lemma wp_lookup {B} h e (k : Z → option A → M (hash_table A) B) Q :
  hash_wf hash less h →
  (∀ r, match r with
        | Some x => x ∈ elems h ∧ eqv less x e = true
        | None => ∀ x, x ∈ elems h → eqv less x e = false
        end → wp (k (idx hash (bucket_cnt h) e) r) h Q) →
  wp (bucket ← find_bucket hash e; r ← find_elem less bucket e; k bucket r) h Q.
Proof.
  intros Hwf HQ. pose proof (hw_placed _ _ _ Hwf) as Hp.
  destruct (bucket_exists hash h e Hp) as [b Hb]. wp_step. apply wp_find_bucket; [done|].
  unfold find_elem. repeat wp_step. apply (wp_load_bucket _ _ b); [done|]. wp_step.
  apply HQ. by apply (find_in_elems hash less h e b).
Qed.

(** C30: hash_insert on a well-formed table leaves a well-formed table, whether or
    not the buckets are resized and whether or not malloc fails; it returns the
    equal element and keeps the elements if there is one, and otherwise returns a
    null pointer and adds the new element. *)
Theorem hash_insert_correct mem new h :
  hash_wf hash less h → elem_cnt h + 1 < 2 ^ 32 →
  wp (hash_insert hash less mem new) h (λ r h', hash_wf hash less h' ∧
    match r with
    | Some old => old ∈ elems h ∧ eqv less old new = true ∧ elems h' ≡ₚ elems h
    | None => (∀ x, x ∈ elems h → eqv less x new = false) ∧ elems h' ≡ₚ new :: elems h
    end).
Proof.
  intros Hwf Hc. pose proof Hwf as [Hp Hcnt Hnd Hd]. unfold hash_insert.
  apply wp_lookup; [done|]. intros [old|] Hfind.
  - repeat wp_step. apply wp_rehash; [done|lia|]. intros h' Hp' He' Hc' _.
    wp_step. split; [|naive_solver]. by apply (hash_wf_perm hash less h' (elems h)); [|lia|..].
  - by apply wp_insert_new.
Qed.

(** hash_find returns the element equal to its argument, or a null pointer if
    there is none, and leaves the table as it is. *)
Theorem hash_find_correct e h :
  hash_wf hash less h →
  wp (hash_find hash less e) h (λ r h', h' = h ∧
    match r with
    | Some x => x ∈ elems h ∧ eqv less x e = true
    | None => ∀ x, x ∈ elems h → eqv less x e = false
    end).
Proof.
  intros Hwf. pose proof (hw_placed _ _ _ Hwf) as Hp.
  destruct (bucket_exists hash h e Hp) as [b Hb]. unfold hash_find, find_elem.
  wp_step. apply wp_find_bucket; [done|]. wp_step. apply (wp_load_bucket _ _ b); [done|]. wp_step.
  split; [done|]. by apply (find_in_elems hash less h e b).
Qed.

(** hash_replace leaves a well-formed table with the new element in place of
    the element equal to it, which it returns (a null pointer if there is none). *)
Theorem hash_replace_correct mem new h :
  hash_wf hash less h → elem_cnt h + 1 < 2 ^ 32 →
  wp (hash_replace hash less mem new) h (λ r h', hash_wf hash less h' ∧ new ∈ elems h' ∧
    match r with
    | Some old => eqv less old new = true ∧ new :: elems h ≡ₚ old :: elems h'
    | None => (∀ x, x ∈ elems h → eqv less x new = false) ∧ elems h' ≡ₚ new :: elems h
    end).
Proof.
  intros Hwf Hc. unfold hash_replace. apply wp_lookup; [done|]. intros [old|] Hfind.
  - destruct Hfind as [Hold Heq]. wp_step. apply wp_remove_wf; [done|lia|done|].
    intros h1 Hwf1 He1 Hc1 Hn1. rewrite <-Hn1.
    apply wp_insert_new; [done|lia| |].
    + intros x Hx. destruct (eqv less x new) eqn:E; [|done]. exfalso.
      pose proof (hw_nodup _ _ _ Hwf) as Hnd. rewrite He1 in Hnd. apply NoDup_cons in Hnd as [Hnd _].
      apply Hnd. rewrite eqv_sym in E.
      rewrite (hw_distinct _ _ _ Hwf old x Hold ltac:(rewrite He1; by right) (eqv_trans _ _ _ Heq E)).
      done.
    + intros h' Hwf' He'. split_and!; [done|rewrite He'; by left|done|].
      rewrite He', He1. constructor.
  - wp_step. wp_step. apply wp_insert_new; [done|done|done|]. intros h' Hwf' He'.
    split_and!; [done|rewrite He'; by left|done|done].
Qed.

(** hash_delete removes and returns the element equal to its argument; if
    there is none it returns a null pointer and leaves the table as it is. *)
Theorem hash_delete_correct mem e h :
  hash_wf hash less h → elem_cnt h < 2 ^ 32 →
  wp (hash_delete hash less mem e) h (λ r h', hash_wf hash less h' ∧
    match r with
    | Some x => eqv less x e = true ∧ elems h ≡ₚ x :: elems h'
    | None => (∀ x, x ∈ elems h → eqv less x e = false) ∧ h' = h
    end).
Proof.
  intros Hwf Hc. unfold hash_delete. apply wp_lookup; [done|]. intros [x|] Hfind.
  - destruct Hfind as [Hx Heq]. repeat wp_step. apply wp_remove_wf; [done..|].
    intros h1 Hwf1 He1 Hc1 Hn1. destruct Hwf1 as [Hp1 Hcnt1 Hnd1 Hd1].
    apply wp_rehash; [done|lia|]. intros h' Hp' He' Hc' _. wp_step.
    split; [by apply (hash_wf_perm hash less h' (elems h1)); [|lia|..]|].
    split; [done|]. by rewrite He'.
  - by repeat wp_step.
Qed.

(** The iteration idiom over a well-formed table returns every element
    exactly once, bucket by bucket, and then a null pointer. *)
Theorem hash_iteration_complete h fuel :
  hash_wf hash less h → (length (elems h) < fuel)%nat →
  iterate h fuel hash_first = Ok (elems h).
Proof.
  intros [Hp _ Hnd _] Hf. pose proof (pl_len _ _ Hp). pose proof (pl_pos hash _ Hp).
  apply iterate_first; [done|done| |done]. intros E. rewrite E in *. simpl in *. lia.
Qed.
End theorems.

(** ** A concrete table: integers with their usual order *)

#[export] Instance Z_hash_laws : HashLaws (wrap 32) Z.ltb.
Proof.
  assert (∀ a b, eqv Z.ltb a b = true → a = b) as Heq.
  { intros a b [Ha%negb_true_iff%Z.ltb_ge Hb%negb_true_iff%Z.ltb_ge]%andb_true_iff. lia. }
  split.
  - intros a. unfold eqv. by rewrite Z.ltb_irrefl.
  - intros a b c ->%Heq ->%Heq. unfold eqv. by rewrite Z.ltb_irrefl.
  - by intros a b ->%Heq.
Qed.

Definition sample : hash_table Z := mk_hash 3 4 [[8; 4]; []; [6]; []].

Lemma sample_wf : hash_wf (wrap 32) Z.ltb sample.
Proof.
  split; [split| | |].
  - by exists 2.
  - done.
  - intros i b e Hi He. do 4 (destruct i as [|i]; [injection Hi as <-; list_facts; done|]). done.
  - done.
  - by apply (bool_decide_unpack _); vm_compute.
  - intros a b _ _ [Ha%negb_true_iff%Z.ltb_ge Hb%negb_true_iff%Z.ltb_ge]%andb_true_iff. lia.
Qed.

Lemma hash_insert_correct_witness :
  wp (hash_insert (wrap 32) Z.ltb true 12) sample (λ r h', hash_wf (wrap 32) Z.ltb h' ∧
    match r with
    | Some old => old ∈ elems sample ∧ eqv Z.ltb old 12 = true ∧ elems h' ≡ₚ elems sample
    | None => (∀ x, x ∈ elems sample → eqv Z.ltb x 12 = false) ∧ elems h' ≡ₚ 12 :: elems sample
    end).
Proof. apply (hash_insert_correct (wrap 32) Z.ltb true 12 sample); [apply sample_wf|done]. Defined.

Lemma hash_delete_correct_witness :
  wp (hash_delete (wrap 32) Z.ltb true 8) sample (λ r h', hash_wf (wrap 32) Z.ltb h' ∧
    match r with
    | Some x => eqv Z.ltb x 8 = true ∧ elems sample ≡ₚ x :: elems h'
    | None => (∀ x, x ∈ elems sample → eqv Z.ltb x 8 = false) ∧ h' = sample
    end).
Proof. apply (hash_delete_correct (wrap 32) Z.ltb true 8 sample); [apply sample_wf|done]. Defined.

Lemma hash_iteration_complete_witness : iterate sample 4 hash_first = Ok [8; 4; 6].
Proof.
  apply (hash_iteration_complete (wrap 32) Z.ltb sample 4); [apply sample_wf|simpl; lia].
Defined.

(** Known values of the 32-bit FNV hash. *)
Example hash_bytes_values :
  hash_bytes [] = 0x811c9dc5 ∧ hash_bytes [97] = 0x050c5d7e ∧
  hash_string [97; 0] = Some 0x050c5d7e ∧ hash_int 97 = hash_bytes [97; 0; 0; 0].
Proof. done. Qed.
