(* ===== verification/CString.v ===== *)
(** * Memory and string functions: lib/string.c

    Memory maps addresses to bytes (0 to 255); an access to an address that is
    not mapped is a fault.  All of the functions of string.c are here, with a
    fuel argument where a loop runs to the end of a string (more than the length
    of the string is enough).  Since a char is compared with a char only, it is
    represented by its value as an unsigned char. *)

From Stdlib Require Import Sorted.
From S2P Require Import Prelude.
Local Open Scope Z_scope.

Notation memory := (gmap Z Z).
Definition NULL : Z := 0.
Definition SIZE_MAX : Z := 2 ^ 32 - 1.

Definition load (a : Z) : M memory Z := m ← get; from_option (m !! a).
Definition store (a v : Z) : M memory unit := _ ← load a; modify (<[a := v]>).

(** ASSERT (p != NULL || size == 0) *)
Definition assert_block (p size : Z) : M memory unit := assert (negb (p =? NULL) || (size =? 0)).

(** while (size-- > 0) *dst++ = *src++; returns the final dst. *)
Fixpoint copy_up (n : nat) (dst src : Z) : M memory Z :=
  match n with
  | O => mret dst
  | S n => c ← load src; store dst c;; copy_up n (dst + 1) (src + 1)
  end.
(** while (size-- > 0) *--dst = *--src; *)
Fixpoint copy_down (n : nat) (dst src : Z) : M memory Z :=
  match n with
  | O => mret dst
  | S n =>
    let dst := dst - 1 in
    let src := src - 1 in
    c ← load src; store dst c;; copy_down n dst src
  end.

Definition memcpy (dst_ src_ size : Z) : M memory Z :=
  assert_block dst_ size;; assert_block src_ size;;
  _ ← copy_up (Z.to_nat size) dst_ src_;
  mret dst_.
Definition memmove (dst_ src_ size : Z) : M memory Z :=
  assert_block dst_ size;; assert_block src_ size;;
  if dst_ <? src_ then copy_up (Z.to_nat size) dst_ src_
  else copy_down (Z.to_nat size) (dst_ + size) (src_ + size).

Fixpoint memcmp_loop (n : nat) (a b : Z) : M memory Z :=
  match n with
  | O => mret 0
  | S n =>
    x ← load a; y ← load b;
    if negb (x =? y) then mret (if y <? x then 1 else -1)
    else memcmp_loop n (a + 1) (b + 1)
  end.
Definition memcmp (a_ b_ size : Z) : M memory Z :=
  assert_block a_ size;; assert_block b_ size;; memcmp_loop (Z.to_nat size) a_ b_.

Fixpoint strcmp_loop (fuel : nat) (a b : Z) : M memory Z :=
  match fuel with
  | O => nofuel
  | S fuel =>
    x ← load a;
    same ← (if x =? 0 then mret false else y ← load b; mret (x =? y));
    if same : bool then strcmp_loop fuel (a + 1) (b + 1)
    else y ← load b; mret (if x <? y then -1 else if y <? x then 1 else 0)
  end.
Definition strcmp (fuel : nat) (a_ b_ : Z) : M memory Z :=
  assert (negb (a_ =? NULL));; assert (negb (b_ =? NULL));; strcmp_loop fuel a_ b_.

Fixpoint memchr_loop (n : nat) (block ch : Z) : M memory Z :=
  match n with
  | O => mret NULL
  | S n => x ← load block; if x =? ch then mret block else memchr_loop n (block + 1) ch
  end.
Definition memchr (block_ ch_ size : Z) : M memory Z :=
  assert_block block_ size;; memchr_loop (Z.to_nat size) block_ (u8 ch_).

Fixpoint strchr_loop (fuel : nat) (string c : Z) : M memory Z :=
  match fuel with
  | O => nofuel
  | S fuel =>
    x ← load string;
    if x =? c then mret string else
    if x =? 0 then mret NULL else strchr_loop fuel (string + 1) c
  end.
Definition strchr (fuel : nat) (string c_ : Z) : M memory Z :=
  assert (negb (string =? NULL));; strchr_loop fuel string (u8 c_).

(** The loops of strcspn ([in_set] = true: stop at a character of the set) and
    strspn ([in_set] = false: stop at one outside of it). *)
Fixpoint span_loop (in_set : bool) (fuel : nat) (string set length : Z) : M memory Z :=
  match fuel with
  | O => nofuel
  | S fuel' =>
    x ← load (string + length);
    if x =? 0 then mret length else
    p ← strchr fuel set x;
    if Bool.eqb (negb (p =? NULL)) in_set then mret length
    else span_loop in_set fuel' string set (length + 1)
  end.
Definition strcspn (fuel : nat) (string stop : Z) : M memory Z := span_loop true fuel string stop 0.
Definition strspn (fuel : nat) (string skip : Z) : M memory Z := span_loop false fuel string skip 0.

Fixpoint strpbrk (fuel : nat) (string stop : Z) : M memory Z :=
  match fuel with
  | O => nofuel
  | S fuel' =>
    x ← load string;
    if x =? 0 then mret NULL else
    p ← strchr fuel stop x;
    if negb (p =? NULL) then mret string else strpbrk fuel' (string + 1) stop
  end.

Fixpoint strrchr_loop (fuel : nat) (string c p : Z) : M memory Z :=
  match fuel with
  | O => nofuel
  | S fuel =>
    x ← load string;
    if x =? 0 then mret p
    else strrchr_loop fuel (string + 1) c (if x =? c then string else p)
  end.
Definition strrchr (fuel : nat) (string c_ : Z) : M memory Z :=
  strrchr_loop fuel string (u8 c_) NULL.

Definition memset (dst_ value size : Z) : M memory Z :=
  assert_block dst_ size;;
  (fix loop (n : nat) (dst : Z) : M memory unit :=
     match n with O => mret tt | S n => store dst (u8 value);; loop n (dst + 1) end)
    (Z.to_nat size) dst_;;
  mret dst_.

Fixpoint strlen_loop (fuel : nat) (p : Z) : M memory Z :=
  match fuel with
  | O => nofuel
  | S fuel => x ← load p; if x =? 0 then mret p else strlen_loop fuel (p + 1)
  end.
Definition strlen (fuel : nat) (string : Z) : M memory Z :=
  assert (negb (string =? NULL));; p ← strlen_loop fuel string; mret (p - string).

Fixpoint strnlen_loop (fuel : nat) (string maxlen length : Z) : M memory Z :=
  match fuel with
  | O => nofuel
  | S fuel =>
    x ← load (string + length);
    if negb (x =? 0) && (length <? maxlen) then strnlen_loop fuel string maxlen (length + 1)
    else mret length
  end.
Definition strnlen (fuel : nat) (string maxlen : Z) : M memory Z := strnlen_loop fuel string maxlen 0.

(** for (i = 0; i <= haystack_len - needle_len; i++), [n] iterations left. *)
Fixpoint strstr_loop (n : nat) (haystack needle needle_len i : Z) : M memory Z :=
  match n with
  | O => mret NULL
  | S n =>
    c ← memcmp (haystack + i) needle needle_len;
    if c =? 0 then mret (haystack + i) else strstr_loop n haystack needle needle_len (i + 1)
  end.
Definition strstr (fuel : nat) (haystack needle : Z) : M memory Z :=
  haystack_len ← strlen fuel haystack;
  needle_len ← strlen fuel needle;
  if needle_len <=? haystack_len then
    strstr_loop (Z.to_nat (haystack_len - needle_len + 1)) haystack needle needle_len 0
  else mret NULL.

Definition strlcpy (fuel : nat) (dst src size : Z) : M memory Z :=
  assert (negb (dst =? NULL));; assert (negb (src =? NULL));;
  src_len ← strlen fuel src;
  (if 0 <? size then
     let dst_len := size - 1 in
     let dst_len := if src_len <? dst_len then src_len else dst_len in
     _ ← memcpy dst src dst_len;
     store (dst + dst_len) 0
   else mret tt);;
  mret src_len.
Definition strlcat (fuel : nat) (dst src size : Z) : M memory Z :=
  assert (negb (dst =? NULL));; assert (negb (src =? NULL));;
  src_len ← strlen fuel src;
  dst_len ← strlen fuel dst;
  (if (0 <? size) && (dst_len <? size) then
     let copy_cnt := size - dst_len - 1 in
     let copy_cnt := if src_len <? copy_cnt then src_len else copy_cnt in
     _ ← memcpy (dst + dst_len) src copy_cnt;
     store (dst + dst_len + copy_cnt) 0
   else mret tt);;
  mret (u32 (src_len + dst_len)).

(** Skipping delimiters: the first other character, or [None] at the end of the
    string with the position of the null byte. *)
Fixpoint strtok_skip (fuel : nat) (s delimiters : Z) : M memory (Z * bool) :=
  match fuel with
  | O => nofuel
  | S fuel' =>
    x ← load s; p ← strchr fuel delimiters x;
    if negb (p =? NULL) then
      if x =? 0 then mret (s, false) else strtok_skip fuel' (s + 1) delimiters
    else mret (s, true)
  end.
Fixpoint strtok_token (fuel : nat) (s delimiters : Z) : M memory Z :=
  match fuel with
  | O => nofuel
  | S fuel' =>
    x ← load s; p ← strchr fuel delimiters x;
    if p =? NULL then strtok_token fuel' (s + 1) delimiters else mret s
  end.
(** Returns the token and the new *save_ptr. *)
Definition strtok_r (fuel : nat) (s delimiters save : Z) : M memory (Z * Z) :=
  assert (negb (delimiters =? NULL));;
  let s := if s =? NULL then save else s in
  assert (negb (s =? NULL));;
  '(s, more) ← strtok_skip fuel s delimiters;
  if negb more then mret (NULL, s) else
  let token := s in
  s ← strtok_token fuel s delimiters;
  x ← load s;
  if negb (x =? 0) then store s 0;; mret (token, s + 1) else mret (token, s).

(** ** Blocks of memory *)

Definition mapped (m : memory) (a n : Z) : Prop := ∀ i, 0 ≤ i < n → is_Some (m !! (a + i)).
(** [m'] is [m] with the [n] bytes at [src] copied to [dst]. *)
Definition copied (n dst src : Z) (m m' : memory) : Prop :=
  ∀ q, m' !! q = if (dst <=? q) && (q <? dst + n) then m !! (src + (q - dst)) else m !! q.

Lemma wp_load_byte m a v Q : m !! a = Some v → Q v m → wp (load a) m Q.
Proof. intros E HQ. unfold load. repeat wp_step. by apply (wp_from_option _ v). Qed.
Lemma wp_store m a v Q : is_Some (m !! a) → Q tt (<[a := v]> m) → wp (store a v) m Q.
Proof. intros [x E] HQ. unfold store. wp_step. by apply (wp_load_byte _ _ x); [|wp_step]. Qed.

Lemma mapped_insert m a n b v : mapped m a n → mapped (<[b := v]> m) a n.
Proof. intros Hm i Hi. destruct (Hm i Hi) as [x ?]. rewrite lookup_insert. case_decide; eauto. Qed.

Lemma wp_copy_up n m dst src Q :
  mapped m src (Z.of_nat n) → mapped m dst (Z.of_nat n) →
  ¬ (src < dst < src + Z.of_nat n) →
  (∀ m', copied (Z.of_nat n) dst src m m' → Q (dst + Z.of_nat n) m') →
  wp (copy_up n dst src) m Q.
Proof.
  revert m dst src Q; induction n as [|n IH]; intros m dst src Q Hs Hd Hno HQ; cbn [copy_up].
  { wp_step. rewrite Z.add_0_r in HQ. apply HQ. intros q.
    destruct (Z.leb_spec dst q), (Z.ltb_spec q (dst + Z.of_nat 0)); simpl; lia || done. }
  destruct (Hs 0 ltac:(lia)) as [c Ec]. rewrite Z.add_0_r in Ec.
  wp_step. apply (wp_load_byte _ _ c); [done|]. wp_step. apply wp_store.
  { rewrite <-(Z.add_0_r dst). apply Hd. lia. }
  apply IH.
  - apply mapped_insert. intros i Hi. rewrite <-Z.add_assoc. apply Hs. lia.
  - apply mapped_insert. intros i Hi. rewrite <-Z.add_assoc. apply Hd. lia.
  - lia.
  - intros m' Hc. replace (dst + 1 + Z.of_nat n) with (dst + Z.of_nat (S n)) in * by lia.
    apply HQ. intros q. rewrite Hc. replace (dst + 1 + Z.of_nat n) with (dst + Z.of_nat (S n)) by lia.
    destruct (Z.leb_spec (dst + 1) q), (Z.leb_spec dst q), (Z.ltb_spec q (dst + Z.of_nat (S n)));
      simpl; try lia; try (rewrite lookup_insert_ne by lia; f_equal; lia).
    replace q with dst by lia. rewrite lookup_insert_eq, <-Ec. f_equal. lia.
Qed.

Lemma wp_copy_down n m dst src Q :
  mapped m src (Z.of_nat n) → mapped m dst (Z.of_nat n) →
  ¬ (dst < src < dst + Z.of_nat n) →
  (∀ m', copied (Z.of_nat n) dst src m m' → Q dst m') →
  wp (copy_down n (dst + Z.of_nat n) (src + Z.of_nat n)) m Q.
Proof.
  revert m Q; induction n as [|n IH]; intros m Q Hs Hd Hno HQ; cbn [copy_down].
  { wp_step. rewrite Z.add_0_r. apply HQ. intros q.
    destruct (Z.leb_spec dst q), (Z.ltb_spec q (dst + Z.of_nat 0)); simpl; lia || done. }
  destruct (Hs (Z.of_nat n) ltac:(lia)) as [c Ec].
  replace (dst + Z.of_nat (S n) - 1) with (dst + Z.of_nat n) by lia.
  replace (src + Z.of_nat (S n) - 1) with (src + Z.of_nat n) by lia.
  wp_step. apply (wp_load_byte _ _ c); [done|]. wp_step. apply wp_store; [apply Hd; lia|].
  apply IH.
  - apply mapped_insert. intros i Hi. apply Hs. lia.
  - apply mapped_insert. intros i Hi. apply Hd. lia.
  - lia.
  - intros m' Hc. apply HQ. intros q. rewrite Hc.
    destruct (Z.leb_spec dst q), (Z.ltb_spec q (dst + Z.of_nat n)), (Z.ltb_spec q (dst + Z.of_nat (S n)));
      simpl; try lia; try (rewrite lookup_insert_ne by lia; done).
    replace q with (dst + Z.of_nat n) by lia. rewrite lookup_insert_eq, <-Ec. f_equal. lia.
Qed.

Lemma wp_memcpy m dst src n Q :
  0 ≤ n → dst ≠ NULL → src ≠ NULL → mapped m src n → mapped m dst n →
  ¬ (src < dst < src + n) →
  (∀ m', copied n dst src m m' → Q dst m') →
  wp (memcpy dst src n) m Q.
Proof.
  intros Hn Hd Hs Hms Hmd Hno HQ. unfold memcpy, assert_block.
  rewrite (proj2 (Z.eqb_neq _ _) Hd), (proj2 (Z.eqb_neq _ _) Hs). repeat wp_step; [done..|].
  apply wp_copy_up; rewrite ?Z2Nat.id by done; done.
Qed.

(** memmove copies any two blocks, overlapping or not: afterwards DST holds
    the bytes that SRC held before, and every other byte is as it was.  (It
    returns DST when it copies downwards, and the end of the block otherwise.) *)
Theorem memmove_correct (m : memory) (dst src n : Z) :
  0 ≤ n → dst ≠ NULL → src ≠ NULL → mapped m src n → mapped m dst n →
  wp (memmove dst src n) m (λ r m', copied n dst src m m' ∧
    r = if dst <? src then dst + n else dst).
Proof.
  intros Hn Hd Hs Hms Hmd. unfold memmove, assert_block.
  rewrite (proj2 (Z.eqb_neq _ _) Hd), (proj2 (Z.eqb_neq _ _) Hs). repeat wp_step; [done..|].
  destruct (Z.ltb_spec dst src).
  - apply wp_copy_up; rewrite ?Z2Nat.id by done; [done|done|lia|]. intros m' Hm'. by split.
  - pose proof (wp_copy_down (Z.to_nat n) m dst src) as Hcd. rewrite Z2Nat.id in Hcd by done.
    apply Hcd; [done..|lia|]. intros m' Hm'. by split.
Qed.

Definition block (a : Z) (bs : list Z) : memory :=
  list_to_map (zip (Z.add a ∘ Z.of_nat <$> seq 0 (length bs)) bs).

Lemma memmove_correct_witness :
  wp (memmove 12 10 4) (block 10 [1; 2; 3; 4; 5; 6]) (λ r m',
    copied 4 12 10 (block 10 [1; 2; 3; 4; 5; 6]) m' ∧ r = 12) ∧
  match memmove 12 10 4 (block 10 [1; 2; 3; 4; 5; 6]) with
  | Ok (_, m') => m' = block 10 [1; 2; 1; 2; 3; 4] | _ => False end.
Proof.
  split; [|by vm_compute]. apply (memmove_correct _ 12 10 4); [done..| |].
  - intros i Hi. assert (i = 0 ∨ i = 1 ∨ i = 2 ∨ i = 3) as Hc by lia.
    by destruct Hc as [->|[->|[->| ->]]]; vm_compute; eauto.
  - intros i Hi. assert (i = 0 ∨ i = 1 ∨ i = 2 ∨ i = 3) as Hc by lia.
    by destruct Hc as [->|[->|[->| ->]]]; vm_compute; eauto.
Defined.

(** ** Strings *)

(** The string [s] is at [a]. *)
Fixpoint cstr (m : memory) (a : Z) (s : list Z) : Prop :=
  match s with
  | [] => m !! a = Some 0
  | c :: s => m !! a = Some c ∧ 0 < c < 256 ∧ cstr m (a + 1) s
  end.

(** The first character of a string, or its null byte. *)
Definition char0 (s : list Z) : Z := match s with [] => 0 | c :: _ => c end.
Lemma cstr_load m a s : cstr m a s → m !! a = Some (char0 s).
Proof. destruct s; simpl; [done|]. by intros [? _]. Qed.

Lemma cstr_app m a s t :
  cstr m a (s ++ t) ↔ (∀ i c, s !! i = Some c → m !! (a + Z.of_nat i) = Some c ∧ 0 < c < 256) ∧
    cstr m (a + Z.of_nat (length s)) t.
Proof.
  revert a; induction s as [|c s IH]; intros a; simpl.
  - rewrite Z.add_0_r. naive_solver.
  - rewrite IH. replace (a + 1 + Z.of_nat (length s)) with (a + Z.of_nat (S (length s))) by lia. split.
    + intros (Ha & Hc & Hs & Ht). split; [|done]. intros [|i] c' E; simplify_eq/=.
      * by rewrite Z.add_0_r.
      * destruct (Hs i c' E) as [Hi ?]. split; [|done]. rewrite <-Hi. f_equal. lia.
    + intros (Hs & Ht). destruct (Hs 0%nat c eq_refl) as [H0 ?]. rewrite Z.add_0_r in H0.
      split_and!; [done|lia|lia| |done]. intros i c' E. destruct (Hs (S i) c' E) as [Hi ?].
      split; [|done]. rewrite <-Hi. f_equal. lia.
Qed.

Lemma cstr_lookup m a s i c : cstr m a s → s !! i = Some c → m !! (a + Z.of_nat i) = Some c.
Proof.
  intros Hs Hi. rewrite <-(app_nil_r s) in Hs. apply cstr_app in Hs as [Hs _]. by apply Hs.
Qed.

Lemma cstr_frame m m' a s :
  (∀ i, 0 ≤ i ≤ Z.of_nat (length s) → m' !! (a + i) = m !! (a + i)) → cstr m a s → cstr m' a s.
Proof.
  revert a; induction s as [|c s IH]; intros a Hm; simpl.
  - intros <-. specialize (Hm 0). rewrite Z.add_0_r in Hm. apply Hm. simpl; lia.
  - intros (Ha & Hc & Hs). split; [|split; [done|]].
    + rewrite <-Ha. specialize (Hm 0). rewrite Z.add_0_r in Hm. apply Hm. simpl; lia.
    + apply IH; [|done]. intros i Hi. rewrite <-!Z.add_assoc. apply Hm. simpl; lia.
Qed.

Lemma cstr_mapped m a s : cstr m a s → mapped m a (Z.of_nat (length s) + 1).
Proof.
  revert a; induction s as [|c s IH]; intros a Hs i Hi; simpl in *.
  - replace (a + i) with a by lia. eauto.
  - destruct Hs as (Ha & _ & Hs). destruct (decide (i = 0)) as [->|]; [rewrite Z.add_0_r; eauto|].
    replace (a + i) with (a + 1 + (i - 1)) by lia. apply (IH _ Hs). lia.
Qed.

Lemma cstr_bytes m a s : cstr m a s → Forall (λ c, 0 < c < 256) s.
Proof. revert a; induction s as [|c s IH]; intros a; [constructor|]. intros (_&?&?). constructor; eauto. Qed.

Lemma nonnull a : 0 < a → (a =? NULL) = false.
Proof. intros. apply Z.eqb_neq. unfold NULL. lia. Qed.

(** The branch that looks at the current character. *)
Ltac load_char c := wp_step; apply (wp_load_byte _ _ c); [by eauto using cstr_load|].

Section strings.
Context (m : memory).

Lemma wp_strlen_loop fuel a s Q :
  cstr m a s → (length s < fuel)%nat → Q (a + Z.of_nat (length s)) m → wp (strlen_loop fuel a) m Q.
Proof.
  revert a s; induction fuel as [|fuel IH]; intros a s Hs Hf HQ; [lia|]. cbn [strlen_loop].
  wp_step. apply (wp_load_byte _ _ _ _ (cstr_load _ _ _ Hs)). destruct s as [|c s]; simpl in *.
  - rewrite Z.add_0_r in HQ. by wp_step.
  - destruct Hs as (_ & Hc & Hs). rewrite (proj2 (Z.eqb_neq c 0)) by lia.
    apply (IH _ s); [done|lia|]. by replace (a + 1 + Z.of_nat (length s)) with (a + Z.of_nat (S (length s))) by lia.
Qed.
Lemma wp_strlen fuel a s Q :
  0 < a → cstr m a s → (length s < fuel)%nat → Q (Z.of_nat (length s)) m → wp (strlen fuel a) m Q.
Proof.
  intros Ha Hs Hf HQ. unfold strlen. rewrite nonnull by done. repeat wp_step; [done|].
  apply (wp_strlen_loop _ _ s); [done..|]. wp_step.
  by replace (a + Z.of_nat (length s) - a) with (Z.of_nat (length s)) by lia.
Qed.

(** strchr finds the characters of the string and its null byte. *)
Fixpoint find_char (c : Z) (s : list Z) : option nat :=
  match s with
  | [] => if 0 =? c then Some 0%nat else None
  | x :: s => if x =? c then Some 0%nat else S <$> find_char c s
  end.
Lemma wp_strchr_loop fuel a s c Q :
  cstr m a s → (length s < fuel)%nat →
  Q (match find_char c s with Some i => a + Z.of_nat i | None => NULL end) m →
  wp (strchr_loop fuel a c) m Q.
Proof.
  revert a s Q; induction fuel as [|fuel IH]; intros a s Q Hs Hf HQ; [lia|]. cbn [strchr_loop].
  wp_step. apply (wp_load_byte _ _ _ _ (cstr_load _ _ _ Hs)). destruct s as [|x s]; cbn [find_char] in HQ; cbn [char0].
  - rewrite Z.eqb_refl. destruct (0 =? c); wp_step; [by rewrite Z.add_0_r in HQ|done].
  - destruct Hs as (_ & Hc & Hs). destruct (x =? c); [wp_step; by rewrite Z.add_0_r in HQ|].
    rewrite (proj2 (Z.eqb_neq x 0)) by lia. apply (IH _ s); [done|simpl in Hf; lia|].
    destruct (find_char c s) as [i|]; [|done]. simpl in HQ.
    by replace (a + 1 + Z.of_nat i) with (a + Z.of_nat (S i)) by lia.
Qed.
Lemma wp_strchr fuel a s c Q :
  0 < a → cstr m a s → (length s < fuel)%nat → 0 ≤ c < 256 →
  Q (match find_char c s with Some i => a + Z.of_nat i | None => NULL end) m →
  wp (strchr fuel a c) m Q.
Proof.
  intros Ha Hs Hf Hc HQ. unfold strchr. rewrite nonnull by done. repeat wp_step; [done|].
  rewrite wrap_small by lia. by apply (wp_strchr_loop _ _ s).
Qed.
Lemma find_char_Some c s : (∃ i, find_char c s = Some i) ↔ c ∈ s ∨ c = 0.
Proof.
  induction s as [|x s IH]; cbn [find_char].
  - destruct (Z.eqb_spec 0 c) as [<-|]; split; intros H; [by right|by exists 0%nat|by destruct H|].
    destruct H as [H|H]; [by apply elem_of_nil in H|congruence].
  - rewrite elem_of_cons. destruct (Z.eqb_spec x c); [naive_solver|].
    split.
    + intros [i Hi]. destruct (find_char c s) as [j|] eqn:E; [|done]. naive_solver.
    + intros [[?|?]|?]; [done|..]; destruct (proj2 IH) as [i ->]; simpl; eauto.
Qed.
End strings.

(** Whether [x] is a delimiter or the null byte. *)
Definition is_stop (ds : list Z) (x : Z) : bool := bool_decide (x ∈ ds ∨ x = 0).
Lemma wp_strchr_stop m fuel d ds x Q :
  0 < d → cstr m d ds → (length ds < fuel)%nat → 0 ≤ x < 256 →
  (∀ p, (p =? NULL) = negb (is_stop ds x) → Q p m) → wp (strchr fuel d x) m Q.
Proof.
  intros Hd Hs Hf Hx HQ. apply (wp_strchr m fuel d ds); [done..|]. apply HQ.
  pose proof (find_char_Some x ds) as Hfc. unfold is_stop.
  destruct (find_char x ds) as [i|].
  - rewrite bool_decide_true by (apply Hfc; eauto). apply nonnull. lia.
  - by rewrite bool_decide_false by (intros [i ?]%Hfc; done).
Qed.

(** ** strtok_r *)

(** The maximal prefix whose characters satisfy [p], and the rest. *)
Fixpoint span (p : Z → bool) (s : list Z) : list Z * list Z :=
  match s with
  | [] => ([], [])
  | c :: s' => if p c then let '(a, b) := span p s' in (c :: a, b) else ([], s)
  end.

(** The maximal runs of characters that are not in [ds]: [cur] is the current one. *)
Fixpoint words_from (ds cur s : list Z) : list (list Z) :=
  match s with
  | [] => if decide (cur = []) then [] else [cur]
  | c :: s =>
    if decide (c ∈ ds) then
      if decide (cur = []) then words_from ds [] s else cur :: words_from ds [] s
    else words_from ds (cur ++ [c]) s
  end.
Definition words (ds s : list Z) : list (list Z) := words_from ds [] s.

Section words.
Context (ds : list Z).
Definition is_delim (c : Z) : bool := bool_decide (c ∈ ds).

Lemma span_app p s : s = (span p s).1 ++ (span p s).2.
Proof.
  induction s as [|c s IH]; [done|]. simpl. destruct (p c); [|done].
  destruct (span p s); simpl in *. by rewrite IH at 1.
Qed.
Lemma span_fst p s : Forall (λ c, p c = true) (span p s).1.
Proof.
  induction s as [|c s IH]; simpl; [constructor|]. destruct (p c) eqn:E; [|constructor].
  destruct (span p s); simpl in *. by constructor.
Qed.
Lemma span_snd p s c r : (span p s).2 = c :: r → p c = false.
Proof.
  induction s as [|x s IH]; simpl; [done|]. destruct (p x) eqn:E.
  - destruct (span p s); simpl in *. done.
  - by intros [= <- _].
Qed.

Lemma words_from_delims cs s :
  Forall (λ c, is_delim c = true) cs → words_from ds [] (cs ++ s) = words_from ds [] s.
Proof.
  induction 1 as [|c cs Hc _ IH]; [done|]. simpl. apply bool_decide_eq_true in Hc.
  by rewrite decide_True by done.
Qed.
Lemma words_from_token cur cs s :
  Forall (λ c, is_delim c = false) cs → words_from ds cur (cs ++ s) = words_from ds (cur ++ cs) s.
Proof.
  intros H. revert cur. induction H as [|c cs Hc _ IH]; intros cur; simpl; [by rewrite app_nil_r|].
  apply bool_decide_eq_false in Hc. rewrite decide_False by done.
  by rewrite IH, <-app_assoc.
Qed.

(** A string without its leading delimiters and its first word. *)
Lemma words_step s :
  let '(cs, s1) := span is_delim s in
  let '(tok, s2) := span (λ c, negb (is_delim c)) s1 in
  s = cs ++ tok ++ s2 ∧
  words ds s = (if decide (tok = []) then [] else tok :: words ds (drop 1 s2)) ∧
  (tok = [] → s2 = []) ∧ Forall (λ c, is_delim c = true) cs ∧ Forall (λ c, is_delim c = false) tok ∧
  (∀ c r, s2 = c :: r → is_delim c = true) ∧ (∀ c r, s1 = c :: r → is_delim c = false).
Proof.
  pose proof (span_app is_delim s) as E1. pose proof (span_fst is_delim s) as F1.
  pose proof (span_snd is_delim s) as S1. destruct (span is_delim s) as [cs s1]; simpl in *.
  pose proof (span_app (λ c, negb (is_delim c)) s1) as E2.
  pose proof (span_fst (λ c, negb (is_delim c)) s1) as F2.
  pose proof (span_snd (λ c, negb (is_delim c)) s1) as S2.
  destruct (span (λ c, negb (is_delim c)) s1) as [tok s2]; simpl in *. subst s1 s.
  assert (Forall (λ c, is_delim c = false) tok) as F2'.
  { eapply Forall_impl; [done|]. simpl. by intros c ?%negb_true_iff. }
  assert (∀ c r, s2 = c :: r → is_delim c = true) as S2'.
  { intros c r E. by apply negb_false_iff, (S2 c r). }
  assert (tok = [] → s2 = []) as Hnil.
  { intros ->. destruct s2 as [|c r]; [done|]. specialize (S1 c r eq_refl).
    by rewrite (S2' c r eq_refl) in S1. }
  split_and!; [done| |done..]. unfold words.
  rewrite words_from_delims, words_from_token by done. simpl. case_decide as Ht.
  - subst tok. by rewrite Hnil.
  - destruct s2 as [|c r]; simpl; [by rewrite decide_False|].
    specialize (S2' c r eq_refl). apply bool_decide_eq_true in S2'.
    by rewrite decide_True, decide_False by done.
Qed.
End words.

Section strtok.
Context (d : Z) (ds : list Z) (Hd : 0 < d).
Local Notation isd := (is_delim ds).

Lemma is_stop_char c : 0 < c → is_stop ds c = isd c.
Proof. intros. apply bool_decide_ext. naive_solver lia. Qed.

Lemma wp_strtok_skip m fuel a s Q :
  cstr m d ds → cstr m a s → (length s + length ds < fuel)%nat →
  (let '(cs, s1) := span isd s in
   Q (a + Z.of_nat (length cs), negb (bool_decide (s1 = []))) m) →
  wp (strtok_skip fuel a d) m Q.
Proof.
  intros Hds. revert a s Q; induction fuel as [|fuel IH]; intros a s Q Hs Hf HQ; [lia|].
  cbn [strtok_skip]. wp_step. apply (wp_load_byte _ _ _ _ (cstr_load _ _ _ Hs)). wp_step.
  destruct s as [|c s]; cbn [char0].
  - apply (wp_strchr_stop _ _ _ ds); [done|done|lia|lia|]. intros p ->.
    unfold is_stop. rewrite bool_decide_true by auto. simpl. wp_step. simpl in HQ.
    by rewrite Z.add_0_r in HQ.
  - destruct Hs as (_ & Hc & Hs). apply (wp_strchr_stop _ _ _ ds); [done|done|simpl in Hf; lia|lia|].
    intros p ->. rewrite is_stop_char, negb_involutive by lia. simpl in HQ.
    destruct (isd c).
    + rewrite (proj2 (Z.eqb_neq c 0)) by lia. apply (IH _ s); [done|simpl in Hf; lia|].
      destruct (span isd s) as [cs s1]. simpl in HQ.
      by replace (a + 1 + Z.of_nat (length cs)) with (a + Z.of_nat (S (length cs))) by lia.
    + wp_step. simpl in HQ. by rewrite Z.add_0_r in HQ.
Qed.

Lemma wp_strtok_token m fuel a s Q :
  cstr m d ds → cstr m a s → (length s + length ds < fuel)%nat →
  Q (a + Z.of_nat (length (span (λ c, negb (isd c)) s).1)) m →
  wp (strtok_token fuel a d) m Q.
Proof.
  intros Hds. revert a s Q; induction fuel as [|fuel IH]; intros a s Q Hs Hf HQ; [lia|].
  cbn [strtok_token]. wp_step. apply (wp_load_byte _ _ _ _ (cstr_load _ _ _ Hs)). wp_step.
  destruct s as [|c s]; cbn [char0].
  - apply (wp_strchr_stop _ _ _ ds); [done|done|lia|lia|]. intros p ->.
    unfold is_stop. rewrite bool_decide_true by auto. simpl. wp_step. simpl in HQ.
    by rewrite Z.add_0_r in HQ.
  - destruct Hs as (_ & Hc & Hs). apply (wp_strchr_stop _ _ _ ds); [done|done|simpl in Hf; lia|lia|].
    intros p ->. rewrite is_stop_char by lia. simpl in HQ. destruct (isd c); simpl in *.
    + wp_step. by rewrite Z.add_0_r in HQ.
    + apply (IH _ s); [done|lia|]. destruct (span _ s) as [tok s2]. simpl in *.
      by replace (a + 1 + Z.of_nat (length tok)) with (a + Z.of_nat (S (length tok))) by lia.
Qed.

(** One call, in terms of the leading delimiters [cs], the token [tok] and the
    rest [s2] of the string. *)
Lemma wp_strtok_r m fuel s0 save a s cs s1 tok s2 Q :
  cstr m d ds → cstr m a s → 0 < a → (if s0 =? NULL then save else s0) = a →
  (length s + length ds < fuel)%nat →
  span isd s = (cs, s1) → span (λ c, negb (isd c)) s1 = (tok, s2) →
  (tok = [] → Q (NULL, a + Z.of_nat (length cs)) m) →
  (tok ≠ [] → s2 = [] →
     Q (a + Z.of_nat (length cs), a + Z.of_nat (length cs) + Z.of_nat (length tok)) m) →
  (∀ c r, tok ≠ [] → s2 = c :: r →
     Q (a + Z.of_nat (length cs), a + Z.of_nat (length cs) + Z.of_nat (length tok) + 1)
       (<[a + Z.of_nat (length cs) + Z.of_nat (length tok) := 0]> m)) →
  wp (strtok_r fuel s0 d save) m Q.
Proof.
  intros Hds Hs Ha Es Hf E1 E2 Q0 Q1 Q2. pose proof (words_step ds s) as W.
  rewrite E1, E2 in W. destruct W as (Es' & _ & Hnil & Fc & Ft & _ & Hs1).
  pose proof (span_app isd s) as E1'. rewrite E1 in E1'. simpl in E1'.
  pose proof (span_app (λ c, negb (isd c)) s1) as E2'. rewrite E2 in E2'. simpl in E2'.
  assert (cstr m (a + Z.of_nat (length cs)) s1) as Hcs1.
  { rewrite E1' in Hs. by apply cstr_app in Hs as [_ ?]. }
  assert (cstr m (a + Z.of_nat (length cs) + Z.of_nat (length tok)) s2) as Hcs2.
  { rewrite E2' in Hcs1. by apply cstr_app in Hcs1 as [_ ?]. }
  unfold strtok_r. rewrite (nonnull d) by done. wp_step. wp_step; [done|]. cbv zeta.
  rewrite Es, (nonnull a) by done.
  wp_step. wp_step; [done|]. wp_step. apply (wp_strtok_skip _ _ _ s); [done..|]. rewrite E1. cbv iota beta.
  destruct s1 as [|c1 s1].
  { rewrite bool_decide_true by done. simpl negb. cbv iota. wp_step. apply Q0.
    simpl in E2. by simplify_eq. }
  rewrite bool_decide_false by done. simpl negb. cbv iota.
  assert (tok ≠ []) as Ht.
  { simpl in E2. rewrite (Hs1 c1 s1 eq_refl) in E2. simpl in E2. destruct (span _ s1). by simplify_eq. }
  assert (length s = length cs + length (c1 :: s1))%nat as El by (by rewrite E1', length_app).
  wp_step. apply (wp_strtok_token _ _ _ (c1 :: s1)); [done|done|lia|]. rewrite E2. cbn [fst].
  wp_step. apply (wp_load_byte _ _ _ _ (cstr_load _ _ _ Hcs2)). destruct s2 as [|c r]; cbn [char0].
  - rewrite Z.eqb_refl. cbn [negb]. wp_step. by apply Q1.
  - destruct Hcs2 as (Hc & Hc0 & _). rewrite (proj2 (Z.eqb_neq c 0)) by lia. simpl negb. cbv iota.
    wp_step. apply wp_store; [by eauto|]. wp_step. by apply (Q2 c r).
Qed.
End strtok.

(** ** Tokenizing a whole string

    The loop of strtok_r's comment: the tokens it visits. *)
Fixpoint tokenize_loop (n fuel : nat) (delimiters token save : Z) : M memory (list Z) :=
  if token =? NULL then mret [] else
  match n with
  | O => nofuel
  | S n =>
    '(next, save) ← strtok_r fuel NULL delimiters save;
    ts ← tokenize_loop n fuel delimiters next save;
    mret (token :: ts)
  end.
Definition tokenize (n fuel : nat) (s delimiters : Z) : M memory (list Z) :=
  '(token, save) ← strtok_r fuel s delimiters NULL;
  ts ← tokenize_loop n fuel delimiters token save;
  mret ts.

(** [m'] and [m] agree outside of the [n] bytes at [a]. *)
Definition same_except (a n : Z) (m m' : memory) : Prop := ∀ q, ¬ (a ≤ q < a + n) → m' !! q = m !! q.

Section tokenize.
Context (d : Z) (ds : list Z) (Hd : 0 < d).
Local Notation len l := (Z.of_nat (length l)).

(** Ending a string early. *)
Lemma cstr_cut m a s t :
  cstr m a (s ++ t) → cstr (<[a + len s := 0]> m) a s.
Proof.
  intros [Hs _]%cstr_app. rewrite <-(app_nil_r s) at 2. apply cstr_app. split.
  - intros i c Hi. pose proof (lookup_lt_Some _ _ _ Hi). rewrite lookup_insert_ne by lia. by apply Hs.
  - simpl. apply lookup_insert_eq.
Qed.

(** The tokenizer before the call that looks at the string [s] at [a]. *)
Lemma wp_tokenize_call {B} m n fuel s0 save a s (k : list Z → M memory B) Q :
  cstr m d ds → cstr m a s → 0 < a → (if s0 =? NULL then save else s0) = a →
  (d + len ds < a ∨ a + len s < d) →
  (length s + length ds < fuel)%nat → (length s < n)%nat →
  (∀ m' ts, same_except a (len s) m m' → Forall2 (cstr m') ts (words ds s) →
     wp (k ts) m' Q) →
  wp ('(token, save) ← strtok_r fuel s0 d save;
      ts ← tokenize_loop n fuel d token save; k ts) m Q.
Proof.
  revert B m s0 save a s k Q.
  induction n as [|n IH]; intros B m s0 save a s k Q Hds Hs Ha Es Hsep Hf Hn HQ; [lia|].
  pose proof (words_step ds s) as W. destruct (span (is_delim ds) s) as [cs s1] eqn:E1.
  destruct (span _ s1) as [tok s2] eqn:E2. destruct W as (E & Ew & Hnil & Fc & Ft & Hs2 & _).
  assert (length s = length cs + (length tok + length s2))%nat as El by (rewrite E, !length_app; lia).
  assert (cstr m (a + len cs) (tok ++ s2)) as Htok by (rewrite E in Hs; by apply cstr_app in Hs as [_ ?]).
  assert (cstr m (a + len cs + len tok) s2) as Hrest by (by apply cstr_app in Htok as [_ ?]).
  wp_step. apply (wp_strtok_r d ds Hd m fuel s0 save a s cs s1 tok s2); [done..| | |].
  - intros ->. cbv beta iota. wp_step. cbn [tokenize_loop]. rewrite Z.eqb_refl. wp_step.
    apply HQ; [done|]. rewrite Ew. constructor.
  - intros Ht ->. cbv beta iota. wp_step. cbn [tokenize_loop]. rewrite nonnull by lia.
    rewrite decide_False in Ew by done. rewrite app_nil_r in Htok.
    assert (0 < length tok)%nat by (destruct tok; [done|simpl; lia]).
    apply (IH _ m NULL (a + len cs + len tok) (a + len cs + len tok) []); simpl in *; [done|done|lia|done|lia|lia|lia|].
    intros m' ts Hm' Hts. wp_step. apply HQ; [intros q Hq; apply Hm'; lia|]. rewrite Ew.
    constructor; [|done]. eapply cstr_frame; [|done]. intros i Hi. apply Hm'. lia.
  - intros c r Ht ->. cbv beta iota. wp_step. cbn [tokenize_loop]. rewrite nonnull by lia.
    rewrite decide_False in Ew by done. simpl in *. destruct Hrest as (_ & _ & Hrest).
    set (pos := a + len cs + len tok) in *. set (m1 := <[pos := 0]> m) in *.
    assert (∀ q, q ≠ pos → m1 !! q = m !! q) as Hm1 by (intros q ?; by apply lookup_insert_ne).
    apply (IH _ m1 NULL (pos + 1) (pos + 1) r); [| |lia|done|lia|lia|lia|].
    + eapply cstr_frame; [|done]. intros i Hi. apply Hm1. lia.
    + eapply cstr_frame; [|done]. intros i Hi. apply Hm1. lia.
    + intros m' ts Hm' Hts. wp_step. apply HQ.
      * intros q Hq. rewrite Hm' by lia. apply Hm1. lia.
      * rewrite Ew. constructor; [|done]. apply (cstr_frame m1).
        { intros i Hi. apply Hm'. lia. }
        by apply (cstr_cut m _ tok (c :: r)).
Qed.
End tokenize.

(** Tokenizing a string with strtok_r, as its comment shows, ends and visits
    the maximal runs of characters that are not delimiters, in order: when the
    loop is over each token is a string of its own in memory, and no byte outside
    of the string is written. *)
Theorem strtok_r_tokenizes (m : memory) (n fuel : nat) (a d : Z) (s ds : list Z) :
  0 < a → 0 < d → cstr m a s → cstr m d ds →
  (d + Z.of_nat (length ds) < a ∨ a + Z.of_nat (length s) < d) →
  (length s < n)%nat → (length s + length ds < fuel)%nat →
  wp (tokenize n fuel a d) m (λ ts m',
    Forall2 (cstr m') ts (words ds s) ∧ same_except a (Z.of_nat (length s)) m m').
Proof.
  intros Ha Hd Hs Hds Hsep Hn Hf. unfold tokenize.
  apply (wp_tokenize_call d ds Hd m n fuel a NULL a s); [done|done|done|by rewrite nonnull|done..|].
  intros m' ts Hm' Hts. by wp_step.
Qed.

Lemma strtok_r_tokenizes_witness :
  wp (tokenize 10 20 100 200) (block 100 [32; 97; 98; 32; 32; 99; 0] ∪ block 200 [32; 0])
    (λ ts m', Forall2 (cstr m') ts [[97; 98]; [99]] ∧
      same_except 100 6 (block 100 [32; 97; 98; 32; 32; 99; 0] ∪ block 200 [32; 0]) m').
Proof.
  apply (strtok_r_tokenizes _ 10 20 100 200 [32; 97; 98; 32; 32; 99] [32]);
    [done|done| | |simpl; lia..]; simpl; by repeat (split; [by vm_compute|]); vm_compute.
Defined.

(** ** strcmp: the lexicographic order *)

Fixpoint lex (s t : list Z) : Z :=
  match s, t with
  | [], [] => 0
  | [], _ => -1
  | _, [] => 1
  | x :: s, y :: t => if x <? y then -1 else if y <? x then 1 else lex s t
  end.

(** strcmp compares two strings in lexicographic order of unsigned chars. *)
Theorem strcmp_lexicographic (m : memory) (fuel : nat) (a b : Z) (s t : list Z) :
  0 < a → 0 < b → cstr m a s → cstr m b t → (length s < fuel)%nat →
  wp (strcmp fuel a b) m (λ r m', r = lex s t ∧ m' = m).
Proof.
  intros Ha Hb Hs Ht Hf. unfold strcmp. rewrite !nonnull by done. repeat wp_step; [done..|].
  clear Ha Hb. revert a b t fuel Hs Ht Hf.
  induction s as [|x s IH]; intros a b t [|fuel] Hs Ht Hf; simpl in Hf; try lia;
    cbn [strcmp_loop]; wp_step; apply (wp_load_byte _ _ _ _ (cstr_load _ _ _ Hs)); cbn [char0]; wp_step.
  - rewrite Z.eqb_refl. wp_step. wp_step. apply (wp_load_byte _ _ _ _ (cstr_load _ _ _ Ht)). wp_step.
    destruct t as [|y t]; simpl; [done|]. destruct Ht as (_ & ? & _).
    by rewrite (proj2 (Z.ltb_lt 0 y)) by lia.
  - destruct Hs as (_ & Hx & Hs). rewrite (proj2 (Z.eqb_neq x 0)) by lia.
    wp_step. apply (wp_load_byte _ _ _ _ (cstr_load _ _ _ Ht)). wp_step.
    destruct t as [|y t]; cbn [char0].
    + rewrite (proj2 (Z.eqb_neq x 0)) by lia. wp_step. apply (wp_load_byte _ _ _ _ (cstr_load _ _ _ Ht)).
      wp_step. cbn [char0]. rewrite (proj2 (Z.ltb_ge x 0)), (proj2 (Z.ltb_lt 0 x)) by lia. done.
    + pose proof Ht as (Hy & _ & Ht'). cbn [lex]. destruct (Z.eqb_spec x y) as [->|Hne].
      * rewrite Z.ltb_irrefl. by apply IH; [..|lia].
      * wp_step. apply (wp_load_byte _ _ _ _ Hy). wp_step.
        destruct (Z.ltb_spec x y), (Z.ltb_spec y x); try done; lia.
Qed.

Lemma strcmp_lexicographic_witness :
  wp (strcmp 5 100 200) (block 100 [97; 200; 0] ∪ block 200 [97; 98; 99; 0])
    (λ r m', r = 1 ∧ m' = block 100 [97; 200; 0] ∪ block 200 [97; 98; 99; 0]).
Proof.
  apply (strcmp_lexicographic _ 5 100 200 [97; 200] [97; 98; 99]);
    [done|done| | |simpl; lia]; simpl; by repeat (split; [by vm_compute|]); vm_compute.
Defined.

(** ** strlcpy *)

(** strlcpy returns the length of SRC; if SIZE is not zero DST holds the
    first SIZE - 1 characters of SRC as a null-terminated string, and nothing
    outside of the SIZE bytes at DST is written. *)
Theorem strlcpy_correct (m : memory) (fuel : nat) (dst src size : Z) (s : list Z) :
  0 < dst → 0 < src → 0 ≤ size → cstr m src s → mapped m dst size →
  (dst + size ≤ src ∨ src + Z.of_nat (length s) < dst) → (length s < fuel)%nat →
  wp (strlcpy fuel dst src size) m (λ r m', r = Z.of_nat (length s) ∧
    same_except dst size m m' ∧ (0 < size → cstr m' dst (take (Z.to_nat (size - 1)) s))).
Proof.
  intros Hd Hs Hz Hc Hm Hsep Hf. unfold strlcpy. rewrite !nonnull by done. repeat wp_step; [done..|].
  apply (wp_strlen _ _ _ s); [done..|]. wp_step.
  destruct (Z.ltb_spec 0 size) as [Hp|]; [|wp_step; wp_step; split_and!; [done|done|lia]].
  set (n := if Z.of_nat (length s) <? size - 1 then Z.of_nat (length s) else size - 1).
  assert (0 ≤ n < size ∧ n ≤ Z.of_nat (length s)) as [Hn Hn'].
  { unfold n. destruct (Z.ltb_spec (Z.of_nat (length s)) (size - 1)); lia. }
  pose proof (cstr_mapped _ _ _ Hc) as Hmc. wp_step.
  apply wp_memcpy; [lia|unfold NULL; lia|unfold NULL; lia| | |lia|].
  { intros i Hi. apply Hmc. lia. }
  { intros i Hi. apply Hm. lia. }
  intros m1 Hm1. assert (∀ q, ¬ (dst ≤ q < dst + n) → m1 !! q = m !! q) as Hout.
  { intros q Hq. rewrite Hm1. by destruct (Z.leb_spec dst q), (Z.ltb_spec q (dst + n)); simpl; [lia|..]. }
  apply wp_store; [rewrite Hout by lia; apply Hm; lia|]. wp_step.
  split_and!; [done| |intros _].
  { intros q Hq. rewrite lookup_insert_ne by lia. apply Hout. lia. }
  replace (take (Z.to_nat (size - 1)) s) with (take (Z.to_nat n) s).
  2: { unfold n. destruct (Z.ltb_spec (Z.of_nat (length s)) (size - 1)); [|done].
       by rewrite Nat2Z.id, !take_ge by lia. }
  rewrite <-(app_nil_r (take _ _)). apply cstr_app. rewrite length_take.
  replace (Z.of_nat (Z.to_nat n `min` length s)) with n by lia. split.
  - intros i c [Hi Hlt]%lookup_take_Some. split.
    + rewrite lookup_insert_ne by lia. rewrite Hm1.
      rewrite (proj2 (Z.leb_le _ _)), (proj2 (Z.ltb_lt _ _)) by lia. simpl.
      rewrite <-(cstr_lookup _ _ _ _ _ Hc Hi). f_equal. lia.
    + exact (Forall_lookup_1 _ _ _ _ (cstr_bytes _ _ _ Hc) Hi).
  - simpl. apply lookup_insert_eq.
Qed.

Lemma strlcpy_correct_witness :
  wp (strlcpy 9 200 100 3) (block 100 [97; 98; 99; 100; 0] ∪ block 200 [1; 2; 3; 4]) (λ r m',
    r = 4 ∧ same_except 200 3 (block 100 [97; 98; 99; 100; 0] ∪ block 200 [1; 2; 3; 4]) m' ∧
    (0 < 3 → cstr m' 200 [97; 98])).
Proof.
  apply (strlcpy_correct _ 9 200 100 3 [97; 98; 99; 100]); [done|done|done| | |simpl; lia..].
  - simpl; by repeat (split; [by vm_compute|]); vm_compute.
  - intros i Hi. assert (i = 0 ∨ i = 1 ∨ i = 2) as Hi' by lia.
    destruct Hi' as [->|[->| ->]]; vm_compute; eauto.
Defined.

(** ** strstr *)

Lemma wp_memcmp_loop n m a b Q :
  mapped m a (Z.of_nat n) → mapped m b (Z.of_nat n) →
  (∀ r, (r = 0 ↔ ∀ i, 0 ≤ i < Z.of_nat n → m !! (a + i) = m !! (b + i)) → Q r m) →
  wp (memcmp_loop n a b) m Q.
Proof.
  revert a b; induction n as [|n IH]; intros a b Ha Hb HQ; cbn [memcmp_loop].
  { wp_step. apply HQ. split; [|done]. intros _ i ?. lia. }
  destruct (Ha 0 ltac:(lia)) as [x Hx]. destruct (Hb 0 ltac:(lia)) as [y Hy].
  rewrite Z.add_0_r in Hx, Hy. wp_step. apply (wp_load_byte _ _ x); [done|]. wp_step.
  apply (wp_load_byte _ _ y); [done|]. destruct (Z.eqb_spec x y) as [->|Hne]; cbn [negb].
  - apply IH.
    + intros i Hi. rewrite <-Z.add_assoc. apply Ha. lia.
    + intros i Hi. rewrite <-Z.add_assoc. apply Hb. lia.
    + intros r Hr. apply HQ. rewrite Hr. split; intros H i Hi.
      * destruct (decide (i = 0)) as [->|]; [by rewrite !Z.add_0_r, Hx, Hy|].
        specialize (H (i - 1) ltac:(lia)).
        by replace (a + 1 + (i - 1)) with (a + i) in H by lia; replace (b + 1 + (i - 1)) with (b + i) in H by lia.
      * rewrite <-!Z.add_assoc. apply H. lia.
  - wp_step. apply HQ. split.
    + by destruct (y <? x).
    + intros H. specialize (H 0 ltac:(lia)). rewrite !Z.add_0_r, Hx, Hy in H. congruence.
Qed.

(** [t] is found in [s] at [i]. *)
Definition occurs (t s : list Z) (i : nat) : Prop := take (length t) (drop i s) = t ∧ (i + length t ≤ length s)%nat.

Lemma occurs_bytes m h s n t i :
  cstr m h s → cstr m n t → (i + length t ≤ length s)%nat →
  (∀ j, 0 ≤ j < Z.of_nat (length t) → m !! (h + Z.of_nat i + j) = m !! (n + j)) ↔ occurs t s i.
Proof.
  intros Hs Ht Hi. unfold occurs. split.
  - intros H. split; [|done]. apply list_eq. intros j. destruct (decide (j < length t)%nat) as [Hj|Hj].
    + rewrite lookup_take_lt, lookup_drop by done.
      destruct (lookup_lt_is_Some_2 t j Hj) as [x Hx].
      destruct (lookup_lt_is_Some_2 s (i + j) ltac:(lia)) as [y Hy].
      specialize (H (Z.of_nat j) ltac:(lia)).
      rewrite (cstr_lookup _ _ _ _ _ Ht Hx) in H.
      replace (h + Z.of_nat i + Z.of_nat j) with (h + Z.of_nat (i + j)) in H by lia.
      rewrite (cstr_lookup _ _ _ _ _ Hs Hy) in H. congruence.
    + rewrite (lookup_ge_None_2 t) by lia. apply lookup_ge_None_2. rewrite length_take. lia.
  - intros [E _] j Hj. destruct (lookup_lt_is_Some_2 t (Z.to_nat j) ltac:(lia)) as [x Hx].
    pose proof Hx as Hx'. rewrite <-E, lookup_take_lt, lookup_drop in Hx' by lia.
    pose proof (cstr_lookup _ _ _ _ _ Ht Hx) as H1. pose proof (cstr_lookup _ _ _ _ _ Hs Hx') as H2.
    rewrite <-H1 in H2. rewrite Nat2Z.inj_add, Z2Nat.id in * by lia. by rewrite <-Z.add_assoc.
Qed.

Lemma wp_strstr_loop k m h s n t i Q :
  0 < h → 0 < n → cstr m h s → cstr m n t → (i + k + length t = length s + 1)%nat →
  (∀ j, occurs t s j → (i ≤ j)%nat → (∀ j', (i ≤ j' < j)%nat → ¬ occurs t s j') →
     Q (h + Z.of_nat j) m) →
  ((∀ j, (i ≤ j)%nat → ¬ occurs t s j) → Q NULL m) →
  wp (strstr_loop k h n (Z.of_nat (length t)) (Z.of_nat i)) m Q.
Proof.
  intros Hh Hn Hs Ht. revert i; induction k as [|k IH]; intros i Hk HQ HN; cbn [strstr_loop].
  { wp_step. apply HN. intros j Hj [_ ?]. lia. }
  unfold memcmp, assert_block. rewrite (nonnull n), (nonnull (h + _)) by lia. simpl orb. repeat wp_step; [done..|].
  pose proof (cstr_mapped _ _ _ Hs) as Hms. pose proof (cstr_mapped _ _ _ Ht) as Hmt.
  apply wp_memcmp_loop; rewrite Nat2Z.id.
  { intros j Hj. rewrite <-Z.add_assoc. apply Hms. lia. }
  { intros j Hj. apply Hmt. lia. }
  intros r Hr. rewrite (occurs_bytes m h s n t i) in Hr by (done || lia).
  destruct (Z.eqb_spec r 0) as [E|E].
  - wp_step. apply HQ; [by apply Hr|lia|lia].
  - assert (¬ occurs t s i) as Hno by naive_solver.
    replace (Z.of_nat i + 1) with (Z.of_nat (S i)) by lia. apply IH; [lia| |].
    + intros j Hj Hle Hmin. apply HQ; [done|lia|]. intros j' Hj'.
      destruct (decide (j' = i)) as [->|]; [done|]. apply Hmin. lia.
    + intros Hall. apply HN. intros j Hj. destruct (decide (j = i)) as [->|]; [done|]. apply Hall. lia.
Qed.

(** strstr returns the address of the first occurrence of NEEDLE in HAYSTACK,
    or a null pointer if there is none. *)
Theorem strstr_first_occurrence (m : memory) (fuel : nat) (h n : Z) (s t : list Z) :
  0 < h → 0 < n → cstr m h s → cstr m n t → (length s < fuel)%nat → (length t < fuel)%nat →
  wp (strstr fuel h n) m (λ r m', m' = m ∧
    ((∃ j, r = h + Z.of_nat j ∧ occurs t s j ∧ ∀ j', (j' < j)%nat → ¬ occurs t s j') ∨
     r = NULL ∧ ∀ j, ¬ occurs t s j)).
Proof.
  intros Hh Hn Hs Ht Hfs Hft. unfold strstr. wp_step. apply (wp_strlen _ _ _ s); [done..|].
  wp_step. apply (wp_strlen _ _ _ t); [done..|].
  destruct (Z.leb_spec (Z.of_nat (length t)) (Z.of_nat (length s))).
  - apply (wp_strstr_loop _ m h s n t 0); [done..|lia| |].
    + intros j Hj _ Hmin. split; [done|]. left. exists j. split_and!; [done..|].
      intros j' Hj'. apply Hmin. lia.
    + intros Hall. split; [done|]. right. split; [done|]. intros j. apply Hall. lia.
  - wp_step. split; [done|]. right. split; [done|]. intros j [_ ?]. lia.
Qed.

Lemma strstr_first_occurrence_witness :
  wp (strstr 9 100 200) (block 100 [97; 97; 98; 99; 0] ∪ block 200 [97; 98; 0]) (λ r m',
    m' = block 100 [97; 97; 98; 99; 0] ∪ block 200 [97; 98; 0] ∧
    ((∃ j, r = 100 + Z.of_nat j ∧ occurs [97; 98] [97; 97; 98; 99] j ∧
       ∀ j', (j' < j)%nat → ¬ occurs [97; 98] [97; 97; 98; 99] j') ∨
     r = NULL ∧ ∀ j, ¬ occurs [97; 98] [97; 97; 98; 99] j)).
Proof.
  apply (strstr_first_occurrence _ 9 100 200 [97; 97; 98; 99] [97; 98]);
    [done|done| | |simpl; lia..]; simpl; by repeat (split; [by vm_compute|]); vm_compute.
Defined.

(** strnlen looks at the byte after the MAXLEN bytes it may count: on a block of
    MAXLEN bytes without a null byte it faults. *)
Lemma strnlen_reads_past : strnlen 5 100 2 (block 100 [97; 98]) = Fault.
Proof. done. Qed.
