(* ===== verification/Arith64.v ===== *)
(** * 64-bit division: lib/arithmetic.c

    [None] is the divide error of the processor (#DE): the DIVL instruction traps
    when the divisor is zero or the quotient does not fit in 32 bits.  The
    theorems show that udiv64 never traps on a nonzero divisor and is division,
    on both of its paths, that sdiv64 is C's truncating division, and what the
    remainder functions, whose helpers return 32-bit types, compute. *)

From S2P Require Import Prelude.
Local Open Scope Z_scope.

Definition divl (n d : Z) : option Z :=
  if d =? 0 then None else
  let q := n / d in
  if q <? 2 ^ 32 then Some q else None.

Definition nlz (x : Z) : Z :=
  let n := 0 in
  let '(n, x) := if x <=? 0x0000FFFF then (n + 16, u32 (Z.shiftl x 16)) else (n, x) in
  let '(n, x) := if x <=? 0x00FFFFFF then (n + 8, u32 (Z.shiftl x 8)) else (n, x) in
  let '(n, x) := if x <=? 0x0FFFFFFF then (n + 4, u32 (Z.shiftl x 4)) else (n, x) in
  let '(n, x) := if x <=? 0x3FFFFFFF then (n + 2, u32 (Z.shiftl x 2)) else (n, x) in
  if x <=? 0x7FFFFFFF then n + 1 else n.

Definition udiv64 (n d : Z) : option Z :=
  if Z.shiftr d 32 =? 0 then
    let b := Z.shiftl 1 32 in
    let n1 := u32 (Z.shiftr n 32) in
    let n0 := u32 n in
    let d0 := u32 d in
    if d0 =? 0 then None else
    q ← divl (u64 (b * (n1 mod d0) + n0)) d0;
    Some (u64 (q + u64 (b * (n1 / d0))))
  else if n <? d then Some 0
  else
    let d1 := u32 (Z.shiftr d 32) in
    let s := nlz d1 in
    q ← divl (Z.shiftr n 1) (u32 (Z.shiftr (u64 (Z.shiftl d s)) 32));
    let q := Z.shiftr q (31 - s) in
    Some (if u64 (n - u64 (u64 (q - 1) * d)) <? d then u64 (q - 1) else q).

(** umod64 returns a uint32_t. *)
Definition umod64 (n d : Z) : option Z :=
  q ← udiv64 n d; Some (u32 (u64 (n - u64 (d * q)))).

Definition sdiv64 (n d : Z) : option Z :=
  let n_abs := if 0 <=? n then u64 n else u64 (- u64 n) in
  let d_abs := if 0 <=? d then u64 d else u64 (- u64 d) in
  q_abs ← udiv64 n_abs d_abs;
  Some (if Bool.eqb (n <? 0) (d <? 0) then s64 q_abs else s64 (- s64 q_abs)).

(** smod64 returns an int32_t. *)
Definition smod64 (n d : Z) : option Z :=
  q ← sdiv64 n d; Some (s32 (s64 (n - s64 (d * q)))).

Definition __divdi3 (n d : Z) : option Z := sdiv64 n d.
Definition __moddi3 (n d : Z) : option Z := q ← smod64 n d; Some (s64 q).
Definition __udivdi3 (n d : Z) : option Z := udiv64 n d.
Definition __umoddi3 (n d : Z) : option Z := q ← umod64 n d; Some (u64 q).

(** ** Leading zeros *)

Lemma nlz_spec x : 0 < x < 2 ^ 32 → 0 ≤ nlz x ≤ 31 ∧ 2 ^ 31 ≤ x * 2 ^ nlz x < 2 ^ 32.
Proof.
  intros Hx. unfold nlz.
  assert (∀ y k, 0 ≤ y → 0 ≤ k → y * 2 ^ k < 2 ^ 32 → u32 (Z.shiftl y k) = y * 2 ^ k) as Hsh.
  { intros y k ???. rewrite Z.shiftl_mul_pow2 by lia. apply wrap_small. lia. }
  destruct (Z.leb_spec x 0x0000FFFF); rewrite ?(Hsh x 16) by lia;
  (match goal with |- context [if ?y <=? 0x00FFFFFF then _ else _] =>
     destruct (Z.leb_spec y 0x00FFFFFF); rewrite ?(Hsh y 8) by lia end);
  (match goal with |- context [if ?y <=? 0x0FFFFFFF then _ else _] =>
     destruct (Z.leb_spec y 0x0FFFFFFF); rewrite ?(Hsh y 4) by lia end);
  (match goal with |- context [if ?y <=? 0x3FFFFFFF then _ else _] =>
     destruct (Z.leb_spec y 0x3FFFFFFF); rewrite ?(Hsh y 2) by lia end);
  (match goal with |- context [if ?y <=? 0x7FFFFFFF then _ else _] =>
     destruct (Z.leb_spec y 0x7FFFFFFF) end);
  match goal with |- context [2 ^ ?n] => let v := eval vm_compute in n in change n with v end;
  split; lia.
Qed.

(** ** The quotient estimate

    A divisor [D] just below [d] gives a quotient at most one too large. *)
Lemma quotient_estimate n d D :
  0 < D ≤ d → 0 ≤ n → n * (d - D) < d * D → n / d ≤ n / D ≤ n / d + 1.
Proof.
  intros HD Hn Hb. split; [apply Z.div_le_compat_l; lia|].
  pose proof (Z.div_mod n d ltac:(lia)) as En. pose proof (Z.mod_pos_bound n d ltac:(lia)).
  set (Q := n / d) in *. enough (n / D < Q + 2) by lia. apply Z.div_lt_upper_bound; [lia|].
  destruct (Z.lt_ge_cases n (D * (Q + 2))) as [|Hge]; [done|exfalso].
  assert (0 ≤ Q) by (apply Z.div_pos; lia).
  assert (n < d * (Q + 1)) by lia.
  assert (D * ((Q + 2) * (d - D)) < D * d) by nia.
  assert ((Q + 2) * (d - D) < d) by nia. nia.
Qed.

(** The estimate's divisor: the top 32 significant bits of [d]. *)
Section estimate.
Context (d s : Z) (Hd : 2 ^ 32 ≤ d < 2 ^ 64) (Hs : 0 ≤ s ≤ 31).
Context (Hn : 2 ^ 31 ≤ (d / 2 ^ 32) * 2 ^ s < 2 ^ 32).

(** [p * r] is 2^32. *)
Let p := 2 ^ s.
Let r := 2 ^ (32 - s).
Let d' := d * p / 2 ^ 32.

Lemma p_r : p * r = 2 ^ 32 ∧ 0 < p ∧ 2 ≤ r.
Proof using Hs.
  clear d' Hn Hd d. unfold p, r. rewrite <-Z.pow_add_r by lia. split_and!; [f_equal; lia|lia|].
  apply (Z.pow_le_mono_r 2 1); lia.
Qed.

Lemma shifted_bounds : d * p < 2 ^ 64 ∧ 2 ^ 31 ≤ d' < 2 ^ 32 ∧ d' = d / r.
Proof.
  destruct p_r as (Epr & Hp & Hr). fold p in Hn.
  pose proof (Z.div_mod d (2 ^ 32) ltac:(lia)) as Ed.
  pose proof (Z.mod_pos_bound d (2 ^ 32) ltac:(lia)). set (d1 := d / 2 ^ 32) in *.
  assert ((d1 + 1) * p ≤ 2 ^ 32) as H1.
  { rewrite <-Epr. rewrite (Z.mul_comm p r). apply Z.mul_le_mono_nonneg_r; [lia|].
    enough (d1 < r) by lia. nia. }
  assert (d * p < 2 ^ 64) as Hlt by nia. split; [done|].
  assert (d' = d / r) as E.
  { unfold d'. rewrite <-Epr, (Z.mul_comm p r). apply Z.div_mul_cancel_r; lia. }
  split; [|done]. split.
  - apply Z.div_le_lower_bound; [lia|]. nia.
  - apply Z.div_lt_upper_bound; lia.
Qed.

Lemma estimate_spec n : 0 ≤ n < 2 ^ 64 → n / d ≤ n / (d' * r) ≤ n / d + 1.
Proof.
  intros Hnn. destruct p_r as (Epr & Hp & Hr). destruct shifted_bounds as (_ & Hd' & E).
  pose proof (Z.div_mod d r ltac:(lia)) as Ed. pose proof (Z.mod_pos_bound d r ltac:(lia)).
  rewrite <-E in Ed. set (D := d' * r). assert (0 < D ≤ d) by (unfold D; nia).
  apply quotient_estimate; [done|lia|]. assert (d - D ≤ r - 1) by (unfold D; nia).
  assert (2 ^ 31 * r ≤ D) by (unfold D; nia).
  assert (4 * (r - 1) ≤ r * r) as Hsq by nia.
  assert (2 ^ 62 * (r * r) ≤ d * D) by nia.
  assert (n * (d - D) ≤ (2 ^ 64 - 1) * (r - 1)) by nia.
  nia.
Qed.
End estimate.

(** ** Unsigned division *)

Lemma udiv64_spec n d : 0 ≤ n < 2 ^ 64 → 0 < d < 2 ^ 64 → udiv64 n d = Some (n / d).
Proof.
  intros Hn Hd. unfold udiv64. rewrite !Z.shiftr_div_pow2 by lia.
  pose proof (Z.div_mod n (2 ^ 32) ltac:(lia)) as En.
  pose proof (Z.mod_pos_bound n (2 ^ 32) ltac:(lia)) as Hn0.
  assert (0 ≤ n / 2 ^ 32 < 2 ^ 32) as Hn1.
  { split; [apply Z.div_pos; lia|apply Z.div_lt_upper_bound; lia]. }
  pose proof (Z.div_mod d (2 ^ 32) ltac:(lia)) as Ed.
  pose proof (Z.mod_pos_bound d (2 ^ 32) ltac:(lia)) as Hd0.
  assert (0 ≤ d / 2 ^ 32 < 2 ^ 32) as Hd1.
  { split; [apply Z.div_pos; lia|apply Z.div_lt_upper_bound; lia]. }
  destruct (Z.eqb_spec (d / 2 ^ 32) 0) as [E0|E0].
  - rewrite (wrap_small 32 d), (wrap_small 32 (n / 2 ^ 32)) by lia.
    rewrite (proj2 (Z.eqb_neq d 0)) by lia. change (Z.shiftl 1 32) with (2 ^ 32).
    change (u32 n) with (n mod 2 ^ 32). set (n1 := n / 2 ^ 32) in *. set (n0 := n mod 2 ^ 32) in *.
    pose proof (Z.div_mod n1 d ltac:(lia)) as E1. pose proof (Z.mod_pos_bound n1 d ltac:(lia)).
    set (r1 := n1 mod d) in *. set (q1 := n1 / d) in *.
    assert (0 ≤ q1 < 2 ^ 32) by (unfold q1; split; [apply Z.div_pos; lia|apply Z.div_lt_upper_bound; nia]).
    rewrite (wrap_small 64 (2 ^ 32 * r1 + n0)) by lia. unfold divl. rewrite (proj2 (Z.eqb_neq d 0)) by lia.
    assert (n / d = (2 ^ 32 * r1 + n0) / d + 2 ^ 32 * q1) as Eq.
    { rewrite <-Z.div_add by lia. f_equal. nia. }
    assert (0 ≤ (2 ^ 32 * r1 + n0) / d < 2 ^ 32).
    { split; [apply Z.div_pos; nia|apply Z.div_lt_upper_bound; nia]. }
    rewrite (proj2 (Z.ltb_lt _ _)) by lia. simpl. rewrite (wrap_small 64 (2 ^ 32 * q1)) by lia.
    rewrite wrap_small by lia. by rewrite Eq.
  - destruct (Z.ltb_spec n d) as [Hlt|Hge]; [by rewrite Z.div_small by lia|].
    rewrite (wrap_small 32 (d / 2 ^ 32)) by lia.
    destruct (nlz_spec (d / 2 ^ 32) ltac:(lia)) as [Hs Hns]. set (s := nlz (d / 2 ^ 32)) in *.
    assert (2 ^ 32 ≤ d < 2 ^ 64) as Hd' by lia.
    destruct (p_r s Hs) as (Epr & Hp & Hr). destruct (shifted_bounds d s Hd' Hs Hns) as (Hb & Hq & _).
    pose proof (estimate_spec d s Hd' Hs Hns n Hn) as He.
    rewrite Z.shiftl_mul_pow2 by lia. rewrite (wrap_small 64 (d * 2 ^ s)) by lia.
    rewrite (wrap_small 32 (d * 2 ^ s / 2 ^ 32)) by lia.
    set (d' := d * 2 ^ s / 2 ^ 32) in *. unfold divl. rewrite (proj2 (Z.eqb_neq d' 0)) by lia.
    assert (0 ≤ n / 2 ^ 1 < 2 ^ 63) by (split; [apply Z.div_pos; lia|apply Z.div_lt_upper_bound; lia]).
    assert (n / 2 ^ 1 / d' < 2 ^ 32) by (apply Z.div_lt_upper_bound; nia).
    rewrite (proj2 (Z.ltb_lt _ _)) by done. cbn [mbind option_bind]. rewrite Z.shiftr_div_pow2 by lia.
    replace (n / 2 ^ 1 / d' / 2 ^ (31 - s)) with (n / (d' * 2 ^ (32 - s))).
    2: { rewrite !Z.div_div by lia. f_equal. replace (32 - s) with (31 - s + 1) by lia.
         rewrite Z.pow_add_r by lia. lia. }
    set (q := n / (d' * 2 ^ (32 - s))) in *. set (Q := n / d) in *.
    pose proof (Z.div_mod n d ltac:(lia)) as EQ. pose proof (Z.mod_pos_bound n d ltac:(lia)).
    fold Q in EQ. assert (1 ≤ Q) by (apply Z.div_le_lower_bound; lia).
    assert (Q < 2 ^ 32) by (apply Z.div_lt_upper_bound; nia).
    f_equal. rewrite (wrap_small 64 (q - 1)) by lia.
    assert (q = Q ∨ q = Q + 1) as [->| ->] by lia.
    + rewrite (wrap_small 64 ((Q - 1) * d)) by nia. rewrite wrap_small by nia.
      by rewrite (proj2 (Z.ltb_ge _ _)) by nia.
    + replace (Q + 1 - 1) with Q by lia. rewrite (wrap_small 64 (Q * d)) by nia.
      rewrite wrap_small by nia. by rewrite (proj2 (Z.ltb_lt _ _)) by nia.
Qed.

(** ** The theorems *)

(** C32: __udivdi3 divides any two unsigned 64-bit integers with a nonzero divisor,
    without a divide error: both the schoolbook step with DIVL and the estimate
    with one correction give the exact quotient. *)
Theorem udivdi3_correct (n d : Z) :
  0 ≤ n < 2 ^ 64 → 0 < d < 2 ^ 64 → __udivdi3 n d = Some (n / d).
Proof. apply udiv64_spec. Qed.

Lemma udivdi3_correct_witness :
  __udivdi3 0xfedcba9876543210 0x123456789abc = Some (0xfedcba9876543210 / 0x123456789abc) ∧
  __udivdi3 0xfedcba9876543210 10 = Some (0xfedcba9876543210 / 10).
Proof. split; apply udivdi3_correct; done. Defined.

Lemma abs64 n : - 2 ^ 63 ≤ n < 2 ^ 63 → (if 0 <=? n then u64 n else u64 (- u64 n)) = Z.abs n.
Proof.
  intros Hn. destruct (Z.leb_spec 0 n); [rewrite wrap_small; lia|].
  unfold wrap. rewrite (Z.mod_eq n (2 ^ 64)) by lia.
  replace (n / 2 ^ 64) with (-1) by (apply (Z.div_unique _ _ _ (n + 2 ^ 64)); lia).
  replace (- (n - 2 ^ 64 * -1)) with (- n + (-1) * 2 ^ 64) by lia.
  rewrite Z.mod_add, Z.mod_small by lia. lia.
Qed.

Lemma swrap_add_mul w z k : 0 < w → swrap w (z + k * 2 ^ w) = swrap w z.
Proof.
  intros Hw. unfold swrap. f_equal. replace (z + k * 2 ^ w + 2 ^ (w - 1)) with (z + 2 ^ (w - 1) + k * 2 ^ w) by lia.
  apply Z.mod_add. lia.
Qed.

Lemma swrap_congr w z : 0 < w → ∃ k, swrap w z = z + k * 2 ^ w.
Proof.
  intros Hw. exists (- ((z + 2 ^ (w - 1)) / 2 ^ w)). unfold swrap. rewrite Z.mod_eq by lia. lia.
Qed.

Lemma sdiv64_spec n d :
  - 2 ^ 63 ≤ n < 2 ^ 63 → - 2 ^ 63 ≤ d < 2 ^ 63 → d ≠ 0 → sdiv64 n d = Some (s64 (Z.quot n d)).
Proof.
  intros Hn Hd Hd0. unfold sdiv64. rewrite !abs64 by done.
  rewrite udiv64_spec by lia. cbn [mbind option_bind]. f_equal.
  set (q := Z.abs n / Z.abs d). assert (0 ≤ q ≤ 2 ^ 63) as Hq.
  { split; [apply Z.div_pos; lia|]. apply Z.div_le_upper_bound; nia. }
  destruct (decide (n = 0)) as [->|Hn0].
  { assert (q = 0) as -> by (unfold q; by rewrite Z.div_0_l by lia). rewrite Z.quot_0_l by lia.
    by destruct (Bool.eqb _ _). }
  rewrite Z.quot_div by lia. fold q.
  destruct (Z.ltb_spec n 0), (Z.ltb_spec d 0); simpl.
  - rewrite (Z.sgn_neg n), (Z.sgn_neg d) by lia. f_equal; lia.
  - rewrite (Z.sgn_neg n), (Z.sgn_pos d) by lia. destruct (decide (q = 2 ^ 63)) as [->|]; [done|].
    rewrite (swrap_small 64 q) by lia. f_equal; lia.
  - rewrite (Z.sgn_pos n), (Z.sgn_neg d) by lia. destruct (decide (q = 2 ^ 63)) as [->|]; [done|].
    rewrite (swrap_small 64 q) by lia. f_equal; lia.
  - rewrite (Z.sgn_pos n), (Z.sgn_pos d) by lia. f_equal; lia.
Qed.

(** __divdi3 is C's signed division, truncating toward zero, on every pair of
    64-bit integers but a zero divisor and the one pair whose quotient is not a
    64-bit integer. *)
Theorem divdi3_correct (n d : Z) :
  - 2 ^ 63 ≤ n < 2 ^ 63 → - 2 ^ 63 ≤ d < 2 ^ 63 → d ≠ 0 → ¬ (n = - 2 ^ 63 ∧ d = -1) →
  __divdi3 n d = Some (Z.quot n d).
Proof.
  intros Hn Hd Hd0 Hne. unfold __divdi3. rewrite sdiv64_spec by done. f_equal. apply swrap_small; [lia|].
  destruct (decide (n = 0)) as [->|]; [rewrite Z.quot_0_l; lia|].
  rewrite Z.quot_div by done. pose proof (Z.sgn_spec n). pose proof (Z.sgn_spec d).
  assert (0 ≤ Z.abs n / Z.abs d ≤ Z.abs n) as Hq.
  { split; [apply Z.div_pos; lia|]. apply Z.div_le_upper_bound; nia. }
  destruct (decide (Z.abs n = 2 ^ 63)) as [En|]; [|nia]. assert (n = - 2 ^ 63) as -> by lia.
  destruct (decide (Z.abs d = 1)); [assert (d = 1) as -> by lia; done|].
  assert (Z.abs (- 2 ^ 63) / Z.abs d < 2 ^ 63) by (apply Z.div_lt_upper_bound; lia). nia.
Qed.

Lemma divdi3_correct_witness : __divdi3 (-1000000000000) 7000000000 = Some (-142).
Proof. apply divdi3_correct; lia. Defined.

(** __umoddi3 and __moddi3 return the remainder reduced to 32 bits, so that
    they are the remainder whenever it fits in 32 bits (in particular for every
    divisor up to 2^32 and 2^31) and not otherwise. *)
Theorem moddi3_truncates (n d : Z) :
  (0 ≤ n < 2 ^ 64 → 0 < d < 2 ^ 64 → __umoddi3 n d = Some (u32 (n mod d))) ∧
  (- 2 ^ 63 ≤ n < 2 ^ 63 → - 2 ^ 63 ≤ d < 2 ^ 63 → d ≠ 0 →
   __moddi3 n d = Some (s32 (Z.rem n d))).
Proof.
  split.
  - intros Hn Hd. unfold __umoddi3, umod64. rewrite udiv64_spec by done. cbn [mbind option_bind].
    pose proof (Z.div_mod n d ltac:(lia)). pose proof (Z.mod_pos_bound n d ltac:(lia)).
    assert (0 ≤ n / d) by (apply Z.div_pos; lia).
    rewrite (wrap_small 64 (d * (n / d))) by nia.
    replace (n - d * (n / d)) with (n mod d) by lia. rewrite (wrap_small 64 (n mod d)) by lia.
    rewrite wrap_small; [done|]. pose proof (wrap_bounds 32 (n mod d)). lia.
  - intros Hn Hd Hd0. unfold __moddi3, smod64. rewrite sdiv64_spec by done. cbn [mbind option_bind].
    assert (s64 (n - s64 (d * s64 (Z.quot n d))) = Z.rem n d) as ->.
    { destruct (swrap_congr 64 (Z.quot n d)) as [k ->]; [lia|].
      destruct (swrap_congr 64 (d * (Z.quot n d + k * 2 ^ 64))) as [k' ->]; [lia|].
      pose proof (Z.rem_bound_abs n d Hd0). pose proof (Z.quot_rem n d Hd0) as E.
      replace (n - _) with (Z.rem n d + (- (d * k) - k') * 2 ^ 64) by lia.
      rewrite swrap_add_mul by lia. apply swrap_small; lia. }
    pose proof (swrap_bounds 32 (Z.rem n d)). rewrite (swrap_small 64); [done|lia|].
    change (2 ^ (32 - 1)) with (2 ^ 31) in *. change (2 ^ (64 - 1)) with (2 ^ 63). lia.
Qed.

Lemma moddi3_truncates_witness :
  (0 ≤ 2 ^ 33 + 5 < 2 ^ 64 → 0 < 2 ^ 40 < 2 ^ 64 → __umoddi3 (2 ^ 33 + 5) (2 ^ 40) = Some 5) ∧
  (- 2 ^ 63 ≤ 2 ^ 33 + 5 < 2 ^ 63 → - 2 ^ 63 ≤ 2 ^ 40 < 2 ^ 63 → 2 ^ 40 ≠ 0 →
   __moddi3 (2 ^ 33 + 5) (2 ^ 40) = Some 5).
Proof. exact (moddi3_truncates (2 ^ 33 + 5) (2 ^ 40)). Defined.

(** A remainder above 32 bits is lost. *)
Lemma umoddi3_wrong : __umoddi3 (2 ^ 33 + 5) (2 ^ 40) = Some 5 ∧ (2 ^ 33 + 5) mod 2 ^ 40 = 2 ^ 33 + 5.
Proof. done. Qed.
