(* ===== verification/SortSearch.v ===== *)
(** * Sorting, searching and number parsing: lib/stdlib.c

    An array of CNT elements of SIZE bytes is the list of its elements; COMPARE is
    a function on elements with a strcmp()-type result.  Indexes are 1-based, as
    in the source, and computed in size_t. *)

From Stdlib Require Import Sorted.
From S2P Require Import Prelude.
Local Open Scope Z_scope.
Local Ltac Zify.zify_post_hook ::= Z.div_mod_to_equations.

Section sort.
Context {A : Type} (compare : A → A → Z).

(** The element with a 1-based index. *)
Definition el (l : list A) (idx : Z) : option A :=
  if 1 <=? idx then l !! Z.to_nat (idx - 1) else None.
Definition load_el (idx : Z) : M (list A) A := l ← get; from_option (el l idx).

Definition do_swap (a_idx b_idx : Z) : M (list A) unit :=
  a ← load_el a_idx; b ← load_el b_idx;
  modify (λ l, <[Z.to_nat (b_idx - 1) := a]> (<[Z.to_nat (a_idx - 1) := b]> l)).
Definition do_compare (a_idx b_idx : Z) : M (list A) Z :=
  a ← load_el a_idx; b ← load_el b_idx; mret (compare a b).

(** left <= cnt && do_compare (array, left, max, ...) > 0 *)
Definition greater (idx cnt max : Z) : M (list A) bool :=
  andM (mret (idx <=? cnt)) (c ← do_compare idx max; mret (0 <? c)).

Fixpoint heapify (fuel : nat) (i cnt : Z) : M (list A) unit :=
  match fuel with
  | O => nofuel
  | S fuel =>
    let left := u32 (2 * i) in
    let right := u32 (2 * i + 1) in
    let max := i in
    b ← greater left cnt max;
    let max := if b : bool then left else max in
    b ← greater right cnt max;
    let max := if b : bool then right else max in
    if max =? i then mret tt else
    do_swap i max;; heapify fuel max cnt
  end.

(** for (i = ...; i > 0; i--) heapify (array, i, cnt, ...), [n] is i. *)
Fixpoint build_loop (fuel n : nat) (cnt : Z) : M (list A) unit :=
  match n with
  | O => mret tt
  | S n' => heapify fuel (Z.of_nat n) cnt;; build_loop fuel n' cnt
  end.
(** for (i = ...; i > 1; i--), [n] is i - 1. *)
Fixpoint extract_loop (fuel n : nat) : M (list A) unit :=
  match n with
  | O => mret tt
  | S n' =>
    let i := Z.of_nat n + 1 in
    do_swap 1 i;; heapify fuel 1 (i - 1);; extract_loop fuel n'
  end.
(** [fuel] bounds the iterations of heapify; CNT is the length of the list. *)
Definition sort (fuel : nat) (size : Z) : M (list A) unit :=
  l ← get;
  let cnt := Z.of_nat (length l) in
  assert (0 <? size);;
  build_loop fuel (Z.to_nat (cnt / 2)) cnt;;
  extract_loop fuel (Z.to_nat (cnt - 1)).
(** qsort passes COMPARE through compare_thunk. *)
Definition qsort (fuel : nat) (size : Z) : M (list A) unit := sort fuel size.

(** binary_search: FIRST and LAST as element indexes from the start of the array. *)
Fixpoint search_loop {K} (cmp : K → A → Z) (fuel : nat) (key : K) (l : list A) (first last : Z) :
    result (option Z) :=
  match fuel with
  | O => Fuel
  | S fuel =>
    if first <? last then
      let range := last - first in
      let middle := first + range / 2 in
      match l !! Z.to_nat middle with
      | None => Fault
      | Some x =>
        let c := cmp key x in
        if c <? 0 then search_loop cmp fuel key l first middle
        else if 0 <? c then search_loop cmp fuel key l (middle + 1) last
        else Ok (Some middle)
      end
    else Ok None
  end.
Definition binary_search {K} (cmp : K → A → Z) (fuel : nat) (key : K) (l : list A) : result (option Z) :=
  search_loop cmp fuel key l 0 (Z.of_nat (length l)).
Definition bsearch {K} (cmp : K → A → Z) (fuel : nat) (key : K) (l : list A) : result (option Z) :=
  binary_search cmp fuel key l.
End sort.

(** ** atoi, on the characters of a string *)

(** lib/ctype.h *)
Definition isspace (c : Z) : bool :=
  (c =? 32) || (c =? 12) || (c =? 10) || (c =? 13) || (c =? 9) || (c =? 11).
Definition isdigit (c : Z) : bool := (48 <=? c) && (c <=? 57).

Fixpoint skip_space (s : list Z) : list Z :=
  match s with
  | c :: s' => if isspace c then skip_space s' else s
  | [] => []
  end.
(** The digits are accumulated as a negative number. *)
Fixpoint atoi_digits (s : list Z) (value : Z) : Z :=
  match s with
  | c :: s => if isdigit c then atoi_digits s (s32 (value * 10 - (c - 48))) else value
  | [] => value
  end.
Definition atoi (s : list Z) : Z :=
  let s := skip_space s in
  let '(negative, s) :=
    match s with
    | c :: s' => if c =? 43 then (false, s') else if c =? 45 then (true, s') else (false, s)
    | [] => (false, s)
    end in
  let value := atoi_digits s 0 in
  if negb negative then s32 (- value) else value.

(** ** Heap sort *)

(** COMPARE is consistent with a total preorder. *)
Class CompareLaws {A} (compare : A → A → Z) : Prop := {
  compare_flip x y : 0 < compare x y ↔ compare y x < 0;
  compare_trans x y z : compare x y ≤ 0 → compare y z ≤ 0 → compare x z ≤ 0
}.

Section heap.
Context {A : Type} (compare : A → A → Z) `{!CompareLaws compare}.
Implicit Types (l : list A).

Definition le (x y : A) : Prop := compare x y ≤ 0.
Lemma le_greater x y : 0 < compare x y → le y x.
Proof. intros ?%compare_flip. unfold le. lia. Qed.
Lemma le_not_greater x y : ¬ 0 < compare x y → le x y.
Proof. unfold le. lia. Qed.
Lemma le_refl x : le x x.
Proof. unfold le. pose proof (compare_flip x x). lia. Qed.

Lemma el_Some l j : 1 ≤ j ≤ Z.of_nat (length l) → ∃ x, el l j = Some x.
Proof.
  intros Hj. unfold el. rewrite (proj2 (Z.leb_le 1 j)) by lia.
  destruct (lookup_lt_is_Some_2 l (Z.to_nat (j - 1))); [lia|eauto].
Qed.
Lemma el_range l j x : el l j = Some x → 1 ≤ j ≤ Z.of_nat (length l).
Proof.
  unfold el. destruct (Z.leb_spec 1 j); [|done]. intros ?%lookup_lt_Some. lia.
Qed.

(** Exchanging two elements. *)
Definition swapped (i j : Z) (a b : A) l : list A :=
  <[Z.to_nat (j - 1) := a]> (<[Z.to_nat (i - 1) := b]> l).
Lemma el_swapped l i j a b k :
  el l i = Some a → el l j = Some b →
  el (swapped i j a b l) k = if k =? j then Some a else if k =? i then Some b else el l k.
Proof.
  intros Hi%el_range Hj%el_range. unfold el, swapped.
  destruct (Z.leb_spec 1 k) as [Hk|Hk].
  - destruct (Z.eqb_spec k j) as [->|]; [by rewrite list_lookup_insert_eq by (rewrite length_insert; lia)|].
    rewrite list_lookup_insert_ne by lia.
    destruct (Z.eqb_spec k i) as [->|]; [by rewrite list_lookup_insert_eq by lia|].
    by rewrite list_lookup_insert_ne by lia.
  - destruct (Z.eqb_spec k j); [lia|]. by destruct (Z.eqb_spec k i); [lia|].
Qed.
Lemma swapped_perm l i j a b :
  el l i = Some a → el l j = Some b → swapped i j a b l ≡ₚ l.
Proof.
  intros Hi Hj. pose proof (el_range _ _ _ Hi). pose proof (el_range _ _ _ Hj). unfold el in Hi, Hj.
  rewrite (proj2 (Z.leb_le 1 i)) in Hi by lia. rewrite (proj2 (Z.leb_le 1 j)) in Hj by lia.
  by apply list_swap_perm.
Qed.

Lemma wp_do_swap l i j a b Q :
  el l i = Some a → el l j = Some b → Q tt (swapped i j a b l) → wp (do_swap i j) l Q.
Proof.
  intros Hi Hj HQ. unfold do_swap, load_el. repeat wp_step. apply (wp_from_option _ a); [done|].
  repeat wp_step. apply (wp_from_option _ b); [done|]. by wp_step.
Qed.

Lemma wp_greater l idx cnt max y Q :
  1 ≤ idx → cnt ≤ Z.of_nat (length l) → el l max = Some y →
  (idx ≤ cnt → ∀ x, el l idx = Some x → 0 < compare x y → Q true l) →
  ((idx ≤ cnt → ∀ x, el l idx = Some x → le x y) → Q false l) →
  wp (greater compare idx cnt max) l Q.
Proof.
  intros Hidx Hcnt Hy Ht Hf. unfold greater, andM. repeat wp_step.
  destruct (Z.leb_spec idx cnt) as [Hle|Hgt]; [|wp_step; apply Hf; lia].
  destruct (el_Some l idx ltac:(lia)) as [x Hx]. unfold do_compare, load_el. repeat wp_step.
  apply (wp_from_option _ x); [done|]. repeat wp_step. apply (wp_from_option _ y); [done|].
  repeat wp_step. destruct (Z.ltb_spec 0 (compare x y)) as [Hc|Hc].
  - by apply (Ht Hle x).
  - apply Hf. intros _ x' Hx'. replace x' with x by congruence. done.
Qed.

(** [ole l i j]: element [i] is at most element [j]. *)
Definition ole l (i j : Z) : Prop := ∀ x y, el l i = Some x → el l j = Some y → le x y.

(** Elements [lo .. cnt] are a heap but for the children of [hole]. *)
Definition heap_except l (lo cnt hole : Z) : Prop :=
  ∀ j, 2 ≤ j ≤ cnt → lo ≤ j / 2 → j / 2 ≠ hole → ole l j (j / 2).
Definition heap l (lo cnt : Z) : Prop := ∀ j, 2 ≤ j ≤ cnt → lo ≤ j / 2 → ole l j (j / 2).
(** The children of [i] are at most the parent of [i]. *)
Definition bridged l (lo cnt i : Z) : Prop :=
  ∀ j, 2 ≤ j ≤ cnt → j / 2 = i → lo ≤ i / 2 → ole l j (i / 2).

(** [l'] is [l] with its elements [lo .. cnt] rearranged. *)
Record rearranged (lo cnt : Z) l l' : Prop := {
  re_perm : l' ≡ₚ l;
  re_out : ∀ j, ¬ (lo ≤ j ≤ cnt) → el l' j = el l j;
  re_in : ∀ P : A → Prop, (∀ j x, 1 ≤ j ≤ cnt → el l j = Some x → P x) →
            ∀ j x, 1 ≤ j ≤ cnt → el l' j = Some x → P x
}.
Lemma rearranged_refl lo cnt l : rearranged lo cnt l l.
Proof. by split. Qed.
Lemma rearranged_trans lo cnt l1 l2 l3 :
  rearranged lo cnt l1 l2 → rearranged lo cnt l2 l3 → rearranged lo cnt l1 l3.
Proof.
  intros [P1 O1 I1] [P2 O2 I2]. split.
  - by rewrite P2.
  - intros j Hj. by rewrite O2, O1.
  - intros P HP. apply I2, I1, HP.
Qed.
Lemma rearranged_mono lo lo' cnt l l' : lo' ≤ lo → rearranged lo cnt l l' → rearranged lo' cnt l l'.
Proof. intros Hle [P O I]. split; [done|intros; apply O; lia|done]. Qed.
Lemma rearranged_swap lo cnt l i j a b :
  1 ≤ lo → lo ≤ i ≤ cnt → lo ≤ j ≤ cnt → el l i = Some a → el l j = Some b →
  rearranged lo cnt l (swapped i j a b l).
Proof.
  intros Hlo Hi Hj Ha Hb. split.
  - by apply swapped_perm.
  - intros k Hk. rewrite (el_swapped l i j a b) by done.
    destruct (Z.eqb_spec k j); [lia|]. by destruct (Z.eqb_spec k i); [lia|].
  - intros P HP k x Hk. rewrite (el_swapped l i j a b) by done.
    destruct (Z.eqb_spec k j); [|destruct (Z.eqb_spec k i)].
    + intros [= <-]. apply (HP i); [lia|done].
    + intros [= <-]. apply (HP j); [lia|done].
    + apply (HP k); lia.
Qed.

(** Swapping a hole with its largest child moves the hole down. *)
Lemma swap_down l lo cnt i m a b :
  1 ≤ lo ≤ i → m / 2 = i → m ≤ cnt → 2 ≤ m →
  heap_except l lo cnt i → bridged l lo cnt i →
  el l i = Some a → el l m = Some b → le a b →
  (∀ j, 2 ≤ j ≤ cnt → j / 2 = i → ole l j m) →
  heap_except (swapped i m a b l) lo cnt m ∧ bridged (swapped i m a b l) lo cnt m.
Proof.
  intros Hlo Hm Hcnt Hm2 Hex Hbr Ha Hb Hab Hmax. split.
  - intros j Hj Hlj Hne x y. rewrite !(el_swapped l i m a b) by done.
    rewrite (proj2 (Z.eqb_neq (j / 2) m)) by lia.
    destruct (Z.eqb_spec (j / 2) i) as [E|E].
    + intros Hx [= <-]. destruct (Z.eqb_spec j m) as [->|]; [by simplify_eq|].
      rewrite (proj2 (Z.eqb_neq j i)) in Hx by lia. by apply (Hmax j Hj E x b).
    + rewrite (proj2 (Z.eqb_neq j m)) by lia. destruct (Z.eqb_spec j i) as [->|].
      * intros [= <-] Hy. apply (Hbr m ltac:(lia) Hm Hlj b y); done.
      * apply (Hex j); lia.
  - intros j Hj Hjm Hlm x y. rewrite !(el_swapped l i m a b) by done. rewrite Hm.
    rewrite (proj2 (Z.eqb_neq j m)), (proj2 (Z.eqb_neq j i)), (proj2 (Z.eqb_neq i m)), Z.eqb_refl by lia.
    intros Hx [= <-]. rewrite <-Hjm in Hb. apply (Hex j ltac:(lia) ltac:(lia) ltac:(lia) x b); done.
Qed.

Lemma wp_heapify fuel l lo cnt i Q :
  1 ≤ lo ≤ i → i ≤ cnt → cnt < 2 ^ 31 → cnt ≤ Z.of_nat (length l) →
  cnt - i < Z.of_nat fuel → heap_except l lo cnt i → bridged l lo cnt i →
  (∀ l', heap l' lo cnt → rearranged lo cnt l l' → Q tt l') →
  wp (heapify compare fuel i cnt) l Q.
Proof.
  revert l i. induction fuel as [|fuel IH]; intros l i Hlo Hi Hc Hlen Hf Hex Hbr HQ; [lia|].
  cbn [heapify]. rewrite !wrap_small by lia. cbv zeta.
  destruct (el_Some l i ltac:(lia)) as [a Ha].
  assert (∀ m b, m / 2 = i → m ≤ cnt → el l m = Some b → le a b →
    (∀ j, 2 ≤ j ≤ cnt → j / 2 = i → ole l j m) →
    wp (if m =? i then mret tt else do_swap i m;; heapify compare fuel m cnt) l Q) as Hdown.
  { intros m b Hm Hmc Hb Hab Hmax. rewrite (proj2 (Z.eqb_neq m i)) by lia.
    destruct (swap_down l lo cnt i m a b Hlo Hm Hmc ltac:(lia) Hex Hbr Ha Hb Hab Hmax) as [Hex' Hbr'].
    pose proof (rearranged_swap lo cnt l i m a b ltac:(lia) ltac:(lia) ltac:(lia) Ha Hb) as Hre.
    wp_step. apply (wp_do_swap _ _ _ a b); [done..|].
    apply IH; [lia|lia|lia| |lia|done|done|].
    - unfold swapped. by rewrite !length_insert.
    - intros l' Hh Hre'. apply HQ; [done|]. by eapply rearranged_trans. }
  assert (∀ j, 2 ≤ j → j / 2 = i → j = 2 * i ∨ j = 2 * i + 1) as Hch by lia.
  wp_step. apply (wp_greater l (2 * i) cnt i a); [lia|done|done| |].
  - intros Hl b Hb Hgt. cbv iota. wp_step. apply (wp_greater l (2 * i + 1) cnt (2 * i) b); [lia|done|done| |].
    + intros Hr c Hcc Hgt'. cbv iota. apply (Hdown _ c); [lia|lia|done| |].
      * apply (compare_trans a b c); by apply le_greater.
      * intros j Hj Hji x y Hx Hy. assert (y = c) as -> by congruence.
        destruct (Hch j ltac:(lia) Hji) as [->| ->]; [|replace x with c by congruence; apply le_refl].
        replace x with b by congruence. by apply le_greater.
    + intros Hr. cbv iota. apply (Hdown _ b); [lia|lia|done|by apply le_greater|].
      intros j Hj Hji x y Hx Hy. assert (y = b) as -> by congruence.
      destruct (Hch j ltac:(lia) Hji) as [->| ->]; [replace x with b by congruence; apply le_refl|].
      by apply Hr; [lia|].
  - intros Hl. cbv iota. wp_step. apply (wp_greater l (2 * i + 1) cnt i a); [lia|done|done| |].
    + intros Hr c Hcc Hgt. cbv iota. apply (Hdown _ c); [lia|lia|done|by apply le_greater|].
      intros j Hj Hji x y Hx Hy. assert (y = c) as -> by congruence.
      destruct (Hch j ltac:(lia) Hji) as [->| ->]; [|replace x with c by congruence; apply le_refl].
      apply (compare_trans x a c); [by apply Hl; [lia|]|by apply le_greater].
    + intros Hr. cbv iota. rewrite Z.eqb_refl. wp_step. apply HQ; [|apply rearranged_refl].
      intros j Hj Hlj. destruct (decide (j / 2 = i)) as [Hji|]; [|by apply Hex].
      intros x y Hx Hy. assert (y = a) as -> by congruence.
      destruct (Hch j ltac:(lia) Hji) as [->| ->]; [by apply Hl; [lia|]|by apply Hr; [lia|]].
Qed.

Lemma wp_build_loop fuel n l cnt Q :
  Z.of_nat n ≤ cnt → cnt < 2 ^ 31 → cnt = Z.of_nat (length l) → cnt < Z.of_nat fuel →
  heap l (Z.of_nat n + 1) cnt →
  (∀ l', heap l' 1 cnt → l' ≡ₚ l → Q tt l') →
  wp (build_loop compare fuel n cnt) l Q.
Proof.
  revert l. induction n as [|n IH]; intros l Hn Hc Hlen Hf Hh HQ; cbn [build_loop].
  { wp_step. by apply HQ. }
  wp_step. apply (wp_heapify fuel l (Z.of_nat (S n)) cnt); [lia|lia|lia|lia|lia| | |].
  - intros j Hj Hlj Hne. apply Hh; lia.
  - intros j Hj Hji Hle. lia.
  - intros l1 Hh1 [Hp _ _]. apply IH; [lia|lia|by rewrite Hp|lia| |].
    + by replace (Z.of_nat n + 1) with (Z.of_nat (S n)) by lia.
    + intros l' Hh' Hp'. apply HQ; [done|]. by rewrite Hp'.
Qed.

(** The first element of a heap is its greatest one. *)
Lemma heap_max l cnt j : heap l 1 cnt → cnt ≤ Z.of_nat (length l) → 1 ≤ j ≤ cnt → ole l j 1.
Proof.
  intros Hh Hc. assert (∀ n k, 1 ≤ k ≤ cnt → Z.to_nat k = n → ole l k 1) as H; [|by eauto].
  intros n. induction (lt_wf n) as [n _ IH]; intros k Hk E.
  destruct (decide (k = 1)) as [->|].
  { intros x y Hx Hy. replace y with x by congruence. apply le_refl. }
  destruct (el_Some l (k / 2) ltac:(lia)) as [z Hz]. intros x y Hx Hy.
  apply (compare_trans x z y); [by apply (Hh k); [lia|lia|..]|].
  by apply (IH (Z.to_nat (k / 2)) ltac:(lia) (k / 2) ltac:(lia) eq_refl).
Qed.

(** From [i] on the elements are in order, and at least the ones before. *)
Definition sorted_from l (i : Z) : Prop :=
  ∀ j k, 1 ≤ j ≤ k → i ≤ k → k ≤ Z.of_nat (length l) → ole l j k.

Lemma wp_extract_loop fuel n l Q :
  Z.of_nat n + 1 ≤ Z.of_nat (length l) → Z.of_nat (length l) < 2 ^ 31 →
  Z.of_nat (length l) < Z.of_nat fuel →
  heap l 1 (Z.of_nat n + 1) → sorted_from l (Z.of_nat n + 2) →
  (∀ l', l' ≡ₚ l → sorted_from l' 2 → Q tt l') →
  wp (extract_loop compare fuel n) l Q.
Proof.
  revert l. induction n as [|n IH]; intros l Hn Hc Hf Hh Hs HQ; cbn [extract_loop].
  { wp_step. by apply HQ. }
  set (i := Z.of_nat (S n) + 1) in *.
  destruct (el_Some l 1 ltac:(lia)) as [a Ha]. destruct (el_Some l i ltac:(lia)) as [b Hb].
  wp_step. apply (wp_do_swap _ _ _ a b); [done..|]. set (l1 := swapped 1 i a b l).
  assert (length l1 = length l) as Hlen1 by (unfold l1, swapped; by rewrite !length_insert).
  assert (∀ k, el l1 k = if k =? i then Some a else if k =? 1 then Some b else el l k) as Hl1
    by (intros k; by apply el_swapped).
  assert (sorted_from l1 i) as Hs1.
  { intros j k Hjk Hik Hkl x y. rewrite !Hl1. destruct (Z.eqb_spec k i) as [->|].
    - intros Hx [= <-]. destruct (Z.eqb_spec j i); [simplify_eq; apply le_refl|].
      destruct (Z.eqb_spec j 1); [|by apply (heap_max l i j); [done|lia|lia|..]].
      simplify_eq. by apply (heap_max l i i); [done|lia|lia|..].
    - rewrite (proj2 (Z.eqb_neq k 1)) by lia. intros Hx Hy.
      assert (∃ j', 1 ≤ j' ≤ k ∧ el l j' = Some x) as (j' & Hj' & Hx').
      { destruct (Z.eqb_spec j i); [exists 1; simplify_eq; split; [lia|done]|].
        destruct (Z.eqb_spec j 1); [exists i; simplify_eq; split; [lia|done]|]. by exists j. }
      by apply (Hs j' k); [lia|lia|lia|..]. }
  wp_step. apply (wp_heapify fuel l1 1 (i - 1)); [lia|lia|lia|lia|lia| | |].
  - intros j Hj Hlj Hne x y. rewrite !Hl1. 
    rewrite !(proj2 (Z.eqb_neq _ i)), !(proj2 (Z.eqb_neq _ 1)) by lia. apply Hh; lia.
  - intros j Hj Hji Hle. lia.
  - intros l2 Hh2 [Hp2 Ho2 Hi2]. assert (length l2 = length l1) by (by rewrite Hp2).
    replace (i - 1) with (Z.of_nat n + 1) in Hh2 by lia.
    apply IH; [lia|lia|lia|done| |].
    + intros j k Hjk Hik Hkl x y Hx Hy. rewrite Ho2 in Hy by lia.
      destruct (decide (j ≤ i - 1)) as [Hj|Hj].
      * apply (Hi2 (λ x, ∀ y, el l1 k = Some y → le x y)) with j; [|lia|done|done].
        intros j' x' Hj' Hx' y' Hy'. by apply (Hs1 j' k); [lia|lia|lia|..].
      * rewrite Ho2 in Hx by lia. by apply (Hs1 j k); [lia|lia|lia|..].
    + intros l' Hp' Hs'. apply HQ; [|done]. rewrite Hp', Hp2. by apply swapped_perm.
Qed.

Lemma sorted_from_Sorted l : sorted_from l 2 → StronglySorted le l.
Proof.
  intros Hs. assert (∀ j k x y, (j < k)%nat → l !! j = Some x → l !! k = Some y → le x y) as H.
  { intros j k x y Hjk Hx Hy. pose proof (lookup_lt_Some _ _ _ Hy).
    apply (Hs (Z.of_nat j + 1) (Z.of_nat k + 1)); [lia|lia|lia|..]; unfold el;
      rewrite (proj2 (Z.leb_le 1 _)) by lia.
    - by replace (Z.to_nat (Z.of_nat j + 1 - 1)) with j by lia.
    - by replace (Z.to_nat (Z.of_nat k + 1 - 1)) with k by lia. }
  clear Hs. induction l as [|a l IH]; constructor.
  - apply IH. intros j k x y Hjk Hx Hy. apply (H (S j) (S k)); [lia|done|done].
  - apply Forall_forall. intros x [j Hj]%list_elem_of_lookup. apply (H 0%nat (S j)); [lia|done|done].
Qed.
End heap.

(** sort (and qsort) terminates and leaves a sorted permutation of the array,
    for any COMPARE that is a total preorder; the elements are fewer than 2^31, so
    that no index overflows. *)
Theorem sort_correct {A} (compare : A → A → Z) `{!CompareLaws compare} (l : list A) (size : Z) (fuel : nat) :
  0 < size → Z.of_nat (length l) < 2 ^ 31 → (length l < fuel)%nat →
  wp (sort compare fuel size) l (λ _ l',
    l' ≡ₚ l ∧ StronglySorted (λ x y, compare x y ≤ 0) l').
Proof.
  intros Hz Hc Hf. unfold sort. repeat wp_step; [by apply Z.ltb_lt|].
  apply wp_build_loop; [done|lia|lia|done|lia| |].
  { intros j Hj Hlj. lia. }
  intros l1 Hh1 Hp1. assert (length l1 = length l) as El by (by rewrite Hp1).
  destruct (decide (length l = 0%nat)) as [E|E].
  { rewrite E. simpl. wp_step. split; [done|]. destruct l1; [constructor|]. simpl in El. lia. }
  apply wp_extract_loop; [done|lia|lia|lia| | |].
  - by replace (Z.of_nat (Z.to_nat (Z.of_nat (length l) - 1)) + 1) with (Z.of_nat (length l)) by lia.
  - intros j k Hjk Hk Hkl. lia.
  - intros l' Hp' Hs'. split; [by rewrite Hp'|]. by apply sorted_from_Sorted.
Qed.

#[export] Instance sub_laws : CompareLaws Z.sub.
Proof. split; intros; lia. Qed.

Lemma sort_correct_witness :
  wp (sort Z.sub 9 4) [5; 3; 9; 1; 5; 0; 7] (λ _ l',
    l' ≡ₚ [5; 3; 9; 1; 5; 0; 7] ∧ StronglySorted (λ x y, x - y ≤ 0) l').
Proof. apply (sort_correct Z.sub [5; 3; 9; 1; 5; 0; 7] 4 9); [done|done|simpl; lia]. Defined.

(** ** Binary search *)

(** The array is in order as far as comparisons with KEY can tell. *)
Definition ordered_for {A K} (cmp : K → A → Z) (key : K) (l : list A) : Prop :=
  ∀ i j x y, (i ≤ j)%nat → l !! i = Some x → l !! j = Some y →
    (cmp key x < 0 → cmp key y < 0) ∧ (0 < cmp key y → 0 < cmp key x).

Lemma search_loop_spec {A K} (cmp : K → A → Z) key (l : list A) fuel first last :
  ordered_for cmp key l → 0 ≤ first ≤ last → last ≤ Z.of_nat (length l) →
  last - first < Z.of_nat fuel →
  (∀ i x, l !! i = Some x → Z.of_nat i < first → 0 < cmp key x) →
  (∀ i x, l !! i = Some x → last ≤ Z.of_nat i → cmp key x < 0) →
  match search_loop cmp fuel key l first last with
  | Ok (Some m) => 0 ≤ m ∧ ∃ x, l !! Z.to_nat m = Some x ∧ cmp key x = 0
  | Ok None => ∀ x, x ∈ l → cmp key x ≠ 0
  | _ => False
  end.
Proof.
  intros Hord. revert first last. induction fuel as [|fuel IH]; intros first last Hfl Hlen Hf Hlo Hhi; [lia|].
  simpl. destruct (Z.ltb_spec first last) as [Hlt|Hge].
  - set (m := first + (last - first) / 2). assert (first ≤ m < last) by (unfold m; lia).
    destruct (lookup_lt_is_Some_2 l (Z.to_nat m)) as [x Hx]; [lia|]. rewrite Hx.
    destruct (Z.ltb_spec (cmp key x) 0) as [Hc|Hc]; [|destruct (Z.ltb_spec 0 (cmp key x)) as [Hc'|Hc']].
    + apply IH; [lia|lia|lia|done|]. intros i y Hy Hi.
      by apply (Hord (Z.to_nat m) i x y); [lia|..].
    + apply IH; [lia|lia|lia| |done]. intros i y Hy Hi.
      by apply (Hord i (Z.to_nat m) y x); [lia|..].
    + split; [lia|]. exists x. split; [done|lia].
  - intros x [i Hi]%list_elem_of_lookup. destruct (decide (Z.of_nat i < first)).
    + pose proof (Hlo i x Hi). lia.
    + pose proof (Hhi i x Hi). lia.
Qed.

(** binary_search (and bsearch) on an array in order returns, within as many
    iterations as there are elements, the index of an element equal to KEY, and a
    null pointer only if no element is. *)
Theorem binary_search_correct {A K} (cmp : K → A → Z) (key : K) (l : list A) (fuel : nat) :
  ordered_for cmp key l → (length l < fuel)%nat →
  match binary_search cmp fuel key l with
  | Ok (Some m) => 0 ≤ m ∧ ∃ x, l !! Z.to_nat m = Some x ∧ cmp key x = 0
  | Ok None => ∀ x, x ∈ l → cmp key x ≠ 0
  | _ => False
  end.
Proof.
  intros Hord Hf. apply search_loop_spec; [done|lia|lia|lia|lia|].
  intros i x Hi%lookup_lt_Some. lia.
Qed.

Lemma binary_search_correct_witness :
  match binary_search Z.sub 9 7 [1; 3; 7; 8; 20] with
  | Ok (Some m) => 0 ≤ m ∧ ∃ x, [1; 3; 7; 8; 20] !! Z.to_nat m = Some x ∧ 7 - x = 0
  | Ok None => ∀ x, x ∈ [1; 3; 7; 8; 20] → 7 - x ≠ 0
  | _ => False
  end.
Proof.
  apply (binary_search_correct Z.sub 7 [1; 3; 7; 8; 20] 9); [|simpl; lia].
  intros i j x y Hij Hi Hj. enough (x ≤ y) by lia.
  do 6 (destruct i as [|i]; [do 6 (destruct j as [|j]; [simplify_eq/=; lia|]); done|]). done.
Defined.

(** ** atoi *)

(** The number whose decimal digits after those of [v] are [ds]. *)
Definition digits_from (v : Z) (ds : list Z) : Z := foldl (λ v d, 10 * v + d) v ds.

Lemma digits_from_ge ds v : Forall (λ d, 0 ≤ d ≤ 9) ds → 0 ≤ v → v ≤ digits_from v ds.
Proof.
  intros Hds. revert v. induction Hds as [|d ds Hd _ IH]; intros v Hv; [done|].
  unfold digits_from in *. simpl. specialize (IH (10 * v + d)). lia.
Qed.

Lemma atoi_digits_spec ds rest v :
  Forall (λ d, 0 ≤ d ≤ 9) ds → match rest with c :: _ => isdigit c = false | [] => True end →
  0 ≤ v → digits_from v ds ≤ 2 ^ 31 →
  atoi_digits (((λ d, 48 + d) <$> ds) ++ rest) (- v) = - digits_from v ds.
Proof.
  intros Hds Hr. revert v. induction Hds as [|d ds Hd Hds IH]; intros v Hv Hb.
  { simpl. destruct rest as [|c rest]; [done|]. simpl. by rewrite Hr. }
  change (digits_from v (d :: ds)) with (digits_from (10 * v + d) ds) in *.
  pose proof (digits_from_ge ds (10 * v + d) Hds ltac:(lia)).
  cbn [fmap list_fmap app atoi_digits]. unfold isdigit.
  rewrite (proj2 (Z.leb_le 48 (48 + d))), (proj2 (Z.leb_le (48 + d) 57)) by lia. cbn [andb].
  replace (- v * 10 - (48 + d - 48)) with (- (10 * v + d)) by lia.
  rewrite swrap_small by lia. apply IH; lia.
Qed.

(** A sign as a number and as characters. *)
Definition sign_chars (neg plus : bool) : list Z := if neg then [45] else if plus then [43] else [].

Lemma skip_space_app ws s :
  Forall (λ c, isspace c = true) ws → match s with c :: _ => isspace c = false | [] => True end →
  skip_space (ws ++ s) = s.
Proof.
  intros Hws Hs. induction Hws as [|c ws Hc _ IH]; simpl; [|by rewrite Hc].
  destruct s as [|c s]; [done|]. simpl. by rewrite Hs.
Qed.

Lemma atoi_spec (ws ds rest : list Z) (neg plus : bool) :
  Forall (λ c, isspace c = true) ws → ds ≠ [] → Forall (λ d, 0 ≤ d ≤ 9) ds →
  match rest with c :: _ => isdigit c = false | [] => True end →
  let v := if neg then - digits_from 0 ds else digits_from 0 ds in
  - 2 ^ 31 ≤ v < 2 ^ 31 →
  atoi (ws ++ sign_chars neg plus ++ ((λ d, 48 + d) <$> ds) ++ rest) = v.
Proof.
  intros Hws Hne Hds Hr v Hv. pose proof (digits_from_ge ds 0 Hds ltac:(lia)) as Hge.
  pose proof (atoi_digits_spec ds rest 0 Hds Hr ltac:(lia)) as Hd. simpl in Hd.
  assert (∀ s, match ((λ d, 48 + d) <$> ds) ++ s with c :: _ => 48 ≤ c ≤ 57 | [] => False end) as Hhd.
  { intros s. destruct Hds; [done|]. simpl. lia. }
  specialize (Hhd rest). unfold atoi. rewrite skip_space_app; [|done|].
  2: { destruct neg, plus; [done..|]. simpl. destruct (_ ++ rest) as [|c s]; [done|]. unfold isspace.
       rewrite !(proj2 (Z.eqb_neq c _)) by lia. done. }
  destruct neg; simpl; [apply Hd; lia|].
  assert (∀ s, atoi_digits s 0 = - digits_from 0 ds → s32 (- atoi_digits s 0) = v) as Hneg.
  { intros s ->. rewrite Z.opp_involutive. apply swrap_small; lia. }
  destruct plus; simpl; [by apply Hneg, Hd; lia|].
  destruct (_ ++ rest) as [|c s] eqn:E; [done|].
  rewrite (proj2 (Z.eqb_neq c 43)), (proj2 (Z.eqb_neq c 45)) by lia. cbn [negb].
  apply Hneg, Hd. lia.
Qed.

(** atoi of white space, an optional sign, decimal digits and a rest that does
    not start with a digit is the number the digits write, for every int,
    INT_MIN included. *)
Theorem atoi_correct (ws ds rest : list Z) (neg plus : bool) :
  Forall (λ c, isspace c = true) ws → ds ≠ [] → Forall (λ d, 0 ≤ d ≤ 9) ds →
  match rest with c :: _ => isdigit c = false | [] => True end →
  let v := if neg then - digits_from 0 ds else digits_from 0 ds in
  - 2 ^ 31 ≤ v < 2 ^ 31 →
  atoi (ws ++ sign_chars neg plus ++ ((λ d, 48 + d) <$> ds) ++ rest) = v.
Proof. apply atoi_spec. Qed.

Lemma atoi_correct_witness : atoi ([32; 9] ++ [45] ++ [50; 49; 52; 55; 52; 56; 51; 54; 52; 56] ++ [120]) = - 2 ^ 31.
Proof.
  apply (atoi_correct [32; 9] [2; 1; 4; 7; 4; 8; 3; 6; 4; 8] [120] true false);
    [by repeat constructor|done|by repeat constructor|done|done].
Defined.
