(* ===== verification/Printf.v ===== *)
(** * Formatted output: lib/stdio.c

    A format is the list of its characters; running off its end is reading past
    the null byte, a fault.  Output is the list of the characters given to OUTPUT,
    in order.  A va_list is a list of arguments: [A32] for the 32-bit types (int,
    long, size_t, ptrdiff_t and pointers printed with %p), [A64] for intmax_t and
    long long, [AStr] for char * ([None] is a null pointer).  Fetching an argument
    of another type, or one that is not there, is a fault.  Character codes are
    written as numbers with the character in a comment. *)

From Stdlib Require Import Ascii String.
From S2P Require Import Prelude SortSearch.
Local Open Scope Z_scope.

(** The codes of a string literal. *)
Fixpoint chars (s : string) : list Z :=
  match s with
  | EmptyString => []
  | String c s => Z.of_nat (nat_of_ascii c) :: chars s
  end.

Inductive arg := A32 (z : Z) | A64 (z : Z) | AStr (s : option (list Z)).

(** Flags of struct printf_conversion. *)
Definition MINUS : Z := 1.
Definition PLUS : Z := 2.
Definition SPACE : Z := 4.
Definition POUND : Z := 8.
Definition ZERO : Z := 16.
Definition GROUP : Z := 32.
Inductive conv_type := CHAR | SHORT | INT | INTMAX | LONG | LONGLONG | PTRDIFFT | SIZET.
Record printf_conversion := mk_conv { flags : Z; width : Z; precision : Z; type : conv_type }.

Record integer_base := mk_base { base : Z; digits : list Z; base_x_char : Z; group : Z }.
Definition base_d : integer_base := mk_base 10 [48; 49; 50; 51; 52; 53; 54; 55; 56; 57] 0 3.
Definition base_o : integer_base := mk_base 8 [48; 49; 50; 51; 52; 53; 54; 55] 0 3.
Definition base_x : integer_base :=
  mk_base 16 [48; 49; 50; 51; 52; 53; 54; 55; 56; 57; 97; 98; 99; 100; 101; 102] 120 4.
Definition base_X : integer_base :=
  mk_base 16 [48; 49; 50; 51; 52; 53; 54; 55; 56; 57; 65; 66; 67; 68; 69; 70] 88 4.

Definition has (f flag : Z) : bool := negb (Z.land f flag =? 0).

(** Results without a state. *)
Definition rbind {A B} (m : result A) (k : A → result B) : result B :=
  match m with Ok a => k a | Panic => Panic | Fault => Fault | Fuel => Fuel end.
Notation "'let?' x := m 'in' k" := (rbind m (λ x, k)) (at level 200, x pattern, right associativity).

Definition va_arg32 (args : list arg) : result (Z * list arg) :=
  match args with A32 z :: args => Ok (z, args) | _ => Fault end.
Definition va_arg64 (args : list arg) : result (Z * list arg) :=
  match args with A64 z :: args => Ok (z, args) | _ => Fault end.
Definition va_str (args : list arg) : result (option (list Z) * list arg) :=
  match args with AStr s :: args => Ok (s, args) | _ => Fault end.

(** ** Parsing a conversion *)

Fixpoint parse_flags (format : list Z) (f : Z) : Z * list Z :=
  match format with
  | c :: format' =>
    if c =? 45 (* - *) then parse_flags format' (Z.lor f MINUS)
    else if c =? 43 (* + *) then parse_flags format' (Z.lor f PLUS)
    else if c =? 32 (* space *) then parse_flags format' (Z.lor f SPACE)
    else if c =? 35 (* # *) then parse_flags format' (Z.lor f POUND)
    else if c =? 48 (* 0 *) then parse_flags format' (Z.lor f ZERO)
    else if c =? 39 (* ' *) then parse_flags format' (Z.lor f GROUP)
    else (f, format)
  | [] => (f, [])
  end.
Fixpoint parse_number (format : list Z) (n : Z) : Z * list Z :=
  match format with
  | c :: format' => if isdigit c then parse_number format' (s32 (n * 10 + c - 48)) else (n, format)
  | [] => (n, [])
  end.
(** A star takes the next argument, digits are a number. *)
Definition parse_star (format : list Z) (args : list arg) : result (Z * list Z * list arg) :=
  match format with
  | c :: format' =>
    if c =? 42 (* * *) then let? (n, args) := va_arg32 args in Ok (s32 n, format', args)
    else let '(n, format) := parse_number format 0 in Ok (n, format, args)
  | [] => Ok (0, [], args)
  end.
Definition parse_type (format : list Z) : conv_type * list Z :=
  match format with
  | c :: format' =>
    if c =? 104 (* h *) then
      match format' with
      | c' :: format'' => if c' =? 104 then (CHAR, format'') else (SHORT, format')
      | [] => (SHORT, format')
      end
    else if c =? 106 (* j *) then (INTMAX, format')
    else if c =? 108 (* l *) then
      match format' with
      | c' :: format'' => if c' =? 108 then (LONGLONG, format'') else (LONG, format')
      | [] => (LONG, format')
      end
    else if c =? 116 (* t *) then (PTRDIFFT, format')
    else if c =? 122 (* z *) then (SIZET, format')
    else (INT, format)
  | [] => (INT, [])
  end.
Definition parse_conversion (format : list Z) (args : list arg) :
    result (printf_conversion * list Z * list arg) :=
  let '(f, format) := parse_flags format 0 in
  let f := if has f MINUS then Z.land f (Z.lnot ZERO) else f in
  let f := if has f PLUS then Z.land f (Z.lnot SPACE) else f in
  let? (w, format, args) := parse_star format args in
  let '(w, f) := if w <? 0 then (s32 (- w), Z.lor f MINUS) else (w, f) in
  let? (p, format, args) :=
    match format with
    | c :: format' =>
      if c =? 46 (* . *) then
        let? (p, format, args) := parse_star format' args in
        Ok (if p <? 0 then -1 else p, format, args)
      else Ok (-1, format, args)
    | [] => Ok (-1, [], args)
    end in
  let f := if 0 <=? p then Z.land f (Z.lnot ZERO) else f in
  let '(t, format) := parse_type format in
  Ok (mk_conv f w p t, format, args).

(** ** Conversions *)

Definition output_dup (ch cnt : Z) : list Z := replicate (Z.to_nat cnt) ch.

(** *cp++ = ch, where [buf] are the characters of the 64-byte buffer, last one
    first. *)
Definition push (ch : Z) (buf : list Z) : result (list Z) :=
  if Z.of_nat (length buf) <? 64 then Ok (ch :: buf) else Fault.

Fixpoint digits_loop (fuel : nat) (b : integer_base) (grp : bool) (value digit_cnt : Z) (buf : list Z) :
    result (list Z) :=
  if 0 <? value then
    match fuel with
    | O => Fuel
    | S fuel =>
      let? buf := if grp && (0 <? digit_cnt) && (digit_cnt mod group b =? 0)
                  then push 44 (* , *) buf else Ok buf in
      let? buf := match digits b !! Z.to_nat (value mod base b) with
                  | Some ch => push ch buf | None => Fault end in
      digits_loop fuel b grp (value / base b) (digit_cnt + 1) buf
    end
  else Ok buf.
(** while (cp - buf < precision && cp < buf + sizeof buf - 1) *cp++ = '0'; *)
Definition zeros (precision : Z) (buf : list Z) : list Z :=
  replicate (Z.to_nat (Z.min precision 63 - Z.of_nat (length buf))) 48 ++ buf.

Definition format_integer (value : Z) (is_signed negative : bool) (b : integer_base)
    (c : printf_conversion) : result (list Z) :=
  let sign :=
    if is_signed then
      if has (flags c) PLUS then if negative then 45 else 43
      else if has (flags c) SPACE then if negative then 45 else 32
      else if negative then 45 else 0
    else 0 in
  let x := if has (flags c) POUND && negb (value =? 0) then base_x_char b else 0 in
  let? buf := digits_loop 64 b (has (flags c) GROUP) value 0 [] in
  let precision := if precision c <? 0 then 1 else precision c in
  let buf := zeros precision buf in
  let? buf :=
    if has (flags c) POUND && (base b =? 8) &&
       match buf with [] => true | ch :: _ => negb (ch =? 48) end
    then push 48 buf else Ok buf in
  let pad_cnt := width c - Z.of_nat (length buf) - (if x =? 0 then 0 else 2) - (if sign =? 0 then 0 else 1) in
  let pad_cnt := if pad_cnt <? 0 then 0 else pad_cnt in
  Ok ((if negb (has (flags c) (Z.lor MINUS ZERO)) then output_dup 32 pad_cnt else []) ++
      (if sign =? 0 then [] else [sign]) ++
      (if x =? 0 then [] else [48; x]) ++
      (if has (flags c) ZERO then output_dup 48 pad_cnt else []) ++
      buf ++
      (if has (flags c) MINUS then output_dup 32 pad_cnt else [])).

Definition format_string (string : list Z) (c : printf_conversion) : list Z :=
  let length := Z.of_nat (length string) in
  (if (length <? width c) && negb (has (flags c) MINUS) then output_dup 32 (width c - length) else []) ++
  string ++
  (if (length <? width c) && has (flags c) MINUS then output_dup 32 (width c - length) else []).

(** The value of a %d argument, and of a %u, %o, %x or %X argument. *)
Definition signed_value (t : conv_type) (args : list arg) : result (Z * list arg) :=
  match t with
  | CHAR => let? (z, args) := va_arg32 args in Ok (swrap 8 z, args)
  | SHORT => let? (z, args) := va_arg32 args in Ok (swrap 16 z, args)
  | INT | LONG | PTRDIFFT => let? (z, args) := va_arg32 args in Ok (s32 z, args)
  | INTMAX | LONGLONG => let? (z, args) := va_arg64 args in Ok (s64 z, args)
  | SIZET =>
    let? (z, args) := va_arg32 args in
    let value := u32 z in
    Ok (if (2 ^ 32 - 1) / 2 <? value then value - (2 ^ 32 - 1) - 1 else value, args)
  end.
Definition unsigned_value (t : conv_type) (args : list arg) : result (Z * list arg) :=
  match t with
  | CHAR => let? (z, args) := va_arg32 args in Ok (u8 z, args)
  | SHORT => let? (z, args) := va_arg32 args in Ok (wrap 16 z, args)
  | INT | LONG | SIZET => let? (z, args) := va_arg32 args in Ok (u32 z, args)
  | INTMAX | LONGLONG => let? (z, args) := va_arg64 args in Ok (u64 z, args)
  | PTRDIFFT =>
    let? (z, args) := va_arg32 args in
    Ok (Z.land (u64 (s32 z)) (Z.lor (Z.shiftl (2 ^ 31 - 1) 1) 1), args)
  end.

(** ** The interpreter of formats *)
Fixpoint __vprintf (fuel : nat) (format : list Z) (args : list arg) : result (list Z) :=
  match fuel with
  | O => Fuel
  | S fuel =>
    match format with
    | [] => Ok []
    | c :: format =>
      if negb (c =? 37 (* % *)) then
        let? out := __vprintf fuel format args in Ok (c :: out)
      else
      match format with
      | c :: format' =>
        if c =? 37 then let? out := __vprintf fuel format' args in Ok (37 :: out) else
        let? (cv, format, args) := parse_conversion format args in
        (** *format, a null byte at the end of the format *)
        let c := match format with c :: _ => c | [] => 0 end in
        let? (out, args) :=
          if (c =? 100 (* d *)) || (c =? 105 (* i *)) then
            let? (value, args) := signed_value (type cv) args in
            let? out := format_integer (u64 (if value <? 0 then - value else value))
                          true (value <? 0) base_d cv in
            Ok (out, args)
          else if (c =? 111 (* o *)) || (c =? 117 (* u *)) || (c =? 120 (* x *)) || (c =? 88 (* X *)) then
            let? (value, args) := unsigned_value (type cv) args in
            let b := if c =? 111 then base_o else if c =? 117 then base_d
                     else if c =? 120 then base_x else base_X in
            let? out := format_integer value false false b cv in
            Ok (out, args)
          else if c =? 99 (* c *) then
            let? (z, args) := va_arg32 args in Ok (format_string [u8 z] cv, args)
          else if c =? 115 (* s *) then
            let? (s, args) := va_str args in
            let s := default (chars "(null)") s in
            let s := if precision cv <? 0 then s else take (Z.to_nat (precision cv)) s in
            Ok (format_string s cv, args)
          else if c =? 112 (* p *) then
            let? (p, args) := va_arg32 args in
            let? out := format_integer (u32 p) false false base_x
                          (mk_conv POUND (width cv) (precision cv) (type cv)) in
            Ok (out, args)
          else if (c =? 102 (* f *)) || (c =? 101 (* e *)) || (c =? 69 (* E *)) ||
                  (c =? 103 (* g *)) || (c =? 71 (* G *)) || (c =? 110 (* n *)) then
            let? out := __vprintf fuel (chars "<<no %%%c in kernel>>") [A32 c] in Ok (out, args)
          else
            let? out := __vprintf fuel (chars "<<no %%%c conversion>>") [A32 c] in Ok (out, args) in
        match format with
        | [] => Fault (** format++ steps over the null byte *)
        | _ :: format => let? rest := __vprintf fuel format args in Ok (out ++ rest)
        end
      | [] => (** the null byte after a lone % is taken as the conversion *) Fault
      end
    end
  end.

(** ** Output to a buffer *)

(** struct vsnprintf_aux: the characters stored so far, last one first, the length
    of the output and the maximal length of the output string. *)
Record vsnprintf_aux := mk_aux { p : list Z; aux_length : Z; max_length : Z }.
Definition vsnprintf_helper (aux : vsnprintf_aux) (ch : Z) : vsnprintf_aux :=
  mk_aux (if aux_length aux <? max_length aux then ch :: p aux else p aux)
    (aux_length aux + 1) (max_length aux).
(** The bytes stored in BUFFER and the return value. *)
Definition vsnprintf (fuel : nat) (buf_size : Z) (format : list Z) (args : list arg) :
    result (list Z * Z) :=
  let aux := mk_aux [] 0 (if 0 <? buf_size then buf_size - 1 else 0) in
  let? out := __vprintf fuel format args in
  let aux := foldl vsnprintf_helper aux out in
  Ok (reverse (if 0 <? buf_size then 0 :: p aux else p aux), aux_length aux).
Definition snprintf := vsnprintf.

(** print_human_readable_size: the number and the index of its unit. *)
Fixpoint human_loop (factors : list string) (size : Z) : result (list Z) :=
  match factors with
  | [] => Fault
  | f :: factors' =>
    match factors' with
    | _ :: _ => if 1024 <=? size then human_loop factors' (size / 1024)
                else __vprintf 100 (chars "%llu %s") [A64 size; AStr (Some (chars f))]
    | [] => __vprintf 100 (chars "%llu %s") [A64 size; AStr (Some (chars f))]
    end
  end.
Definition print_human_readable_size (size : Z) : result (list Z) :=
  if size =? 1 then __vprintf 100 (chars "1 byte") []
  else human_loop ["bytes"; "kB"; "MB"; "GB"; "TB"]%string size.

(** ** Digits *)

(** The number with the digits [ds] in base [B], and its characters. *)
Definition value_of (B : Z) (ds : list Z) : Z := foldl (λ v d, B * v + d) 0 ds.
Definition digit_chars (b : integer_base) (ds : list Z) : list Z :=
  (λ d, default 0 (digits b !! Z.to_nat d)) <$> ds.

(** The four bases have a digit for each value. *)
Record base_ok (b : integer_base) : Prop := {
  bo_range : 8 ≤ base b ≤ 16;
  bo_digits : Z.of_nat (length (digits b)) = base b;
  bo_group : 0 < group b
}.
Lemma base_d_ok : base_ok base_d. Proof. by split. Qed.
Lemma base_o_ok : base_ok base_o. Proof. by split. Qed.
Lemma base_x_ok : base_ok base_x. Proof. by split. Qed.
Lemma base_X_ok : base_ok base_X. Proof. by split. Qed.
#[export] Hint Resolve base_d_ok base_o_ok base_x_ok base_X_ok : printf.

Lemma push_ok ch buf : (length buf < 64)%nat → push ch buf = Ok (ch :: buf).
Proof. intros. unfold push. by rewrite (proj2 (Z.ltb_lt _ _)) by lia. Qed.

Lemma digit_Some b v : base_ok b →
  digits b !! Z.to_nat (v mod base b) = Some (default 0 (digits b !! Z.to_nat (v mod base b))).
Proof.
  intros [Hb Hd _]. pose proof (Z.mod_pos_bound v (base b) ltac:(lia)).
  by destruct (lookup_lt_is_Some_2 (digits b) (Z.to_nat (v mod base b))) as [ch ->]; [lia|].
Qed.

(** The loop stops and stays in the buffer: a value below [base ^ n] has at most
    [n] digits, and there is at most one comma per digit. *)
Lemma digits_loop_total b grp n fuel v k buf :
  base_ok b → 0 ≤ v < base b ^ Z.of_nat n → (n ≤ fuel)%nat → (length buf + 2 * n ≤ 64)%nat →
  ∃ buf', digits_loop fuel b grp v k buf = Ok buf' ∧ (length buf' ≤ length buf + 2 * n)%nat.
Proof.
  intros Hb. revert fuel v k buf. induction n as [|n IH]; intros fuel v k buf Hv Hf Hl.
  { assert (v = 0) as -> by (simpl in Hv; lia). exists buf. destruct fuel; simpl; split; done || lia. }
  destruct (Z.ltb_spec 0 v) as [Hp|Hp].
  2: { exists buf. destruct fuel; simpl; rewrite (proj2 (Z.ltb_ge 0 v)) by lia; split; done || lia. }
  destruct fuel as [|fuel]; [lia|]. cbn [digits_loop]. rewrite (proj2 (Z.ltb_lt 0 v)) by lia.
  set (g := grp && _ && _).
  assert (∃ buf1, (if g then push 44 buf else Ok buf) = Ok buf1 ∧ (length buf1 ≤ length buf + 1)%nat)
    as (buf1 & -> & Hl1).
  { destruct g; [rewrite push_ok by lia|]; eexists; (split; [done|simpl; lia]). }
  cbn [rbind]. rewrite digit_Some by done. rewrite push_ok by lia. cbn [rbind].
  pose proof (bo_range _ Hb). destruct (IH fuel (v / base b) (k + 1)
    (default 0 (digits b !! Z.to_nat (v mod base b)) :: buf1)) as (buf' & -> & Hl').
  - split; [apply Z.div_pos; lia|]. apply Z.div_lt_upper_bound; [lia|].
    rewrite Nat2Z.inj_succ, Z.pow_succ_r in Hv by lia. lia.
  - lia.
  - simpl. lia.
  - exists buf'. split; [done|]. simpl in Hl'. lia.
Qed.

(** Without grouping, the buffer gets the digits of the value. *)
Lemma digits_loop_spec b n fuel v k buf :
  base_ok b → 0 ≤ v < base b ^ Z.of_nat n → (n ≤ fuel)%nat → (length buf + n ≤ 64)%nat →
  ∃ ds, digits_loop fuel b false v k buf = Ok (digit_chars b ds ++ buf) ∧ value_of (base b) ds = v ∧
    Forall (λ d, 0 ≤ d < base b) ds ∧ (length ds ≤ n)%nat ∧ (ds = [] ↔ v = 0).
Proof.
  intros Hb. pose proof (bo_range _ Hb). revert fuel v k buf.
  induction n as [|n IH]; intros fuel v k buf Hv Hf Hl.
  { assert (v = 0) as -> by (simpl in Hv; lia). exists []. destruct fuel; by split_and!. }
  destruct (Z.ltb_spec 0 v) as [Hp|Hp].
  2: { assert (v = 0) as -> by lia. exists []. destruct fuel; split_and!; done || simpl; lia. }
  destruct fuel as [|fuel]; [lia|]. cbn [digits_loop]. rewrite (proj2 (Z.ltb_lt 0 v)) by lia.
  cbn [andb rbind]. rewrite digit_Some by done. rewrite push_ok by lia. cbn [rbind].
  pose proof (Z.mod_pos_bound v (base b) ltac:(lia)).
  destruct (IH fuel (v / base b) (k + 1) (default 0 (digits b !! Z.to_nat (v mod base b)) :: buf))
    as (ds & -> & Hval & Hds & Hlen & Hnil).
  - split; [apply Z.div_pos; lia|]. apply Z.div_lt_upper_bound; [lia|].
    rewrite Nat2Z.inj_succ, Z.pow_succ_r in Hv by lia. lia.
  - lia.
  - simpl. lia.
  - exists (ds ++ [v mod base b]). split_and!.
    + unfold digit_chars. rewrite fmap_app, <-app_assoc. done.
    + unfold value_of in *. rewrite foldl_app. simpl. rewrite Hval.
      rewrite (Z.div_mod v (base b)) at 3 by lia. lia.
    + apply Forall_app. split; [done|]. by apply Forall_singleton.
    + rewrite length_app. simpl. lia.
    + split; [by destruct ds|lia].
Qed.

(** ** The theorems *)

(** A 64-bit value has at most 22 digits in base 8 or more. *)
Lemma value_bound b v : base_ok b → v < 2 ^ 64 → v < base b ^ Z.of_nat 22.
Proof.
  intros Hb Hv. pose proof (bo_range _ Hb). apply (Z.lt_le_trans _ (8 ^ 22)); [lia|].
  apply Z.pow_le_mono_l. lia.
Qed.

(** format_integer stays within its 64-byte buffer for every 64-bit value, base,
    set of flags, precision and width, and its output fills the field width. *)
Theorem format_integer_in_buffer (value : Z) (is_signed negative : bool) (b : integer_base)
    (c : printf_conversion) :
  base_ok b → 0 ≤ value < 2 ^ 64 →
  ∃ out, format_integer value is_signed negative b c = Ok out ∧ width c ≤ Z.of_nat (length out).
Proof.
  intros Hb Hv. unfold format_integer.
  destruct (digits_loop_total b (has (flags c) GROUP) 22 64 value 0 []) as (buf & -> & Hl);
    [done|split; [lia|by apply value_bound; [|lia]]|lia|simpl; lia|].
  cbn [rbind]. set (pr := if precision c <? 0 then 1 else precision c).
  assert (length (zeros pr buf) < 64)%nat as Hz.
  { unfold zeros. rewrite length_app, length_replicate. simpl in Hl. lia. }
  set (z := zeros pr buf) in *. set (g := has (flags c) POUND && _ && _).
  assert (∃ buf', (if g then push 48 z else Ok z) = Ok buf') as (buf' & ->).
  { destruct g; [rewrite push_ok by done|]; eauto. }
  cbn [rbind]. eexists. split; [done|].
  set (sign := if is_signed then _ else _). set (x := if has (flags c) POUND && _ then _ else _).
  set (pad := width c - _ - _ - _). set (pad' := if pad <? 0 then 0 else pad).
  assert (0 ≤ pad' ∧ pad ≤ pad') as [Hp0 Hp] by (unfold pad'; destruct (Z.ltb_spec pad 0); lia).
  assert (∃ k, has (flags c) (Z.lor MINUS ZERO) = k ∧
    (k = false ∨ has (flags c) ZERO = true ∨ has (flags c) MINUS = true)) as (k & -> & Hk).
  { eexists; split; [done|]. unfold has, MINUS, ZERO. 
    destruct (Z.land (flags c) 16 =? 0) eqn:E1, (Z.land (flags c) 1 =? 0) eqn:E2; simpl; try tauto.
    left. rewrite Z.land_lor_distr_r. apply Z.eqb_eq in E1, E2. by rewrite E1, E2. }
  assert (∀ ch, Z.of_nat (length (output_dup ch pad')) = pad') as Hd.
  { intros ch. unfold output_dup. rewrite length_replicate. lia. }
  pose proof (Hd 32). pose proof (Hd 48). rewrite !length_app.
  assert (Z.of_nat (length (if sign =? 0 then [] else [sign])) = if sign =? 0 then 0 else 1) by (by destruct (sign =? 0)).
  assert (Z.of_nat (length (if x =? 0 then [] else [48; x])) = if x =? 0 then 0 else 2) by (by destruct (x =? 0)).
  unfold pad in Hp. destruct Hk as [->|[->| ->]]; simpl; lia.
Qed.

Lemma format_integer_in_buffer_witness :
  ∃ out, format_integer (2 ^ 64 - 1) true true base_o (mk_conv 63 90 80 INT) = Ok out ∧
    90 ≤ Z.of_nat (length out).
Proof.
  apply (format_integer_in_buffer (2 ^ 64 - 1) true true base_o (mk_conv 63 90 80 INT)); [|done].
  apply base_o_ok.
Defined.

(** A negative width given by a star sets the - flag after the 0 flag has been
    dropped for it, so that the field is padded on both sides. *)
Lemma star_width_pads_twice :
  __vprintf 20 (chars "%0*d") [A32 (-5); A32 42] = Ok (chars "00042   ").
Proof. done. Qed.

(** The digits of %d. *)
Lemma format_d v : - 2 ^ 31 ≤ v < 2 ^ 31 →
  ∃ ds, format_integer (u64 (if v <? 0 then - v else v)) true (v <? 0) base_d (mk_conv 0 0 (-1) INT) =
      Ok (sign_chars (v <? 0) false ++ ((λ d, 48 + d) <$> ds)) ∧
    ds ≠ [] ∧ Forall (λ d, 0 ≤ d ≤ 9) ds ∧ digits_from 0 ds = Z.abs v.
Proof.
  intros Hv. replace (if v <? 0 then - v else v) with (Z.abs v).
  2: { destruct (Z.ltb_spec v 0); lia. }
  rewrite wrap_small by lia. unfold format_integer.
  destruct (digits_loop_spec base_d 22 64 (Z.abs v) 0 []) as (ds & E & Hval & Hds & Hlen & Hnil);
    [auto with printf|split; [lia|]|lia|simpl; lia|].
  { apply value_bound; [auto with printf|lia]. }
  simpl flags. change (has 0 GROUP) with false. change (has 0 PLUS) with false.
  change (has 0 SPACE) with false. change (has 0 POUND) with false. rewrite E, app_nil_r.
  cbn [rbind andb precision width]. change (-1 <? 0) with true. cbv iota.
  set (ds' := if decide (ds = []) then [0] else ds).
  assert (Forall (λ d, 0 ≤ d ≤ 9) ds') as Hds'.
  { unfold ds'. case_decide; [by apply Forall_singleton|].
    eapply Forall_impl; [apply Hds|]. simpl. intros d. lia. }
  assert (zeros 1 (digit_chars base_d ds) = (λ d, 48 + d) <$> ds') as ->.
  { unfold zeros, ds'. case_decide as Hd; [by subst|].
    replace (Z.to_nat _) with 0%nat.
    2: { unfold digit_chars. rewrite length_fmap. destruct ds; [done|]. simpl length. lia. }
    simpl. unfold digit_chars. apply list_fmap_ext. intros i d Hi.
    pose proof (Forall_lookup_1 _ _ _ _ Hds Hi) as Hd'. simpl in Hd'.
    assert (d = 0 ∨ d = 1 ∨ d = 2 ∨ d = 3 ∨ d = 4 ∨ d = 5 ∨ d = 6 ∨ d = 7 ∨ d = 8 ∨ d = 9) as Hc by lia.
    by destruct Hc as [->|[->|[->|[->|[->|[->|[->|[->|[->| ->]]]]]]]]]. }
  exists ds'. split_and!.
  - assert (ds' ≠ []) by (unfold ds'; by case_decide).
    assert (0 < Z.of_nat (length ds')) by (destruct ds'; [done|simpl length; lia]).
    rewrite (proj2 (Z.ltb_lt _ 0)) by (rewrite length_fmap; destruct (v <? 0); simpl; lia).
    change (has 0 (Z.lor MINUS ZERO)) with false. change (has 0 ZERO) with false.
    change (has 0 MINUS) with false. simpl. rewrite app_nil_r. unfold sign_chars. by destruct (v <? 0).
  - unfold ds'. by case_decide.
  - done.
  - rewrite <-Hval. unfold ds'. case_decide as Hd; [by subst|done].
Qed.

(** Printing an int with %d and parsing the output with atoi gives the int
    back, for every int. *)
Theorem printf_d_atoi (v : Z) (fuel : nat) :
  - 2 ^ 31 ≤ v < 2 ^ 31 →
  ∃ out, __vprintf (2 + fuel) (chars "%d") [A32 v] = Ok out ∧ atoi out = v.
Proof.
  intros Hv. destruct (format_d v Hv) as (ds & E & Hne & Hds & Hval).
  assert (__vprintf (2 + fuel) (chars "%d") [A32 v] =
    Ok ((sign_chars (v <? 0) false ++ ((λ d, 48 + d) <$> ds)) ++ [])) as ->.
  { simpl. rewrite (swrap_small 32 v) by lia. by rewrite E. }
  eexists; split; [done|]. rewrite app_nil_r.
  pose proof (atoi_spec [] ds [] (v <? 0) false) as Ha. simpl in Ha. rewrite app_nil_r in Ha.
  rewrite Ha; [|constructor|done|done|done|]; rewrite Hval; destruct (Z.ltb_spec v 0); lia.
Qed.

Lemma printf_d_atoi_witness :
  ∃ out, __vprintf 2 (chars "%d") [A32 (-123)] = Ok out ∧ atoi out = -123.
Proof. apply (printf_d_atoi (-123) 0). done. Defined.

Lemma helper_spec out aux :
  0 ≤ aux_length aux → foldl vsnprintf_helper aux out =
    mk_aux (reverse (take (Z.to_nat (max_length aux - aux_length aux)) out) ++ p aux)
      (aux_length aux + Z.of_nat (length out)) (max_length aux).
Proof.
  revert aux. induction out as [|ch out IH]; intros aux Hl; simpl.
  { rewrite take_nil, Z.add_0_r. by destruct aux. }
  rewrite IH by (simpl; lia). unfold vsnprintf_helper; simpl. f_equal; [|lia].
  destruct (Z.ltb_spec (aux_length aux) (max_length aux)).
  - replace (Z.to_nat (max_length aux - aux_length aux)) with
      (S (Z.to_nat (max_length aux - (aux_length aux + 1)))) by lia.
    simpl. by rewrite reverse_cons, <-app_assoc.
  - replace (Z.to_nat _) with 0%nat by lia. by replace (Z.to_nat _) with 0%nat by lia.
Qed.

Lemma vsnprintf_spec (fuel : nat) (buf_size : Z) (format out : list Z) (args : list arg) :
  __vprintf fuel format args = Ok out →
  vsnprintf fuel buf_size format args =
    Ok (if 0 <? buf_size then take (Z.to_nat (buf_size - 1)) out ++ [0] else [],
        Z.of_nat (length out)).
Proof.
  intros E. unfold vsnprintf. rewrite E. cbn [rbind]. rewrite helper_spec by done. simpl.
  rewrite app_nil_r, Z.sub_0_r. destruct (0 <? buf_size).
  - by rewrite reverse_cons, reverse_involutive.
  - by rewrite reverse_involutive.
Qed.



(** A format that ends in a lone % makes the interpreter step over the null byte. *)
Lemma lone_percent_reads_past : __vprintf 99 (chars "100%") [] = Fault.
Proof. done. Qed.
