(* ===== verification/Examples.v ===== *)
(** * Example programs: examples/cat.c, cp.c, cmp.c and lineup.c

    The programs run over a class of system calls with the behaviour that the
    documentation gives them, on a kernel whose reads across the end of a file give what
    there is, or on one whose reads across the end give nothing, as those of this kernel
    do (InodeThms.v). *)

From S2P Require Import Prelude CString.
Local Open Scope Z_scope.

Definition EXIT_SUCCESS : Z := 0.
Definition EXIT_FAILURE : Z := 1.
Definition BUFSIZE : Z := 1024.

(** What the programs print. *)
Inductive message :=
| OpenFailed (name : list Z) | CreateFailed (name : list Z) | WriteFailed (name : list Z) | Usage
| ByteDiffers (pos x : Z) (a : list Z) (y : Z) (b : list Z)
| Shorter (a b : list Z) | Identical (a b : list Z).
Inductive output := Bytes (bs : list Z) | Says (m : message).

(** [read fd n] is the bytes that the call stores in the buffer; it returns their number. *)
Class Calls (S : Type) := {
  sys_open : list Z → M S Z;
  sys_close : Z → M S unit;
  sys_create : list Z → Z → M S bool;
  sys_filesize : Z → M S Z;
  sys_read : Z → Z → M S (list Z);
  sys_write : Z → list Z → M S Z;
  sys_seek : Z → Z → M S unit;
  sys_tell : Z → M S Z;
  say : message → M S unit }.

(** ** The programs *)
Section programs.
Context {S : Type} `{!Calls S}.

(** cat.c *)
Fixpoint cat_file (fuel : nat) (fd : Z) : M S unit :=
  match fuel with
  | O => nofuel
  | Datatypes.S fuel =>
      bs ← sys_read fd BUFSIZE;
      if (length bs =? 0)%nat then mret tt
      else sys_write 1 bs;; cat_file fuel fd
  end.
Fixpoint cat_args (fuel : nat) (argv : list (list Z)) (success : bool) : M S bool :=
  match argv with
  | [] => mret success
  | name :: argv =>
      fd ← sys_open name;
      if fd <? 0 then say (OpenFailed name);; cat_args fuel argv false
      else cat_file fuel fd;; sys_close fd;; cat_args fuel argv success
  end.
Definition cat_main (fuel : nat) (argv : list (list Z)) : M S Z :=
  success ← cat_args fuel argv true;
  mret (if success : bool then EXIT_SUCCESS else EXIT_FAILURE).

(** cp.c *)
Fixpoint cp_loop (fuel : nat) (in_fd out_fd : Z) (new : list Z) : M S Z :=
  match fuel with
  | O => nofuel
  | Datatypes.S fuel =>
      bs ← sys_read in_fd BUFSIZE;
      if (length bs =? 0)%nat then mret EXIT_SUCCESS
      else
        n ← sys_write out_fd bs;
        if negb (n =? Z.of_nat (length bs)) then say (WriteFailed new);; mret EXIT_FAILURE
        else cp_loop fuel in_fd out_fd new
  end.
Definition cp_main (fuel : nat) (argv : list (list Z)) : M S Z :=
  match argv with
  | [old; new] =>
      in_fd ← sys_open old;
      if in_fd <? 0 then say (OpenFailed old);; mret EXIT_FAILURE
      else
        size ← sys_filesize in_fd;
        ok ← sys_create new size;
        if negb ok then say (CreateFailed new);; mret EXIT_FAILURE
        else
          out_fd ← sys_open new;
          if out_fd <? 0 then say (OpenFailed new);; mret EXIT_FAILURE
          else cp_loop fuel in_fd out_fd new
  | _ => say Usage;; mret EXIT_FAILURE
  end.

(** cmp.c: the comparison of two buffers gives the first index where they differ. *)
Fixpoint first_difference (i : Z) (xs ys : list Z) : option (Z * Z * Z) :=
  match xs, ys with
  | x :: xs, y :: ys => if negb (x =? y) then Some (i, x, y) else first_difference (i + 1) xs ys
  | _, _ => None
  end.
Fixpoint cmp_loop (fuel : nat) (fd0 fd1 : Z) (a b : list Z) : M S Z :=
  match fuel with
  | O => nofuel
  | Datatypes.S fuel =>
      pos ← sys_tell fd0;
      b0 ← sys_read fd0 BUFSIZE; b1 ← sys_read fd1 BUFSIZE;
      let min_read := if (length b0 <? length b1)%nat then length b0 else length b1 in
      if (min_read =? 0)%nat then say (Identical a b);; mret EXIT_SUCCESS
      else match first_difference 0 (take min_read b0) (take min_read b1) with
      | Some (i, x, y) => say (ByteDiffers (pos + i) x a y b);; mret EXIT_FAILURE
      | None =>
          (if (min_read <? length b1)%nat then say (Shorter a b)
           else if (min_read <? length b0)%nat then say (Shorter b a) else mret tt);;
          cmp_loop fuel fd0 fd1 a b
      end
  end.
Definition cmp_main (fuel : nat) (argv : list (list Z)) : M S Z :=
  match argv with
  | [a; b] =>
      fd0 ← sys_open a;
      if fd0 <? 0 then say (OpenFailed a);; mret EXIT_FAILURE
      else
        fd1 ← sys_open b;
        if fd1 <? 0 then say (OpenFailed a);; mret EXIT_FAILURE
        else cmp_loop fuel fd0 fd1 a b
  | _ => say Usage;; mret EXIT_FAILURE
  end.

(** lineup.c; the two exits with a status of their own are results. *)
Definition toupper (c : Z) : Z := if (97 <=? c) && (c <=? 122) then c - 32 else c.
Fixpoint lineup_loop (fuel : nat) (fd : Z) (name : list Z) : M S unit :=
  match fuel with
  | O => nofuel
  | Datatypes.S fuel =>
      bs ← sys_read fd BUFSIZE;
      if (length bs =? 0)%nat then mret tt
      else
        pos ← sys_tell fd;
        sys_seek fd (pos - Z.of_nat (length bs));;
        n ← sys_write fd (toupper <$> bs);
        (if negb (n =? Z.of_nat (length bs)) then say (WriteFailed name) else mret tt);;
        lineup_loop fuel fd name
  end.
Definition lineup_main (fuel : nat) (argv : list (list Z)) : M S Z :=
  match argv with
  | [name] =>
      fd ← sys_open name;
      if fd <? 0 then mret 2
      else lineup_loop fuel fd name;; sys_close fd;; mret EXIT_SUCCESS
  | _ => mret 1
  end.
End programs.

(** ** What the calls do

    The files by name, the open descriptors with their names and positions, and the
    output so far. *)
Record view := mk_view { files : gmap (list Z) (list Z); fds : gmap Z (list Z * Z); screen : list output }.
Definition set_fds (f : gmap Z (list Z * Z)) (v : view) : view := mk_view (files v) f (screen v).
Definition set_files (f : gmap (list Z) (list Z)) (v : view) : view := mk_view f (fds v) (screen v).
Definition show (o : output) (v : view) : view := mk_view (files v) (fds v) (screen v ++ [o]).
(** What a read of [n] bytes gives with [l] left in the file. *)
Definition reads (short : bool) (n : nat) (l : list Z) : list Z :=
  if short && (length l <? n)%nat then [] else take n l.
Definition overwrite (c : list Z) (pos : nat) (bs : list Z) : list Z := take pos c ++ bs ++ drop (pos + length bs) c.
Class System (S : Type) `{Calls S} := {
  short : bool;
  view_of : S → view;
  open_law name s : wp (sys_open name) s (λ fd s',
    match files (view_of s) !! name with
    | Some _ => 2 ≤ fd ∧ fds (view_of s) !! fd = None ∧ view_of s' = set_fds (<[fd := (name, 0)]> (fds (view_of s))) (view_of s)
    | None => fd = -1 ∧ view_of s' = view_of s
    end);
  close_law fd s : is_Some (fds (view_of s) !! fd) →
    wp (sys_close fd) s (λ _ s', view_of s' = set_fds (delete fd (fds (view_of s))) (view_of s));
  create_law name n s : 0 ≤ n → wp (sys_create name n) s (λ b s',
    match files (view_of s) !! name with
    | Some _ => b = false ∧ view_of s' = view_of s
    | None => b = true ∧ view_of s' = set_files (<[name := replicate (Z.to_nat n) 0]> (files (view_of s))) (view_of s)
    end);
  filesize_law fd name pos c s : fds (view_of s) !! fd = Some (name, pos) → files (view_of s) !! name = Some c →
    wp (sys_filesize fd) s (λ n s', n = Z.of_nat (length c) ∧ view_of s' = view_of s);
  read_law fd n name pos c s : fds (view_of s) !! fd = Some (name, pos) → files (view_of s) !! name = Some c → 0 ≤ n → 0 ≤ pos →
    wp (sys_read fd n) s (λ bs s', bs = reads short (Z.to_nat n) (drop (Z.to_nat pos) c) ∧
      view_of s' = set_fds (<[fd := (name, pos + Z.of_nat (length bs))]> (fds (view_of s))) (view_of s));
  print_law bs s : wp (sys_write 1 bs) s (λ _ s', view_of s' = show (Bytes bs) (view_of s));
  write_law fd bs name pos c s : 2 ≤ fd → fds (view_of s) !! fd = Some (name, pos) → files (view_of s) !! name = Some c →
    0 ≤ pos → pos + Z.of_nat (length bs) ≤ Z.of_nat (length c) →
    wp (sys_write fd bs) s (λ n s', n = Z.of_nat (length bs) ∧
      view_of s' = mk_view (<[name := overwrite c (Z.to_nat pos) bs]> (files (view_of s)))
        (<[fd := (name, pos + Z.of_nat (length bs))]> (fds (view_of s))) (screen (view_of s)));
  seek_law fd pos name pos' s : fds (view_of s) !! fd = Some (name, pos') → 0 ≤ pos →
    wp (sys_seek fd pos) s (λ _ s', view_of s' = set_fds (<[fd := (name, pos)]> (fds (view_of s))) (view_of s));
  tell_law fd name pos s : fds (view_of s) !! fd = Some (name, pos) →
    wp (sys_tell fd) s (λ p s', p = pos ∧ view_of s' = view_of s);
  say_law m s : wp (say m) s (λ _ s', view_of s' = show (Says m) (view_of s)) }.

(** What a program that reads buffer by buffer gets of a file. *)
Definition buffer : nat := Z.to_nat BUFSIZE.
Definition readable (short : bool) (l : list Z) : list Z :=
  if short then take (length l / buffer * buffer) l else l.
Definition rounds (l : list Z) : nat := S (length l / buffer).
Lemma buffer_pos : (0 < buffer)%nat.
Proof. unfold buffer, BUFSIZE. lia. Qed.
Lemma div_full n : (buffer ≤ n)%nat → (n / buffer = S ((n - buffer) / buffer))%nat.
Proof.
  intros H. pose proof buffer_pos. replace n with ((n - buffer) + 1 * buffer)%nat at 1 by lia.
  rewrite Nat.div_add by lia. lia.
Qed.
(** A read gives nothing, which is all there is to get, or it gives the first part and
    the reads after it the rest. *)
Lemma reads_cases sh l : let bs := reads sh buffer l in
  (bs = [] ∧ readable sh l = []) ∨
  (bs ≠ [] ∧ bs = take (length bs) l ∧ readable sh l = bs ++ readable sh (drop (length bs) l) ∧
   (length (drop (length bs) l) = 0 ∨ S (rounds (drop (length bs) l)) = rounds l)%nat).
Proof.
  intros bs. pose proof buffer_pos as Hb. unfold bs, reads, readable, rounds.
  destruct (decide (length l < buffer)%nat) as [Hl|Hl].
  - rewrite (proj2 (Nat.ltb_lt _ _)) by done. rewrite Nat.div_small by done. destruct sh; [by left|]. simpl.
    destruct l as [|x l]; [left; by rewrite take_nil|right]. rewrite take_ge by lia.
    split; [done|]. split; [by rewrite take_ge|]. rewrite drop_all. split; [by rewrite app_nil_r|]. by left.
  - right. rewrite (proj2 (Nat.ltb_ge _ _)) by lia. rewrite andb_false_r.
    assert (length (take buffer l) = buffer) as Hlt by (rewrite length_take; lia). rewrite Hlt.
    split; [intros E; rewrite E in Hlt; simpl in Hlt; lia|]. split; [done|]. rewrite length_drop, (div_full (length l)) by lia.
    split; [|by right]. destruct sh; [|by rewrite take_drop].
    rewrite Nat.mul_succ_l, Nat.add_comm. by rewrite <-take_take_drop.
Qed.
(** Fuel for the loops of the programs: a round for every buffer, for the rest and for the
    end. *)
Definition enough (fuel : nat) (l : list Z) : Prop := if decide (l = []) then (0 < fuel)%nat else (rounds l < fuel)%nat.
Lemma enough_step sh fuel l : let bs := reads sh buffer l in enough (S fuel) l → bs ≠ [] →
  enough fuel (drop (length bs) l).
Proof.
  intros bs He Hn. destruct (reads_cases sh l) as [[E _]|(_ & Et & _ & Hr)]; [done|]. fold bs in Et, Hr.
  unfold enough in *. rewrite decide_False in He by (intros ->; by rewrite take_nil in Et).
  case_decide as Ed; [unfold rounds in He; lia|]. destruct Hr as [Hr|Hr]; [by apply nil_length_inv in Hr|lia].
Qed.
Lemma enough_rounds fuel l : (rounds l < fuel)%nat → enough fuel l.
Proof. unfold enough, rounds. case_decide; lia. Qed.

Section theorems.
Context {S : Type} `{System S}.
Implicit Types s : S.
Lemma reads_bufsize l : reads short (Z.to_nat BUFSIZE) l = reads short buffer l.
Proof. done. Qed.

(** *** cat *)
Lemma wp_cat_file fuel fd name pos c s Q : fds (view_of s) !! fd = Some (name, pos) → files (view_of s) !! name = Some c → 0 ≤ pos →
  enough fuel (drop (Z.to_nat pos) c) →
  (∀ s' pos' k, view_of s' = mk_view (files (view_of s)) (<[fd := (name, pos')]> (fds (view_of s))) (screen (view_of s) ++ (Bytes <$> k)) →
    mjoin k = readable short (drop (Z.to_nat pos) c) → Q tt s') →
  wp (cat_file fuel fd) s Q.
Proof.
  revert pos s. induction fuel as [|fuel IH]; intros pos s Hfd Hf Hp He HQ; [unfold enough in He; case_decide; lia|].
  cbn [cat_file]. wp_step. eapply wp_mono; [by apply (read_law fd BUFSIZE name pos c)|]. intros bs s1 [Ebs V1]. rewrite reads_bufsize in Ebs.
  destruct (reads_cases short (drop (Z.to_nat pos) c)) as [[E Er]|(Hn & Et & Er & _)]; rewrite <-Ebs in *.
  - rewrite E in *. apply wp_ret. rewrite Z.add_0_r in V1. apply (HQ s1 pos []); [|by rewrite Er]. rewrite V1. by rewrite app_nil_r.
  - destruct bs as [|b bs]; [done|]. cbn [length Nat.eqb]. wp_step. eapply wp_mono; [apply print_law|]. intros ? s2 V2. cbv beta in V2.
    pose proof (enough_step short fuel (drop (Z.to_nat pos) c) He) as He'. rewrite <-Ebs in He'. specialize (He' ltac:(done)).
    rewrite drop_drop in He', Er. replace (Z.to_nat pos + length (b :: bs))%nat with (Z.to_nat (pos + Z.of_nat (length (b :: bs)))) in He', Er by lia.
    eapply (IH (pos + Z.of_nat (length (b :: bs)))); try done; rewrite ?V2, ?V1; cbn [files fds screen show set_fds].
    + apply lookup_insert_eq.
    + done.
    + lia.
    + intros s' pos' k V' Ek. apply (HQ s' pos' ((b :: bs) :: k)).
      * rewrite V'. cbn [files fds screen show set_fds fmap list_fmap]. by rewrite insert_insert_eq, <-app_assoc.
      * rewrite Er, <-Ek. done.
Qed.
(** The output as characters and messages, however the writes cut it up. *)
Definition flat (l : list output) : list (Z + message) :=
  l ≫= λ o, match o with Bytes bs => inl <$> bs | Says m => [inr m] end.
Lemma flat_app l l' : flat (l ++ l') = flat l ++ flat l'.
Proof. unfold flat. by rewrite bind_app. Qed.
Lemma flat_bytes k : flat (Bytes <$> k) = inl <$> mjoin k.
Proof. induction k as [|bs k IH]; [done|]. change (flat (Bytes <$> bs :: k)) with ((inl <$> bs) ++ flat (Bytes <$> k)). by rewrite IH, <-fmap_app. Qed.
Definition cat_output (sh : bool) (fs : gmap (list Z) (list Z)) (name : list Z) : list (Z + message) :=
  match fs !! name with Some c => inl <$> readable sh c | None => [inr (OpenFailed name)] end.
Lemma wp_cat_args fuel argv ok s : (∀ name c, name ∈ argv → files (view_of s) !! name = Some c → (rounds c < fuel)%nat) →
  wp (cat_args fuel argv ok) s (λ ok' s',
    ok' = ok && forallb (λ name, bool_decide (is_Some (files (view_of s) !! name))) argv ∧
    files (view_of s') = files (view_of s) ∧ fds (view_of s') = fds (view_of s) ∧
    flat (screen (view_of s')) = flat (screen (view_of s)) ++ (argv ≫= cat_output short (files (view_of s)))).
Proof.
  revert ok s. induction argv as [|name argv IH]; intros ok s Hfuel.
  - apply wp_ret. by rewrite andb_true_r, app_nil_r.
  - cbn [cat_args]. wp_step. eapply wp_mono; [apply open_law|]. cbv beta. intros fd s1. rewrite bind_cons. cbn [forallb].
    destruct (files (view_of s) !! name) as [c|] eqn:Ef; assert (cat_output short (files (view_of s)) name = _) as Eo by (unfold cat_output; by rewrite Ef); rewrite Eo.
    + intros (Hfd & Hnew & V1). rewrite (proj2 (Z.ltb_ge _ _)) by lia. wp_step.
      apply (wp_cat_file _ fd name 0 c); rewrite ?V1; cbn [files fds screen set_fds]; [apply lookup_insert_eq|done|done| |].
      { rewrite drop_0. apply enough_rounds, (Hfuel name); [by left|done]. }
      intros s2 pos' k V2 Ek. wp_step. eapply wp_mono; [apply close_law; rewrite V2; cbn [fds]; rewrite lookup_insert_eq; by eexists|].
      cbv beta. intros _ s3 V3. rewrite V2 in V3. cbn [files fds screen set_fds] in V3.
      rewrite insert_insert_eq, delete_insert_id in V3 by done.
      assert (files (view_of s3) = files (view_of s) ∧ fds (view_of s3) = fds (view_of s)) as [F3 D3] by (by rewrite V3).
      eapply wp_mono; [apply (IH ok s3); rewrite F3; intros name' c' Hin; apply Hfuel; by right|]. cbv beta.
      rewrite F3, D3. intros ok' s' (-> & -> & -> & ->). split_and!; [|done|done|].
      * by rewrite (bool_decide_true (is_Some (Some c))) by (by eexists).
      * rewrite V3. cbn [screen set_fds]. rewrite flat_app, flat_bytes, Ek, drop_0, <-app_assoc. done.
    + intros (-> & V1). cbn [Z.ltb Z.compare]. wp_step. eapply wp_mono; [apply say_law|]. cbv beta. intros _ s2 V2. rewrite V1 in V2.
      eapply wp_mono; [apply (IH false s2); rewrite V2; intros name' c' Hin; apply Hfuel; by right|]. cbv beta.
      rewrite V2. cbn [show files fds screen]. intros ok' s' (-> & -> & -> & ->). split_and!; [|done|done|].
      * rewrite (bool_decide_false (is_Some None)) by (by intros [? ?]). by rewrite andb_false_r.
      * by rewrite flat_app, <-app_assoc.
Qed.
(** cat prints the files it is given one after the other, with a message for each that
    it cannot open, and exits with success if it could open all.  On a kernel whose reads
    across the end give nothing, the part of each file beyond the last multiple of 1024
    bytes is missing. *)
Theorem cat_correct fuel argv s :
  (∀ name c, name ∈ argv → files (view_of s) !! name = Some c → (length c / 1024 + 1 < fuel)%nat) →
  wp (cat_main fuel argv) s (λ status s',
    (status = EXIT_SUCCESS ↔ ∀ name, name ∈ argv → is_Some (files (view_of s) !! name)) ∧
    files (view_of s') = files (view_of s) ∧ fds (view_of s') = fds (view_of s) ∧
    flat (screen (view_of s')) = flat (screen (view_of s)) ++ (argv ≫= cat_output short (files (view_of s)))).
Proof.
  intros Hfuel. unfold cat_main. wp_step. eapply wp_mono; [apply wp_cat_args|].
  { intros name c Hin Hf. pose proof (Hfuel name c Hin Hf). unfold rounds. change buffer with 1024%nat. lia. }
  cbv beta. intros ok s' (-> & Hrest). wp_step. split; [|done]. rewrite andb_true_l.
  destruct (forallb _ argv) eqn:E.
  - split; [|done]. intros _ name Hin. rewrite forallb_forall in E. apply list_elem_of_In in Hin. by apply E, bool_decide_eq_true in Hin.
  - split; [done|]. intros Hall. exfalso. apply not_true_iff_false in E. apply E, forallb_forall. intros name Hin.
    apply bool_decide_eq_true, Hall. by apply list_elem_of_In.
Qed.

(** *** cp *)
Lemma overwrite_copy (c : list Z) pos bs : (pos + length bs ≤ length c)%nat → bs = take (length bs) (drop pos c) →
  overwrite (take pos c ++ replicate (length c - pos) 0) pos bs = take (pos + length bs) c ++ replicate (length c - (pos + length bs)) 0.
Proof.
  intros Hl E. unfold overwrite. assert (length (take pos c) = pos) as Ht by (rewrite length_take; lia).
  rewrite take_app_length' by done. rewrite drop_app_ge by lia. rewrite Ht, drop_replicate.
  rewrite <-take_take_drop, <-E, <-app_assoc. do 3 f_equal. lia.
Qed.
Lemma wp_cp_loop fuel in_fd out_fd old new pos c s : 2 ≤ out_fd → in_fd ≠ out_fd → old ≠ new →
  fds (view_of s) !! in_fd = Some (old, pos) → fds (view_of s) !! out_fd = Some (new, pos) →
  files (view_of s) !! old = Some c →
  files (view_of s) !! new = Some (take (Z.to_nat pos) c ++ replicate (length c - Z.to_nat pos) 0) →
  0 ≤ pos ≤ Z.of_nat (length c) → enough fuel (drop (Z.to_nat pos) c) →
  wp (cp_loop fuel in_fd out_fd new) s (λ status s', status = EXIT_SUCCESS ∧ screen (view_of s') = screen (view_of s) ∧
    let n := (Z.to_nat pos + length (readable short (drop (Z.to_nat pos) c)))%nat in
    files (view_of s') = <[new := take n c ++ replicate (length c - n) 0]> (files (view_of s))).
Proof.
  intros H2 Hne Hnn. revert pos s. induction fuel as [|fuel IH]; intros pos s Hi Ho Hf Hg Hp He; [unfold enough in He; case_decide; lia|].
  cbn [cp_loop]. wp_step. eapply wp_mono; [apply (read_law in_fd BUFSIZE old pos c); try done; lia|]. cbv beta. intros bs s1 [Ebs V1]. rewrite reads_bufsize in Ebs.
  pose proof (enough_step short fuel (drop (Z.to_nat pos) c) He) as He'.
  destruct (reads_cases short (drop (Z.to_nat pos) c)) as [[E Er]|(Hn & Et & Er & _)]; rewrite <-Ebs in *.
  - rewrite E in *. cbn [length Nat.eqb]. wp_step. split; [done|]. rewrite Er, V1. split; [done|]. cbn [length files set_fds]. rewrite Nat.add_0_r.
    by rewrite insert_id.
  - rewrite (proj2 (Nat.eqb_neq (length bs) 0)) by (by intros ?%nil_length_inv). wp_step.
    assert (length bs ≤ length c - Z.to_nat pos)%nat as Hl by (rewrite Et, length_take, length_drop; lia).
    eapply wp_mono; [apply (write_law out_fd bs new pos (take (Z.to_nat pos) c ++ replicate (length c - Z.to_nat pos) 0))|];
      rewrite ?V1; cbn [files fds set_fds].
    { done. } { by rewrite lookup_insert_ne. } { done. } { lia. }
    { rewrite length_app, length_take, length_replicate. lia. }
    cbv beta. intros n s2 [-> V2]. rewrite Z.eqb_refl. cbn [negb]. rewrite overwrite_copy in V2 by (done || lia).
    cbn [files fds screen set_fds] in V2. specialize (He' Hn). rewrite drop_drop in He', Er.
    replace (Z.to_nat pos + length bs)%nat with (Z.to_nat (pos + Z.of_nat (length bs))) in V2, He', Er by lia.
    eapply wp_mono; [apply (IH (pos + Z.of_nat (length bs)) s2); rewrite ?V2; cbn [files fds]; try done; try lia|].
    + rewrite lookup_insert_ne by done. apply lookup_insert_eq.
    + apply lookup_insert_eq.
    + by rewrite lookup_insert_ne.
    + apply lookup_insert_eq.
    + cbv beta. rewrite V2. cbn [files screen]. intros status s' (-> & -> & ->). split; [done|]. split; [done|]. cbv zeta.
      rewrite Er, length_app, insert_insert_eq.
      replace (Z.to_nat (pos + Z.of_nat (length bs)) + length (readable short (drop (Z.to_nat (pos + Z.of_nat (length bs))) c)))%nat
        with (Z.to_nat pos + (length bs + length (readable short (drop (Z.to_nat (pos + Z.of_nat (length bs))) c))))%nat by lia. done.
Qed.
Lemma readable_take sh l : readable sh l = take (length (readable sh l)) l.
Proof.
  unfold readable. destruct sh; [|by rewrite take_ge]. pose proof buffer_pos. pose proof (Nat.Div0.mul_div_le (length l) buffer).
  rewrite length_take. f_equal. lia.
Qed.

(** *** cmp *)
Lemma first_difference_app i xs xs' ys ys' : length xs = length ys →
  first_difference i (xs ++ xs') (ys ++ ys') =
  match first_difference i xs ys with Some d => Some d | None => first_difference (i + Z.of_nat (length xs)) xs' ys' end.
Proof.
  revert i ys. induction xs as [|x xs IH]; intros i [|y ys] Hl; try done; [by rewrite Z.add_0_r|].
  simpl. destruct (x =? y); [|done]. simpl. rewrite IH by (simpl in Hl; lia).
  by replace (i + 1 + Z.of_nat (length xs)) with (i + Z.of_nat (Datatypes.S (length xs))) by lia.
Qed.
Lemma first_difference_shift p i xs ys : first_difference (p + i) xs ys =
  match first_difference i xs ys with Some (j, x, y) => Some (p + j, x, y) | None => None end.
Proof.
  revert i ys. induction xs as [|x xs IH]; intros i [|y ys]; try done. simpl. destruct (x =? y); [|done].
  simpl. by rewrite <-Z.add_assoc, IH.
Qed.
Lemma first_difference_nil i xs : first_difference i xs [] = None.
Proof. by destruct xs. Qed.
(** A buffer that is not full is the last. *)
Lemma reads_last sh l : let bs := reads sh buffer l in (length bs < buffer)%nat → readable sh (drop (length bs) l) = [].
Proof.
  intros bs Hl. pose proof buffer_pos as Hb. unfold bs, reads in *. destruct (decide (length l < buffer)%nat) as [H1|H1].
  - rewrite (proj2 (Nat.ltb_lt _ _)) in * by done. destruct sh; cbn [andb length] in *.
    + rewrite drop_0. unfold readable. by rewrite Nat.div_small.
    + unfold readable. by rewrite drop_ge by (rewrite length_take; lia).
  - rewrite (proj2 (Nat.ltb_ge _ _)), andb_false_r, length_take in Hl by lia. lia.
Qed.
(** The verdict comes last, after messages that a file is shorter. *)
Definition cmp_verdict (a b : list Z) (d : option (Z * Z * Z)) : Z * message :=
  match d with
  | Some (i, x, y) => (EXIT_FAILURE, ByteDiffers i x a y b)
  | None => (EXIT_SUCCESS, Identical a b)
  end.
Definition cmp_result (a b : list Z) (d : option (Z * Z * Z)) (status : Z) (l l' : list output) : Prop :=
  ∃ k, (status, l') = ((cmp_verdict a b d).1, l ++ k ++ [Says (cmp_verdict a b d).2]) ∧
    Forall (λ o, o = Says (Shorter a b) ∨ o = Says (Shorter b a)) k.
(** One buffer of each file. *)
Lemma wp_read_two {A} (K : Z → list Z → list Z → M S A) fd0 fd1 a b p0 p1 ca cb s Q : fd0 ≠ fd1 →
  fds (view_of s) !! fd0 = Some (a, p0) → fds (view_of s) !! fd1 = Some (b, p1) →
  files (view_of s) !! a = Some ca → files (view_of s) !! b = Some cb → 0 ≤ p0 → 0 ≤ p1 →
  let b0 := reads short buffer (drop (Z.to_nat p0) ca) in let b1 := reads short buffer (drop (Z.to_nat p1) cb) in
  (∀ s', files (view_of s') = files (view_of s) → screen (view_of s') = screen (view_of s) →
    fds (view_of s') !! fd0 = Some (a, p0 + Z.of_nat (length b0)) → fds (view_of s') !! fd1 = Some (b, p1 + Z.of_nat (length b1)) →
    wp (K p0 b0 b1) s' Q) →
  wp (pos ← sys_tell fd0; b0 ← sys_read fd0 BUFSIZE; b1 ← sys_read fd1 BUFSIZE; K pos b0 b1) s Q.
Proof.
  intros Hne F0 F1 Ha Hb Hp0 Hp1 b0 b1 HQ. wp_step. eapply wp_mono; [by apply (tell_law fd0 a p0)|]. cbv beta. intros pos s1 [-> V1].
  wp_step. eapply wp_mono; [apply (read_law fd0 BUFSIZE a p0 ca); rewrite ?V1; done|]. cbv beta. intros bs0 s2 [-> V2]. rewrite V1 in V2.
  wp_step. eapply wp_mono; [apply (read_law fd1 BUFSIZE b p1 cb); rewrite ?V2; cbn [fds files set_fds]; try done; by rewrite lookup_insert_ne|].
  cbv beta. intros bs1 s3 [-> V3]. rewrite V2 in V3. apply HQ; rewrite V3; cbn [fds files screen set_fds]; [done..| |].
  - by rewrite lookup_insert_ne, lookup_insert_eq.
  - by rewrite lookup_insert_eq.
Qed.
(** The differences that a buffer shows, and those that are left. *)
Lemma buffer_difference sh p l0 l1 : let b0 := reads sh buffer l0 in let b1 := reads sh buffer l1 in
  let m := if (length b0 <? length b1)%nat then length b0 else length b1 in
  m ≠ 0%nat →
  first_difference p (readable sh l0) (readable sh l1) =
  match first_difference 0 (take m b0) (take m b1) with
  | Some (i, x, y) => Some (p + i, x, y)
  | None => first_difference (p + Z.of_nat (length b0)) (readable sh (drop (length b0) l0)) (readable sh (drop (length b1) l1))
  end.
Proof.
  intros b0 b1 m Hm. destruct (reads_cases sh l0) as [[E0 _]|(_ & _ & R0 & _)]; [fold b0 in E0|fold b0 in R0].
  { exfalso. apply Hm. unfold m. rewrite E0. destruct (Nat.ltb_spec (length (A:=Z) []) (length b1)); simpl in *; lia. }
  destruct (reads_cases sh l1) as [[E1 _]|(_ & _ & R1 & _)]; [fold b1 in E1|fold b1 in R1].
  { exfalso. apply Hm. unfold m. rewrite E1. done. }
  assert (length b0 ≤ buffer)%nat as L0 by (unfold b0, reads; case_match; [simpl; lia|rewrite length_take; lia]).
  assert (length b1 ≤ buffer)%nat as L1 by (unfold b1, reads; case_match; [simpl; lia|rewrite length_take; lia]).
  pose proof (reads_last sh l0) as T0. pose proof (reads_last sh l1) as T1. cbv zeta in T0, T1. fold b0 in T0. fold b1 in T1.
  assert (m ≤ length b0 ∧ m ≤ length b1)%nat as [M0 M1] by (unfold m; destruct (Nat.ltb_spec (length b0) (length b1)); lia).
  rewrite R0, R1. rewrite <-(take_drop m b0) at 1. rewrite <-(take_drop m b1) at 1. rewrite <-!app_assoc.
  rewrite first_difference_app by (rewrite !length_take; lia).
  rewrite <-(Z.add_0_r p) at 1. rewrite first_difference_shift.
  destruct (first_difference 0 (take m b0) (take m b1)) as [[[i x] y]|]; [done|].
  rewrite length_take, Nat.min_l by lia. unfold m in *. destruct (Nat.ltb_spec (length b0) (length b1)) as [Hlt|Hge].
  - rewrite (drop_ge b0), T0 by lia. done.
  - destruct (decide (length b0 = length b1)) as [E|E].
    + by rewrite (drop_ge b0), (drop_ge b1), E by lia.
    + rewrite (drop_ge b1), T1 by lia. by rewrite !first_difference_nil.
Qed.
Lemma wp_cmp_loop fuel fd0 fd1 a b p0 p1 ca cb s : fd0 ≠ fd1 →
  fds (view_of s) !! fd0 = Some (a, p0) → fds (view_of s) !! fd1 = Some (b, p1) →
  files (view_of s) !! a = Some ca → files (view_of s) !! b = Some cb → 0 ≤ p0 → 0 ≤ p1 →
  enough fuel (drop (Z.to_nat p0) ca) →
  wp (cmp_loop fuel fd0 fd1 a b) s (λ status s', files (view_of s') = files (view_of s) ∧
    cmp_result a b (first_difference p0 (readable short (drop (Z.to_nat p0) ca)) (readable short (drop (Z.to_nat p1) cb)))
      status (screen (view_of s)) (screen (view_of s'))).
Proof.
  intros Hne. revert p0 p1 s. induction fuel as [|fuel IH]; intros p0 p1 s F0 F1 Ha Hb Hp0 Hp1 He; [unfold enough in He; case_decide; lia|].
  cbn [cmp_loop]. apply (wp_read_two _ fd0 fd1 a b p0 p1 ca cb); try done.
  pose proof (enough_step short fuel (drop (Z.to_nat p0) ca) He) as He'. cbv zeta in He'.
  pose proof (buffer_difference short p0 (drop (Z.to_nat p0) ca) (drop (Z.to_nat p1) cb)) as Hd. cbv zeta in Hd.
  pose proof (reads_cases short (drop (Z.to_nat p0) ca)) as C0. pose proof (reads_cases short (drop (Z.to_nat p1) cb)) as C1. cbv zeta in C0, C1.
  set (b0 := reads short buffer (drop (Z.to_nat p0) ca)) in *. set (b1 := reads short buffer (drop (Z.to_nat p1) cb)) in *.
  intros s1 Ef Es G0 G1. cbv zeta. set (m := if (length b0 <? length b1)%nat then length b0 else length b1) in *.
  destruct (Nat.eqb_spec m 0) as [Em|Em].
  - wp_step. eapply wp_mono; [apply say_law|]. cbv beta. intros _ s2 V2. wp_step. rewrite V2. cbn [files show screen]. split; [done|].
    assert (first_difference p0 (readable short (drop (Z.to_nat p0) ca)) (readable short (drop (Z.to_nat p1) cb)) = None) as ->.
    { destruct C0 as [[_ ->]|(N0 & _)]; [done|]. destruct C1 as [[_ ->]|(N1 & _)]; [apply first_difference_nil|].
      exfalso. unfold m in Em. destruct b0, b1; try done. simpl in Em. by destruct (_ <? _)%nat. }
    exists []. by rewrite Es.
  - rewrite Hd by done. destruct (first_difference 0 (take m b0) (take m b1)) as [[[i x] y]|].
    + wp_step. eapply wp_mono; [apply say_law|]. cbv beta. intros _ s2 V2. wp_step. rewrite V2. cbn [files show screen]. split; [done|].
      exists []. by rewrite Es.
    + assert (b0 ≠ []) as N0 by (intros E; apply Em; unfold m; rewrite E; by destruct b1).
      specialize (He' N0). rewrite !drop_drop in *.
      replace (Z.to_nat p0 + length b0)%nat with (Z.to_nat (p0 + Z.of_nat (length b0))) in * by lia.
      replace (Z.to_nat p1 + length b1)%nat with (Z.to_nat (p1 + Z.of_nat (length b1))) in * by lia.
      wp_step. apply (wp_mono _ _ (λ _ s2, ∃ k, view_of s2 = mk_view (files (view_of s1)) (fds (view_of s1)) (screen (view_of s1) ++ k) ∧
        Forall (λ o, o = Says (Shorter a b) ∨ o = Says (Shorter b a)) k)).
      { destruct (m <? length b1)%nat; [|destruct (m <? length b0)%nat].
        - eapply wp_mono; [apply say_law|]. cbv beta. intros _ s2 ->. exists [Says (Shorter a b)]. split; [done|]. constructor; [by left|constructor].
        - eapply wp_mono; [apply say_law|]. cbv beta. intros _ s2 ->. exists [Says (Shorter b a)]. split; [done|]. constructor; [by right|constructor].
        - wp_step. exists []. rewrite app_nil_r. by destruct (view_of s1). }
      intros _ s2 (k & V2 & Hk).
      eapply wp_mono; [apply (IH (p0 + Z.of_nat (length b0)) (p1 + Z.of_nat (length b1)) s2); rewrite ?V2; cbn [files fds]; rewrite ?Ef; done || lia|].
      cbv beta. rewrite V2. cbn [files screen]. rewrite Ef, Es. intros status s' [-> (k' & E & Hk')]. split; [done|].
      exists (k ++ k'). split; [by rewrite E, <-!app_assoc|by apply Forall_app].
Qed.
Lemma first_difference_None i xs ys : first_difference i xs ys = None ↔ xs `prefix_of` ys ∨ ys `prefix_of` xs.
Proof.
  revert i ys. induction xs as [|x xs IH]; intros i ys; [simpl; split; [left; apply prefix_nil|done]|].
  destruct ys as [|y ys]; [simpl; split; [right; apply prefix_nil|done]|]. simpl.
  destruct (Z.eqb_spec x y) as [->|Hne]; cbn [negb].
  - rewrite IH. split; (intros [?|?]; [left|right]); eauto using prefix_cons, prefix_cons_inv_2.
  - split; [done|]. intros [?|?]; exfalso; apply Hne; [|symmetry]; by eapply prefix_cons_inv_1.
Qed.
(** cmp finds the first byte at which two files differ.  It compares only the length
    of the shorter file: if one file is the beginning of the other, cmp says last that
    they are identical, and exits with success, even if one of them is empty. *)
Theorem cmp_ignores_length fuel a b ca cb s :
  files (view_of s) !! a = Some ca → files (view_of s) !! b = Some cb → (length ca / 1024 + 1 < fuel)%nat →
  wp (cmp_main fuel [a; b]) s (λ status s', files (view_of s') = files (view_of s) ∧
    cmp_result a b (first_difference 0 (readable short ca) (readable short cb)) status (screen (view_of s)) (screen (view_of s')) ∧
    (status = EXIT_SUCCESS ↔ readable short ca `prefix_of` readable short cb ∨ readable short cb `prefix_of` readable short ca)).
Proof.
  intros Ha Hb Hfuel. unfold cmp_main.
  wp_step. eapply wp_mono; [apply open_law|]. cbv beta. rewrite Ha. intros fd0 s1 (H1 & N1 & V1). rewrite (proj2 (Z.ltb_ge fd0 0)) by lia.
  wp_step. eapply wp_mono; [apply open_law|]. cbv beta. rewrite V1. cbn [files fds set_fds]. rewrite Hb. intros fd1 s2 (H2 & N2 & V2).
  rewrite (proj2 (Z.ltb_ge fd1 0)) by lia. assert (fd0 ≠ fd1) by (intros ->; by rewrite lookup_insert_eq in N2).
  eapply wp_mono; [apply (wp_cmp_loop fuel fd0 fd1 a b 0 0 ca cb s2); rewrite ?V2; cbn [files fds set_fds]; try done|].
  - rewrite lookup_insert_ne by done. apply lookup_insert_eq.
  - apply lookup_insert_eq.
  - rewrite drop_0. apply enough_rounds. unfold rounds. change buffer with 1024%nat. lia.
  - cbv beta. rewrite V2. cbn [files screen set_fds]. rewrite !drop_0. intros status s' [-> Hr]. split; [done|]. split; [done|].
    rewrite <-(first_difference_None 0). destruct Hr as (k & [= -> _] & _).
    by destruct (first_difference 0 (readable short ca) (readable short cb)) as [[[i x] y]|].
Qed.

(** *** lineup *)
Lemma overwrite_upper (c : list Z) pos bs : (pos + length bs ≤ length c)%nat → bs = take (length bs) (drop pos c) →
  overwrite ((toupper <$> take pos c) ++ drop pos c) pos (toupper <$> bs) =
  (toupper <$> take (pos + length bs) c) ++ drop (pos + length bs) c.
Proof.
  intros Hl E. unfold overwrite. assert (length (toupper <$> take pos c) = pos) as Ht by (rewrite length_fmap, length_take; lia).
  rewrite take_app_length' by done. rewrite length_fmap, drop_app_ge by lia. rewrite Ht, drop_drop.
  rewrite <-take_take_drop, <-E, fmap_app, <-app_assoc. do 3 f_equal. lia.
Qed.
Lemma wp_lineup_loop fuel fd name pos c s : 2 ≤ fd →
  fds (view_of s) !! fd = Some (name, pos) →
  files (view_of s) !! name = Some ((toupper <$> take (Z.to_nat pos) c) ++ drop (Z.to_nat pos) c) →
  0 ≤ pos ≤ Z.of_nat (length c) → enough fuel (drop (Z.to_nat pos) c) →
  wp (lineup_loop fuel fd name) s (λ _ s', ∃ pos', let n := (Z.to_nat pos + length (readable short (drop (Z.to_nat pos) c)))%nat in
    view_of s' = mk_view (<[name := (toupper <$> take n c) ++ drop n c]> (files (view_of s))) (<[fd := (name, pos')]> (fds (view_of s)))
      (screen (view_of s))).
Proof.
  intros H2. revert pos s. induction fuel as [|fuel IH]; intros pos s Hfd Hf Hp He; [unfold enough in He; case_decide; lia|].
  cbn [lineup_loop]. wp_step. eapply wp_mono; [apply (read_law fd BUFSIZE name pos _ s Hfd Hf); [done|lia]|].
  cbv beta. intros bs s1 [Ebs V1]. rewrite reads_bufsize in Ebs.
  assert (length (toupper <$> take (Z.to_nat pos) c) = Z.to_nat pos) as Ht by (rewrite length_fmap, length_take; lia).
  rewrite drop_app_length' in Ebs by done.
  pose proof (enough_step short fuel (drop (Z.to_nat pos) c) He) as He'.
  destruct (reads_cases short (drop (Z.to_nat pos) c)) as [[E Er]|(Hn & Et & Er & _)]; rewrite <-Ebs in *.
  - rewrite E in *. cbn [length Nat.eqb]. wp_step. rewrite V1, Er. exists (pos + 0). cbn [length]. rewrite Nat.add_0_r, (insert_id (files _)) by done. done.
  - rewrite (proj2 (Nat.eqb_neq (length bs) 0)) by (by intros ?%nil_length_inv).
    assert (length bs ≤ length c - Z.to_nat pos)%nat as Hl by (rewrite Et, length_take, length_drop; lia).
    wp_step. eapply wp_mono; [apply (tell_law fd name (pos + Z.of_nat (length bs))); rewrite V1; apply lookup_insert_eq|].
    cbv beta. intros p s2 [-> V2]. rewrite V1 in V2. replace (pos + Z.of_nat (length bs) - Z.of_nat (length bs)) with pos by lia.
    wp_step. eapply wp_mono; [apply (seek_law fd pos name (pos + Z.of_nat (length bs))); [rewrite V2; apply lookup_insert_eq|lia]|].
    cbv beta. intros _ s3 V3. rewrite V2 in V3. cbn [files fds screen set_fds] in V3. rewrite insert_insert_eq in V3.
    wp_step. eapply wp_mono; [apply (write_law fd (toupper <$> bs) name pos ((toupper <$> take (Z.to_nat pos) c) ++ drop (Z.to_nat pos) c));
      rewrite ?V3; cbn [files fds set_fds]; [done|apply lookup_insert_eq|done|lia|rewrite length_app, Ht, length_fmap, length_drop; lia]|].
    cbv beta. intros n s4 [-> V4]. rewrite length_fmap, Z.eqb_refl in *. cbn [negb]. rewrite overwrite_upper in V4 by (done || lia).
    rewrite V3 in V4. cbn [files fds screen set_fds] in V4. rewrite insert_insert_eq in V4. wp_step. wp_step.
    specialize (He' Hn). rewrite drop_drop in He', Er.
    replace (Z.to_nat pos + length bs)%nat with (Z.to_nat (pos + Z.of_nat (length bs))) in V4, He', Er by lia.
    eapply wp_mono; [apply (IH (pos + Z.of_nat (length bs)) s4); rewrite ?V4; cbn [files fds]; [apply lookup_insert_eq..|lia|done]|].
    cbv beta zeta. rewrite V4. cbn [files fds screen]. intros _ s' [pos' V']. exists pos'. rewrite V', Er, length_app, !insert_insert_eq.
    by rewrite (Z2Nat.inj_add pos), Nat2Z.id, Nat.add_assoc by lia.
Qed.
(** lineup turns a file into capital letters in place and changes nothing else.  On a
    kernel whose reads across the end give nothing, the part beyond the last multiple of
    1024 bytes stays as it is. *)
Theorem lineup_correct fuel name c s : files (view_of s) !! name = Some c → (length c / 1024 + 1 < fuel)%nat →
  wp (lineup_main fuel [name]) s (λ status s', status = EXIT_SUCCESS ∧
    view_of s' = set_files (<[name := (toupper <$> readable short c) ++ drop (length (readable short c)) c]> (files (view_of s))) (view_of s)).
Proof.
  intros Hf Hfuel. unfold lineup_main. wp_step. eapply wp_mono; [apply open_law|]. cbv beta. rewrite Hf.
  intros fd s1 (Hfd & Hn & V1). rewrite (proj2 (Z.ltb_ge fd 0)) by lia. wp_step.
  eapply wp_mono; [apply (wp_lineup_loop fuel fd name 0 c s1); rewrite ?V1; cbn [files fds set_fds]; [done|apply lookup_insert_eq|done|lia|]|].
  { rewrite drop_0. apply enough_rounds. unfold rounds. change buffer with 1024%nat. lia. }
  cbv beta zeta. change (Z.to_nat 0) with 0%nat. rewrite V1, drop_0, Nat.add_0_l, <-(readable_take short c). cbn [files fds screen set_fds].
  intros _ s2 [pos' V2]. wp_step. eapply wp_mono; [apply close_law; rewrite V2; cbn [fds]; rewrite lookup_insert_eq; by eexists|].
  cbv beta. intros _ s3 V3. wp_step. split; [done|]. rewrite V3, V2. cbn [files fds screen set_fds].
  by rewrite insert_insert_eq, delete_insert_id.
Qed.
End theorems.

(** ** A system in memory, for both kinds of reads *)
Definition mem (sh : bool) : Type := view.
Definition top_fd (f : gmap Z (list Z * Z)) : Z := map_fold (λ fd _, Z.max fd) 0 f.
Lemma top_fd_max f : 0 ≤ top_fd f ∧ ∀ fd, is_Some (f !! fd) → fd ≤ top_fd f.
Proof.
  unfold top_fd. apply (map_fold_weak_ind (λ m f, 0 ≤ m ∧ ∀ fd, is_Some (f !! fd) → fd ≤ m)); [split; [done|intros fd [? Hd]; by rewrite lookup_empty in Hd]|].
  intros fd x f' m _ [H1 H2]. split; [lia|]. intros fd' [y Hy]. destruct (decide (fd = fd')) as [->|Hne]; [lia|].
  rewrite lookup_insert_ne in Hy by done. pose proof (H2 fd' (ex_intro _ y Hy)). lia.
Qed.
Lemma top_fd_new f : f !! (2 + top_fd f) = None.
Proof.
  destruct (f !! (2 + top_fd f)) as [x|] eqn:E; [|done]. pose proof (proj2 (top_fd_max f) _ (ex_intro _ x E)). lia.
Qed.
Definition opened {A} (fd : Z) (v : view) (K : list Z → Z → list Z → result (A * view)) : result (A * view) :=
  match fds v !! fd with
  | Some (name, pos) => match files v !! name with Some c => K name pos c | None => Fault end
  | None => Fault
  end.
#[export] Instance mem_calls (sh : bool) : Calls (mem sh) := {
  sys_open name := λ v, match files v !! name with
    | Some _ => Ok (2 + top_fd (fds v), set_fds (<[2 + top_fd (fds v) := (name, 0)]> (fds v)) v)
    | None => Ok (-1, v)
    end;
  sys_close fd := λ v, Ok (tt, set_fds (delete fd (fds v)) v);
  sys_create name n := λ v, match files v !! name with
    | Some _ => Ok (false, v)
    | None => Ok (true, set_files (<[name := replicate (Z.to_nat n) 0]> (files v)) v)
    end;
  sys_filesize fd := λ v, opened fd v (λ _ _ c, Ok (Z.of_nat (length c), v));
  sys_read fd n := λ v, opened fd v (λ name pos c,
    let bs := reads sh (Z.to_nat n) (drop (Z.to_nat pos) c) in
    Ok (bs, set_fds (<[fd := (name, pos + Z.of_nat (length bs))]> (fds v)) v));
  sys_write fd bs := λ v,
    if fd =? 1 then Ok (Z.of_nat (length bs), show (Bytes bs) v)
    else opened fd v (λ name pos c,
      Ok (Z.of_nat (length bs), mk_view (<[name := overwrite c (Z.to_nat pos) bs]> (files v))
        (<[fd := (name, pos + Z.of_nat (length bs))]> (fds v)) (screen v)));
  sys_seek fd pos := λ v, match fds v !! fd with Some (name, _) => Ok (tt, set_fds (<[fd := (name, pos)]> (fds v)) v) | None => Fault end;
  sys_tell fd := λ v, match fds v !! fd with Some (_, pos) => Ok (pos, v) | None => Fault end;
  say m := λ v, Ok (tt, show (Says m) v) }.
#[refine, export] Instance mem_system (sh : bool) : System (mem sh) := { short := sh; view_of v := v }.
Proof.
  - intros name s. unfold wp, sys_open, mem_calls. destruct (files s !! name); [|done].
    split; [pose proof (proj1 (top_fd_max (fds s))); lia|]. split; [apply top_fd_new|done].
  - done.
  - intros name n s _. unfold wp, sys_create, mem_calls. by destruct (files s !! name).
  - intros fd name pos c s Hd Hf. unfold wp, sys_filesize, mem_calls, opened. by rewrite Hd, Hf.
  - intros fd n name pos c s Hd Hf _ _. unfold wp, sys_read, mem_calls, opened. by rewrite Hd, Hf.
  - done.
  - intros fd bs name pos c s H2 Hd Hf _ _. unfold wp, sys_write, mem_calls, opened. rewrite (proj2 (Z.eqb_neq fd 1)) by lia. by rewrite Hd, Hf.
  - intros fd pos name pos' s Hd _. unfold wp, sys_seek, mem_calls. by rewrite Hd.
  - intros fd name pos s Hd. unfold wp, sys_tell, mem_calls. by rewrite Hd.
  - done.
Defined.

Definition ex_files : view := mk_view {[ [97] := replicate 1030 65; [98] := [104; 105]; [99] := [] ]} ∅ [].
Lemma cat_correct_witness :
  wp (cat_main (S:=mem true) 3 [[97]; [120]]) ex_files (λ status s', status ≠ EXIT_SUCCESS ∧
    flat (screen s') = (inl <$> replicate 1024 65) ++ [inr (OpenFailed [120])]).
Proof.
  eapply wp_mono; [apply (cat_correct (S:=mem true) 3 [[97]; [120]] ex_files)|].
  - intros name c Hin Hf. set_unfold in Hin. destruct Hin as [->|[->|[]]].
    + change (Some (replicate 1030 65) = Some c) in Hf. injection Hf as <-. vm_compute. lia.
    + change (None = Some c) in Hf. discriminate.
  - intros status s' (Hst & _ & _ & Hs). split.
    + intros E. destruct (proj1 Hst E [120]) as [x Hx]; [right; left|]. change (None = Some x) in Hx. discriminate.
    + change (view_of s') with s' in Hs. rewrite Hs. vm_compute. reflexivity.
Defined.
Lemma cmp_ignores_length_witness :
  wp (cmp_main (S:=mem false) 3 [[98]; [99]]) ex_files (λ status s', status = EXIT_SUCCESS ∧ ∃ k, screen s' = k ++ [Says (Identical [98] [99])]).
Proof.
  eapply wp_mono; [apply (cmp_ignores_length (S:=mem false) 3 [98] [99] [104; 105] [] ex_files); [reflexivity|reflexivity|vm_compute; lia]|].
  intros status s' (_ & (k & E & _) & _). change (view_of s') with s' in E. injection E as -> E. split; [reflexivity|].
  exists k. exact E.
Defined.
Lemma lineup_correct_witness :
  wp (lineup_main (S:=mem false) 3 [[98]]) ex_files (λ status s', status = EXIT_SUCCESS ∧ files s' !! [98] = Some [72; 73]).
Proof.
  eapply wp_mono; [apply (lineup_correct (S:=mem false) 3 [98] [104; 105] ex_files); [reflexivity|vm_compute; lia]|].
  intros status s' (-> & E). change (view_of s') with s' in E. split; [reflexivity|]. rewrite E. vm_compute. reflexivity.
Defined.
