(* ===== verification/Console.v ===== *)
(** * The console of the kernel: lib/kernel/console.c

    The console lock with its depth counter, and the printing functions.  A thread's call
    of a printing function is a list of steps between which other threads and interrupt
    handlers can run: taking the lock, and for each character the check and the count,
    the serial port and the display, and releasing the lock.  The lock is what
    SchedThms.v shows of it: the holder keeps it until it releases
    it, and others wait. *)

From S2P Require Import Prelude Printf.
Local Open Scope Z_scope.

(** The lock's holder (0 if none) and the variables of console.c.  [serial] and [vga] are
    what the two devices have received, each byte with the thread that wrote it, 0 for an
    interrupt handler. *)
Record con := mk_con {
  holder : Z; use_console_lock : bool; console_lock_depth : Z; write_cnt : Z;
  serial : list (Z * Z); vga : list (Z * Z) }.
Definition set_con_holder (t : Z) (s : con) : con :=
  mk_con t (use_console_lock s) (console_lock_depth s) (write_cnt s) (serial s) (vga s).
Definition set_use (b : bool) (s : con) : con :=
  mk_con (holder s) b (console_lock_depth s) (write_cnt s) (serial s) (vga s).
Definition set_depth (n : Z) (s : con) : con :=
  mk_con (holder s) (use_console_lock s) n (write_cnt s) (serial s) (vga s).
Definition set_cnt (n : Z) (s : con) : con :=
  mk_con (holder s) (use_console_lock s) (console_lock_depth s) n (serial s) (vga s).
Definition set_con_serial (l : list (Z * Z)) (s : con) : con :=
  mk_con (holder s) (use_console_lock s) (console_lock_depth s) (write_cnt s) l (vga s).
Definition set_vga (l : list (Z * Z)) (s : con) : con :=
  mk_con (holder s) (use_console_lock s) (console_lock_depth s) (write_cnt s) (serial s) l.

(** Each function runs on the thread [cur], in an external interrupt handler if [ctx]. *)
Section console.
Context (ctx : bool) (cur : Z).
Definition who : Z := if ctx then 0 else cur.
Definition con_lock_held : M con bool := gets (λ s, bool_decide (holder s = cur)).
(** False if the thread has to wait. *)
Definition con_lock_acquire : M con bool :=
  assert (negb ctx);; b ← con_lock_held; assert (negb b);;
  h ← gets holder;
  if bool_decide (h = 0) then modify (set_con_holder cur);; mret true else mret false.
Definition con_lock_release : M con unit :=
  b ← con_lock_held; assert b;; modify (set_con_holder 0).

Definition acquire_console : M con bool :=
  use ← gets use_console_lock;
  if negb ctx && use then
    b ← con_lock_held;
    if b : bool then modify (λ s, set_depth (s32 (console_lock_depth s + 1)) s);; mret true
    else con_lock_acquire
  else mret true.
Definition release_console : M con unit :=
  use ← gets use_console_lock;
  if negb ctx && use then
    n ← gets console_lock_depth;
    if 0 <? n then modify (set_depth (n - 1)) else con_lock_release
  else mret tt.
Definition console_locked_by_current_thread : M con bool :=
  use ← gets use_console_lock; b ← con_lock_held;
  mret (ctx || negb use || b).

Definition to_serial (c : Z) : M con unit := modify (λ s, set_con_serial (serial s ++ [(who, c)]) s).
Definition to_vga (c : Z) : M con unit := modify (λ s, set_vga (vga s ++ [(who, c)]) s).

(** A step of a printing function, and whether it could be done. *)
Inductive instr := IAcquire | ICheck | ISerial (c : Z) | IVga (c : Z) | IRelease.
Definition exec_instr (i : instr) : M con bool :=
  match i with
  | IAcquire => acquire_console
  | ICheck =>
      b ← console_locked_by_current_thread; assert b;;
      modify (λ s, set_cnt (s64 (write_cnt s + 1)) s);; mret true
  | ISerial c => to_serial c;; mret true
  | IVga c => to_vga c;; mret true
  | IRelease => release_console;; mret true
  end.
Fixpoint exec_all (l : list instr) : M con bool :=
  match l with
  | [] => mret true
  | i :: l => b ← exec_instr i; if b : bool then exec_all l else mret false
  end.
End console.

Definition console_init : M con unit := modify (λ s, set_use true (set_con_holder 0 s)).
Definition console_panic : M con unit := modify (set_use false).
Definition putchar_have_lock (c : Z) : list instr := let c := u8 c in [ICheck; ISerial c; IVga c].
Definition puts_have_lock (cs : list Z) : list instr := cs ≫= putchar_have_lock.
Definition putchar (c : Z) : list instr * Z := (IAcquire :: putchar_have_lock c ++ [IRelease], c).
Definition putbuf (buffer : list Z) : list instr := IAcquire :: puts_have_lock buffer ++ [IRelease].
Definition puts (s : list Z) : list instr * Z :=
  (IAcquire :: puts_have_lock s ++ putchar_have_lock 10 ++ [IRelease], 0).
Definition vprintf_helper (char_cnt c : Z) : list instr * Z := (putchar_have_lock c, s32 (char_cnt + 1)).
(** __vprintf () gives its output to vprintf_helper () one character at a time. *)
Fixpoint helper_loop (char_cnt : Z) (out : list Z) : list instr * Z :=
  match out with
  | [] => ([], char_cnt)
  | c :: out =>
      let '(l, n) := vprintf_helper char_cnt c in
      let '(k, n) := helper_loop n out in (l ++ k, n)
  end.
Definition vprintf (fuel : nat) (format : list Z) (args : list arg) : result (list instr * Z) :=
  match __vprintf fuel format args with
  | Ok out => let '(l, n) := helper_loop 0 out in Ok (IAcquire :: l ++ [IRelease], n)
  | Panic => Panic | Fault => Fault | Fuel => Fuel
  end.

(** The printing functions differ only in what they print: each is putbuf () of its output. *)
Lemma putchar_putbuf c : putchar c = (putbuf [c], c).
Proof. done. Qed.
Lemma puts_putbuf s : puts s = (putbuf (s ++ [10]), 0).
Proof. unfold puts, putbuf, puts_have_lock. by rewrite bind_app, <-app_assoc. Qed.
Lemma helper_loop_puts n out : 0 ≤ n → n + Z.of_nat (length out) < 2 ^ 31 →
  helper_loop n out = (puts_have_lock out, n + Z.of_nat (length out)).
Proof.
  revert n. induction out as [|c out IH]; intros n H0 H1; [cbn; by rewrite Z.add_0_r|]. cbn [helper_loop length vprintf_helper] in *.
  rewrite swrap_small by (change (2 ^ (32 - 1)) with (2 ^ 31); lia). cbn [vprintf_helper]. rewrite IH by lia. f_equal. lia.
Qed.
Lemma vprintf_putbuf fuel format args out : __vprintf fuel format args = Ok out → Z.of_nat (length out) < 2 ^ 31 →
  vprintf fuel format args = Ok (putbuf out, Z.of_nat (length out)).
Proof. intros E H. unfold vprintf. by rewrite E, helper_loop_puts by lia. Qed.

(** ** Threads that print

    [todo] is what each thread has left of its printing calls.  A thread can make a call
    at any time, also in the middle of another one (a printf () in a function that the
    first call gets to), and every call is a call of putbuf (); the bound on the steps that a thread has left stands for the
    page of its stack.  An interrupt handler prints without taking turns with threads,
    and other handlers wait for it. *)
Record sys := mk_sys { console : con; todo : gmap Z (list instr) }.
Definition todo_of (s : sys) (t : Z) : list instr := default [] (todo s !! t).
Inductive event := ERun (t : Z) | ECall (t : Z) (cs : list Z) | EIntr (t : Z) (cs : list Z).
Inductive step (s : sys) : event → sys → Prop :=
| step_run t i l c' :
    todo_of s t = i :: l → exec_instr false t i (console s) = Ok (true, c') →
    step s (ERun t) (mk_sys c' (<[t := l]> (todo s)))
| step_call t cs :
    t ≠ 0 → Z.of_nat (length (putbuf cs ++ todo_of s t)) < 2 ^ 31 →
    step s (ECall t cs) (mk_sys (console s) (<[t := putbuf cs ++ todo_of s t]> (todo s)))
| step_intr t cs b c' :
    exec_all true t (putbuf cs) (console s) = Ok (b, c') →
    step s (EIntr t cs) (mk_sys c' (todo s)).
Inductive reachable : sys → Prop :=
| reach_init c c' : console_lock_depth c = 0 → console_init c = Ok (tt, c') → reachable (mk_sys c' ∅)
| reach_step s e s' : reachable s → step s e s' → reachable s'.

(** ** The invariant *)

(** The steps of a thread that is [n] calls deep in the console. *)
Fixpoint balanced (n : nat) (l : list instr) : bool :=
  match l with
  | [] => bool_decide (n = 0%nat)
  | IAcquire :: l => balanced (S n) l
  | IRelease :: l => match n with O => false | S n => balanced n l end
  | (ICheck | ISerial _ | IVga _) :: l => bool_decide (n ≠ 0%nat) && balanced n l
  end.
Definition level (c : con) (t : Z) : nat :=
  if decide (holder c = t) then S (Z.to_nat (console_lock_depth c)) else 0.
Record inv (s : sys) : Prop := {
  v_use : use_console_lock (console s) = true;
  v_depth : 0 ≤ console_lock_depth (console s);
  v_free : holder (console s) = 0 → console_lock_depth (console s) = 0;
  v_todo t : t ≠ 0 → balanced (level (console s) t) (todo_of s t) = true;
  v_zero : todo_of s 0 = [];
  v_short t : Z.of_nat (length (todo_of s t)) < 2 ^ 31 }.

Lemma balanced_puts n cs k : balanced (S n) (puts_have_lock cs ++ k) = balanced (S n) k.
Proof. induction cs as [|c cs IH]; [done|]. exact IH. Qed.
Lemma balanced_putbuf n cs k : balanced n (putbuf cs ++ k) = balanced n k.
Proof. unfold putbuf. simpl. rewrite <-app_assoc, balanced_puts. done. Qed.
Lemma balanced_length n l : balanced n l = true → (n ≤ length l)%nat.
Proof.
  revert n. induction l as [|i l IH]; intros n; simpl.
  - intros ->%bool_decide_eq_true. lia.
  - destruct i; [intros ?%IH; lia|intros [_ ?%IH]%andb_true_iff; lia..|]. destruct n; [done|]. intros ?%IH. lia.
Qed.
(** The steps of a thread do what the depth says. *)
Definition printed (t : Z) (i : instr) (l : list (Z * Z)) : list (Z * Z) :=
  match i with ISerial x => l ++ [(t, x)] | _ => l end.
Definition displayed (t : Z) (i : instr) (l : list (Z * Z)) : list (Z * Z) :=
  match i with IVga x => l ++ [(t, x)] | _ => l end.
Record ran (c : con) (t : Z) (i : instr) (l : list instr) (c' : con) : Prop := {
  r_use : use_console_lock c' = true;
  r_depth : 0 ≤ console_lock_depth c';
  r_free : holder c' = 0 → console_lock_depth c' = 0;
  r_level : level c' t = match i with IAcquire => S (level c t) | IRelease => pred (level c t) | _ => level c t end;
  r_other t' : t' ≠ t → t' ≠ 0 → level c' t' = level c t';
  r_serial : serial c' = printed t i (serial c);
  r_vga : vga c' = displayed t i (vga c) }.
Lemma wp_exec c t i l : use_console_lock c = true → 0 ≤ console_lock_depth c → (holder c = 0 → console_lock_depth c = 0) →
  t ≠ 0 → balanced (level c t) (i :: l) = true → Z.of_nat (length (i :: l)) < 2 ^ 31 →
  wp (exec_instr false t i) c (λ b c', if b then ran c t i l c' else i = IAcquire ∧ holder c ≠ 0 ∧ holder c ≠ t ∧ c' = c).
Proof.
  intros Hu Hd Hf Ht Hb Hl. pose proof (balanced_length _ _ Hb) as Hn. unfold level in *.
  destruct i; simpl in *.
  - unfold acquire_console, con_lock_held. repeat wp_step. rewrite Hu. simpl. repeat wp_step.
    destruct (decide (holder c = t)) as [E|E].
    + rewrite bool_decide_true by done. repeat wp_step. rewrite swrap_small by (change (2 ^ (32 - 1)) with (2 ^ 31); lia).
      split; simpl; unfold level; simpl; try done; try lia.
      * rewrite !decide_True by done. lia.
      * intros t' ? ?. by rewrite !decide_False by congruence.
    + rewrite bool_decide_false by done. unfold con_lock_acquire, con_lock_held. cbn [negb].
      repeat wp_step; [done|by rewrite bool_decide_false|]. destruct (decide (holder c = 0)) as [E0|E0].
      * rewrite bool_decide_true by done. repeat wp_step. pose proof (Hf E0) as Ed. split; simpl; unfold level; simpl; try done.
        -- by rewrite decide_True, Ed, decide_False by done.
        -- intros t' ? ?. by rewrite !decide_False by congruence.
      * rewrite bool_decide_false by done. by repeat wp_step.
  - apply andb_true_iff in Hb as [Hh Hb]. case_decide as E; [|done].
    unfold console_locked_by_current_thread, con_lock_held. repeat wp_step; [by rewrite Hu, bool_decide_true|].
    by split.
  - unfold to_serial. repeat wp_step. by split.
  - unfold to_vga. repeat wp_step. by split.
  - case_decide as E; [|done]. unfold release_console, con_lock_release, con_lock_held.
    repeat wp_step. rewrite Hu. cbn [negb andb]. repeat wp_step. destruct (Z.ltb_spec 0 (console_lock_depth c)).
    + repeat wp_step. split; simpl; unfold level; simpl; try done; try lia.
      * rewrite !decide_True by done. lia.
      * intros t' ? ?. by rewrite !decide_False by congruence.
    + repeat wp_step; [by rewrite bool_decide_true|]. split; simpl; unfold level; simpl; try done; try lia.
      * rewrite decide_False, decide_True by done. lia.
      * intros t' ? ?. by rewrite !decide_False by congruence.
Qed.
(** An interrupt handler leaves the lock alone. *)
Lemma exec_all_intr t l c : ∃ n s' v', exec_all true t l c = Ok (true, mk_con (holder c) (use_console_lock c) (console_lock_depth c) n
  (serial c ++ s') (vga c ++ v')) ∧ Forall (λ x, x.1 = 0) s' ∧ Forall (λ x, x.1 = 0) v'.
Proof.
  revert c. induction l as [|i l IH]; intros c.
  - exists (write_cnt c), [], []. rewrite !app_nil_r. by destruct c.
  - assert (∃ n s' v', exec_instr true t i c = Ok (true, mk_con (holder c) (use_console_lock c) (console_lock_depth c) n (serial c ++ s') (vga c ++ v'))
      ∧ Forall (λ x, x.1 = 0) s' ∧ Forall (λ x, x.1 = 0) v') as (n1 & s1 & v1 & E1 & Hs1 & Hv1).
    { exists (match i with ICheck => s64 (write_cnt c + 1) | _ => write_cnt c end), (printed 0 i []), (displayed 0 i []).
      destruct c, i; cbn; rewrite ?app_nil_r; by repeat constructor. }
    cbn [exec_all]. unfold mbind, M_bind. rewrite E1. destruct (IH (mk_con (holder c) (use_console_lock c) (console_lock_depth c) n1 (serial c ++ s1) (vga c ++ v1)))
      as (n2 & s2 & v2 & E2 & Hs2 & Hv2). rewrite E2. simpl. exists n2, (s1 ++ s2), (v1 ++ v2). rewrite !app_assoc.
    by rewrite !Forall_app.
Qed.
Lemma todo_insert s c t l t' : todo_of (mk_sys c (<[t := l]> (todo s))) t' = if decide (t = t') then l else todo_of s t'.
Proof. unfold todo_of. simpl. case_decide; [subst; by rewrite lookup_insert_eq|by rewrite lookup_insert_ne]. Qed.
Lemma wp_run s t i l : inv s → todo_of s t = i :: l →
  wp (exec_instr false t i) (console s) (λ b c', if b then ran (console s) t i l c' else i = IAcquire ∧ holder (console s) ≠ 0 ∧ holder (console s) ≠ t ∧ c' = console s).
Proof.
  intros [Hu Hd Hf Ht Hz Hs] E. assert (t ≠ 0) by (intros ->; congruence).
  apply wp_exec; [done..|by rewrite <-E; apply Ht|rewrite <-E; apply Hs].
Qed.
Lemma run_ran s t i l c' : inv s → todo_of s t = i :: l → exec_instr false t i (console s) = Ok (true, c') → ran (console s) t i l c'.
Proof. intros Hi E Ec. pose proof (wp_run s t i l Hi E) as Hw. unfold wp in Hw. by rewrite Ec in Hw. Qed.
Lemma balanced_step n i l : balanced n (i :: l) = true →
  balanced (match i with IAcquire => S n | IRelease => pred n | _ => n end) l = true.
Proof. destruct i; simpl; [done|by intros [_ ?]%andb_true_iff..|by destruct n]. Qed.
Lemma con_step_inv s e s' : inv s → step s e s' → inv s'.
Proof.
  intros Hi Hstep. pose proof Hi as [Hu Hd Hf Ht Hz Hs]. destruct Hstep as [t i l c' E Ec|t cs Ht0 Hl|t cs b c' Ec].
  - destruct (run_ran _ _ _ _ _ Hi E Ec) as [Ru Rd Rf Rl Ro _ _]. assert (t ≠ 0) as Ht0 by (intros ->; congruence).
    split; simpl; try done.
    + intros t' Ht'. rewrite todo_insert. case_decide as Et; [subst t'|rewrite Ro by congruence; by apply Ht].
      rewrite Rl. apply balanced_step. rewrite <-E. by apply Ht.
    + rewrite todo_insert. by rewrite decide_False.
    + intros t'. rewrite todo_insert. case_decide as Et; [subst t'|by apply Hs]. pose proof (Hs t) as Hst. rewrite E in Hst. simpl in Hst. lia.
  - split; cbn [console]; try done.
    + intros t' Ht'. rewrite todo_insert. case_decide as Et; [subst t'|by apply Ht]. rewrite balanced_putbuf. by apply Ht.
    + rewrite todo_insert. by rewrite decide_False.
    + intros t'. rewrite todo_insert. case_decide; [subst t'; exact Hl|by apply Hs].
  - destruct (exec_all_intr t (putbuf cs) (console s)) as (n & s' & v' & E & _). rewrite E in Ec. injection Ec as <- <-. by split.
Qed.
Lemma con_reachable_inv s : reachable s → inv s.
Proof.
  induction 1 as [c c' Hd [= <-]|s e s' _ IH Hstep]; [|by eapply con_step_inv]. split; simpl; try done; [by rewrite Hd|].
  intros t Ht. unfold level. simpl. by rewrite decide_False.
Qed.
Lemma level_unique c t t' : level c t ≠ 0%nat → level c t' ≠ 0%nat → t = t'.
Proof. unfold level. repeat case_decide; congruence. Qed.
(** The thread in the console can go on. *)
Lemma holder_runs s : inv s → holder (console s) ≠ 0 → ∃ s', step s (ERun (holder (console s))) s'.
Proof.
  intros Hi Hh. pose proof (v_todo _ Hi _ Hh) as Hb. unfold level in Hb. rewrite decide_True in Hb by done.
  destruct (todo_of s (holder (console s))) as [|i l] eqn:E; [done|].
  destruct (proj1 (wp_ok _ _ _) (wp_run s _ i l Hi E)) as ([] & c' & Ec & Hc); [|by destruct Hc as (_ & _ & ? & _)].
  eexists. by eapply step_run.
Qed.
(** Printing never gets stuck: no assertion of the console or of its lock fails, in
    whatever order threads print, one call in the middle of another or not, with interrupt
    handlers printing too; a thread waits only to enter while another one is printing; and
    as long as a thread has something to print, some thread can go on. *)
Theorem console_never_stuck s : reachable s →
  (∀ t i l, todo_of s t = i :: l → wp (exec_instr false t i) (console s) (λ b c', b = false →
     i = IAcquire ∧ holder (console s) ≠ 0 ∧ holder (console s) ≠ t ∧ c' = console s)) ∧
  (∀ t, todo_of s t ≠ [] → ∃ t' s', step s (ERun t') s').
Proof.
  intros Hi%con_reachable_inv. split.
  - intros t i l E. eapply wp_mono; [by apply (wp_run s t i l)|]. by intros [] c' Hc.
  - intros t Ht. destruct (todo_of s t) as [|i l] eqn:E; [done|].
    destruct (proj1 (wp_ok _ _ _) (wp_run s _ i l Hi E)) as ([] & c' & Ec & Hc).
    + eexists t, _. by eapply step_run.
    + destruct Hc as (_ & Hh & _). destruct (holder_runs s Hi Hh) as [s' Hs]. by eexists _, s'.
Qed.

(** ** Output does not mix *)
Definition serial_of (l : list instr) : list Z := omap (λ i, match i with ISerial c => Some c | _ => None end) l.
Definition vga_of (l : list instr) : list Z := omap (λ i, match i with IVga c => Some c | _ => None end) l.
Lemma serial_of_puts cs : serial_of (puts_have_lock cs) = u8 <$> cs.
Proof. induction cs as [|c cs IH]; [done|]. change (u8 c :: serial_of (puts_have_lock cs) = u8 c :: (u8 <$> cs)). by rewrite IH. Qed.
Lemma vga_of_puts cs : vga_of (puts_have_lock cs) = u8 <$> cs.
Proof. induction cs as [|c cs IH]; [done|]. change (u8 c :: vga_of (puts_have_lock cs) = u8 c :: (u8 <$> cs)). by rewrite IH. Qed.

(** What a device has received since [l0]: before thread [t] wrote, while it wrote [bs],
    and when it was through. *)
Definition before (t : Z) (l0 l : list (Z * Z)) : Prop := ∃ pre, l = l0 ++ pre ∧ Forall (λ x, x.1 ≠ t) pre.
Definition during (t : Z) (l0 : list (Z * Z)) (bs : list Z) (l : list (Z * Z)) : Prop :=
  ∃ pre k, l = l0 ++ pre ++ k ∧ Forall (λ x, x.1 ≠ t) pre ∧ filter (λ x, x.1 ≠ 0) k = pair t <$> bs.
Definition unmixed (t : Z) (l0 : list (Z * Z)) (bs : list Z) (l : list (Z * Z)) : Prop :=
  ∃ pre k post, l = l0 ++ pre ++ k ++ post ∧ Forall (λ x, x.1 ≠ t) pre ∧ Forall (λ x, x.1 ≠ t) post ∧
    filter (λ x, x.1 ≠ 0) k = pair t <$> bs.
Section unmixed.
Context (t : Z) (l0 : list (Z * Z)) (Ht : t ≠ 0).
Lemma before_during l : before t l0 l → during t l0 [] l.
Proof. intros (pre & -> & Hp). exists pre, []. by rewrite app_nil_r. Qed.
Lemma during_unmixed bs l : during t l0 bs l → unmixed t l0 bs l.
Proof. intros (pre & k & -> & Hp & Hk). exists pre, k, []. by rewrite app_nil_r. Qed.
Lemma before_app l k : before t l0 l → Forall (λ x, x.1 ≠ t) k → before t l0 (l ++ k).
Proof. intros (pre & -> & Hp) Hk. exists (pre ++ k). rewrite <-app_assoc. by rewrite Forall_app. Qed.
Lemma during_intr bs l k : during t l0 bs l → Forall (λ x, x.1 = 0) k → during t l0 bs (l ++ k).
Proof.
  intros (pre & k' & -> & Hp & Hk') Hk. exists pre, (k' ++ k). rewrite <-!app_assoc. split_and!; [done..|].
  rewrite filter_app, Hk'. enough (filter (λ x, x.1 ≠ 0) k = []) as -> by by rewrite app_nil_r.
  induction Hk as [|x k Hx _ IH]; [done|]. rewrite filter_cons_False; [done|naive_solver].
Qed.
Lemma during_put bs l c : during t l0 bs l → during t l0 (bs ++ [c]) (l ++ [(t, c)]).
Proof.
  intros (pre & k & -> & Hp & Hk). exists pre, (k ++ [(t, c)]). rewrite <-!app_assoc. split_and!; [done..|].
  by rewrite filter_app, Hk, fmap_app, filter_cons_True.
Qed.
Lemma unmixed_app bs l k : unmixed t l0 bs l → Forall (λ x, x.1 ≠ t) k → unmixed t l0 bs (l ++ k).
Proof.
  intros (pre & k' & post & -> & Hp & Hpost & Hk') Hk. exists pre, k', (post ++ k). rewrite <-!app_assoc.
  by rewrite Forall_app.
Qed.
End unmixed.
(** A step of something else than thread [t]. *)
Record elsewhere (t : Z) (s s' : sys) : Prop := {
  e_todo : todo_of s' t = todo_of s t;
  e_level : level (console s') t = level (console s) t;
  e_serial : ∃ k, serial (console s') = serial (console s) ++ k ∧ Forall (λ x, x.1 ≠ t) k ∧
    (level (console s) t ≠ 0%nat → Forall (λ x, x.1 = 0) k);
  e_vga : ∃ k, vga (console s') = vga (console s) ++ k ∧ Forall (λ x, x.1 ≠ t) k ∧
    (level (console s) t ≠ 0%nat → Forall (λ x, x.1 = 0) k) }.
Lemma elsewhere_run s t' t i l c' : inv s → t ≠ 0 → t' ≠ t → todo_of s t' = i :: l → ran (console s) t' i l c' →
  elsewhere t s (mk_sys c' (<[t' := l]> (todo s))).
Proof.
  intros Hi Ht Hne E [_ _ _ Rl Ro Rs Rv].
  assert (t' ≠ 0) as Ht' by (intros ->; rewrite (v_zero _ Hi) in E; done). pose proof (v_todo _ Hi t' Ht') as Hb. rewrite E in Hb.
  assert (level (console s) t ≠ 0%nat → i = IAcquire) as Hin.
  { intros Hl. assert (level (console s) t' = 0%nat) as E0.
    { destruct (decide (level (console s) t' = 0%nat)); [done|]. by destruct Hne, (level_unique (console s) t' t). }
    rewrite E0 in Hb. by destruct i. }
  split; cbn [console].
  - by rewrite todo_insert, decide_False.
  - by apply Ro.
  - exists (printed t' i []). rewrite Rs. split; [by destruct i; simpl; rewrite ?app_nil_r|]. split; [destruct i; by repeat constructor|].
    by intros ->%Hin.
  - exists (displayed t' i []). rewrite Rv. split; [by destruct i; simpl; rewrite ?app_nil_r|]. split; [destruct i; by repeat constructor|].
    by intros ->%Hin.
Qed.
Lemma elsewhere_step s e s' t : inv s → t ≠ 0 → step s e s' → (∀ cs, e ≠ ECall t cs) → e ≠ ERun t → elsewhere t s s'.
Proof.
  intros Hi Ht Hstep Hc Hr. destruct Hstep as [t' i l c' E Ec|t' cs Ht0 Hl|t' cs b c' Ec].
  - eapply elsewhere_run; [done|done|congruence|done|by apply run_ran].
  - split; cbn [console]; [by rewrite todo_insert, decide_False by naive_solver|done|exists []; by rewrite app_nil_r..].
  - destruct (exec_all_intr t' (putbuf cs) (console s)) as (n & ks & kv & E & Hs & Hv). rewrite E in Ec. injection Ec as <- <-.
    assert (∀ k : list (Z * Z), Forall (λ x, x.1 = 0) k → Forall (λ x, x.1 ≠ t) k) as Hk
      by (intros k Hf; eapply Forall_impl; [exact Hf|]; intros x ->; congruence).
    split; cbn; [done..|exists ks|exists kv]; auto.
Qed.

Section phases.
Context (t : Z) (cs : list Z) (rest : list instr) (l0 v0 : list (Z * Z)) (Ht : t ≠ 0).
Inductive phase (s : sys) : Prop :=
| ph_waiting : todo_of s t = putbuf cs ++ rest → level (console s) t = 0%nat →
    before t l0 (serial (console s)) → before t v0 (vga (console s)) → phase s
| ph_inside dn left : puts_have_lock cs = dn ++ left → todo_of s t = left ++ IRelease :: rest →
    level (console s) t = 1%nat →
    during t l0 (serial_of dn) (serial (console s)) → during t v0 (vga_of dn) (vga (console s)) → phase s
| ph_through : todo_of s t = rest → unmixed t l0 (u8 <$> cs) (serial (console s)) →
    unmixed t v0 (u8 <$> cs) (vga (console s)) → phase s
| ph_past : (length (todo_of s t) < length rest)%nat → phase s.
Lemma phase_elsewhere s s' : elsewhere t s s' → phase s → phase s'.
Proof.
  intros [Et El (ks & Es & Hs & Hs') (kv & Ev & Hv & Hv')] [E L S V|dn left Ed E L S V|E S V|E].
  - apply ph_waiting; rewrite ?Et, ?El, ?Es, ?Ev; auto using before_app.
  - apply (ph_inside _ dn left); rewrite ?Et, ?El, ?Es, ?Ev; auto;
      apply during_intr; auto; [apply Hs'|apply Hv']; by rewrite L.
  - apply ph_through; rewrite ?Et, ?El, ?Es, ?Ev; auto using unmixed_app.
  - apply ph_past. by rewrite Et.
Qed.
Lemma phase_run s i l c' : inv s → todo_of s t = i :: l → ran (console s) t i l c' → phase s →
  phase (mk_sys c' (<[t := l]> (todo s))).
Proof.
  intros Hi Ei [_ _ _ Rl _ Rs Rv] Hph.
  assert (todo_of (mk_sys c' (<[t := l]> (todo s))) t = l) as El by (by rewrite todo_insert, decide_True).
  destruct Hph as [E L S V|dn left Ed E L S V|E S V|E].
  - rewrite Ei in E. injection E as -> E. apply (ph_inside _ [] (puts_have_lock cs)); [done| | | |]; cbn [console].
    + by rewrite El, E, <-app_assoc.
    + by rewrite Rl, L.
    + rewrite Rs. by apply before_during.
    + rewrite Rv. by apply before_during.
  - rewrite Ei in E. destruct left as [|i' left]; injection E as -> E.
    + rewrite app_nil_r in Ed. subst dn. rewrite serial_of_puts in S. rewrite vga_of_puts in V.
      apply ph_through; cbn [console]; [congruence|rewrite Rs|rewrite Rv]; by apply during_unmixed.
    + apply (ph_inside _ (dn ++ [i']) left); cbn [console].
      * by rewrite <-app_assoc.
      * congruence.
      * assert (i' ∈ puts_have_lock cs) as Hin by (rewrite Ed; set_solver). rewrite Rl, L.
        unfold puts_have_lock in Hin. apply list_elem_of_bind in Hin as (c & Hin & _). unfold putchar_have_lock in Hin.
        set_unfold in Hin. by destruct Hin as [->|[->|[->|[]]]].
      * rewrite Rs. unfold serial_of. rewrite omap_app. destruct i'; simpl; rewrite ?app_nil_r; auto using during_put.
      * rewrite Rv. unfold vga_of. rewrite omap_app. destruct i'; simpl; rewrite ?app_nil_r; auto using during_put.
  - apply ph_past. rewrite El, <-E, Ei. simpl. lia.
  - apply ph_past. rewrite El. rewrite Ei in E. simpl in E. lia.
Qed.
Lemma phase_step s e s' : inv s → step s e s' → (∀ cs, e ≠ ECall t cs) → phase s → phase s'.
Proof.
  intros Hi Hstep Hc Hph. assert (e = ERun t ∨ e ≠ ERun t) as [->|Hne]
    by (destruct e as [t'| |]; [destruct (decide (t' = t)) as [->|]; [by left|right; congruence]|by right..]).
  - inversion Hstep as [t' i l c' E Ec| |]; subst. eapply phase_run; [done|done|by apply run_ran|done].
  - eapply phase_elsewhere; [by eapply elsewhere_step|done].
Qed.
End phases.
(** Steps in which thread [t] makes no new call. *)
Definition quietly (t : Z) : sys → sys → Prop := rtc (λ s s', ∃ e, (∀ cs, e ≠ ECall t cs) ∧ step s e s').
(** C24: The console lock keeps output together: when a thread that is not in the console
    prints, then the serial port and the display each receive what it prints as one
    piece, with nothing of other threads in between; only interrupt handlers can come in. *)
Theorem console_unmixed s0 s1 s t cs :
  reachable s0 → holder (console s0) ≠ t → step s0 (ECall t cs) s1 → quietly t s1 s → todo_of s t = todo_of s0 t →
  unmixed t (serial (console s0)) (u8 <$> cs) (serial (console s)) ∧
  unmixed t (vga (console s0)) (u8 <$> cs) (vga (console s)).
Proof.
  intros Hi%con_reachable_inv Hh Hcall Hq E.
  assert (t ≠ 0) as Ht by by inversion Hcall.
  assert (phase t cs (todo_of s0 t) (serial (console s0)) (vga (console s0)) s1) as Hph.
  { inversion Hcall; subst. apply ph_waiting; cbn [console]; [by rewrite todo_insert, decide_True| |exists []; by rewrite app_nil_r..].
    unfold level. by rewrite decide_False. }
  assert (inv s1) as Hi1 by by eapply con_step_inv.
  clear Hcall Hi. induction Hq as [s1|s1 s2 s (e & He & Hstep) _ IH].
  - destruct Hph as [E' _ _ _|dn left _ E' _ _ _|_ S V|E']; [..|done|rewrite E in E'; lia]; rewrite E in E'.
    all: apply (f_equal length) in E'; rewrite length_app in E'; simpl in E'; lia.
  - apply IH; [done|by eapply phase_step|by eapply con_step_inv].
Qed.

(** ** An example: two threads, an interrupt handler and a call within a call *)
Definition fire (s : sys) (e : event) : option sys :=
  match e with
  | ERun t =>
      match todo_of s t with
      | i :: l => match exec_instr false t i (console s) with Ok (true, c') => Some (mk_sys c' (<[t := l]> (todo s))) | _ => None end
      | [] => None
      end
  | ECall t cs =>
      if (t =? 0) || (2 ^ 31 <=? Z.of_nat (length (putbuf cs ++ todo_of s t))) then None
      else Some (mk_sys (console s) (<[t := putbuf cs ++ todo_of s t]> (todo s)))
  | EIntr t cs => match exec_all true t (putbuf cs) (console s) with Ok (_, c') => Some (mk_sys c' (todo s)) | _ => None end
  end.
Lemma con_fire_step s e s' : fire s e = Some s' → step s e s'.
Proof.
  destruct e as [t|t cs|t cs]; unfold fire.
  - destruct (todo_of s t) as [|i l] eqn:E; [done|]. destruct (exec_instr false t i (console s)) as [[[] c']| | |] eqn:Ec; try done.
    intros [= <-]. by eapply step_run.
  - destruct (Z.eqb_spec t 0), (Z.leb_spec (2 ^ 31) (Z.of_nat (length (putbuf cs ++ todo_of s t)))); cbn [orb]; try done.
    intros [= <-]. by apply step_call.
  - destruct (exec_all true t (putbuf cs) (console s)) as [[b c']| | |] eqn:Ec; try done. intros [= <-]. by eapply step_intr.
Qed.
Fixpoint fires (s : sys) (es : list event) : option sys :=
  match es with [] => Some s | e :: es => match fire s e with Some s' => fires s' es | None => None end end.
Lemma con_fires_reachable s es s' : reachable s → fires s es = Some s' → reachable s'.
Proof.
  revert s. induction es as [|e es IH]; intros s Hr; simpl; [by intros [= <-]|].
  destruct (fire s e) as [s1|] eqn:E; [|done]. apply IH. eapply reach_step; [done|by apply con_fire_step].
Qed.
Lemma fires_quietly t s es s' : Forall (λ e, match e with ECall t' _ => t' ≠ t | _ => True end) es →
  fires s es = Some s' → quietly t s s'.
Proof.
  intros Hes. revert s. induction Hes as [|e es He _ IH]; intros s; simpl; [intros [= <-]; apply rtc_refl|].
  destruct (fire s e) as [s1|] eqn:E; [|done]. intros Hf. eapply rtc_l; [|by apply IH]. exists e.
  split; [by intros cs ->|by apply con_fire_step].
Qed.
Definition ex_con : con := mk_con 0 false 0 0 [] [].
Definition ex_sys : sys := mk_sys (mk_con 0 true 0 0 [] []) ∅.
Lemma ex_sys_reachable : reachable ex_sys.
Proof. by apply (reach_init ex_con). Qed.
(** Thread 2 is in the console when thread 1 wants to print "hi". *)
Definition ex_first : list event := [ECall 2 [97; 98]; ERun 2; ERun 2; ERun 2; ERun 2].
Definition ex_then : list event :=
  [ERun 2; ERun 2; ECall 2 [33]; ERun 2; ERun 2; ERun 2; ERun 2; ERun 2; ERun 2; ERun 2;
   ERun 1; ERun 1; ERun 1; EIntr 1 [42]; ECall 2 [99]; ERun 1; ERun 1; ERun 1; ERun 1; ERun 1;
   ERun 2; ERun 2; ERun 2; ERun 2; ERun 2].
Definition state_after (s : sys) (es : list event) : sys := default s (fires s es).
Definition ex_calling : sys := state_after ex_sys ex_first.
Definition ex_called : sys := state_after ex_calling [ECall 1 [104; 105]].
Definition ex_through : sys := state_after ex_called ex_then.
Lemma console_unmixed_witness :
  unmixed 1 [(2, 97)] [104; 105] (serial (console ex_through)) ∧
  serial (console ex_through) = [(2, 97); (2, 98); (2, 33); (1, 104); (0, 42); (1, 105); (2, 99)].
Proof.
  split; [|vm_compute; reflexivity].
  assert (fires ex_sys ex_first = Some ex_calling) as E1 by (vm_compute; reflexivity).
  assert (fire ex_calling (ECall 1 [104; 105]) = Some ex_called) as E2 by (vm_compute; reflexivity).
  assert (fires ex_called ex_then = Some ex_through) as E3 by (vm_compute; reflexivity).
  apply (console_unmixed ex_calling ex_called ex_through 1 [104; 105]).
  - exact (con_fires_reachable _ _ _ ex_sys_reachable E1).
  - vm_compute. discriminate.
  - exact (con_fire_step _ _ _ E2).
  - apply (fires_quietly 1 _ ex_then); [|exact E3]. repeat constructor; discriminate.
  - vm_compute. reflexivity.
Defined.
Lemma console_never_stuck_witness :
  (∃ t' s', step ex_called (ERun t') s') ∧ wp (exec_instr false 1 IAcquire) (console ex_called) (λ b _, b = false).
Proof.
  assert (fires ex_sys (ex_first ++ [ECall 1 [104; 105]]) = Some ex_called) as E by (vm_compute; reflexivity).
  destruct (console_never_stuck ex_called (con_fires_reachable _ _ _ ex_sys_reachable E)) as [_ H].
  split; [|vm_compute; reflexivity]. apply (H 1). vm_compute. discriminate.
Defined.
