(* ===== verification/Ustar.v ===== *)
(** * Tar headers: lib/ustar.c

    A header is the record of its fields, each with its size in the file; file
    names are strings without their null byte.  The numbers are formatted by
    [snprintf] of Printf.  The main theorem is that ustar_parse_header gives back
    what ustar_make_header was given. *)

From Stdlib Require Import String.
From S2P Require Import Prelude SortSearch Printf.
Local Open Scope Z_scope.

Record ustar_header := mk_header {
  name : list Z; mode : list Z; uid : list Z; gid : list Z; hsize : list Z; mtime : list Z;
  chksum : list Z; typeflag : Z; linkname : list Z; magic : list Z; version : list Z;
  uname : list Z; gname : list Z; devmajor : list Z; devminor : list Z; prefix : list Z;
  padding : list Z }.

Inductive ustar_type := USTAR_REGULAR | USTAR_DIRECTORY | USTAR_EOF.
#[export] Instance ustar_type_eq_dec : EqDecision ustar_type.
Proof. solve_decision. Defined.
Definition type_char (t : ustar_type) : Z :=
  match t with USTAR_REGULAR => 48 | USTAR_DIRECTORY => 53 | USTAR_EOF => -1 end.

(** The bytes before and after the chksum field. *)
Definition bytes_before (h : ustar_header) : list Z :=
  name h ++ mode h ++ uid h ++ gid h ++ hsize h ++ mtime h.
Definition bytes_after (h : ustar_header) : list Z :=
  typeflag h :: linkname h ++ magic h ++ version h ++ uname h ++ gname h ++
    devmajor h ++ devminor h ++ prefix h ++ padding h.
Definition header_bytes (h : ustar_header) : list Z :=
  bytes_before h ++ chksum h ++ bytes_after h.

(** The eight bytes of the chksum field count as spaces. *)
Definition sum (bs : list Z) : Z := foldr Z.add 0 bs.
Definition calculate_chksum (h : ustar_header) : Z :=
  u32 (sum (bytes_before h ++ replicate 8 32 ++ bytes_after h)).

(** *file_name == '/' || !memcmp (file_name, "./", 2) || !memcmp (file_name, "../", 3) *)
Definition starts_with (s f : list Z) : bool := bool_decide (take (length s) f = s).
Definition antisocial (f : list Z) : bool :=
  starts_with [47] f || starts_with [46; 47] f || starts_with [46; 46; 47] f.
(** strchr (file_name, '/') + 1 *)
Fixpoint after_slash (f : list Z) : option (list Z) :=
  match f with
  | [] => None
  | c :: f => if c =? 47 then Some f else after_slash f
  end.
Fixpoint strip_loop (fuel : nat) (f : list Z) : result (list Z) :=
  if antisocial f then
    match fuel with
    | O => Fuel
    | S fuel => match after_slash f with Some f => strip_loop fuel f | None => Fault end
    end
  else Ok f.
Definition strip_antisocial_prefixes (f : list Z) : result (list Z) :=
  let? f := strip_loop (S (length f)) f in
  Ok (if decide (f = [] ∨ f = [46; 46]) then [46] else f).

(** strlcpy into a field of [n] bytes that holds zeros. *)
Definition strlcpy_field (n : nat) (s : list Z) : list Z :=
  take (n - 1) s ++ replicate (n - length (take (n - 1) s)) 0.
(** snprintf into a field of [n] zero bytes. *)
Definition snprintf_field (n : nat) (format : string) (z : Z) : result (list Z) :=
  let? (bs, _) := snprintf 30 (Z.of_nat n) (chars format) [A32 z] in
  Ok (bs ++ replicate (n - length bs) 0).

(** [None]: false, the name is too long. *)
Definition ustar_make_header (file_name : list Z) (type : ustar_type) (size : Z) :
    result (option ustar_header) :=
  if decide (type = USTAR_EOF) then Panic else
  let? file_name := strip_antisocial_prefixes file_name in
  if 99 <? Z.of_nat (length file_name) then Ok None else
  let? mode := snprintf_field 8 "%07o" (match type with USTAR_REGULAR => 420 | _ => 493 end) in
  let? size := snprintf_field 12 "%011o" size in
  let? mtime := snprintf_field 12 "%011o" 1136102400 in
  let h := mk_header (strlcpy_field 100 file_name) mode
    (strlcpy_field 8 (chars "0000000")) (strlcpy_field 8 (chars "0000000")) size mtime
    (replicate 8 0) (type_char type) (replicate 100 0) (strlcpy_field 6 (chars "ustar")) [48; 48]
    (strlcpy_field 32 (chars "root")) (strlcpy_field 32 (chars "root"))
    (replicate 8 0) (replicate 8 0) (replicate 155 0) (replicate 12 0) in
  let? sum := snprintf_field 8 "%07o" (calculate_chksum h) in
  Ok (Some (mk_header (name h) mode (uid h) (gid h) size mtime sum (typeflag h) (linkname h)
    (magic h) (version h) (uname h) (gname h) (devmajor h) (devminor h) (prefix h) (padding h))).

(** [ofs]: the number of digits so far; the result is [None] on failure. *)
Fixpoint parse_octal_loop (s : list Z) (ofs value : Z) : option Z :=
  match s with
  | [] => None
  | c :: s =>
    if (48 <=? c) && (c <=? 55) then
      if (2 ^ 32 - 1) / 8 <? value then None
      else parse_octal_loop s (ofs + 1) (u32 (c - 48 + value * 8))
    else if (c =? 32) || (c =? 0) then if 0 <? ofs then Some value else None
    else None
  end.
Definition parse_octal_field (s : list Z) : option Z := parse_octal_loop s 0 0.

Definition is_all_zeros (bs : list Z) : bool := forallb (Z.eqb 0) bs.

(** The string at the start of a field (a fault if it has no null byte). *)
Fixpoint field_string (bs : list Z) : result (list Z) :=
  match bs with
  | [] => Fault
  | c :: bs => if c =? 0 then Ok [] else let? s := field_string bs in Ok (c :: s)
  end.

Inductive parsed := Parsed (file_name : option (list Z)) (type : ustar_type) (size : Z) | Error (s : string).
Definition ustar_parse_header (h : ustar_header) : result parsed :=
  if is_all_zeros (header_bytes h) then Ok (Parsed None USTAR_EOF 0)
  else if negb (bool_decide (magic h = chars "ustar" ++ [0])) then Ok (Error "not a ustar archive")
  else if negb (bool_decide (version h = [48; 48])) then Ok (Error "invalid ustar version")
  else match parse_octal_field (chksum h) with
  | None => Ok (Error "corrupt chksum field")
  | Some c =>
    if negb (c =? calculate_chksum h) then Ok (Error "checksum mismatch")
    else if negb (default 1 (name h !! 99%nat) =? 0) || negb (default 1 (prefix h !! 0%nat) =? 0)
    then Ok (Error "file name too long")
    else
      let finish (type : ustar_type) (size : Z) :=
        let? n := field_string (name h) in
        let? n := strip_antisocial_prefixes n in
        Ok (Parsed (Some n) type size) in
      if typeflag h =? 48 then
        match parse_octal_field (hsize h) with
        | None => Ok (Error "corrupt file size field")
        | Some size_ul =>
          if 2 ^ 31 - 1 <? size_ul then Ok (Error "file too large")
          else finish USTAR_REGULAR size_ul
        end
      else if typeflag h =? 53 then finish USTAR_DIRECTORY 0
      else Ok (Error "unimplemented file type")
  end.

(** ** Octal fields *)

Lemma octal_chars ds : Forall (λ d, 0 ≤ d < 8) ds → digit_chars base_o ds = (λ d, 48 + d) <$> ds.
Proof.
  intros Hds. unfold digit_chars. apply list_fmap_ext. intros i d Hi.
  pose proof (Forall_lookup_1 _ _ _ _ Hds Hi) as Hd. simpl in Hd.
  assert (d = 0 ∨ d = 1 ∨ d = 2 ∨ d = 3 ∨ d = 4 ∨ d = 5 ∨ d = 6 ∨ d = 7) as Hc by lia.
  by destruct Hc as [->|[->|[->|[->|[->|[->|[->| ->]]]]]]].
Qed.

Lemma value_of_zeros B k ds : value_of B (replicate k 0 ++ ds) = value_of B ds.
Proof.
  unfold value_of. induction k as [|k IH]; [done|]. simpl. by rewrite Z.mul_0_r, Z.add_0_l.
Qed.

(** %0<n>o of a number of at most [n] octal digits is exactly [n] digits. *)
Lemma format_octal n v :
  (1 ≤ n ≤ 22)%nat → 0 ≤ v < 8 ^ Z.of_nat n →
  ∃ ds, format_integer v false false base_o (mk_conv ZERO (Z.of_nat n) (-1) INT) =
      Ok ((λ d, 48 + d) <$> ds) ∧
    length ds = n ∧ Forall (λ d, 0 ≤ d < 8) ds ∧ value_of 8 ds = v.
Proof.
  intros Hn Hv. unfold format_integer.
  destruct (digits_loop_spec base_o n 64 v 0 []) as (ds & E & Hval & Hds & Hlen & Hnil);
    [auto with printf|done|lia|simpl; lia|].
  simpl flags. change (has ZERO GROUP) with false. change (has ZERO POUND) with false.
  change (has ZERO (Z.lor MINUS ZERO)) with true. change (has ZERO ZERO) with true.
  change (has ZERO MINUS) with false. rewrite E, app_nil_r. cbn [rbind andb precision width negb].
  change (-1 <? 0) with true. cbv iota. rewrite octal_chars by done.
  assert (∃ j, zeros 1 ((λ d, 48 + d) <$> ds) = (λ d, 48 + d) <$> (replicate j 0 ++ ds) ∧
    (j + length ds ≤ n)%nat) as (j & Ez & Hj).
  { exists (Z.to_nat (Z.min 1 63 - Z.of_nat (length ((λ d, 48 + d) <$> ds)))). split.
    - unfold zeros. by rewrite fmap_app, fmap_replicate.
    - rewrite length_fmap. clear -Hlen Hn. destruct ds; simpl in *; lia. }
  rewrite Ez. exists (replicate (n - (j + length ds)) 0 ++ replicate j 0 ++ ds). split_and!.
  - rewrite length_fmap, length_app, length_replicate. simpl. rewrite app_nil_r.
    rewrite (fmap_app _ (replicate (n - (j + length ds)) 0)), fmap_replicate. unfold output_dup.
    do 3 f_equal. destruct (Z.ltb_spec (Z.of_nat n - Z.of_nat (j + length ds) - 0 - 0) 0); lia.
  - rewrite !length_app, !length_replicate. lia.
  - apply Forall_app. split; [|apply Forall_app; split; [|done]];
      apply Forall_replicate; lia.
  - by rewrite !value_of_zeros.
Qed.

(** Parsing the digits back. *)
Lemma parse_octal_digits ds v ofs :
  Forall (λ d, 0 ≤ d < 8) ds → 0 ≤ v → 0 < ofs + Z.of_nat (length ds) → 0 ≤ ofs →
  foldl (λ v d, 8 * v + d) v ds < 2 ^ 32 →
  parse_octal_loop (((λ d, 48 + d) <$> ds) ++ [0]) ofs v = Some (foldl (λ v d, 8 * v + d) v ds).
Proof.
  intros Hds. revert v ofs. induction Hds as [|d ds Hd Hds IH]; intros v ofs Hv Hofs Hofs0 Hb.
  { simpl. simpl in Hofs. by rewrite (proj2 (Z.ltb_lt 0 ofs)) by lia. }
  assert (8 * v + d ≤ foldl (λ v d, 8 * v + d) (8 * v + d) ds) as Hge.
  { assert (0 ≤ 8 * v + d) as H0 by lia. revert H0. generalize (8 * v + d). clear -Hds.
    induction Hds as [|e es He _ IH]; intros w Hw; [done|]. simpl.
    specialize (IH (8 * w + e) ltac:(lia)). lia. }
  simpl in Hb. cbn [fmap list_fmap app parse_octal_loop].
  rewrite (proj2 (Z.leb_le 48 _)), (proj2 (Z.leb_le _ 55)) by lia. cbn [andb].
  assert (v < 2 ^ 29) by lia. change ((2 ^ 32 - 1) / 8) with (2 ^ 29 - 1).
  rewrite (proj2 (Z.ltb_ge _ _)) by lia.
  replace (48 + d - 48 + v * 8) with (8 * v + d) by lia. rewrite wrap_small by lia.
  apply IH; lia.
Qed.

Definition is_octal (n : nat) (v : Z) (bs : list Z) : Prop :=
  ∃ ds, bs = ((λ d, 48 + d) <$> ds) ++ [0] ∧ length ds = n ∧ Forall (λ d, 0 ≤ d < 8) ds ∧ value_of 8 ds = v.

Lemma octal_field n fmt v :
  fmt = "%07o"%string ∧ n = 7%nat ∨ fmt = "%011o"%string ∧ n = 11%nat →
  0 ≤ v < 2 ^ 32 → v < 8 ^ Z.of_nat n →
  ∃ bs, snprintf_field (S n) fmt v = Ok bs ∧ is_octal n v bs.
Proof.
  intros Hf Hv Hv'. destruct (format_octal n v) as (ds & E & Hlen & Hds & Hval); [lia|lia|].
  assert (__vprintf 30 (chars fmt) [A32 v] = Ok (((λ d, 48 + d) <$> ds) ++ [])) as Ev.
  { assert (__vprintf 30 (chars fmt) [A32 v] =
      let? (out, _) :=
        let? out := format_integer (u32 v) false false base_o (mk_conv ZERO (Z.of_nat n) (-1) INT) in
        Ok (out, @nil arg) in
      Ok (out ++ [])) as -> by (by destruct Hf as [[-> ->]|[-> ->]]).
    rewrite wrap_small by lia. by rewrite E. }
  rewrite app_nil_r in Ev. exists (((λ d, 48 + d) <$> ds) ++ [0]). split; [|by exists ds].
  unfold snprintf_field, snprintf. rewrite (vsnprintf_spec _ _ _ _ _ Ev).
  rewrite (proj2 (Z.ltb_lt 0 _)) by lia. cbn [rbind].
  rewrite take_ge by (rewrite length_fmap; lia). f_equal.
  rewrite length_app, length_fmap, Hlen. simpl. replace (n - (n + 1))%nat with 0%nat by lia.
  replace (S n - (n + 1))%nat with 0%nat by lia. by rewrite app_nil_r.
Qed.

Lemma parse_octal_is_octal n v bs :
  (0 < n)%nat → v < 2 ^ 32 → is_octal n v bs → parse_octal_field bs = Some v.
Proof.
  intros Hn Hv (ds & -> & Hlen & Hds & Hval). unfold parse_octal_field, value_of in *.
  rewrite parse_octal_digits; [by rewrite Hval|done|lia|lia|lia|lia].
Qed.

(** ** File names *)

Lemma antisocial_slash f : antisocial f = true →
  ∃ f1 f2, f = f1 ++ 47 :: f2 ∧ after_slash f = Some f2 ∧ (length f2 < length f)%nat.
Proof.
  assert (∀ s, starts_with s f = true → f = s ++ drop (length s) f) as Hs.
  { intros s E%bool_decide_eq_true. rewrite <-E at 1. by rewrite take_drop. }
  unfold antisocial. intros [[H%Hs|H%Hs]%orb_true_iff|H%Hs]%orb_true_iff; rewrite H; simpl;
    [exists []|exists [46]|exists [46; 46]]; eexists; (split_and!; [done|done|simpl; lia]).
Qed.

Lemma strip_loop_spec fuel f : (length f < fuel)%nat →
  ∃ f1 f2, f = f1 ++ f2 ∧ strip_loop fuel f = Ok f2 ∧ antisocial f2 = false.
Proof.
  revert f. induction fuel as [|fuel IH]; intros f Hf; [lia|]. cbn [strip_loop].
  destruct (antisocial f) eqn:E; [|by exists [], f].
  destruct (antisocial_slash f E) as (f1 & f2 & Ef & -> & Hl).
  destruct (IH f2) as (g1 & g2 & Eg & -> & Hg); [lia|].
  exists (f1 ++ 47 :: g1), g2. split_and!; [|done|done]. by rewrite Ef, Eg, <-app_assoc.
Qed.

(** The stripped name: a suffix of the name or ".", without a bad prefix. *)
Lemma strip_spec f : ∃ g, strip_antisocial_prefixes f = Ok g ∧ antisocial g = false ∧
  g ≠ [] ∧ g ≠ [46; 46] ∧ (g = [46] ∨ ∃ f1, f = f1 ++ g).
Proof.
  unfold strip_antisocial_prefixes. destruct (strip_loop_spec (S (length f)) f) as (f1 & g & E & -> & Hg);
    [lia|]. cbn [rbind]. case_decide as Hd.
  - exists [46]. split_and!; auto.
  - exists g. split_and!; [done|done|naive_solver|naive_solver|by eauto].
Qed.
Lemma strip_idem g : antisocial g = false → g ≠ [] → g ≠ [46; 46] → strip_antisocial_prefixes g = Ok g.
Proof.
  intros Ha Hn Hd. unfold strip_antisocial_prefixes. cbn [strip_loop]. rewrite Ha. cbn [rbind].
  by rewrite decide_False by naive_solver.
Qed.

Lemma field_string_app s n : Forall (λ c, c ≠ 0) s → field_string (s ++ replicate (S n) 0) = Ok s.
Proof.
  induction 1 as [|c s Hc _ IH]; [done|]. cbn [app field_string].
  by rewrite (proj2 (Z.eqb_neq c 0)), IH by done.
Qed.

(** ** Checksums *)

Lemma sum_app xs ys : sum (xs ++ ys) = sum xs + sum ys.
Proof. unfold sum. induction xs as [|x xs IH]; simpl; lia. Qed.
Lemma sum_bound bs : Forall (λ c, 0 ≤ c < 256) bs → 0 ≤ sum bs ≤ 255 * Z.of_nat (length bs).
Proof. unfold sum. induction 1 as [|c bs Hc _ IH]; simpl length; simpl foldr; lia. Qed.

(** ** The round trip *)

Lemma is_octal_bytes n v bs : is_octal n v bs → Forall (λ c, 0 ≤ c < 256) bs ∧ length bs = S n.
Proof.
  intros (ds & -> & Hlen & Hds & _). split.
  - apply Forall_app. split; [|by apply Forall_singleton]. apply Forall_fmap.
    eapply Forall_impl; [done|]. simpl. intros d. lia.
  - rewrite length_app, length_fmap, Hlen. simpl. lia.
Qed.

Lemma strlcpy_field_spec n s : (length s < n)%nat →
  strlcpy_field n s = s ++ replicate (n - length s) 0.
Proof. intros. unfold strlcpy_field. by rewrite take_ge by lia. Qed.

Lemma zeros_bytes n : Forall (λ c, 0 ≤ c < 256) (replicate n 0).
Proof. by apply Forall_replicate. Qed.

(** All bytes of a header that ustar_make_header composes are bytes, so that its
    checksum has at most six octal digits. *)
Lemma chksum_bound h n : Forall (λ c, 0 ≤ c < 256) (bytes_before h ++ bytes_after h) →
  (length (bytes_before h ++ bytes_after h) ≤ n)%nat → Z.of_nat n * 255 + 256 < 8 ^ 7 →
  0 ≤ calculate_chksum h < 8 ^ 7.
Proof.
  intros Hb Hl Hn. unfold calculate_chksum.
  pose proof (sum_bound _ Hb) as Hs. rewrite sum_app in Hs. rewrite !sum_app.
  change (sum (replicate 8 32)) with 256. rewrite wrap_small; lia.
Qed.

Lemma is_all_zeros_false bs c : c ∈ bs → c ≠ 0 → is_all_zeros bs = false.
Proof.
  intros Hc Hne. unfold is_all_zeros. destruct (forallb (Z.eqb 0) bs) eqn:E; [|done].
  rewrite forallb_forall in E. apply list_elem_of_In in Hc. apply E, Z.eqb_eq in Hc. congruence.
Qed.

(** What ustar_make_header composes, and when it fails. *)
Lemma make_header_spec f type size :
  Forall (λ c, 0 < c < 256) f → type ≠ USTAR_EOF → 0 ≤ size < 2 ^ 31 →
  ∃ g, strip_antisocial_prefixes f = Ok g ∧
    if decide (99 < length g)%nat then ustar_make_header f type size = Ok None
    else ∃ m sz mt cs, let h := mk_header (g ++ replicate (100 - length g) 0) m
        (chars "0000000" ++ [0]) (chars "0000000" ++ [0]) sz mt cs (type_char type)
        (replicate 100 0) (chars "ustar" ++ [0]) [48; 48]
        (chars "root" ++ replicate 28 0) (chars "root" ++ replicate 28 0)
        (replicate 8 0) (replicate 8 0) (replicate 155 0) (replicate 12 0) in
      ustar_make_header f type size = Ok (Some h) ∧ is_octal 11 size sz ∧
      is_octal 7 (calculate_chksum h) cs ∧ 0 ≤ calculate_chksum h < 2 ^ 32 ∧ length m = 8%nat ∧ length mt = 12%nat.
Proof.
  intros Hf Ht Hs. destruct (strip_spec f) as (g & E & Ha & Hn & Hd & Hsuf). exists g. split; [done|].
  assert (Forall (λ c, 0 < c < 256) g) as Hg.
  { destruct Hsuf as [->|[f1 ->]]; [by apply Forall_singleton|]. by apply Forall_app in Hf as [_ ?]. }
  unfold ustar_make_header. rewrite (decide_False (P := type = USTAR_EOF)) by done. rewrite E. cbn [rbind].
  case_decide as Hlen; [by rewrite (proj2 (Z.ltb_lt _ _)) by lia|].
  rewrite (proj2 (Z.ltb_ge _ _)) by lia.
  destruct (octal_field 7 "%07o" (match type with USTAR_REGULAR => 420 | _ => 493 end)) as (m & -> & Hm);
    [by left|by destruct type|by destruct type|].
  destruct (octal_field 11 "%011o" size) as (sz & -> & Hsz); [by right|lia|lia|].
  destruct (octal_field 11 "%011o" 1136102400) as (mt & -> & Hmt); [by right|lia|lia|].
  cbn [rbind]. rewrite strlcpy_field_spec by lia. set (h0 := mk_header _ _ _ _ _ _ _ _ _ _ _ _ _ _ _ _ _).
  assert (0 ≤ calculate_chksum h0 < 8 ^ 7) as Hc.
  { destruct (is_octal_bytes _ _ _ Hm), (is_octal_bytes _ _ _ Hsz), (is_octal_bytes _ _ _ Hmt).
    assert (length (bytes_before h0) = 148%nat).
    { unfold bytes_before, h0. cbn [name mode uid gid hsize mtime].
      rewrite !length_app, length_replicate. simpl. lia. }
    assert (length (bytes_after h0) = 356%nat) by done.
    apply (chksum_bound h0 504); [|rewrite length_app; lia|done].
    assert (Forall (λ c, 0 ≤ c < 256) (g ++ replicate (100 - length g) 0)).
    { apply Forall_app. split; [|apply zeros_bytes]. eapply Forall_impl; [done|]. simpl. intros. lia. }
    apply Forall_app. split; unfold bytes_before, bytes_after, h0; simpl.
    - apply Forall_app; split; [done|]. apply Forall_app; split; [done|].
      repeat (apply Forall_cons; split; [done|]).
      apply Forall_app; split; done.
    - constructor; [by destruct type|]. by apply (bool_decide_unpack _); vm_compute. }
  destruct (octal_field 7 "%07o" (calculate_chksum h0)) as (cs & -> & Hcs); [by left|lia|apply Hc|].
  cbn [rbind]. exists m, sz, mt, cs. split_and!; [done|done|done|apply Hc| | |].
  - change (calculate_chksum _) with (calculate_chksum h0). lia.
  - apply (is_octal_bytes _ _ _ Hm).
  - apply (is_octal_bytes _ _ _ Hmt).
Qed.

(** Whatever ustar_make_header composes, ustar_parse_header accepts and reads
    back: the same name without its dangerous prefixes (never empty, "..", or with
    a "/", "./" or "../" prefix), type and size.  Composing fails exactly when the
    stripped name is longer than 99 characters. *)
Theorem ustar_roundtrip (f : list Z) (type : ustar_type) (size : Z) :
  Forall (λ c, 0 < c < 256) f → type ≠ USTAR_EOF → 0 ≤ size < 2 ^ 31 →
  ∃ g, strip_antisocial_prefixes f = Ok g ∧
    antisocial g = false ∧ g ≠ [] ∧ g ≠ [46; 46] ∧
    match ustar_make_header f type size with
    | Ok (Some h) => (length g ≤ 99)%nat ∧
        ustar_parse_header h =
          Ok (Parsed (Some g) type (if decide (type = USTAR_REGULAR) then size else 0))
    | Ok None => (99 < length g)%nat
    | _ => False
    end.
Proof.
  intros Hf Ht Hs. destruct (make_header_spec f type size Hf Ht Hs) as (g & E & Hm).
  destruct (strip_spec f) as (g' & E' & Ha & Hn & Hd & Hsuf). assert (g' = g) as -> by congruence.
  assert (Forall (λ c, c ≠ 0) g) as Hg.
  { destruct Hsuf as [->|[f1 ->]]; [apply Forall_singleton; lia|]. apply Forall_app in Hf as [_ Hf].
    eapply Forall_impl; [done|]. simpl. intros. lia. }
  exists g. split_and!; [done..|]. case_decide as Hlen; [by rewrite Hm|].
  destruct Hm as (m & sz & mt & cs & -> & Hsz & Hcs & Hc & _). split; [lia|].
  unfold ustar_parse_header.
  rewrite (is_all_zeros_false _ 117) by (done || (unfold header_bytes; apply elem_of_app; right;
    apply elem_of_app; right; by apply (bool_decide_unpack _); destruct type; vm_compute)).
  rewrite !bool_decide_true by done. cbn [negb].
  set (h := mk_header _ _ _ _ _ _ _ _ _ _ _ _ _ _ _ _ _) in *.
  rewrite (parse_octal_is_octal 7 (calculate_chksum h)) by (done || lia).
  rewrite Z.eqb_refl. cbn [negb].
  assert (name h !! 99%nat = Some 0) as ->.
  { unfold h; cbn [name]. rewrite lookup_app_r by lia. apply lookup_replicate. split; [done|lia]. }
  change (prefix h !! 0%nat) with (Some 0). cbn [default negb orb]. 
  assert (field_string (name h) = Ok g) as ->.
  { unfold h; cbn [name]. replace (100 - length g)%nat with (S (99 - length g)) by lia.
    by apply field_string_app. }
  cbn [rbind]. rewrite (strip_idem g) by done. cbn [rbind typeflag h].
  destruct type; [|done|done]. simpl. rewrite (parse_octal_is_octal 11 size) by (done || lia).
  by rewrite (proj2 (Z.ltb_ge _ _)) by lia.
Qed.

Lemma ustar_roundtrip_witness :
  ∃ g, strip_antisocial_prefixes (chars ".././/x/y") = Ok g ∧
    antisocial g = false ∧ g ≠ [] ∧ g ≠ [46; 46] ∧
    match ustar_make_header (chars ".././/x/y") USTAR_REGULAR 70000 with
    | Ok (Some h) => (length g ≤ 99)%nat ∧
        ustar_parse_header h = Ok (Parsed (Some g) USTAR_REGULAR 70000)
    | Ok None => (99 < length g)%nat
    | _ => False
    end.
Proof.
  apply (ustar_roundtrip (chars ".././/x/y") USTAR_REGULAR 70000); [|done|done].
  by apply (bool_decide_unpack _); vm_compute.
Defined.
