(* ===== verification/Random.v ===== *)
(** * Pseudo-random numbers: lib/random.c

    The RC4 generator: its 256-byte array, its two indexes and the flag that says
    whether it has been initialized.  The array is always a permutation of 0 to
    255, so that every index is in range and every output is a byte. *)

From S2P Require Import Prelude.
Local Open Scope Z_scope.

Record rc4 := mk_rc4 { s : list Z; s_i : Z; s_j : Z; inited : bool }.

(** The byte s[i]: a fault outside of the array. *)
Definition s_at (i : Z) : M rc4 Z := r ← get; from_option (s r !! Z.to_nat i).
Definition swap_byte (a b : Z) : M rc4 unit :=
  t ← s_at a; u ← s_at b;
  modify (λ r, mk_rc4 (<[Z.to_nat b := t]> (<[Z.to_nat a := u]> (s r))) (s_i r) (s_j r) (inited r)).

(** for (i = ...; i < 256; i++) with [n] iterations left. *)
Fixpoint init_loop (n : nat) (seedp : list Z) (i j : Z) : M rc4 unit :=
  match n with
  | O => mret tt
  | S n =>
    x ← s_at i;
    y ← from_option (seedp !! Z.to_nat (i mod 4));
    let j := u8 (j + (x + y)) in
    swap_byte i j;; init_loop n seedp (i + 1) j
  end.
Definition random_init (seed : Z) : M rc4 unit :=
  modify (λ r, mk_rc4 (seqZ 0 256) (s_i r) (s_j r) (inited r));;
  init_loop 256 (word_bytes (u32 seed)) 0 0;;
  modify (λ r, mk_rc4 (s r) 0 0 true).

Fixpoint bytes_loop (n : nat) : M rc4 (list Z) :=
  match n with
  | O => mret []
  | S n =>
    modify (λ r, mk_rc4 (s r) (u8 (s_i r + 1)) (s_j r) (inited r));;
    i ← gets s_i; x ← s_at i;
    modify (λ r, mk_rc4 (s r) (s_i r) (u8 (s_j r + x)) (inited r));;
    j ← gets s_j; swap_byte i j;;
    x ← s_at i; y ← s_at j;
    let s_k := u8 (x + y) in
    b ← s_at s_k;
    bs ← bytes_loop n; mret (b :: bs)
  end.
(** The SIZE bytes written to BUF. *)
Definition random_bytes (size : Z) : M rc4 (list Z) :=
  b ← gets inited;
  (if negb b then random_init 0 else mret tt);;
  bytes_loop (Z.to_nat size).
Definition random_ulong : M rc4 Z :=
  bs ← random_bytes 4; from_option (head (words_of bs)).

(** ** The invariant *)

Record rc4_wf (r : rc4) : Prop := {
  wf_perm : s r ≡ₚ seqZ 0 256;
  wf_i : 0 ≤ s_i r < 256;
  wf_j : 0 ≤ s_j r < 256
}.

Lemma s_byte r i : s r ≡ₚ seqZ 0 256 → 0 ≤ i < 256 →
  ∃ x, s r !! Z.to_nat i = Some x ∧ 0 ≤ x < 256.
Proof.
  intros Hp Hi. assert (length (s r) = 256%nat) as Hl by (by rewrite Hp).
  destruct (lookup_lt_is_Some_2 (s r) (Z.to_nat i)) as [x Hx]; [lia|]. exists x. split; [done|].
  apply list_elem_of_lookup_2 in Hx. rewrite Hp in Hx. apply elem_of_seqZ in Hx. lia.
Qed.

Lemma wp_s_at r i x Q : s r !! Z.to_nat i = Some x → Q x r → wp (s_at i) r Q.
Proof. intros E HQ. unfold s_at. repeat wp_step. by apply (wp_from_option _ x). Qed.

Lemma wp_swap_byte r a b Q :
  s r ≡ₚ seqZ 0 256 → 0 ≤ a < 256 → 0 ≤ b < 256 →
  (∀ s', s' ≡ₚ seqZ 0 256 → Q tt (mk_rc4 s' (s_i r) (s_j r) (inited r))) →
  wp (swap_byte a b) r Q.
Proof.
  intros Hp Ha Hb HQ. destruct (s_byte r a Hp Ha) as (x & Hx & _).
  destruct (s_byte r b Hp Hb) as (y & Hy & _). unfold swap_byte.
  wp_step. apply (wp_s_at _ _ x); [done|]. wp_step. apply (wp_s_at _ _ y); [done|]. wp_step.
  apply HQ. by rewrite (list_swap_perm _ _ _ _ _ Hx Hy).
Qed.

Lemma wp_init_loop n r seedp i j Q :
  s r ≡ₚ seqZ 0 256 → length seedp = 4%nat → 0 ≤ i → i + Z.of_nat n = 256 →
  (∀ s', s' ≡ₚ seqZ 0 256 → Q tt (mk_rc4 s' (s_i r) (s_j r) (inited r))) →
  wp (init_loop n seedp i j) r Q.
Proof.
  revert r i j. induction n as [|n IH]; intros r i j Hp Hs Hi Hn HQ; cbn [init_loop].
  { wp_step. destruct r. by apply HQ. }
  destruct (s_byte r i Hp ltac:(lia)) as (x & Hx & _). wp_step. apply (wp_s_at _ _ x); [done|].
  pose proof (Z.mod_pos_bound i 4 ltac:(lia)).
  destruct (lookup_lt_is_Some_2 seedp (Z.to_nat (i mod 4))) as [y Hy]; [lia|].
  wp_step. apply (wp_from_option _ y); [done|]. wp_step.
  apply wp_swap_byte; [done|lia|by apply wrap_bounds|]. intros s' Hs'.
  apply IH; [done|done|lia|lia|done].
Qed.

Lemma wp_random_init r seed Q :
  (∀ r', rc4_wf r' → inited r' = true → Q tt r') → wp (random_init seed) r Q.
Proof.
  intros HQ. unfold random_init. repeat wp_step. apply wp_init_loop; [done|done|done|done|].
  intros s' Hs'. wp_step. by apply HQ.
Qed.

Lemma wp_bytes_loop n r Q :
  rc4_wf r →
  (∀ bs r', rc4_wf r' → inited r' = inited r → length bs = n →
     Forall (λ b, 0 ≤ b < 256) bs → Q bs r') →
  wp (bytes_loop n) r Q.
Proof.
  revert r Q. induction n as [|n IH]; intros r Q [Hp Hi Hj] HQ; cbn [bytes_loop].
  { wp_step. by apply HQ; [..|constructor]. }
  wp_step. wp_step. wp_step. wp_step. cbn [s_i s s_j inited].
  pose proof (wrap_bounds 8 (s_i r + 1) ltac:(lia)) as Hi1. set (i1 := u8 (s_i r + 1)) in *.
  set (r1 := mk_rc4 (s r) i1 (s_j r) (inited r)).
  destruct (s_byte r1 i1 Hp ltac:(lia)) as (x & Hx & _). wp_step. apply (wp_s_at _ _ x); [done|].
  repeat wp_step. cbn [s_i s s_j inited r1]. pose proof (wrap_bounds 8 (s_j r + x) ltac:(lia)) as Hj1.
  set (j1 := u8 (s_j r + x)) in *.
  apply wp_swap_byte; [done|lia|lia|]. intros s' Hs'. cbn [s_i s_j inited].
  set (r2 := mk_rc4 s' i1 j1 (inited r)). change (s' ≡ₚ seqZ 0 256) with (s r2 ≡ₚ seqZ 0 256) in Hs'.
  destruct (s_byte r2 i1 Hs' ltac:(lia)) as (x2 & Hx2 & _). wp_step. apply (wp_s_at _ _ x2); [done|].
  destruct (s_byte r2 j1 Hs' ltac:(lia)) as (y2 & Hy2 & _). wp_step. apply (wp_s_at _ _ y2); [done|].
  destruct (s_byte r2 (u8 (x2 + y2)) Hs') as (b & Hb & Hbr); [by apply wrap_bounds|].
  wp_step. apply (wp_s_at _ _ b); [done|]. wp_step. apply IH; [by split|].
  intros bs r' Hr' Hin Hlen Hbs. wp_step. apply HQ; [done|done|simpl; lia|by constructor].
Qed.

(** Whatever the state before, initialized or not, random_init leaves a
    permutation of the bytes 0 to 255; random_bytes keeps it, reads no byte outside
    of the array and delivers SIZE bytes; random_ulong delivers a 32-bit number. *)
Theorem random_bytes_correct (r : rc4) (size : Z) :
  (inited r = true → rc4_wf r) → 0 ≤ size →
  wp (random_bytes size) r (λ bs r', rc4_wf r' ∧ inited r' = true ∧
    Z.of_nat (length bs) = size ∧ Forall (λ b, 0 ≤ b < 256) bs) ∧
  wp random_ulong r (λ z r', rc4_wf r' ∧ 0 ≤ z < 2 ^ 32).
Proof.
  intros Hr Hsz. assert (∀ n Q, 0 ≤ n →
    (∀ bs r', rc4_wf r' → inited r' = true → Z.of_nat (length bs) = n →
       Forall (λ b, 0 ≤ b < 256) bs → Q bs r') → wp (random_bytes n) r Q) as Hb.
  { intros n Q Hn HQ. unfold random_bytes. repeat wp_step. destruct (inited r) eqn:E; cbn [negb].
    - wp_step. apply wp_bytes_loop; [by apply Hr|]. intros bs r' Hr' Hin Hlen Hbs.
      apply HQ; [done|congruence|lia|done].
    - apply wp_random_init. intros r1 Hr1 Hin1. apply wp_bytes_loop; [done|].
      intros bs r' Hr' Hin Hlen Hbs. apply HQ; [done|congruence|lia|done]. }
  split; [by apply Hb|]. unfold random_ulong. wp_step. apply Hb; [done|].
  intros bs r' Hr' _ Hlen Hbs.
  destruct bs as [|b0 [|b1 [|b2 [|b3 [|]]]]]; simpl in Hlen; try lia.
  apply (wp_from_option _ (b0 + 2 ^ 8 * b1 + 2 ^ 16 * b2 + 2 ^ 24 * b3)); [done|].
  split; [done|]. rewrite !Forall_cons in Hbs. lia.
Qed.

Lemma random_bytes_correct_witness :
  wp (random_bytes 3) (mk_rc4 [] 0 0 false) (λ bs r', rc4_wf r' ∧ inited r' = true ∧
    Z.of_nat (length bs) = 3 ∧ Forall (λ b, 0 ≤ b < 256) bs) ∧
  wp random_ulong (mk_rc4 [] 0 0 false) (λ z r', rc4_wf r' ∧ 0 ≤ z < 2 ^ 32).
Proof. apply (random_bytes_correct (mk_rc4 [] 0 0 false) 3); done. Defined.
