(* ===== verification/Block.v ===== *)
(** * Block devices and partitions: devices/block.c, devices/partition.c

    A driver is a state [R] with the two functions of struct block_operations;
    the contents of a sector are the list of its 512 bytes.  struct block wraps a
    driver.  A partition is a driver again, whose state is the struct block it
    lies on, so the same functions serve disks and partitions.

    [driver_laws] says what a driver promises to block.c, the class
    [BlockDevice] what block.c promises to the file system.  The disk driver
    (devices/ide.c, file IdeThms) keeps the [driver_laws]; [ramdisk] is a simpler
    driver that does, for the examples.

    malloc is called for descriptors and buffers whose contents are modelled
    elsewhere; [mallocs] lists the outcomes of the next calls (true for success),
    all calls succeed when it is empty. *)

From Stdlib Require Import String.
From S2P Require Import Prelude Printf.
Local Open Scope Z_scope.

Definition BLOCK_SECTOR_SIZE : Z := 512.

(** enum block_type, with its numbers. *)
Inductive block_kind :=
  BLOCK_KERNEL | BLOCK_FILESYS | BLOCK_SCRATCH | BLOCK_SWAP | BLOCK_RAW | BLOCK_FOREIGN.
#[export] Instance block_kind_eq_dec : EqDecision block_kind.
Proof. solve_decision. Defined.
Definition kind_no (k : block_kind) : nat :=
  match k with
  | BLOCK_KERNEL => 0 | BLOCK_FILESYS => 1 | BLOCK_SCRATCH => 2 | BLOCK_SWAP => 3
  | BLOCK_RAW => 4 | BLOCK_FOREIGN => 5
  end.
Definition BLOCK_ROLE_CNT : nat := 4.
Definition BLOCK_CNT : nat := 6.
Definition block_type_name (k : block_kind) : string :=
  match k with
  | BLOCK_KERNEL => "kernel" | BLOCK_FILESYS => "filesys" | BLOCK_SCRATCH => "scratch"
  | BLOCK_SWAP => "swap" | BLOCK_RAW => "raw" | BLOCK_FOREIGN => "foreign"
  end%string.

(** struct block_operations, applied to the driver's data. *)
Record block_operations (R : Type) := mk_operations {
  op_read : Z → M R (list Z);
  op_write : Z → list Z → M R unit;
}.
Arguments mk_operations {R} _ _.
Arguments op_read {R} _ _.
Arguments op_write {R} _ _ _.

(** struct block.  The fields name, type and size are called like the functions
    that return them. *)
Record block (R : Type) := mk_block {
  aux : R;
  block_name : list Z;
  block_type : block_kind;
  block_size : Z;
  read_cnt : Z;
  write_cnt : Z;
}.
Arguments mk_block {R} _ _ _ _ _ _.
Arguments aux {R} _.
Arguments block_name {R} _.
Arguments block_type {R} _.
Arguments block_size {R} _.
Arguments read_cnt {R} _.
Arguments write_cnt {R} _.

Section block.
Context {R : Type} (ops : block_operations R).

Definition set_aux (r : R) (b : block R) : block R :=
  mk_block r (block_name b) (block_type b) (block_size b) (read_cnt b) (write_cnt b).
Definition count_read (b : block R) : block R :=
  mk_block (aux b) (block_name b) (block_type b) (block_size b) (u64 (read_cnt b + 1)) (write_cnt b).
Definition count_write (b : block R) : block R :=
  mk_block (aux b) (block_name b) (block_type b) (block_size b) (read_cnt b) (u64 (write_cnt b + 1)).

Definition check_sector (sector : Z) : M (block R) unit :=
  b ← get; if block_size b <=? sector then panic else mret tt.
Definition block_read (sector : Z) : M (block R) (list Z) :=
  check_sector sector;;
  buffer ← zoom aux set_aux (op_read ops sector);
  modify count_read;;
  mret buffer.
Definition block_write (sector : Z) (buffer : list Z) : M (block R) unit :=
  check_sector sector;;
  b ← get;
  assert (negb (bool_decide (block_type b = BLOCK_FOREIGN)));;
  zoom aux set_aux (op_write ops sector buffer);;
  modify count_write.

(** partition_read and partition_write: the driver of a partition that starts at
    sector [start] of a block device. *)
Definition partition_read (start sector : Z) : M (block R) (list Z) :=
  block_read (u32 (start + sector)).
Definition partition_write (start sector : Z) (buffer : list Z) : M (block R) unit :=
  block_write (u32 (start + sector)) buffer.
Definition partition_operations (start : Z) : block_operations (block R) :=
  mk_operations (partition_read start) (partition_write start).
End block.

(** ** The list of devices *)

(** What block_register stores about a device; [dev_ops] stands for the
    operations and their data: the driver of a disk, or a partition. *)
Inductive device_ops := Disk (unit : Z) | Partition (on : nat) (start : Z).
Record device := mk_device {
  dev_name : list Z;
  dev_type : block_kind;
  dev_sectors : Z;
  dev_ops : device_ops;
}.
(** all_blocks, in the order of registration, and block_by_role, whose elements
    are positions in this list. *)
Record registry := mk_registry {
  all_blocks : list device;
  block_by_role : list (option nat);
}.

Definition block_get_role (role : block_kind) : M registry (option nat) :=
  assert (kind_no role <? BLOCK_ROLE_CNT)%nat;;
  r ← get;
  from_option (block_by_role r !! kind_no role).
Definition block_set_role (role : block_kind) (b : option nat) : M registry unit :=
  assert (kind_no role <? BLOCK_ROLE_CNT)%nat;;
  modify (λ r, mk_registry (all_blocks r) (<[kind_no role := b]> (block_by_role r))).
Definition list_elem_to_block (n : nat) : M registry (option nat) :=
  r ← get; mret (if (n <? length (all_blocks r))%nat then Some n else None).
Definition block_first : M registry (option nat) := list_elem_to_block 0.
Definition block_next (b : nat) : M registry (option nat) := list_elem_to_block (S b).
Fixpoint name_search (bs : list device) (n : nat) (name : list Z) : option nat :=
  match bs with
  | [] => None
  | b :: bs => if bool_decide (name = dev_name b) then Some n else name_search bs (S n) name
  end.
Definition block_get_by_name (name : list Z) : M registry (option nat) :=
  gets (λ r, name_search (all_blocks r) 0 name).
(** strlcpy keeps 15 characters of the name. *)
Definition block_register (malloc_ok : bool) (name : list Z) (type : block_kind) (size : Z)
    (ops : device_ops) : M registry nat :=
  if malloc_ok then
    r ← get;
    put (mk_registry (all_blocks r ++ [mk_device (take 15 name) type size ops]) (block_by_role r));;
    mret (length (all_blocks r))
  else panic.
(** The loop of block_print_stats runs over the block types, not over the roles:
    the elements it looks at. *)
Fixpoint print_stats_loop (n i : nat) : M registry (list nat) :=
  match n with
  | O => mret []
  | S n => r ← get; b ← from_option (block_by_role r !! i); rest ← print_stats_loop n (S i);
           mret (match b with Some b => b :: rest | None => rest end)
  end.
Definition block_print_stats : M registry (list nat) := print_stats_loop BLOCK_CNT 0.

(** ** Partition tables *)

Section scan.
Context {R : Type} (ops : block_operations R).

(** The state of partition_scan: the device and its position in the list of
    devices, the list, *PART_NR and the outcomes of malloc. *)
Record scan := mk_scan {
  sc_block : block R;
  sc_self : nat;
  sc_registry : registry;
  part_nr : Z;
  mallocs : list bool;
}.
Definition on_block (b : block R) (s : scan) : scan :=
  mk_scan b (sc_self s) (sc_registry s) (part_nr s) (mallocs s).
Definition on_registry (r : registry) (s : scan) : scan :=
  mk_scan (sc_block s) (sc_self s) r (part_nr s) (mallocs s).
Definition set_part_nr (n : Z) (s : scan) : scan :=
  mk_scan (sc_block s) (sc_self s) (sc_registry s) n (mallocs s).
Definition scan_malloc : M scan bool := λ s,
  match mallocs s with
  | [] => Ok (true, s)
  | b :: bs => Ok (b, mk_scan (sc_block s) (sc_self s) (sc_registry s) (part_nr s) bs)
  end.

(** struct partition_table_entry, without the CHS addresses. *)
Record partition_table_entry := mk_pte { e_type : Z; e_offset : Z; e_size : Z }.
Definition byte (bs : list Z) (i : nat) : Z := default 0 (bs !! i).
Definition word (bs : list Z) (i : nat) : Z :=
  byte bs i + 2 ^ 8 * byte bs (i + 1) + 2 ^ 16 * byte bs (i + 2) + 2 ^ 24 * byte bs (i + 3).
Definition table_entry (pt : list Z) (i : nat) : partition_table_entry :=
  mk_pte (byte pt (446 + 16 * i + 4)) (word pt (446 + 16 * i + 8)) (word pt (446 + 16 * i + 12)).
Definition table_entries (pt : list Z) : list partition_table_entry :=
  [table_entry pt 0; table_entry pt 1; table_entry pt 2; table_entry pt 3].
Definition signature (pt : list Z) : Z := byte pt 510 + 2 ^ 8 * byte pt 511.

Definition found_partition (part_type start size part_nr : Z) : M scan unit :=
  s ← get;
  let n := block_size (sc_block s) in
  if n <=? start then mret tt
  else if (u32 (start + size) <? start) || (n <? u32 (start + size)) then mret tt
  else
    let type := if part_type =? 0x20 then BLOCK_KERNEL
                else if part_type =? 0x21 then BLOCK_FILESYS
                else if part_type =? 0x22 then BLOCK_SCRATCH
                else if part_type =? 0x23 then BLOCK_SWAP
                else BLOCK_FOREIGN in
    ok ← scan_malloc;
    assert ok;;
    match snprintf 20 16 (chars "%s%d") [AStr (Some (block_name (sc_block s))); A32 part_nr] with
    | Ok (name, _) =>
      m ← scan_malloc;
      zoom sc_registry on_registry
        (block_register m (removelast name) type size (Partition (sc_self s) start));;
      mret tt
    | _ => fault
    end.

Definition is_extended (type : Z) : bool :=
  (type =? 0x05) || (type =? 0x0f) || (type =? 0x85) || (type =? 0xc5).

(** The loop over the entries; [rec] is the recursive call. *)
Fixpoint parse_entries (rec : Z → Z → M scan unit) (sector primary_extended_sector : Z)
    (es : list partition_table_entry) : M scan unit :=
  match es with
  | [] => mret tt
  | e :: es =>
    (if (e_size e =? 0) || (e_type e =? 0) then mret tt
     else if is_extended (e_type e) then
       if sector =? 0 then rec (e_offset e) (e_offset e)
       else rec (u32 (e_offset e + primary_extended_sector)) primary_extended_sector
     else
       modify (λ s, set_part_nr (s32 (part_nr s + 1)) s);;
       nr ← gets part_nr;
       found_partition (e_type e) (u32 (e_offset e + sector)) (e_size e) nr);;
    parse_entries rec sector primary_extended_sector es
  end.
Fixpoint read_partition_table (fuel : nat) (sector primary_extended_sector : Z) : M scan unit :=
  match fuel with
  | O => nofuel
  | S fuel =>
    s ← get;
    if block_size (sc_block s) <=? sector then mret tt
    else
      ok ← scan_malloc;
      assert ok;;
      pt ← zoom sc_block on_block (block_read ops 0);
      if negb (signature pt =? 0xaa55) then mret tt
      else parse_entries (read_partition_table fuel) sector primary_extended_sector (table_entries pt)
  end.
Definition partition_scan (fuel : nat) : M scan unit :=
  modify (set_part_nr 0);;
  read_partition_table fuel 0 0.
End scan.
Arguments scan R : clear implicits.

(** ** What drivers and block devices promise *)

(** A driver of [n] sectors behaves as an array [contents] of 512-byte sectors. *)
Record driver_laws {R} (ops : block_operations R) (n : Z) (ok : R → Prop)
    (contents : R → Z → list Z) : Prop := {
  law_read r s : ok r → 0 ≤ s < n → wp (op_read ops s) r (λ buf r',
    buf = contents r s ∧ ok r' ∧ ∀ i, 0 ≤ i < n → contents r' i = contents r i);
  law_write r s buf : ok r → 0 ≤ s < n → Z.of_nat (length buf) = BLOCK_SECTOR_SIZE →
    wp (op_write ops s buf) r (λ _ r',
      ok r' ∧ ∀ i, 0 ≤ i < n → contents r' i = if decide (i = s) then buf else contents r i);
  law_length r s : ok r → 0 ≤ s < n → Z.of_nat (length (contents r s)) = BLOCK_SECTOR_SIZE;
}.

(** The interface of a block device to its users: the operations, and their laws. *)
Class BlockOps (D : Type) := {
  dev_read : Z → M D (list Z);
  dev_write : Z → list Z → M D unit;
  dev_size : D → Z;
}.
Class BlockDevice (D : Type) `{!BlockOps D} := {
  dev_ok : D → Prop;
  dev_contents : D → Z → list Z;
  dev_size_range d : dev_ok d → 0 ≤ dev_size d < 2 ^ 32;
  dev_read_law d s : dev_ok d → 0 ≤ s < dev_size d → wp (dev_read s) d (λ buf d',
    buf = dev_contents d s ∧ dev_ok d' ∧ dev_size d' = dev_size d ∧
    ∀ i, 0 ≤ i < dev_size d → dev_contents d' i = dev_contents d i);
  dev_write_law d s buf : dev_ok d → 0 ≤ s < dev_size d →
    Z.of_nat (length buf) = BLOCK_SECTOR_SIZE → wp (dev_write s buf) d (λ _ d',
      dev_ok d' ∧ dev_size d' = dev_size d ∧
      ∀ i, 0 ≤ i < dev_size d → dev_contents d' i = if decide (i = s) then buf else dev_contents d i);
  dev_length d s : dev_ok d → 0 ≤ s < dev_size d →
    Z.of_nat (length (dev_contents d s)) = BLOCK_SECTOR_SIZE;
  dev_past_end d s : dev_ok d → dev_size d ≤ s →
    dev_read s d = Panic ∧ ∀ buf, dev_write s buf d = Panic;
}.

Section block_laws.
Context {R : Type} (ops : block_operations R) (n : Z) (ok : R → Prop) (contents : R → Z → list Z).
Context (laws : driver_laws ops n ok contents).

(** A struct block over the driver that claims no more sectors than there are. *)
Definition block_ok (b : block R) : Prop :=
  ok (aux b) ∧ 0 ≤ block_size b ≤ n ∧ block_size b < 2 ^ 32 ∧ block_type b ≠ BLOCK_FOREIGN.

Lemma block_ok_read b r : block_ok b → ok r → block_ok (count_read (set_aux r b)).
Proof. by intros (_ & ?) ?. Qed.
Lemma block_ok_write b r : block_ok b → ok r → block_ok (count_write (set_aux r b)).
Proof. by intros (_ & ?) ?. Qed.

Lemma wp_block_read b s Q :
  ok (aux b) → 0 ≤ s < block_size b → block_size b ≤ n →
  (∀ r', ok r' → (∀ i, 0 ≤ i < n → contents r' i = contents (aux b) i) →
     Q (contents (aux b) s) (count_read (set_aux r' b))) →
  wp (block_read ops s) b Q.
Proof using laws.
  intros Hok Hs Hn HQ. unfold block_read, check_sector. do 3 wp_step.
  rewrite (proj2 (Z.leb_gt _ _)) by lia. do 2 wp_step. apply wp_zoom.
  eapply wp_mono; [apply (law_read _ _ _ _ laws); [done|lia]|]. simpl.
  intros buf r' (-> & Hok' & Hc). do 3 wp_step. by apply HQ.
Qed.

Lemma wp_block_write b s buf Q :
  ok (aux b) → 0 ≤ s < block_size b → block_size b ≤ n → block_type b ≠ BLOCK_FOREIGN →
  Z.of_nat (length buf) = BLOCK_SECTOR_SIZE →
  (∀ r', ok r' →
     (∀ i, 0 ≤ i < n → contents r' i = if decide (i = s) then buf else contents (aux b) i) →
     Q tt (count_write (set_aux r' b))) →
  wp (block_write ops s buf) b Q.
Proof using laws.
  intros Hok Hs Hn Ht Hl HQ. unfold block_write, check_sector. do 3 wp_step.
  rewrite (proj2 (Z.leb_gt _ _)) by lia. do 5 wp_step.
  { by rewrite bool_decide_false by done. }
  wp_step. apply wp_zoom. eapply wp_mono; [apply (law_write _ _ _ _ laws); [done|lia|done]|]. simpl.
  intros _ r' [Hok' Hc]. wp_step. by apply HQ.
Qed.

Definition block_ops : BlockOps (block R) :=
  {| dev_read := block_read ops; dev_write := block_write ops; dev_size := block_size |}.

(** block.c keeps its promise on top of any lawful driver. *)
Program Definition block_device : BlockDevice (block R) (BlockOps0 := block_ops) :=
  {| dev_ok := block_ok; dev_contents b := contents (aux b) |}.
Next Obligation. intros d (_ & ? & ? & _). simpl. lia. Qed.
Next Obligation.
  intros d s Hd Hs. pose proof Hd as (Hok & Hn & _). simpl in *. apply wp_block_read; [done..|lia|].
  intros r' Hr Hc. split; [done|]. split; [by apply block_ok_read|]. split; [done|].
  intros i Hi. apply Hc. lia.
Qed.
Next Obligation.
  intros d s buf Hd Hs Hl. pose proof Hd as (Hok & Hn & _ & Ht). simpl in *.
  apply wp_block_write; [done..|lia|done|done|]. intros r' Hr Hc.
  split; [by apply block_ok_write|]. split; [done|]. intros i Hi. apply Hc. lia.
Qed.
Next Obligation. intros d s (Hok & Hn & _) Hs. apply (law_length _ _ _ _ laws); [done|]. simpl in *. lia. Qed.
Next Obligation.
  intros d s Hok Hs. simpl in *. unfold block_read, block_write, check_sector, mbind, M_bind, get.
  by rewrite (proj2 (Z.leb_le _ _)) by done.
Qed.

(** A partition is a lawful driver: its sectors are those of the device from
    [start] on. *)
Lemma partition_laws start psize :
  0 ≤ start → 0 ≤ psize → start + psize ≤ n → start + psize < 2 ^ 32 →
  driver_laws (partition_operations ops start) psize
    (λ b, block_ok b ∧ start + psize ≤ block_size b) (λ b i, contents (aux b) (start + i)).
Proof using laws.
  intros Hst Hps Hn Hw. split.
  - intros b s [Hd Hp] Hs. pose proof Hd as (Hok & Hb & _). simpl. unfold partition_read.
    rewrite wrap_small by lia. apply wp_block_read; [done|lia..|]. intros r' Hr Hc.
    split; [done|]. split; [split; [by apply block_ok_read|done]|]. intros i Hi. apply Hc. lia.
  - intros b s buf [Hd Hp] Hs Hl. pose proof Hd as (Hok & Hb & _ & Ht). simpl. unfold partition_write.
    rewrite wrap_small by lia. apply wp_block_write; [done|lia..|done|done|]. intros r' Hr Hc.
    split; [split; [by apply block_ok_write|done]|]. intros i Hi. simpl. rewrite Hc by lia.
    destruct (decide (i = s)) as [->|]; [by rewrite !decide_True|by rewrite !decide_False by lia].
  - intros b s [(Hok & Hb & _) Hp] Hs. apply (law_length _ _ _ _ laws); [done|lia].
Qed.
End block_laws.
