(* ===== verification/BlockThms.v ===== *)
(** * Theorems on devices/block.c and devices/partition.c

    A partition is an array of sectors of its own, and no access to it leaves
    its part of the disk; scanning a partition table registers exactly the
    partitions that lie on the disk; an extended partition makes the scan go on
    for ever. *)

From Stdlib Require Import String.
From S2P Require Import Prelude Printf Block.
Local Open Scope Z_scope.

(** ** A disk in memory *)

Definition ramdisk : Type := Z → list Z.
Definition ramdisk_operations : block_operations ramdisk :=
  mk_operations (λ s r, Ok (r s, r)) (λ s buf r, Ok (tt, λ i, if decide (i = s) then buf else r i)).
Definition ramdisk_ok (r : ramdisk) : Prop := ∀ i, length (r i) = 512%nat.

Lemma ramdisk_laws n : driver_laws ramdisk_operations n ramdisk_ok (λ r, r).
Proof.
  split; [done| |].
  - intros r s buf Hr _ Hl. split; [|done]. intros i. unfold BLOCK_SECTOR_SIZE in *. case_decide; [lia|done].
  - intros r s Hr _. by rewrite Hr.
Qed.

(** ** Partitions *)

(** Reading sector S of a partition returns sector START + S of the disk,
    writing it replaces exactly this sector, and both panic without touching the
    disk if S is not a sector of the partition. *)
Theorem partition_sectors {R} (ops : block_operations R) (n : Z) (ok : R → Prop)
    (contents : R → Z → list Z) (start s : Z) (buf : list Z) (p : block (block R)) :
  driver_laws ops n ok contents → block_ok n ok (aux p) → block_type p ≠ BLOCK_FOREIGN →
  0 ≤ start → 0 ≤ s → start + block_size p ≤ block_size (aux p) →
  Z.of_nat (length buf) = BLOCK_SECTOR_SIZE →
  let disk (q : block (block R)) := contents (aux (aux q)) in
  if decide (s < block_size p) then
    wp (block_read (partition_operations ops start) s) p (λ b p', b = disk p (start + s) ∧
      ∀ i, 0 ≤ i < n → disk p' i = disk p i) ∧
    wp (block_write (partition_operations ops start) s buf) p (λ _ p',
      ∀ i, 0 ≤ i < n → disk p' i = if decide (i = start + s) then buf else disk p i)
  else
    block_read (partition_operations ops start) s p = Panic ∧
    block_write (partition_operations ops start) s buf p = Panic.
Proof.
  intros Hl (Hok & Hn & Hw & Ht) Htp Hst Hs Hsz Hb disk. case_decide as Hlt.
  - split.
    + unfold block_read at 1, check_sector. do 3 wp_step. rewrite (proj2 (Z.leb_gt _ _)) by lia.
      do 2 wp_step. apply wp_zoom. simpl. unfold partition_read. rewrite wrap_small by lia.
      eapply wp_block_read; [done..|lia|lia|]. intros r' Hr Hc. by repeat wp_step.
    + unfold block_write at 1, check_sector. do 3 wp_step. rewrite (proj2 (Z.leb_gt _ _)) by lia.
      do 5 wp_step; [by rewrite bool_decide_false by done|]. wp_step. apply wp_zoom. simpl.
      unfold partition_write. rewrite wrap_small by lia.
      eapply wp_block_write; [done..|lia|lia|done|done|]. intros r' Hr Hc. by repeat wp_step.
  - unfold block_read, block_write, check_sector, mbind, M_bind, get.
    by rewrite (proj2 (Z.leb_le _ _)) by lia.
Qed.

Lemma partition_sectors_witness :
  let disk : ramdisk := λ i, replicate 512 (i mod 256) in
  let p := mk_block (mk_block disk [] BLOCK_RAW 100 0 0) [] BLOCK_FILESYS 10 0 0 in
  wp (block_read (partition_operations ramdisk_operations 20) 7) p
    (λ b p', b = replicate 512 27 ∧ ∀ i, 0 ≤ i < 100 → aux (aux p') i = disk i).
Proof.
  intros disk p.
  apply (partition_sectors ramdisk_operations 100 ramdisk_ok (λ r, r) 20 7 (replicate 512 0) p);
    [apply ramdisk_laws| |done..]. split; [|done]. intros i. apply length_replicate.
Defined.

(** ** Scanning a partition table *)

Lemma vprintf_s fuel s args fmt :
  __vprintf (S fuel) (37 :: 115 :: fmt) (AStr (Some s) :: args) =
    let? rest := __vprintf fuel fmt args in Ok (s ++ rest).
Proof.
  cbn [__vprintf]. change (37 =? 37) with true. change (115 =? 37) with false. cbn [negb].
  change (parse_conversion (115 :: fmt) (AStr (Some s) :: args))
    with (Ok (mk_conv 0 0 (-1) INT, 115 :: fmt, AStr (Some s) :: args)).
  cbn [rbind]. assert (format_string s (mk_conv 0 0 (-1) INT) = s) as E.
  { unfold format_string. simpl width. rewrite (proj2 (Z.ltb_ge _ _)) by lia. simpl. apply app_nil_r. }
  etransitivity; [|apply (f_equal (λ s, let? rest := __vprintf fuel fmt args in Ok (s ++ rest)) E)].
  reflexivity.
Qed.

Lemma snprintf_name name d :
  1 ≤ d ≤ 4 →
  snprintf 20 16 (chars "%s%d") [AStr (Some name); A32 d] =
    Ok (take 15 (name ++ [48 + d]) ++ [0], Z.of_nat (length name) + 1).
Proof.
  intros Hd. unfold snprintf. change (chars "%s%d") with (37 :: 115 :: chars "%d").
  rewrite (vsnprintf_spec _ _ _ (name ++ [48 + d])).
  - by rewrite length_app, Nat2Z.inj_add.
  - rewrite vprintf_s.
    assert (d = 1 ∨ d = 2 ∨ d = 3 ∨ d = 4) as [->|[->|[->| ->]]] by lia; by vm_compute.
Qed.

(** The role that a partition's type byte gives it. *)
Definition partition_kind (t : Z) : block_kind :=
  if t =? 0x20 then BLOCK_KERNEL else if t =? 0x21 then BLOCK_FILESYS
  else if t =? 0x22 then BLOCK_SCRATCH else if t =? 0x23 then BLOCK_SWAP else BLOCK_FOREIGN.

(** The devices that the entries of a partition table describe: an entry that is
    not empty gets the next number, and is a device if it lies on the disk. *)
Fixpoint described (disk_name : list Z) (disk : nat) (sectors : Z) (nr : Z)
    (es : list partition_table_entry) : list device :=
  match es with
  | [] => []
  | e :: es =>
    if decide (e_size e = 0 ∨ e_type e = 0) then described disk_name disk sectors nr es
    else
      (if decide (e_offset e + e_size e ≤ sectors) then
         [mk_device (take 15 (disk_name ++ [48 + (nr + 1)])) (partition_kind (e_type e)) (e_size e)
            (Partition disk (e_offset e))]
       else []) ++ described disk_name disk sectors (nr + 1) es
  end.

Definition entry_ok (e : partition_table_entry) : Prop :=
  0 ≤ e_offset e < 2 ^ 32 ∧ 0 ≤ e_size e < 2 ^ 32 ∧ is_extended (e_type e) = false.

Section scan_proofs.
Context {R : Type} (ops : block_operations R).
Implicit Types (s : scan R).

Definition add_devices (l : list device) (nr : Z) s : scan R :=
  set_part_nr nr (on_registry
    (mk_registry (all_blocks (sc_registry s) ++ l) (block_by_role (sc_registry s))) s).

Lemma add_devices_add l l' nr nr' s :
  add_devices l' nr' (add_devices l nr s) = add_devices (l ++ l') nr' s.
Proof. unfold add_devices, on_registry, set_part_nr; simpl. by rewrite app_assoc. Qed.

Lemma wp_found_partition t start size nr s Q :
  mallocs s = [] → 1 ≤ nr ≤ 4 → 0 ≤ start < 2 ^ 32 → 0 < size < 2 ^ 32 →
  0 ≤ block_size (sc_block s) < 2 ^ 32 →
  Q tt (add_devices (if decide (start + size ≤ block_size (sc_block s)) then
      [mk_device (take 15 (block_name (sc_block s) ++ [48 + nr])) (partition_kind t) size
         (Partition (sc_self s) start)] else []) (part_nr s) s) →
  wp (found_partition t start size nr) s Q.
Proof.
  intros Hm Hnr Hst Hsz Hn HQ. unfold found_partition. do 2 wp_step. simpl.
  assert (s = add_devices [] (part_nr s) s) as Es.
  { unfold add_devices, on_registry, set_part_nr. rewrite app_nil_r. by destruct s as [??[]??]. }
  destruct (Z.leb_spec (block_size (sc_block s)) start).
  { rewrite decide_False in HQ by lia. wp_step. by rewrite Es. }
  destruct (decide (start + size ≤ block_size (sc_block s))) as [Hle|Hgt].
  2: { rewrite (proj2 (orb_true_iff _ _)); [wp_step; by rewrite Es|].
       destruct (decide (start + size < 2 ^ 32)).
       - right. rewrite wrap_small by lia. apply Z.ltb_lt. lia.
       - left. apply Z.ltb_lt. unfold wrap. rewrite <-(Zmod_unique _ (2 ^ 32) 1 (start + size - 2 ^ 32)); lia. }
  rewrite wrap_small by lia. rewrite !(proj2 (Z.ltb_ge _ _)) by lia. simpl orb. cbv iota.
  assert (∀ Q', Q' true s → wp scan_malloc s Q') as Hmalloc.
  { intros Q' HQ'. unfold wp, scan_malloc. by rewrite Hm. }
  wp_step. apply Hmalloc. wp_step. wp_step; [done|]. rewrite snprintf_name by done.
  wp_step. apply Hmalloc. wp_step. apply wp_zoom. unfold block_register. repeat wp_step.
  by rewrite removelast_last, take_take in *.
Qed.

Lemma wp_parse_entries rec es s Q :
  mallocs s = [] → 0 ≤ part_nr s → part_nr s + Z.of_nat (length es) ≤ 4 →
  Forall entry_ok es → 0 ≤ block_size (sc_block s) < 2 ^ 32 →
  (∀ nr, Q tt (add_devices (described (block_name (sc_block s)) (sc_self s)
     (block_size (sc_block s)) (part_nr s) es) nr s)) →
  wp (parse_entries rec 0 0 es) s Q.
Proof.
  revert s Q. induction es as [|e es IH]; intros s Q Hm Hnr Hlen Hes Hn HQ; simpl.
  { wp_step. specialize (HQ (part_nr s)). unfold add_devices, on_registry, set_part_nr in HQ.
    simpl in HQ. rewrite app_nil_r in HQ. by destruct s as [??[]??]. }
  simpl in HQ, Hlen. apply Forall_cons in Hes as [(Ho & Hs & Hx) Hes].
  destruct (decide (e_size e = 0 ∨ e_type e = 0)) as [He|He].
  { rewrite (proj2 (orb_true_iff _ _)) by (rewrite !Z.eqb_eq; done).
    do 2 wp_step. apply IH; [done|done|lia|done..]. }
  rewrite (proj2 (orb_false_iff _ _)) by (rewrite !Z.eqb_neq; tauto). rewrite Hx.
  do 5 wp_step. simpl. rewrite swrap_small by (simpl; lia). rewrite Z.add_0_r, (wrap_small 32) by done.
  apply wp_found_partition; [done|simpl; lia|done|lia|done|]. simpl.
  match goal with |- wp _ ?t _ => change t with (add_devices
    (if decide (e_offset e + e_size e ≤ block_size (sc_block s)) then
       [mk_device (take 15 (block_name (sc_block s) ++ [48 + (part_nr s + 1)])) (partition_kind (e_type e))
          (e_size e) (Partition (sc_self s) (e_offset e))] else []) (part_nr s + 1) s) end.
  apply IH; [done|simpl; lia..|done|done|]. intros nr. rewrite add_devices_add. simpl. apply HQ.
Qed.
End scan_proofs.

Lemma byte_range bs i : Forall (λ b, 0 ≤ b < 256) bs → 0 ≤ byte bs i < 256.
Proof.
  intros Hb. unfold byte. destruct (bs !! i) eqn:E; simpl; [|lia]. by apply (Forall_lookup_1 _ _ _ _ Hb E).
Qed.
Lemma word_range bs i : Forall (λ b, 0 ≤ b < 256) bs → 0 ≤ word bs i < 2 ^ 32.
Proof.
  intros Hb. unfold word. pose proof (byte_range bs i Hb). pose proof (byte_range bs (i + 1) Hb).
  pose proof (byte_range bs (i + 2) Hb). pose proof (byte_range bs (i + 3) Hb). lia.
Qed.

Lemma described_range name disk n nr es d :
  d ∈ described name disk n nr es →
  ∃ start, dev_ops d = Partition disk start ∧ start + dev_sectors d ≤ n.
Proof.
  revert nr. induction es as [|e es IH]; intros nr; simpl; [by intros ?%elem_of_nil|].
  case_decide; [apply IH|]. case_decide; simpl; [|apply IH].
  intros [->|?]%elem_of_cons; [by eexists|by eapply IH].
Qed.

(** The scan of a device whose partition table has a valid signature and no
    extended partition registers the partitions that lie on the device, in the
    order of the table, with their numbers, types and sizes, and nothing else; all
    of them end within the device. *)
Theorem partition_scan_correct {R} (ops : block_operations R) (n : Z) (ok : R → Prop)
    (contents : R → Z → list Z) (fuel : nat) (s : scan R) :
  driver_laws ops n ok contents → block_ok n ok (sc_block s) → 0 < block_size (sc_block s) →
  mallocs s = [] →
  let pt := contents (aux (sc_block s)) 0 in
  Forall (λ b, 0 ≤ b < 256) pt → signature pt = 0xaa55 →
  Forall (λ e, is_extended (e_type e) = false) (table_entries pt) →
  wp (partition_scan ops (S fuel)) s (λ _ s',
    let new := described (block_name (sc_block s)) (sc_self s) (block_size (sc_block s)) 0
                 (table_entries pt) in
    all_blocks (sc_registry s') = all_blocks (sc_registry s) ++ new ∧
    block_by_role (sc_registry s') = block_by_role (sc_registry s) ∧
    Forall (λ d, ∃ start, dev_ops d = Partition (sc_self s) start ∧
      start + dev_sectors d ≤ block_size (sc_block s)) new).
Proof.
  intros Hl (Hok & Hn & Hw & Ht) Hpos Hm pt Hpt Hsig Hext. unfold partition_scan. do 2 wp_step.
  cbn [read_partition_table]. do 2 wp_step. simpl sc_block. rewrite (proj2 (Z.leb_gt _ _)) by lia.
  wp_step. unfold wp at 1, scan_malloc. simpl mallocs. rewrite Hm. wp_step. wp_step; [done|]. wp_step.
  apply wp_zoom. eapply wp_block_read; [done..|simpl; lia|simpl; lia|]. intros r' Hr Hc.
  change (contents _ 0) with pt. rewrite Hsig. simpl negb. cbv iota.
  apply wp_parse_entries; [done|simpl; lia|simpl; lia| |simpl; lia|].
  - unfold table_entries in *. repeat (apply Forall_cons in Hext as [? Hext]).
    repeat (apply Forall_cons; split); [..|done]; (split_and!; try apply word_range; done).
  - intros nr. split; [done|]. split; [done|]. apply Forall_forall. intros d. apply described_range.
Qed.

(** A table with a file system partition, an empty entry, one past the end of the
    disk and a swap partition. *)
Definition example_entry (t offset size : Z) : list Z :=
  [0; 0; 0; 0; t; 0; 0; 0] ++ word_bytes offset ++ word_bytes size.
Definition example_table : list Z :=
  replicate 446 0 ++ example_entry 0x21 1 20 ++ example_entry 0 0 0 ++ example_entry 0x20 50 100 ++
  example_entry 0x23 30 10 ++ [0x55; 0xaa].
Definition example_disk (pt : list Z) : block ramdisk :=
  mk_block (λ i, if decide (i = 0) then pt else replicate 512 0) (chars "hda") BLOCK_RAW 100 0 0.
Definition example_scan (pt : list Z) : scan ramdisk :=
  mk_scan (example_disk pt) 0 (mk_registry [mk_device (chars "hda") BLOCK_RAW 100 (Disk 0)] []) 0 [].
Lemma example_ok pt : length pt = 512%nat → block_ok 100 ramdisk_ok (example_disk pt).
Proof.
  intros Hl. split; [|done]. intros i. simpl. case_decide; [done|done].
Qed.

Lemma partition_scan_correct_witness :
  wp (partition_scan ramdisk_operations 1) (example_scan example_table) (λ _ s',
    all_blocks (sc_registry s') =
      [mk_device (chars "hda") BLOCK_RAW 100 (Disk 0);
       mk_device (chars "hda1") BLOCK_FILESYS 20 (Partition 0 1);
       mk_device (chars "hda3") BLOCK_SWAP 10 (Partition 0 30)]).
Proof.
  eapply wp_mono.
  - apply (partition_scan_correct ramdisk_operations 100 ramdisk_ok (λ r, r) 0 (example_scan example_table));
      [apply ramdisk_laws|by apply example_ok|done|done| |done|].
    + apply (bool_decide_unpack _). by vm_compute.
    + repeat constructor.
  - intros _ s' (-> & _ & _). reflexivity.
Defined.

(** ** Extended partitions *)

Section extended.
Context {R : Type} (ops : block_operations R) (n : Z) (ok : R → Prop) (contents : R → Z → list Z).
Context (laws : driver_laws ops n ok contents).
Implicit Types (s : scan R).

(** A state of the scan of a disk whose table is [pt]. *)
Definition scanning (pt : list Z) (sectors : Z) s : Prop :=
  block_ok n ok (sc_block s) ∧ block_size (sc_block s) = sectors ∧ contents (aux (sc_block s)) 0 = pt.

Lemma wlp_scan_malloc s Q :
  (∀ b l, Q b (mk_scan (sc_block s) (sc_self s) (sc_registry s) (part_nr s) l)) → wlp scan_malloc s Q.
Proof.
  intros HQ b s'. unfold scan_malloc. destruct (mallocs s) eqn:E; intros [= <- <-]; [|done].
  specialize (HQ true []). rewrite <-E in HQ. by destruct s.
Qed.

Lemma wlp_found_partition t start size nr s pt sectors :
  scanning pt sectors s → wlp (found_partition t start size nr) s (λ _, scanning pt sectors).
Proof.
  intros Hs. unfold found_partition. do 2 wlp_step. simpl.
  destruct (_ <=? start); [by wlp_step|]. destruct (_ || _); [by wlp_step|]. wlp_step.
  apply wlp_scan_malloc. intros b l. do 2 wlp_step. destruct (snprintf _ _ _ _) as [[]| | |]; try by wlp_step.
  wlp_step. apply wlp_scan_malloc. intros b' l'. wlp_step. intros u s'. unfold zoom.
  destruct (block_register _ _ _ _ _ _) as [[]| | |]; [|done..]. by intros [= _ <-] u' s'' [= _ <-].
Qed.

(** If a recursive call does not return from any such state, neither does the
    loop over entries of which one is extended. *)
Lemma entries_never (rec : Z → Z → M (scan R) unit) sector primary es s pt sectors :
  scanning pt sectors s →
  Exists (λ e, e_size e ≠ 0 ∧ is_extended (e_type e) = true) es →
  (∀ e s', e ∈ es → is_extended (e_type e) = true → scanning pt sectors s' →
     wlp (if sector =? 0 then rec (e_offset e) (e_offset e)
          else rec (u32 (e_offset e + primary)) primary) s' (λ _ _, False)) →
  wlp (parse_entries rec sector primary es) s (λ _ _, False).
Proof.
  intros Hs Hex Hrec. revert s Hs. induction es as [|e es IH]; intros s Hs; [by inversion Hex|].
  cbn [parse_entries]. wlp_step. destruct (is_extended (e_type e)) eqn:Ex.
  - destruct ((e_size e =? 0) || (e_type e =? 0)) eqn:Ee.
    + wlp_step. apply IH; [|by intros; apply Hrec; [apply elem_of_cons; right|..]|done].
      apply Exists_cons in Hex as [[Hz _]|?]; [|done]. apply orb_true_iff in Ee as [?%Z.eqb_eq|E%Z.eqb_eq]; [done|].
      by rewrite E in Ex.
    + eapply wlp_mono; [apply (Hrec e); [by left|done..]|]. done.
  - assert (Exists (λ e, e_size e ≠ 0 ∧ is_extended (e_type e) = true) es) as Hex'.
    { apply Exists_cons in Hex as [[_ E]|?]; [congruence|done]. }
    assert (∀ s', scanning pt sectors s' → wlp (parse_entries rec sector primary es) s' (λ _ _, False)) as IH'.
    { intros. apply IH; [done| |done]. intros. apply Hrec; [by right|done..]. }
    destruct (_ || _); [by wlp_step; apply IH'|]. do 4 wlp_step.
    eapply wlp_mono; [by eapply wlp_found_partition|]. simpl. intros _. apply IH'.
Qed.

Lemma table_never fuel sector primary s pt sectors :
  scanning pt sectors s → 0 ≤ sector < sectors → signature pt = 0xaa55 →
  Exists (λ e, e_size e ≠ 0 ∧ is_extended (e_type e) = true) (table_entries pt) →
  (∀ s' e, e ∈ table_entries pt → is_extended (e_type e) = true → scanning pt sectors s' →
     wlp (if sector =? 0 then read_partition_table ops fuel (e_offset e) (e_offset e)
          else read_partition_table ops fuel (u32 (e_offset e + primary)) primary) s' (λ _ _, False)) →
  wlp (read_partition_table ops (S fuel) sector primary) s (λ _ _, False).
Proof using laws.
  intros (Hb & Hsz & Hpt) Hsec Hsig Hex Hrec. cbn [read_partition_table]. do 2 wlp_step. cbv zeta.
  rewrite Hsz, (proj2 (Z.leb_gt _ _)) by lia. wlp_step. apply wlp_scan_malloc. intros b l. do 3 wlp_step.
  assert (wp (zoom sc_block on_block (block_read ops 0))
    (mk_scan (sc_block s) (sc_self s) (sc_registry s) (part_nr s) l)
    (λ buf s', buf = pt ∧ scanning pt sectors s')) as Hread.
  { apply wp_zoom. destruct Hb as (Hok & Hn & Hw & Ht). eapply wp_block_read; [done..|simpl; lia|simpl; lia|].
    intros r' Hr Hc. simpl. split; [done|]. split; [by split|]. split; [done|]. simpl. rewrite Hc by lia. done. }
  apply wp_ok in Hread as (buf & s1 & E & -> & Hs1). intros u s2 E2. rewrite E in E2.
  injection E2 as <- <-. rewrite Hsig. simpl negb. cbv iota. eapply entries_never; [done..|]. intros e s' ???.
  by apply Hrec.
Qed.
End extended.

(** A disk with an extended partition whose first two steps stay on the disk:
    partition_scan never returns.  read_partition_table reads sector 0 at every
    level, so that it finds the extended partition again and again. *)
Theorem partition_scan_extended {R} (ops : block_operations R) (n : Z) (ok : R → Prop)
    (contents : R → Z → list Z) (fuel : nat) (s s' : scan R) :
  driver_laws ops n ok contents → block_ok n ok (sc_block s) →
  let pt := contents (aux (sc_block s)) 0 in
  signature pt = 0xaa55 →
  Exists (λ e, e_size e ≠ 0 ∧ is_extended (e_type e) = true) (table_entries pt) →
  Forall (λ e, is_extended (e_type e) = true →
    0 < e_offset e ∧ ∀ e', e' ∈ table_entries pt → is_extended (e_type e') = true →
      e_offset e + e_offset e' < block_size (sc_block s)) (table_entries pt) →
  partition_scan ops fuel s ≠ Ok (tt, s').
Proof.
  intros Hl Hb pt Hsig Hex Hoff.
  assert (∀ e e', e ∈ table_entries pt → is_extended (e_type e) = true → e' ∈ table_entries pt →
    is_extended (e_type e') = true →
    0 < e_offset e ∧ 0 < e_offset e' ∧ e_offset e + e_offset e' < block_size (sc_block s)) as Hpair.
  { intros e e' He Hx He' Hx'. pose proof (proj1 (Forall_forall _ _) Hoff e He Hx) as [? H].
    pose proof (proj1 (Forall_forall _ _) Hoff e' He' Hx') as [? _]. by auto. }
  pose proof Hb as (_ & Hn & Hw & _).
  set (sectors := block_size (sc_block s)) in *.
  assert (∀ fuel e1 sector s, e1 ∈ table_entries pt → is_extended (e_type e1) = true →
    0 < sector < sectors → scanning n ok contents pt sectors s →
    wlp (read_partition_table ops fuel sector (e_offset e1)) s (λ _ _, False)) as Hdeep.
  { clear s' Hb. intros f. induction f as [|f IH]; intros e1 sector s1 He1 Hx1 Hsec Hs1; [done|].
    eapply (table_never ops n ok contents Hl); [done|lia|done|done|]. intros s2 e He Hx Hs2.
    rewrite (proj2 (Z.eqb_neq _ _)) by lia. destruct (Hpair e e1) as (? & ? & ?); [done..|].
    rewrite wrap_small by lia. apply IH; [done|done|lia|done]. }
  assert (wlp (partition_scan ops fuel) s (λ _ _, False)) as H; [|intros E; by apply (H tt s')].
  unfold partition_scan. do 2 wlp_step. destruct fuel as [|f]; [done|].
  assert (0 < sectors) by (apply Exists_exists in Hex as (e & He & _ & Hx); destruct (Hpair e e); lia || done).
  eapply (table_never ops n ok contents Hl _ _ _ _ pt sectors); [done|lia|done|done|].
  intros s2 e He Hx Hs2. simpl. destruct (Hpair e e) as (? & ? & ?); [done..|]. apply Hdeep; [done|done|lia|done].
Qed.

Definition extended_table : list Z :=
  replicate 446 0 ++ example_entry 0x05 10 40 ++ replicate 48 0 ++ [0x55; 0xaa].
Lemma partition_scan_extended_witness :
  match partition_scan ramdisk_operations 30 (example_scan extended_table) with Ok _ => False | _ => True end.
Proof.
  pose (pt := extended_table). destruct (partition_scan _ _ _) as [[[] s']| | |] eqn:E; [|done..]. revert E.
  apply (partition_scan_extended ramdisk_operations 100 ramdisk_ok (λ r, r) 30 (example_scan pt));
    [apply ramdisk_laws|by apply example_ok|done|by left|].
  assert (∀ e, e ∈ table_entries pt → is_extended (e_type e) = true → e_offset e = 10) as Ho.
  { intros e He Hx. by repeat (apply elem_of_cons in He as [->|He]; [done|]); inversion He. }
  apply Forall_forall. intros e He Hx. rewrite (Ho e) by done. split; [done|]. intros e' He' Hx'.
  by rewrite (Ho e').
Defined.
