(* ===== verification/Ide.v ===== *)
(** * The disk driver: devices/ide.c

    The driver of one channel.  The controller and its disks are hardware: the class
    [AtaOps] has the accesses to its ports, and [Ata] what [ATA-3] says about them,
    as far as the driver relies on it.  The controller works on its own: a command
    ends at any time between two accesses, and the interrupt it then raises is
    taken before the next instruction of the driver.

    What is printed is left out, as is the registration of the interrupt handler.
    The lock of the channel is a flag, since only the thread that runs the
    operation is modelled. *)

From S2P Require Import Prelude SortSearch Block.
Local Open Scope Z_scope.

Definition STA_BSY : Z := 0x80.
Definition STA_DRDY : Z := 0x40.
Definition STA_DRQ : Z := 0x08.
Definition CTL_SRST : Z := 0x04.
Definition DEV_MBS : Z := 0xa0.
Definition DEV_LBA : Z := 0x40.
Definition DEV_DEV : Z := 0x10.
Definition CMD_IDENTIFY_DEVICE : Z := 0xec.
Definition CMD_READ_SECTOR_RETRY : Z := 0x20.
Definition CMD_WRITE_SECTOR_RETRY : Z := 0x30.

(** The two legacy channels. *)
Definition CHANNEL_CNT : nat := 2.
Definition channel_base (chan_no : Z) : Z := if chan_no =? 0 then 0x1f0 else 0x170.
Definition channel_irq (chan_no : Z) : Z := if chan_no =? 0 then 14 + 0x20 else 15 + 0x20.

(** The ports of a channel; a halfword is the pair of its bytes. *)
Class AtaOps (H : Type) := {
  ata_inb : Z → H → Z * H;
  ata_outb : Z → Z → H → H;
  ata_inw : Z → H → (Z * Z) * H;
  ata_outw : Z → Z * Z → H → H;
  (** Time passes. *)
  ata_sleep : H → H;
  (** The interrupt line. *)
  ata_irq : H → bool;
}.

Section channel.
Context {H : Type} `{!AtaOps H} (chan_no : Z).

Definition reg_base : Z := channel_base chan_no.
Definition reg_data : Z := reg_base + 0.
Definition reg_error : Z := reg_base + 1.
Definition reg_nsect : Z := reg_base + 2.
Definition reg_lbal : Z := reg_base + 3.
Definition reg_lbam : Z := reg_base + 4.
Definition reg_lbah : Z := reg_base + 5.
Definition reg_device : Z := reg_base + 6.
Definition reg_status : Z := reg_base + 7.
Definition reg_command : Z := reg_status.
Definition reg_ctl : Z := reg_base + 0x206.
Definition reg_alt_status : Z := reg_ctl.

(** struct channel, with the controller and the interrupt flag of the processor. *)
Record channel := mk_channel {
  hw : H;
  ch_lock : bool;
  expecting_interrupt : bool;
  completion_wait : Z;
  is_ata : list bool;
  intr_on : bool;
}.
Definition set_hw (h : H) (c : channel) : channel :=
  mk_channel h (ch_lock c) (expecting_interrupt c) (completion_wait c) (is_ata c) (intr_on c).
Definition set_ch_lock (b : bool) (c : channel) : channel :=
  mk_channel (hw c) b (expecting_interrupt c) (completion_wait c) (is_ata c) (intr_on c).
Definition set_expecting (b : bool) (c : channel) : channel :=
  mk_channel (hw c) (ch_lock c) b (completion_wait c) (is_ata c) (intr_on c).
Definition add_completion (n : Z) (c : channel) : channel :=
  mk_channel (hw c) (ch_lock c) (expecting_interrupt c) (completion_wait c + n) (is_ata c) (intr_on c).
Definition set_is_ata (dev_no : nat) (b : bool) (c : channel) : channel :=
  mk_channel (hw c) (ch_lock c) (expecting_interrupt c) (completion_wait c) (<[dev_no := b]> (is_ata c)) (intr_on c).

(** ** Interrupts and port accesses *)

(** interrupt_handler () for the channel whose interrupt it is. *)
Definition channel_interrupt : M channel unit :=
  e ← gets expecting_interrupt;
  if e : bool then
    modify (λ c, set_hw (ata_inb reg_status (hw c)).2 c);;
    modify (add_completion 1)
  else mret tt.
(** The point between two instructions, where an interrupt is taken. *)
Definition interrupt_point : M channel unit :=
  c ← get; if intr_on c && ata_irq (hw c) then channel_interrupt else mret tt.
Definition inb (port : Z) : M channel Z :=
  c ← get; let '(x, h) := ata_inb port (hw c) in put (set_hw h c);; interrupt_point;; mret x.
Definition outb (port x : Z) : M channel unit := modify (λ c, set_hw (ata_outb port (u8 x) (hw c)) c);; interrupt_point.
Definition sleep : M channel unit := assertM (gets intr_on);; modify (λ c, set_hw (ata_sleep (hw c)) c);; interrupt_point.
Fixpoint insw (port : Z) (cnt : nat) : M channel (list Z) :=
  match cnt with
  | O => mret []
  | S cnt =>
    c ← get;
    let '((lo, hi), h) := ata_inw port (hw c) in
    put (set_hw h c);; interrupt_point;;
    rest ← insw port cnt;
    mret (lo :: hi :: rest)
  end.
Fixpoint outsw (port : Z) (bytes : list Z) (cnt : nat) : M channel unit :=
  match cnt with
  | O => mret tt
  | S cnt =>
    match bytes with
    | lo :: hi :: bytes =>
      modify (λ c, set_hw (ata_outw port (lo, hi) (hw c)) c);; interrupt_point;; outsw port bytes cnt
    | _ => fault
    end
  end.
(** sema_down (&c->completion_wait): time passes until the interrupt handler has
    called sema_up (), [fuel] times at most. *)
Fixpoint sema_down_completion (fuel : nat) : M channel unit :=
  match fuel with
  | O => nofuel
  | S fuel =>
    n ← gets completion_wait;
    if 0 <? n then modify (add_completion (-1)) else sleep;; sema_down_completion fuel
  end.
Definition lock_acquire_channel : M channel unit :=
  l ← gets ch_lock; assert (negb l);; modify (set_ch_lock true).
Definition lock_release_channel : M channel unit :=
  l ← gets ch_lock; assert l;; modify (set_ch_lock false).

(** ** Low-level ATA primitives *)

(** for (i = 0; i < 1000; i++), [n] rounds left. *)
Fixpoint idle_wait (n : nat) : M channel unit :=
  match n with
  | O => mret tt
  | S n =>
    x ← inb reg_status;
    if Z.land x (Z.lor STA_BSY STA_DRQ) =? 0 then mret tt else sleep;; idle_wait n
  end.
Definition wait_until_idle : M channel unit := idle_wait 1000.
Fixpoint busy_wait (n : nat) : M channel bool :=
  match n with
  | O => mret false
  | S n =>
    x ← inb reg_alt_status;
    if Z.land x STA_BSY =? 0 then
      y ← inb reg_alt_status; mret (negb (Z.land y STA_DRQ =? 0))
    else sleep;; busy_wait n
  end.
Definition wait_while_busy : M channel bool := busy_wait 3000.
Definition select_device (dev_no : nat) : M channel unit :=
  outb reg_device (Z.lor DEV_MBS (if (dev_no =? 1)%nat then DEV_DEV else 0));;
  inb reg_alt_status;;
  sleep.
Definition select_device_wait (dev_no : nat) : M channel unit :=
  wait_until_idle;; select_device dev_no;; wait_until_idle.
Definition select_sector (dev_no : nat) (sec_no : Z) : M channel unit :=
  assert (sec_no <? 2 ^ 28);;
  select_device_wait dev_no;;
  outb reg_nsect 1;;
  outb reg_lbal sec_no;;
  outb reg_lbam (Z.shiftr sec_no 8);;
  outb reg_lbah (Z.shiftr sec_no 16);;
  outb reg_device
    (Z.lor (Z.lor (Z.lor DEV_MBS DEV_LBA) (if (dev_no =? 1)%nat then DEV_DEV else 0)) (Z.shiftr sec_no 24)).
Definition issue_pio_command (command : Z) : M channel unit :=
  assertM (gets intr_on);;
  modify (set_expecting true);;
  outb reg_command command.
Definition input_sector : M channel (list Z) := insw reg_data (Z.to_nat (BLOCK_SECTOR_SIZE / 2)).
Definition output_sector (sector : list Z) : M channel unit := outsw reg_data sector (Z.to_nat (BLOCK_SECTOR_SIZE / 2)).

(** ** Reading and writing *)

(** How long the completion interrupt may take, in sleeps; the code has no bound. *)
Definition patience : nat := 3000.
Definition ide_read (dev_no : nat) (sec_no : Z) : M channel (list Z) :=
  lock_acquire_channel;;
  select_sector dev_no sec_no;;
  issue_pio_command CMD_READ_SECTOR_RETRY;;
  sema_down_completion patience;;
  ok ← wait_while_busy;
  if negb ok then panic
  else
    buffer ← input_sector;
    lock_release_channel;;
    mret buffer.
Definition ide_write (dev_no : nat) (sec_no : Z) (buffer : list Z) : M channel unit :=
  lock_acquire_channel;;
  select_sector dev_no sec_no;;
  issue_pio_command CMD_WRITE_SECTOR_RETRY;;
  ok ← wait_while_busy;
  if negb ok then panic
  else
    output_sector buffer;;
    sema_down_completion patience;;
    lock_release_channel.
Definition ide_operations (dev_no : nat) : block_operations channel :=
  mk_operations (ide_read dev_no) (ide_write dev_no).

(** ** Detection *)

Definition probe_device (dev_no : nat) : M channel bool :=
  select_device dev_no;;
  outb reg_nsect 0x55;; outb reg_lbal 0xaa;;
  outb reg_nsect 0xaa;; outb reg_lbal 0x55;;
  outb reg_nsect 0x55;; outb reg_lbal 0xaa;;
  x ← inb reg_nsect;
  if x =? 0x55 then y ← inb reg_lbal; mret (y =? 0xaa) else mret false.
Fixpoint signature_wait (n : nat) : M channel unit :=
  match n with
  | O => mret tt
  | S n =>
    x ← inb reg_nsect;
    if x =? 1 then
      y ← inb reg_lbal; if y =? 1 then mret tt else sleep;; signature_wait n
    else sleep;; signature_wait n
  end.
Definition reset_channel : M channel unit :=
  present0 ← probe_device 0;
  present1 ← probe_device 1;
  outb reg_ctl 0;; sleep;;
  outb reg_ctl CTL_SRST;; sleep;;
  outb reg_ctl 0;;
  sleep;;
  (if present0 : bool then select_device 0;; wait_while_busy;; mret tt else mret tt);;
  (if present1 : bool then select_device 1;; signature_wait 3000;; wait_while_busy;; mret tt else mret tt).

Definition check_device_type (dev_no : nat) : M channel bool :=
  select_device dev_no;;
  error ← inb reg_error;
  lbam ← inb reg_lbam;
  lbah ← inb reg_lbah;
  status ← inb reg_status;
  if (negb (error =? 1) && (negb (error =? 0x81) || (dev_no =? 1)%nat))
     || (Z.land status STA_DRDY =? 0) || negb (Z.land status STA_BSY =? 0)
  then modify (set_is_ata dev_no false);; mret (negb (error =? 0x81))
  else
    modify (set_is_ata dev_no (((lbam =? 0) && (lbah =? 0)) || ((lbam =? 0x3c) && (lbah =? 0xc3))));;
    mret true.

(** The capacity of the disk, and whether the driver is to use it. *)
Definition identify_ata_device (dev_no : nat) : M channel (option Z) :=
  a ← gets (λ c, is_ata c !! dev_no);
  assert (bool_decide (a = Some true));;
  select_device_wait dev_no;;
  issue_pio_command CMD_IDENTIFY_DEVICE;;
  sema_down_completion patience;;
  ok ← wait_while_busy;
  if negb ok then modify (set_is_ata dev_no false);; mret None
  else
    id ← input_sector;
    let capacity := word id (60 * 2) in
    if 1024 * 1024 * 1024 / BLOCK_SECTOR_SIZE <=? capacity then
      modify (set_is_ata dev_no false);; mret None
    else mret (Some capacity).
End channel.
Arguments channel H : clear implicits.
Arguments mk_channel {H}.

(** interrupt_handler (): the search for the channel by its vector. *)
Fixpoint interrupt_search {H} `{!AtaOps H} (chan_no vec_no : Z) (cs : list (channel H)) : result (list (channel H)) :=
  match cs with
  | [] => Panic
  | c :: cs =>
    if vec_no =? channel_irq chan_no then
      match channel_interrupt chan_no c with
      | Ok (_, c) => Ok (c :: cs)
      | Panic => Panic | Fault => Fault | Fuel => Fuel
      end
    else
      match interrupt_search (chan_no + 1) vec_no cs with
      | Ok cs => Ok (c :: cs)
      | Panic => Panic | Fault => Fault | Fuel => Fuel
      end
  end.
Definition interrupt_handler {H} `{!AtaOps H} (vec_no : Z) (cs : list (channel H)) : result (list (channel H)) :=
  interrupt_search 0 vec_no cs.

(** *** Strings of IDENTIFY DEVICE *)

(** Swap all pairs of bytes; an odd one at the end stays. *)
Fixpoint swap_pairs (l : list Z) : list Z :=
  match l with a :: b :: l => b :: a :: swap_pairs l | _ => l end.
(** for (size--; size > 0; size--): where the null character goes. *)
Fixpoint last_char (string : list Z) (size : nat) : nat :=
  match size with
  | O => O
  | S size' =>
    let c := default 0 (string !! size') in
    if negb (c =? 0) && negb (isspace c) then size else last_char string size'
  end.
Definition descramble_ata_string (string : list Z) (size : nat) : list Z :=
  let string := swap_pairs (take size string) ++ drop size string in
  <[last_char string (size - 1) := 0]> string.

(** ** Initialisation *)

Section init.
Context {H : Type} `{!AtaOps H}.

(** The channel, the list of block devices, and the outcomes of malloc (). *)
Record ide := mk_ide { ide_channel : channel H; ide_registry : registry; ide_mallocs : list bool }.
Definition set_ide_channel (c : channel H) (s : ide) : ide := mk_ide c (ide_registry s) (ide_mallocs s).
Definition on_channel {A} (m : M (channel H) A) : M ide A := zoom ide_channel set_ide_channel m.
(** The disk as block_register () and partition_scan () get it: its unit number is
    its place among the four. *)
Definition disk_name (chan_no : Z) (dev_no : nat) : list Z := [104; 100; 97 + chan_no * 2 + Z.of_nat dev_no].
Definition register_disk (fuel : nat) (chan_no : Z) (dev_no : nat) (capacity : Z) : M ide unit :=
  s ← get;
  let name := disk_name chan_no dev_no in
  match block_register (default true (head (ide_mallocs s))) name BLOCK_RAW capacity
          (Disk (chan_no * 2 + Z.of_nat dev_no)) (ide_registry s) with
  | Ok (self, r) =>
    let sc := mk_scan (mk_block (ide_channel s) name BLOCK_RAW capacity 0 0) self r 0 (tail (ide_mallocs s)) in
    match partition_scan (ide_operations chan_no dev_no) fuel sc with
    | Ok (_, sc) => put (mk_ide (aux (sc_block sc)) (sc_registry sc) (mallocs sc))
    | Panic => panic | Fault => fault | Fuel => nofuel
    end
  | Panic => panic | Fault => fault | Fuel => nofuel
  end.
Fixpoint identify_loop (n : nat) (fuel : nat) (chan_no : Z) (dev_no : nat) : M ide unit :=
  match n with
  | O => mret tt
  | S n =>
    a ← on_channel (gets (λ c, default false (is_ata c !! dev_no)));
    (if a : bool then
       capacity ← on_channel (identify_ata_device chan_no dev_no);
       match capacity with Some capacity => register_disk fuel chan_no dev_no capacity | None => mret tt end
     else mret tt);;
    identify_loop n fuel chan_no (S dev_no)
  end.
(** The iteration of ide_init () for one channel. *)
Definition init_channel (fuel : nat) (chan_no : Z) : M ide unit :=
  on_channel (modify (λ c, mk_channel (hw c) false false 0 [false; false] (intr_on c)));;
  on_channel (reset_channel chan_no);;
  slave ← on_channel (check_device_type chan_no 0);
  (if slave : bool then on_channel (check_device_type chan_no 1);; mret tt else mret tt);;
  identify_loop 2 fuel chan_no 0.
(** The channels are given and returned with their controllers. *)
Fixpoint init_channels (fuel : nat) (chan_no : Z) (cs : list (channel H)) : M (registry * list bool) (list (channel H)) :=
  match cs with
  | [] => mret []
  | c :: cs => λ '(r, ms),
    match init_channel fuel chan_no (mk_ide c r ms) with
    | Ok (_, s) =>
      (rest ← init_channels fuel (chan_no + 1) cs; mret (ide_channel s :: rest)) (ide_registry s, ide_mallocs s)
    | Panic => Panic | Fault => Fault | Fuel => Fuel
    end
  end.
Definition ide_init (fuel : nat) (c0 c1 : channel H) : M (registry * list bool) (list (channel H)) :=
  init_channels fuel 0 [c0; c1].
End init.
