(* ===== verification/IdeThms.v ===== *)
(** * The disk driver keeps the promise of a driver

    What the driver relies on of the controller and its disks, class [Ata], and the
    proof that on such a controller devices/ide.c is a lawful driver in the sense of
    [driver_laws], so that the theorems on the file system hold over it. *)

From S2P Require Import Prelude SortSearch Block Ide.
Local Open Scope Z_scope.

(** ** The controller *)

(** Where the controller is with a command: waiting for one; reading the sector;
    with halfwords left to hand over; before a write; with some halfwords
    received; storing them. *)
Inductive phase :=
| Idle | BusyRead (ws : list (Z * Z)) | DataIn (ws : list (Z * Z))
| BusyWrite (s : Z) | DataOut (s : Z) (ws : list (Z * Z)) | Commit.
Record ata := mk_ata {
  a_nsect : Z; a_lbal : Z; a_lbam : Z; a_lbah : Z; a_device : Z;
  a_phase : phase;
  a_irq : bool;
  a_disk : bool → Z → list Z;
}.
Definition with_phase (p : phase) (irq : bool) (v : ata) : ata :=
  mk_ata (a_nsect v) (a_lbal v) (a_lbam v) (a_lbah v) (a_device v) p irq (a_disk v).
Definition set_reg (k x : Z) (v : ata) : ata :=
  mk_ata (if k =? 2 then x else a_nsect v) (if k =? 3 then x else a_lbal v) (if k =? 4 then x else a_lbam v)
    (if k =? 5 then x else a_lbah v) (if k =? 6 then x else a_device v) (a_phase v) (a_irq v) (a_disk v).
(** The device that is selected, and the sector. *)
Definition selected (v : ata) : bool := Z.testbit (a_device v) 4.
Definition lba (v : ata) : Z := a_lbal v + 2 ^ 8 * a_lbam v + 2 ^ 16 * a_lbah v + 2 ^ 24 * Z.land (a_device v) 15.
Definition busy (p : phase) : bool := match p with BusyRead _ | BusyWrite _ | Commit => true | _ => false end.
Definition data_request (p : phase) : bool := match p with DataIn _ | DataOut _ _ => true | _ => false end.
(** What a busy controller is about to do: only a completed command, or data that
    can be read, raise an interrupt. *)
Definition finished (p : phase) : phase :=
  match p with BusyRead ws => DataIn ws | BusyWrite s => DataOut s [] | Commit => Idle | _ => p end.
Definition raises (p : phase) : bool := match p with BusyRead _ | Commit => true | _ => false end.
Definition finish (v : ata) : ata :=
  with_phase (finished (a_phase v)) (a_irq v || raises (a_phase v)) v.
Definition settles (v v' : ata) : Prop := v' = v ∨ v' = finish v.
(** A sector as halfwords. *)
Fixpoint halves (l : list Z) : list (Z * Z) :=
  match l with a :: b :: l => (a, b) :: halves l | _ => [] end.
Definition bytes_of_halves (ws : list (Z * Z)) : list Z := ws ≫= λ '(a, b), [a; b].
Definition write_disk (dev : bool) (s : Z) (bytes : list Z) (d : bool → Z → list Z) : bool → Z → list Z :=
  λ dev' s', if decide (dev' = dev ∧ s' = s) then bytes else d dev' s'.
(** A halfword received. *)
Definition take_word (w : Z * Z) (v : ata) : ata :=
  match a_phase v with
  | DataOut s ws =>
    if (length ws <? 255)%nat then with_phase (DataOut s (ws ++ [w])) (a_irq v) v
    else mk_ata (a_nsect v) (a_lbal v) (a_lbam v) (a_lbah v) (a_device v) Commit (a_irq v)
           (write_disk (selected v) s (bytes_of_halves (ws ++ [w])) (a_disk v))
  | _ => v
  end.
(** The status register, of a device that is there. *)
Definition status_ok (v : ata) (x : Z) : Prop :=
  (Z.land x STA_BSY = 0 ↔ busy (a_phase v) = false) ∧
  (busy (a_phase v) = false → Z.land x STA_DRQ = 0 ↔ data_request (a_phase v) = false).

(** What [ATA-3] says.  [ata_delay] bounds the sleeps until a busy controller has
    finished: none takes as long as 2999 sleeps of 10 ms, or 30 seconds. *)
Class Ata (H : Type) `{!AtaOps H} (chan_no : Z) := {
  ata_view : H → ata;
  ata_delay : H → nat;
  ata_present : bool → bool;
  ata_capacity : bool → Z;
  ata_identity : bool → list Z;
  ata_irq_law h : ata_irq h = a_irq (ata_view h);
  ata_inb_law k h : (1 ≤ k ≤ 7 ∨ k = 0x206) → let '(x, h') := ata_inb (channel_base chan_no + k) h in
    ∃ v, settles (ata_view h) v ∧ ata_view h' = with_phase (a_phase v) (a_irq v && negb (k =? 7)) v ∧
      (k = 7 ∨ k = 0x206 → ata_present (selected v) = true → status_ok v x) ∧
      (busy (a_phase v) = true → (ata_delay h' ≤ ata_delay h)%nat);
  ata_outb_law k x h : 2 ≤ k ≤ 6 → 0 ≤ x < 256 → a_phase (ata_view h) = Idle →
    ata_view (ata_outb (channel_base chan_no + k) x h) = set_reg k x (ata_view h);
  ata_command_law x h : let v := ata_view h in let h' := ata_outb (channel_base chan_no + 7) x h in
    a_phase v = Idle → ata_present (selected v) = true → ∀ p,
    p = BusyRead (halves (ata_identity (selected v))) ∧ x = CMD_IDENTIFY_DEVICE ∨
    (p = BusyRead (halves (a_disk v (selected v) (lba v))) ∧ x = CMD_READ_SECTOR_RETRY ∨
     p = BusyWrite (lba v) ∧ x = CMD_WRITE_SECTOR_RETRY) ∧
      a_nsect v = 1 ∧ Z.testbit (a_device v) 6 = true ∧ 0 ≤ lba v < ata_capacity (selected v) →
    settles (with_phase p (a_irq v) v) (ata_view h') ∧ (ata_delay h' < 2999)%nat;
  ata_inw_law h w ws : a_phase (ata_view h) = DataIn (w :: ws) →
    let '(w', h') := ata_inw (channel_base chan_no + 0) h in
    w' = w ∧ ata_view h' = with_phase (match ws with [] => Idle | _ => DataIn ws end) (a_irq (ata_view h)) (ata_view h);
  ata_outw_law h w s ws : a_phase (ata_view h) = DataOut s ws →
    let h' := ata_outw (channel_base chan_no + 0) w h in
    settles (take_word w (ata_view h)) (ata_view h') ∧ (ata_delay h' < 2999)%nat;
  ata_sleep_law h : settles (ata_view h) (ata_view (ata_sleep h)) ∧
    (busy (a_phase (ata_view (ata_sleep h))) = true → (ata_delay (ata_sleep h) < ata_delay h)%nat);
  ata_identity_length dev : length (ata_identity dev) = 512%nat;
  ata_capacity_range dev : ata_capacity dev ≤ 2 ^ 28;
}.

(** ** Halfwords *)

Lemma halves_bytes l n : length l = (2 * n)%nat → bytes_of_halves (halves l) = l ∧ length (halves l) = n.
Proof.
  revert n. induction l as [l IH] using (induction_ltof1 _ (@length Z)). unfold ltof in IH.
  intros n Hl. destruct l as [|a [|b l]]; simpl in Hl; [by destruct n|lia|].
  destruct n as [|n]; [lia|]. destruct (IH l ltac:(simpl; lia) n ltac:(lia)) as [E1 E2].
  simpl. rewrite E2. split; [|done]. f_equal. f_equal. exact E1.
Qed.

Section driver.
Context {H : Type} `{Hata : Ata H chan_no}.
Notation C := (channel H).
Implicit Types (c : C) (v : ata) (h : H).

(** ** An idle controller *)

Definition ata_idle v c : Prop :=
  ata_view (hw c) = v ∧ a_phase v = Idle ∧ a_irq v = false ∧ intr_on c = true.
Lemma settles_idle v v' : a_phase v = Idle → a_irq v = false → settles v v' → v' = v.
Proof. intros Hp Hi [->| ->]; [done|]. unfold finish. rewrite Hp, Hi. destruct v; simpl in *. by subst. Qed.
Lemma wp_interrupt_point_quiet c (Q : unit → C → Prop) : a_irq (ata_view (hw c)) = false → Q tt c → wp (interrupt_point chan_no) c Q.
Proof.
  intros Hi HQ. unfold interrupt_point. do 2 wp_step. rewrite ata_irq_law, Hi, andb_false_r. by wp_step.
Qed.
Lemma wp_inb_idle k v c Q : (1 ≤ k ≤ 7 ∨ k = 0x206) → ata_idle v c →
  (∀ x h', ata_view h' = v → Q x (set_hw h' c)) → wp (inb chan_no (channel_base chan_no + k)) c Q.
Proof.
  intros Hk (Ev & Hp & Hi & Ho) HQ. unfold inb. do 2 wp_step. pose proof (ata_inb_law k (hw c) Hk) as Hl.
  destruct (ata_inb _ _) as [x h']. destruct Hl as (v' & Hs & Ev' & _ & _). rewrite Ev in Hs.
  apply settles_idle in Hs as ->; [|done..]. rewrite Hi in Ev'. simpl in Ev'.
  assert (ata_view h' = v) as E by (rewrite Ev'; destruct v; simpl in *; by subst).
  do 3 wp_step. apply wp_interrupt_point_quiet; [simpl; by rewrite E|]. wp_step. by apply HQ.
Qed.
Lemma wp_outb_idle k x v c (Q : unit → C → Prop) : 2 ≤ k ≤ 6 → ata_idle v c →
  (∀ h', ata_view h' = set_reg k (u8 x) v → Q tt (set_hw h' c)) → wp (outb chan_no (channel_base chan_no + k) x) c Q.
Proof.
  intros Hk (Ev & Hp & Hi & Ho) HQ. unfold outb. do 2 wp_step.
  assert (ata_view (ata_outb (channel_base chan_no + k) (u8 x) (hw c)) = set_reg k (u8 x) v) as E.
  { rewrite ata_outb_law, Ev; [done|done|by apply (wrap_bounds 8)|by rewrite Ev]. }
  apply wp_interrupt_point_quiet; [simpl; by rewrite E|]. by apply HQ.
Qed.
Lemma wp_sleep_idle v c (Q : unit → C → Prop) : ata_idle v c → (∀ h', ata_view h' = v → Q tt (set_hw h' c)) → wp (sleep chan_no) c Q.
Proof.
  intros (Ev & Hp & Hi & Ho) HQ. unfold sleep, assertM. do 4 wp_step; [done|]. do 2 wp_step.
  pose proof (proj1 (ata_sleep_law (hw c))) as Hs. rewrite Ev in Hs. apply settles_idle in Hs; [|done..].
  apply wp_interrupt_point_quiet; [simpl; by rewrite Hs|]. by apply HQ.
Qed.
Lemma idle_hw v h' c : ata_idle v c → ata_view h' = v → ata_idle v (set_hw h' c).
Proof. by intros (Ev & ? & ? & ?) ?. Qed.
Lemma idle_set_reg k x v h' c : ata_idle v c → ata_view h' = set_reg k x v → ata_idle (set_reg k x v) (set_hw h' c).
Proof. by intros (Ev & ? & ? & ?) ?. Qed.
Lemma wp_wait_until_idle n v c (Q : unit → C → Prop) : ata_idle v c →
  (∀ h', ata_view h' = v → Q tt (set_hw h' c)) → wp (idle_wait chan_no n) c Q.
Proof.
  revert c Q. induction n as [|n IH]; intros c Q Hc HQ; cbn [idle_wait].
  - wp_step. replace c with (set_hw (hw c) c) by by destruct c. apply HQ. apply Hc.
  - wp_step. apply (wp_inb_idle 7 v); [lia|done|]. intros x h' Eh. destruct (_ =? 0).
    { wp_step. by apply HQ. }
    wp_step. apply (wp_sleep_idle v); [by apply idle_hw|]. intros h2 Eh2. apply IH; [by eauto using idle_hw|].
    intros h3 Eh3. by apply HQ.
Qed.
#[local] Hint Resolve idle_hw idle_set_reg : ata.

(** The device register that selects a device. *)
Definition dev_bit (dev_no : nat) : Z := if (dev_no =? 1)%nat then DEV_DEV else 0.
Lemma wp_select_device dev_no v c (Q : unit → C → Prop) : ata_idle v c →
  (∀ h', ata_view h' = set_reg 6 (Z.lor DEV_MBS (dev_bit dev_no)) v → Q tt (set_hw h' c)) →
  wp (select_device chan_no dev_no) c Q.
Proof.
  intros Hc HQ. unfold select_device. wp_step. apply (wp_outb_idle 6 _ v); [lia|done|]. intros h1 E1.
  replace (u8 _) with (Z.lor DEV_MBS (dev_bit dev_no)) in E1 by by unfold dev_bit; destruct (_ =? _)%nat.
  wp_step. eapply (wp_inb_idle 0x206); [lia|by eauto with ata|]. intros _ h2 E2.
  eapply wp_sleep_idle; [by eauto with ata|]. intros h3 E3. by apply HQ.
Qed.
(** The registers that select a sector. *)
Definition sector_regs (dev_no : nat) (s : Z) v : ata :=
  mk_ata 1 (s mod 256) (s / 2 ^ 8 mod 256) (s / 2 ^ 16 mod 256) (0xe0 + dev_bit dev_no + s / 2 ^ 24)
    (a_phase v) (a_irq v) (a_disk v).
Lemma sector_device dev_no s : 0 ≤ s < 2 ^ 28 →
  u8 (Z.lor (Z.lor (Z.lor DEV_MBS DEV_LBA) (dev_bit dev_no)) (Z.shiftr s 24)) = 0xe0 + dev_bit dev_no + s / 2 ^ 24.
Proof.
  intros Hs. rewrite Z.shiftr_div_pow2 by done.
  assert (0 ≤ s / 2 ^ 24 < 2 ^ 4) by (split; [apply Z.div_pos|apply Z.div_lt_upper_bound]; lia).
  rewrite Z.lor_comm, (lor_add 4).
  - replace (Z.lor (Z.lor DEV_MBS DEV_LBA) (dev_bit dev_no)) with (0xe0 + dev_bit dev_no)
      by by unfold dev_bit; destruct (_ =? _)%nat.
    rewrite wrap_small; [lia|]. unfold dev_bit, DEV_DEV. destruct (_ =? _)%nat; lia.
  - lia.
  - lia.
  - unfold dev_bit. by destruct (_ =? _)%nat.
Qed.
Lemma wp_select_sector dev_no s v c (Q : unit → C → Prop) : ata_idle v c → 0 ≤ s < 2 ^ 28 →
  (∀ h', ata_view h' = sector_regs dev_no s v → Q tt (set_hw h' c)) →
  wp (select_sector chan_no dev_no s) c Q.
Proof.
  intros Hc Hs HQ. unfold select_sector, select_device_wait. do 2 wp_step; [by apply Z.ltb_lt; lia|].
  do 2 wp_step. apply (wp_wait_until_idle _ v); [done|]. intros h1 E1. wp_step.
  apply (wp_select_device _ v); [by eauto with ata|]. intros h2 E2.
  eapply wp_wait_until_idle; [by eauto with ata|]. intros h3 E3.
  wp_step. eapply (wp_outb_idle 2); [lia|by eauto with ata|]. intros h4 E4.
  wp_step. eapply (wp_outb_idle 3); [lia|by eauto 10 with ata|]. intros h5 E5.
  wp_step. eapply (wp_outb_idle 4); [lia|by eauto 10 with ata|]. intros h6 E6.
  wp_step. eapply (wp_outb_idle 5); [lia|by eauto 10 with ata|]. intros h7 E7.
  eapply (wp_outb_idle 6); [lia|by eauto 10 with ata|]. intros h8 E8. apply HQ. rewrite E8.
  fold (dev_bit dev_no). rewrite sector_device, !Z.shiftr_div_pow2 by done. done.
Qed.

(** ** A command in progress *)

Definition same_channel c c' : Prop := ch_lock c' = ch_lock c ∧ is_ata c' = is_ata c.
Lemma same_channel_trans c1 c2 c3 : same_channel c1 c2 → same_channel c2 c3 → same_channel c1 c3.
Proof. unfold same_channel. intuition congruence. Qed.
(** The controller has come to phase [p] and the interrupt, if any, is dealt with. *)
Definition ready v p c : Prop :=
  intr_on c = true ∧ expecting_interrupt c = true ∧ ata_view (hw c) = with_phase p false v ∧ completion_wait c = 0.
(** The controller is in the busy phase [p], for less than [n] sleeps, or has left it
    and its interrupt has released the semaphore. *)
Definition working v p (n : nat) c : Prop :=
  intr_on c = true ∧ expecting_interrupt c = true ∧
  (ata_view (hw c) = with_phase p false v ∧ completion_wait c = 0 ∧ (ata_delay (hw c) < n)%nat ∨
   ata_view (hw c) = with_phase (finished p) false v ∧ completion_wait c = if raises p then 1 else 0).

Lemma settles_not_busy p v v' : busy p = false → settles (with_phase p false v) v' → v' = with_phase p false v.
Proof. intros Hb [->| ->]; [done|]. by destruct p. Qed.
Lemma finished_not_busy p : busy (finished p) = false.
Proof. by destruct p. Qed.
(** The interrupt handler acknowledges the interrupt and releases the semaphore. *)
Lemma wp_channel_interrupt v p c (Q : unit → C → Prop) : busy p = false →
  expecting_interrupt c = true → ata_view (hw c) = with_phase p true v →
  (∀ h', ata_view h' = with_phase p false v → Q tt (add_completion 1 (set_hw h' c))) →
  wp (channel_interrupt chan_no) c Q.
Proof.
  intros Hb He Ev HQ. unfold channel_interrupt. do 2 wp_step. rewrite He. do 3 wp_step.
  pose proof (ata_inb_law 7 (hw c) ltac:(lia)) as Hl. change (channel_base chan_no + 7) with (reg_status chan_no) in Hl.
  destruct (ata_inb _ _) as [x h']. destruct Hl as (v' & Hs & Ev' & _). apply HQ. simpl. rewrite Ev', Ev in *.
  assert (v' = with_phase p true v) as -> by (destruct Hs as [->| ->]; [done|by destruct p]). done.
Qed.
Lemma wp_point v p n c (Q : unit → C → Prop) : busy p = true →
  intr_on c = true → expecting_interrupt c = true → completion_wait c = 0 →
  settles (with_phase p false v) (ata_view (hw c)) → (busy (a_phase (ata_view (hw c))) = true → (ata_delay (hw c) < n)%nat) →
  (∀ c', working v p n c' → same_channel c c' → Q tt c') → wp (interrupt_point chan_no) c Q.
Proof.
  intros Hb Ho He Hz Hs Hd HQ. unfold interrupt_point. do 2 wp_step. rewrite Ho, ata_irq_law. simpl.
  destruct Hs as [E|E]; rewrite E in *; simpl.
  - wp_step. apply HQ; [|done]. split; [done|]. split; [done|]. left. by auto.
  - destruct (raises p) eqn:Er.
    + eapply (wp_channel_interrupt v (finished p)); [apply finished_not_busy|done| |].
      { rewrite E. unfold finish. simpl. by rewrite Er. }
      intros h' E'. apply HQ; [|done]. split; [done|]. split; [done|]. right. simpl. by rewrite Hz, Er.
    + wp_step. apply HQ; [|done]. split; [done|]. split; [done|]. right. rewrite E, Er. unfold finish. simpl. by rewrite Er.
Qed.
Lemma wp_inb_ready v p c Q : busy p = false → ready v p c →
  (∀ x h', ata_view h' = with_phase p false v → (ata_present (selected v) = true → status_ok (with_phase p false v) x) →
     Q x (set_hw h' c)) →
  wp (inb chan_no (reg_alt_status chan_no)) c Q.
Proof.
  intros Hb (Ho & He & Ev & Hz) HQ. unfold inb. do 2 wp_step.
  pose proof (ata_inb_law 0x206 (hw c) ltac:(lia)) as Hl.
  change (channel_base chan_no + 0x206) with (reg_alt_status chan_no) in Hl.
  destruct (ata_inb _ _) as [x h']. destruct Hl as (v' & Hs & Ev' & Hx & _). rewrite Ev in Hs.
  apply settles_not_busy in Hs as ->; [|done]. do 3 wp_step.
  apply wp_interrupt_point_quiet; [simpl; by rewrite Ev'|]. wp_step. apply HQ; [done|].
  intros Hp. apply Hx; [by right|done].
Qed.
Lemma status_drq v p y : busy p = false → status_ok (with_phase p false v) y → negb (Z.land y STA_DRQ =? 0) = data_request p.
Proof.
  intros Hb [_ Hy]. specialize (Hy Hb). simpl in Hy.
  destruct (Z.eqb_spec (Z.land y STA_DRQ) 0) as [E|E], (data_request p); try done.
  - by apply Hy in E.
  - destruct E. by apply Hy.
Qed.
Lemma wp_busy_wait_ready v p n c Q : busy p = false → ata_present (selected v) = true → ready v p c →
  (∀ c', ready v p c' → same_channel c c' → Q (data_request p) c') → wp (busy_wait chan_no (S n)) c Q.
Proof.
  intros Hb Hp Hc HQ. cbn [busy_wait]. wp_step. apply (wp_inb_ready v p); [done..|]. intros x h' E' Hx.
  destruct (Hx Hp) as [Hx1 _]. rewrite (proj2 (Z.eqb_eq _ _)) by by apply Hx1. wp_step.
  destruct Hc as (Ho & He & Ev & Hz). apply (wp_inb_ready v p); [done|done|]. intros y h2 E2 Hy.
  wp_step. rewrite (status_drq v p y) by auto. by apply HQ.
Qed.
Lemma wp_sleep_working v p n c (Q : unit → C → Prop) : busy p = true → intr_on c = true → expecting_interrupt c = true →
  ata_view (hw c) = with_phase p false v → completion_wait c = 0 → (ata_delay (hw c) < S n)%nat →
  (∀ c', working v p n c' → same_channel c c' → Q tt c') → wp (sleep chan_no) c Q.
Proof.
  intros Hb Ho He Ev Hz Hd HQ. unfold sleep, assertM. do 4 wp_step; [done|]. do 2 wp_step.
  pose proof (ata_sleep_law (hw c)) as [Hs Hn]. rewrite Ev in Hs.
  apply (wp_point v p n); [done..| |]; [simpl; intros Hbz; specialize (Hn Hbz); lia|]. intros c' Hw Hf. by apply HQ.
Qed.
(** sema_down () returns when the command is completed. *)
Lemma wp_sema_down v p n fuel c (Q : unit → C → Prop) : busy p = true → raises p = true →
  working v p n c → (n < fuel)%nat → (∀ c', ready v (finished p) c' → same_channel c c' → Q tt c') →
  wp (sema_down_completion chan_no fuel) c Q.
Proof.
  intros Hb Hr. revert n c Q. induction fuel as [|fuel IH]; intros n c Q (Ho & He & Hc) Hn HQ; [lia|].
  cbn [sema_down_completion]. do 2 wp_step. rewrite Hr in Hc. destruct Hc as [(Ev & Hz & Hd)|[Ev Hz]]; rewrite Hz; simpl.
  - wp_step. destruct n as [|n]; [lia|]. apply (wp_sleep_working v p n); [done..|]. intros c' Hw Hf.
    apply (IH n); [done|lia|]. intros c'' Hw' Hf'. apply HQ; [done|]. by eapply same_channel_trans.
  - wp_step. apply HQ; [|done]. split; [done|]. split; [done|]. split; [done|]. simpl. lia.
Qed.
(** wait_while_busy () when no interrupt announces the end of the phase. *)
Lemma wp_inb_working v p n c Q : busy p = true → raises p = false → ata_present (selected v) = true → working v p n c →
  (∀ x h', (Z.land x STA_BSY = 0 → ready v (finished p) (set_hw h' c)) →
    (Z.land x STA_BSY ≠ 0 → ata_view h' = with_phase p false v ∧ (ata_delay h' < n)%nat ∧ completion_wait c = 0) →
    Q x (set_hw h' c)) → wp (inb chan_no (reg_alt_status chan_no)) c Q.
Proof.
  intros Hb Hr Hp (Ho & He & Hc) HQ. rewrite Hr in Hc. assert (completion_wait c = 0) as Hz by (destruct Hc; naive_solver).
  unfold inb. do 2 wp_step. pose proof (ata_inb_law 0x206 (hw c) ltac:(lia)) as Hl.
  change (channel_base chan_no + 0x206) with (reg_alt_status chan_no) in Hl.
  destruct (ata_inb _ _) as [x h']. destruct Hl as (v' & Hs & Ev' & Hx & Hd).
  assert (v' = with_phase p false v ∧ (ata_delay (hw c) < n)%nat ∨ v' = with_phase (finished p) false v) as Hv.
  { destruct Hc as [(Ev & _ & Hn)|[Ev _]]; rewrite Ev in Hs; [destruct Hs as [->| ->]; [by left|right]|right].
    - unfold finish. simpl. by rewrite Hr.
    - apply settles_not_busy in Hs; [done|apply finished_not_busy]. }
  assert (selected v' = selected v ∧ a_irq v' = false) as [Es Ei] by by destruct Hv as [[-> _]| ->].
  replace (with_phase _ _ v') with v' in Ev' by (destruct v'; simpl in *; by subst).
  do 3 wp_step. apply wp_interrupt_point_quiet; [simpl; by rewrite Ev'|]. wp_step.
  destruct (Hx ltac:(by right) ltac:(by rewrite Es)) as [Hx1 _]. apply HQ.
  - intros E. apply Hx1 in E. destruct Hv as [[-> _]| ->]; [simpl in E; congruence|]. done.
  - intros E. destruct Hv as [[-> Hn]| ->].
    + split; [done|]. split; [specialize (Hd Hb); lia|done].
    + destruct E. apply Hx1. apply finished_not_busy.
Qed.
Lemma wp_busy_wait_working v p n fuel c Q : busy p = true → raises p = false → ata_present (selected v) = true →
  working v p n c → (n < fuel)%nat → (∀ c', ready v (finished p) c' → same_channel c c' → Q (data_request (finished p)) c') →
  wp (busy_wait chan_no fuel) c Q.
Proof.
  intros Hb Hr Hp. revert n c Q. induction fuel as [|fuel IH]; intros n c Q Hc Hn HQ; [lia|].
  cbn [busy_wait]. wp_step. apply (wp_inb_working v p n); [done..|]. intros x h' H0 H1.
  destruct (Z.eqb_spec (Z.land x STA_BSY) 0) as [E|E].
  - wp_step. apply (wp_inb_ready v (finished p)); [apply finished_not_busy|by apply H0|]. intros y h2 E2 Hy.
    wp_step. specialize (H0 E) as (Ho & He & Ev & Hz).
    rewrite (status_drq v (finished p) y) by auto using finished_not_busy. by apply HQ.
  - destruct (H1 E) as (Ev & Hd & Hz), Hc as (Ho & He & _). wp_step. destruct n as [|n]; [lia|].
    apply (wp_sleep_working v p n); [done..|]. intros c' Hw Hf. apply (IH n); [done|lia|].
    intros c'' Hr' Hf'. apply HQ; [done|]. by eapply same_channel_trans.
Qed.

(** ** The transfer of a sector *)

Definition rest_in (ws : list (Z * Z)) : phase := match ws with [] => Idle | _ => DataIn ws end.
Lemma wp_insw v ws c Q : ready v (rest_in ws) c →
  (∀ c', ready v Idle c' → same_channel c c' → Q (bytes_of_halves ws) c') →
  wp (insw chan_no (reg_data chan_no) (length ws)) c Q.
Proof.
  revert c Q. induction ws as [|w ws IH]; intros c Q Hc HQ; cbn [insw length].
  { wp_step. by apply HQ. }
  destruct Hc as (Ho & He & Ev & Hz). do 2 wp_step.
  pose proof (ata_inw_law (hw c) w ws) as Hl. rewrite Ev in Hl. specialize (Hl eq_refl).
  change (channel_base chan_no + 0) with (reg_data chan_no) in Hl.
  destruct (ata_inw _ _) as [[lo hi] h']. destruct Hl as [<- E']. do 3 wp_step.
  apply wp_interrupt_point_quiet; [simpl; by rewrite E'|]. wp_step. apply IH.
  - split; [done|]. split; [done|]. split; [|done]. simpl. rewrite E'. by destruct ws.
  - intros c' Hr Hf. wp_step. by apply HQ.
Qed.
Definition with_disk (d : bool → Z → list Z) v : ata :=
  mk_ata (a_nsect v) (a_lbal v) (a_lbam v) (a_lbah v) (a_device v) (a_phase v) (a_irq v) d.
Lemma wp_outsw v s ws0 ws c (Q : unit → C → Prop) : ready v (DataOut s ws0) c →
  ws ≠ [] → (length ws0 + length ws = 256)%nat →
  (∀ c', working (with_disk (write_disk (selected v) s (bytes_of_halves (ws0 ++ ws)) (a_disk v)) v) Commit 2999 c' →
     same_channel c c' → Q tt c') →
  wp (outsw chan_no (reg_data chan_no) (bytes_of_halves ws) (length ws)) c Q.
Proof.
  revert ws0 c Q. induction ws as [|[lo hi] ws IH]; intros ws0 c Q Hc Hne Hl HQ; [done|].
  cbn [length] in *. cbn [outsw bytes_of_halves mbind list_bind app].
  destruct Hc as (Ho & He & Ev & Hz). do 2 wp_step.
  pose proof (ata_outw_law (hw c) (lo, hi) s ws0) as Hw. rewrite Ev in Hw. specialize (Hw eq_refl).
  change (channel_base chan_no + 0) with (reg_data chan_no) in Hw. destruct Hw as [Hs Hd].
  unfold take_word in Hs. simpl a_phase in Hs. cbn iota in Hs. wp_step. destruct ws as [|w ws].
  - rewrite (proj2 (Nat.ltb_ge _ _)) in Hs by (simpl in Hl; lia).
    
    apply (wp_point (with_disk (write_disk (selected v) s (bytes_of_halves (ws0 ++ [(lo, hi)])) (a_disk v)) v) Commit 2999);
      [done|done|done|done|exact Hs|by intros _|].
    intros c' Hw Hf. by apply HQ.
  - rewrite (proj2 (Nat.ltb_lt _ _)) in Hs by (simpl in Hl; lia).
    apply (settles_not_busy (DataOut s (ws0 ++ [(lo, hi)])) v) in Hs; [|done].
    apply wp_interrupt_point_quiet; [simpl; by rewrite Hs|].
    apply (IH (ws0 ++ [(lo, hi)])); [done|done|rewrite length_app; simpl in *; lia|].
    intros c' Hw Hf. rewrite <-app_assoc in Hw. by apply HQ.
Qed.

(** ** Commands *)

Lemma wp_issue_pio_command x v p c (Q : unit → C → Prop) : ata_idle v c → completion_wait c = 0 →
  busy p = true → 0 ≤ x < 256 → ata_present (selected v) = true →
  p = BusyRead (halves (ata_identity (selected v))) ∧ x = CMD_IDENTIFY_DEVICE ∨
  (p = BusyRead (halves (a_disk v (selected v) (lba v))) ∧ x = CMD_READ_SECTOR_RETRY ∨
   p = BusyWrite (lba v) ∧ x = CMD_WRITE_SECTOR_RETRY) ∧
    a_nsect v = 1 ∧ Z.testbit (a_device v) 6 = true ∧ 0 ≤ lba v < ata_capacity (selected v) →
  (∀ c', working v p 2999 c' → same_channel c c' → Q tt c') → wp (issue_pio_command chan_no x) c Q.
Proof.
  intros (Ev & Hp & Hi & Ho) Hz Hb Hx Hpr Hc HQ. unfold issue_pio_command, assertM. do 4 wp_step; [done|]. do 2 wp_step.
  unfold outb. do 2 wp_step. rewrite (wrap_small 8 x) by lia.
  pose proof (ata_command_law x (hw c)) as Hl. cbv zeta in Hl. rewrite Ev in Hl. specialize (Hl Hp Hpr p Hc) as [Hs Hd].
  rewrite Hi in Hs. change (channel_base chan_no + 7) with (reg_command chan_no) in *.
  apply (wp_point v p 2999); [done|done|done|done|exact Hs|by intros _|]. intros c' Hw Hf. by apply HQ.
Qed.
(** The end of a command that reads, in ide_read () and identify_ata_device (). *)
Lemma wp_pio_in {A} v l c (k : list Z → M C A) (failed : M C A) Q : working v (BusyRead (halves l)) 2999 c →
  length l = 512%nat → ata_present (selected v) = true →
  (∀ c', ready v Idle c' → same_channel c c' → wp (k l) c' Q) →
  wp (sema_down_completion chan_no patience;;
      ok ← wait_while_busy chan_no;
      if negb ok then failed else buffer ← input_sector chan_no; k buffer) c Q.
Proof.
  intros Hw Hl Hp HQ. destruct (halves_bytes l 256 Hl) as [Eb El]. wp_step.
  apply (wp_sema_down v (BusyRead (halves l)) 2999); [done|done|done|unfold patience; lia|]. intros c1 H1 F1.
  wp_step. apply (wp_busy_wait_ready v (DataIn (halves l))); [done|done|done|]. intros c2 H2 F2. cbn [data_request negb].
  wp_step. unfold input_sector. change (Z.to_nat (BLOCK_SECTOR_SIZE / 2)) with 256%nat. rewrite <-El.
  apply (wp_insw v (halves l)); [by destruct (halves l)|]. intros c3 H3 F3. rewrite Eb. apply HQ; [done|].
  do 2 (eapply same_channel_trans; [done|]). done.
Qed.
Lemma lba_sector dev_no s v : 0 ≤ s < 2 ^ 28 → (dev_no < 2)%nat → let v' := sector_regs dev_no s v in
  lba v' = s ∧ selected v' = (dev_no =? 1)%nat ∧ Z.testbit (a_device v') 6 = true.
Proof.
  intros Hs Hd. assert (0 ≤ s / 2 ^ 24 < 2 ^ 4) as Hh by (split; [apply Z.div_pos|apply Z.div_lt_upper_bound]; lia).
  unfold lba, selected, sector_regs. cbn [a_lbal a_lbam a_lbah a_device].
  assert (Z.land (224 + dev_bit dev_no + s / 2 ^ 24) 15 = s / 2 ^ 24) as ->.
  { change 15 with (Z.ones 4). rewrite Z.land_ones by done. unfold dev_bit, DEV_DEV.
    destruct (_ =? _)%nat; rewrite <-(Z.mod_small (s / 2 ^ 24) (2 ^ 4) Hh) at 2.
    - replace (224 + 16 + s / 2 ^ 24) with (s / 2 ^ 24 + 15 * 2 ^ 4) by lia. by rewrite Z.mod_add.
    - replace (224 + 0 + s / 2 ^ 24) with (s / 2 ^ 24 + 14 * 2 ^ 4) by lia. by rewrite Z.mod_add. }
  split; [Z.to_euclidean_division_equations; lia|].
  assert (∀ x, 0 ≤ x < 2 ^ 4 → Z.testbit (224 + 16 + x) 4 = true ∧ Z.testbit (224 + 0 + x) 4 = false ∧
    Z.testbit (224 + 16 + x) 6 = true ∧ Z.testbit (224 + 0 + x) 6 = true) as Hbits.
  { intros x Hx. assert (x = 0 ∨ x = 1 ∨ x = 2 ∨ x = 3 ∨ x = 4 ∨ x = 5 ∨ x = 6 ∨ x = 7 ∨ x = 8 ∨ x = 9 ∨ x = 10 ∨ x = 11
      ∨ x = 12 ∨ x = 13 ∨ x = 14 ∨ x = 15) as Hc by lia. repeat destruct Hc as [->|Hc]; try done. by subst. }
  specialize (Hbits _ Hh). unfold dev_bit, DEV_DEV. destruct (_ =? _)%nat; naive_solver.
Qed.

(** ** The driver *)

Section device.
Context (dev_no : nat) (Hdev : (dev_no < 2)%nat) (Hpresent : ata_present (dev_no =? 1)%nat = true).
Notation dev := (dev_no =? 1)%nat.

Definition disk_contents c (s : Z) : list Z := a_disk (ata_view (hw c)) dev s.
(** Between two operations. *)
Definition channel_ok c : Prop :=
  ch_lock c = false ∧ completion_wait c = 0 ∧ intr_on c = true ∧
  a_phase (ata_view (hw c)) = Idle ∧ a_irq (ata_view (hw c)) = false ∧
  ∀ s, 0 ≤ s < ata_capacity dev → length (disk_contents c s) = 512%nat.
(** From the start of an operation to the command in progress. *)
Lemma wp_start {A} s x p c (k : M C A) Q : channel_ok c → 0 ≤ s < ata_capacity dev →
  p = BusyRead (halves (disk_contents c s)) ∧ x = CMD_READ_SECTOR_RETRY ∨ p = BusyWrite s ∧ x = CMD_WRITE_SECTOR_RETRY →
  (∀ v c', selected v = dev → a_disk v = a_disk (ata_view (hw c)) → working v p 2999 c' → ch_lock c' = true → wp k c' Q) →
  wp (lock_acquire_channel;; select_sector chan_no dev_no s;; issue_pio_command chan_no x;; k) c Q.
Proof using Hdev Hpresent.
  intros (Hl & Hz & Ho & Hp & Hi & _) Hs Hx HQ. pose proof (ata_capacity_range dev) as Hcap.
  wp_step. unfold lock_acquire_channel. do 4 wp_step; [by rewrite Hl|]. do 2 wp_step.
  set (v0 := ata_view (hw c)) in *. apply (wp_select_sector dev_no s v0); [done|lia|]. intros h1 E1. wp_step.
  destruct (lba_sector dev_no s v0 ltac:(lia) Hdev) as (El & Es & E6).
  apply (wp_issue_pio_command x (sector_regs dev_no s v0) p).
  - done.
  - done.
  - by destruct Hx as [[-> _]|[-> _]].
  - by destruct Hx as [[_ ->]|[_ ->]].
  - by rewrite Es.
  - right. rewrite El, Es. split; [|done]. destruct Hx as [[-> ->]|[-> ->]]; [by left|by right].
  - intros c' Hw [Hf _]. by apply (HQ (sector_regs dev_no s v0)).
Qed.
Lemma wp_unlock v c (Q : unit → C → Prop) : ready v Idle c → ch_lock c = true →
  (∀ s, 0 ≤ s < ata_capacity dev → length (a_disk v dev s) = 512%nat) →
  (∀ c', channel_ok c' → ata_view (hw c') = with_phase Idle false v → Q tt c') → wp lock_release_channel c Q.
Proof.
  intros (Ho & He & Ev & Hz) Hl Hn HQ. unfold lock_release_channel. do 4 wp_step; [done|]. wp_step. apply HQ; [|done].
  unfold channel_ok, disk_contents. simpl. by rewrite Ev.
Qed.
Lemma wp_ide_read s c Q : channel_ok c → 0 ≤ s < ata_capacity dev →
  (∀ c', channel_ok c' → (∀ i, disk_contents c' i = disk_contents c i) → Q (disk_contents c s) c') →
  wp (ide_read chan_no dev_no s) c Q.
Proof using Hdev Hpresent.
  intros Hc Hs HQ. apply (wp_start s _ (BusyRead (halves (disk_contents c s)))); [done|done|by left|].
  intros v c1 Es Ed Hw Hl.
  apply (wp_pio_in v (disk_contents c s)); [done|by apply Hc|by rewrite Es|]. intros c2 Hr [Hl2 _].
  wp_step. apply (wp_unlock v); [done|congruence|rewrite Ed; apply Hc|]. intros c3 Hok E3. wp_step. apply HQ; [done|].
  intros i. unfold disk_contents. by rewrite E3, <-Ed.
Qed.
Lemma wp_ide_write s l c (Q : unit → C → Prop) : channel_ok c → 0 ≤ s < ata_capacity dev → length l = 512%nat →
  (∀ c', channel_ok c' → (∀ i, disk_contents c' i = if decide (i = s) then l else disk_contents c i) → Q tt c') →
  wp (ide_write chan_no dev_no s l) c Q.
Proof using Hdev Hpresent.
  intros Hc Hs Hlen HQ. apply (wp_start s _ (BusyWrite s)); [done|done|by right|]. intros v c1 Es Ed Hw Hl.
  destruct (halves_bytes l 256 Hlen) as [Eb El].
  wp_step. apply (wp_busy_wait_working v (BusyWrite s) 2999); [done|done|by rewrite Es|done|lia|]. intros c2 Hr2 [F2 _].
  cbn [finished data_request negb]. wp_step. unfold output_sector.
  change (Z.to_nat (BLOCK_SECTOR_SIZE / 2)) with 256%nat. rewrite <-El, <-Eb at 1.
  apply (wp_outsw v s []); [done|by destruct (halves l)|by rewrite El|]. intros c3 Hw3 [F3 _]. rewrite app_nil_l, Eb in Hw3.
  wp_step. eapply (wp_sema_down _ Commit 2999); [done|done|exact Hw3|unfold patience; lia|]. intros c4 Hr4 [F4 _].
  assert (∀ i, write_disk (selected v) s l (a_disk v) dev i = if decide (i = s) then l else disk_contents c i) as Hd.
  { intros i. unfold write_disk, disk_contents. rewrite Es, Ed.
    destruct (decide (i = s)) as [->|]; [by rewrite decide_True|by rewrite decide_False by naive_solver]. }
  eapply wp_unlock; [exact Hr4|congruence| |].
  - intros i Hi. simpl. rewrite Hd. destruct (decide _); [done|by apply Hc].
  - intros c5 Hok E5. apply HQ; [done|]. intros i. rewrite <-Hd. unfold disk_contents. by rewrite E5.
Qed.
Lemma ide_laws : driver_laws (ide_operations chan_no dev_no) (ata_capacity dev) channel_ok disk_contents.
Proof using Hdev Hpresent.
  split.
  - intros c s Hc Hs. apply wp_ide_read; [done|done|]. intros c' Hc' Hi. auto.
  - intros c s l Hc Hs Hl. unfold BLOCK_SECTOR_SIZE in Hl. apply wp_ide_write; [done|done|lia|]. auto.
  - intros c s Hc Hs. by rewrite (proj2 (proj2 (proj2 (proj2 (proj2 Hc))))).
Qed.
(** C12: On every controller that behaves as [ATA-3] says, whenever its commands end and
    its interrupts arrive, reading a sector through ide.c returns what was last written
    to it, and writing a sector changes that sector only: the driver keeps the promise
    that block.c and the file system rely on, and so do the partitions of the disk.  No
    call hangs or panics, and the lock, the semaphore and the controller are ready for
    the next one. *)
Theorem ide_driver_laws :
  driver_laws (ide_operations chan_no dev_no) (ata_capacity dev) channel_ok disk_contents ∧
  ∀ start psize, 0 ≤ start → 0 ≤ psize → start + psize ≤ ata_capacity dev →
    driver_laws (partition_operations (ide_operations chan_no dev_no) start) psize
      (λ b, block_ok (ata_capacity dev) channel_ok b ∧ start + psize ≤ block_size b)
      (λ b i, disk_contents (aux b) (start + i)).
Proof using Hdev Hpresent.
  split; [apply ide_laws|]. intros start psize Hs Hp Hn. pose proof (ata_capacity_range dev).
  apply partition_laws; [apply ide_laws|lia..].
Qed.

(** ** Identification *)

Lemma wp_select_device_wait v c (Q : unit → C → Prop) : ata_idle v c →
  (∀ h', ata_view h' = set_reg 6 (Z.lor DEV_MBS (dev_bit dev_no)) v → Q tt (set_hw h' c)) →
  wp (select_device_wait chan_no dev_no) c Q.
Proof.
  intros Hc HQ. unfold select_device_wait. wp_step. apply (wp_wait_until_idle _ v); [done|]. intros h1 E1.
  wp_step. apply (wp_select_device _ v); [by eauto with ata|]. intros h2 E2.
  eapply wp_wait_until_idle; [by eauto with ata|]. intros h3 E3. by apply HQ.
Qed.
(** The identification of a disk gives it the capacity of bytes 120 to 123 of its
    answer, and rejects it from 1 GB on; the contents of the disks do not change and
    the channel is ready for the next command. *)
Theorem identify_ata_device_correct c : channel_ok c → is_ata c !! dev_no = Some true →
  let capacity := word (ata_identity dev) 120 in
  wp (identify_ata_device chan_no dev_no) c (λ r c', channel_ok c' ∧
    r = (if 2 ^ 21 <=? capacity then None else Some capacity) ∧
    is_ata c' = (if 2 ^ 21 <=? capacity then <[dev_no := false]> (is_ata c) else is_ata c) ∧
    ∀ i, disk_contents c' i = disk_contents c i).
Proof using Hdev Hpresent.
  intros (Hl & Hz & Ho & Hp & Hi & Hn) Ha capacity. unfold identify_ata_device. do 2 wp_step.
  do 2 wp_step; [by apply bool_decide_eq_true|]. wp_step. set (v0 := ata_view (hw c)) in *.
  apply (wp_select_device_wait v0); [done|]. intros h1 E1. set (v := set_reg 6 _ v0) in *.
  assert (selected v = dev) as Es by (unfold v, selected; simpl; unfold dev_bit; by destruct dev).
  wp_step. apply (wp_issue_pio_command _ v (BusyRead (halves (ata_identity dev)))); [done|done|done|done|by rewrite Es|rewrite Es; by left|].
  intros c1 Hw [F1 F1']. apply (wp_pio_in v (ata_identity dev)); [done|apply ata_identity_length|by rewrite Es|].
  intros c2 (Ho2 & He2 & Ev2 & Hz2) [F2 F2']. assert (channel_ok c2) as Hok.
  { unfold channel_ok, disk_contents. rewrite Ev2. simpl in *. rewrite F2, F1. auto 10. }
  change (1024 * 1024 * 1024 / BLOCK_SECTOR_SIZE) with (2 ^ 21). change (Z.to_nat (60 * 2)) with 120%nat.
  change (60 * 2)%nat with 120%nat. fold capacity. simpl in F1', F2'. destruct (2 ^ 21 <=? capacity); repeat wp_step.
  - split; [done|]. split; [done|]. simpl. split; [by rewrite F2', F1'|]. intros i. unfold disk_contents. simpl. by rewrite Ev2.
  - split; [done|]. split; [done|]. split; [by rewrite F2', F1'|]. intros i. unfold disk_contents. by rewrite Ev2.
Qed.
End device.
End driver.

(** *** The strings of a disk *)

Lemma swap_pairs_length l : length (swap_pairs l) = length l.
Proof.
  induction l as [l IH] using (induction_ltof1 _ (@length Z)). unfold ltof in IH.
  destruct l as [|a [|b l]]; simpl in *; [done|done|]. rewrite IH; simpl; lia.
Qed.
Lemma swap_pairs_involutive l : swap_pairs (swap_pairs l) = l.
Proof.
  induction l as [l IH] using (induction_ltof1 _ (@length Z)). unfold ltof in IH.
  destruct l as [|a [|b l]]; simpl in *; [done|done|]. by rewrite IH by (simpl; lia).
Qed.
Definition visible (c : Z) : bool := negb (c =? 0) && negb (isspace c).
Lemma last_char_name l c n m : last l = Some c → visible c = true → (n ≤ m)%nat →
  last_char (l ++ replicate m 32) (length l + n) = length l.
Proof.
  intros Hl Hc Hn. rewrite last_lookup in Hl. induction n as [|n IH].
  - destruct l as [|a l] using rev_ind; [done|]. rewrite length_app, Nat.add_1_r, Nat.add_0_r in *. cbn [last_char].
    rewrite lookup_app_l by (rewrite length_app; simpl; lia). simpl in Hl. rewrite Hl. simpl. unfold visible in Hc. by rewrite Hc.
  - rewrite Nat.add_succ_r. cbn [last_char]. rewrite lookup_app_r, lookup_replicate_2 by lia. simpl. apply IH. lia.
Qed.
(** A name that a disk returns in the ATA format, with the bytes of each pair swapped
    and padded with spaces, is what descramble_ata_string () leaves as a string, if the
    name ends in a visible character and is shorter than its field. *)
Theorem descramble_ata_string_roundtrip l c (size : nat) : last l = Some c → visible c = true → (length l < size)%nat →
  let field := swap_pairs (l ++ replicate (size - length l) 32) in
  length field = size ∧ take (length l + 1) (descramble_ata_string field size) = l ++ [0].
Proof.
  intros Hl Hc Hs field.
  assert (length field = size) as Hf by (unfold field; rewrite swap_pairs_length, length_app, length_replicate; lia).
  split; [done|]. unfold descramble_ata_string. rewrite (take_ge field), (drop_ge field), app_nil_r by lia.
  unfold field at 1 2. rewrite swap_pairs_involutive.
  replace (size - 1)%nat with (length l + (size - 1 - length l))%nat by lia.
  rewrite (last_char_name l c) by (done || lia).
  rewrite insert_app_r_alt, Nat.sub_diag by lia. rewrite take_app_add.
  destruct (size - length l)%nat eqn:E; [lia|]. done.
Qed.

(** ** A simulated controller *)

(** One disk of four sectors; every command takes three sleeps. *)
Record sim := mk_sim { s_view : ata; s_delay : nat }.
Definition sim_status (v : ata) : Z :=
  if selected v then 0 else if busy (a_phase v) then STA_BSY else if data_request (a_phase v) then STA_DRDY + STA_DRQ else STA_DRDY.
Definition sim_identity : list Z := replicate 120 0 ++ [4; 0; 0; 0] ++ replicate 388 0.
Definition sim_command (x : Z) (v : ata) : ata :=
  if x =? CMD_IDENTIFY_DEVICE then with_phase (BusyRead (halves sim_identity)) (a_irq v) v
  else if x =? CMD_READ_SECTOR_RETRY then with_phase (BusyRead (halves (a_disk v (selected v) (lba v)))) (a_irq v) v
  else if x =? CMD_WRITE_SECTOR_RETRY then with_phase (BusyWrite (lba v)) (a_irq v) v
  else v.
#[local] Instance sim_ops : AtaOps sim := {
  ata_inb port h :=
    let v := s_view h in
    let k := port - 0x1f0 in
    (if (k =? 7) || (k =? 0x206) then sim_status v
     else if k =? 1 then 1 else if k =? 2 then a_nsect v else if k =? 3 then a_lbal v else 0,
     mk_sim (with_phase (a_phase v) (a_irq v && negb (k =? 7)) v) (s_delay h));
  ata_outb port x h :=
    let k := port - 0x1f0 in
    if k =? 7 then mk_sim (sim_command x (s_view h)) 3
    else if (2 <=? k) && (k <=? 6) then mk_sim (set_reg k x (s_view h)) (s_delay h) else h;
  ata_inw port h :=
    match a_phase (s_view h) with
    | DataIn (w :: ws) => (w, mk_sim (with_phase (rest_in ws) (a_irq (s_view h)) (s_view h)) (s_delay h))
    | _ => ((0, 0), h)
    end;
  ata_outw port w h := mk_sim (take_word w (s_view h)) 3;
  ata_sleep h :=
    match s_delay h with
    | O => mk_sim (finish (s_view h)) O
    | S d => mk_sim (s_view h) d
    end;
  ata_irq h := a_irq (s_view h);
}.
Lemma with_phase_id v : with_phase (a_phase v) (a_irq v) v = v.
Proof. by destruct v. Qed.
#[local, refine] Instance sim_ata : Ata sim 0 := {
  ata_view := s_view; ata_delay := s_delay; ata_present d := negb d; ata_capacity _ := 4; ata_identity _ := sim_identity }.
Proof.
  - done.
  - intros k h Hk. simpl. exists (s_view h). split; [by left|]. change (channel_base 0) with 0x1f0.
    replace (0x1f0 + k - 0x1f0) with k by lia. split; [done|]. split; [|done]. intros Hk' Hs.
    replace ((k =? 7) || (k =? 518)) with true by lia. unfold sim_status, status_ok.
    destruct (selected (s_view h)); [done|]. by destruct (a_phase (s_view h)).
  - intros k x h Hk Hx Hp. simpl. change (channel_base 0) with 0x1f0. replace (0x1f0 + k - 0x1f0) with k by lia.
    replace (k =? 7) with false by lia. by replace ((2 <=? k) && (k <=? 6)) with true by lia.
  - intros x h v h' Hp Hs p Hc. unfold v, h' in *. simpl. change (channel_base 0 + 7 - 496 =? 7) with true. simpl. split; [left|lia].
    unfold sim_command. by destruct Hc as [[-> ->]|[[[-> ->]|[-> ->]] _]].
  - intros h w ws Hp. simpl. rewrite Hp. by destruct ws.
  - intros h w s ws Hp h'. simpl. split; [by left|lia].
  - intros h. simpl. destruct (s_delay h) as [|d]; simpl.
    + split; [by right|]. by rewrite finished_not_busy.
    + split; [by left|lia].
  - done.
  - done.
Defined.
Definition sim_disk : channel sim :=
  mk_channel (mk_sim (mk_ata 0 0 0 0 0xa0 Idle false (λ _ s, replicate 512 s)) 0) false false 0 [true; false] true.
Lemma sim_disk_ok : channel_ok (chan_no := 0) 0 sim_disk.
Proof. do 5 (split; [reflexivity|]). intros s _. apply length_replicate. Qed.
(** A partition of two sectors, and a command through the whole driver. *)
Lemma ide_driver_laws_witness :
  (∃ ok, driver_laws (partition_operations (ide_operations 0 0) 1) 2 ok
    (λ b i, disk_contents (chan_no := 0) 0 (aux b) (1 + i))) ∧
  match (ide_write 0 0 2 (replicate 512 77);; ide_read 0 0 2) sim_disk with
  | Ok (l, _) => l = replicate 512 77
  | _ => False
  end.
Proof.
  split.
  - eexists. exact (proj2 (ide_driver_laws (chan_no := 0) 0 ltac:(lia) eq_refl) 1 2 ltac:(lia) ltac:(lia) ltac:(simpl; lia)).
  - vm_compute. reflexivity.
Defined.
Lemma identify_ata_device_correct_witness :
  wp (identify_ata_device 0 0) sim_disk (λ r c', r = Some 4 ∧ is_ata c' = [true; false]).
Proof.
  eapply wp_mono; [apply (identify_ata_device_correct (chan_no := 0) 0 ltac:(lia) eq_refl sim_disk sim_disk_ok eq_refl)|].
  intros r c' (_ & Hr & Ha & _). split; [exact Hr|exact Ha].
Defined.
Lemma descramble_ata_string_roundtrip_witness :
  take 5 (descramble_ata_string [69; 81; 85; 77; 32; 32; 32; 32] 8) = [81; 69; 77; 85; 0].
Proof. exact (proj2 (descramble_ata_string_roundtrip [81; 69; 77; 85] 85 8 eq_refl eq_refl ltac:(simpl; lia))). Defined.
