(* ===== verification/Inode.v ===== *)
(** * Inodes, files and the free map: filesys/inode.c, file.c, free-map.c

    The state of the file system module is one record.  struct inode, struct file
    and struct dir live in finite maps from their addresses: an address that is
    not in the map is a null or dangling pointer, and following it is a fault.
    open_inodes is the list of the addresses in it, first element first.

    malloc and calloc return a fresh address or, as [outcomes] says, a null
    pointer; the theorems about malloc.c justify the former.  [junk] is what a
    fresh block holds before it is written.

    off_t is int.  Sums and differences of offsets and sizes are not wrapped:
    the functions that call inode_read_at and inode_write_at keep them far from
    2^31.  Divisions truncate as in C.

    free_map_allocate writes the free map's file, that is, calls inode_write_at,
    which calls free_map_allocate when it is past the end of the inode.  The
    argument [nest] bounds the depth of this recursion; a write that stays within
    the file never gets there. *)

From S2P Require Import Prelude Bitmap Block.
Local Open Scope Z_scope.

Definition NULL : Z := 0.
Definition FREE_MAP_SECTOR : Z := 0.
Definition ROOT_DIR_SECTOR : Z := 1.
Definition INODE_MAGIC : Z := 0x494e4f44.

(** struct inode_disk *)
Record inode_disk := mk_disk { start : Z; data_length : Z; magic : Z; sectors : list Z }.
(** struct inode, without its list element *)
Record inode := mk_inode {
  sector : Z; open_cnt : Z; removed : bool; deny_write_cnt : Z; data : inode_disk; is_dir : Z;
}.
(** struct file *)
Record file := mk_file { f_inode : Z; f_pos : Z; f_deny_write : bool }.
(** struct dir; [dir_name] is None for a null pointer *)
Record dir := mk_dir { empty : bool; d_inode : Z; d_pos : Z; dir_name : option (list Z) }.
Inductive sector_loc := DIRECT | INDIRECT | DOUBLY_INDIRECT.

Record fs (D : Type) := mk_fs {
  fs_device : D;
  open_inodes : list Z;
  inodes : gmap Z inode;
  files : gmap Z file;
  dirs : gmap Z dir;
  free_map : bitmap;
  free_map_file : Z;
  location : sector_loc;
  outcomes : list bool;
  next_block : Z;
  junk : Z → Z;
}.
Arguments mk_fs {D} _ _ _ _ _ _ _ _ _ _ _.
Arguments fs_device {D} _.
Arguments open_inodes {D} _.
Arguments inodes {D} _.
Arguments files {D} _.
Arguments dirs {D} _.
Arguments free_map {D} _.
Arguments free_map_file {D} _.
Arguments location {D} _.
Arguments outcomes {D} _.
Arguments next_block {D} _.
Arguments junk {D} _ _.

(** The on-disk form of an inode: 128 words, little endian. *)
Definition disk_bytes (d : inode_disk) : list Z :=
  bytes_of (start d :: u32 (data_length d) :: magic d :: sectors d).
Definition disk_of (bs : list Z) : inode_disk :=
  match words_of bs with
  | s :: l :: m :: ss => mk_disk s (s32 l) m ss
  | _ => mk_disk 0 0 0 []
  end.

Definition bytes_to_sectors (size : Z) : Z :=
  u32 (s32 (size + BLOCK_SECTOR_SIZE - 1) `quot` BLOCK_SECTOR_SIZE).
Definition divide_up (size : Z) : Z := (size + (BLOCK_SECTOR_SIZE - 1)) `quot` BLOCK_SECTOR_SIZE.

Section inode.
Context {D : Type} `{!BlockOps D}.
Notation F := (fs D).
Implicit Types (s : F).

Definition with_device (d : D) s : F :=
  mk_fs d (open_inodes s) (inodes s) (files s) (dirs s) (free_map s) (free_map_file s) (location s)
    (outcomes s) (next_block s) (junk s).
Definition with_inodes (l : list Z) (m : gmap Z inode) s : F :=
  mk_fs (fs_device s) l m (files s) (dirs s) (free_map s) (free_map_file s) (location s)
    (outcomes s) (next_block s) (junk s).
Definition with_files (m : gmap Z file) s : F :=
  mk_fs (fs_device s) (open_inodes s) (inodes s) m (dirs s) (free_map s) (free_map_file s) (location s)
    (outcomes s) (next_block s) (junk s).
Definition with_dirs (m : gmap Z dir) s : F :=
  mk_fs (fs_device s) (open_inodes s) (inodes s) (files s) m (free_map s) (free_map_file s) (location s)
    (outcomes s) (next_block s) (junk s).
Definition with_free_map (b : bitmap) s : F :=
  mk_fs (fs_device s) (open_inodes s) (inodes s) (files s) (dirs s) b (free_map_file s) (location s)
    (outcomes s) (next_block s) (junk s).
Definition with_free_map_file (f : Z) s : F :=
  mk_fs (fs_device s) (open_inodes s) (inodes s) (files s) (dirs s) (free_map s) f (location s)
    (outcomes s) (next_block s) (junk s).
Definition with_location (l : sector_loc) s : F :=
  mk_fs (fs_device s) (open_inodes s) (inodes s) (files s) (dirs s) (free_map s) (free_map_file s) l
    (outcomes s) (next_block s) (junk s).
Definition with_heap (l : list bool) (n : Z) s : F :=
  mk_fs (fs_device s) (open_inodes s) (inodes s) (files s) (dirs s) (free_map s) (free_map_file s)
    (location s) l n (junk s).

(** malloc or calloc of one object. *)
Definition alloc : M F Z := λ s,
  match outcomes s with
  | false :: l => Ok (NULL, with_heap l (next_block s) s)
  | l => Ok (next_block s, with_heap (tail l) (next_block s + 1) s)
  end.

Definition get_inode (p : Z) : M F inode := s ← get; from_option (inodes s !! p).
Definition set_inode (p : Z) (i : inode) : M F unit :=
  modify (λ s, with_inodes (open_inodes s) (<[p := i]> (inodes s)) s).
Definition with_data (d : inode_disk) (i : inode) : inode :=
  mk_inode (sector i) (open_cnt i) (removed i) (deny_write_cnt i) d (is_dir i).
Definition with_counts (o w : Z) (i : inode) : inode :=
  mk_inode (sector i) o (removed i) w (data i) (is_dir i).

Definition read_sector (n : Z) : M F (list Z) := zoom fs_device with_device (dev_read n).
Definition write_sector (n : Z) (buf : list Z) : M F unit := zoom fs_device with_device (dev_write n buf).
Definition set_location (l : sector_loc) : M F unit := modify (with_location l).

(** An array element; an index out of range is a fault. *)
Definition elem (l : list Z) (i : Z) : M F Z :=
  if i <? 0 then fault else from_option (l !! Z.to_nat i).

Definition byte_to_sector (p pos : Z) : M F Z :=
  assert (negb (p =? NULL));;
  i ← get_inode p;
  let spot := pos `quot` BLOCK_SECTOR_SIZE in
  if (0 <=? spot) && (spot <=? 122) then
    set_location DIRECT;;
    elem (sectors (data i)) spot
  else if (122 <? spot) && (spot <=? 250) then
    let indir := spot - 122 in
    sec ← elem (sectors (data i)) 123;
    temp_indir ← read_sector sec;
    set_location INDIRECT;;
    elem (words_of temp_indir) indir
  else if 250 <? spot then
    let first_spot := (spot - (122 + 128)) `quot` 128 in
    let second_spot := (spot - (122 + 128)) - 128 * first_spot in
    sec ← elem (sectors (data i)) 124;
    temp_indir1 ← read_sector sec;
    sec2 ← elem (sectors (data i)) first_spot;
    temp_indir2 ← read_sector sec2;
    set_location DOUBLY_INDIRECT;;
    elem (words_of temp_indir2) second_spot
  else mret (u32 (-1)).

Definition inode_init : M F unit := modify (λ s, with_inodes [] (inodes s) s).

Definition inode_length (p : Z) : M F Z := i ← get_inode p; mret (data_length (data i)).

(** ** Reading *)

(** The loop of inode_read_at.  [bounce] says whether the bounce buffer has been
    allocated, [out] is what has been stored in BUFFER so far.  The result is the
    return value with the bytes stored: returning 0 leaves them in place. *)
Fixpoint read_loop (fuel : nat) (p size offset bytes_read : Z) (bounce : bool) (out : list Z) :
    M F (Z * list Z) :=
  match fuel with
  | O => nofuel
  | S fuel =>
    if negb (0 <? size) then mret (bytes_read, out)
    else
      sector_idx ← byte_to_sector p offset;
      i ← get_inode p;
      if data_length (data i) <=? offset then mret (0, out)
      else
        let sector_ofs := offset `rem` BLOCK_SECTOR_SIZE in
        inode_len ← inode_length p;
        let inode_left := inode_len - offset in
        let sector_left := BLOCK_SECTOR_SIZE - sector_ofs in
        let min_left := if inode_left <? sector_left then inode_left else sector_left in
        let chunk_size := if size <? min_left then size else min_left in
        if chunk_size <=? 0 then mret (bytes_read, out)
        else
          let advance buf bounce := read_loop fuel p (size - chunk_size) (offset + chunk_size)
                                      (bytes_read + chunk_size) bounce (out ++ buf) in
          if (sector_ofs =? 0) && (chunk_size =? BLOCK_SECTOR_SIZE) then
            buf ← read_sector sector_idx; advance buf bounce
          else
            b ← (if bounce then mret true else a ← alloc; mret (negb (a =? NULL)));
            if negb b then mret (bytes_read, out)
            else
              buf ← read_sector sector_idx;
              if sector_ofs <? 0 then fault
              else advance (take (Z.to_nat chunk_size) (drop (Z.to_nat sector_ofs) buf)) true
  end.
(** Every iteration but the last reads at least one byte. *)
Definition inode_read_at (p size offset : Z) : M F (Z * list Z) :=
  read_loop (S (Z.to_nat size)) p size offset 0 false [].

(** ** Writing *)

Section write.
(** bitmap_write (free_map, free_map_file) *)
Context (write_map : M F bool).

(** The allocated sector, which goes to *SECTORP; None when it returns false. *)
Definition free_map_allocate_ (cnt : Z) : M F (option Z) :=
  sec ← zoom free_map with_free_map (bitmap_scan_and_flip 0 (u32 cnt) false);
  s ← get;
  sec ← (if negb (sec =? BITMAP_ERROR) && negb (free_map_file s =? NULL) then
           ok ← write_map;
           if ok : bool then mret sec
           else zoom free_map with_free_map (bitmap_set_multiple sec (u32 cnt) false);;
                mret BITMAP_ERROR
         else mret sec);
  mret (if sec =? BITMAP_ERROR then None else Some sec).

(** disk_inode is zeroed memory but for its length and magic, so the third
    argument of the call of free_map_allocate is a null pointer, or read past the
    array. *)
Fixpoint write_loop (fuel : nat) (p : Z) (buffer : list Z) (size offset bytes_written : Z)
    (bounce : bool) : M F Z :=
  match fuel with
  | O => nofuel
  | S fuel =>
    if negb (0 <? size) then mret bytes_written
    else
      sector_idx ← byte_to_sector p offset;
      let sector_ofs := offset `rem` BLOCK_SECTOR_SIZE in
      inode_len ← inode_length p;
      let inode_left := inode_len - offset in
      let sector_left := BLOCK_SECTOR_SIZE - sector_ofs in
      let min_left := if inode_left <? sector_left then inode_left else sector_left in
      let chunk_size := if size <? min_left then size else min_left in
      (if chunk_size <=? 0 then
         let remaining_size := size - bytes_written in
         let sectors_to_alloc := divide_up remaining_size in
         if 125 <=? sector_idx then fault
         else
           r ← free_map_allocate_ sectors_to_alloc;
           match r with Some _ => fault | None => mret tt end
       else mret tt);;
      let chunk := take (Z.to_nat chunk_size) (drop (Z.to_nat bytes_written) buffer) in
      let advance bounce := write_loop fuel p buffer (size - chunk_size) (offset + chunk_size)
                              (bytes_written + chunk_size) bounce in
      if (sector_ofs =? 0) && (chunk_size =? BLOCK_SECTOR_SIZE) then
        (if Z.of_nat (length chunk) =? chunk_size then mret tt else fault);;
        write_sector sector_idx chunk;;
        advance bounce
      else
        b ← (if bounce then mret true else a ← alloc; mret (negb (a =? NULL)));
        if negb b then mret bytes_written
        else
          old ← (if (0 <? sector_ofs) || (chunk_size <? sector_left) then read_sector sector_idx
                 else mret (replicate (Z.to_nat BLOCK_SECTOR_SIZE) 0));
          (if (0 <=? sector_ofs) && (Z.of_nat (length chunk) =? chunk_size) then mret tt else fault);;
          write_sector sector_idx (take (Z.to_nat sector_ofs) old ++ chunk ++
                                   drop (Z.to_nat (sector_ofs + chunk_size)) old);;
          advance true
  end.
Definition inode_write_at_ (p : Z) (buffer : list Z) (size offset : Z) : M F Z :=
  disk_inode ← alloc;
  (if disk_inode =? NULL then fault else mret tt);;
  i ← get_inode p;
  if negb (deny_write_cnt i =? 0) then mret 0
  else write_loop (S (Z.to_nat size)) p buffer size offset 0 false.
End write.

Definition get_file (f : Z) : M F file := s ← get; from_option (files s !! f).
Definition set_file (p : Z) (f : file) : M F unit := modify (λ s, with_files (<[p := f]> (files s)) s).

(** bitmap_write (free_map, free_map_file), whose call of file_write_at is a call
    of inode_write_at. *)
Fixpoint write_free_map (nest : nat) : M F bool :=
  match nest with
  | O => nofuel
  | S nest =>
    s ← get;
    f ← get_file (free_map_file s);
    let size := s32 (byte_cnt (bit_cnt (free_map s))) in
    n ← inode_write_at_ (write_free_map nest) (f_inode f)
          (take (Z.to_nat size) (bytes_of (bits (free_map s)))) size 0;
    zoom free_map with_free_map (bitmap_write (λ _ _, n))
  end.

Definition free_map_allocate (nest : nat) : Z → M F (option Z) :=
  free_map_allocate_ (write_free_map nest).
Definition inode_write_at (nest : nat) : Z → list Z → Z → Z → M F Z :=
  inode_write_at_ (write_free_map nest).
Definition free_map_release (nest : nat) (sec cnt : Z) : M F unit :=
  zoom free_map with_free_map (assertM (bitmap_all sec cnt));;
  zoom free_map with_free_map (bitmap_set_multiple sec cnt false);;
  write_free_map nest;;
  mret tt.

(** ** Creating, opening and closing inodes *)

Definition zeros : list Z := replicate (Z.to_nat BLOCK_SECTOR_SIZE) 0.
Definition set_sector (i sec : Z) (d : inode_disk) : inode_disk :=
  mk_disk (start d) (data_length d) (magic d) (<[Z.to_nat i := sec]> (sectors d)).
(** free_map_allocate (1, &disk_inode->sectors[i]) *)
Definition allocate_in (nest : nat) (i : Z) (d : inode_disk) : M F (bool * inode_disk) :=
  r ← free_map_allocate nest 1;
  match r with
  | None => mret (false, d)
  | Some sec => if i <? 125 then mret (true, set_sector i sec d) else fault
  end.
(** The loop over an indirect block.  INDIRECT is a sector number used as an
    address: it points to page 0 or a few pages above, where nothing is mapped, so
    that the first allocation that succeeds faults when it stores its result. *)
Fixpoint indirect_loop (nest n : nat) : M F unit :=
  match n with
  | O => mret tt
  | S n => r ← free_map_allocate nest 1;
           match r with Some _ => fault | None => indirect_loop nest n end
  end.
Fixpoint create_loop (nest : nat) (sec_save : nat) (i sec : Z) (d : inode_disk) : M F bool :=
  match sec_save with
  | O => mret true
  | S sec_save =>
    let next d := write_sector sec (disk_bytes d);; create_loop nest sec_save (i + 1) sec d in
    '(a1, d) ← allocate_in nest i d;
    if a1 && (i <? 123) then
      n ← elem (sectors d) i;
      write_sector n zeros;;
      next d
    else
      '(a2, d) ← allocate_in nest i d;
      if a2 && (i =? 123) then indirect_loop nest 128;; next d
      else
        '(a3, d) ← allocate_in nest i d;
        if a3 && (i =? 124) then fault
        else mret false
  end.
Definition inode_create (nest : nat) (sec len : Z) : M F bool :=
  assert (0 <=? len);;
  disk_inode ← alloc;
  if disk_inode =? NULL then mret true
  else
    let n := bytes_to_sectors len in
    let d := mk_disk 0 len INODE_MAGIC (replicate 125 0) in
    write_sector sec (disk_bytes d);;
    create_loop nest (Z.to_nat n) 0 sec d.

Definition inode_reopen (p : Z) : M F Z :=
  if p =? NULL then mret p
  else i ← get_inode p; set_inode p (with_counts (open_cnt i + 1) (deny_write_cnt i) i);; mret p.
Fixpoint open_search (l : list Z) (sec : Z) : M F (option Z) :=
  match l with
  | [] => mret None
  | p :: l => i ← get_inode p; if sector i =? sec then mret (Some p) else open_search l sec
  end.
Definition inode_open (sec : Z) : M F Z :=
  l ← gets open_inodes;
  found ← open_search l sec;
  match found with
  | Some p => inode_reopen p
  | None =>
    p ← alloc;
    if p =? NULL then mret NULL
    else
      buf ← read_sector sec;
      modify (λ s, with_inodes (p :: open_inodes s)
        (<[p := mk_inode sec 1 false 0 (disk_of buf) (junk s p)]> (inodes s)) s);;
      mret p
  end.
Definition inode_get_inumber (p : Z) : M F Z := i ← get_inode p; mret (sector i).

(** list_remove of an element that is not in the list fails its assertion. *)
Definition list_remove_inode (p : Z) : M F unit :=
  s ← get;
  assert (bool_decide (p ∈ open_inodes s));;
  put (with_inodes (filter (λ q, q ≠ p) (open_inodes s)) (inodes s) s).
Definition inode_close (nest : nat) (p : Z) : M F unit :=
  if p =? NULL then mret tt
  else
    i ← get_inode p;
    let i := with_counts (open_cnt i - 1) (deny_write_cnt i) i in
    set_inode p i;;
    if open_cnt i =? 0 then
      list_remove_inode p;;
      (if removed i then
         free_map_release nest (sector i) 1;;
         free_map_release nest (start (data i)) (bytes_to_sectors (data_length (data i)))
       else mret tt);;
      modify (λ s, with_inodes (open_inodes s) (delete p (inodes s)) s)
    else mret tt.
Definition inode_remove (p : Z) : M F unit :=
  assert (negb (p =? NULL));;
  i ← get_inode p;
  let d := data i in
  set_inode p (mk_inode (sector i) (open_cnt i) true (deny_write_cnt i)
    (mk_disk (start d) 0 (magic d) (sectors d)) (is_dir i)).
Definition inode_deny_write (p : Z) : M F unit :=
  i ← get_inode p;
  set_inode p (with_counts (open_cnt i) (deny_write_cnt i + 1) i);;
  assert (deny_write_cnt i + 1 <=? open_cnt i).
Definition inode_allow_write (p : Z) : M F unit :=
  i ← get_inode p;
  assert (0 <? deny_write_cnt i);;
  assert (deny_write_cnt i <=? open_cnt i);;
  set_inode p (with_counts (open_cnt i) (deny_write_cnt i - 1) i).

(** ** Files *)

Definition free_file (f : Z) : M F unit := modify (λ s, with_files (delete f (files s)) s).
Definition file_open (nest : nat) (p : Z) : M F Z :=
  f ← alloc;
  if negb (p =? NULL) && negb (f =? NULL) then set_file f (mk_file p 0 false);; mret f
  else inode_close nest p;; free_file f;; mret NULL.
Definition file_reopen (nest : nat) (f : Z) : M F Z :=
  x ← get_file f; p ← inode_reopen (f_inode x); file_open nest p.
Definition file_allow_write (f : Z) : M F unit :=
  assert (negb (f =? NULL));;
  x ← get_file f;
  if f_deny_write x then
    set_file f (mk_file (f_inode x) (f_pos x) false);;
    inode_allow_write (f_inode x)
  else mret tt.
Definition file_deny_write (f : Z) : M F unit :=
  assert (negb (f =? NULL));;
  x ← get_file f;
  if negb (f_deny_write x) then
    set_file f (mk_file (f_inode x) (f_pos x) true);;
    inode_deny_write (f_inode x)
  else mret tt.
Definition file_close (nest : nat) (f : Z) : M F unit :=
  if negb (f =? NULL) then
    file_allow_write f;;
    x ← get_file f;
    inode_close nest (f_inode x);;
    free_file f
  else mret tt.
Definition file_get_inode (f : Z) : M F Z := x ← get_file f; mret (f_inode x).
Definition file_read (f size : Z) : M F (Z * list Z) :=
  x ← get_file f;
  '(n, out) ← inode_read_at (f_inode x) size (f_pos x);
  set_file f (mk_file (f_inode x) (f_pos x + n) (f_deny_write x));;
  mret (n, out).
Definition file_read_at (f size ofs : Z) : M F (Z * list Z) :=
  x ← get_file f; inode_read_at (f_inode x) size ofs.
Definition file_write (nest : nat) (f : Z) (buffer : list Z) (size : Z) : M F Z :=
  x ← get_file f;
  n ← inode_write_at nest (f_inode x) buffer size (f_pos x);
  set_file f (mk_file (f_inode x) (f_pos x + n) (f_deny_write x));;
  mret n.
Definition file_write_at (nest : nat) (f : Z) (buffer : list Z) (size ofs : Z) : M F Z :=
  x ← get_file f; inode_write_at nest (f_inode x) buffer size ofs.
Definition file_length (f : Z) : M F Z :=
  assert (negb (f =? NULL));; x ← get_file f; inode_length (f_inode x).
Definition file_seek (f new_pos : Z) : M F unit :=
  assert (negb (f =? NULL));;
  assert (0 <=? new_pos);;
  x ← get_file f;
  set_file f (mk_file (f_inode x) new_pos (f_deny_write x)).
Definition file_tell (f : Z) : M F Z :=
  assert (negb (f =? NULL));; x ← get_file f; mret (f_pos x).

(** ** The free map *)

(** bitmap_create: two allocations, the second for the array, whose old contents
    are the junk of its block. *)
Definition free_map_init : M F unit :=
  s ← get;
  let cnt := dev_size (fs_device s) in
  b ← alloc;
  a ← (if b =? NULL then mret NULL else alloc);
  match bitmap_create (negb (b =? NULL))
          (if a =? NULL then None else Some (junk s <$> seqZ a (elem_cnt cnt))) cnt with
  | Ok (Some m) =>
    modify (with_free_map m);;
    zoom free_map with_free_map (bitmap_mark FREE_MAP_SECTOR);;
    zoom free_map with_free_map (bitmap_mark ROOT_DIR_SECTOR)
  | Ok None => panic
  | Panic => panic
  | Fault => fault
  | Fuel => nofuel
  end.
Definition free_map_open (nest : nat) : M F unit :=
  p ← inode_open FREE_MAP_SECTOR;
  f ← file_open nest p;
  modify (with_free_map_file f);;
  (if f =? NULL then panic else mret tt);;
  s ← get;
  '(_, out) ← file_read_at f (s32 (byte_cnt (bit_cnt (free_map s)))) 0;
  ok ← zoom free_map with_free_map (bitmap_read (λ _ _, out));
  if ok : bool then mret tt else panic.
Definition free_map_close (nest : nat) : M F unit := f ← gets free_map_file; file_close nest f.
Definition free_map_create (nest : nat) : M F unit :=
  bfs ← zoom free_map with_free_map bitmap_file_size;
  ok ← inode_create nest FREE_MAP_SECTOR (s32 bfs);
  (if ok : bool then mret tt else panic);;
  opened ← inode_open FREE_MAP_SECTOR;
  f ← file_open nest opened;
  modify (with_free_map_file f);;
  (if f =? NULL then panic else mret tt);;
  ok ← write_free_map nest;
  if ok : bool then mret tt else panic.
End inode.
