(* ===== verification/InodeInv.v ===== *)
(** * The contents of files

    [file_ok] says that an open inode is a file of direct sectors, [content] what
    its bytes are on the disk, and [frame] that a step of the file system changed
    nothing but some sectors.  The lemmas run inode_read_at and inode_write_at. *)

From S2P Require Import Prelude Bitmap Block Inode.
Local Open Scope Z_scope.
Local Ltac Zify.zify_post_hook ::= Z.to_euclidean_division_equations.

(** The bytes that the direct sectors of an inode hold. *)
Definition DIRECT_BYTES : Z := 123 * 512.

Section contents.
Context {D : Type} `{BlockDevice D}.
Notation F := (fs D).
Implicit Types (s : F) (i : inode).

Definition disk s : Z → list Z := dev_contents (fs_device s).
Definition len i : Z := data_length (data i).
Definition sector_of i (k : Z) : Z := default 0 (sectors (data i) !! Z.to_nat k).
(** The data sectors of a file. *)
Definition owned i (n : Z) : Prop := ∃ k, 0 ≤ k ∧ 512 * k < len i ∧ sector_of i k = n.

Record file_ok s (p : Z) i : Prop := {
  fo_inode : inodes s !! p = Some i;
  fo_null : p ≠ NULL;
  fo_len : 0 ≤ len i ≤ DIRECT_BYTES;
  fo_sectors : length (sectors (data i)) = 125%nat;
  fo_range k : 0 ≤ k → 512 * k < len i → 0 ≤ sector_of i k < dev_size (fs_device s);
  fo_inj k k' : 0 ≤ k → 512 * k < len i → 0 ≤ k' → 512 * k' < len i →
    sector_of i k = sector_of i k' → k = k';
}.

(** The bytes of a file. *)
Definition content_at s i (pos : Z) : Z :=
  default 0 (disk s (sector_of i (pos / 512)) !! Z.to_nat (pos mod 512)).
Definition content s i (pos n : Z) : list Z := content_at s i <$> seqZ pos n.

(** A step that changes at most the sectors in [X], besides the free map. *)
Record frame (X : Z → Prop) s s' : Prop := {
  fr_ok : dev_ok (fs_device s');
  fr_size : dev_size (fs_device s') = dev_size (fs_device s);
  fr_disk n : 0 ≤ n < dev_size (fs_device s) → ¬ X n → disk s' n = disk s n;
  fr_open : open_inodes s' = open_inodes s;
  fr_inodes : inodes s' = inodes s;
  fr_files : files s' = files s;
  fr_dirs : dirs s' = dirs s;
  fr_map_file : free_map_file s' = free_map_file s;
  fr_outcomes : outcomes s' = outcomes s;
  fr_next : next_block s ≤ next_block s';
  fr_junk : junk s' = junk s;
}.
Definition none : Z → Prop := λ _, False.

Lemma frame_refl X s : dev_ok (fs_device s) → frame X s s.
Proof. by split. Qed.
Lemma frame_trans X s1 s2 s3 : frame X s1 s2 → frame X s2 s3 → frame X s1 s3.
Proof.
  intros [? Es Hd] [? Es' Hd']; split; try congruence; try lia.
  intros n Hn HX. rewrite Hd' by (done || lia). by apply Hd.
Qed.
Lemma frame_weaken (X Y : Z → Prop) s s' : (∀ n, X n → Y n) → frame X s s' → frame Y s s'.
Proof. intros HXY []; split; auto. Qed.
Lemma frame_none X s s' : frame none s s' → frame X s s'.
Proof. by apply frame_weaken. Qed.

Lemma file_ok_frame X s s' p i : frame X s s' → file_ok s p i → file_ok s' p i.
Proof. intros [? Es _ _ Ei] []; split; try done; [by rewrite Ei|by rewrite Es]. Qed.

Lemma content_at_frame X s s' p i pos :
  frame X s s' → file_ok s p i → (∀ n, owned i n → ¬ X n) → 0 ≤ pos < len i →
  content_at s' i pos = content_at s i pos.
Proof.
  intros Hf Hok HX Hpos. unfold content_at. rewrite (fr_disk _ _ _ Hf); [done| |].
  - apply (fo_range _ _ _ Hok); lia.
  - apply HX. exists (pos / 512). split_and!; [lia..|done].
Qed.
Lemma content_frame X s s' p i pos n :
  frame X s s' → file_ok s p i → (∀ n, owned i n → ¬ X n) → 0 ≤ pos → pos + n ≤ len i →
  content s' i pos n = content s i pos n.
Proof.
  intros Hf Hok HX Hpos Hn. unfold content. apply list_fmap_ext. intros k x Hk.
  apply lookup_seqZ in Hk. eapply content_at_frame; [done..|]. lia.
Qed.

Lemma content_length s i pos n : length (content s i pos n) = Z.to_nat n.
Proof. unfold content. by rewrite length_fmap, length_seqZ. Qed.
Lemma content_app s i pos n m :
  0 ≤ n → 0 ≤ m → content s i pos (n + m) = content s i pos n ++ content s i (pos + n) m.
Proof. intros. unfold content. by rewrite seqZ_app, fmap_app. Qed.
Lemma content_nil s i pos n : n ≤ 0 → content s i pos n = [].
Proof. intros. unfold content. by rewrite seqZ_nil. Qed.
Lemma content_lookup s i pos n j :
  0 ≤ j < n → content s i pos n !! Z.to_nat j = Some (content_at s i (pos + j)).
Proof.
  intros Hj. unfold content. rewrite list_lookup_fmap, lookup_seqZ_lt by lia. simpl. do 2 f_equal. lia.
Qed.

(** A piece of a sector is a piece of the file. *)
Lemma sector_content s p i pos n :
  file_ok s p i → dev_ok (fs_device s) → 0 ≤ pos → 0 ≤ n → pos mod 512 + n ≤ 512 → pos < len i →
  take (Z.to_nat n) (drop (Z.to_nat (pos mod 512)) (disk s (sector_of i (pos / 512)))) = content s i pos n.
Proof.
  intros Hok Hd Hpos Hn Hle Hlt.
  assert (Z.of_nat (length (disk s (sector_of i (pos / 512)))) = 512) as Hl.
  { apply dev_length; [done|]. apply (fo_range _ _ _ Hok); lia. }
  apply list_eq_same_length with (n := Z.to_nat n).
  { by rewrite content_length. }
  { rewrite length_take, length_drop. lia. }
  intros j x y Hj. rewrite lookup_take_lt, lookup_drop by lia.
  replace j with (Z.to_nat (Z.of_nat j)) at 2 by lia. rewrite content_lookup by lia.
  unfold content_at. replace ((pos + Z.of_nat j) / 512) with (pos / 512) by lia.
  replace (Z.to_nat ((pos + Z.of_nat j) mod 512)) with (Z.to_nat (pos mod 512) + j)%nat by lia.
  intros -> [= <-]. done.
Qed.

(** ** One access to a sector *)

Lemma wp_read_sector s n Q :
  dev_ok (fs_device s) → 0 ≤ n < dev_size (fs_device s) →
  (∀ s', frame none s s' → free_map s' = free_map s → Q (disk s n) s') → wp (read_sector n) s Q.
Proof.
  intros Hok Hn HQ. unfold read_sector. apply wp_zoom.
  eapply wp_mono; [by apply dev_read_law|]. simpl. intros buf d' (-> & Hok' & Hs & Hc).
  apply HQ; [|done]. split; try done. intros k Hk _. by apply Hc.
Qed.

Lemma wp_write_sector s n buf Q :
  dev_ok (fs_device s) → 0 ≤ n < dev_size (fs_device s) → Z.of_nat (length buf) = 512 →
  (∀ s', frame (λ k, k = n) s s' → free_map s' = free_map s → disk s' n = buf → Q tt s') →
  wp (write_sector n buf) s Q.
Proof.
  intros Hok Hn Hl HQ. unfold write_sector. apply wp_zoom.
  eapply wp_mono; [by apply dev_write_law|]. simpl. intros [] d' (Hok' & Hs & Hc).
  apply HQ; [|done|].
  - split; try done. intros k Hk Hne. unfold disk; simpl. by rewrite Hc, decide_False.
  - unfold disk; simpl. by rewrite Hc, decide_True.
Qed.

Lemma wp_alloc s Q :
  outcomes s = [] → dev_ok (fs_device s) →
  (∀ s', frame none s s' → free_map s' = free_map s → next_block s' = next_block s + 1 →
     Q (next_block s) s') →
  wp alloc s Q.
Proof.
  intros Ho Hok HQ. unfold wp, alloc. rewrite Ho. apply HQ; [|done..].
  split; try done. simpl. lia.
Qed.

Lemma wp_get_inode s p i Q : inodes s !! p = Some i → Q i s → wp (get_inode p) s Q.
Proof. intros E HQ. unfold get_inode. do 2 wp_step. by apply (wp_from_option _ i). Qed.
Lemma wp_inode_length s p i Q : inodes s !! p = Some i → Q (len i) s → wp (inode_length p) s Q.
Proof. intros E HQ. unfold inode_length. wp_step. by apply (wp_get_inode _ _ i). Qed.

Lemma wp_byte_to_sector s p i pos Q :
  file_ok s p i → dev_ok (fs_device s) → 0 ≤ pos < DIRECT_BYTES →
  (∀ s', frame none s s' → free_map s' = free_map s → Q (sector_of i (pos / 512)) s') →
  wp (byte_to_sector p pos) s Q.
Proof.
  unfold DIRECT_BYTES. intros Hok Hd Hpos HQ. unfold byte_to_sector. wp_step. wp_step.
  { by rewrite (proj2 (Z.eqb_neq _ _)) by apply Hok. }
  wp_step. apply (wp_get_inode _ _ i); [apply Hok|]. unfold BLOCK_SECTOR_SIZE.
  rewrite !(proj2 (Z.leb_le _ _)) by lia. simpl andb. cbv iota. wp_step. unfold set_location. wp_step. unfold elem.
  rewrite (proj2 (Z.ltb_ge _ _)) by lia.
  destruct (lookup_lt_is_Some_2 (sectors (data i)) (Z.to_nat (pos `quot` 512))) as [x Hx].
  { rewrite (fo_sectors _ _ _ Hok). lia. }
  apply (wp_from_option _ x); [done|]. replace x with (sector_of i (pos / 512)).
  - apply HQ; [|done]. by split.
  - unfold sector_of. by rewrite <-Z.quot_div_nonneg, Hx by lia.
Qed.

(** The bounce buffer, when there is memory. *)
Definition heap_ok s : Prop := outcomes s = [] ∧ 0 < next_block s.
Lemma heap_ok_frame X s s' : frame X s s' → heap_ok s → heap_ok s'.
Proof. intros [] [? ?]. split; [congruence|lia]. Qed.

Lemma wp_bounce (bounce : bool) s Q :
  heap_ok s → dev_ok (fs_device s) →
  (∀ s', frame none s s' → free_map s' = free_map s → Q true s') →
  wp (if bounce then mret true else a ← alloc; mret (negb (a =? NULL))) s Q.
Proof.
  intros [Ho Hn] Hd HQ. destruct bounce; [wp_step; apply HQ; [by apply frame_refl|done]|].
  wp_step. apply wp_alloc; [done..|]. intros s' F' M' _. wp_step.
  rewrite (proj2 (Z.eqb_neq _ _)) by (unfold NULL; lia). by apply HQ.
Qed.

(** ** Reading *)

Lemma content_none s s' p i pos n :
  frame none s s' → file_ok s p i → 0 ≤ pos → pos + n ≤ len i → content s' i pos n = content s i pos n.
Proof. intros. eapply content_frame; [done|done|by intros ? ? []|done|done]. Qed.

(** The value of the loop: a read that ends within the file, and one that does
    not. *)
Definition read_result s i (size offset got : Z) (out : list Z) : Z * list Z :=
  if decide (size = 0 ∨ offset + size ≤ len i) then (got + size, out ++ content s i offset size)
  else (0, out ++ content s i offset (len i - offset)).

Lemma read_result_step s s' p i size offset got out c :
  frame none s s' → file_ok s p i → 0 ≤ offset → 0 < c ≤ size → offset + c ≤ len i →
  read_result s' i (size - c) (offset + c) (got + c) (out ++ content s i offset c) =
  read_result s i size offset got out.
Proof.
  intros Hf Hok Ho Hc Hle. unfold read_result. rewrite <-!app_assoc.
  destruct (decide (size = 0 ∨ offset + size ≤ len i)) as [Hin|Hout].
  - rewrite decide_True by lia. f_equal; [lia|]. f_equal.
    rewrite (content_none s s' p) by (done || lia). rewrite <-content_app by lia. f_equal. lia.
  - rewrite decide_False by lia. rewrite (content_none s s' p) by (done || lia).
    rewrite <-content_app by lia. do 3 f_equal. lia.
Qed.

Lemma chunk_bounds (size left ofs : Z) :
  let min_left := if left <? 512 - ofs then left else 512 - ofs in
  let chunk := if size <? min_left then size else min_left in
  chunk = Z.min size (Z.min left (512 - ofs)).
Proof. simpl. destruct (Z.ltb_spec left (512 - ofs)), (Z.ltb_spec size left), (Z.ltb_spec size (512 - ofs)); lia. Qed.

Lemma wp_read_loop fuel p i size offset got bounce out s Q :
  file_ok s p i → dev_ok (fs_device s) → heap_ok s → 0 ≤ size → 0 ≤ offset →
  size = 0 ∨ offset + size ≤ len i ∨ offset < DIRECT_BYTES ∧ len i < DIRECT_BYTES →
  (Z.to_nat size < fuel)%nat →
  (∀ s', frame none s s' → free_map s' = free_map s → Q (read_result s i size offset got out) s') →
  wp (read_loop fuel p size offset got bounce out) s Q.
Proof.
  revert size offset got bounce out s Q. induction fuel as [|fuel IH]; [lia|].
  intros size offset got bounce out s Q Hok Hd Ho Hsz Hof Hcase Hfuel HQ. cbn [read_loop].
  destruct (Z.ltb_spec 0 size) as [Hpos|Hnp]; cbn [negb].
  2: { assert (size = 0) as -> by lia. wp_step. specialize (HQ s). unfold read_result in HQ.
       rewrite decide_True, content_nil, app_nil_r, Z.add_0_r in HQ by lia. apply HQ; [by apply frame_refl|done]. }
  pose proof (fo_len _ _ _ Hok) as Hlen. wp_step.
  apply (wp_byte_to_sector _ _ i); [done|done|lia|]. intros s1 F1 M1. wp_step.
  pose proof (file_ok_frame _ _ _ _ _ F1 Hok) as Hok1. apply (wp_get_inode _ _ i); [apply Hok1|].
  change (data_length (data i)) with (len i). destruct (Z.leb_spec (len i) offset) as [Hpast|Hin].
  { wp_step. specialize (HQ s1 F1 M1). unfold read_result in HQ. rewrite decide_False in HQ by lia.
    by rewrite content_nil, app_nil_r in HQ by lia. }
  unfold BLOCK_SECTOR_SIZE. wp_step. apply (wp_inode_length _ _ i); [apply Hok1|].
  pose proof (chunk_bounds size (len i - offset) (offset `rem` 512)) as Hc. cbv zeta in *. rewrite Hc.
  clear Hc. set (c := Z.min _ _). assert (offset `rem` 512 = offset mod 512) as Erem by lia.
  assert (0 < c ≤ size ∧ offset + c ≤ len i ∧ offset mod 512 + c ≤ 512) as (Hc1 & Hc2 & Hc3) by lia.
  rewrite (proj2 (Z.leb_gt c 0)) by lia.
  assert (0 ≤ sector_of i (offset / 512) < dev_size (fs_device s)) as Hsec by (apply (fo_range _ _ _ Hok); lia).
  assert (∀ s2 b, frame none s s2 → free_map s2 = free_map s →
    wp (read_loop fuel p (size - c) (offset + c) (got + c) b (out ++ content s i offset c)) s2 Q) as Hnext.
  { intros s2 b F2 M2. apply IH; [by eapply file_ok_frame|apply F2|by eapply heap_ok_frame|lia..|].
    intros s' F' M'. erewrite read_result_step by (done || lia).
    apply HQ; [by eapply frame_trans|congruence]. }
  assert (∀ s2, frame none s s2 → free_map s2 = free_map s →
    ∀ Q' : list Z → F → Prop, (∀ s3, frame none s s3 → free_map s3 = free_map s →
       Q' (disk s (sector_of i (offset / 512))) s3) →
    wp (read_sector (sector_of i (offset / 512))) s2 Q') as Hread.
  { intros s2 F2 M2 Q' HQ'. apply wp_read_sector; [apply F2|by rewrite (fr_size _ _ _ F2)|].
    intros s3 F3 M3. rewrite (fr_disk _ _ _ F2) by (done || auto).
    apply HQ'; [by eapply frame_trans|congruence]. }
  pose proof (sector_content s p i offset c Hok Hd Hof ltac:(lia) Hc3 Hin) as Ebuf.
  clearbody c. rewrite Erem, (proj2 (Z.ltb_ge (offset mod 512) 0)) by lia.
  match goal with |- wp (if _ then _ else ?m) _ _ => assert (wp m s1 Q) as Hbounce end.
  { wp_step. apply wp_bounce; [by eapply heap_ok_frame|apply F1|]. intros s2 F2 M2. cbn [negb]. wp_step.
    apply Hread; [by eapply frame_trans|congruence|]. intros s3 F3 M3. rewrite Ebuf. by apply Hnext. }
  destruct (Z.eqb_spec (offset mod 512) 0) as [E0|E0]; [|done].
  destruct (Z.eqb_spec c 512) as [Ec|Ec]; [|done]. simpl andb. cbv iota.
  wp_step. apply Hread; [done..|]. intros s3 F3 M3. rewrite E0, drop_0, take_ge in Ebuf.
  - rewrite Ebuf. by apply Hnext.
  - assert (Z.of_nat (length (disk s (sector_of i (offset / 512)))) = 512) by by apply dev_length. lia.
Qed.

(** ** Writing *)

(** [size] bytes of [buf] from [got] on are at [offset] of the file; the rest of
    the file and all sectors of others are as before. *)
Record written i (buf : list Z) (size offset got : Z) s s' : Prop := {
  wr_frame : frame (owned i) s s';
  wr_map : free_map s' = free_map s;
  wr_content pos : 0 ≤ pos < len i → content_at s' i pos =
    if decide (offset ≤ pos < offset + size) then default 0 (buf !! Z.to_nat (got + (pos - offset)))
    else content_at s i pos;
}.

(** Replacing a piece of a list. *)
Lemma splice_lookup (old chunk : list Z) (o j : Z) :
  0 ≤ o → o + Z.of_nat (length chunk) ≤ Z.of_nat (length old) → 0 ≤ j →
  (take (Z.to_nat o) old ++ chunk ++ drop (Z.to_nat (o + Z.of_nat (length chunk))) old) !! Z.to_nat j =
  if decide (o ≤ j < o + Z.of_nat (length chunk)) then chunk !! Z.to_nat (j - o) else old !! Z.to_nat j.
Proof.
  intros Ho Hle Hj. destruct (decide (j < o)).
  - rewrite lookup_app_l by (rewrite length_take; lia). rewrite lookup_take_lt by lia.
    by rewrite decide_False by lia.
  - rewrite lookup_app_r by (rewrite length_take; lia). rewrite length_take, Nat.min_l by lia.
    case_decide.
    + rewrite lookup_app_l by lia. f_equal. lia.
    + rewrite lookup_app_r by lia. rewrite lookup_drop. f_equal. lia.
Qed.

(** One sector of the file gets new bytes from [o] on. *)
Lemma write_one s s1 s2 p i offset c buf got :
  file_ok s p i → dev_ok (fs_device s) → 0 ≤ offset → 0 < c → offset mod 512 + c ≤ 512 →
  offset + c ≤ len i → 0 ≤ got → got + c ≤ Z.of_nat (length buf) →
  frame none s s1 → free_map s1 = free_map s →
  frame (λ n, n = sector_of i (offset / 512)) s1 s2 → free_map s2 = free_map s1 →
  disk s2 (sector_of i (offset / 512)) =
    (let old := disk s (sector_of i (offset / 512)) in
     take (Z.to_nat (offset mod 512)) old ++ take (Z.to_nat c) (drop (Z.to_nat got) buf) ++
     drop (Z.to_nat (offset mod 512 + c)) old) →
  written i buf c offset got s s2.
Proof.
  intros Hok Hd Ho Hc Hm Hle Hg Hb F1 M1 F2 M2 E. cbv zeta in E.
  assert (0 ≤ offset / 512 ∧ 512 * (offset / 512) < len i) as [Hk Hk'] by lia.
  pose proof (fo_range _ _ _ Hok _ Hk Hk') as Hr.
  assert (Z.of_nat (length (disk s (sector_of i (offset / 512)))) = 512) as Hl by by apply dev_length.
  set (chunk := take _ (drop _ buf)) in E. assert (Z.of_nat (length chunk) = c) as Ec.
  { unfold chunk. rewrite length_take, length_drop. lia. }
  split; [|congruence|].
  - eapply frame_trans; [by apply frame_none|]. eapply frame_weaken; [|done].
    intros n ->. by exists (offset / 512).
  - intros pos Hpos. unfold content_at.
    destruct (decide (pos / 512 = offset / 512)) as [Ep|Ep].
    + rewrite Ep, E, <-Ec, splice_lookup by lia. rewrite Ec.
      assert (pos mod 512 - offset mod 512 = pos - offset) as Ed by lia.
      destruct (decide (offset ≤ pos < offset + c)); [rewrite decide_True by lia|by rewrite decide_False by lia].
      unfold chunk. rewrite lookup_take_lt, lookup_drop by lia. do 2 f_equal. lia.
    + rewrite decide_False by lia. rewrite (fr_disk _ _ _ F2), (fr_disk _ _ _ F1); [done| | | |].
      * apply (fo_range _ _ _ Hok); lia.
      * by intros [].
      * rewrite (fr_size _ _ _ F1). apply (fo_range _ _ _ Hok); lia.
      * intros Es. apply Ep. apply (fo_inj _ _ _ Hok) in Es; lia.
Qed.

Lemma written_trans i buf c size offset got s s1 s2 :
  0 ≤ c ≤ size → 0 ≤ offset → written i buf c offset got s s1 →
  written i buf (size - c) (offset + c) (got + c) s1 s2 → written i buf size offset got s s2.
Proof.
  intros Hc Ho [F1 M1 C1] [F2 M2 C2]. split; [by eapply frame_trans|congruence|].
  intros pos Hpos. rewrite C2, C1 by done.
  destruct (decide (offset + c ≤ pos < offset + c + (size - c))).
  - rewrite decide_True by lia. do 3 f_equal. lia.
  - destruct (decide (offset ≤ pos < offset + c)); [by rewrite decide_True by lia|by rewrite decide_False by lia].
Qed.

Lemma wp_write_loop wm fuel p i buf size offset got bounce s Q :
  file_ok s p i → dev_ok (fs_device s) → heap_ok s → 0 ≤ size → 0 ≤ offset → offset + size ≤ len i →
  0 ≤ got → got + size ≤ Z.of_nat (length buf) → (Z.to_nat size < fuel)%nat →
  (∀ s', written i buf size offset got s s' → Q (got + size) s') →
  wp (write_loop wm fuel p buf size offset got bounce) s Q.
Proof.
  revert size offset got bounce s Q. induction fuel as [|fuel IH]; [lia|].
  intros size offset got bounce s Q Hok Hd Hh Hsz Hof Hle Hg Hb Hfuel HQ. cbn [write_loop].
  destruct (Z.ltb_spec 0 size) as [Hpos|Hnp]; cbn [negb].
  2: { assert (size = 0) as -> by lia. wp_step. replace got with (got + 0) by lia. apply HQ.
       split; [by apply frame_refl|done|]. intros pos Hp. by rewrite decide_False by lia. }
  pose proof (fo_len _ _ _ Hok) as Hlen. wp_step.
  apply (wp_byte_to_sector _ _ i); [done|done|lia|]. intros s1 F1 M1. wp_step.
  pose proof (file_ok_frame _ _ _ _ _ F1 Hok) as Hok1. unfold BLOCK_SECTOR_SIZE.
  apply (wp_inode_length _ _ i); [apply Hok1|].
  pose proof (chunk_bounds size (len i - offset) (offset `rem` 512)) as Hc. cbv zeta in *. rewrite Hc.
  clear Hc. set (c := Z.min _ _). assert (offset `rem` 512 = offset mod 512) as Erem by lia.
  assert (0 < c ≤ size ∧ offset + c ≤ len i ∧ offset mod 512 + c ≤ 512) as (Hc1 & Hc2 & Hc3) by lia.
  rewrite (proj2 (Z.leb_gt c 0)) by lia. do 2 wp_step. clearbody c. rewrite !Erem. clear Erem.
  assert (0 ≤ sector_of i (offset / 512) < dev_size (fs_device s)) as Hsec by (apply (fo_range _ _ _ Hok); lia).
  assert (Z.of_nat (length (disk s (sector_of i (offset / 512)))) = 512) as Hl by by apply dev_length.
  assert (Z.of_nat (length (take (Z.to_nat c) (drop (Z.to_nat got) buf))) = c) as Hch.
  { rewrite length_take, length_drop. lia. }
  rewrite (proj2 (Z.eqb_eq (Z.of_nat (length (take _ (drop _ buf)))) c)) by done.
  assert (∀ s2 b, written i buf c offset got s s2 →
    wp (write_loop wm fuel p buf (size - c) (offset + c) (got + c) b) s2 Q) as Hnext.
  { intros s2 b W2. pose proof (wr_frame _ _ _ _ _ _ _ W2) as F2.
    apply IH; [by eapply file_ok_frame|apply F2|by eapply heap_ok_frame|lia..|].
    intros s' W'. replace (got + c + (size - c)) with (got + size) by lia. apply HQ.
    eapply written_trans; [|done|done|done]. lia. }
  match goal with |- wp (if _ then _ else ?m) _ _ =>
    assert (offset mod 512 ≠ 0 ∨ c ≠ 512 → wp m s1 Q) as Hbounce end.
  { intros Hne. wp_step. apply wp_bounce; [by eapply heap_ok_frame|apply F1|]. intros s2 F2 M2. cbn [negb]. wp_step.
    rewrite (proj2 (orb_true_iff _ _)) by (rewrite !Z.ltb_lt; lia).
    pose proof (frame_trans _ _ _ _ F1 F2) as F02.
    apply wp_read_sector; [apply F2|by rewrite (fr_size _ _ _ F02)|]. intros s3 F3 M3.
    pose proof (frame_trans _ _ _ _ F02 F3) as F03. rewrite (fr_disk _ _ _ F02) by (done || by intros []).
    wp_step. rewrite (proj2 (Z.leb_le _ _)) by lia. cbn [andb]. wp_step. wp_step.
    apply wp_write_sector; [apply F3|by rewrite (fr_size _ _ _ F03)| |].
    { rewrite !length_app, !length_take, !length_drop. lia. }
    intros s4 F4 M4 E4. apply Hnext. eapply (write_one s s3 s4); [done|done|lia..|done|congruence|done|done|done]. }
  destruct (Z.eqb_spec (offset mod 512) 0) as [E0|E0]; [|apply Hbounce; lia].
  destruct (Z.eqb_spec c 512) as [Ec|Ec]; [|apply Hbounce; lia]. simpl andb. cbv iota.
  do 2 wp_step. wp_step. apply wp_write_sector; [apply F1|by rewrite (fr_size _ _ _ F1)|lia|].
  intros s2 F2 M2 E2. apply Hnext. eapply write_one; [done|done|lia..|done|done|done|done|]. cbv zeta.
  rewrite E2, E0, (drop_ge (disk _ _)) by lia. simpl. by rewrite app_nil_r.
Qed.

(** ** Invariants of all runs

    [keeps P m]: every run of [m] that returns keeps [P].  [Stable P]: so do the
    steps that do not touch the structs. *)
Definition keeps (P : F → Prop) {A} (m : M F A) : Prop := ∀ s, P s → wlp m s (λ _, P).
End contents.

Class Stable {D} `{!BlockOps D} (P : fs D → Prop) := {
  stable_device d s : P s → P (with_device d s);
  stable_map b s : P s → P (with_free_map b s);
  stable_location l s : P s → P (with_location l s);
  stable_alloc : keeps P alloc;
}.

Section keeps.
Context {D : Type} `{!BlockOps D}.
Notation F := (fs D).
Context (P : F → Prop).

Lemma fs_keeps_bind {A B} (m : M F A) (k : A → M F B) :
  keeps P m → (∀ a, keeps P (k a)) → keeps P (m ≫= k).
Proof. intros Hm Hk s Hs. wlp_step. eapply wlp_mono; [by apply Hm|]. intros a s' Hs'. by apply Hk. Qed.
Lemma fs_keeps_ret {A} (a : A) : keeps P (mret a).
Proof. intros s Hs. by wlp_step. Qed.
Lemma fs_keeps_get : keeps P get.
Proof. intros s Hs. by wlp_step. Qed.
Lemma fs_keeps_gets {A} (f : F → A) : keeps P (gets f).
Proof. intros s Hs. by wlp_step. Qed.
Lemma fs_keeps_fault {A} : keeps P (fault : M F A).
Proof. done. Qed.
Lemma fs_keeps_option {A} (o : option A) : keeps P (from_option o).
Proof. intros s Hs. by wlp_step. Qed.
Lemma fs_keeps_assert b : keeps P (assert b).
Proof. intros s Hs. by wlp_step. Qed.
Lemma fs_keeps_get_inode p : keeps P (get_inode p).
Proof. intros s Hs. unfold get_inode. do 2 wlp_step. by wlp_step. Qed.
Lemma fs_keeps_get_file p : keeps P (get_file p).
Proof. intros s Hs. unfold get_file. do 2 wlp_step. by wlp_step. Qed.
Lemma fs_keeps_elem l k : keeps P (elem l k).
Proof. unfold elem. case_match; [apply fs_keeps_fault|apply fs_keeps_option]. Qed.

Context `{!Stable P}.
Lemma fs_keeps_device {A} (m : M D A) : keeps P (zoom fs_device with_device m).
Proof.
  intros s Hs a s'. unfold zoom. destruct (m _) as [[]| | |]; [|done..]. intros [= _ <-]. by apply stable_device.
Qed.
Lemma fs_keeps_map {A} (m : M bitmap A) : keeps P (zoom free_map with_free_map m).
Proof.
  intros s Hs a s'. unfold zoom. destruct (m _) as [[]| | |]; [|done..]. intros [= _ <-]. by apply stable_map.
Qed.
Lemma fs_keeps_location l : keeps P (set_location l).
Proof. intros s Hs. unfold set_location. wlp_step. by apply stable_location. Qed.
End keeps.

(** Chains the lemmas above through a program. *)
Create HintDb fs_keeps discriminated.
#[export] Hint Resolve fs_keeps_ret fs_keeps_get fs_keeps_gets fs_keeps_fault fs_keeps_option fs_keeps_device fs_keeps_map
  fs_keeps_location fs_keeps_assert fs_keeps_get_inode fs_keeps_get_file stable_alloc fs_keeps_elem : fs_keeps.
Ltac fs_keeps_solve :=
  cbv zeta;
  repeat match goal with
  | |- keeps _ (mbind _ _) => apply fs_keeps_bind; [|intros ?]
  | |- keeps _ (match _ with _ => _ end) => case_match
  | |- keeps _ _ => solve [eauto with fs_keeps typeclass_instances]
  end.

Section fs_keeps_inode.
Context {D : Type} `{!BlockOps D}.
Notation F := (fs D).
Context (P : F → Prop) `{!Stable P}.

Lemma fs_keeps_byte_to_sector p pos : keeps P (byte_to_sector p pos).
Proof.
  unfold byte_to_sector, read_sector. fs_keeps_solve.
Qed.
Lemma fs_keeps_allocate wm cnt : keeps P wm → keeps P (free_map_allocate_ wm cnt).
Proof. intros Hw. unfold free_map_allocate_. fs_keeps_solve. Qed.
Lemma fs_keeps_write_loop wm fuel p buf size offset got b :
  keeps P wm → keeps P (write_loop wm fuel p buf size offset got b).
Proof.
  intros Hw. revert size offset got b. induction fuel as [|fuel IH]; intros size offset got b; [done|].
  pose proof fs_keeps_byte_to_sector. pose proof fs_keeps_allocate.
  cbn [write_loop]. unfold inode_length, read_sector, write_sector. fs_keeps_solve.
Qed.
Lemma fs_keeps_write_map nest : keeps P (write_free_map nest).
Proof.
  induction nest as [|nest IH]; [done|]. cbn [write_free_map]. unfold inode_write_at_.
  pose proof fs_keeps_write_loop. fs_keeps_solve.
Qed.
Lemma fs_keeps_read_loop fuel p size offset got b out : keeps P (read_loop fuel p size offset got b out).
Proof.
  revert size offset got b out. induction fuel as [|fuel IH]; intros size offset got b out; [done|].
  pose proof fs_keeps_byte_to_sector. cbn [read_loop]. unfold inode_length, read_sector. fs_keeps_solve.
Qed.

Lemma wlp_keeps {A} (m : M F A) s Q :
  keeps P m → P s → (∀ a s', P s' → Q a s') → wlp m s Q.
Proof. intros Hm Hs HQ. eapply wlp_mono; [by apply Hm|]. auto. Qed.
End fs_keeps_inode.
