(* ===== verification/FreeMap.v ===== *)
(** * Allocation of sectors: proofs about free-map.c and inode_create

    [map_ok]: the free map covers the device and, when its file is open, the file
    has room for it and its sectors are in use. *)

From S2P Require Import Prelude Bitmap Block Inode InodeInv.
Local Open Scope Z_scope.

Section free_map.
Context {D : Type} `{BlockDevice D}.
Notation F := (fs D).
Implicit Types (s : F) (i : inode).

(** The free map's open file and its inode. *)
Definition map_inode s (p : Z) i : Prop :=
  free_map_file s ≠ NULL ∧ ∃ f, files s !! free_map_file s = Some f ∧ f_inode f = p ∧ inodes s !! p = Some i.
Definition map_sector s (n : Z) : Prop := ∃ p i, map_inode s p i ∧ owned i n.

Record map_ok s : Prop := {
  mo_dev : dev_ok (fs_device s);
  mo_exact : bitmap_exact (free_map s);
  mo_cnt : bit_cnt (free_map s) = dev_size (fs_device s);
  mo_file : free_map_file s ≠ NULL → ∃ p i, map_inode s p i ∧ file_ok s p i ∧ deny_write_cnt i = 0 ∧
    len i = byte_cnt (bit_cnt (free_map s)) ∧ ∀ n, owned i n → bit (free_map s) n = true;
}.
(** The file holds the map. *)
Definition map_saved s : Prop :=
  ∀ p i, map_inode s p i → content s i 0 (len i) = bytes_of (bits (free_map s)).

Lemma map_inode_frame X s s' p i : frame X s s' → map_inode s' p i ↔ map_inode s p i.
Proof. intros Hf. unfold map_inode. by rewrite (fr_map_file _ _ _ Hf), (fr_files _ _ _ Hf), (fr_inodes _ _ _ Hf). Qed.
Lemma map_inode_fun s p p' i i' : map_inode s p i → map_inode s p' i' → p = p' ∧ i = i'.
Proof.
  intros (_ & f & Ef & <- & Ei) (_ & f' & Ef' & <- & Ei'). rewrite Ef in Ef'. injection Ef' as <-.
  by rewrite Ei in Ei'; injection Ei' as <-.
Qed.

Lemma exact_bytes b : bitmap_exact b →
  s32 (byte_cnt (bit_cnt b)) = byte_cnt (bit_cnt b) ∧ 0 ≤ byte_cnt (bit_cnt b) ∧
  Z.of_nat (length (bytes_of (bits b))) = byte_cnt (bit_cnt b).
Proof.
  intros [? Hc Hl Ho]. destruct (elem_cnt_bounds _ Hc) as (? & ? & ?).
  rewrite swrap_small, bytes_of_length by lia. lia.
Qed.

Lemma map_sector_used s n : map_ok s → map_sector s n → bit (free_map s) n = true.
Proof.
  intros Hm (p & i & Hp & Hn). destruct (mo_file _ Hm) as (p' & i' & Hp' & _ & _ & _ & Hu); [apply Hp|].
  destruct (map_inode_fun _ _ _ _ _ Hp Hp') as [<- <-]. by apply Hu.
Qed.
Lemma map_sector_range s n : map_ok s → map_sector s n → 0 ≤ n < dev_size (fs_device s).
Proof.
  intros Hm (p & i & Hp & k & Hk & Hk' & <-). destruct (mo_file _ Hm) as (p' & i' & Hp' & Hok & _); [apply Hp|].
  destruct (map_inode_fun _ _ _ _ _ Hp Hp') as [<- <-]. by apply (fo_range _ _ _ Hok).
Qed.

(** [map_ok] after a step that may have set bits of the map. *)
Lemma map_ok_frame X s s' (P : Z → Prop) v :
  map_ok s → frame X s s' → updated P (λ _, v) (free_map s) (free_map s') →
  (∀ n, map_sector s n → P n → v = true) → (∀ n, P n ∨ ¬ P n) → map_ok s'.
Proof.
  intros Hm Hf Hu HP Hdec. pose proof (mo_exact _ Hm) as [Hwf Hc Hl Ho]. destruct Hu as [W C I O L]. split.
  - apply Hf.
  - split; rewrite ?C, ?L; done.
  - rewrite C, (fr_size _ _ _ Hf). apply Hm.
  - rewrite (fr_map_file _ _ _ Hf). intros Hn. destruct (mo_file _ Hm Hn) as (p & i & Hp & Hok & Hd & Hlen & Hbit).
    exists p, i. rewrite (map_inode_frame _ _ _ _ _ Hf), C. do 2 (split; [done || by eapply file_ok_frame|]).
    split; [done|]. split; [done|]. intros n Hn'. pose proof (Hbit n Hn') as Hb.
    assert (0 ≤ n) by (destruct Hn' as (k & ? & ? & <-); by apply (fo_range _ _ _ Hok)).
    destruct (Hdec n) as [HPn|HPn]; [|by rewrite O]. rewrite I by done. apply (HP n); [|done]. by exists p, i.
Qed.

Lemma updated_none b : bitmap_wf b → updated (λ _, False) (λ _, true) b b.
Proof. intros. by apply updated_refl. Qed.
Lemma map_ok_still X s s' : map_ok s → frame X s s' → free_map s' = free_map s → map_ok s'.
Proof.
  intros Hm Hf E. eapply (map_ok_frame X s s' (λ _, False) true); [done|done| |done|intros; right; tauto].
  rewrite E. apply updated_none, Hm.
Qed.

Lemma wp_inode_write_at wm p i buf size offset s Q :
  file_ok s p i → dev_ok (fs_device s) → heap_ok s → deny_write_cnt i = 0 →
  0 ≤ size → 0 ≤ offset → offset + size ≤ len i → size ≤ Z.of_nat (length buf) →
  (∀ s', written i buf size offset 0 s s' → Q size s') →
  wp (inode_write_at_ wm p buf size offset) s Q.
Proof.
  intros Hok Hd Hh Hdeny Hs Ho Hle Hb HQ. unfold inode_write_at_. wp_step.
  apply wp_alloc; [apply Hh|done|]. intros s1 F1 M1 _. pose proof (file_ok_frame _ _ _ _ _ F1 Hok) as Hok1.
  wp_step. rewrite (proj2 (Z.eqb_neq _ _)) by (unfold NULL; destruct Hh; lia). wp_step. wp_step.
  apply (wp_get_inode _ _ i); [apply Hok1|]. rewrite Hdeny. cbn [Z.eqb negb].
  apply (wp_write_loop _ _ _ i); [done|apply F1|by eapply heap_ok_frame|lia..|]. intros s' [F' M' C'].
  apply HQ. split; [by eapply frame_trans; [apply frame_none|]|congruence|].
  intros pos Hpos. rewrite C' by done. case_decide; [done|].
  eapply content_at_frame; [done|done|by intros ? ? []|done].
Qed.

Lemma wp_write_free_map nest s Q :
  map_ok s → heap_ok s → free_map_file s ≠ NULL →
  (∀ s', frame (map_sector s) s s' → free_map s' = free_map s → map_saved s' → Q true s') →
  wp (write_free_map (S nest)) s Q.
Proof.
  intros Hm Hh Hn HQ. destruct (mo_file _ Hm Hn) as (p & i & Hp & Hok & Hd & Hlen & Hbit).
  destruct (exact_bytes _ (mo_exact _ Hm)) as (Es & Hpos & Eb). cbn [write_free_map]. do 2 wp_step.
  wp_step. unfold get_file. do 2 wp_step. pose proof Hp as (_ & f & Ef & Efp & Ei).
  apply (wp_from_option _ f); [done|]. cbv zeta. rewrite Es, Efp, (take_ge (bytes_of _)) by lia. wp_step.
  apply (wp_inode_write_at _ _ i); [done|apply Hm|done|done|lia..|]. intros s' [F' M' C'].
  apply wp_zoom. unfold bitmap_write. do 3 wp_step. rewrite M', Es, Z.eqb_refl.
  assert (∀ st : F, with_free_map (free_map st) st = st) as Est by by intros [].
  rewrite <-M', Est. apply HQ; [|done|].
  - eapply frame_weaken; [|done]. intros n Hn'. by exists p, i.
  - intros p' i' Hp'. rewrite (map_inode_frame _ _ _ _ _ F') in Hp'.
    destruct (map_inode_fun _ _ _ _ _ Hp Hp') as [<- <-].
    apply list_eq_same_length with (n := Z.to_nat (len i)); [rewrite M'; lia|apply content_length|].
    intros j x y Hj. replace j with (Z.to_nat (Z.of_nat j)) by lia.
    rewrite content_lookup, C', decide_True by lia. rewrite M'. intros [= <-] Ey.
    replace (0 + (0 + Z.of_nat j - 0)) with (Z.of_nat j) by lia. by rewrite Ey.
Qed.

Lemma wp_free_map_allocate nest cnt s Q :
  map_ok s → heap_ok s → 0 < cnt < 2 ^ 32 →
  (∀ sec s', first_run (free_map s) 0 cnt false sec → frame (map_sector s) s s' →
     updated (λ j, sec ≤ j < sec + cnt) (λ _, true) (free_map s) (free_map s') →
     map_ok s' → map_saved s' → Q (Some sec) s') →
  (no_run (free_map s) 0 cnt false → Q None s) →
  wp (free_map_allocate (S nest) cnt) s Q.
Proof.
  intros Hm Hh Hc HQ HN. pose proof (mo_exact _ Hm) as Hex. pose proof (wf_cnt _ (ex_wf _ Hex)).
  unfold free_map_allocate, free_map_allocate_. rewrite wrap_small by lia. wp_step. apply wp_zoom.
  apply wp_bitmap_scan_and_flip; [apply Hex|lia|lia| |].
  - intros sec b' Hrun Hu. set (s1 := with_free_map b' s).
    pose proof Hrun as (Hr0 & Hr1 & Hr2 & _). do 2 wp_step.
    rewrite (proj2 (Z.eqb_neq sec BITMAP_ERROR)) by (unfold BITMAP_ERROR; lia). cbn [negb andb].
    assert (frame (map_sector s) s s1) as F1 by (split; try done; apply Hm).
    assert (map_ok s1) as Hm1 by (eapply (map_ok_frame _ s s1); [done|done|exact Hu|done|intros n; cbv beta; lia]).
    assert (∀ s', frame (map_sector s) s1 s' → free_map s' = b' → map_saved s' →
      wp (mret (if sec =? BITMAP_ERROR then None else Some sec)) s' Q) as Hdone.
    { intros s' F' M' S'. wp_step. rewrite (proj2 (Z.eqb_neq _ _)) by (unfold BITMAP_ERROR; lia).
      apply HQ; [done|by eapply frame_trans|by rewrite M'| |done]. by eapply map_ok_still. }
    wp_step. destruct (Z.eqb_spec (free_map_file s1) NULL) as [E|E]; cbn [negb].
    + wp_step. apply Hdone; [apply frame_refl, Hm1|done|]. intros p i (Hne & _). done.
    + wp_step. apply wp_write_free_map; [done|by eapply heap_ok_frame|done|]. intros s' F' M' S'. wp_step.
      apply Hdone; [|done|done]. eapply frame_weaken; [|done]. done.
  - intros Hno. do 2 wp_step. rewrite Z.eqb_refl. cbn [negb andb]. do 3 wp_step. rewrite Z.eqb_refl.
    replace (with_free_map (free_map s) s) with s by by destruct s. by apply HN.
Qed.

Lemma wp_free_map_release nest sec cnt s Q :
  map_ok s → heap_ok s → free_map_file s ≠ NULL → 0 ≤ sec → 0 ≤ cnt → sec + cnt ≤ bit_cnt (free_map s) →
  run (free_map s) sec cnt true → (∀ n, map_sector s n → ¬ (sec ≤ n < sec + cnt)) →
  (∀ s', frame (map_sector s) s s' →
     updated (λ j, sec ≤ j < sec + cnt) (λ _, false) (free_map s) (free_map s') → map_ok s' → Q tt s') →
  wp (free_map_release (S nest) sec cnt) s Q.
Proof.
  intros Hm Hh Hn Hs Hc Hle Hrun Hms HQ. pose proof (mo_exact _ Hm) as Hex.
  unfold free_map_release. wp_step. apply wp_zoom. unfold assertM, bitmap_all, notM. do 2 wp_step.
  apply wp_bitmap_contains; [apply Hex|lia..|]. intros r Hr. do 2 wp_step.
  { destruct r; [|done]. destruct (proj1 Hr eq_refl) as (j & Hj & Ej). by rewrite (Hrun j Hj) in Ej. }
  replace (with_free_map (free_map s) s) with s by by destruct s.
  wp_step. apply wp_zoom. apply wp_bitmap_set_multiple; [apply Hex|lia..|]. intros b' U.
  set (s1 := with_free_map b' s). assert (frame (map_sector s) s s1) as F1 by (split; try done; apply Hm).
  assert (map_ok s1) as Hm1.
  { eapply (map_ok_frame _ s s1); [done|done|exact U| |intros n; cbv beta; lia].
    intros n Hn1 Hn2. by destruct (Hms n Hn1). }
  wp_step. apply wp_write_free_map; [done|by eapply heap_ok_frame|done|]. intros s' F' M' _. wp_step.
  apply HQ; [by eapply frame_trans|by rewrite M'|by eapply map_ok_still].
Qed.

(** ** Creating an inode *)

(** [secs] were free and are now in use, the rest of the map is the same. *)
Definition free_secs s (secs : list Z) : Prop :=
  NoDup secs ∧ Forall (λ n, 0 ≤ n < bit_cnt (free_map s) ∧ bit (free_map s) n = false) secs.
Definition short_of s (n : nat) : Prop := ∀ secs, free_secs s secs → (length secs < n)%nat.

Definition with_sectors (i : Z) (secs : list Z) (d : inode_disk) : inode_disk :=
  mk_disk (start d) (data_length d) (magic d) (list_inserts (Z.to_nat i) secs (sectors d)).

Record created (sec i : Z) (d : inode_disk) (secs : list Z) s s' : Prop := {
  cr_free : free_secs s secs;
  cr_frame : frame (λ k, map_sector s k ∨ k ∈ secs ∨ k = sec) s s';
  cr_map : updated (λ k, k ∈ secs) (λ _, true) (free_map s) (free_map s');
  cr_ok : map_ok s';
  cr_zero k : k ∈ secs → disk s' k = zeros;
  cr_disk : disk s' sec = disk_bytes (with_sectors i secs d);
}.

Lemma disk_bytes_length d : length (sectors d) = 125%nat → Z.of_nat (length (disk_bytes d)) = 512.
Proof. intros E. unfold disk_bytes. rewrite bytes_of_length. simpl length. rewrite E. lia. Qed.

Lemma short_no_run s : no_run (free_map s) 0 1 false → ∀ secs, free_secs s secs → secs = [].
Proof.
  intros Hno [|n secs] [_ Hf]; [done|]. apply Forall_cons in Hf as [[Hn Hb] _].
  destruct (Hno n); [lia..|]. intros j Hj. by replace j with n by lia.
Qed.

(** The state after one sector has been allocated, zeroed and entered. *)
Lemma created_step (sec i : Z) d n secs s s1 s2 s3 s4 :
  map_ok s → 0 ≤ i → (Z.to_nat i < length (sectors d))%nat → bit (free_map s) sec = true → ¬ map_sector s sec →
  0 ≤ sec < dev_size (fs_device s) →
  first_run (free_map s) 0 1 false n → frame (map_sector s) s s1 →
  updated (λ j, n ≤ j < n + 1) (λ _, true) (free_map s) (free_map s1) →
  frame (λ k, k = n) s1 s2 → free_map s2 = free_map s1 → disk s2 n = zeros →
  frame (λ k, k = sec) s2 s3 → free_map s3 = free_map s2 →
  created sec (i + 1) (set_sector i n d) secs s3 s4 → created sec i d (n :: secs) s s4.
Proof.
  intros Hm Hi Hlen Hsec Hmap Hr Hrun F1 U1 F2 M2 Z2 F3 M3 [[Hnd Hfree] F4 U4 Hm4 Z4 E4].
  destruct Hrun as (Hn0 & Hn1 & Hn & _). specialize (Hn n ltac:(lia)).
  assert (n ≠ sec) as Hne by congruence.
  assert (∀ k, map_sector s3 k ↔ map_sector s k) as Hms.
  { intros k. unfold map_sector. setoid_rewrite (map_inode_frame _ _ _ _ _ F3).
    setoid_rewrite (map_inode_frame _ _ _ _ _ F2). by setoid_rewrite (map_inode_frame _ _ _ _ _ F1). }
  pose proof (up_cnt _ _ _ _ U1) as C1. rewrite M3, M2 in Hfree, U4. rewrite C1 in Hfree.
  assert (n ∉ secs) as Hnin.
  { intros Hin. pose proof (proj1 (Forall_forall _ _) Hfree n Hin) as [_ Hb].
    rewrite (up_in _ _ _ _ U1) in Hb by lia. done. }
  assert (∀ k, k ∈ secs → 0 ≤ k < bit_cnt (free_map s) ∧ bit (free_map s) k = false) as Hold.
  { intros k Hk. pose proof (proj1 (Forall_forall _ _) Hfree k Hk) as [Hk' Hb].
    split; [done|]. rewrite (up_out _ _ _ _ U1) in Hb; [done|lia|]. intros ?. by replace n with k in Hnin by lia. }
  split.
  - split; [by constructor|]. apply Forall_cons. split; [split; [lia|done]|]. apply Forall_forall, Hold.
  - eapply frame_trans; [eapply frame_weaken; [|exact F1]; tauto|].
    eapply frame_trans; [eapply frame_weaken; [|exact F2]; set_solver|].
    eapply frame_trans; [eapply frame_weaken; [|exact F3]; tauto|].
    eapply frame_weaken; [|exact F4]. intros k; cbv beta. rewrite (Hms k). set_solver.
  - eapply updated_iff; [|eapply (updated_trans _ _ _ _ _ _ U1 U4)].
    + intros k Hk. rewrite elem_of_cons. assert (n ≤ k < n + 1 ↔ k = n) by lia. tauto.
    + intros k. destruct (decide (k ∈ secs)); tauto.
  - done.
  - intros k [->|Hk]%elem_of_cons; [|by apply Z4].
    rewrite (fr_disk _ _ _ F4), (fr_disk _ _ _ F3); [done| |done| |].
    + rewrite (fr_size _ _ _ F2), (fr_size _ _ _ F1), <-(mo_cnt _ Hm). lia.
    + rewrite (fr_size _ _ _ F3), (fr_size _ _ _ F2), (fr_size _ _ _ F1), <-(mo_cnt _ Hm). lia.
    + rewrite Hms. intros [Hx|[?| ?]]; [|done..]. apply (map_sector_used _ _ Hm) in Hx. congruence.
  - rewrite E4. f_equal. unfold with_sectors, set_sector; simpl. f_equal.
    rewrite list_insert_inserts_lt by lia. f_equal; lia.
Qed.

Lemma wp_allocate_in nest (i : Z) d s Q :
  map_ok s → heap_ok s → i < 125 →
  (∀ n s', first_run (free_map s) 0 1 false n → frame (map_sector s) s s' →
     updated (λ j, n ≤ j < n + 1) (λ _, true) (free_map s) (free_map s') →
     map_ok s' → Q (true, set_sector i n d) s') →
  (no_run (free_map s) 0 1 false → Q (false, d) s) →
  wp (allocate_in (S nest) i d) s Q.
Proof.
  intros Hm Hh Hi HQ HN. unfold allocate_in. wp_step. apply wp_free_map_allocate; [done..| |].
  - intros n s' ? ? ? ? _. rewrite (proj2 (Z.ltb_lt _ _)) by done. wp_step. by apply (HQ n).
  - intros Hno. wp_step. by apply HN.
Qed.

Lemma run_contra b n : no_run b 0 1 false → first_run b 0 1 false n → False.
Proof. intros Hno (? & ? & Hr & _). by apply (Hno n). Qed.

(** Taking one sector away leaves one less. *)
Lemma short_step s s' a n :
  updated (λ j, a ≤ j < a + 1) (λ _, true) (free_map s) (free_map s') → short_of s' n → short_of s (S n).
Proof.
  intros U Hs. assert (∀ secs, a ∉ secs → free_secs s secs → free_secs s' secs) as Hf.
  { intros secs Ha [Hnd Hf]. split; [done|]. apply Forall_forall. intros k Hk.
    pose proof (proj1 (Forall_forall _ _) Hf k Hk) as [Hk' Hb]. rewrite (up_cnt _ _ _ _ U). split; [done|].
    rewrite (up_out _ _ _ _ U); [done|lia|]. intros ?. by replace a with k in Ha by lia. }
  intros secs Hsec. destruct (decide (a ∈ secs)) as [Hin|Hnin].
  - apply elem_of_Permutation in Hin as [rest Hp]. rewrite Hp. simpl. apply -> Nat.succ_lt_mono.
    destruct Hsec as [Hnd Hall]. rewrite Hp in Hnd, Hall. apply NoDup_cons in Hnd as [? ?].
    apply Forall_cons in Hall as [_ ?]. by apply Hs, Hf.
  - specialize (Hs secs (Hf secs Hnin Hsec)). lia.
Qed.

Lemma wp_create_loop nest n (i sec : Z) d s Q :
  map_ok s → heap_ok s → 0 ≤ i → i + Z.of_nat n ≤ 123 → length (sectors d) = 125%nat →
  bit (free_map s) sec = true → ¬ map_sector s sec → 0 ≤ sec < dev_size (fs_device s) →
  disk s sec = disk_bytes d →
  (∀ secs s', length secs = n → created sec i d secs s s' → Q true s') →
  (∀ s', short_of s n → Q false s') →
  wp (create_loop (S nest) n i sec d) s Q.
Proof.
  revert i d s Q. induction n as [|n IH]; intros i d s Q Hm Hh Hi Hn Hl Hb Hms Hr E HQ HN.
  { simpl. wp_step. apply (HQ []); [done|]. split; [by split; constructor|apply frame_refl, Hm| |done|by intros ? ?%elem_of_nil|].
    - apply updated_refl; [apply Hm|by intros ? ? ?%elem_of_nil].
    - rewrite E. by destruct d. }
  cbn [create_loop]. wp_step. apply wp_allocate_in; [done|done|lia| |].
  2: { intros Hno. cbv beta iota. cbn [andb]. wp_step.
       apply wp_allocate_in; [done|done|lia|by intros ? ? ?%(run_contra _ _ Hno)|intros _]. cbn [andb]. wp_step.
       apply wp_allocate_in; [done|done|lia|by intros ? ? ?%(run_contra _ _ Hno)|intros _]. cbn [andb]. wp_step.
       apply HN. intros secs Hs. rewrite (short_no_run s Hno secs Hs). simpl. lia. }
  intros a s1 Hrun F1 U1 Hm1. rewrite (proj2 (Z.ltb_lt _ _)) by lia. cbn [andb].
  pose proof Hrun as (Ha0 & Ha1 & Ha & _). pose proof (mo_cnt _ Hm) as Hcnt.
  assert (Z.to_nat i < length (sectors d))%nat as Hil by lia.
  wp_step. unfold elem. rewrite (proj2 (Z.ltb_ge _ _)) by lia.
  apply (wp_from_option _ a); [by apply list_lookup_insert_eq|]. wp_step.
  apply wp_write_sector; [apply F1|rewrite (fr_size _ _ _ F1); lia|done|]. intros s2 F2 M2 Z2. wp_step.
  pose proof (fr_size _ _ _ F1) as S1. pose proof (fr_size _ _ _ F2) as S2.
  apply wp_write_sector; [apply F2|lia|by apply disk_bytes_length; simpl; rewrite length_insert|].
  intros s3 F3 M3 Z3.
  assert (map_ok s3) as Hm3 by (eapply map_ok_still; [by eapply (map_ok_still _ s1 s2)|done|done]).
  assert (∀ k, map_sector s3 k ↔ map_sector s k) as Hms3.
  { intros k. unfold map_sector. setoid_rewrite (map_inode_frame _ _ _ _ _ F3).
    setoid_rewrite (map_inode_frame _ _ _ _ _ F2). by setoid_rewrite (map_inode_frame _ _ _ _ _ F1). }
  assert (sec ≠ a) as Hsa by (intros ->; rewrite Ha in Hb by lia; done).
  apply IH; [done| |lia|lia|by simpl; rewrite length_insert| |by rewrite Hms3| |done| |].
  - do 3 (eapply heap_ok_frame; [done|]). done.
  - rewrite M3, M2, (up_out _ _ _ _ U1); [done|lia..].
  - rewrite (fr_size _ _ _ F3). lia.
  - intros secs s4 Hlen Hc. apply (HQ (a :: secs)); [by simpl; rewrite Hlen|]. by eapply created_step.
  - intros s4 Hshort. apply HN. eapply (short_step s s3 a); [|done]. by rewrite M3, M2.
Qed.

Lemma created_pre (sec i : Z) d secs s s1 s' :
  frame (λ k, k = sec) s s1 → free_map s1 = free_map s → created sec i d secs s1 s' → created sec i d secs s s'.
Proof.
  intros F1 M1 [Hf F U Hok Hz Hd]. unfold free_secs in Hf. rewrite M1 in Hf, U. split; try done.
  eapply frame_trans; [eapply frame_weaken; [|exact F1]; tauto|]. eapply frame_weaken; [|exact F].
  intros k; cbv beta. unfold map_sector. setoid_rewrite (map_inode_frame _ _ _ _ _ F1). tauto.
Qed.

(** The on-disk inode of a new file. *)
Definition new_disk (l : Z) (secs : list Z) : inode_disk :=
  with_sectors 0 secs (mk_disk 0 l INODE_MAGIC (replicate 125 0)).
Definition sectors_for (l : Z) : nat := Z.to_nat ((l + 511) / 512).

Lemma bytes_to_sectors_eq l : 0 ≤ l ≤ DIRECT_BYTES → bytes_to_sectors l = (l + 511) / 512.
Proof.
  unfold DIRECT_BYTES, bytes_to_sectors, BLOCK_SECTOR_SIZE. intros Hl.
  rewrite swrap_small by lia. replace (l + 512 - 1) with (l + 511) by lia.
  rewrite Z.quot_div_nonneg by lia. apply wrap_small.
  split; [apply Z.div_pos; lia|]. apply Z.div_lt_upper_bound; lia.
Qed.

Lemma wp_inode_create nest sec l s Q :
  map_ok s → heap_ok s → 0 ≤ l ≤ DIRECT_BYTES →
  bit (free_map s) sec = true → ¬ map_sector s sec → 0 ≤ sec < dev_size (fs_device s) →
  (∀ secs s', length secs = sectors_for l →
     created sec 0 (mk_disk 0 l INODE_MAGIC (replicate 125 0)) secs s s' → Q true s') →
  (∀ s', short_of s (sectors_for l) → Q false s') →
  wp (inode_create (S nest) sec l) s Q.
Proof.
  intros Hm Hh Hl Hb Hms Hr HQ HN. unfold inode_create. wp_step. wp_step; [apply Z.leb_le; lia|]. wp_step.
  apply wp_alloc; [apply Hh|apply Hm|]. intros s0 F0 M0 _.
  rewrite (proj2 (Z.eqb_neq _ _)) by (unfold NULL; destruct Hh; lia). wp_step.
  pose proof (fr_size _ _ _ F0) as S0. rewrite bytes_to_sectors_eq by done.
  apply wp_write_sector; [apply F0|lia|by apply disk_bytes_length|]. intros s1 F1 M1 E1.
  assert (frame (λ k, k = sec) s s1) as F01 by (eapply frame_trans; [by apply frame_none|done]).
  assert (free_map s1 = free_map s) as M01 by congruence.
  assert (∀ k, map_sector s1 k ↔ map_sector s k) as Hms1.
  { intros k. unfold map_sector. by setoid_rewrite (map_inode_frame _ _ _ _ _ F01). }
  apply wp_create_loop; [by eapply map_ok_still|by eapply heap_ok_frame|done| |done|by rewrite M01|by rewrite Hms1| |done| |].
  - unfold DIRECT_BYTES in Hl. assert ((l + 511) / 512 < 124) by (apply Z.div_lt_upper_bound; lia).
    assert (0 ≤ (l + 511) / 512) by (apply Z.div_pos; lia). lia.
  - rewrite (fr_size _ _ _ F01). lia.
  - intros secs s' Hlen Hc. apply (HQ secs); [done|]. by eapply created_pre.
  - intros s' Hs. apply HN. unfold short_of, free_secs in *. by rewrite M01 in Hs.
Qed.

(** Decoding what disk_bytes encodes. *)
Lemma disk_of_bytes d :
  0 ≤ start d < 2 ^ 32 → - 2 ^ 31 ≤ data_length d < 2 ^ 31 → 0 ≤ magic d < 2 ^ 32 →
  Forall (λ n, 0 ≤ n < 2 ^ 32) (sectors d) → disk_of (disk_bytes d) = d.
Proof.
  intros Hs Hl Hm Hf. unfold disk_of, disk_bytes. rewrite words_of_bytes_of.
  - destruct d as [st l m ss]; simpl in *. f_equal. unfold swrap, wrap.
    change (32 - 1) with 31. rewrite Zplus_mod_idemp_l. rewrite Z.mod_small; lia.
  - repeat (apply Forall_cons; split; [done || by apply wrap_bounds|]). done.
Qed.
End free_map.
