(* ===== verification/InodeThms.v ===== *)
(** * Theorems on filesys/inode.c

    Files of direct sectors are arrays of bytes on the disk: reading and writing
    within them, creating and opening them.  The last sections are about what goes
    wrong: reads that cross the end of a file, writes that do, and the sectors of
    removed files. *)

From S2P Require Import Prelude Bitmap Block BlockThms Inode InodeInv FreeMap.
Local Open Scope Z_scope.
Local Ltac Zify.zify_post_hook ::= Z.to_euclidean_division_equations.

Section theorems.
Context {D : Type} `{BlockDevice D}.
Notation F := (fs D).
Implicit Types (s : F) (i : inode).

Lemma wp_inode_read_at s p i size offset Q :
  file_ok s p i → dev_ok (fs_device s) → heap_ok s → 0 ≤ size → 0 ≤ offset →
  size = 0 ∨ offset + size ≤ len i ∨ offset < DIRECT_BYTES ∧ len i < DIRECT_BYTES →
  (∀ s', frame none s s' → free_map s' = free_map s → Q (read_result s i size offset 0 []) s') →
  wp (inode_read_at p size offset) s Q.
Proof. intros. by apply (wp_read_loop _ _ i); [..|lia|]. Qed.

Lemma content_buffer s s' i buf size offset :
  0 ≤ offset → offset + size ≤ len i → size ≤ Z.of_nat (length buf) →
  written i buf size offset 0 s s' → content s' i offset size = take (Z.to_nat size) buf.
Proof.
  intros Ho Hle Hb [_ _ C]. apply list_eq_same_length with (n := Z.to_nat size).
  { rewrite length_take. lia. }
  { apply content_length. }
  intros j x y Hj. rewrite lookup_take_lt by done. replace j with (Z.to_nat (Z.of_nat j)) at 1 by lia.
  rewrite content_lookup, C, decide_True by lia. intros [= <-] Ey.
  replace (0 + (offset + Z.of_nat j - offset)) with (Z.of_nat j) by lia. by rewrite Nat2Z.id, Ey.
Qed.

(** ** Opening *)

(** The list of open inodes: every struct inode in it exists and is in use, and
    no two are for the same sector; addresses come from the allocator. *)
Record open_ok s : Prop := {
  oo_nodup : NoDup (open_inodes s);
  oo_in p : p ∈ open_inodes s → ∃ i, inodes s !! p = Some i ∧ 1 ≤ open_cnt i;
  oo_sector p q i j : p ∈ open_inodes s → q ∈ open_inodes s → inodes s !! p = Some i →
    inodes s !! q = Some j → sector i = sector j → p = q;
  oo_fresh p i : inodes s !! p = Some i → 0 < p < next_block s;
}.

(** Which open inode is for a sector. *)
Definition open_at s (sec p : Z) : Prop :=
  p ∈ open_inodes s ∧ ∃ i, inodes s !! p = Some i ∧ sector i = sec.

Lemma wp_open_search l sec s Q :
  (∀ p, p ∈ l → p ∈ open_inodes s) → open_ok s →
  (∀ p, open_at s sec p → Q (Some p) s) →
  ((∀ p, p ∈ l → ¬ open_at s sec p) → Q None s) →
  wp (open_search l sec) s Q.
Proof.
  intros Hl Hok HS HN. induction l as [|p l IH]; simpl.
  { wp_step. apply HN. by intros ? ?%elem_of_nil. }
  destruct (oo_in _ Hok p) as (i & Ei & _); [apply Hl; by left|]. wp_step. apply (wp_get_inode _ _ i); [done|].
  destruct (Z.eqb_spec (sector i) sec) as [E|E].
  - wp_step. apply HS. split; [apply Hl; by left|]. by exists i.
  - apply IH; [intros; apply Hl; by right|]. intros Hn. apply HN. intros q [->|Hq]%elem_of_cons; [|by apply Hn].
    intros (_ & j & Ej & Es). rewrite Ei in Ej. by injection Ej as <-.
Qed.

(** The state in which inode_open has added one struct inode. *)
Record opened (sec p : Z) i s s' : Prop := {
  op_open : open_inodes s' = p :: open_inodes s;
  op_inodes : inodes s' = <[p := i]> (inodes s);
  op_frame : frame none s (with_inodes (open_inodes s) (inodes s) s');
  op_map : free_map s' = free_map s;
  op_next : next_block s = p ∧ p < next_block s';
}.

Lemma wp_inode_open sec s Q :
  open_ok s → dev_ok (fs_device s) → heap_ok s → 0 ≤ sec < dev_size (fs_device s) →
  (∀ p i, open_at s sec p → inodes s !! p = Some i →
     Q p (with_inodes (open_inodes s) (<[p := with_counts (open_cnt i + 1) (deny_write_cnt i) i]> (inodes s)) s)) →
  ((∀ p, ¬ open_at s sec p) → ∀ p s', opened sec p (mk_inode sec 1 false 0 (disk_of (disk s sec)) (junk s p)) s s' →
     Q p s') →
  wp (inode_open sec) s Q.
Proof.
  intros Hok Hd Hh Hr HS HN. unfold inode_open. do 2 wp_step. wp_step. apply wp_open_search; [done|done| |].
  - intros p Hp. pose proof Hp as (Hin & i & Ei & Es). pose proof (oo_fresh _ Hok _ _ Ei) as Hpos.
    unfold inode_reopen. rewrite (proj2 (Z.eqb_neq _ _)) by (unfold NULL; lia). wp_step.
    apply (wp_get_inode _ _ i); [done|]. unfold set_inode. do 3 wp_step. by apply HS.
  - intros Hno. assert (∀ p, ¬ open_at s sec p) as Hnone by (intros p [Hin ?]; by apply (Hno p)).
    wp_step. apply wp_alloc; [apply Hh|done|]. intros s1 F1 M1 E1.
    rewrite (proj2 (Z.eqb_neq _ _)) by (unfold NULL; destruct Hh; lia). wp_step.
    apply wp_read_sector; [apply F1|by rewrite (fr_size _ _ _ F1)|]. intros s2 F2 M2. do 3 wp_step.
    pose proof (frame_trans _ _ _ _ F1 F2) as F. rewrite (fr_disk _ _ _ F1) by (done || by intros []).
    apply HN; [done|]. split; simpl.
    + by rewrite (fr_open _ _ _ F).
    + by rewrite (fr_inodes _ _ _ F), (fr_junk _ _ _ F).
    + destruct F as [? ? ? ? ? ? ? ? ? ? ?]. split; try done.
    + congruence.
    + split; [done|]. pose proof (fr_next _ _ _ F2). lia.
Qed.

Lemma open_ok_reopen s p i c :
  open_ok s → inodes s !! p = Some i → 1 ≤ c →
  open_ok (with_inodes (open_inodes s) (<[p := with_counts c (deny_write_cnt i) i]> (inodes s)) s).
Proof.
  intros [Hn Hin Hs Hf] Ei Hc.
  assert (∀ q j, <[p := with_counts c (deny_write_cnt i) i]> (inodes s) !! q = Some j →
    ∃ j', inodes s !! q = Some j' ∧ sector j = sector j' ∧ (1 ≤ open_cnt j' → 1 ≤ open_cnt j)) as Hold.
  { intros q j [[<- <-]|[Hne E]]%lookup_insert_Some; eauto. }
  split; simpl; [done| | |].
  - intros q Hq. destruct (Hin q Hq) as (j & Ej & Hj). destruct (decide (q = p)) as [->|].
    + rewrite lookup_insert_eq. eauto.
    + rewrite lookup_insert_ne by done. eauto.
  - intros q r j k Hq Hr (j' & Ej & Esj & _)%Hold (k' & Ek & Esk & _)%Hold E. eapply Hs; [done..|congruence].
  - intros q j (j' & Ej & _)%Hold. by eapply Hf.
Qed.

Lemma open_ok_opened sec p i s s' :
  open_ok s → heap_ok s → (∀ q, ¬ open_at s sec q) → sector i = sec → open_cnt i = 1 →
  opened sec p i s s' → open_ok s'.
Proof.
  intros [Hn Hin Hs Hf] Hh Hno Hsec Hcnt [Eo Ei _ _ [En En']].
  assert (inodes s !! p = None) as Ep.
  { destruct (inodes s !! p) eqn:E; [|done]. apply Hf in E. lia. }
  assert (p ∉ open_inodes s) as Hp.
  { intros Hp. destruct (Hin p Hp) as (j & Ej & _). congruence. }
  assert (∀ q, q ∈ open_inodes s → inodes s' !! q = inodes s !! q) as Eq.
  { intros q Hq. rewrite Ei, lookup_insert_ne; [done|]. by intros ->. }
  split; rewrite ?Eo.
  - by constructor.
  - intros q [->|Hq]%elem_of_cons; [|rewrite Eq by done; by apply Hin].
    exists i. rewrite Ei, lookup_insert_eq. split; [done|lia].
  - intros q r j k [->|Hq]%elem_of_cons [->|Hr]%elem_of_cons; [done|..].
    + rewrite (Eq r Hr), Ei, lookup_insert_eq. intros [= <-] Ek E. destruct (Hno r). split; [done|].
      exists k. split; [done|congruence].
    + rewrite (Eq q Hq), Ei, lookup_insert_eq. intros Ej [= <-] E. destruct (Hno q). split; [done|].
      exists j. split; [done|congruence].
    + rewrite (Eq q Hq), (Eq r Hr). by apply Hs.
  - intros q j. rewrite Ei. intros [[<- <-]|[Hne E]]%lookup_insert_Some; [destruct Hh; lia|].
    apply Hf in E. lia.
Qed.

(** inode_open returns the struct inode that is open for the sector, with one
    more opener, if there is one; otherwise a new one with the inode on the disk.
    So all openers of a sector share one struct inode. *)
Theorem inode_open_shares s sec :
  open_ok s → dev_ok (fs_device s) → heap_ok s → 0 ≤ sec < dev_size (fs_device s) →
  wp (inode_open sec) s (λ p s', open_ok s' ∧ open_at s' sec p ∧
    (∀ q, q ≠ p → inodes s' !! q = inodes s !! q) ∧
    ∃ i', inodes s' !! p = Some i' ∧
      ((∃ i, open_at s sec p ∧ inodes s !! p = Some i ∧ i' = with_counts (open_cnt i + 1) (deny_write_cnt i) i) ∨
       (∀ q, ¬ open_at s sec q) ∧ inodes s !! p = None ∧
         data i' = disk_of (disk s sec) ∧ open_cnt i' = 1 ∧ removed i' = false ∧ deny_write_cnt i' = 0)).
Proof.
  intros Hok Hd Hh Hr. apply wp_inode_open; [done..| |].
  - intros p i Hp Ei. pose proof Hp as (Hin & j & Ej & Es). rewrite Ei in Ej. injection Ej as <-.
    destruct (oo_in _ Hok p Hin) as (j & Ej & Hc). rewrite Ei in Ej. injection Ej as <-. simpl.
    split; [apply open_ok_reopen; [done|done|lia]|]. split.
    { split; [done|]. simpl. rewrite lookup_insert_eq. eauto. }
    split; [intros q Hq; by rewrite lookup_insert_ne|]. rewrite lookup_insert_eq. eexists. split; [done|]. left. eauto.
  - intros Hno p s' Ho. pose proof Ho as [Eo Ei _ _ [En _]].
    split; [eapply open_ok_opened; [..|exact Ho]; done|]. rewrite Ei. split.
    { split; [rewrite Eo; by left|]. rewrite Ei, lookup_insert_eq. eauto. }
    split; [intros q Hq; by rewrite lookup_insert_ne|]. rewrite lookup_insert_eq. eexists. split; [done|]. right.
    split_and!; [done| |done..]. destruct (inodes s !! p) eqn:E; [|done]. apply (oo_fresh _ Hok) in E. lia.
Qed.

(** ** Creating *)

Lemma open_ok_frame X s s' : frame X s s' → open_ok s → open_ok s'.
Proof.
  intros Hf [Hn Hin Hs Hfr]. pose proof (fr_next _ _ _ Hf).
  split; rewrite ?(fr_open _ _ _ Hf), ?(fr_inodes _ _ _ Hf); [done..|].
  intros p i Hp. apply Hfr in Hp. lia.
Qed.

Lemma new_disk_sector l secs k :
  length secs = sectors_for l → 0 ≤ l ≤ DIRECT_BYTES → 0 ≤ k → 512 * k < l →
  secs !! Z.to_nat k = Some (default 0 (sectors (new_disk l secs) !! Z.to_nat k)).
Proof.
  unfold sectors_for, DIRECT_BYTES. intros Hlen Hl Hk Hkl.
  assert (k < (l + 511) / 512 ≤ 123) by lia.
  destruct (lookup_lt_is_Some_2 secs (Z.to_nat k)) as [n Hn]; [lia|].
  cbn [new_disk with_sectors sectors]. change (Z.to_nat 0) with 0%nat.
  rewrite list_lookup_inserts by (rewrite ?length_replicate; lia). by rewrite Nat.sub_0_r, Hn.
Qed.

Lemma new_file_ok s s' p sec l secs j :
  length secs = sectors_for l → 0 ≤ l ≤ DIRECT_BYTES → free_secs s secs →
  bit_cnt (free_map s) = dev_size (fs_device s') → p ≠ NULL →
  let i := mk_inode sec 1 false 0 (new_disk l secs) j in
  inodes s' !! p = Some i → file_ok s' p i ∧ ∀ n, owned i n ↔ n ∈ secs.
Proof.
  intros Hlen Hl [Hnd Hf] Hc Hp i Ei.
  assert (∀ k, 0 ≤ k → 512 * k < l → secs !! Z.to_nat k = Some (sector_of i k)) as Hk.
  { intros k ? ?. by apply new_disk_sector. }
  split; [split|].
  - done.
  - done.
  - done.
  - simpl. by rewrite length_inserts.
  - intros k Hk0 Hk1. pose proof (proj1 (Forall_lookup _ _) Hf _ _ (Hk k Hk0 Hk1)) as [Hn _]. by rewrite <-Hc.
  - intros k k' Hk0 Hk1 Hk0' Hk1' E. pose proof (Hk k Hk0 Hk1) as E1. pose proof (Hk k' Hk0' Hk1') as E2.
    rewrite <-E in E2. pose proof (NoDup_lookup _ _ _ _ Hnd E1 E2). lia.
  - intros n. split.
    + intros (k & Hk0 & Hk1 & <-). eapply list_elem_of_lookup_2. by apply Hk.
    + intros [m Hm]%list_elem_of_lookup. pose proof (lookup_lt_Some _ _ _ Hm) as Hlt. rewrite Hlen in Hlt.
      assert (512 * Z.of_nat m < l) as Hml.
      { unfold sectors_for in Hlt. lia. }
      exists (Z.of_nat m). split_and!; [lia|done|]. specialize (Hk (Z.of_nat m) ltac:(lia) Hml).
      rewrite Nat2Z.id, Hm in Hk. by injection Hk.
Qed.

Lemma new_disk_of l secs s :
  0 ≤ l ≤ DIRECT_BYTES → free_secs s secs → bit_cnt (free_map s) < 2 ^ 32 →
  disk_of (disk_bytes (new_disk l secs)) = new_disk l secs.
Proof.
  unfold DIRECT_BYTES. intros Hl [_ Hf] Hc. apply disk_of_bytes; cbn [new_disk with_sectors start data_length magic sectors]; [done|lia|done|].
  apply Forall_lookup. intros k n [Hn|Hn]%list_lookup_inserts_Some.
  - destruct Hn as [_ Hn]. apply lookup_replicate in Hn as [-> _]. done.
  - destruct Hn as (_ & _ & Hn). pose proof (proj1 (Forall_lookup _ _) Hf _ _ Hn) as [? _]. lia.
Qed.


(** ** Reading and writing within a file *)

(** C19: Writing SIZE bytes at OFFSET within a file and reading them back gives
    these bytes; the rest of the file, all other files that share no sector with
    it, and the free map stay the same. *)
Theorem inode_write_read nest s p i buf size offset :
  file_ok s p i → dev_ok (fs_device s) → heap_ok s → deny_write_cnt i = 0 →
  0 ≤ size → 0 ≤ offset → offset + size ≤ len i → size ≤ Z.of_nat (length buf) →
  wp (n ← inode_write_at nest p buf size offset; r ← inode_read_at p size offset; mret (n, r)) s
    (λ '(n, r) s', n = size ∧ r = (size, take (Z.to_nat size) buf) ∧ free_map s' = free_map s ∧
       inodes s' = inodes s ∧
       (∀ pos, 0 ≤ pos < len i → ¬ (offset ≤ pos < offset + size) → content_at s' i pos = content_at s i pos) ∧
       (∀ q j, file_ok s q j → (∀ k, owned j k → ¬ owned i k) →
          ∀ pos, 0 ≤ pos < len j → content_at s' j pos = content_at s j pos)).
Proof.
  intros Hok Hd Hh Hdeny Hs Ho Hle Hb. unfold inode_write_at. wp_step.
  apply (wp_inode_write_at _ _ i); [done..|]. intros s1 W. pose proof W as [F1 M1 C1]. wp_step.
  pose proof (file_ok_frame _ _ _ _ _ F1 Hok) as Hok1.
  apply (wp_inode_read_at _ _ i); [done|apply F1|by eapply heap_ok_frame|done|done|lia|].
  intros s2 F2 M2. wp_step. unfold read_result. rewrite decide_True by lia. simpl.
  rewrite (content_buffer s s1 i buf) by done. split_and!; [done|done|congruence| | |].
  - rewrite (fr_inodes _ _ _ F2). apply F1.
  - intros pos Hpos Hout. rewrite (content_at_frame none s1 s2 p), C1, decide_False by (done || by intros ? ? []). done.
  - intros q j Hq Hdis pos Hpos. pose proof (file_ok_frame _ _ _ _ _ F1 Hq) as Hq1.
    rewrite (content_at_frame none s1 s2 q) by (done || by intros ? ? []).
    by apply (content_at_frame (owned i) s s1 q).
Qed.

(** ** Reading across the end *)

(** A read that starts within the file and goes past its end stores the bytes up
    to the end, but returns 0 instead of their number. *)
Theorem inode_read_across_end s p i size offset :
  file_ok s p i → dev_ok (fs_device s) → heap_ok s →
  0 ≤ offset → offset < len i < offset + size → len i < DIRECT_BYTES →
  wp (inode_read_at p size offset) s (λ r s', r = (0, content s i offset (len i - offset))).
Proof.
  intros Hok Hd Hh Ho Hlen Hl. apply (wp_inode_read_at _ _ i); [done|done|done|lia|done|lia|].
  intros s' _ _. unfold read_result. by rewrite decide_False by lia.
Qed.

(** ** Writing across the end *)

(** What every step keeps: the struct inodes, and that there is memory. *)
Definition steady (I : gmap Z inode) s : Prop := inodes s = I ∧ heap_ok s.
#[local] Instance steady_stable I : Stable (steady I).
Proof.
  split; [done..|]. intros s [HI [Ho Hn]] a s'. unfold alloc. rewrite Ho. intros [= _ <-].
  split; [done|]. split; [done|]. simpl. lia.
Qed.

Lemma wlp_get_inode I p i s Q : steady I s → I !! p = Some i → Q i s → wlp (get_inode p) s Q.
Proof. intros [<- _] Hp HQ j s'. unfold get_inode, mbind, M_bind, get. rewrite Hp. by intros [= <- <-]. Qed.

Lemma wlp_bounce I (bounce : bool) s Q :
  steady I s → (∀ s', steady I s' → Q true s') →
  wlp (if bounce then mret true else a ← alloc; mret (negb (a =? NULL))) s Q.
Proof.
  intros Hs HQ. destruct bounce; [by wlp_step; apply HQ|]. wlp_step. intros a s' E. wlp_step.
  pose proof (stable_alloc s Hs a s' E) as Hs'. destruct Hs as [_ [Ho Hn]]. unfold alloc in E. rewrite Ho in E.
  injection E as <- _. rewrite (proj2 (Z.eqb_neq _ _)) by (unfold NULL; lia). by apply HQ.
Qed.

Lemma write_never I i wm fuel p buf size offset got bounce s :
  keeps (steady I) wm → steady I s → I !! p = Some i → 0 ≤ offset → 0 < size → len i < offset + size →
  wlp (write_loop wm fuel p buf size offset got bounce) s (λ _ _, False).
Proof.
  intros Hw Hs Hp. revert size offset got bounce s Hs.
  induction fuel as [|fuel IH]; intros size offset got bounce s Hs Hof Hsz Hlen; [done|].
  cbn [write_loop]. rewrite (proj2 (Z.ltb_lt 0 size)) by done. cbn [negb]. wlp_step.
  apply (wlp_keeps (steady I)); [apply fs_keeps_byte_to_sector, _|done|]. intros idx s1 Hs1. wlp_step.
  unfold inode_length. wlp_step. apply (wlp_get_inode I p i); [done..|]. wlp_step.
  change (data_length (data i)) with (len i). unfold BLOCK_SECTOR_SIZE.
  pose proof (chunk_bounds size (len i - offset) (offset `rem` 512)) as Hc. cbv zeta in *. rewrite Hc.
  clear Hc. set (c := Z.min _ _). assert (c < size ∧ offset + c ≤ Z.max offset (len i)) as [Hc1 Hc2] by lia.
  assert (c ≤ 0 ∨ 0 < c ∧ offset < len i) as Hc3 by lia. clearbody c.
  assert (∀ s2 b, steady I s2 → 0 ≤ c →
    wlp (write_loop wm fuel p buf (size - c) (offset + c) (got + c) b) s2 (λ _ _, False)) as Hnext.
  { intros s2 b Hs2 Hcp. apply IH; [done|lia..]. }
  wlp_step. apply (wlp_keeps (steady I)); [fs_keeps_solve; by apply fs_keeps_allocate; [apply _|]|done|]. intros [] s2 Hs2.
  set (chunk := take _ _). match goal with |- wlp (if _ then _ else ?m) _ _ =>
    assert (wlp m s2 (λ _ _, False)) as Hbounce end.
  { wlp_step. apply (wlp_bounce I); [done|]. intros s3 Hs3. cbn [negb]. wlp_step.
    apply (wlp_keeps (steady I)); [unfold read_sector; fs_keeps_solve|done|]. intros old s4 Hs4. wlp_step.
    destruct (Z.eqb_spec (Z.of_nat (length chunk)) c); [|by rewrite andb_false_r].
    apply (wlp_keeps (steady I)); [fs_keeps_solve|done|]. intros [] s5 Hs5. wlp_step.
    apply (wlp_keeps (steady I)); [apply fs_keeps_device, _|done|]. intros [] s6 Hs6. apply Hnext; [done|lia]. }
  destruct ((offset `rem` 512 =? 0) && (c =? 512)); [|exact Hbounce]. wlp_step. destruct (Z.eqb_spec (Z.of_nat (length chunk)) c); [|done]. wlp_step.
  wlp_step. apply (wlp_keeps (steady I)); [apply fs_keeps_device, _|done|]. intros [] s6 Hs6. apply Hnext; [done|lia].
Qed.

(** A write that goes past the end of the file never returns, although the
    comment promises a short count: it faults when it stores the number of the
    sector it allocates through a null pointer, or loops for ever when there is
    none left. *)
Theorem inode_write_across_end nest fuel s s' p i buf size offset got bounce n :
  inodes s !! p = Some i → heap_ok s → deny_write_cnt i = 0 →
  0 ≤ offset → 0 < size → len i < offset + size →
  write_loop (write_free_map nest) fuel p buf size offset got bounce s ≠ Ok (n, s') ∧
  inode_write_at nest p buf size offset s ≠ Ok (n, s').
Proof.
  intros Hp Hh Hd Ho Hs Hlen. split.
  - intros E. eapply (write_never (inodes s) i); [apply fs_keeps_write_map, _| |done..]. by split.
  - assert (wlp (inode_write_at nest p buf size offset) s (λ _ _, False)) as Hn; [|by intros E%Hn].
    unfold inode_write_at, inode_write_at_. wlp_step.
    apply (wlp_keeps (steady (inodes s))); [apply stable_alloc|by split|]. intros a s1 Hs1. wlp_step.
    apply (wlp_keeps (steady (inodes s))); [fs_keeps_solve|done|]. intros [] s2 Hs2. wlp_step.
    apply (wlp_get_inode (inodes s) p i); [done..|]. rewrite Hd. cbn [Z.eqb negb].
    eapply write_never; [apply fs_keeps_write_map, _|done..].
Qed.

(** ** Removing *)

Lemma map_ok_inodes s p i j l :
  map_ok s → inodes s !! p = Some i → (∀ q k, map_inode s q k → q ≠ p) →
  let s' := with_inodes l (<[p := j]> (inodes s)) s in
  map_ok s' ∧ ∀ n, map_sector s' n ↔ map_sector s n.
Proof.
  intros [Hd He Hc Hf] Hp Hne s'.
  assert (∀ q k, map_inode s' q k ↔ map_inode s q k) as Hmi.
  { intros q k. destruct (decide (q = p)) as [->|Hqp].
    - split; intros Hq; [|by destruct (Hne _ _ Hq)].
      destruct (Hf (proj1 Hq)) as (q' & k' & Hq' & _). destruct Hq as (_ & f & Ef & Efp & _).
      destruct Hq' as (Hn & f' & Ef' & Efp' & Ek'). simpl in Ef. rewrite Ef in Ef'. injection Ef' as <-.
      destruct (Hne q' k'); [by split; eauto|congruence].
    - unfold map_inode; simpl. by rewrite lookup_insert_ne by done. }
  split; [split; [done|done|done|]|].
  - intros Hn. destruct (Hf Hn) as (q & k & Hq & Hok & Hrest). exists q, k. rewrite Hmi. split; [done|].
    split; [|done]. destruct Hok. split; try done. simpl. rewrite lookup_insert_ne; [done|]. by apply not_eq_sym, (Hne _ _ Hq).
  - intros n. unfold map_sector. by setoid_rewrite Hmi.
Qed.

(** When the last opener closes a removed file, the sector of its inode becomes
    free again, but none of the sectors of its data: inode_remove has set the
    length to 0, and the field start that inode_close looks at is not used. *)
Theorem inode_remove_leaks nest s p i :
  map_ok s → heap_ok s → free_map_file s ≠ NULL → file_ok s p i → p ∈ open_inodes s →
  (∀ q j, map_inode s q j → q ≠ p) → open_cnt i = 1 → start (data i) = 0 →
  0 ≤ sector i < dev_size (fs_device s) → bit (free_map s) (sector i) = true → ¬ map_sector s (sector i) →
  wp (inode_remove p;; inode_close (S nest) p) s (λ _ s',
    inodes s' !! p = None ∧ bit (free_map s') (sector i) = false ∧
    ∀ n, 0 ≤ n → n ≠ sector i → bit (free_map s') n = bit (free_map s) n).
Proof.
  intros Hm Hh Hn Hok Hin Hne Hcnt Hst Hr Hb Hms. pose proof (fo_null _ _ _ Hok) as Hp.
  pose proof (fo_inode _ _ _ Hok) as Ei. unfold inode_remove. wp_step. wp_step.
  wp_step; [by rewrite (proj2 (Z.eqb_neq _ _)) by done|]. wp_step. apply (wp_get_inode _ _ i); [done|].
  unfold set_inode. wp_step. unfold inode_close. rewrite (proj2 (Z.eqb_neq _ _)) by done. wp_step.
  eapply wp_get_inode; [simpl; apply lookup_insert_eq|]. unfold set_inode. do 2 wp_step. simpl.
  rewrite Hcnt. change (1 - 1 =? 0) with true. cbv iota. wp_step.
  unfold list_remove_inode. do 4 wp_step; [by rewrite bool_decide_true|]. do 2 wp_step. simpl. unfold with_inodes at 2; simpl. rewrite insert_insert_eq.
  rewrite Hst. change (bytes_to_sectors 0) with 0.
  match goal with |- wp _ ?t _ => set (s1 := t) end.
  destruct (map_ok_inodes s p i (mk_inode (sector i) 0 true (deny_write_cnt i)
    (mk_disk (start (data i)) 0 (magic (data i)) (sectors (data i))) (is_dir i))
    (filter (λ q, q ≠ p) (open_inodes s)) Hm Ei Hne) as [Hm1 Hs1].
  rewrite Hst in Hm1, Hs1. change (map_ok s1) in Hm1. wp_step.
  pose proof (mo_cnt _ Hm) as Hc. apply wp_free_map_release; [done|done|done|simpl; lia..| | |].
  { intros n Hn1. by replace n with (sector i) by lia. }
  { intros n Hn1%Hs1 Hn2. by replace n with (sector i) in Hn1 by lia. }
  intros s2 F2 U2 Hm2. pose proof (up_cnt _ _ _ _ U2) as C2. simpl in C2.
  apply wp_free_map_release; [done|by eapply heap_ok_frame|by rewrite (fr_map_file _ _ _ F2)|lia|lia| |intros ? ?; lia|intros; lia|].
  { rewrite C2, Hc. lia. }
  intros s3 F3 U3 Hm3. wp_step. simpl. split; [apply lookup_delete_eq|]. split.
  - rewrite (up_out _ _ _ _ U3), (up_in _ _ _ _ U2) by lia. done.
  - intros n Hn1 Hn2. rewrite (up_out _ _ _ _ U3), (up_out _ _ _ _ U2) by lia. done.
Qed.
End theorems.

(** ** A small file system

    64 sectors: the free map's inode in sector 0 and its data in sector 2, an
    inode in sector 3 with a file of 600 bytes in the sectors 4 and 5; both are
    open. *)

Section example.
#[local] Instance ex_ops : BlockOps (block ramdisk) := block_ops ramdisk_operations.
#[local] Instance ex_device : BlockDevice (block ramdisk) :=
  block_device ramdisk_operations 64 ramdisk_ok (λ r, r) (ramdisk_laws 64).

Definition ex_map_inode : inode :=
  mk_inode 0 1 false 0 (mk_disk 0 8 INODE_MAGIC (2 :: replicate 124 0)) 0.
Definition ex_inode : inode :=
  mk_inode 3 1 false 0 (mk_disk 0 600 INODE_MAGIC (4 :: 5 :: replicate 123 0)) 0.
Definition ex_fs : fs (block ramdisk) :=
  mk_fs (mk_block (λ i, replicate 512 (i mod 256)) [] BLOCK_FILESYS 64 0 0) [2; 1]
    {[ 1 := ex_map_inode; 2 := ex_inode ]} {[ 3 := mk_file 1 0 false ]} ∅ (mk_bitmap 64 [63; 0]) 3
    DIRECT [] 4 (λ _, 0).

Lemma ex_dev_ok : dev_ok (fs_device ex_fs).
Proof. split; [|done]. intros i. apply length_replicate. Qed.
Lemma ex_heap_ok : heap_ok ex_fs.
Proof. done. Qed.
Lemma ex_file_ok : file_ok ex_fs 2 ex_inode.
Proof.
  assert (∀ k, 0 ≤ k → 512 * k < 600 → k = 0 ∨ k = 1) as Hk by (intros; lia).
  split; [done|done|done|done| |].
  - intros k ? ?. by destruct (Hk k) as [->| ->].
  - intros k k' ? ? ? ?. by destruct (Hk k) as [->| ->], (Hk k') as [->| ->].
Qed.
Lemma ex_map_inode_eq q j : map_inode ex_fs q j → q = 1 ∧ j = ex_map_inode.
Proof. intros (_ & f & [= <-] & <- & [= <-]). done. Qed.
Lemma ex_map_sector n : map_sector ex_fs n → n = 2.
Proof.
  intros (q & j & [-> ->]%ex_map_inode_eq & k & Hk & Hk' & <-).
  change (len ex_map_inode) with 8 in Hk'. by assert (k = 0) as -> by lia.
Qed.
Lemma ex_map_ok : map_ok ex_fs.
Proof.
  split; [apply ex_dev_ok| |done|].
  - split; [split|..]; try done. by repeat constructor.
  - intros _. exists 1, ex_map_inode. assert (∀ k, 0 ≤ k → 512 * k < 8 → k = 0) as Hk by (intros; lia).
    split; [by split; [|exists (mk_file 1 0 false)]|]. split.
    { split; [done|done|done|done| |].
      - intros k ? ?. by rewrite (Hk k).
      - intros k k' ? ? ? ? _. by rewrite (Hk k), (Hk k'). }
    split; [done|]. split; [done|]. intros n (k & ? & ? & <-). by rewrite (Hk k).
Qed.
Lemma ex_open_ok : open_ok ex_fs.
Proof.
  split; simpl.
  - repeat constructor; set_solver.
  - intros p Hp. repeat (apply elem_of_cons in Hp as [->|Hp]; [eexists; done|]). by apply elem_of_nil in Hp.
  - intros p q i j Hp Hq. repeat (apply elem_of_cons in Hp as [->|Hp]); try by apply elem_of_nil in Hp.
    all: repeat (apply elem_of_cons in Hq as [->|Hq]); try by apply elem_of_nil in Hq.
    all: try done. all: by intros [= <-] [= <-].
  - intros p i. rewrite lookup_insert_Some. intros [[<- _]|[_ [<- _]%lookup_singleton_Some]]; lia.
Qed.

Lemma inode_open_shares_witness :
  wp (inode_open 3) ex_fs (λ p s', open_ok s' ∧ open_at s' 3 p).
Proof.
  eapply wp_mono; [apply (inode_open_shares ex_fs 3)|].
  - apply ex_open_ok.
  - apply ex_dev_ok.
  - apply ex_heap_ok.
  - done.
  - intros p s' (? & ? & _). done.
Defined.

Lemma inode_write_read_witness :
  wp (n ← inode_write_at 1 2 (replicate 300 7) 300 290; r ← inode_read_at 2 300 290; mret (n, r)) ex_fs
    (λ '(n, r) s', n = 300 ∧ r = (300, replicate 300 7)).
Proof.
  eapply wp_mono; [apply (inode_write_read 1 ex_fs 2 ex_inode (replicate 300 7) 300 290)|].
  all: try done.
  - apply ex_file_ok.
  - intros [n r] s' (-> & -> & _). done.
Defined.


Lemma inode_read_across_end_witness :
  wp (inode_read_at 2 100 550) ex_fs (λ r s', r = (0, content ex_fs ex_inode 550 50)).
Proof.
  apply (inode_read_across_end ex_fs 2 ex_inode 100 550);
    [apply ex_file_ok|apply ex_dev_ok|apply ex_heap_ok|done..].
Defined.

Lemma inode_write_across_end_witness :
  match write_loop (write_free_map 1) 1000 2 (replicate 100 7) 100 550 0 false ex_fs with
  | Ok _ => False | _ => True end.
Proof.
  destruct (write_loop _ _ _ _ _ _ _ _ _) as [[n s']| | |] eqn:E; [|done..].
  destruct (inode_write_across_end 1 1000 ex_fs s' 2 ex_inode (replicate 100 7) 100 550 0 false n) as [Hn _];
    [done|apply ex_heap_ok|done|done|done|done|exact (Hn E)].
Defined.

Lemma inode_remove_leaks_witness :
  wp (inode_remove 2;; inode_close 1 2) ex_fs (λ _ s',
    bit (free_map s') 3 = false ∧ bit (free_map s') 4 = true ∧ bit (free_map s') 5 = true).
Proof.
  eapply wp_mono; [apply (inode_remove_leaks 0 ex_fs 2 ex_inode)|].
  - apply ex_map_ok.
  - apply ex_heap_ok.
  - done.
  - apply ex_file_ok.
  - set_solver.
  - intros q j [-> _]%ex_map_inode_eq. done.
  - done.
  - done.
  - done.
  - done.
  - intros E%ex_map_sector. done.
  - intros _ s' (_ & H3 & Hn). split; [done|]. by rewrite !Hn.
Defined.
End example.
