(* ===== verification/Directory.v ===== *)
(** * Directories and paths: filesys/directory.c, filesys/filesys.c and the
    path functions of userprog/syscall.c

    A directory entry is the 20 bytes of struct dir_entry; names are lists of
    characters without the null byte.  Paths are cut into names by strtok_r, whose
    result is [words] (CString.v).

    Several functions use variables that were never set.  [stack] says what they
    hold: [wild] is the pointer IN of dir_add, None if it does not point to memory
    that can be written; [old_entry] are the bytes of a struct dir_entry on the
    stack; [old_string] is the string that STOP of mkdir points to, if any.

    The arrays s[strlen (name)] that receive a copy of the name with its null byte
    are one byte short, and the variable save_ptr of get_dir and mkdir is a char
    whose address strtok_r takes for that of a pointer; the model assumes that the
    bytes behind them on the stack are not used. *)

From S2P Require Import Prelude Bitmap CString Block Inode.
Local Open Scope Z_scope.

Record stack := mk_stack { wild : option Z; old_entry : list Z; old_string : option (list Z) }.

Definition NAME_MAX : nat := 14.
Definition ENTRY_SIZE : Z := 20.
(** struct dir_entry: inode_sector, name[15], in_use. *)
Definition inode_sector (e : list Z) : Z := word e 0.
Definition in_use (e : list Z) : bool := negb (byte e 19 =? 0).
(** strcmp (name, mem) == 0, where reading past the end of [mem] is a fault. *)
Fixpoint name_eq (name mem : list Z) : option bool :=
  match name, mem with
  | _, [] => None
  | [], c :: _ => Some (c =? 0)
  | x :: name, c :: mem => if x =? c then name_eq name mem else Some false
  end.
(** The string at the start of [mem]. *)
Fixpoint string_at (mem : list Z) : option (list Z) :=
  match mem with
  | [] => None
  | c :: mem => if c =? 0 then Some [] else cons c <$> string_at mem
  end.
(** strlcpy (dst, name, n), for a name of fewer than n characters. *)
Definition copy_name (name old : list Z) : list Z := name ++ 0 :: drop (S (length name)) old.
Definition make_entry (sec : Z) (name : list Z) (used : Z) (old : list Z) : list Z :=
  word_bytes sec ++ copy_name name (take 15 (drop 4 old)) ++ [used].
Definition root_name : list Z := [47].
Definition dot : list Z := [46].
Definition dotdot : list Z := [46; 46].

Section directory.
Context {D : Type} `{!BlockOps D} (stk : stack) (nest : nat).
Notation F := (fs D).

Definition fetch_dir (d : Z) : M F dir := s ← get; from_option (dirs s !! d).
Definition set_dir (p : Z) (d : dir) : M F unit := modify (λ s, with_dirs (<[p := d]> (dirs s)) s).
Definition free_dir (d : Z) : M F unit := modify (λ s, with_dirs (delete d (dirs s)) s).

Definition dir_open (p : Z) : M F Z :=
  d ← alloc;
  if negb (p =? NULL) && negb (d =? NULL) then set_dir d (mk_dir false p 0 None);; mret d
  else inode_close nest p;; free_dir d;; mret NULL.
Definition dir_open_root : M F Z := p ← inode_open ROOT_DIR_SECTOR; dir_open p.
Definition dir_reopen (d : Z) : M F Z := x ← fetch_dir d; p ← inode_reopen (d_inode x); dir_open p.
Definition dir_close (d : Z) : M F unit :=
  if negb (d =? NULL) then x ← fetch_dir d; inode_close nest (d_inode x);; free_dir d else mret tt.
Definition dir_get_inode (d : Z) : M F Z := x ← fetch_dir d; mret (d_inode x).

(** The number of entries bounds the loops over a directory. *)
Definition dir_fuel (p : Z) : M F nat :=
  i ← get_inode p; mret (S (S (Z.to_nat (data_length (data i) / ENTRY_SIZE)))).

(** lookup: the entry, for *EP, and its offset, for *OFSP. *)
Fixpoint lookup_loop (fuel : nat) (p : Z) (name : list Z) (ofs : Z) : M F (option (list Z * Z)) :=
  match fuel with
  | O => nofuel
  | S fuel =>
    '(n, e) ← inode_read_at p ENTRY_SIZE ofs;
    if n =? ENTRY_SIZE then
      same ← (if in_use e then from_option (name_eq name (drop 4 e)) else mret false);
      if same : bool then mret (Some (e, ofs)) else lookup_loop fuel p name (ofs + ENTRY_SIZE)
    else mret None
  end.
Definition lookup_entry (d : Z) (name : list Z) : M F (option (list Z * Z)) :=
  assert (negb (d =? NULL));;
  x ← fetch_dir d;
  fuel ← dir_fuel (d_inode x);
  lookup_loop fuel (d_inode x) name 0.
(** The inode stored in *INODE; true is returned if it is not null. *)
Definition dir_lookup (d : Z) (name : list Z) : M F Z :=
  assert (negb (d =? NULL));;
  r ← lookup_entry d name;
  match r with
  | Some (e, _) => inode_open (inode_sector e)
  | None => mret NULL
  end.

(** The search for a free slot: its offset, and the bytes in E. *)
Fixpoint slot_loop (fuel : nat) (p : Z) (e : list Z) (ofs : Z) : M F (Z * list Z) :=
  match fuel with
  | O => nofuel
  | S fuel =>
    '(n, bs) ← inode_read_at p ENTRY_SIZE ofs;
    let e := bs ++ drop (length bs) e in
    if n =? ENTRY_SIZE then
      if negb (in_use e) then mret (ofs, e) else slot_loop fuel p e (ofs + ENTRY_SIZE)
    else mret (ofs, e)
  end.
Definition dir_add (d : Z) (name : list Z) (sec : Z) : M F bool :=
  assert (negb (d =? NULL));;
  if (length name =? 0)%nat || (NAME_MAX <? length name)%nat then mret false
  else
    r ← lookup_entry d name;
    match r with
    | Some _ => mret false
    | None =>
      x ← fetch_dir d;
      fuel ← dir_fuel (d_inode x);
      '(ofs, e) ← slot_loop fuel (d_inode x) (old_entry stk) 0;
      n ← inode_write_at nest (d_inode x) (make_entry sec name 1 e) ENTRY_SIZE ofs;
      let success := n =? ENTRY_SIZE in
      (** dir_lookup (dir, name, in) stores its result through IN *)
      dir_lookup d name;;
      g ← from_option (wild stk);
      dir_added ← dir_open g;
      y ← fetch_dir dir_added;
      set_dir dir_added (mk_dir (empty y) (d_inode y) (d_pos y) (Some name));;
      mret success
    end.
Definition dir_remove (d : Z) (name : list Z) : M F bool :=
  assert (negb (d =? NULL));;
  r ← lookup_entry d name;
  match r with
  | None => inode_close nest NULL;; mret false
  | Some (e, ofs) =>
    p ← inode_open (inode_sector e);
    if p =? NULL then inode_close nest p;; mret false
    else
      x ← fetch_dir d;
      n ← inode_write_at nest (d_inode x) (take 19 e ++ [0]) ENTRY_SIZE ofs;
      if negb (n =? ENTRY_SIZE) then inode_close nest p;; mret false
      else inode_remove p;; inode_close nest p;; mret true
  end.
(** The name stored in NAME, or None for false; strlcpy keeps 14 characters. *)
Fixpoint readdir_loop (fuel : nat) (d : Z) : M F (option (list Z)) :=
  match fuel with
  | O => nofuel
  | S fuel =>
    x ← fetch_dir d;
    '(n, e) ← inode_read_at (d_inode x) ENTRY_SIZE (d_pos x);
    if n =? ENTRY_SIZE then
      set_dir d (mk_dir (empty x) (d_inode x) (d_pos x + ENTRY_SIZE) (dir_name x));;
      if in_use e then name ← from_option (string_at (drop 4 e)); mret (Some (take NAME_MAX name))
      else readdir_loop fuel d
    else mret None
  end.
Definition dir_readdir (d : Z) : M F (option (list Z)) :=
  x ← fetch_dir d;
  fuel ← dir_fuel (d_inode x);
  readdir_loop fuel d.
Definition set_is_dir (p : Z) (z : Z) : M F unit :=
  i ← get_inode p;
  set_inode p (mk_inode (sector i) (open_cnt i) (removed i) (deny_write_cnt i) (data i) z).
Definition dir_create (sec entry_cnt : Z) : M F bool :=
  success ← inode_create nest sec (s32 (entry_cnt * ENTRY_SIZE));
  p ← inode_open sec;
  first_dir ← dir_open p;
  x ← fetch_dir first_dir;
  set_is_dir (d_inode x) (-1);;
  dir_add first_dir dot sec;;
  dir_add first_dir dotdot sec;;
  mret success.

(** ** Paths *)

(** A struct inode of zeros, allocated but not opened. *)
Definition zero_inode : inode := mk_inode 0 0 false 0 (mk_disk 0 0 0 (replicate 125 0)) 0.
Definition bad_dir_name : list Z :=
  [84; 72; 73; 83; 32; 73; 83; 32; 65; 32; 66; 65; 68; 32; 68; 73; 82]. (* THIS IS A BAD DIR *)
(** dir_lookup stores the inode it opens in the first word of the block
    CUR_INODE, and dir_open takes the block itself as the inode. *)
Fixpoint get_dir_loop (tokens : list (list Z)) (curr_dir bad_dir cur_inode : Z) : M F Z :=
  match tokens with
  | [] => free_dir bad_dir;; mret curr_dir
  | token :: tokens =>
    p ← dir_lookup curr_dir token;
    (if cur_inode =? NULL then fault else mret tt);;
    if p =? NULL then mret bad_dir
    else
      curr_dir ← dir_open cur_inode;
      get_dir_loop tokens curr_dir bad_dir cur_inode
  end.
Definition get_dir (current_dir : Z) (path : list Z) : M F Z :=
  bad_dir ← alloc;
  (if bad_dir =? NULL then fault else mret tt);;
  set_dir bad_dir (mk_dir false NULL (-1) (Some bad_dir_name));;
  curr_dir ← (if bool_decide (head path = Some 47) then dir_open_root else mret current_dir);
  cur_inode ← alloc;
  (if cur_inode =? NULL then mret tt else set_inode cur_inode zero_inode);;
  get_dir_loop (words [47] path) curr_dir bad_dir cur_inode.

(** filesys_create; [i] is the counter of that name, returned with the result.  A
    path without a name leaves SAVE_TOK unset, and following it is a fault. *)
Definition create_in (d : Z) (name : list Z) (initial_size : Z) : M F bool :=
  if d =? NULL then mret false
  else
    r ← free_map_allocate nest 1;
    match r with
    | None => mret false
    | Some sec =>
      ok ← inode_create nest sec initial_size;
      if ok : bool then dir_add d name sec else mret false
    end.
Definition filesys_create (i current_dir : Z) (name : list Z) (initial_size : Z) : M F (bool * Z) :=
  if i <=? 1 then
    d ← dir_open_root;
    success ← create_in d name initial_size;
    mret (success, i + 1)
  else
    save ← from_option (last (words [47] name));
    success ← create_in current_dir save initial_size;
    mret (success, i).
Definition filesys_open (name : list Z) : M F Z :=
  d ← dir_open_root;
  if bool_decide (name = root_name) then x ← fetch_dir d; file_open nest (d_inode x)
  else
    p ← (if negb (d =? NULL) && bool_decide (head name = Some 47) then dir_lookup d (tail name)
         else dir_lookup d name);
    dir_close d;;
    file_open nest p.
(** The comparison path == "" of two pointers is false. *)
Definition filesys_remove (current_dir : Z) (path : list Z) : M F bool :=
  if bool_decide (path = root_name) then mret false
  else
    d ← get_dir current_dir path;
    x ← fetch_dir d;
    if negb (empty x) then mret false
    else
      delete_name ← from_option (last (words [47] path));
      success ← (if negb (d =? NULL) then root ← dir_open_root; dir_remove root delete_name else mret false);
      dir_close d;;
      mret success.

Definition do_format : M F unit :=
  free_map_create nest;;
  ok ← dir_create ROOT_DIR_SECTOR 16;
  (if ok : bool then mret tt else panic);;
  free_map_close nest.
(** filesys_init, when the file system device has been found; it also sets the
    counter i to 0. *)
Definition filesys_init (format : bool) : M F unit :=
  inode_init;;
  free_map_init;;
  (if format then do_format else mret tt);;
  free_map_open nest.
Definition filesys_done : M F unit := free_map_close nest.

(** ** System calls on directories

    The semaphore around them is left out. *)

Definition chdir (current_dir : Z) (path : list Z) : M F bool :=
  alloc;;
  d ← get_dir current_dir path;
  x ← fetch_dir d;
  if d_pos x =? -1 then free_dir d;; mret false
  else
    _ ← fetch_dir current_dir;
    set_dir current_dir x;;
    mret true.

Definition set_empty (d : Z) (b : bool) : M F unit :=
  x ← fetch_dir d; set_dir d (mk_dir b (d_inode x) (d_pos x) (dir_name x)).
(** The string comparison with STOP, and the stores through CUR_INODE; both are
    variables that were never set. *)
Fixpoint mkdir_loop (tokens : list (list Z)) (curr_dir : Z) : M F bool :=
  match tokens with
  | [] => set_empty curr_dir false;; mret false
  | token :: tokens =>
    stop ← from_option (old_string stk);
    if bool_decide (token = stop) then
      p ← dir_lookup curr_dir token;
      _ ← from_option (wild stk);
      if negb (p =? NULL) then set_empty curr_dir false;; mret false
      else
        r ← free_map_allocate nest 1;
        let sec := default 0 r in
        dir_create sec 128;;
        dir_add curr_dir stop sec;;
        set_empty curr_dir false;;
        mret true
    else
      p ← dir_lookup curr_dir token;
      g ← from_option (wild stk);
      if p =? NULL then set_empty curr_dir false;; mret false
      else curr_dir ← dir_open g; mkdir_loop tokens curr_dir
  end.
Definition mkdir (path : list Z) : M F bool :=
  if bool_decide (path = []) then mret false
  else
    curr_dir ← dir_open_root;
    (** get_last (dir, stop) does not set STOP, but follows the last name *)
    _ ← from_option (last (words [47] path));
    mkdir_loop (words [47] path) curr_dir.
End directory.
