(* ===== verification/DirThms.v ===== *)
(** * Theorems on filesys/directory.c and filesys/filesys.c

    A directory is a finite map from names to sectors: lookup and dir_add.  Then
    two consequences of bugs: nested paths do not resolve, and no file can be
    removed. *)

From S2P Require Import Prelude Bitmap CString Block BlockThms Inode InodeInv FreeMap InodeThms Directory.
Local Open Scope Z_scope.
Local Ltac Zify.zify_post_hook ::= Z.to_euclidean_division_equations.

(** ** Names *)

Lemma name_eq_string name mem nm :
  string_at mem = Some nm → Forall (λ c, c ≠ 0) name → name_eq name mem = Some (bool_decide (name = nm)).
Proof.
  revert name nm. induction mem as [|c mem IH]; intros name nm; [done|]. simpl.
  destruct (Z.eqb_spec c 0) as [->|Hc].
  - intros [= <-] Hn. destruct name as [|x name]; [done|]. apply Forall_cons in Hn as [Hx _]. simpl.
    by rewrite (proj2 (Z.eqb_neq _ _)).
  - destruct (string_at mem) as [nm'|]; [|done]. simpl. intros [= <-] Hn.
    destruct name as [|x name]; simpl; [by rewrite (proj2 (Z.eqb_neq _ _))|].
    apply Forall_cons in Hn as [_ Hn]. destruct (Z.eqb_spec x c) as [->|Hxc].
    + rewrite (IH _ _ eq_refl Hn). f_equal. apply bool_decide_ext. split; congruence.
    + f_equal. symmetry. apply bool_decide_false. congruence.
Qed.

Lemma string_at_app name rest : Forall (λ c, c ≠ 0) name → string_at (name ++ 0 :: rest) = Some name.
Proof.
  induction 1 as [|c name Hc _ IH]; [done|]. simpl. by rewrite (proj2 (Z.eqb_neq _ _)), IH by done.
Qed.

Section directories.
Context {D : Type} `{BlockDevice D}.
Notation F := (fs D).
Implicit Types (s : F) (i : inode).

(** ** A directory as a map *)

Definition entry s i (k : Z) : list Z := content s i (20 * k) 20.
(** Every name in use ends with a null byte. *)
Definition entries_ok s i : Prop := ∀ k, 0 ≤ k → 20 * (k + 1) ≤ len i →
  in_use (entry s i k) = true → is_Some (string_at (drop 4 (entry s i k))).
Definition matches s i (name : list Z) (k : Z) : bool :=
  in_use (entry s i k) && bool_decide (string_at (drop 4 (entry s i k)) = Some name).
(** The first entry with a name, among the [n] entries from [k] on. *)
Fixpoint find_from s i (name : list Z) (n : nat) (k : Z) : option Z :=
  match n with
  | O => None
  | S n => if matches s i name k then Some k else find_from s i name n (k + 1)
  end.
Definition find_entry s i (name : list Z) : option Z := find_from s i name (Z.to_nat (len i / 20)) 0.
Definition dir_map s i (name : list Z) : option Z :=
  k ← find_entry s i name; Some (inode_sector (entry s i k)).

Record directory s (d : Z) (x : dir) i : Prop := {
  dr_dir : dirs s !! d = Some x;
  dr_null : d ≠ NULL;
  dr_file : file_ok s (d_inode x) i;
  dr_len : len i < DIRECT_BYTES;
  dr_entries : entries_ok s i;
  dr_dev : dev_ok (fs_device s);
  dr_heap : heap_ok s;
}.

Lemma entry_none s s' p i k :
  frame none s s' → file_ok s p i → 0 ≤ k → 20 * (k + 1) ≤ len i → entry s' i k = entry s i k.
Proof. intros. apply (content_none s s' p); [done|done|lia..]. Qed.

Lemma directory_frame s s' d x i : frame none s s' → directory s d x i → directory s' d x i.
Proof.
  intros Hf [? ? Hok Hl He ? ?]. split; try done.
  - by rewrite (fr_dirs _ _ _ Hf).
  - by eapply file_ok_frame.
  - intros k Hk Hk'. rewrite (entry_none s s' (d_inode x)) by done. by apply He.
  - apply Hf.
  - by eapply heap_ok_frame.
Qed.

Lemma matches_ext s s' i name k : entry s' i k = entry s i k → matches s' i name k = matches s i name k.
Proof. intros E. unfold matches. by rewrite E. Qed.
Lemma find_from_ext s s' i name n k :
  (∀ j, k ≤ j < k + Z.of_nat n → matches s' i name j = matches s i name j) →
  find_from s' i name n k = find_from s i name n k.
Proof.
  revert k. induction n as [|n IH]; intros k Hj; [done|]. simpl. rewrite Hj by lia.
  by rewrite IH by (intros; apply Hj; lia).
Qed.
Lemma find_from_Some s i name n k j :
  find_from s i name n k = Some j → k ≤ j < k + Z.of_nat n ∧ matches s i name j = true.
Proof.
  revert k. induction n as [|n IH]; intros k; [done|]. simpl.
  destruct (matches s i name k) eqn:E; [intros [= <-]; split; [lia|done]|]. intros (? & ?)%IH. split; [lia|done].
Qed.
Lemma dir_map_free s i name :
  (∀ k, 0 ≤ k < len i / 20 → in_use (entry s i k) = false) → dir_map s i name = None.
Proof.
  intros Hf. unfold dir_map. destruct (find_entry s i name) as [k|] eqn:E; [|done].
  apply find_from_Some in E as [Hk Hm]. unfold matches in Hm. by rewrite Hf in Hm by lia.
Qed.
Lemma find_from_None s i name n k j :
  find_from s i name n k = None → k ≤ j < k + Z.of_nat n → matches s i name j = false.
Proof.
  revert k. induction n as [|n IH]; intros k; [lia|]. simpl.
  destruct (matches s i name k) eqn:E; [done|]. intros Hf Hj. destruct (decide (j = k)) as [->|]; [done|].
  apply (IH _ Hf). lia.
Qed.
Lemma find_from_first s i name n k j :
  k ≤ j < k + Z.of_nat n → matches s i name j = true → (∀ l, k ≤ l < j → matches s i name l = false) →
  find_from s i name n k = Some j.
Proof.
  revert k. induction n as [|n IH]; intros k Hj Hm Hl; [lia|]. simpl.
  destruct (decide (j = k)) as [->|]; [by rewrite Hm|]. rewrite Hl by lia. apply IH; [lia|done|]. intros; apply Hl; lia.
Qed.

(** ** Looking up *)

(** One read of an entry, or of the place behind the last one. *)
Lemma wp_read_entry s p i k Q :
  file_ok s p i → dev_ok (fs_device s) → heap_ok s → len i < DIRECT_BYTES → 0 ≤ k ≤ len i / 20 →
  (∀ s' e, frame none s s' → free_map s' = free_map s →
     if decide (k < len i / 20) then e = entry s i k → Q (20, e) s' else Q (0, e) s') →
  wp (inode_read_at p ENTRY_SIZE (20 * k)) s Q.
Proof.
  intros Hok Hd Hh Hl Hk HQ. pose proof (fo_len _ _ _ Hok) as Hlen.
  apply (wp_inode_read_at _ _ i); [done|done|done|done|lia| |].
  { unfold ENTRY_SIZE, DIRECT_BYTES in *. lia. }
  intros s' Hf Hm. unfold read_result, ENTRY_SIZE. destruct (decide (k < len i / 20)).
  - rewrite decide_True by lia. by apply (HQ s' (entry s i k) Hf Hm).
  - rewrite decide_False by lia. by apply HQ.
Qed.

Lemma wp_lookup_loop fuel s d x i name k Q :
  directory s d x i → Forall (λ c, c ≠ 0) name → 0 ≤ k ≤ len i / 20 →
  (Z.to_nat (len i / 20 - k) < fuel)%nat →
  (∀ s', frame none s s' → free_map s' = free_map s →
     Q ((λ j, (entry s i j, 20 * j)) <$> find_from s i name (Z.to_nat (len i / 20 - k)) k) s') →
  wp (lookup_loop fuel (d_inode x) name (20 * k)) s Q.
Proof.
  revert s k. induction fuel as [|fuel IH]; intros s k Hd Hn Hk Hfuel HQ; [lia|].
  pose proof Hd as [_ _ Hok Hl He Hdev Hh]. cbn [lookup_loop]. wp_step.
  apply (wp_read_entry _ _ i); [done..|]. intros s1 e F1 M1. destruct (decide (k < len i / 20)) as [Hlt|Hge].
  - intros ->. change (20 =? ENTRY_SIZE) with true. cbv iota. wp_step.
    replace (Z.to_nat (len i / 20 - k)) with (S (Z.to_nat (len i / 20 - (k + 1)))) in HQ by lia. simpl in HQ.
    assert (∀ s2, frame none s s2 → free_map s2 = free_map s → matches s i name k = false →
      wp (lookup_loop fuel (d_inode x) name (20 * k + ENTRY_SIZE)) s2 Q) as Hnext.
    { intros s2 F2 M2 Hm. replace (20 * k + ENTRY_SIZE) with (20 * (k + 1)) by (unfold ENTRY_SIZE; lia).
      apply IH; [by eapply directory_frame|done|lia|lia|]. intros s' F' M'. rewrite Hm in HQ.
      assert (∀ j, 0 ≤ j < len i / 20 → entry s2 i j = entry s i j) as Ee.
      { intros j Hj. eapply (entry_none s s2); [done..|lia|lia]. }
      erewrite find_from_ext by (intros j Hj; apply matches_ext, Ee; lia).
      assert ((λ j, (entry s2 i j, 20 * j)) <$> find_from s i name (Z.to_nat (len i / 20 - (k + 1))) (k + 1) =
        (λ j, (entry s i j, 20 * j)) <$> find_from s i name (Z.to_nat (len i / 20 - (k + 1))) (k + 1)) as ->.
      { destruct (find_from _ _ _ _ _) eqn:E; [|done]. apply find_from_Some in E as [? _]. simpl.
        by rewrite Ee by lia. }
      apply HQ; [by eapply frame_trans|congruence]. }
    unfold matches in *. destruct (in_use (entry s i k)) eqn:Eu; cbn [andb] in *.
    + destruct (He k) as [nm Enm]; [lia..|done|]. rewrite (name_eq_string _ _ nm) by done.
      apply (wp_from_option _ (bool_decide (name = nm))); [done|]. rewrite Enm in *.
      destruct (decide (name = nm)) as [->|Hne].
      * rewrite bool_decide_true by done. wp_step. rewrite bool_decide_true in HQ by done. by apply HQ.
      * rewrite bool_decide_false by done. apply Hnext; [done..|]. apply bool_decide_false. congruence.
    + wp_step. by apply Hnext.
  - change (0 =? ENTRY_SIZE) with false. cbv iota. wp_step. specialize (HQ s1 F1 M1).
    by replace (Z.to_nat (len i / 20 - k)) with 0%nat in HQ by lia.
Qed.

Lemma wp_fetch_dir s d x Q : dirs s !! d = Some x → Q x s → wp (fetch_dir d) s Q.
Proof. intros E HQ. unfold fetch_dir. do 2 wp_step. by apply (wp_from_option _ x). Qed.
Lemma wp_dir_fuel s p i Q :
  inodes s !! p = Some i → Q (S (S (Z.to_nat (len i / 20)))) s → wp (dir_fuel p) s Q.
Proof. intros E HQ. unfold dir_fuel. wp_step. apply (wp_get_inode _ _ i); [done|]. by wp_step. Qed.

Lemma wp_lookup_entry s d x i name Q :
  directory s d x i → Forall (λ c, c ≠ 0) name →
  (∀ s', frame none s s' → free_map s' = free_map s →
     Q ((λ j, (entry s i j, 20 * j)) <$> find_entry s i name) s') →
  wp (lookup_entry d name) s Q.
Proof.
  intros Hd Hn HQ. pose proof Hd as [Ed Hnull Hok Hl He Hdev Hh]. unfold lookup_entry. wp_step.
  wp_step; [by rewrite (proj2 (Z.eqb_neq _ _))|]. wp_step. apply (wp_fetch_dir _ _ x); [done|]. wp_step.
  apply (wp_dir_fuel _ _ i); [apply Hok|]. replace 0 with (20 * 0) at 1 by lia. pose proof (fo_len _ _ _ Hok).
  eapply wp_lookup_loop; [done|done|lia|lia|]. by rewrite Z.sub_0_r.
Qed.

(** ** Adding *)

Lemma entry_length s i k : length (entry s i k) = 20%nat.
Proof. apply content_length. Qed.

Lemma wp_slot_loop fuel s d x i e k k0 Q :
  directory s d x i → length e = 20%nat → 0 ≤ k ≤ k0 → k0 < len i / 20 →
  in_use (entry s i k0) = false → (∀ j, k ≤ j < k0 → in_use (entry s i j) = true) →
  (Z.to_nat (k0 - k) < fuel)%nat →
  (∀ s', frame none s s' → free_map s' = free_map s → Q (20 * k0, entry s i k0) s') →
  wp (slot_loop fuel (d_inode x) e (20 * k)) s Q.
Proof.
  revert s k e. induction fuel as [|fuel IH]; intros s k e Hd Hel Hk Hk0 Hfree Hused Hfuel HQ; [lia|].
  pose proof Hd as [_ _ Hok Hl He Hdev Hh]. cbn [slot_loop]. wp_step.
  apply (wp_read_entry _ _ i); [done|done|done|done|lia|]. intros s1 bs F1 M1. rewrite decide_True by lia. intros ->.
  assert (drop (length (entry s i k)) e = []) as -> by (apply drop_ge; rewrite entry_length; lia).
  rewrite app_nil_r. change (20 =? ENTRY_SIZE) with true. cbv iota.
  destruct (decide (k = k0)) as [->|Hne].
  - rewrite Hfree. cbn [negb]. wp_step. by apply HQ.
  - rewrite Hused by lia. cbn [negb].
    replace (20 * k + ENTRY_SIZE) with (20 * (k + 1)) by (unfold ENTRY_SIZE; lia).
    assert (∀ j, 0 ≤ j < len i / 20 → entry s1 i j = entry s i j) as Ee.
    { intros j Hj. eapply (entry_none s s1); [done..|lia|lia]. }
    apply IH; [by eapply directory_frame|apply entry_length|lia|done| | |lia|].
    + by rewrite Ee by lia.
    + intros j Hj. rewrite Ee by lia. apply Hused. lia.
    + intros s' F' M'. rewrite Ee by lia. apply HQ; [by eapply frame_trans|congruence].
Qed.

(** The bytes that dir_add writes. *)
Lemma make_entry_spec sec name old :
  0 ≤ sec < 2 ^ 32 → Forall (λ c, c ≠ 0) name → (length name ≤ 14)%nat → length old = 20%nat →
  let e := make_entry sec name 1 old in
  length e = 20%nat ∧ inode_sector e = sec ∧ in_use e = true ∧ string_at (drop 4 e) = Some name.
Proof.
  intros Hs Hn Hl Ho e.
  assert (length (copy_name name (take 15 (drop 4 old))) = 15%nat) as Hc.
  { unfold copy_name. rewrite length_app. simpl. rewrite length_drop, length_take, length_drop. lia. }
  assert (length e = 20%nat) as He by (unfold e, make_entry; rewrite !length_app, Hc; done).
  split_and!; [done| | |].
  - unfold inode_sector, word, byte, e, make_entry. simpl. pose proof (word_bytes_word sec Hs). lia.
  - unfold in_use, byte, e, make_entry. rewrite lookup_app_r, lookup_app_r by (simpl; lia). simpl. by rewrite Hc.
  - unfold e, make_entry. rewrite drop_app_length'; [|done]. unfold copy_name. rewrite <-app_assoc. simpl.
    by apply string_at_app.
Qed.

Lemma written_entry s s' i buf k j :
  0 ≤ k → 20 * (k + 1) ≤ len i → 0 ≤ j → 20 * (j + 1) ≤ len i → length buf = 20%nat →
  written i buf 20 (20 * k) 0 s s' → entry s' i j = if decide (j = k) then buf else entry s i j.
Proof.
  intros Hk Hk' Hj Hj' Hb W. case_decide as E.
  - subst. unfold entry. rewrite (content_buffer s s' i buf) by (done || lia). apply take_ge. lia.
  - unfold entry, content. apply list_fmap_ext. intros m y Hm. apply lookup_seqZ in Hm.
    rewrite (wr_content _ _ _ _ _ _ _ W), decide_False by lia. done.
Qed.

(** The first slot that is free. *)
Lemma first_free s i k n :
  in_use (entry s i k) = false → 0 ≤ k < n →
  ∃ k0, 0 ≤ k0 < n ∧ in_use (entry s i k0) = false ∧ ∀ j, 0 ≤ j < k0 → in_use (entry s i j) = true.
Proof.
  intros Hf Hk. assert (∀ m : nat, (∀ j, 0 ≤ j < Z.of_nat m → in_use (entry s i j) = true) ∨
    ∃ k0, 0 ≤ k0 < Z.of_nat m ∧ in_use (entry s i k0) = false ∧ ∀ j, 0 ≤ j < k0 → in_use (entry s i j) = true) as Hm.
  { induction m as [|m [IH|(k0 & ? & ? & ?)]]; [left; lia| |right; exists k0; split_and!; done || lia].
    destruct (in_use (entry s i (Z.of_nat m))) eqn:E.
    - left. intros j Hj. destruct (decide (j = Z.of_nat m)) as [->|]; [done|]. apply IH. lia.
    - right. exists (Z.of_nat m). split_and!; [lia..|done|done]. }
  destruct (Hm (Z.to_nat (k + 1))) as [Hall|(k0 & ? & ? & ?)].
  - rewrite Hall in Hf by lia. done.
  - exists k0. split_and!; [lia..|done|done].
Qed.

(** What the new entry does to the map. *)
Lemma dir_map_added s s' i name sec k old :
  (∀ j, 0 ≤ j → 20 * (j + 1) ≤ len i → entry s' i j = if decide (j = k) then make_entry sec name 1 old else entry s i j) →
  0 ≤ sec < 2 ^ 32 → Forall (λ c, c ≠ 0) name → (length name ≤ 14)%nat → length old = 20%nat →
  0 ≤ k < len i / 20 → in_use (entry s i k) = false → find_entry s i name = None →
  find_entry s' i name = Some k ∧
  ∀ nm, dir_map s' i nm = if decide (nm = name) then Some sec else dir_map s i nm.
Proof.
  intros Ee Hs Hn Hl Ho Hk Hfree Hnone.
  destruct (make_entry_spec sec name old Hs Hn Hl Ho) as (_ & Esec & Euse & Estr).
  assert (∀ nm j, 0 ≤ j < len i / 20 → j ≠ k → matches s' i nm j = matches s i nm j) as Hother.
  { intros nm j Hj Hne. apply matches_ext. by rewrite Ee, decide_False by lia. }
  assert (entry s' i k = make_entry sec name 1 old) as Ek by by rewrite Ee, decide_True by lia.
  assert (find_entry s' i name = Some k) as Hfind.
  { unfold find_entry. apply find_from_first; [lia| |].
    - unfold matches. rewrite Ek, Euse, Estr. by rewrite bool_decide_true.
    - intros l Hl'. rewrite Hother by lia. by eapply (find_from_None _ _ _ _ _ _ Hnone); lia. }
  split; [done|]. intros nm. case_decide as Enm.
  - subst. unfold dir_map. rewrite Hfind. simpl. by rewrite Ek, Esec.
  - unfold dir_map. assert (find_entry s' i nm = find_entry s i nm) as ->.
    { apply find_from_ext. intros j Hj. destruct (decide (j = k)) as [->|]; [|by apply Hother; lia].
      unfold matches. rewrite Hfree, Ek, Euse, Estr. cbn [andb]. apply bool_decide_false. congruence. }
    destruct (find_entry s i nm) as [j|] eqn:E; [|done]. simpl. apply find_from_Some in E as [Hj Hm].
    rewrite Ee by lia. rewrite decide_False; [done|]. intros ->. unfold matches in Hm. by rewrite Hfree in Hm.
Qed.

Definition same_disk s s' : Prop := ∀ n, 0 ≤ n < dev_size (fs_device s) → disk s' n = disk s n.
Lemma same_disk_frame s s' : frame none s s' → same_disk s s'.
Proof. intros Hf n Hn. by apply (fr_disk _ _ _ Hf); [|intros []]. Qed.

Lemma dir_map_same s s' p i nm : same_disk s s' → file_ok s p i → dir_map s' i nm = dir_map s i nm.
Proof.
  intros Hd Hok. assert (∀ k, 0 ≤ k < len i / 20 → entry s' i k = entry s i k) as Ee.
  { intros k Hk. unfold entry, content. apply list_fmap_ext. intros m y Hm. apply lookup_seqZ in Hm.
    unfold content_at. rewrite Hd; [done|]. apply (fo_range _ _ _ Hok); lia. }
  unfold dir_map. assert (find_entry s' i nm = find_entry s i nm) as ->.
  { pose proof (fo_len _ _ _ Hok). apply find_from_ext. intros j Hj. apply matches_ext, Ee. lia. }
  destruct (find_entry s i nm) as [j|] eqn:E; [|done]. simpl. apply find_from_Some in E as [Hj _].
  pose proof (fo_len _ _ _ Hok). by rewrite Ee by lia.
Qed.

(** The call dir_open (in), where IN was not set, and the store of the name. *)
Lemma wp_dir_open_wild nest (g : Z) (name : list Z) (b : bool) s Q :
  g ≠ NULL → dev_ok (fs_device s) → heap_ok s →
  (∀ s', same_disk s s' → free_map s' = free_map s → Q b s') →
  wp (dir_added ← dir_open nest g; y ← fetch_dir dir_added;
      set_dir dir_added (mk_dir (empty y) (d_inode y) (d_pos y) (Some name));; mret b) s Q.
Proof.
  intros Hg Hd Hh HQ. wp_step. unfold dir_open. wp_step. apply wp_alloc; [apply Hh|done|]. intros s1 F1 M1 _.
  rewrite !(proj2 (Z.eqb_neq _ _)) by (done || unfold NULL; destruct Hh; lia). cbn [negb andb].
  unfold set_dir. do 4 wp_step. eapply wp_fetch_dir; [simpl; apply lookup_insert_eq|]. do 3 wp_step.
  apply HQ; [|done]. intros n Hn. simpl. by apply (same_disk_frame _ _ F1).
Qed.

Lemma wp_inode_open_disk sec s Q :
  open_ok s → dev_ok (fs_device s) → heap_ok s → 0 ≤ sec < dev_size (fs_device s) →
  (∀ p s', same_disk s s' → free_map s' = free_map s → dev_ok (fs_device s') → heap_ok s' →
     dev_size (fs_device s') = dev_size (fs_device s) → Q p s') →
  wp (inode_open sec) s Q.
Proof.
  intros Ho Hd Hh Hr HQ. apply wp_inode_open; [done..| |].
  - intros p i _ _. apply HQ; done.
  - intros _ p s' [_ _ F M _]. apply HQ; [|done|apply F| |apply F].
    + intros n Hn. by apply (same_disk_frame _ _ F).
    + pose proof (heap_ok_frame _ _ _ F Hh) as [? ?]. done.
Qed.

(** The directory after its new entry has been written. *)
Lemma directory_written s s' d x i k sec name old :
  directory s d x i → 0 ≤ k < len i / 20 → 0 ≤ sec < 2 ^ 32 → Forall (λ c, c ≠ 0) name →
  (length name ≤ 14)%nat → length old = 20%nat →
  written i (make_entry sec name 1 old) 20 (20 * k) 0 s s' →
  directory s' d x i ∧ ∀ j, 0 ≤ j → 20 * (j + 1) ≤ len i →
    entry s' i j = if decide (j = k) then make_entry sec name 1 old else entry s i j.
Proof.
  intros [Ed Hnull Hok Hlen Hent Hdev Hh] Hk Hs Hn Hl Ho W. pose proof (wr_frame _ _ _ _ _ _ _ W) as F.
  destruct (make_entry_spec sec name old) as (Hml & Hms & Hmu & Hmn); [done..|].
  assert (∀ j, 0 ≤ j → 20 * (j + 1) ≤ len i →
    entry s' i j = if decide (j = k) then make_entry sec name 1 old else entry s i j) as Ee.
  { intros j Hj Hj'. eapply written_entry; [lia..|done|done]. }
  split; [|done]. split; [by rewrite (fr_dirs _ _ _ F)|done|by eapply file_ok_frame|done| |apply F|by eapply heap_ok_frame].
  intros j Hj Hj'. rewrite Ee by done. case_decide; [intros _; by rewrite Hmn|by apply Hent].
Qed.

End directories.

(** ** Removing *)

Section remove.
Context {D : Type} `{BlockDevice D}.
Notation F := (fs D).
Implicit Types (s : F).

(** No struct dir says that it is empty: calloc clears the field, and nothing
    sets it. *)
Definition none_empty s : Prop := ∀ d x, dirs s !! d = Some x → empty x = false.
#[local] Instance none_empty_stable : Stable none_empty.
Proof.
  split; [done..|]. intros s Hs a s'. unfold alloc. destruct (outcomes s) as [|[] ?]; by intros [= _ <-].
Qed.

Lemma none_empty_modify (f : F → F) : (∀ s, dirs (f s) = dirs s) → keeps none_empty (modify f).
Proof. intros Hf s Hs. wlp_step. unfold none_empty. by rewrite Hf. Qed.
Lemma none_empty_set_inode p i : keeps none_empty (set_inode p i).
Proof. by apply none_empty_modify. Qed.
Lemma none_empty_set_dir p x : empty x = false → keeps none_empty (set_dir p x).
Proof.
  intros Hx s Hs. unfold set_dir. wlp_step. intros d y. simpl.
  intros [[_ <-]|[_ E]]%lookup_insert_Some; [done|by eapply Hs].
Qed.
Lemma none_empty_free_dir p : keeps none_empty (free_dir p).
Proof.
  intros s Hs. unfold free_dir. wlp_step. intros d y. simpl. intros [_ E]%lookup_delete_Some. by eapply Hs.
Qed.
Lemma none_empty_remove p : keeps none_empty (list_remove_inode p).
Proof. intros s Hs. unfold list_remove_inode. do 2 wlp_step. do 2 wlp_step. by intros a s' [= _ <-]. Qed.
Lemma fs_keeps_fetch_dir P d : keeps P (fetch_dir d : M F dir).
Proof. intros s Hs. unfold fetch_dir. do 2 wlp_step. by wlp_step. Qed.
#[local] Hint Resolve none_empty_modify none_empty_set_inode none_empty_set_dir none_empty_free_dir
  none_empty_remove fs_keeps_fetch_dir : fs_keeps.

Lemma none_empty_open_search l sec : keeps none_empty (open_search l sec).
Proof. induction l as [|p l IH]; cbn [open_search]; fs_keeps_solve. Qed.
Lemma none_empty_inode_open sec : keeps none_empty (inode_open sec).
Proof. pose proof none_empty_open_search. unfold inode_open, inode_reopen, read_sector. fs_keeps_solve. Qed.
Lemma none_empty_inode_close nest p : keeps none_empty (inode_close nest p).
Proof.
  pose proof (fs_keeps_write_map none_empty). unfold inode_close, free_map_release. fs_keeps_solve.
Qed.
Lemma none_empty_dir_open nest p : keeps none_empty (dir_open nest p).
Proof. pose proof none_empty_inode_close. unfold dir_open. fs_keeps_solve. Qed.
Lemma none_empty_lookup_loop fuel p name ofs : keeps none_empty (lookup_loop fuel p name ofs).
Proof.
  revert ofs. induction fuel as [|fuel IH]; intros ofs; [done|]. cbn [lookup_loop]. unfold inode_read_at.
  pose proof (fs_keeps_read_loop none_empty). fs_keeps_solve.
Qed.
Lemma none_empty_dir_lookup d name : keeps none_empty (dir_lookup d name).
Proof.
  pose proof none_empty_lookup_loop. pose proof none_empty_inode_open.
  unfold dir_lookup, lookup_entry, dir_fuel. fs_keeps_solve.
Qed.
Lemma none_empty_get_dir nest cur path : keeps none_empty (get_dir nest cur path).
Proof.
  assert (∀ ts c b q, keeps none_empty (get_dir_loop nest ts c b q)) as Hloop.
  { pose proof none_empty_dir_lookup. pose proof none_empty_dir_open.
    induction ts as [|t ts IH]; intros c b q; cbn [get_dir_loop]; fs_keeps_solve. }
  pose proof none_empty_inode_open. pose proof none_empty_dir_open.
  unfold get_dir, dir_open_root. fs_keeps_solve.
Qed.

(** filesys_remove never succeeds: it gives up if the field empty of a struct
    dir is false, and it always is. *)
Theorem filesys_remove_fails nest s s' cur path ok :
  none_empty s → filesys_remove nest cur path s = Ok (ok, s') → ok = false ∧ none_empty s'.
Proof.
  intros Hs E. revert ok s' E. change (wlp (filesys_remove nest cur path) s (λ ok s', ok = false ∧ none_empty s')).
  unfold filesys_remove. case_bool_decide; [by wlp_step|]. wlp_step.
  apply (wlp_keeps none_empty); [apply none_empty_get_dir|done|]. intros d s1 Hs1. wlp_step.
  unfold fetch_dir. do 2 wlp_step. intros x s2 Ex. destruct (dirs s1 !! d) as [y|] eqn:Ed; [|done].
  injection Ex as <- <-. rewrite (Hs1 d y Ed). cbn [negb]. by wlp_step.
Qed.
End remove.

(** ** Nested paths *)

Section nested.
Context {D : Type} `{BlockDevice D} (bad cur : Z).
Notation F := (fs D).
Implicit Types (s : F).

(** The directory that stands for a failed search is there, ... *)
Definition has_bad s : Prop :=
  dirs s !! bad = Some (mk_dir false NULL (-1) (Some bad_dir_name)) ∧ 0 < bad < next_block s.
(** ... and so is the block that get_dir passes to dir_lookup: it is no open
    inode. *)
Definition has_block s : Prop :=
  has_bad s ∧ inodes s !! cur = Some zero_inode ∧ cur ∉ open_inodes s ∧ 0 < cur < next_block s.

Lemma wlp_alloc s Q :
  (∀ a s', with_heap (outcomes s') (next_block s') s = s' → next_block s ≤ next_block s' →
     a = NULL ∨ a = next_block s ∧ a < next_block s' → Q a s') → wlp alloc s Q.
Proof.
  intros HQ a s' E. unfold alloc in E. destruct (outcomes s) as [|[] l]; injection E as <- <-;
    apply HQ; simpl; try done; lia || (right; lia) || by left.
Qed.
#[local] Instance has_bad_stable : Stable has_bad.
Proof. split; [done..|]. intros s [Hd Hb]. apply wlp_alloc. intros a s' <- Hn _. split; [done|]. simpl in *. lia. Qed.
#[local] Instance has_block_stable : Stable has_block.
Proof.
  split; [done..|]. intros s (Hb & Hi & Ho & Hc). apply wlp_alloc. intros a s' <- Hn _.
  split; [|split_and!; [done|done|simpl in *; lia..]]. destruct Hb. split; [done|]. simpl in *. lia.
Qed.

Lemma has_bad_modify (f : F → F) :
  (∀ s, dirs (f s) = dirs s) → (∀ s, next_block (f s) = next_block s) → keeps has_bad (modify f).
Proof. intros Hf Hn s Hs. wlp_step. unfold has_bad. by rewrite Hf, Hn. Qed.
Lemma has_bad_set_inode p i : keeps has_bad (set_inode p i).
Proof. by apply has_bad_modify. Qed.
Lemma has_bad_remove p : keeps has_bad (list_remove_inode p).
Proof. intros s Hs. unfold list_remove_inode. do 4 wlp_step. by intros ? ? [= _ <-]. Qed.
#[local] Hint Resolve has_bad_modify has_bad_set_inode has_bad_remove fs_keeps_fetch_dir : fs_keeps.

Lemma has_bad_inode_open sec : keeps has_bad (inode_open sec).
Proof.
  assert (∀ l, keeps has_bad (open_search l sec)).
  { induction l as [|p l IH]; cbn [open_search]; fs_keeps_solve. }
  unfold inode_open, inode_reopen, read_sector. fs_keeps_solve.
Qed.
Lemma has_bad_inode_close nest p : keeps has_bad (inode_close nest p).
Proof. pose proof (fs_keeps_write_map has_bad). unfold inode_close, free_map_release. fs_keeps_solve. Qed.

(** dir_open fails, or makes a directory for the inode. *)
Lemma wlp_dir_open nest p s Q :
  has_bad s →
  (∀ s', has_bad s' → Q NULL s') →
  (∀ d s', d ≠ NULL → inodes s' = inodes s → open_inodes s' = open_inodes s → next_block s ≤ next_block s' →
     has_bad s' → dirs s' !! d = Some (mk_dir false p 0 None) → Q d s') →
  wlp (dir_open nest p) s Q.
Proof.
  intros Hs HN HS. unfold dir_open. wlp_step. apply wlp_alloc. intros d s1 E1 Hn Hd.
  assert (has_bad s1) as Hs1 by (rewrite <-E1; destruct Hs; split; [done|simpl; lia]).
  destruct (Z.eqb_spec d NULL) as [->|Hd0]; [|destruct (Z.eqb_spec p NULL) as [->|Hp]]; cbn [negb andb].
  - rewrite andb_false_r. wlp_step. apply (wlp_keeps has_bad); [apply has_bad_inode_close|done|]. intros [] s2 Hs2.
    wlp_step. unfold free_dir. do 2 wlp_step. apply HN. destruct Hs2 as [Eb Hb]. split; [|done]. simpl.
    rewrite lookup_delete_ne; [done|]. unfold NULL. lia.
  - wlp_step. apply (wlp_keeps has_bad); [apply has_bad_inode_close|done|]. intros [] s2 Hs2.
    wlp_step. unfold free_dir. do 2 wlp_step. apply HN. destruct Hs2 as [Eb Hb]. split; [|done]. simpl.
    rewrite lookup_delete_ne; [done|]. destruct Hs. lia.
  - wlp_step. unfold set_dir. do 2 wlp_step. apply HS; simpl; [done|by rewrite <-E1|by rewrite <-E1|done| |apply lookup_insert_eq].
    destruct Hs1 as [Eb Hb]. split; simpl; [|done]. rewrite lookup_insert_ne; [done|]. destruct Hs. lia.
Qed.

Lemma has_block_inode_open sec : keeps has_block (inode_open sec).
Proof.
  intros s Hs. unfold inode_open. do 2 wlp_step. wlp_step.
  assert (∀ l, wlp (open_search l sec) s (λ r s', s' = s ∧ ∀ p, r = Some p → p ∈ l)) as Hsearch.
  { induction l as [|p l IH]; cbn [open_search]; [by wlp_step|]. wlp_step. unfold get_inode. do 3 wlp_step.
    case_match.
    - wlp_step. split; [done|]. intros q [= <-]. by left.
    - eapply wlp_mono; [apply IH|]. intros r s' [-> Hr]. split; [done|]. intros q Hq. right. by apply Hr. }
  eapply wlp_mono; [apply Hsearch|]. intros [p|] ? [-> Hp].
  - pose proof Hs as (Hb & Hi & Ho & Hc). specialize (Hp p eq_refl). unfold inode_reopen.
    case_match; [by wlp_step|]. wlp_step. unfold get_inode. do 3 wlp_step. wlp_step. unfold set_inode. do 2 wlp_step.
    split; [done|]. split; [|done]. simpl. rewrite lookup_insert_ne; [done|]. by intros ->.
  - wlp_step. apply wlp_alloc. intros p s1 E1 Hn Hp1. assert (has_block s1) as Hs1.
    { rewrite <-E1. destruct Hs as ([Eb Hb] & Hi & Ho & Hc). split; [split; [done|simpl; lia]|].
      split; [done|]; split; [done|]; simpl; lia. }
    case_match eqn:Ep; [by wlp_step|]. apply Z.eqb_neq in Ep. wlp_step.
    apply (wlp_keeps has_block); [apply fs_keeps_device, _|done|]. intros buf s2 (Hb & Hi & Ho & Hc). do 3 wlp_step.
    assert (p ≠ cur) by (destruct Hs as (_ & _ & _ & ?); lia). split; [done|]. simpl.
    split; [by rewrite lookup_insert_ne|]. split; [set_solver|done].
Qed.

Lemma has_block_dir_lookup d name : keeps has_block (dir_lookup d name : M F Z).
Proof.
  assert (∀ fuel p ofs, keeps has_block (lookup_loop fuel p name ofs)) as Hl.
  { induction fuel as [|fuel IH]; intros p ofs; [done|]. cbn [lookup_loop]. unfold inode_read_at.
    pose proof (fs_keeps_read_loop has_block). fs_keeps_solve. }
  pose proof has_block_inode_open. unfold dir_lookup, lookup_entry, dir_fuel. fs_keeps_solve.
Qed.

Lemma wlp_fetch s d x Q : dirs s !! d = Some x → Q x s → wlp (fetch_dir d) s Q.
Proof. intros E HQ y s'. unfold fetch_dir, mbind, M_bind, get. rewrite E. by intros [= <- <-]. Qed.
Lemma wlp_inode s p i Q : inodes s !! p = Some i → Q i s → wlp (get_inode p) s Q.
Proof. intros E HQ y s'. unfold get_inode, mbind, M_bind, get. rewrite E. by intros [= <- <-]. Qed.

(** Nothing is found in the directory whose inode is the zero block. *)
Lemma lookup_in_block d b x s :
  has_block s → dirs s !! d = Some x → d_inode x = cur →
  wlp (dir_lookup d b) s (λ p s', p = NULL ∧ has_bad s').
Proof.
  intros Hs Ed Ex. pose proof Hs as (Hb & Hi & _ & Hc). unfold dir_lookup. do 3 wlp_step. unfold lookup_entry.
  do 3 wlp_step. apply (wlp_fetch _ _ x); [done|]. wlp_step. unfold dir_fuel. wlp_step. rewrite Ex.
  apply (wlp_inode _ _ zero_inode); [done|]. wlp_step. generalize (S (Z.to_nat (data_length (data zero_inode) / ENTRY_SIZE))) as m. intros m.
  cbn [lookup_loop]. wlp_step.
  unfold inode_read_at. generalize (Z.to_nat ENTRY_SIZE) as n. intros n. cbn [read_loop].
  change (negb (0 <? ENTRY_SIZE)) with false. cbv iota. wlp_step. unfold byte_to_sector. do 3 wlp_step.
  apply (wlp_inode _ _ zero_inode); [done|].
  change ((0 <=? 0 `quot` BLOCK_SECTOR_SIZE) && (0 `quot` BLOCK_SECTOR_SIZE <=? 122)) with true. cbv iota zeta.
  wlp_step. unfold set_location. wlp_step. apply (wlp_keeps has_block); [apply fs_keeps_elem|done|]. intros z s1 Hs1.
  wlp_step. apply (wlp_inode _ _ zero_inode); [apply Hs1|].
  change (data_length (data zero_inode) <=? 0) with true. cbv iota. wlp_step.
  change (0 =? ENTRY_SIZE) with false. cbv iota. do 2 wlp_step. split; [done|apply Hs1].
Qed.

Lemma nested_loop nest a b rest d s :
  has_block s → wlp (get_dir_loop nest (a :: b :: rest) d bad cur) s (λ r s', r = bad ∧ has_bad s').
Proof.
  intros Hs. cbn [get_dir_loop]. wlp_step.
  apply (wlp_keeps has_block); [apply has_block_dir_lookup|done|]. intros p s1 Hs1. wlp_step.
  apply (wlp_keeps has_block); [fs_keeps_solve|done|]. intros [] s2 Hs2. case_match; [wlp_step; split; [done|apply Hs2]|].
  wlp_step. pose proof Hs2 as (Hb2 & Hi2 & Ho2 & Hc2). apply wlp_dir_open; [done|..].
  - intros s3 Hs3. wlp_step. unfold dir_lookup. do 2 wlp_step. done.
  - intros d' s3 Hd' Ei Eo Hn Hb3 Ed. wlp_step. eapply wlp_mono; [eapply (lookup_in_block d'); [|exact Ed|done]|].
    { split; [done|]. rewrite Ei, Eo. split; [done|]. split; [done|lia]. }
    intros q s4 [-> Hb4]. wlp_step. apply (wlp_keeps has_bad); [fs_keeps_solve|done|]. intros [] s5 Hs5.
    simpl. by wlp_step.
Qed.
End nested.

Section get_dir.
Context {D : Type} `{BlockDevice D}.
Notation F := (fs D).
Implicit Types (s : F).

(** The addresses of open inodes come from the allocator. *)
Definition below s : Prop := ∀ p, p ∈ open_inodes s → p < next_block s.
#[local] Instance below_stable : Stable below.
Proof. split; [done..|]. intros s Hs. apply wlp_alloc. intros a s' <- Hn _ p Hp%Hs. simpl in *. lia. Qed.
Lemma below_modify (f : F → F) :
  (∀ s, open_inodes (f s) = open_inodes s) → (∀ s, next_block (f s) = next_block s) → keeps below (modify f).
Proof. intros Hf Hn s Hs. wlp_step. unfold below. by rewrite Hf, Hn. Qed.
Lemma below_remove p : keeps below (list_remove_inode p).
Proof.
  intros s Hs. unfold list_remove_inode. do 4 wlp_step. intros ? ? [= _ <-] q. simpl.
  intros [_ Hq]%list_elem_of_filter. by apply Hs.
Qed.
#[local] Hint Resolve below_modify below_remove : fs_keeps.

Lemma below_open_root nest : keeps below (dir_open_root nest).
Proof.
  unfold dir_open_root. apply fs_keeps_bind; intros.
  - assert (∀ l sec, keeps below (open_search l sec)).
    { induction l as [|p l IH]; intros sec; cbn [open_search]; fs_keeps_solve. }
    unfold inode_open. apply fs_keeps_bind; [fs_keeps_solve|intros l]. apply fs_keeps_bind; [done|intros [p|]].
    { unfold inode_reopen, set_inode. fs_keeps_solve. }
    intros s Hs. wlp_step. apply wlp_alloc. intros p s1 E1 Hn Hp. assert (below s1) as Hs1.
    { intros q Hq. rewrite <-E1 in Hq. apply Hs in Hq. lia. }
    case_match eqn:Ep; [by wlp_step|]. apply Z.eqb_neq in Ep. wlp_step. unfold read_sector. intros buf s2.
    unfold zoom. destruct (dev_read _ _) as [[? dv]| | |]; [|done..]. intros [= _ <-]. do 3 wlp_step. intros q. simpl.
    intros [->|Hq]%elem_of_cons; [lia|by apply Hs1].
  - pose proof (fs_keeps_write_map below). unfold dir_open, inode_close, free_map_release, set_dir, free_dir, set_inode.
    fs_keeps_solve.
Qed.

Lemma has_bad_open_root bad nest : keeps (has_bad bad) (dir_open_root nest).
Proof.
  unfold dir_open_root. apply fs_keeps_bind; [apply has_bad_inode_open|]. intros p s Hs.
  apply (wlp_dir_open bad); [done|done|]. by intros.
Qed.

(** A path of two or more names never resolves: get_dir gives the directory that
    stands for failure, whatever is on the disk.  It looks the second name up in a
    struct inode of zeros, not in the directory that the first name led to. *)
Theorem get_dir_nested nest s s' current_dir path a b rest d :
  0 < next_block s → (∀ p, p ∈ open_inodes s → 0 < p < next_block s) →
  words [47] path = a :: b :: rest → get_dir nest current_dir path s = Ok (d, s') →
  ∃ x, dirs s' !! d = Some x ∧ d_pos x = -1.
Proof.
  intros Hn Ho Hw E. revert d s' E.
  change (wlp (get_dir nest current_dir path) s (λ d s', ∃ x, dirs s' !! d = Some x ∧ d_pos x = -1)).
  unfold get_dir. rewrite Hw. wlp_step. apply wlp_alloc. intros bad s1 E1 Hn1 Hbad. wlp_step.
  destruct (Z.eqb_spec bad NULL) as [->|Hne]; [wlp_step|]. wlp_step. wlp_step. unfold set_dir. wlp_step. wlp_step.
  match goal with |- wlp _ ?t _ => assert (has_bad bad t ∧ below t) as Hb2; [|revert Hb2; generalize t] end.
  { split; [split; simpl; [apply lookup_insert_eq|lia]|]. intros p Hp. simpl in *. rewrite <-E1 in Hp.
    apply Ho in Hp. lia. }
  clear s1 E1 Hn1 Hbad Hne. intros s1 [Hb1 Ho1].
  assert (keeps (λ s, has_bad bad s ∧ below s)
    (if bool_decide (head path = Some 47) then dir_open_root nest else mret current_dir)) as Hroot.
  { intros s2 [? ?] c s3 E3. case_bool_decide; [|by injection E3 as _ <-].
    split; [by eapply has_bad_open_root|by eapply below_open_root]. }
  apply (wlp_keeps _ _ _ _ Hroot); [done|]. intros c s2 [Hb2 Ho2]. wlp_step. apply wlp_alloc.
  intros cur s3 E3 Hn3 Hcur. wlp_step. destruct (Z.eqb_spec cur NULL) as [->|Hne].
  { wlp_step. cbn [get_dir_loop]. wlp_step. intros p s4 _. wlp_step. change (NULL =? NULL) with true. cbv iota. by wlp_step. }
  unfold set_inode. wlp_step.
  eapply wlp_mono; [apply (nested_loop bad cur)|].
  - destruct Hb2 as [Eb Hb]. split; [split; simpl; [by rewrite <-E3|lia]|]. simpl. split; [apply lookup_insert_eq|].
    split; [|lia]. rewrite <-E3. simpl. intros Hin%Ho2. lia.
  - intros r s4 [-> [Eb _]]. eexists. split; [exact Eb|done].
Qed.
End get_dir.

(** ** A small directory: 30 free entries in a file of 600 bytes *)

Section dir_example.
#[local] Existing Instance ex_ops.
#[local] Existing Instance ex_device.

Definition ex_dir : dir := mk_dir false 2 0 None.
Definition ex_dir_fs : fs (block ramdisk) :=
  mk_fs (mk_block (λ _, replicate 512 0) [] BLOCK_FILESYS 64 0 0) [2; 1]
    {[ 1 := ex_map_inode; 2 := ex_inode ]} {[ 3 := mk_file 1 0 false ]} {[ 5 := ex_dir ]}
    (mk_bitmap 64 [63; 0]) 3 DIRECT [] 6 (λ _, 0).
Definition ex_stack : stack := mk_stack (Some 100) (replicate 20 0) None.

Lemma ex_entry k : 0 ≤ k → 20 * (k + 1) ≤ 600 → entry ex_dir_fs ex_inode k = replicate 20 0.
Proof.
  intros Hk Hk'. unfold entry, content. apply list_eq_same_length with (n := 20%nat); [done|by rewrite length_fmap, length_seqZ|].
  intros j x y Hj. rewrite list_lookup_fmap. destruct (seqZ _ _ !! j) as [z|] eqn:Ez; [|done].
  cbn [fmap option_fmap option_map]. intros [= <-] Hy. apply lookup_replicate in Hy as [-> _].
  unfold content_at. change (disk ex_dir_fs _) with (replicate 512 0).
  destruct (replicate 512 0 !! _) eqn:E; [|done]. by apply lookup_replicate in E as [-> _].
Qed.
Lemma ex_directory : directory ex_dir_fs 5 ex_dir ex_inode.
Proof.
  split; [done|done| |done| | |done].
  - destruct ex_file_ok. by split.
  - intros k Hk Hk'. change (len ex_inode) with 600 in Hk'. by rewrite ex_entry.
  - split; [|done]. intros i. apply length_replicate.
Qed.
Lemma ex_dir_open_ok : open_ok ex_dir_fs.
Proof.
  destruct ex_open_ok as [? ? ? Hf]. split; [done..|]. intros p i Hp. apply Hf in Hp. simpl in *. lia.
Qed.


Lemma ex_none_empty : none_empty ex_dir_fs.
Proof. intros d x. unfold ex_dir_fs. cbn [dirs]. intros [<- <-]%lookup_singleton_Some. done. Qed.

Lemma filesys_remove_fails_witness :
  match filesys_remove 1 5 [47; 120] ex_dir_fs with Ok (ok, _) => ok = false | _ => False end.
Proof.
  assert (match filesys_remove 1 5 [47; 120] ex_dir_fs with Ok _ => true | _ => false end = true) as Hr
    by (vm_compute; reflexivity).
  destruct (filesys_remove 1 5 [47; 120] ex_dir_fs) as [[ok s']| | |] eqn:E; [|done..].
  apply (filesys_remove_fails 1 ex_dir_fs s' 5 [47; 120] ok); [apply ex_none_empty|exact E].
Defined.

Lemma get_dir_nested_witness :
  match get_dir 1 5 [47; 97; 47; 98] ex_dir_fs with
  | Ok (d, s') => ∃ x, dirs s' !! d = Some x ∧ d_pos x = -1 | _ => False end.
Proof.
  assert (match get_dir 1 5 [47; 97; 47; 98] ex_dir_fs with Ok _ => true | _ => false end = true) as Hr
    by (vm_compute; reflexivity).
  destruct (get_dir 1 5 [47; 97; 47; 98] ex_dir_fs) as [[d s']| | |] eqn:E; [|done..].
  apply (get_dir_nested 1 ex_dir_fs s' 5 [47; 97; 47; 98] [97] [98] [] d); [done| |done|exact E].
  intros p Hp. simpl in Hp. repeat (apply elem_of_cons in Hp as [->|Hp]; [done|]). by apply elem_of_nil in Hp.
Defined.
End dir_example.
