(* ===== verification/FilesysThms.v ===== *)
(** * Opening files by name: theorems on filesys/filesys.c

    What a file system holds is what is on the disk, as long as the inodes in memory
    agree with it.  Names of the root directory then lead to the bytes of their files. *)

From S2P Require Import Prelude Bitmap CString Block BlockThms Inode InodeInv FreeMap InodeThms Directory DirThms.
Local Open Scope Z_scope.
Local Ltac Zify.zify_post_hook ::= Z.to_euclidean_division_equations.

Section filesys.
Context {D : Type} `{BlockDevice D}.
Notation F := (fs D).
Implicit Types (s : F) (i : inode).

(** ** The state between calls *)

(** Every inode in memory is a copy of the one on the disk. *)
Record fs_ok s : Prop := {
  fk_open : open_ok s;
  fk_dev : dev_ok (fs_device s);
  fk_heap : heap_ok s;
  fk_synced p i : p ∈ open_inodes s → inodes s !! p = Some i →
    removed i = false ∧ 0 ≤ sector i < dev_size (fs_device s) ∧ data i = disk_of (disk s (sector i));
}.
(** The inode in a sector of the disk, and what it takes to be a file of direct
    sectors. *)
Definition node s (sec : Z) : inode := mk_inode sec 1 false 0 (disk_of (disk s sec)) 0.
Record node_ok s (sec : Z) : Prop := {
  no_sector : 0 ≤ sec < dev_size (fs_device s);
  no_len : 0 ≤ len (node s sec) < DIRECT_BYTES;
  no_sectors : length (sectors (data (node s sec))) = 125%nat;
  no_range k : 0 ≤ k → 512 * k < len (node s sec) → 0 ≤ sector_of (node s sec) k < dev_size (fs_device s);
  no_inj k k' : 0 ≤ k → 512 * k < len (node s sec) → 0 ≤ k' → 512 * k' < len (node s sec) →
    sector_of (node s sec) k = sector_of (node s sec) k' → k = k';
}.
Definition file_bytes s (sec : Z) : list Z := content s (node s sec) 0 (len (node s sec)).

(** An inode in memory that agrees with the disk. *)
Definition copy_of s (sec p : Z) i : Prop :=
  p ∈ open_inodes s ∧ inodes s !! p = Some i ∧ sector i = sec ∧ data i = data (node s sec).

Lemma content_data s i j pos n : data i = data j → content s i pos n = content s j pos n.
Proof. intros E. unfold content, content_at, sector_of. by rewrite E. Qed.
Lemma copy_file_ok s sec p i : fs_ok s → node_ok s sec → copy_of s sec p i → file_ok s p i.
Proof.
  intros Hf [Hs Hl Hn Hr Hi] (Hin & Ei & _ & Ed). pose proof (oo_fresh _ (fk_open _ Hf) _ _ Ei).
  assert (∀ k, sector_of i k = sector_of (node s sec) k) as Es by (intros k; unfold sector_of; by rewrite Ed).
  assert (len i = len (node s sec)) as El by (unfold len; by rewrite Ed).
  split; [done|unfold NULL; lia|lia|by rewrite Ed| |].
  - intros k. rewrite Es, El. apply Hr.
  - intros k k'. rewrite !Es, El. apply Hi.
Qed.

(** A call that touches at most the struct inode at [p]. *)
Record touches (p : Z) s s' : Prop := {
  to_disk : same_disk s s';
  to_size : dev_size (fs_device s') = dev_size (fs_device s);
  to_map : free_map s' = free_map s;
  to_other q : q ≠ p → inodes s' !! q = inodes s !! q ∧ (q ∈ open_inodes s' ↔ q ∈ open_inodes s);
  to_files : files s' = files s;
  to_dirs : dirs s' = dirs s;
}.
Lemma node_same s s' sec : same_disk s s' → 0 ≤ sec < dev_size (fs_device s) → node s' sec = node s sec.
Proof. intros Hd Hr. unfold node. by rewrite Hd. Qed.
Lemma node_ok_same s s' sec :
  same_disk s s' → dev_size (fs_device s') = dev_size (fs_device s) → node_ok s sec → node_ok s' sec.
Proof.
  intros Hd Hz [Hs Hl Hn Hr Hi]. pose proof (node_same _ _ _ Hd Hs) as E. split; rewrite ?E, ?Hz; try done.
Qed.
Lemma node_content_same s s' sec pos n : same_disk s s' → node_ok s sec → 0 ≤ pos → pos + n ≤ len (node s sec) →
  content s' (node s sec) pos n = content s (node s sec) pos n.
Proof.
  intros Hd Hok Hp Hn. unfold content. apply list_fmap_ext. intros k y Hk. apply lookup_seqZ in Hk.
  unfold content_at. rewrite Hd; [done|]. apply (no_range _ _ Hok); lia.
Qed.
Lemma file_bytes_same s s' sec : same_disk s s' → node_ok s sec → file_bytes s' sec = file_bytes s sec.
Proof.
  intros Hd Hok. unfold file_bytes. rewrite (node_same s s') by (done || apply Hok).
  apply node_content_same; [done|done|lia|lia].
Qed.

(** ** Opening and closing inodes *)
Lemma wp_open_inode s sec Q :
  fs_ok s → 0 ≤ sec < dev_size (fs_device s) →
  (∀ p i s', fs_ok s' → touches p s s' → copy_of s' sec p i → 1 ≤ open_cnt i →
     (∀ j, p ∈ open_inodes s → inodes s !! p = Some j → open_cnt i = open_cnt j + 1 ∧ sector j = sec) → Q p s') →
  wp (inode_open sec) s Q.
Proof.
  intros [Ho Hd Hh Hs] Hr HQ. apply wp_inode_open; [done..| |].
  - intros p i (Hin & j & Ej & Esec) Ei. rewrite Ei in Ej. injection Ej as <-. destruct (oo_in _ Ho p Hin) as (j & Ej & Hc).
    rewrite Ei in Ej. injection Ej as <-. destruct (Hs p i Hin Ei) as (Hrem & Hrange & Hdata).
    apply (HQ p (with_counts (open_cnt i + 1) (deny_write_cnt i) i)); simpl.
    + split; [apply open_ok_reopen; [done|done|lia]|done|done|]. intros q j Hq. simpl.
      intros [[<- <-]|[Hne E]]%lookup_insert_Some; [done|exact (Hs q j Hq E)].
    + split; try done. intros q Hq. simpl. by rewrite lookup_insert_ne.
    + split; [done|]. split; [apply lookup_insert_eq|]. split; [done|]. simpl. by rewrite Hdata, Esec.
    + lia.
    + intros j _ Ej. rewrite Ei in Ej. by injection Ej as <-.
  - intros Hno p s' Hop. pose proof Hop as [Eo Ei Fr Em [En En']]. assert (same_disk s s') as Hsd by exact (same_disk_frame _ _ Fr).
    assert (fs_ok s') as Hok.
    { split; [eapply open_ok_opened; [..|exact Hop]; done|apply Fr| |].
      - pose proof (heap_ok_frame _ _ _ Fr Hh) as [? ?]. by split.
      - intros q j Hq. rewrite Ei. pose proof (fr_size _ _ _ Fr) as Hz. simpl in Hz. rewrite Hz.
        intros [[<- <-]|[Hne E]]%lookup_insert_Some; simpl.
        + split; [done|]. split; [done|]. by rewrite (Hsd sec Hr).
        + rewrite Eo in Hq. apply elem_of_cons in Hq as [->|Hq]; [done|]. destruct (Hs q j Hq E) as (? & Hj & ->).
          split; [done|]. split; [done|]. by rewrite (Hsd _ Hj). }
    apply (HQ p (mk_inode sec 1 false 0 (disk_of (disk s sec)) (junk s p)) s' Hok); [|split; [rewrite Eo; by left|]; split; [rewrite Ei; apply lookup_insert_eq|]| |]; simpl.
    + split; [done|apply Fr|done| |apply Fr|apply Fr]. intros q Hq. rewrite Ei, Eo, lookup_insert_ne by done.
      split; [done|]. set_solver.
    + split; [done|]. by rewrite (Hsd sec Hr).
    + lia.
    + intros j Hin. destruct (oo_in _ Ho p Hin) as (k & Ek & _). pose proof (oo_fresh _ Ho _ _ Ek). lia.
Qed.
Lemma wp_close_inode nest s sec p i Q :
  fs_ok s → copy_of s sec p i →
  (∀ s', fs_ok s' → touches p s s' →
     (2 ≤ open_cnt i → copy_of s' sec p (with_counts (open_cnt i - 1) (deny_write_cnt i) i)) → Q tt s') →
  wp (inode_close nest p) s Q.
Proof.
  intros [Ho Hd Hh Hs] (Hin & Ei & Esec & Ed) HQ. pose proof (oo_fresh _ Ho _ _ Ei) as Hp.
  destruct (oo_in _ Ho p Hin) as (j & Ej & Hc). rewrite Ei in Ej. injection Ej as <-.
  destruct (Hs p i Hin Ei) as (Hrem & Hrange & Hdata).
  unfold inode_close. rewrite (proj2 (Z.eqb_neq _ _)) by (unfold NULL; lia). wp_step. apply (wp_get_inode _ _ i); [done|].
  unfold set_inode. do 2 wp_step. cbn [open_cnt with_counts removed]. destruct (Z.eqb_spec (open_cnt i - 1) 0) as [E1|E1].
  - rewrite Hrem. unfold list_remove_inode. wp_step. do 3 wp_step. wp_step; [by rewrite bool_decide_true|]. do 4 wp_step.
    apply HQ; [| |lia]; cbn [inodes open_inodes with_inodes].
    + split; [|done|done|].
      * destruct Ho as [Hn Hi Hsec Hf]. split; cbn [open_inodes inodes with_inodes next_block].
        -- by apply NoDup_filter.
        -- intros q [Hqp Hq]%list_elem_of_filter. rewrite lookup_delete_ne, lookup_insert_ne by done. by apply Hi.
        -- intros q r j k [Hqp Hq]%list_elem_of_filter [Hrp Hr]%list_elem_of_filter.
           rewrite !lookup_delete_ne, !lookup_insert_ne by done. by apply Hsec.
        -- intros q j [Hqp [[<- _]|[_ Eq]]%lookup_insert_Some]%lookup_delete_Some; [done|by eapply Hf].
      * intros q j [Hqp Hq]%list_elem_of_filter. cbn [inodes with_inodes]. rewrite lookup_delete_ne, lookup_insert_ne by done.
        by apply Hs.
    + split; try done. intros q Hq. cbn [inodes open_inodes with_inodes].
      rewrite lookup_delete_ne, lookup_insert_ne, list_elem_of_filter by done. naive_solver.
  - wp_step. apply HQ.
    + split; [apply open_ok_reopen; [done|done|lia]|done|done|]. intros q j Hq. simpl.
      intros [[<- <-]|[Hne E]]%lookup_insert_Some; [done|exact (Hs q j Hq E)].
    + split; try done. intros q Hq. simpl. by rewrite lookup_insert_ne.
    + intros _. split; [done|]. split; [apply lookup_insert_eq|]. done.
Qed.

(** ** Opening files by name *)
Lemma fs_ok_frame s s' : frame none s s' → fs_ok s → fs_ok s'.
Proof.
  intros Fr [[Hn Hi Hs Hf] Hd Hh Hy]. pose proof (same_disk_frame _ _ Fr) as Hsd. pose proof (fr_next _ _ _ Fr).
  split; [|apply Fr|by eapply heap_ok_frame|].
  - split; rewrite ?(fr_open _ _ _ Fr), ?(fr_inodes _ _ _ Fr); try done. intros p i E. apply Hf in E. lia.
  - intros p i. rewrite (fr_open _ _ _ Fr), (fr_inodes _ _ _ Fr), (fr_size _ _ _ Fr). intros Hp Ei.
    destruct (Hy p i Hp Ei) as (? & Hr & ->). split; [done|]. split; [done|]. by rewrite (Hsd _ Hr).
Qed.
Lemma copy_of_frame s s' sec p i : frame none s s' → fs_ok s → copy_of s sec p i → copy_of s' sec p i.
Proof.
  intros Fr Hok (Hp & Ei & Es & Ed). destruct (fk_synced _ Hok p i Hp Ei) as (_ & Hr & _). rewrite Es in Hr.
  split; [by rewrite (fr_open _ _ _ Fr)|]. split; [by rewrite (fr_inodes _ _ _ Fr)|]. split; [done|].
  by rewrite (node_same s s') by (done || by apply same_disk_frame).
Qed.
Lemma copy_of_touched s s' sec p q i : touches q s s' → fs_ok s → q ≠ p → copy_of s sec p i → copy_of s' sec p i.
Proof.
  intros Ht Hok Hq (Hp & Ei & Es & Ed). destruct (fk_synced _ Hok p i Hp Ei) as (_ & Hr & _). rewrite Es in Hr.
  destruct (to_other _ _ _ Ht p) as [E1 E2]; [done|].
  split; [by rewrite E2|]. split; [by rewrite E1|]. split; [done|]. by rewrite (node_same s s') by (done || apply Ht).
Qed.
(** What calls that open and close files keep. *)
Record quiet s s' : Prop := {
  qu_ok : fs_ok s';
  qu_disk : same_disk s s';
  qu_size : dev_size (fs_device s') = dev_size (fs_device s);
  qu_map : free_map s' = free_map s;
}.
Lemma quiet_trans s1 s2 s3 : quiet s1 s2 → quiet s2 s3 → quiet s1 s3.
Proof.
  intros [_ H1 Hz1 M1] [Hok H2 Hz2 M2]. split; [done| |congruence|congruence].
  intros n Hn. rewrite H2 by (by rewrite Hz1). by apply H1.
Qed.
Lemma quiet_frame s s' : frame none s s' → free_map s' = free_map s → fs_ok s → quiet s s'.
Proof. intros Fr Hm Hok. split; [by eapply fs_ok_frame|by apply same_disk_frame|apply Fr|done]. Qed.
Lemma quiet_touches p s s' : touches p s s' → fs_ok s' → quiet s s'.
Proof. intros [] Hok. by split. Qed.

(** The root directory, as a map. *)
Definition root_map s (name : list Z) : option Z := dir_map s (node s ROOT_DIR_SECTOR) name.
Record root_ok s : Prop := {
  rt_node : node_ok s ROOT_DIR_SECTOR;
  rt_entries : entries_ok s (node s ROOT_DIR_SECTOR);
}.
Lemma entry_data s i j k : data i = data j → entry s i k = entry s j k.
Proof. apply content_data. Qed.
Lemma find_entry_data s i j name : data i = data j → find_entry s i name = find_entry s j name.
Proof.
  intros E. unfold find_entry. assert (len i = len j) as -> by (unfold len; by rewrite E).
  generalize (Z.to_nat (len j / 20)), 0. intros n. induction n as [|n IH]; intros k; [done|]. simpl.
  unfold matches. rewrite (entry_data s i j) by done. by rewrite IH.
Qed.
Lemma root_entry_same s s' k : same_disk s s' → root_ok s → 0 ≤ k → 20 * (k + 1) ≤ len (node s ROOT_DIR_SECTOR) →
  entry s' (node s ROOT_DIR_SECTOR) k = entry s (node s ROOT_DIR_SECTOR) k.
Proof. intros Hd Hr Hk Hl. apply node_content_same; [done|apply Hr|lia|lia]. Qed.
Lemma root_ok_quiet s s' : quiet s s' → root_ok s → root_ok s'.
Proof.
  intros [_ Hd Hz _] Hr. pose proof (no_sector _ _ (rt_node _ Hr)) as Hs. pose proof (node_same _ _ _ Hd Hs) as E.
  split; [by eapply node_ok_same, Hr|]. rewrite E. intros k Hk Hl. rewrite (root_entry_same s s') by done. by apply Hr.
Qed.
Lemma entry_range l j : 0 ≤ l → 0 ≤ j < 0 + Z.of_nat (Z.to_nat (l / 20)) → 0 ≤ j ∧ 20 * (j + 1) ≤ l.
Proof. lia. Qed.
Lemma root_map_quiet s s' name : quiet s s' → root_ok s → root_map s' name = root_map s name.
Proof.
  intros [_ Hd _ _] Hr. unfold root_map, dir_map. rewrite (node_same _ _ _ Hd) by apply Hr.
  pose proof (no_len _ _ (rt_node _ Hr)) as Hlen.
  assert (find_entry s' (node s ROOT_DIR_SECTOR) name = find_entry s (node s ROOT_DIR_SECTOR) name) as ->.
  { apply find_from_ext. intros j Hj. apply entry_range in Hj as [? ?]; [|exact (proj1 Hlen)].
    by apply matches_ext, root_entry_same. }
  destruct (find_entry s (node s ROOT_DIR_SECTOR) name) as [j|] eqn:E; cbn [mbind option_bind]; [|done]. unfold find_entry in E.
  apply find_from_Some in E as [Hj _].
  apply entry_range in Hj as [? ?]; [|exact (proj1 Hlen)]. by rewrite (root_entry_same s s').
Qed.

(** A root directory that has just been opened. *)
Lemma root_directory s d x i :
  fs_ok s → root_ok s → dirs s !! d = Some x → d ≠ NULL → copy_of s ROOT_DIR_SECTOR (d_inode x) i →
  directory s d x i ∧ ∀ name, find_entry s i name = find_entry s (node s ROOT_DIR_SECTOR) name.
Proof.
  intros Hok Hr Ed Hn Hc. pose proof Hc as (_ & _ & _ & Edata). split; [|intros; by apply find_entry_data].
  split; [done|done|by eapply copy_file_ok, Hc; [|apply Hr]| | |apply Hok|apply Hok].
  - unfold len. rewrite Edata. apply (rt_node _ Hr).
  - intros k Hk. unfold len. rewrite Edata, (entry_data s i (node s ROOT_DIR_SECTOR)) by done. by apply Hr.
Qed.
Lemma wp_dir_open_root nest s Q :
  fs_ok s → root_ok s →
  (∀ d p i s', quiet s s' → d ≠ NULL → dirs s' = <[d := mk_dir false p 0 None]> (dirs s) →
     files s' = files s → copy_of s' ROOT_DIR_SECTOR p i → Q d s') →
  wp (dir_open_root nest) s Q.
Proof.
  intros Hok Hr HQ. unfold dir_open_root. wp_step. apply wp_open_inode; [done|apply Hr|]. intros p i s1 Hok1 T1 C1 _ _.
  unfold dir_open. wp_step. apply wp_alloc; [apply Hok1|apply Hok1|]. intros s2 F2 M2 _.
  pose proof C1 as (_ & Ep & _). pose proof (oo_fresh _ (fk_open _ Hok1) _ _ Ep). pose proof (fk_heap _ Hok1) as [_ Hnext].
  rewrite !(proj2 (Z.eqb_neq _ _)) by (unfold NULL; lia). cbn [negb andb]. unfold set_dir. do 3 wp_step.
  pose proof (quiet_frame _ _ F2 M2 Hok1) as [[[] ? ? ?] ? ? ?]. destruct (quiet_touches _ _ _ T1 Hok1) as [_ Hd1 Hz1 Hm1].
  apply (HQ _ p i); simpl.
  - eapply quiet_trans; [by eapply quiet_touches|]. by repeat (split; simpl; try done).
  - unfold NULL; lia.
  - by rewrite (fr_dirs _ _ _ F2), (to_dirs _ _ _ T1).
  - by rewrite (fr_files _ _ _ F2), (to_files _ _ _ T1).
  - exact (copy_of_frame _ _ _ _ _ F2 Hok1 C1).
Qed.

Lemma copy_of_cnt s sec p i : fs_ok s → copy_of s sec p i → 1 ≤ open_cnt i.
Proof.
  intros Hok (Hp & Ei & _). destruct (oo_in _ (fk_open _ Hok) p Hp) as (j & Ej & ?). rewrite Ei in Ej. by injection Ej as <-.
Qed.
Lemma wp_dir_close nest s d x sec i Q :
  fs_ok s → dirs s !! d = Some x → d ≠ NULL → copy_of s sec (d_inode x) i →
  (∀ s', quiet s s' → files s' = files s →
     (∀ sec' q j, copy_of s sec' q j → q ≠ d_inode x ∨ 2 ≤ open_cnt i → ∃ j', copy_of s' sec' q j') → Q tt s') →
  wp (dir_close nest d) s Q.
Proof.
  intros Hok Ed Hn Hc HQ. unfold dir_close. rewrite (proj2 (Z.eqb_neq _ _)) by done. cbn [negb]. wp_step.
  apply (wp_fetch_dir _ _ x); [done|]. wp_step. apply (wp_close_inode _ _ sec _ i); [done|done|].
  intros s1 Hok1 T1 Hrest. unfold free_dir. apply wp_modify. destruct (quiet_touches _ _ _ T1 Hok1) as [[[] ? ? ?] Hd Hz Hm]. apply HQ.
  - by repeat (split; simpl; try done).
  - simpl. apply T1.
  - intros sec' q j Hq Hor. destruct (decide (q = d_inode x)) as [->|Hne].
    + destruct Hor as [?|H2]; [done|]. specialize (Hrest H2). destruct Hc as (_ & Ei & Es & _). destruct Hq as (_ & Ej & Ej' & _).
      rewrite Ei in Ej. injection Ej as <-. rewrite Es in Ej'. subst sec'. by eexists.
    + exists j. exact (copy_of_touched _ _ _ _ _ _ T1 Hok (not_eq_sym Hne) Hq).
Qed.
(** The name as dir_lookup () gets it: without a slash in front. *)
Definition root_key (name : list Z) : list Z := if bool_decide (head name = Some 47) then tail name else name.
Lemma wp_file_open nest s p Q :
  fs_ok s → p ≠ NULL →
  (∀ f s', quiet s s' → f ≠ NULL → files s' = <[f := mk_file p 0 false]> (files s) →
     (∀ sec q j, copy_of s sec q j → copy_of s' sec q j) → Q f s') →
  wp (file_open nest p) s Q.
Proof.
  intros Hok Hp HQ. unfold file_open. wp_step. apply wp_alloc; [apply Hok|apply Hok|]. intros s2 F2 M2 _.
  pose proof (fk_heap _ Hok) as [_ Hnext]. rewrite !(proj2 (Z.eqb_neq _ _)) by (done || unfold NULL; lia). cbn [negb andb].
  unfold set_file. do 3 wp_step. pose proof (quiet_frame _ _ F2 M2 Hok) as [[[] ? ? ?] ? ? ?]. apply HQ.
  - by repeat (split; simpl; try done).
  - unfold NULL; lia.
  - simpl. by rewrite (fr_files _ _ _ F2).
  - intros sec q j Hq. exact (copy_of_frame _ _ _ _ _ F2 Hok Hq).
Qed.
Lemma wp_file_open_null nest s Q :
  fs_ok s → (∀ s', quiet s s' → files s' ⊆ files s → Q NULL s') → wp (file_open nest NULL) s Q.
Proof.
  intros Hok HQ. unfold file_open. wp_step. apply wp_alloc; [apply Hok|apply Hok|]. intros s2 F2 M2 _.
  cbn [Z.eqb NULL negb andb]. unfold inode_close, free_file. cbn [Z.eqb NULL]. do 4 wp_step.
  pose proof (quiet_frame _ _ F2 M2 Hok) as [[[] ? ? ?] ? ? ?]. wp_step. apply HQ.
  - by repeat (split; simpl; try done).
  - simpl. rewrite (fr_files _ _ _ F2). apply delete_subseteq.
Qed.
Lemma wp_root_lookup s d x i name Q :
  fs_ok s → root_ok s → dirs s !! d = Some x → d ≠ NULL → copy_of s ROOT_DIR_SECTOR (d_inode x) i →
  Forall (λ c, c ≠ 0) name → (∀ sec, root_map s name = Some sec → 0 ≤ sec < dev_size (fs_device s)) →
  (root_map s name = None → ∀ s', quiet s s' → files s' = files s → dirs s' = dirs s →
     copy_of s' ROOT_DIR_SECTOR (d_inode x) i → Q NULL s') →
  (∀ sec p j i' s', root_map s name = Some sec → quiet s s' → files s' = files s → dirs s' = dirs s →
     copy_of s' sec p j → copy_of s' ROOT_DIR_SECTOR (d_inode x) i' → (p = d_inode x → 2 ≤ open_cnt i') → Q p s') →
  wp (dir_lookup d name) s Q.
Proof.
  intros Hok Hr Ed Hn Hc Hname Hsec HNone HSome. destruct (root_directory s d x i) as [Hdir Hfind]; [done..|].
  unfold dir_lookup. wp_step. wp_step; [by rewrite (proj2 (Z.eqb_neq _ _))|]. wp_step. apply (wp_lookup_entry _ _ x i); [done..|].
  intros s1 F1 M1. pose proof (quiet_frame _ _ F1 M1 Hok) as Q1. pose proof (copy_of_frame _ _ _ _ _ F1 Hok Hc) as C1.
  rewrite Hfind. unfold root_map, dir_map in *. destruct (find_entry s (node s ROOT_DIR_SECTOR) name) as [k|]; simpl in *.
  - pose proof Hc as (_ & _ & _ & Edata). rewrite (entry_data s i (node s ROOT_DIR_SECTOR)) by done.
    set (sec := inode_sector _) in *. apply wp_open_inode; [apply Q1|rewrite (qu_size _ _ Q1); by apply Hsec|].
    intros p j s2 Hok2 T2 C2 _ Hcnt.
    assert (∃ i', copy_of s2 ROOT_DIR_SECTOR (d_inode x) i' ∧ (p = d_inode x → 2 ≤ open_cnt i')) as (i' & C2' & Hi').
    { destruct (decide (p = d_inode x)) as [->|Hne].
      - exists j. pose proof (copy_of_cnt _ _ _ _ (qu_ok _ _ Q1) C1). pose proof C1 as (Hin & Ei & Esi & _).
        destruct (Hcnt i Hin Ei) as [Hj Es]. split; [congruence|lia].
      - exists i. split; [|done]. exact (copy_of_touched _ _ _ _ _ _ T2 (qu_ok _ _ Q1) Hne C1). }
    eapply HSome; [done| | | |done..].
    + eapply quiet_trans; [done|by eapply quiet_touches].
    + by rewrite (to_files _ _ _ T2), (fr_files _ _ _ F1).
    + by rewrite (to_dirs _ _ _ T2), (fr_dirs _ _ _ F1).
  - wp_step. apply HNone; [done..|apply F1|apply F1|done].
Qed.
Lemma wp_filesys_open nest s name Q :
  fs_ok s → root_ok s → name ≠ root_name → Forall (λ c, c ≠ 0) name →
  (∀ sec, root_map s (root_key name) = Some sec → 0 ≤ sec < dev_size (fs_device s)) →
  (root_map s (root_key name) = None → ∀ s', quiet s s' → files s' ⊆ files s → Q NULL s') →
  (∀ sec f p i s', root_map s (root_key name) = Some sec → quiet s s' → f ≠ NULL →
     files s' = <[f := mk_file p 0 false]> (files s) → copy_of s' sec p i → Q f s') →
  wp (filesys_open nest name) s Q.
Proof.
  intros Hok Hr Hroot Hname Hsec HNone HSome. unfold filesys_open. wp_step. apply wp_dir_open_root; [done..|].
  intros d p0 i0 s1 Q1 Hd Ed1 Ef1 C1. rewrite bool_decide_false by done. rewrite (proj2 (Z.eqb_neq _ _)) by done. cbn [negb andb].
  replace (if bool_decide (head name = Some 47) then dir_lookup d (tail name) else dir_lookup d name)
    with (dir_lookup d (root_key name)) by (unfold root_key; by case_bool_decide).
  assert (root_map s1 (root_key name) = root_map s (root_key name)) as Em.
  { by apply root_map_quiet. }
  assert (dirs s1 !! d = Some (mk_dir false p0 0 None)) as Ed by (rewrite Ed1; apply lookup_insert_eq).
  wp_step. apply (wp_root_lookup _ _ _ i0 _ _ (qu_ok _ _ Q1) (root_ok_quiet _ _ Q1 Hr) Ed Hd C1).
  { unfold root_key. case_bool_decide; [|done]. by destruct Hname. }
  { intros sec. rewrite Em, (qu_size _ _ Q1). apply Hsec. }
  - rewrite Em. intros Hnone s2 Q2 Ef2 Ed2 C2. wp_step. rewrite <-Ed2 in Ed.
    apply (wp_dir_close _ _ _ _ _ _ _ (qu_ok _ _ Q2) Ed Hd C2). intros s3 Q3 Ef3 _.
    apply wp_file_open_null; [apply Q3|]. intros s4 Q4 Ef4. apply HNone; [done| |by rewrite <-Ef1, <-Ef2, <-Ef3].
    eauto using quiet_trans.
  - rewrite Em. intros sec p j i' s2 Hmap Q2 Ef2 Ed2 C2 C2' Hcnt. wp_step. rewrite <-Ed2 in Ed.
    apply (wp_dir_close _ _ _ _ _ _ _ (qu_ok _ _ Q2) Ed Hd C2'). intros s3 Q3 Ef3 Hkeep.
    destruct (Hkeep sec p j C2) as [j' C3]. { simpl. destruct (decide (p = p0)); [right; auto|by left]. }
    pose proof C3 as (_ & Ep & _). pose proof (oo_fresh _ (fk_open _ (qu_ok _ _ Q3)) _ _ Ep).
    apply wp_file_open; [apply Q3|unfold NULL; lia|]. intros f s4 Q4 Hf Ef4 Hkeep4.
    eapply HSome; [done| |done| |by apply Hkeep4]; [eauto using quiet_trans|]. by rewrite Ef4, Ef3, Ef2, Ef1.
Qed.

(** ** Using an open file *)
Lemma wp_open_length s f x sec i Q :
  fs_ok s → files s !! f = Some x → f ≠ NULL → copy_of s sec (f_inode x) i → Q (len (node s sec)) s →
  wp (file_length f) s Q.
Proof.
  intros Hok Ef Hn (_ & Ei & _ & Ed) HQ. unfold file_length, get_file. do 2 wp_step. { by apply negb_true_iff, Z.eqb_neq. }
  do 3 wp_step. apply (wp_from_option _ x); [done|]. apply (wp_inode_length _ _ i); [done|]. unfold len. by rewrite Ed.
Qed.
(** What reading does to the state besides moving on. *)
Record reads s s' : Prop := {
  rd_quiet : quiet s s';
  rd_dirs : dirs s' = dirs s;
  rd_copies sec q j : copy_of s sec q j → copy_of s' sec q j;
}.
Lemma wp_open_read s f p pos deny sec i size Q :
  fs_ok s → node_ok s sec → files s !! f = Some (mk_file p pos deny) → copy_of s sec p i →
  0 ≤ size → 0 ≤ pos → pos + size ≤ len (node s sec) →
  (∀ s', reads s s' → files s' = <[f := mk_file p (pos + size) deny]> (files s) →
     Q (size, content s (node s sec) pos size) s') →
  wp (file_read f size) s Q.
Proof.
  intros Hok Hnode Ef Hc Hz Hp Hl HQ. pose proof Hc as (_ & _ & _ & Ed). unfold file_read, get_file, set_file.
  wp_step. do 2 wp_step. apply (wp_from_option _ (mk_file p pos deny)); [done|]. wp_step. cbn [f_inode f_pos f_deny_write].
  assert (len i = len (node s sec)) as El by (unfold len; by rewrite Ed).
  apply (wp_inode_read_at _ _ i); [by eapply copy_file_ok|apply Hok|apply Hok|done|done|right; left; by rewrite El|].
  intros s' Fr Hm. unfold read_result. rewrite decide_True by (right; by rewrite El). rewrite app_nil_l.
  rewrite (content_data s i (node s sec)) by done. do 3 wp_step.
  pose proof (quiet_frame _ _ Fr Hm Hok) as [[[] ? ? ?] ? ? ?]. apply HQ; [split|]; simpl.
  - by repeat (split; simpl; try done).
  - apply Fr.
  - intros sec' q j Hq. exact (copy_of_frame _ _ _ _ _ Fr Hok Hq).
  - by rewrite (fr_files _ _ _ Fr).
Qed.
Lemma wp_file_close nest s f p pos sec i Q :
  fs_ok s → files s !! f = Some (mk_file p pos false) → f ≠ NULL → copy_of s sec p i →
  (∀ s', quiet s s' → Q tt s') → wp (file_close nest f) s Q.
Proof.
  intros Hok Ef Hn Hc HQ. unfold file_close, file_allow_write, get_file. rewrite (proj2 (Z.eqb_neq _ _)) by done. cbn [negb].
  wp_step. do 2 wp_step; [done|]. do 3 wp_step. apply (wp_from_option _ (mk_file p pos false)); [done|]. cbn [f_deny_write]. wp_step.
  do 3 wp_step. apply (wp_from_option _ (mk_file p pos false)); [done|]. wp_step.
  apply (wp_close_inode _ _ sec _ i); [done|done|]. intros s1 Hok1 T1 _. unfold free_file. apply wp_modify.
  destruct (quiet_touches _ _ _ T1 Hok1) as [[[] ? ? ?] ? ? ?]. apply HQ. by repeat (split; simpl; try done).
Qed.

(** C22: Opening a name of the root directory, reading the whole file and closing it
    gives the bytes that the disk holds for the name, and a name that is not in the
    directory gives no file; the disk, the free map and the agreement of the inodes in
    memory with the disk stay as they are. *)
Theorem filesys_open_correct nest s name :
  fs_ok s → root_ok s → name ≠ root_name → Forall (λ c, c ≠ 0) name →
  (∀ sec, root_map s (root_key name) = Some sec → node_ok s sec) →
  wp (f ← filesys_open nest name;
      if f =? NULL then mret None
      else
        n ← file_length f;
        r ← file_read f n;
        file_close nest f;;
        mret (Some r)) s
    (λ r s', quiet s s' ∧ r = (λ sec, (Z.of_nat (length (file_bytes s sec)), file_bytes s sec)) <$> root_map s (root_key name)).
Proof.
  intros Hok Hr Hroot Hname Hnodes. wp_step. apply wp_filesys_open; [done..|intros sec Hsec; apply (Hnodes sec Hsec)| |].
  - intros -> s' Hq _. change (NULL =? NULL) with true. cbv iota. by wp_step.
  - intros sec f p i s1 Hsec Q1 Hf Ef1 C1. rewrite (proj2 (Z.eqb_neq _ _)) by done. pose proof (Hnodes sec Hsec) as Hnode.
    pose proof (node_ok_same _ _ _ (qu_disk _ _ Q1) (qu_size _ _ Q1) Hnode) as Hnode1.
    assert (files s1 !! f = Some (mk_file p 0 false)) as Ef by (rewrite Ef1; apply lookup_insert_eq).
    wp_step. apply (wp_open_length _ _ _ sec i _ (qu_ok _ _ Q1) Ef Hf C1). wp_step. pose proof (no_len _ _ Hnode1).
    apply (wp_open_read _ _ p 0 false sec i); [apply Q1|done|done|done|apply Hnode1|done|done|]. intros s2 [Q2 _ C2] Ef2.
    wp_step. eapply (wp_file_close _ _ _ p _ sec i); [apply Q2|rewrite Ef2; apply lookup_insert_eq|done|by apply C2|].
    intros s3 Q3. wp_step. split; [eauto using quiet_trans|]. rewrite Hsec. cbn [fmap option_fmap option_map].
    rewrite <-(file_bytes_same s s1) by (done || apply Q1). unfold file_bytes. rewrite content_length, Z2Nat.id by apply Hnode1. done.
Qed.
End filesys.

(** ** A small file system

    The root directory in sector 1, with its entries in sector 2: the file "a", whose
    inode is in sector 3 and whose 600 bytes are in the sectors 4 and 5. *)

Section filesys_example.
#[local] Existing Instance ex_ops.
#[local] Existing Instance ex_device.

Definition padded (bs : list Z) : list Z := bs ++ replicate (512 - length bs) 0.
Definition ex_sectors : list (list Z) :=
  [padded []; disk_bytes (mk_disk 0 320 INODE_MAGIC (2 :: replicate 124 0));
   padded (make_entry 3 [97] 1 (replicate 20 0)); disk_bytes (mk_disk 0 600 INODE_MAGIC (4 :: 5 :: replicate 123 0));
   replicate 512 7; replicate 512 9].
Definition ex_disk : ramdisk := λ n, if (n <? 0) then padded [] else default (padded []) (ex_sectors !! Z.to_nat n).
Definition ex_root_fs : fs (block ramdisk) :=
  mk_fs (mk_block ex_disk [] BLOCK_FILESYS 64 0 0) [] ∅ ∅ ∅ (mk_bitmap 64 [63; 0]) 0 DIRECT [] 1 (λ _, 0).

Lemma ex_disk_length n : length (ex_disk n) = 512%nat.
Proof.
  unfold ex_disk. destruct (n <? 0); [done|]. destruct (ex_sectors !! Z.to_nat n) as [bs|] eqn:E; [|done]. simpl.
  apply list_elem_of_lookup_2 in E. revert bs E. apply Forall_forall. by repeat constructor.
Qed.
Lemma ex_fs_ok : fs_ok ex_root_fs.
Proof.
  split; [|split; [exact ex_disk_length|done]|done|by intros p i Hp%elem_of_nil].
  split; [constructor|by intros p Hp%elem_of_nil|by intros p q i j Hp%elem_of_nil|done].
Qed.
Lemma ex_node sec (bs : list Z) l : disk_of (ex_disk sec) = mk_disk 0 l INODE_MAGIC (bs ++ replicate (125 - length bs) 0) →
  0 ≤ sec < 64 → 0 ≤ l < DIRECT_BYTES → (length bs ≤ 125)%nat → l ≤ 512 * Z.of_nat (length bs) → NoDup bs →
  Forall (λ n, 0 ≤ n < 64) bs → node_ok ex_root_fs sec.
Proof.
  intros E Hs Hl Hlen Hbs Hnd Hr. assert (len (node ex_root_fs sec) = l) as El by (unfold len; simpl; unfold disk; simpl; by rewrite E).
  assert (∀ k, 0 ≤ k → 512 * k < l → bs !! Z.to_nat k = Some (sector_of (node ex_root_fs sec) k)) as Hk.
  { intros k Hk0 Hkl. unfold sector_of. simpl. unfold disk. simpl. rewrite E. simpl.
    destruct (lookup_lt_is_Some_2 bs (Z.to_nat k)) as [n Hn]; [lia|]. by rewrite lookup_app_l, Hn by lia. }
  split; rewrite ?El; [done|done| | |].
  - simpl. unfold disk. simpl. rewrite E. simpl. rewrite length_app, length_replicate. lia.
  - intros k Hk0 Hkl. exact (Forall_lookup_1 _ _ _ _ Hr (Hk k Hk0 Hkl)).
  - intros k k' H1 H2 H3 H4 Heq. pose proof (Hk k H1 H2) as E1. pose proof (Hk k' H3 H4) as E2. rewrite Heq in E1.
    pose proof (NoDup_lookup _ _ _ _ Hnd E1 E2). lia.
Qed.
Lemma ex_root_ok : root_ok ex_root_fs.
Proof.
  split.
  - apply (ex_node _ [2] 320); [by vm_compute|done|done|simpl; lia|simpl; lia|apply NoDup_singleton|by repeat constructor].
  - intros k Hk Hl _. change (len (node ex_root_fs ROOT_DIR_SECTOR)) with 320 in Hl.
    assert (k ∈ seqZ 0 16) as Hin by (apply elem_of_seqZ; lia). clear Hk Hl. revert k Hin. apply Forall_forall.
    apply (bool_decide_unpack _). by vm_compute.
Qed.
Lemma ex_file_node : node_ok ex_root_fs 3.
Proof.
  apply (ex_node _ [4; 5] 600); [by vm_compute|done|done|simpl; lia|simpl; lia| |by repeat constructor].
  apply (bool_decide_unpack _). by vm_compute.
Qed.
Lemma ex_file_name : root_map ex_root_fs (root_key [97]) = Some 3.
Proof. by vm_compute. Qed.
Lemma filesys_open_correct_witness :
  wp (f ← filesys_open 1 [97];
      if f =? NULL then mret None
      else n ← file_length f; r ← file_read f n; file_close 1 f;; mret (Some r)) ex_root_fs
    (λ r s', quiet ex_root_fs s' ∧ r = Some (600, replicate 512 7 ++ replicate 88 9)).
Proof.
  eapply wp_mono; [apply (filesys_open_correct 1 ex_root_fs [97] ex_fs_ok ex_root_ok)|].
  - done.
  - by repeat constructor.
  - intros sec. rewrite ex_file_name. intros [= <-]. apply ex_file_node.
  - intros r s' [Hq ->]. split; [done|]. rewrite ex_file_name. vm_compute. reflexivity.
Defined.
End filesys_example.
