(* ===== verification/Vaddr.v ===== *)
(** * Virtual addresses and page table entries: threads/vaddr.h, threads/pte.h

    The inline functions of the two headers on 32-bit addresses.  A function
    with an ASSERT is a computation (it may panic), the others are Rocq
    functions.  The lemmas say what the bit operations compute on addresses
    split into page number and offset. *)

From S2P Require Import Prelude.
Local Open Scope Z_scope.
Local Ltac Zify.zify_post_hook ::= Z.div_mod_to_equations.

(** ** threads/vaddr.h *)

Definition BITMASK (SHIFT CNT : Z) : Z := u32 (Z.shiftl (Z.shiftl 1 CNT - 1) SHIFT).
Definition PGSHIFT : Z := 0.
Definition PGBITS : Z := 12.
Definition PGSIZE : Z := Z.shiftl 1 PGBITS.
Definition PGMASK : Z := BITMASK PGSHIFT PGBITS.

Definition pg_ofs (va : Z) : Z := Z.land va PGMASK.
Definition pg_no (va : Z) : Z := Z.shiftr va PGBITS.
Definition pg_round_up (va : Z) : Z := Z.land (u32 (va + PGSIZE - 1)) (u32 (Z.lnot PGMASK)).
Definition pg_round_down (va : Z) : Z := Z.land va (u32 (Z.lnot PGMASK)).

(** LOADER_PHYS_BASE, threads/loader.h *)
Definition PHYS_BASE : Z := 0xc0000000.

Definition is_user_vaddr (vaddr : Z) : bool := vaddr <? PHYS_BASE.
Definition is_kernel_vaddr (vaddr : Z) : bool := PHYS_BASE <=? vaddr.

Definition ptov {S} (paddr : Z) : M S Z :=
  assert (paddr <? PHYS_BASE);; mret (u32 (paddr + PHYS_BASE)).
Definition vtop {S} (vaddr : Z) : M S Z :=
  assert (is_kernel_vaddr vaddr);; mret (u32 (vaddr - PHYS_BASE)).

(** ** threads/pte.h *)

Definition PTSHIFT : Z := PGBITS.
Definition PTBITS : Z := 10.
Definition PTMASK : Z := BITMASK PTSHIFT PTBITS.
Definition PDSHIFT : Z := PTSHIFT + PTBITS.

Definition pt_no (va : Z) : Z := Z.shiftr (Z.land va PTMASK) PTSHIFT.
Definition pd_no (va : Z) : Z := Z.shiftr va PDSHIFT.

Definition PTE_ADDR : Z := 0xfffff000.
Definition PTE_P : Z := 0x1.
Definition PTE_W : Z := 0x2.
Definition PTE_U : Z := 0x4.
Definition PTE_A : Z := 0x20.
Definition PTE_D : Z := 0x40.

Definition pde_create {S} (pt : Z) : M S Z :=
  assert (pg_ofs pt =? 0);;
  p ← vtop pt; mret (Z.lor (Z.lor (Z.lor p PTE_U) PTE_P) PTE_W).
Definition pde_get_pt {S} (pde : Z) : M S Z :=
  assert (negb (Z.land pde PTE_P =? 0));; ptov (Z.land pde PTE_ADDR).
Definition pte_create_kernel {S} (page : Z) (writable : bool) : M S Z :=
  assert (pg_ofs page =? 0);;
  p ← vtop page; mret (Z.lor (Z.lor p PTE_P) (if writable then PTE_W else 0)).
Definition pte_create_user {S} (page : Z) (writable : bool) : M S Z :=
  e ← pte_create_kernel page writable; mret (Z.lor e PTE_U).
Definition pte_get_page {S} (pte : Z) : M S Z := ptov (Z.land pte PTE_ADDR).

(** ** The bit operations as arithmetic *)

Lemma land_ones_lt a n : 0 ≤ n → Z.land a (2 ^ n - 1) = a mod 2 ^ n.
Proof. intros. rewrite <-Z.land_ones by done. f_equal. rewrite Z.ones_equiv. lia. Qed.

(** Masking with the address bits clears the page offset. *)
Lemma land_addr a : 0 ≤ a < 2 ^ 32 → Z.land a 0xfffff000 = 4096 * (a / 4096).
Proof.
  intros Ha. change 0xfffff000 with (Z.shiftl (Z.ones 20) 12).
  replace (4096 * (a / 4096)) with (Z.shiftl (Z.shiftr a 12) 12).
  2: { rewrite Z.shiftl_mul_pow2, Z.shiftr_div_pow2 by lia. change (2 ^ 12) with 4096. lia. }
  apply Z.bits_inj_iff'. intros k Hk. rewrite Z.land_spec, !Z.shiftl_spec by done.
  destruct (Z.lt_ge_cases k 12).
  { rewrite !(Z.testbit_neg_r _ (k - 12)) by lia. apply andb_false_r. }
  rewrite Z.shiftr_spec by lia. replace (k - 12 + 12) with k by lia.
  destruct (Z.lt_ge_cases k 32).
  - rewrite Z.ones_spec_low by lia. apply andb_true_r.
  - by rewrite (testbit_bound a k 32).
Qed.

Lemma PGSIZE_eq : PGSIZE = 4096.
Proof. done. Qed.

Lemma pg_ofs_mod va : pg_ofs va = va mod 4096.
Proof. apply (land_ones_lt va 12). done. Qed.
Lemma pg_no_div va : pg_no va = va / 4096.
Proof. apply (Z.shiftr_div_pow2 va 12). done. Qed.
Lemma pg_round_down_eq va : 0 ≤ va < 2 ^ 32 → pg_round_down va = va - va mod 4096.
Proof. intros. unfold pg_round_down. change (u32 _) with 0xfffff000. rewrite land_addr by done. lia. Qed.
Lemma pt_no_eq va : pt_no va = va / 4096 mod 1024.
Proof.
  unfold pt_no. change PTMASK with (Z.shiftl (Z.ones 10) 12). change PTSHIFT with 12.
  rewrite Z.shiftr_land. change (Z.shiftr (Z.shiftl (Z.ones 10) 12) 12) with (Z.ones 10).
  by rewrite Z.land_ones, Z.shiftr_div_pow2 by done.
Qed.
Lemma pd_no_div va : pd_no va = va / 2 ^ 22.
Proof. apply (Z.shiftr_div_pow2 va 22). done. Qed.

Lemma pd_pt_ofs va : 0 ≤ va → va = 2 ^ 22 * pd_no va + 4096 * pt_no va + pg_ofs va.
Proof. intros. rewrite pd_no_div, pt_no_eq, pg_ofs_mod. lia. Qed.

(** Or-ing flags to a page-aligned address adds them. *)
Lemma lor_flags p f : p mod 4096 = 0 → 0 ≤ f < 4096 → Z.lor p f = p + f.
Proof.
  intros Hp Hf. rewrite <-Z.add_lor_land.
  replace (Z.land p f) with 0; [lia|]. symmetry. apply Z.bits_inj_iff'. intros k Hk.
  rewrite Z.land_spec, Z.testbit_0_l. destruct (Z.lt_ge_cases k 12).
  - replace p with (Z.shiftl (p / 4096) 12) by (rewrite Z.shiftl_mul_pow2 by done; lia).
    rewrite Z.shiftl_spec, Z.testbit_neg_r by lia. done.
  - rewrite (testbit_bound f k 12) by lia. apply andb_false_r.
Qed.

(** A test of flags does not see the address. *)
Lemma land_flags e f : 0 ≤ f < 4096 → Z.land e f = Z.land (e mod 4096) f.
Proof.
  intros Hf. change 4096 with (2 ^ 12). rewrite <-(land_ones_lt e 12) by done. rewrite <-Z.land_assoc. f_equal.
  rewrite Z.land_comm, (land_ones_lt f 12) by done. symmetry. by apply Z.mod_small.
Qed.

(** ** Addresses of pages *)

Section computations.
Context {S : Type}.
Implicit Types (s : S).

Lemma wp_ptov p s Q : 0 ≤ p < 2 ^ 32 - PHYS_BASE → Q (p + PHYS_BASE) s → wp (ptov p) s Q.
Proof.
  unfold PHYS_BASE. intros Hp HQ. unfold ptov, PHYS_BASE.
  repeat wp_step; [apply Z.ltb_lt; lia|]. by rewrite wrap_small by lia.
Qed.

Lemma wp_vtop v s Q : PHYS_BASE ≤ v < 2 ^ 32 → Q (v - PHYS_BASE) s → wp (vtop v) s Q.
Proof.
  unfold PHYS_BASE. intros Hp HQ. unfold vtop, is_kernel_vaddr, PHYS_BASE.
  repeat wp_step; [apply Z.leb_le; lia|]. by rewrite wrap_small by lia.
Qed.

Lemma wp_pde_create pt s Q :
  PHYS_BASE ≤ pt < 2 ^ 32 → pt mod 4096 = 0 → Q (pt - PHYS_BASE + 7) s → wp (pde_create pt) s Q.
Proof.
  intros Hp Ha HQ. unfold pde_create. repeat wp_step; [by rewrite pg_ofs_mod, Ha|].
  apply wp_vtop; [done|]. repeat wp_step.
  rewrite <-!Z.lor_assoc. change (Z.lor PTE_U (Z.lor PTE_P PTE_W)) with 7.
  by rewrite lor_flags by (unfold PHYS_BASE in *; lia).
Qed.

Lemma wp_pte_create_user page (w : bool) s Q :
  PHYS_BASE ≤ page < 2 ^ 32 → page mod 4096 = 0 →
  Q (page - PHYS_BASE + (if w then 7 else 5)) s → wp (pte_create_user page w) s Q.
Proof.
  intros Hp Ha HQ. unfold pte_create_user, pte_create_kernel.
  repeat wp_step; [by rewrite pg_ofs_mod, Ha|]. apply wp_vtop; [done|]. repeat wp_step.
  rewrite <-!Z.lor_assoc.
  replace (Z.lor PTE_P _) with (if w then 7 else 5) by by destruct w.
  by rewrite lor_flags by (unfold PHYS_BASE in *; destruct w; lia).
Qed.

(** [addr_of e]: the kernel virtual address of the page that the entry [e] points to. *)
Definition addr_of (e : Z) : Z := 4096 * (e / 4096) + PHYS_BASE.

Lemma wp_pte_get_page e s Q :
  0 ≤ e < 2 ^ 32 - PHYS_BASE → Q (addr_of e) s → wp (pte_get_page e) s Q.
Proof.
  unfold addr_of, PHYS_BASE. intros He HQ. unfold pte_get_page, PTE_ADDR.
  rewrite land_addr by lia. apply wp_ptov; [unfold PHYS_BASE; lia|done].
Qed.

Lemma wp_pde_get_pt e s Q :
  0 ≤ e < 2 ^ 32 - PHYS_BASE → Z.land e PTE_P ≠ 0 → Q (addr_of e) s → wp (pde_get_pt e) s Q.
Proof.
  intros He Hp HQ. unfold pde_get_pt. repeat wp_step; [by apply negb_true_iff, Z.eqb_neq|].
  by apply wp_pte_get_page.
Qed.
End computations.
