(* ===== verification/Execute.v ===== *)
(** * The command line of a new process: process_execute () of userprog/process.c

    The copies of the command line that process_execute () makes, on the memory of
    CString.v: the page for the new thread and the local array s of 100 bytes, from which
    the name of the thread is cut. *)

From S2P Require Import Prelude CString Vaddr.
Local Open Scope Z_scope.

(** [fn_copy] is the page that palloc_get_page () gave, [s] the local array and [sep] the
    string constant with the space.  The last line is the assertion of init_thread (),
    which thread_create () calls with the name. *)
Definition execute_name (fuel : nat) (file_name fn_copy s sep : Z) : M memory Z :=
  strlcpy fuel fn_copy file_name PGSIZE;;
  n ← strlen fuel file_name;
  strlcpy fuel s file_name (n + 1);;
  '(file, _) ← strtok_r fuel s sep NULL;
  assert (negb (file =? NULL));;
  mret file.

(** Copying to memory that ends too early. *)
Lemma load_eq m a : load a m = match m !! a with Some c => Ok (c, m) | None => Fault end.
Proof. unfold load, mbind, M_bind, get, from_option. by destruct (m !! a). Qed.
Lemma store_eq m a v : store a v m = match m !! a with Some _ => Ok (tt, <[a := v]> m) | None => Fault end.
Proof. unfold store, mbind, M_bind. rewrite load_eq. by destruct (m !! a). Qed.
Lemma copy_up_fault k n m dst src : (k < n)%nat → mapped m src (Z.of_nat n) → mapped m dst (Z.of_nat k) →
  m !! (dst + Z.of_nat k) = None → copy_up n dst src m = Fault.
Proof.
  revert n m dst src. induction k as [|k IH]; intros n m dst src Hk Hs Hd Hn; destruct n as [|n]; try lia; cbn [copy_up];
    (destruct (Hs 0) as [c Hc]; [lia|]); unfold mbind, M_bind; rewrite load_eq, <-(Z.add_0_r src), Hc, store_eq.
  - by rewrite Z.add_0_r in Hn; rewrite Hn.
  - destruct (Hd 0) as [x Hx]; [lia|]. rewrite <-(Z.add_0_r dst), Hx, !Z.add_0_r.
    apply (IH n (<[dst := c]> m)); [lia|apply mapped_insert|apply mapped_insert|].
    + intros i Hi. replace (src + 1 + i) with (src + (i + 1)) by lia. apply Hs. lia.
    + intros i Hi. replace (dst + 1 + i) with (dst + (i + 1)) by lia. apply Hd. lia.
    + rewrite lookup_insert_ne by lia. rewrite <-Hn. f_equal. lia.
Qed.
Lemma strlen_eq m fuel a s : 0 < a → cstr m a s → (length s < fuel)%nat → strlen fuel a m = Ok (Z.of_nat (length s), m).
Proof.
  intros Ha Hs Hf. assert (wp (strlen fuel a) m (λ r m', r = Z.of_nat (length s) ∧ m' = m)) as Hw by (by apply (wp_strlen _ _ _ s)).
  apply wp_ok in Hw as (r & m' & -> & -> & ->). done.
Qed.
(** strlcpy () of a whole string to an array that is too small for it. *)
Lemma strlcpy_fault m fuel dst src s k : 0 < dst → 0 < src → cstr m src s → (length s < fuel)%nat →
  mapped m dst (Z.of_nat k) → m !! (dst + Z.of_nat k) = None → (k ≤ length s)%nat →
  (dst ≤ src ∨ src + Z.of_nat (length s) < dst) →
  strlcpy fuel dst src (Z.of_nat (length s) + 1) m = Fault.
Proof.
  intros Hd Hsrc Hs Hf Hm Hn Hk Hsep. unfold strlcpy. rewrite !nonnull by done.
  unfold mbind, M_bind, assert, mret, M_ret. cbn [negb]. rewrite (strlen_eq m fuel src s), (proj2 (Z.ltb_lt 0 _)) by (done || lia).
  rewrite Z.add_simpl_r, Z.ltb_irrefl.
  assert (mapped m src (Z.of_nat (length s))) as Hms by (intros i Hi; apply (cstr_mapped _ _ _ Hs); lia).
  destruct (decide (k = length s)) as [->|Hne].
  - assert (wp (memcpy dst src (Z.of_nat (length s))) m (λ _ m1, copied (Z.of_nat (length s)) dst src m m1)) as Hw.
    { apply wp_memcpy; [lia|unfold NULL; lia|unfold NULL; lia|done|done|lia|]. done. }
    apply wp_ok in Hw as (r & m1 & -> & Hc). rewrite store_eq, Hc.
    rewrite (proj2 (Z.ltb_ge (dst + Z.of_nat (length s)) (dst + Z.of_nat (length s)))) by lia. by rewrite andb_false_r, Hn.
  - assert (memcpy dst src (Z.of_nat (length s)) m = Fault) as ->; [|done].
    unfold memcpy, assert_block. rewrite (nonnull dst), (nonnull src) by done. cbn [negb orb].
    change ((_ ← copy_up (Z.to_nat (Z.of_nat (length s))) dst src; mret dst) m = Fault). unfold mbind, M_bind.
    rewrite (copy_up_fault k); [done|lia|by rewrite Nat2Z.id|done|done].
Qed.

Definition apart (a n b k : Z) : Prop := a + n ≤ b ∨ b + k ≤ a.
(** Where the command line, the string constant, the page and the array are. *)
Record places (m : memory) (file_name fn_copy s sep : Z) (cmd : list Z) : Prop := {
  p_pos : 0 < file_name ∧ 0 < fn_copy ∧ 0 < s ∧ 0 < sep;
  p_cmd : cstr m file_name cmd;
  p_sep : cstr m sep [32];
  p_s : mapped m s 100;
  p_end : m !! (s + 100) = None;
  p_apart : apart file_name (Z.of_nat (length cmd) + 1) fn_copy PGSIZE ∧ apart file_name (Z.of_nat (length cmd) + 1) s 101 ∧
    apart sep 2 fn_copy PGSIZE ∧ apart sep 2 s 101 ∧ apart fn_copy PGSIZE s 101 }.
Section execute.
Context (fuel : nat) (file_name fn_copy s sep : Z) (cmd : list Z).
Context (Hlen : (length cmd < 4096)%nat) (Hfuel : (length cmd + 1 < fuel)%nat).
(** After the first copy. *)
Lemma first_copy m : places m file_name fn_copy s sep cmd → mapped m fn_copy PGSIZE →
  wp (strlcpy fuel fn_copy file_name PGSIZE) m (λ _ m', places m' file_name fn_copy s sep cmd ∧ cstr m' fn_copy cmd).
Proof using Hlen Hfuel.
  intros [(H1 & H2 & H3 & H4) Hc Hsep Hs He (A1 & A2 & A3 & A4 & A5)] Hp. unfold apart in *. rewrite PGSIZE_eq in *.
  eapply wp_mono; [apply (strlcpy_correct m fuel fn_copy file_name 4096 cmd); try done; lia|].
  cbv beta. intros _ m' (_ & Hsame & Hcopy). split; [|specialize (Hcopy ltac:(lia)); by rewrite take_ge in Hcopy by lia].
  split; [done| | | | |done].
  - eapply cstr_frame; [|exact Hc]. intros i Hi. apply Hsame. lia.
  - eapply cstr_frame; [|exact Hsep]. intros i Hi. simpl in Hi. apply Hsame. lia.
  - intros i Hi. rewrite Hsame by lia. by apply Hs.
  - by rewrite Hsame by lia.
Qed.
(** The second copy, if the array is large enough. *)
Lemma second_copy m : places m file_name fn_copy s sep cmd → cstr m fn_copy cmd → (length cmd < 100)%nat →
  wp (strlcpy fuel s file_name (Z.of_nat (length cmd) + 1)) m (λ _ m',
    cstr m' s cmd ∧ cstr m' fn_copy cmd ∧ cstr m' file_name cmd ∧ cstr m' sep [32]).
Proof using Hlen Hfuel.
  intros [(H1 & H2 & H3 & H4) Hc Hsep Hs He (A1 & A2 & A3 & A4 & A5)] Hcopy Hl. unfold apart in *. rewrite PGSIZE_eq in *.
  eapply wp_mono; [apply (strlcpy_correct m fuel s file_name (Z.of_nat (length cmd) + 1) cmd); try done; try lia|].
  { intros i Hi. apply Hs. lia. }
  cbv beta. intros _ m' (_ & Hsame & Hcs). split_and!.
  - specialize (Hcs ltac:(lia)). by rewrite take_ge in Hcs by lia.
  - eapply cstr_frame; [|exact Hcopy]. intros i Hi. apply Hsame. lia.
  - eapply cstr_frame; [|exact Hc]. intros i Hi. apply Hsame. lia.
  - eapply cstr_frame; [|exact Hsep]. intros i Hi. simpl in Hi. apply Hsame. lia.
Qed.
(** The name, or the null pointer if there is no word. *)
Lemma cut_name m0 m : places m0 file_name fn_copy s sep cmd → (length cmd < 100)%nat →
  cstr m s cmd → cstr m fn_copy cmd → cstr m file_name cmd → cstr m sep [32] →
  wp (strtok_r fuel s sep NULL) m (λ '(file, _) m', match words [32] cmd with
    | w :: _ => file ≠ NULL ∧ cstr m' file w ∧ cstr m' fn_copy cmd ∧ cstr m' file_name cmd
    | [] => file = NULL end).
Proof using Hlen Hfuel.
  intros [(H1 & H2 & H3 & H4) _ _ _ _ (A1 & A2 & A3 & A4 & A5)] Hl Hs Hcopy Hc Hsep. unfold apart in *. rewrite PGSIZE_eq in *.
  pose proof (words_step [32] cmd) as W. destruct (span (is_delim [32]) cmd) as [cs s1] eqn:E1.
  destruct (span (λ c, negb (is_delim [32] c)) s1) as [tok s2] eqn:E2. destruct W as (Ecmd & -> & _).
  assert (length cmd = length cs + (length tok + length s2))%nat as El by (by rewrite Ecmd, !length_app).
  assert (cstr m (s + Z.of_nat (length cs)) (tok ++ s2)) as Ht by (rewrite Ecmd in Hs; by apply cstr_app in Hs as [_ ?]).
  apply (wp_strtok_r sep [32] H4 m fuel s NULL s cmd cs s1 tok s2); try done; [by rewrite nonnull| | |].
  - intros ->. done.
  - intros Htok ->. rewrite decide_False by done. rewrite app_nil_r in Ht. split; [unfold NULL; lia|done].
  - intros c r Htok ->. rewrite decide_False by done. simpl in El. split; [unfold NULL; lia|]. split; [by apply (cstr_cut m _ tok (c :: r))|].
    split; (eapply cstr_frame; [|done]; intros i Hi; apply lookup_insert_ne; lia).
Qed.
End execute.

(** C38: process_execute () gives the new thread the first word of the command line as its
    name, and the whole command line in a page of its own, as long as the command line is
    shorter than 100 characters and has a word.  A command line without a word panics the
    kernel, and one of 100 characters or more is written beyond the end of the array s,
    whatever is there. *)
Theorem process_execute_name fuel file_name fn_copy s sep m cmd :
  places m file_name fn_copy s sep cmd → mapped m fn_copy PGSIZE → (length cmd < 4096)%nat → (length cmd + 1 < fuel)%nat →
  if (length cmd <? 100)%nat then
    match words [32] cmd with
    | w :: _ => wp (execute_name fuel file_name fn_copy s sep) m (λ file m',
        cstr m' file w ∧ cstr m' fn_copy cmd ∧ cstr m' file_name cmd)
    | [] => execute_name fuel file_name fn_copy s sep m = Panic
    end
  else execute_name fuel file_name fn_copy s sep m = Fault.
Proof.
  intros Hpl Hmap Hlen Hfuel. unfold execute_name.
  pose proof (first_copy fuel file_name fn_copy s sep cmd Hlen Hfuel m Hpl Hmap) as (r1 & m1 & E1 & Hpl1 & Hc1)%wp_ok.
  unfold wp, mbind, M_bind. rewrite E1.
  rewrite (strlen_eq m1 fuel file_name cmd) by (try apply Hpl1; lia).
  destruct (Nat.ltb_spec (length cmd) 100) as [Hl|Hl].
  - pose proof (second_copy fuel file_name fn_copy s sep cmd Hlen Hfuel m1 Hpl1 Hc1 Hl) as (r2 & m2 & E2 & C1 & C2 & C3 & C4)%wp_ok. rewrite E2.
    pose proof (cut_name fuel file_name fn_copy s sep cmd Hlen Hfuel m1 m2 Hpl1 Hl C1 C2 C3 C4) as ([file save] & m3 & E3 & Hw)%wp_ok.
    rewrite E3. destruct (words [32] cmd) as [|w ws]; [by rewrite Hw|]. destruct Hw as (Hn & Hw).
    by rewrite (proj2 (Z.eqb_neq file NULL)).
  - destruct Hpl1 as [(H1 & H2 & H3 & H4) Hc _ Hs He (_ & A2 & _)]. unfold apart in A2.
    rewrite (strlcpy_fault m1 fuel s file_name cmd 100); try done; lia.
Qed.

Definition ex_memory (cmd : list Z) : memory :=
  block 0x1000 (cmd ++ [0]) ∪ (block 0x3000 [32; 0] ∪ (block 0x4000 (replicate 4096 0) ∪ block 0x8000 (replicate 100 0))).
Lemma cblock_mapped a bs : mapped (block a bs) a (Z.of_nat (length bs)).
Proof.
  intros i Hi. unfold block. destruct (list_to_map (M:=memory) _ !! (a + i)) as [x|] eqn:E; [by eexists|].
  apply not_elem_of_list_to_map in E. exfalso. apply E. rewrite fst_zip by (rewrite length_fmap, length_seq; lia).
  apply list_elem_of_fmap. exists (Z.to_nat i). split; [simpl; lia|]. apply elem_of_seq. lia.
Qed.
Lemma mapped_union_l m m' a n : mapped m a n → mapped (m ∪ m') a n.
Proof. intros H i Hi. rewrite lookup_union_is_Some. left. by apply H. Qed.
Lemma mapped_union_r m m' a n : mapped m' a n → mapped (m ∪ m') a n.
Proof. intros H i Hi. rewrite lookup_union_is_Some. right. by apply H. Qed.
Lemma ex_page cmd : mapped (ex_memory cmd) 0x4000 PGSIZE.
Proof. apply mapped_union_r, mapped_union_r, mapped_union_l. exact (cblock_mapped 0x4000 (replicate 4096 0)). Qed.
Lemma ex_array cmd : mapped (ex_memory cmd) 0x8000 100.
Proof. apply mapped_union_r, mapped_union_r, mapped_union_r. exact (cblock_mapped 0x8000 (replicate 100 0)). Qed.
Fixpoint cstr_check (m : memory) (a : Z) (s : list Z) : bool :=
  match s with
  | [] => bool_decide (m !! a = Some 0)
  | c :: s => bool_decide (m !! a = Some c) && (0 <? c) && (c <? 256) && cstr_check m (a + 1) s
  end.
Lemma cstr_check_ok m a s : cstr_check m a s = true → cstr m a s.
Proof.
  revert a. induction s as [|c s IH]; intros a; simpl; [by intros ?%bool_decide_eq_true|].
  rewrite !andb_true_iff. intros [[[H1%bool_decide_eq_true H2%Z.ltb_lt] H3%Z.ltb_lt] H4]. auto.
Qed.
Lemma ex_command_places cmd : (length cmd < 4096)%nat → cstr_check (ex_memory cmd) 0x1000 cmd = true → cstr_check (ex_memory cmd) 0x3000 [32] = true →
  ex_memory cmd !! (0x8000 + 100) = None →
  places (ex_memory cmd) 0x1000 0x4000 0x8000 0x3000 cmd.
Proof.
  intros Hl H1 H2 H3. split; [lia|by apply cstr_check_ok|by apply cstr_check_ok|apply ex_array|done|].
  unfold apart. rewrite PGSIZE_eq. lia.
Qed.
Definition ex_execute : M memory Z := execute_name 200 0x1000 0x4000 0x8000 0x3000.
Definition ls_l : list Z := [108; 115; 32; 45; 108].
Definition too_long : list Z := replicate 100 97.
Lemma process_execute_name_witness :
  wp ex_execute (ex_memory ls_l) (λ file m', cstr m' file [108; 115]) ∧
  ex_execute (ex_memory [32]) = Panic ∧
  ex_execute (ex_memory too_long) = Fault.
Proof.
  split; [|split].
  - assert (H := process_execute_name 200 0x1000 0x4000 0x8000 0x3000 (ex_memory ls_l) ls_l
      ltac:(apply ex_command_places; [simpl; lia|vm_compute; reflexivity..]) (ex_page _)
      ltac:(simpl; lia) ltac:(simpl; lia)).
    change (length ls_l <? 100)%nat with true in H. change (words [32] ls_l) with [[108; 115]; [45; 108]] in H.
    eapply wp_mono; [exact H|]. intros file m' (Hc & _). exact Hc.
  - assert (H := process_execute_name 200 0x1000 0x4000 0x8000 0x3000 (ex_memory [32]) [32]
      ltac:(apply ex_command_places; [simpl; lia|vm_compute; reflexivity..]) (ex_page _)
      ltac:(simpl; lia) ltac:(simpl; lia)).
    change (length [32] <? 100)%nat with true in H. change (words [32] [32]) with (@nil (list Z)) in H. exact H.
  - assert (H := process_execute_name 200 0x1000 0x4000 0x8000 0x3000 (ex_memory too_long) too_long
      ltac:(apply ex_command_places; [vm_compute; lia|vm_compute; reflexivity..]) (ex_page _)
      ltac:(vm_compute; lia) ltac:(vm_compute; lia)).
    change (length too_long <? 100)%nat with false in H. exact H.
Defined.
