(* ===== verification/Fsutil.v ===== *)
(** * The file system commands of the kernel: filesys/fsutil.c

    ls, cat, rm, extract and append, over the file system of Directory.v and a second
    block device, the scratch device.  What is printed is the list of the names and dumps
    shown; the messages around them are left out. *)

From Stdlib Require Import String.
From S2P Require Import Prelude Bitmap Printf Ustar Block Inode Directory Vaddr.
Local Open Scope Z_scope.

(** The buffer as a struct ustar_header. *)
Definition field (bs : list Z) (ofs n : nat) : list Z := take n (drop ofs bs).
Definition header_of (bs : list Z) : ustar_header :=
  mk_header (field bs 0 100) (field bs 100 8) (field bs 108 8) (field bs 116 8) (field bs 124 12) (field bs 136 12)
    (field bs 148 8) (default 0 (bs !! 156%nat)) (field bs 157 100) (field bs 257 6) (field bs 263 2)
    (field bs 265 32) (field bs 297 32) (field bs 329 8) (field bs 337 8) (field bs 345 155) (field bs 500 12).

Inductive shown := Name (name : list Z) | Dump (pos : Z) (bytes : list Z).
(** The file system, the scratch device (if there is one), the static variables SECTOR of
    fsutil_extract () and fsutil_append () and i of filesys_create (), the directory of
    the running thread, and what has been shown. *)
Record util (D E : Type) := mk_util {
  u_fs : fs D; scratch : option E; extract_sector : Z; append_sector : Z; create_i : Z; cur_dir : Z;
  screen : list shown }.
Arguments mk_util {D E}.
Arguments u_fs {D E}.
Arguments scratch {D E}.
Arguments extract_sector {D E}.
Arguments append_sector {D E}.
Arguments create_i {D E}.
Arguments cur_dir {D E}.
Arguments screen {D E}.

Section fsutil.
Context {D E : Type} `{!BlockOps D} `{!BlockOps E} (stk : stack) (nest : nat).
(** The byte behind the block of the heap that is the buffer of fsutil_append (). *)
Context (behind : Z).
Notation U := (util D E).

Definition with_fs (s : fs D) (u : U) : U :=
  mk_util s (scratch u) (extract_sector u) (append_sector u) (create_i u) (cur_dir u) (screen u).
Definition with_scratch (e : E) (u : U) : U :=
  mk_util (u_fs u) (Some e) (extract_sector u) (append_sector u) (create_i u) (cur_dir u) (screen u).
Definition with_extract (n : Z) (u : U) : U :=
  mk_util (u_fs u) (scratch u) n (append_sector u) (create_i u) (cur_dir u) (screen u).
Definition with_append (n : Z) (u : U) : U :=
  mk_util (u_fs u) (scratch u) (extract_sector u) n (create_i u) (cur_dir u) (screen u).
Definition with_create (n : Z) (u : U) : U :=
  mk_util (u_fs u) (scratch u) (extract_sector u) (append_sector u) n (cur_dir u) (screen u).
Definition with_screen (l : list shown) (u : U) : U :=
  mk_util (u_fs u) (scratch u) (extract_sector u) (append_sector u) (create_i u) (cur_dir u) l.
Definition on_fs {A} (m : M (fs D) A) : M U A := zoom u_fs with_fs m.
Definition on_scratch {A} (m : M E A) : M U A := λ u,
  match scratch u with
  | Some e => zoom (λ _, e) with_scratch m u
  | None => Fault
  end.
Definition show (x : shown) : M U unit := modify (λ u, with_screen (screen u ++ [x]) u).
Definition lift {A} (r : result A) : M U A := λ u,
  match r with Ok a => Ok (a, u) | Panic => Panic | Fault => Fault | Fuel => Fuel end.
(** block_get_role (BLOCK_SCRATCH) *)
Definition scratch_role : M U bool := u ← get; mret (match scratch u with Some _ => true | None => false end).

(** while (dir_readdir (dir, name)); the number of entries bounds the loop. *)
Fixpoint ls_loop (fuel : nat) (d : Z) : M U unit :=
  match fuel with
  | O => nofuel
  | S fuel =>
    r ← on_fs (dir_readdir d);
    match r with
    | Some name => show (Name name);; ls_loop fuel d
    | None => mret tt
    end
  end.
Definition fsutil_ls : M U unit :=
  d ← on_fs (dir_open_root nest);
  if d =? NULL then panic
  else
    x ← on_fs (fetch_dir d);
    fuel ← on_fs (dir_fuel (d_inode x));
    ls_loop fuel d.

(** for (;;): at most one round for each byte, and the last one.  The page for the buffer
    is one of the outcomes of [alloc]. *)
Fixpoint cat_loop (fuel : nat) (f : Z) : M U unit :=
  match fuel with
  | O => nofuel
  | S fuel =>
    pos ← on_fs (file_tell f);
    '(n, bs) ← on_fs (file_read f PGSIZE);
    if n =? 0 then mret tt else show (Dump pos bs);; cat_loop fuel f
  end.
Definition fsutil_cat (file_name : list Z) : M U unit :=
  f ← on_fs (filesys_open nest file_name);
  if f =? NULL then panic
  else
    buffer ← on_fs alloc;
    (if buffer =? NULL then panic else mret tt);;
    n ← on_fs (file_length f);
    cat_loop (S (Z.to_nat n)) f;;
    on_fs (file_close nest f).

Definition fsutil_rm (file_name : list Z) : M U unit :=
  u ← get;
  ok ← on_fs (filesys_remove nest (cur_dir u) file_name);
  if negb ok then panic else mret tt.

Definition next_extract : M U Z := u ← get; modify (with_extract (u32 (extract_sector u + 1)));; mret (extract_sector u).
Definition next_append : M U Z := u ← get; modify (with_append (u32 (append_sector u + 1)));; mret (append_sector u).
Definition create (name : list Z) (size : Z) : M U bool :=
  u ← get;
  '(ok, i) ← on_fs (filesys_create stk nest (create_i u) (cur_dir u) name size);
  modify (with_create i);;
  mret ok.
(** while (size > 0), one sector a round. *)
Fixpoint copy_in (n : nat) (dst size : Z) : M U unit :=
  match n with
  | O => mret tt
  | S n =>
    if 0 <? size then
      let chunk_size := if BLOCK_SECTOR_SIZE <? size then BLOCK_SECTOR_SIZE else size in
      sector ← next_extract;
      data ← on_scratch (dev_read sector);
      k ← on_fs (file_write nest dst data chunk_size);
      if negb (k =? chunk_size) then panic else copy_in n dst (size - chunk_size)
    else mret tt
  end.
Definition sector_rounds (size : Z) : nat := Z.to_nat ((size + 511) / 512).
(** for (;;), one file a round. *)
Fixpoint extract_files (fuel : nat) : M U unit :=
  match fuel with
  | O => nofuel
  | S fuel =>
    sector ← next_extract;
    header ← on_scratch (dev_read sector);
    r ← lift (ustar_parse_header (header_of header));
    match r with
    | Error _ => panic
    | Parsed _ USTAR_EOF _ => mret tt
    | Parsed _ USTAR_DIRECTORY _ => extract_files fuel
    | Parsed file_name USTAR_REGULAR size =>
      file_name ← from_option file_name;
      ok ← create file_name size;
      (if negb ok then panic else mret tt);;
      dst ← on_fs (filesys_open nest file_name);
      (if dst =? NULL then panic else mret tt);;
      copy_in (sector_rounds size) dst size;;
      on_fs (file_close nest dst);;
      extract_files fuel
    end
  end.
Definition fsutil_extract (fuel : nat) : M U unit :=
  header ← on_fs alloc;
  data ← on_fs alloc;
  (if (header =? NULL) || (data =? NULL) then panic else mret tt);;
  src ← scratch_role;
  (if negb src then panic else mret tt);;
  extract_files fuel;;
  on_scratch (dev_write 0 zeros);;
  on_scratch (dev_write 1 zeros).

(** while (size > 0), one sector a round. *)
Fixpoint copy_out (n : nat) (src size : Z) : M U unit :=
  match n with
  | O => mret tt
  | S n =>
    if 0 <? size then
      let chunk_size := if BLOCK_SECTOR_SIZE <? size then BLOCK_SECTOR_SIZE else size in
      u ← get;
      sectors ← on_scratch (gets dev_size);
      (if sectors <=? append_sector u then panic else mret tt);;
      '(k, bs) ← on_fs (file_read src chunk_size);
      (if negb (k =? chunk_size) then panic else mret tt);;
      sector ← next_append;
      on_scratch (dev_write sector (bs ++ replicate (Z.to_nat (BLOCK_SECTOR_SIZE - chunk_size)) 0));;
      copy_out n src (size - chunk_size)
    else mret tt
  end.
(** Everything from the header to file_close (). *)
Definition append_sectors (h : ustar_header) (src size : Z) : M U unit :=
  sector ← next_append;
  on_scratch (dev_write sector (header_bytes h));;
  copy_out (sector_rounds size) src size;;
  u ← get;
  on_scratch (dev_write (append_sector u) zeros);;
  (** buffer + 1: the last byte is the one behind the buffer *)
  on_scratch (dev_write (append_sector u) (replicate 511 0 ++ [behind]));;
  on_fs (file_close nest src).
Definition fsutil_append (file_name : list Z) : M U unit :=
  buffer ← on_fs alloc;
  (if buffer =? NULL then panic else mret tt);;
  src ← on_fs (filesys_open nest file_name);
  (if src =? NULL then panic else mret tt);;
  size ← on_fs (file_length src);
  dst ← scratch_role;
  (if negb dst then panic else mret tt);;
  h ← lift (ustar_make_header file_name USTAR_REGULAR size);
  match h with
  | None => panic
  | Some h => append_sectors h src size
  end.
End fsutil.
