(* ===== verification/FsutilThms.v ===== *)
(** * Theorems on filesys/fsutil.c

    append writes an archive that parses back to the file; cat shows whole pages only, and
    rm never succeeds, both because of what the file system below them does. *)

From S2P Require Import Prelude Bitmap CString Printf Ustar Block BlockThms Inode InodeInv FreeMap InodeThms Directory DirThms.
From S2P Require Import FilesysThms Vaddr Fsutil.
Local Open Scope Z_scope.
Local Ltac Zify.zify_post_hook ::= Z.to_euclidean_division_equations.

(** ** Headers in sectors *)
Lemma field_here (k r : list Z) n : length k = n → field (k ++ r) 0 n = k.
Proof. intros <-. unfold field. by rewrite drop_0, take_app_length. Qed.
Lemma field_last (k : list Z) n : length k = n → field k 0 n = k.
Proof. intros <-. unfold field. by rewrite drop_0, take_ge. Qed.
Lemma field_skip (l r : list Z) ofs n : (length l ≤ ofs)%nat → field (l ++ r) ofs n = field r (ofs - length l) n.
Proof. intros Hl. unfold field. by rewrite drop_app_ge. Qed.
Record fields_ok (h : ustar_header) : Prop := {
  fi_name : length (name h) = 100%nat; fi_mode : length (mode h) = 8%nat; fi_uid : length (uid h) = 8%nat;
  fi_gid : length (gid h) = 8%nat; fi_size : length (hsize h) = 12%nat; fi_mtime : length (mtime h) = 12%nat;
  fi_chksum : length (chksum h) = 8%nat; fi_linkname : length (linkname h) = 100%nat;
  fi_magic : length (Ustar.magic h) = 6%nat; fi_version : length (version h) = 2%nat; fi_uname : length (uname h) = 32%nat;
  fi_gname : length (gname h) = 32%nat; fi_devmajor : length (devmajor h) = 8%nat; fi_devminor : length (devminor h) = 8%nat;
  fi_prefix : length (prefix h) = 155%nat; fi_padding : length (padding h) = 12%nat }.
Lemma header_bytes_length h : fields_ok h → length (header_bytes h) = 512%nat.
Proof.
  intros []. unfold header_bytes, bytes_before, bytes_after. repeat (rewrite length_app || cbn [length]). lia.
Qed.
Lemma header_typeflag h : fields_ok h → header_bytes h !! 156%nat = Some (typeflag h).
Proof.
  intros []. unfold header_bytes, bytes_after. rewrite app_assoc. apply list_lookup_middle.
  unfold bytes_before. rewrite !length_app. lia.
Qed.
Lemma header_of_bytes h : fields_ok h → header_of (header_bytes h) = h.
Proof.
  intros Hh. unfold header_of. rewrite (header_typeflag _ Hh). destruct Hh.
  destruct h as [nm md ui gi sz mt cs tf ln mg vs un gn dj dn pf pd]. cbn [name mode uid gid hsize mtime chksum linkname
    Ustar.magic version uname gname devmajor devminor prefix padding] in *.
  unfold header_bytes, bytes_before, bytes_after. cbn [name mode uid gid hsize mtime chksum linkname typeflag
    Ustar.magic version uname gname devmajor devminor prefix padding].
  rewrite <-!app_assoc. change (tf :: ?l) with ([tf] ++ l).
  f_equal;
    repeat match goal with
    | |- field (?k ++ _) 0 _ = ?k => apply field_here; assumption
    | |- field ?k 0 _ = ?k => apply field_last; assumption
    | |- field ([?x] ++ _) _ _ = _ => rewrite (field_skip [x]) by (apply Nat.leb_le; reflexivity); cbn [length Nat.sub]
    | H : length ?l = _ |- field (?l ++ _) _ _ = _ => rewrite (field_skip l) by (rewrite H; apply Nat.leb_le; reflexivity); rewrite H; cbn [Nat.sub]
    end.
Qed.
(** What ustar_make_header () makes fills a sector, from which it is parsed back. *)
Lemma made_header f g size :
  Forall (λ c, 0 < c < 256) f → 0 ≤ size < 2 ^ 31 → strip_antisocial_prefixes f = Ok g → (length g ≤ 99)%nat →
  ∃ h, ustar_make_header f USTAR_REGULAR size = Ok (Some h) ∧ length (header_bytes h) = 512%nat ∧
    ustar_parse_header (header_of (header_bytes h)) = Ok (Parsed (Some g) USTAR_REGULAR size).
Proof.
  intros Hf Hs Hg Hl. destruct (make_header_spec f USTAR_REGULAR size) as (g' & Hg' & Hm); [done..|].
  assert (g' = g) as -> by congruence. rewrite decide_False in Hm by lia. destruct Hm as (m & sz & mt & cs & Hm).
  cbv zeta in Hm. destruct Hm as (Hm & Hsz & Hcs & _ & Hlm & Hlt). eexists. split; [exact Hm|].
  pose proof (is_octal_bytes _ _ _ Hsz) as [_ ?]. pose proof (is_octal_bytes _ _ _ Hcs) as [_ ?].
  match type of Hm with _ = Ok (Some ?h) => assert (fields_ok h) as Hh end.
  { split; cbn [name mode uid gid hsize mtime chksum linkname Ustar.magic version uname gname devmajor devminor prefix padding];
      try done; try lia. rewrite length_app, length_replicate. lia. }
  split; [by apply header_bytes_length|]. rewrite (header_of_bytes _ Hh).
  destruct (ustar_roundtrip f USTAR_REGULAR size) as (g' & Hg1 & _ & _ & _ & Hr); [done..|]. rewrite Hm in Hr.
  assert (g' = g) as -> by congruence. destruct Hr as [_ Hr]. by rewrite decide_True in Hr by done.
Qed.

Section append.
Context {D E : Type} `{BlockDevice D} `{BlockDevice E} (nest : nat) (behind : Z).
Notation U := (util D E).
Implicit Types (u : U) (e : E).

Lemma wp_util_fs {A} (m : M (fs D) A) u Q : wp m (u_fs u) (λ a s, Q a (with_fs s u)) → wp (on_fs m) u Q.
Proof. apply wp_zoom. Qed.
Lemma wp_on_scratch {A} (m : M E A) u e Q :
  scratch u = Some e → wp m e (λ a e', Q a (with_scratch e' u)) → wp (on_scratch m) u Q.
Proof. intros Hu Hm. unfold wp, on_scratch. rewrite Hu. exact (wp_zoom (λ _, e) with_scratch m u Q Hm). Qed.
Lemma wp_lift {A} (r : result A) a u Q : r = Ok a → Q a u → wp (lift r) u Q.
Proof. by intros ->. Qed.
Lemma wp_next_append u Q :
  0 ≤ append_sector u < 2 ^ 32 - 1 → Q (append_sector u) (with_append (append_sector u + 1) u) → wp next_append u Q.
Proof. intros Ha HQ. unfold next_append. do 5 wp_step. by rewrite wrap_small by lia. Qed.

(** A write to the scratch device. *)
Lemma wp_write_scratch u e n buf Q :
  scratch u = Some e → dev_ok e → 0 ≤ n < dev_size e → length buf = 512%nat →
  (∀ e', dev_ok e' → dev_size e' = dev_size e →
     (∀ j, 0 ≤ j < dev_size e → dev_contents e' j = if decide (j = n) then buf else dev_contents e j) →
     Q tt (with_scratch e' u)) →
  wp (on_scratch (dev_write n buf)) u Q.
Proof.
  intros Hu Hok Hn Hl HQ. apply (wp_on_scratch _ _ e); [done|].
  eapply wp_mono; [apply dev_write_law; [done|done|unfold BLOCK_SECTOR_SIZE; lia]|]. intros [] e' (? & ? & ?). by apply HQ.
Qed.

(** The sectors from [a] on hold bytes, with zeros behind them. *)
Definition holds e (a : Z) (n : nat) (bs : list Z) : Prop :=
  mjoin (dev_contents e <$> seqZ a (Z.of_nat n)) = bs ++ replicate (512 * n - length bs) 0.
Lemma holds_cons e a n c bs : length c = 512%nat → dev_contents e a = c → holds e (a + 1) n bs → holds e a (S n) (c ++ bs).
Proof.
  intros Hc Ha Hn. unfold holds in *. rewrite seqZ_cons by lia. cbn [fmap list_fmap mjoin list_join]. 
  replace (Z.pred (Z.of_nat (S n))) with (Z.of_nat n) by lia. change (Z.succ a) with (a + 1). rewrite <-app_assoc, Ha.
  f_equal. etransitivity; [exact Hn|]. f_equal. f_equal. rewrite length_app. lia.
Qed.
Lemma holds_last e a bs : (length bs ≤ 512)%nat → dev_contents e a = bs ++ replicate (512 - length bs) 0 → holds e a 1 bs.
Proof.
  intros Hl Ha. unfold holds. change (seqZ a (Z.of_nat 1)) with [a]. cbn [fmap list_fmap mjoin list_join]. rewrite Ha, app_nil_r. done.
Qed.
Lemma holds_ext e e' a n bs :
  (∀ j, a ≤ j < a + Z.of_nat n → dev_contents e' j = dev_contents e j) → holds e a n bs → holds e' a n bs.
Proof.
  intros He Hh. unfold holds in *. rewrite <-Hh. f_equal. apply list_fmap_ext. intros k y Hk. apply lookup_seqZ in Hk. apply He. lia.
Qed.

Lemma reads_refl s : fs_ok s → reads (D := D) s s.
Proof. intros Hok. split; [|done|done]. by split. Qed.
Lemma reads_trans s1 s2 s3 : reads (D := D) s1 s2 → reads s2 s3 → reads s1 s3.
Proof. intros [Q1 D1 C1] [Q2 D2 C2]. split; [by eapply quiet_trans|congruence|auto]. Qed.
(** One more sector in front. *)
Lemma holds_step e a n s i pos c size :
  0 < c ≤ 512 → c ≤ size → c = 512 ∨ c = size → n = sector_rounds (size - c) →
  dev_contents e a = content s i pos c ++ replicate (Z.to_nat (512 - c)) 0 →
  holds e (a + 1) n (content (D := D) s i (pos + c) (size - c)) → holds e a (S n) (content s i pos size).
Proof.
  intros Hc Hcs [-> | ->] Hn Ha Hh.
  - replace size with (512 + (size - 512)) at 1 by lia. rewrite content_app by lia. apply holds_cons; [apply content_length| |done].
    rewrite Ha. apply app_nil_r.
  - assert (n = 0%nat) as -> by (unfold sector_rounds in Hn; lia). apply holds_last; rewrite content_length; [lia|].
    rewrite Ha. do 2 f_equal. lia.
Qed.
Lemma wp_copy_out n src size u e sec p i pos Q :
  scratch u = Some e → dev_ok e → fs_ok (u_fs u) → node_ok (u_fs u) sec →
  files (u_fs u) !! src = Some (mk_file p pos false) → copy_of (u_fs u) sec p i →
  0 ≤ pos → 0 ≤ size → pos + size = len (node (u_fs u) sec) → n = sector_rounds size →
  0 ≤ append_sector u → append_sector u + Z.of_nat n ≤ dev_size e →
  (∀ s' e', reads (u_fs u) s' → dev_ok e' → dev_size e' = dev_size e →
     holds e' (append_sector u) n (content (u_fs u) (node (u_fs u) sec) pos size) →
     (∀ j, 0 ≤ j < dev_size e → ¬ (append_sector u ≤ j < append_sector u + Z.of_nat n) →
        dev_contents e' j = dev_contents e j) →
     files s' !! src = Some (mk_file p (pos + size) false) →
     Q tt (with_append (append_sector u + Z.of_nat n) (with_scratch e' (with_fs s' u)))) →
  wp (copy_out n src size) u Q.
Proof.
  revert size u e pos. induction n as [|n IH]; intros size u e pos Hu He Hok Hnode Hf Hc Hpos Hsize Hlen Hn Ha Hroom HQ; cbn [copy_out].
  - wp_step. assert (size = 0) as -> by (unfold sector_rounds in Hn; lia). rewrite Z.add_0_r in HQ.
    specialize (HQ (u_fs u) e). rewrite Z.add_0_r in HQ. destruct u as [us usc ue ua ui uc usr]. simpl in *. subst usc. by apply HQ; [apply reads_refl|..].
  - assert (0 < size) as Hpos' by (unfold sector_rounds in Hn; lia). destruct (Z.ltb_spec 0 size); [|lia].
    unfold BLOCK_SECTOR_SIZE. set (c := if 512 <? size then 512 else size).
    assert (0 < c ≤ 512 ∧ c ≤ size ∧ (c = 512 ∨ c = size)) as (Hc0 & Hcs & Hcc) by (unfold c; destruct (Z.ltb_spec 512 size); lia).
    assert (n = sector_rounds (size - c)) as Hn' by (unfold sector_rounds in *; lia).
    pose proof (dev_size_range e He) as Hz. do 3 wp_step. apply (wp_on_scratch _ _ e); [done|]. do 2 wp_step.
    destruct (Z.leb_spec (dev_size e) (append_sector u)); [lia|]. wp_step. wp_step. apply wp_util_fs. cbn [u_fs with_scratch].
    eapply (wp_open_read _ _ p pos false sec i); [done..|lia|done|lia|]. intros s1 R1 Ef1. wp_step. rewrite Z.eqb_refl. cbn [negb]. wp_step.
    wp_step. apply wp_next_append; [simpl; lia|]. cbn [append_sector with_fs with_scratch with_append u_fs]. wp_step.
    pose proof (content_length (u_fs u) (node (u_fs u) sec) pos c) as Hcl.
    eapply (wp_write_scratch _ e); [done|done|lia|rewrite length_app, length_replicate, Hcl; lia|]. intros e1 He1 Hz1 Hc1.
    assert (files s1 !! src = Some (mk_file p (pos + c) false)) as Ef by (rewrite Ef1; apply lookup_insert_eq).
    pose proof (rd_quiet _ _ R1) as Q1.
    assert (node s1 sec = node (u_fs u) sec) as En by (apply node_same; [apply Q1|apply Hnode]).
    eapply (IH (size - c) _ e1 (pos + c)); cbn [append_sector with_fs with_scratch with_append u_fs scratch];
      [done|done|apply Q1|eapply node_ok_same; [apply Q1|apply Q1|done]|done|by apply R1|lia|lia|rewrite En; lia|done|lia|lia|].
    intros s2 e2 R2 He2 Hz2 Hh2 Hother Ef2. replace (append_sector u + 1 + Z.of_nat n) with (append_sector u + Z.of_nat (S n)) by lia.
    replace (pos + c + (size - c)) with (pos + size) in Ef2 by lia. rewrite En, node_content_same in Hh2 by (done || apply Q1 || lia).
    apply (HQ s2 e2); [by eapply reads_trans|done|congruence| | |done].
    + apply (holds_step _ _ _ _ _ _ c); try done. rewrite Hother, Hc1, decide_True by lia. done.
    + intros j Hj Hj'. rewrite Hother, Hc1, decide_False by lia. done.
Qed.

Lemma wp_alloc_quiet s Q :
  fs_ok s → (∀ a s', quiet s s' → a ≠ NULL → files s' = files s → Q a s') → wp (alloc (D := D)) s Q.
Proof.
  intros Hok HQ. apply wp_alloc; [apply Hok|apply Hok|]. intros s' Fr Hm _. pose proof (fk_heap _ Hok) as [_ Hn].
  apply HQ; [by apply quiet_frame|unfold NULL; lia|apply Fr].
Qed.
(** The state of the scratch device after a file of [n] sectors has been appended at [a]. *)
Record appended e e' (a : Z) (n : nat) (header bytes : list Z) : Prop := {
  ap_header : dev_contents e' a = header;
  ap_bytes : holds e' (a + 1) n bytes;
  ap_end : dev_contents e' (a + 1 + Z.of_nat n) = replicate 511 0 ++ [behind];
  ap_rest j : 0 ≤ j < dev_size e → ¬ (a ≤ j ≤ a + 1 + Z.of_nat n) → dev_contents e' j = dev_contents e j;
}.
Lemma wp_append_sectors u e h src p i sec Q :
  let a := append_sector u in
  let n := sector_rounds (len (node (u_fs u) sec)) in
  scratch u = Some e → dev_ok e → fs_ok (u_fs u) → node_ok (u_fs u) sec → src ≠ NULL →
  files (u_fs u) !! src = Some (mk_file p 0 false) → copy_of (u_fs u) sec p i → length (header_bytes h) = 512%nat →
  0 ≤ a → a + 1 + Z.of_nat n < dev_size e →
  (∀ s' e', quiet (u_fs u) s' → appended e e' a n (header_bytes h) (file_bytes (u_fs u) sec) →
     Q tt (with_append (a + 1 + Z.of_nat n) (with_scratch e' (with_fs s' u)))) →
  wp (append_sectors nest behind h src (len (node (u_fs u) sec))) u Q.
Proof.
  intros a n Hu He Hok Hnode Hsrc Ef Hc Hhl Ha Hroom HQ. pose proof (dev_size_range e He) as Hz. unfold append_sectors.
  wp_step. apply wp_next_append; [simpl; lia|]. wp_step. apply (wp_write_scratch _ e); [done|done|simpl; lia|done|].
  intros e1 He1 Hz1 Hc1. cbn [append_sector with_fs with_append] in *. fold a in Hc1 |- *. wp_step.
  eapply (wp_copy_out _ _ _ _ e1 sec p i 0); cbn [u_fs append_sector with_fs with_append with_scratch scratch];
    [done|done|done|done|done|done|done|apply Hnode|done|done|lia|fold n; lia|].
  fold n a. intros s3 e3 R3 He3 Hz3 Hh3 Ho3 Ef3. do 3 wp_step. cbn [append_sector with_append].
  apply (wp_write_scratch _ e3); [done|done|lia|done|]. intros e4 He4 Hz4 Hc4. wp_step.
  apply (wp_write_scratch _ e4); [done|done|lia|done|]. intros e5 He5 Hz5 Hc5. apply wp_util_fs.
  cbn [u_fs with_fs with_scratch with_append]. pose proof (rd_quiet _ _ R3) as Q3.
  eapply (wp_file_close _ _ _ p _ sec i); [apply Q3|exact Ef3|done|by apply R3|]. intros s4 Q4.
  assert (∀ j, 0 ≤ j < dev_size e → j ≠ a + 1 + Z.of_nat n → dev_contents e5 j = dev_contents e3 j) as H53.
  { intros j Hj Hj'. rewrite Hc5, Hc4, !decide_False by lia. done. }
  apply (HQ s4 e5); [eauto using quiet_trans|]. split.
  - rewrite H53, Ho3, Hc1, decide_True by lia. done.
  - apply (holds_ext e3); [intros; apply H53; lia|done].
  - rewrite Hc5, decide_True by lia. done.
  - intros j Hj Hj'. rewrite H53, Ho3, Hc1, decide_False by lia. done.
Qed.

(** ** cat *)
Lemma wp_file_tell s f x Q : files s !! f = Some x → f ≠ NULL → Q (f_pos x) s → wp (file_tell (D := D) f) s Q.
Proof.
  intros Ef Hn HQ. unfold file_tell, get_file. do 2 wp_step. { by apply negb_true_iff, Z.eqb_neq. }
  do 3 wp_step. apply (wp_from_option _ x); [done|]. by wp_step.
Qed.
(** A read across the end counts as nothing. *)
Lemma wp_file_read_end s f p pos deny sec i size Q :
  fs_ok (D := D) s → node_ok s sec → files s !! f = Some (mk_file p pos deny) → copy_of s sec p i →
  0 < size → 0 ≤ pos ≤ len (node s sec) → len (node s sec) < pos + size →
  (∀ s' bs, reads s s' → files s' !! f = Some (mk_file p pos deny) → Q (0, bs) s') →
  wp (file_read f size) s Q.
Proof.
  intros Hok Hnode Ef Hc Hz Hp Hl HQ. pose proof Hc as (_ & _ & _ & Ed). unfold file_read, get_file, set_file.
  wp_step. do 2 wp_step. apply (wp_from_option _ (mk_file p pos deny)); [done|]. wp_step. cbn [f_inode f_pos f_deny_write].
  assert (len i = len (node s sec)) as El by (unfold len; by rewrite Ed). pose proof (no_len _ _ Hnode).
  apply (wp_inode_read_at _ _ i); [by eapply copy_file_ok|apply Hok|apply Hok|lia|lia|right; right; rewrite El; lia|].
  intros s' Fr Hm. unfold read_result. rewrite decide_False by (rewrite El; lia). do 3 wp_step.
  pose proof (quiet_frame _ _ Fr Hm Hok) as [[[] ? ? ?] ? ? ?]. apply HQ; [split|]; simpl.
  - by repeat (split; simpl; try done).
  - apply Fr.
  - intros sec' q j Hq. exact (copy_of_frame _ _ _ _ _ Fr Hok Hq).
  - rewrite Z.add_0_r. apply lookup_insert_eq.
Qed.
Definition pages s sec (pos : Z) (n : nat) : list shown :=
  (λ k, Dump (pos + 4096 * k) (content (D := D) s (node s sec) (pos + 4096 * k) 4096)) <$> seqZ 0 (Z.of_nat n).
Lemma pages_S s sec pos n :
  pages s sec pos (S n) = Dump pos (content s (node s sec) pos 4096) :: pages s sec (pos + 4096) n.
Proof.
  unfold pages. rewrite seqZ_cons by lia. cbn [fmap list_fmap]. rewrite Z.mul_0_r, Z.add_0_r. f_equal.
  replace (Z.pred (Z.of_nat (S n))) with (Z.of_nat n) by lia. rewrite <-(fmap_add_seqZ 1 0), <-list_fmap_compose.
  apply list_fmap_ext. intros k y _. simpl. by replace (pos + 4096 * (1 + y)) with (pos + 4096 + 4096 * y) by lia.
Qed.
Lemma pages_same s s' sec pos n : quiet s s' → node_ok s sec → 0 ≤ pos → pos + 4096 * Z.of_nat n ≤ len (node s sec) →
  pages s' sec pos n = pages s sec pos n.
Proof.
  intros Hq Hnode Hp Hl. unfold pages. apply list_fmap_ext. intros k y Hk. apply lookup_seqZ in Hk.
  rewrite (node_same s s') by (apply Hq || apply Hnode). by rewrite (node_content_same s s') by (apply Hq || done || lia).
Qed.
Lemma wp_cat_loop n fuel f u sec p i pos Q :
  fs_ok (u_fs u) → node_ok (u_fs u) sec → files (u_fs u) !! f = Some (mk_file p pos false) → f ≠ NULL →
  copy_of (u_fs u) sec p i → 0 ≤ pos → (n < fuel)%nat →
  pos + 4096 * Z.of_nat n ≤ len (node (u_fs u) sec) < pos + 4096 * (Z.of_nat n + 1) →
  (∀ s', reads (u_fs u) s' → (∃ pos', files s' !! f = Some (mk_file p pos' false)) →
     Q tt (with_screen (screen u ++ pages (u_fs u) sec pos n) (with_fs s' u))) →
  wp (cat_loop fuel f) u Q.
Proof.
  revert fuel u pos. induction n as [|n IH]; intros [|fuel] u pos Hok Hnode Ef Hf Hc Hp Hfuel Hl HQ; try lia;
    cbn [cat_loop]; wp_step; apply wp_util_fs, (wp_file_tell _ _ _ _ Ef Hf); wp_step; apply wp_util_fs; cbn [u_fs with_fs f_pos];
    rewrite PGSIZE_eq.
  - eapply (wp_file_read_end _ _ p pos false sec i); [done..|lia|lia|lia|]. intros s' bs R' Ef'.
    change (0 =? 0) with true. cbv iota. wp_step. specialize (HQ s' R' (ex_intro _ _ Ef')). unfold pages in HQ.
    change (seqZ 0 (Z.of_nat 0)) with (@nil Z) in HQ. cbn [fmap list_fmap] in HQ. rewrite app_nil_r in HQ. by destruct u.
  - eapply (wp_open_read _ _ p pos false sec i); [done..|lia|lia|]. intros s1 R1 Ef1. change (4096 =? 0) with false. cbv iota.
    wp_step. apply wp_modify. pose proof (rd_quiet _ _ R1) as Q1.
    assert (node s1 sec = node (u_fs u) sec) as En by (apply node_same; [apply Q1|apply Hnode]).
    eapply (IH _ _ (pos + 4096)); cbn [u_fs with_screen with_fs screen];
      [apply Q1|eapply node_ok_same; [apply Q1|apply Q1|done]|rewrite Ef1; apply lookup_insert_eq|done|by apply R1|lia|lia|rewrite En; lia|].
    intros s2 R2 Ef2. rewrite <-app_assoc, (pages_same (u_fs u) s1) by (done || lia). cbn [app]. rewrite <-pages_S.
    apply (HQ s2); [by eapply reads_trans|done].
Qed.
(** fsutil_cat () shows the pages of a file that are full, and stops before the last
    page if it is not: a file of less than 4096 bytes is not shown at all. *)
Theorem fsutil_cat_full_pages u file_name sec :
  fs_ok (u_fs u) → root_ok (u_fs u) → file_name ≠ root_name → Forall (λ c, c ≠ 0) file_name →
  root_map (u_fs u) (root_key file_name) = Some sec → node_ok (u_fs u) sec →
  wp (fsutil_cat nest file_name) u (λ _ u', quiet (u_fs u) (u_fs u') ∧
    screen u' = screen u ++ pages (u_fs u) sec 0 (Z.to_nat (len (node (u_fs u) sec) / 4096))).
Proof.
  intros Hok Hr Hroot Hname Hmap Hnode. unfold fsutil_cat. wp_step. apply wp_util_fs.
  apply wp_filesys_open; [done|done|done|done| | |].
  { intros sec'. rewrite Hmap. intros [= <-]. apply Hnode. }
  { by rewrite Hmap. }
  intros sec' f p i s1 Hsec' Q1 Hf Ef1 C1. rewrite Hmap in Hsec'. injection Hsec' as <-.
  rewrite (proj2 (Z.eqb_neq _ _)) by done. wp_step. apply wp_util_fs. cbn [u_fs with_fs]. pose proof (qu_ok _ _ Q1) as Hok1.
  apply wp_alloc; [apply Hok1|apply Hok1|]. intros s2 F2 M2 _. pose proof (quiet_frame _ _ F2 M2 Hok1) as Q2.
  pose proof (fk_heap _ Hok1) as [_ Hnext]. rewrite (proj2 (Z.eqb_neq _ _)) by (unfold NULL; lia). do 3 wp_step. apply wp_util_fs.
  assert (quiet (u_fs u) s2) as Q12 by (eapply quiet_trans; done). pose proof (copy_of_frame _ _ _ _ _ F2 Hok1 C1) as C2.
  assert (files s2 !! f = Some (mk_file p 0 false)) as Ef by (rewrite (fr_files _ _ _ F2), Ef1; apply lookup_insert_eq).
  assert (node s2 sec = node (u_fs u) sec) as En by (apply node_same; [apply Q12|apply Hnode]).
  pose proof (no_len _ _ Hnode) as Hlen.
  eapply (wp_open_length _ _ _ sec i _ (qu_ok _ _ Q12) Ef Hf C2). wp_step. rewrite En.
  eapply (wp_cat_loop (Z.to_nat (len (node (u_fs u) sec) / 4096)) _ _ _ sec p i 0); cbn [u_fs with_fs];
    [apply Q12|eapply node_ok_same; [apply Q12|apply Q12|done]|done|done|done|done| |rewrite En; clear -Hlen; lia|].
  { clear -Hlen. generalize dependent (len (node (u_fs u) sec)). intros l Hl. lia. }
  intros s3 R3 [pos' Ef3]. apply wp_util_fs. cbn [u_fs with_fs with_screen]. pose proof (rd_quiet _ _ R3) as Q3.
  eapply (wp_file_close _ _ _ p _ sec i); [apply Q3|done|done|by apply R3|]. intros s4 Q4.
  split; [eauto using quiet_trans|]. cbn [screen with_fs with_screen].
  rewrite (pages_same (u_fs u) s2) by (done || (clear -Hlen; lia)). done.
Qed.
End append.

(** ** rm *)
(** fsutil_rm () never returns: filesys_remove () always gives up, and then the kernel
    panics. *)
Theorem fsutil_rm_panics {D E : Type} `{!BlockOps D} `{!BlockOps E} (nest : nat) (u u' : util D E) file_name :
  none_empty (u_fs u) → fsutil_rm nest file_name u ≠ Ok (tt, u').
Proof.
  intros Hn Hr. unfold fsutil_rm, mbind, M_bind, get, on_fs, zoom in Hr.
  destruct (filesys_remove nest (cur_dir u) file_name (u_fs u)) as [[ok s']| | |] eqn:Er; [|done..].
  by destruct (filesys_remove_fails nest (u_fs u) s' (cur_dir u) file_name ok Hn Er) as [-> _].
Qed.

(** ** An example: the file "a" of the small file system *)
Section fsutil_example.
#[local] Existing Instance ex_ops.
#[local] Existing Instance ex_device.

Definition ex_util : util (block ramdisk) (block ramdisk) :=
  mk_util ex_root_fs (Some (mk_block (λ _, replicate 512 1) [] BLOCK_SCRATCH 64 0 0)) 0 0 0 0 [].
Lemma ex_scratch_ok : dev_ok (mk_block (λ _, replicate 512 1 : list Z) [] BLOCK_SCRATCH 64 0 0 : block ramdisk).
Proof. split; [|done]. intros i. apply length_replicate. Qed.
Lemma fsutil_cat_full_pages_witness :
  wp (fsutil_cat 1 [97]) ex_util (λ _ u', screen u' = []).
Proof.
  eapply wp_mono; [apply (fsutil_cat_full_pages 1 ex_util [97] 3 ex_fs_ok ex_root_ok);
    [done|by repeat constructor|apply ex_file_name|apply ex_file_node]|].
  intros _ u' [_ Hs]. exact Hs.
Defined.
Lemma fsutil_rm_panics_witness : fsutil_rm 1 [97] ex_util ≠ Ok (tt, ex_util).
Proof. apply (fsutil_rm_panics 1 ex_util ex_util [97]). by intros d x. Defined.
End fsutil_example.
