(* ===== verification/Palloc.v ===== *)
(** * The page allocator: threads/palloc.c

    The state is the RAM (a byte for every kernel virtual address from
    PHYS_BASE on, [init_ram_pages] pages of them) and the two pools.  The
    used_map of a pool is the bitmap of Bitmap.v; it lies in the pages just
    before the pool's base, which no pool hands out.  The lock of a pool is
    whether the running thread holds it: acquiring it twice, or releasing it
    when it is not held, panics, as in lock_acquire and lock_release (what
    the lock does between threads is Synch.v's subject).  The theorems state
    the operations on the set of pages in use. *)

From S2P Require Import Prelude Bitmap Vaddr.
Local Open Scope Z_scope.
Local Ltac Zify.zify_post_hook ::= Z.div_mod_to_equations.

(** enum palloc_flags, threads/palloc.h *)
Definition PAL_ASSERT : Z := 1.
Definition PAL_ZERO : Z := 2.
Definition PAL_USER : Z := 4.
Definition NULL : Z := 0.

(** struct pool *)
Record pool := mk_pool { pool_lock : bool; used_map : bitmap; base : Z }.

(** The RAM and the pools. *)
Record pages := mk_pages {
  init_ram_pages : Z; bytes : Z → Z; kernel_pool : pool; user_pool : pool }.

Definition set_bytes f σ := mk_pages (init_ram_pages σ) f (kernel_pool σ) (user_pool σ).
(** [&user_pool] if [u], otherwise [&kernel_pool]. *)
Definition pool_at (u : bool) (σ : pages) : pool := if u then user_pool σ else kernel_pool σ.
Definition set_pool (u : bool) (p : pool) (σ : pages) : pages :=
  if u then mk_pages (init_ram_pages σ) (bytes σ) (kernel_pool σ) p
  else mk_pages (init_ram_pages σ) (bytes σ) p (user_pool σ).

(** ** Memory *)

(** The address after the last byte of RAM. *)
Definition ram_end (σ : pages) : Z := PHYS_BASE + PGSIZE * init_ram_pages σ.
(** An access to [n] bytes at [a] faults unless RAM is mapped there. *)
Definition access (a n : Z) : M pages unit :=
  σ ← get; if (PHYS_BASE <=? a) && (a + n <=? ram_end σ) then mret tt else fault.
Definition fill (a n v : Z) (f : Z → Z) : Z → Z :=
  λ x, if (a <=? x) && (x <? a + n) then v else f x.
(** memset (a, v, n) of lib/string.c. *)
Definition memset_ram (a v n : Z) : M pages unit :=
  access a n;; modify (λ σ, set_bytes (fill a n (u8 v) (bytes σ)) σ).

(** ** Locks and bitmaps of the pools *)

Definition pool_lock_acquire (u : bool) : M pages unit :=
  p ← gets (pool_at u); assert (negb (pool_lock p));;
  modify (set_pool u (mk_pool true (used_map p) (base p))).
Definition pool_lock_release (u : bool) : M pages unit :=
  p ← gets (pool_at u); assert (pool_lock p);;
  modify (set_pool u (mk_pool false (used_map p) (base p))).
Definition on_map {A} (u : bool) : M bitmap A → M pages A :=
  zoom (λ σ, used_map (pool_at u σ))
    (λ b σ, set_pool u (mk_pool (pool_lock (pool_at u σ)) b (base (pool_at u σ))) σ).

(** ** The functions of palloc.c *)

(** The search for free pages, under the pool's lock. *)
Definition take_pages (u : bool) (page_cnt : Z) : M pages Z :=
  pool_lock_acquire u;;
  page_idx ← on_map u (bitmap_scan_and_flip 0 page_cnt false);
  pool_lock_release u;;
  mret page_idx.

Definition palloc_get_multiple (flags page_cnt : Z) : M pages Z :=
  let u := negb (Z.land flags PAL_USER =? 0) in
  if page_cnt =? 0 then mret NULL else
  page_idx ← take_pages u page_cnt;
  p ← gets (pool_at u);
  let pgs :=
    if negb (page_idx =? BITMAP_ERROR) then u32 (base p + u32 (PGSIZE * page_idx)) else NULL in
  (if negb (pgs =? NULL) then
     if negb (Z.land flags PAL_ZERO =? 0) then memset_ram pgs 0 (u32 (PGSIZE * page_cnt))
     else mret tt
   else
     if negb (Z.land flags PAL_ASSERT =? 0) then panic else mret tt);;
  mret pgs.

Definition palloc_get_page (flags : Z) : M pages Z := palloc_get_multiple flags 1.

Definition page_from_pool (u : bool) (page : Z) : M pages bool :=
  p ← gets (pool_at u);
  let page_no := pg_no page in
  let start_page := pg_no (base p) in
  n ← on_map u bitmap_size;
  let end_page := u32 (start_page + n) in
  mret ((start_page <=? page_no) && (page_no <? end_page)).

Definition palloc_free_multiple (pgs page_cnt : Z) : M pages unit :=
  assert (pg_ofs pgs =? 0);;
  if (pgs =? NULL) || (page_cnt =? 0) then mret tt else
  k ← page_from_pool false pgs;
  u ← (if k : bool then mret false else
       u ← page_from_pool true pgs; if u : bool then mret true else panic);
  p ← gets (pool_at u);
  let page_idx := u32 (pg_no pgs - pg_no (base p)) in
  memset_ram pgs 0xcc (u32 (PGSIZE * page_cnt));;
  assertM (on_map u (bitmap_all page_idx page_cnt));;
  on_map u (bitmap_set_multiple page_idx page_cnt false).

Definition palloc_free_page (page : Z) : M pages unit := palloc_free_multiple page 1.

(** The [n] words of memory at [a]. *)
Definition word_at (f : Z → Z) (a : Z) : Z :=
  u8 (f a) + 2 ^ 8 * u8 (f (a + 1)) + 2 ^ 16 * u8 (f (a + 2)) + 2 ^ 24 * u8 (f (a + 3)).
Fixpoint words_at (n : nat) (f : Z → Z) (a : Z) : list Z :=
  match n with O => [] | S n => word_at f a :: words_at n f (a + 4) end.

Definition init_pool (u : bool) (b page_cnt : Z) : M pages unit :=
  let bm_pages := DIV_ROUND_UP (bitmap_buf_size page_cnt) PGSIZE in
  if page_cnt <? bm_pages then panic else
  let page_cnt := u32 (page_cnt - bm_pages) in
  σ ← get;
  let room := u32 (bm_pages * PGSIZE) in
  let old := words_at (Z.to_nat ((room - 8) / 4)) (bytes σ) (b + 8) in
  match bitmap_create_in_buf page_cnt old room with
  | Ok m => modify (set_pool u (mk_pool false m (u32 (b + room))))
  | Panic => panic | Fault => fault | Fuel => nofuel
  end.

Definition palloc_init (user_page_limit : Z) : M pages unit :=
  n ← gets init_ram_pages;
  free_start ← ptov (1024 * 1024);
  free_end ← ptov (u32 (n * PGSIZE));
  let free_pages := u32 (Z.quot (s32 (free_end - free_start)) PGSIZE) in
  let user_pages := free_pages / 2 in
  let user_pages := if user_page_limit <? user_pages then user_page_limit else user_pages in
  let kernel_pages := u32 (free_pages - user_pages) in
  init_pool false free_start kernel_pages;;
  init_pool true (u32 (free_start + u32 (kernel_pages * PGSIZE))) user_pages.

(** ** The pages in use *)

(** The number of the first page of a pool. *)
Definition first_page (p : pool) : Z := base p / 4096.
Definition in_pool (p : pool) (pn : Z) : Prop :=
  first_page p ≤ pn < first_page p + bit_cnt (used_map p).
#[export] Instance in_pool_dec p pn : Decision (in_pool p pn).
Proof. unfold in_pool. apply _. Defined.
Definition used_in (p : pool) (pn : Z) : bool :=
  bool_decide (in_pool p pn) && bit (used_map p) (pn - first_page p).
(** Page number [pn] is handed out. *)
Definition used (σ : pages) (pn : Z) : bool := used_in (kernel_pool σ) pn || used_in (user_pool σ) pn.

Record pool_ok (σ : pages) (p : pool) : Prop := {
  po_lock : pool_lock p = false;
  po_map : bitmap_wf (used_map p);
  po_align : base p mod 4096 = 0;
  po_base : PHYS_BASE ≤ base p;
  po_end : base p + 4096 * bit_cnt (used_map p) ≤ ram_end σ
}.
Record palloc_ok (σ : pages) : Prop := {
  pk_ram : 0 ≤ init_ram_pages σ < 2 ^ 18;
  pk_kernel : pool_ok σ (kernel_pool σ);
  pk_user : pool_ok σ (user_pool σ);
  pk_apart : base (kernel_pool σ) + 4096 * bit_cnt (used_map (kernel_pool σ)) ≤ base (user_pool σ)
}.

(** [σ'] is [σ] with the pages of [P] in use or not, and the bytes of [f]. *)
Record pages_set (P : Z → Prop) (v : bool) (f : Z → Z) (σ σ' : pages) : Prop := {
  ps_ok : palloc_ok σ';
  ps_ram : init_ram_pages σ' = init_ram_pages σ;
  ps_kernel : base (kernel_pool σ') = base (kernel_pool σ) ∧
    bit_cnt (used_map (kernel_pool σ')) = bit_cnt (used_map (kernel_pool σ));
  ps_user : base (user_pool σ') = base (user_pool σ) ∧
    bit_cnt (used_map (user_pool σ')) = bit_cnt (used_map (user_pool σ));
  ps_in : ∀ pn, P pn → used σ' pn = v;
  ps_out : ∀ pn, ¬ P pn → used σ' pn = used σ pn;
  ps_bytes : bytes σ' = f
}.

(** The pool [u] of [σ] has no [cnt] consecutive free pages. *)
Definition exhausted (σ : pages) (u : bool) (cnt : Z) : Prop :=
  ∀ k, first_page (pool_at u σ) ≤ k →
       k + cnt ≤ first_page (pool_at u σ) + bit_cnt (used_map (pool_at u σ)) →
       ¬ ∀ pn, k ≤ pn < k + cnt → used σ pn = false.

Definition with_map (u : bool) (b : bitmap) (σ : pages) : pages :=
  set_pool u (mk_pool (pool_lock (pool_at u σ)) b (base (pool_at u σ))) σ.

Lemma wp_on_map {A} u (m : M bitmap A) σ Q :
  wp m (used_map (pool_at u σ)) (λ a b, Q a (with_map u b σ)) → wp (on_map u m) σ Q.
Proof. unfold on_map. intros H. by refine (wp_zoom _ _ m σ Q H). Qed.

Lemma pool_at_with_map u b σ :
  pool_at u (with_map u b σ) = mk_pool (pool_lock (pool_at u σ)) b (base (pool_at u σ)).
Proof. by destruct u. Qed.

Lemma with_map_same u σ : with_map u (used_map (pool_at u σ)) σ = σ.
Proof. by destruct u, σ as [? ? [] []]. Qed.

Section facts.
Context (σ : pages) (Hok : palloc_ok σ).

Lemma pool_at_ok u : pool_ok σ (pool_at u σ).
Proof using Hok. destruct u; [apply (pk_user _ Hok)|apply (pk_kernel _ Hok)]. Qed.

(** A page of one pool is not a page of the other. *)
Lemma in_pool_other u pn : in_pool (pool_at u σ) pn → ¬ in_pool (pool_at (negb u) σ) pn.
Proof using Hok.
  pose proof (pk_apart _ Hok). pose proof (po_align _ _ (pk_kernel _ Hok)).
  pose proof (po_align _ _ (pk_user _ Hok)).
  unfold in_pool, first_page. destruct u; simpl; lia.
Qed.

Lemma used_pool u pn : in_pool (pool_at u σ) pn →
  used σ pn = bit (used_map (pool_at u σ)) (pn - first_page (pool_at u σ)).
Proof using Hok.
  intros Hin. pose proof (in_pool_other u pn Hin) as Hno. unfold used, used_in.
  destruct u; simpl in *.
  - rewrite (bool_decide_eq_false_2 _ Hno), (bool_decide_eq_true_2 _ Hin). done.
  - rewrite (bool_decide_eq_false_2 _ Hno), (bool_decide_eq_true_2 _ Hin). apply orb_false_r.
Qed.

Lemma pool_bound u :
  PHYS_BASE ≤ base (pool_at u σ) ∧
  base (pool_at u σ) + 4096 * bit_cnt (used_map (pool_at u σ)) < 2 ^ 32 ∧
  0 ≤ bit_cnt (used_map (pool_at u σ)) ∧ base (pool_at u σ) mod 4096 = 0.
Proof using Hok.
  destruct (pool_at_ok u) as [_ [Hc _ _] Ha Hb He]. pose proof (pk_ram _ Hok).
  unfold ram_end in He. rewrite PGSIZE_eq in He. unfold PHYS_BASE in *. lia.
Qed.
End facts.

Lemma used_out σ pn : (∀ u, ¬ in_pool (pool_at u σ) pn) → used σ pn = false.
Proof.
  intros Hno. unfold used, used_in.
  rewrite (bool_decide_eq_false_2 _ (Hno true)), (bool_decide_eq_false_2 _ (Hno false)). done.
Qed.

(** Changing the bits of one pool. *)
Lemma pages_set_map σ u P v b :
  palloc_ok σ → updated P (λ _, v) (used_map (pool_at u σ)) b →
  (∀ j, P j → 0 ≤ j < bit_cnt (used_map (pool_at u σ))) →
  pages_set (λ pn, P (pn - first_page (pool_at u σ))) v (bytes σ) σ (with_map u b σ).
Proof.
  intros Hok [W C I O] HP.
  assert (palloc_ok (with_map u b σ)) as Hok'.
  { destruct Hok as [Hr [] [] Hap]. destruct u; simpl in *;
      (split; [done|split; simpl; try rewrite C; done..|simpl; by rewrite ?C]). }
  assert (∀ u' pn, in_pool (pool_at u' (with_map u b σ)) pn ↔ in_pool (pool_at u' σ) pn) as Hin.
  { intros u' pn. unfold in_pool, first_page. destruct u, u'; simpl in *; by rewrite ?C. }
  assert (first_page (pool_at u (with_map u b σ)) = first_page (pool_at u σ)) as Hf by by destruct u.
  assert (used_map (pool_at u (with_map u b σ)) = b) as Hm by by destruct u.
  split; [done|by destruct u|by destruct u|by destruct u| | |by destruct u].
  - intros pn Hp. pose proof (HP _ Hp) as Hj.
    rewrite (used_pool _ Hok' u), Hm, Hf by (apply Hin; unfold in_pool; lia). by apply I; [lia|].
  - intros pn Hn. destruct (decide (in_pool (pool_at u σ) pn)) as [Hu|Hu].
    + rewrite (used_pool _ Hok' u), Hm, Hf by by apply Hin. rewrite (used_pool _ Hok u) by done.
      unfold in_pool in Hu. apply O; [lia|done].
    + destruct (decide (in_pool (pool_at (negb u) σ) pn)) as [Hv|Hv].
      * rewrite (used_pool _ Hok' (negb u)), (used_pool _ Hok (negb u)) by (done || by apply Hin).
        by destruct u.
      * rewrite !used_out; [done| |]; intros u'; rewrite ?Hin; destruct u, u'; done.
Qed.

Lemma pages_set_bytes P v f g σ σ' :
  pages_set P v f σ σ' → pages_set P v g σ (set_bytes g σ').
Proof. intros [Hok ??????]. split; try done. by destruct Hok as [? [] [] ?]. Qed.

Lemma pages_set_iff P P' v f σ σ' :
  (∀ pn, P pn ↔ P' pn) → pages_set P v f σ σ' → pages_set P' v f σ σ'.
Proof.
  intros HP [? ? ? ? Hi Ho ?]. split; try done; intros pn Hp; [apply Hi|apply Ho]; by rewrite HP.
Qed.

Lemma wp_access a n σ Q : PHYS_BASE ≤ a → a + n ≤ ram_end σ → Q tt σ → wp (access a n) σ Q.
Proof.
  intros Ha Hn HQ. unfold access. repeat wp_step. by rewrite !(proj2 (Z.leb_le _ _)) by done.
Qed.

Lemma wp_memset_ram a v n σ Q :
  PHYS_BASE ≤ a → a + n ≤ ram_end σ → Q tt (set_bytes (fill a n (u8 v) (bytes σ)) σ) →
  wp (memset_ram a v n) σ Q.
Proof.
  intros Ha Hn HQ. unfold memset_ram. wp_step. apply wp_access; [done..|]. by wp_step.
Qed.

Lemma wp_take_pages u cnt σ Q :
  palloc_ok σ → 0 < cnt →
  (∀ idx σ', 0 ≤ idx → idx + cnt ≤ bit_cnt (used_map (pool_at u σ)) →
     (∀ pn, first_page (pool_at u σ) + idx ≤ pn < first_page (pool_at u σ) + idx + cnt →
        used σ pn = false) →
     pages_set (λ pn, first_page (pool_at u σ) + idx ≤ pn < first_page (pool_at u σ) + idx + cnt)
       true (bytes σ) σ σ' → Q idx σ') →
  (exhausted σ u cnt → Q BITMAP_ERROR σ) →
  wp (take_pages u cnt) σ Q.
Proof.
  intros Hok Hc HQ HE. unfold take_pages. destruct (pool_at_ok _ Hok u) as [Hl Hwf _ _ _].
  destruct (pool_bound _ Hok u) as (?&?&?&?). unfold pool_lock_acquire, pool_lock_release.
  repeat wp_step; [by rewrite Hl|]. repeat wp_step. apply wp_on_map.
  replace (used_map (pool_at u _)) with (used_map (pool_at u σ)) by by destruct u.
  apply wp_bitmap_scan_and_flip; [done|lia|lia| |].
  - intros idx b (?&?&Hrun&_) Hup. repeat wp_step; [by destruct u|]. repeat wp_step. simpl in *.
    replace (set_pool _ _ _) with (with_map u b σ).
    2: { unfold with_map. rewrite Hl. by destruct u. }
    apply HQ; [lia..| |].
    + intros pn Hpn. rewrite (used_pool _ Hok u) by (unfold in_pool; lia). apply Hrun. lia.
    + eapply pages_set_iff; [|apply pages_set_map; [done|exact Hup|intros; simpl in *; lia]].
      simpl. intros. lia.
  - intros Hno. repeat wp_step; [by destruct u|]. repeat wp_step.
    replace (set_pool _ _ _) with (with_map u (used_map (pool_at u σ)) σ).
    2: { unfold with_map. rewrite Hl. by destruct u. }
    rewrite with_map_same. apply HE. intros k Hk Hk'.
    intros Hfree. apply (Hno (k - first_page (pool_at u σ))); [lia|lia|]. intros j Hj.
    rewrite <-(Hfree (j + first_page (pool_at u σ))) by lia.
    rewrite (used_pool _ Hok u) by (unfold in_pool; lia). f_equal. lia.
Qed.

Notation flag f b := (negb (Z.land f b =? 0)).

(** [cnt] pages at address [p] of the pool [u] were free and are now in use. *)
Record granted (u : bool) (p cnt : Z) (f : Z → Z) (σ σ' : pages) : Prop := {
  gr_base : base (pool_at u σ) ≤ p;
  gr_end : p + 4096 * cnt ≤ base (pool_at u σ) + 4096 * bit_cnt (used_map (pool_at u σ));
  gr_align : p mod 4096 = 0;
  gr_free : ∀ pn, p / 4096 ≤ pn < p / 4096 + cnt → used σ pn = false;
  gr_set : pages_set (λ pn, p / 4096 ≤ pn < p / 4096 + cnt) true f σ σ'
}.

Lemma wpp_palloc_get_multiple flags cnt σ Q (R : Prop) :
  palloc_ok σ → 0 ≤ cnt →
  let u := flag flags PAL_USER in
  (∀ p σ', 0 < cnt → PHYS_BASE ≤ p → p + 4096 * cnt ≤ ram_end σ →
     granted u p cnt (if flag flags PAL_ZERO then fill p (4096 * cnt) 0 (bytes σ) else bytes σ) σ σ' →
     Q p σ') →
  (cnt = 0 → Q NULL σ) →
  (exhausted σ u cnt → flag flags PAL_ASSERT = false → Q NULL σ) →
  (exhausted σ u cnt → flag flags PAL_ASSERT = true → R) →
  wpp (palloc_get_multiple flags cnt) σ Q R.
Proof.
  intros Hok Hc u HQ H0 HE HR. unfold palloc_get_multiple. fold u.
  destruct (Z.eqb_spec cnt 0) as [->|Hne]; [by apply wpp_wp, wp_ret, H0|].
  destruct (pool_bound _ Hok u) as (Hb&?&?&?). destruct (pool_at_ok _ Hok u) as [_ _ _ _ He].
  apply wpp_bind, wp_take_pages; [done|lia| |].
  - intros idx σ' Hi Hi' Hfree Hset. apply wpp_bind, wp_gets.
    assert (base (pool_at u σ') = base (pool_at u σ)) as ->.
    { destruct u; [apply Hset|apply (ps_kernel _ _ _ _ _ Hset)]. }
    unfold PHYS_BASE, BITMAP_ERROR, NULL in *. rewrite PGSIZE_eq.
    rewrite (proj2 (Z.eqb_neq idx _)) by lia. simpl negb. cbv iota.
    rewrite (wrap_small 32 (4096 * idx)), wrap_small, (wrap_small 32 (4096 * cnt)) by lia.
    set (p := base (pool_at u σ) + 4096 * idx).
    assert (p / 4096 = first_page (pool_at u σ) + idx) as Hp by (unfold p, first_page; lia).
    rewrite (proj2 (Z.eqb_neq p 0)) by lia. simpl negb. cbv iota. apply wpp_wp.
    assert (ram_end σ' = ram_end σ) as Hr by (unfold ram_end; by rewrite (ps_ram _ _ _ _ _ Hset)).
    assert (∀ f σ'', pages_set (λ pn, p / 4096 ≤ pn < p / 4096 + cnt) true f σ σ'' →
      granted u p cnt f σ σ'') as Hg.
    { intros f σ'' Hs. split; [lia|lia|lia| |done]. rewrite Hp. exact Hfree. }
    rewrite <-Hp in Hset.
    destruct (flag flags PAL_ZERO).
    + wp_step. apply wp_memset_ram; [unfold PHYS_BASE; lia|lia|]. wp_step.
      apply HQ; [lia|lia|lia|]. apply Hg. rewrite (ps_bytes _ _ _ _ _ Hset).
      by eapply pages_set_bytes.
    + repeat wp_step. apply HQ; [lia..|]. by apply Hg.
  - intros Hex. apply wpp_bind, wp_gets. rewrite Z.eqb_refl. simpl.
    destruct (flag flags PAL_ASSERT).
    + by apply HR.
    + by apply HE.
Qed.

Lemma page_from_pool_eq σ u p :
  palloc_ok σ → page_from_pool u p σ = Ok (bool_decide (in_pool (pool_at u σ) (p / 4096)), σ).
Proof.
  intros Hok. destruct (pool_bound _ Hok u) as (?&?&?&?). unfold PHYS_BASE in *.
  unfold page_from_pool, on_map, zoom, bitmap_size, mbind, M_bind, gets, mret, M_ret.
  change (set_pool u _ σ) with (with_map u (used_map (pool_at u σ)) σ). rewrite with_map_same.
  rewrite !pg_no_div, wrap_small by lia. do 2 f_equal.
  unfold in_pool, first_page. apply eq_true_iff_eq.
  rewrite andb_true_iff, bool_decide_eq_true, Z.leb_le, Z.ltb_lt. done.
Qed.

(** Which pool palloc_free_multiple finds. *)
Lemma palloc_free_multiple_eq σ u p cnt :
  palloc_ok σ → in_pool (pool_at u σ) (p / 4096) → p mod 4096 = 0 → 0 < cnt →
  palloc_free_multiple p cnt σ =
    (memset_ram p 0xcc (u32 (4096 * cnt));;
     assertM (on_map u (bitmap_all (p / 4096 - first_page (pool_at u σ)) cnt));;
     on_map u (bitmap_set_multiple (p / 4096 - first_page (pool_at u σ)) cnt false)) σ.
Proof.
  intros Hok Hin Ha Hc. destruct (pool_bound _ Hok u) as (?&?&?&?).
  unfold palloc_free_multiple. rewrite pg_ofs_mod, Ha. simpl assert.
  unfold in_pool, first_page, PHYS_BASE in *.
  rewrite (proj2 (Z.eqb_neq p NULL)), (proj2 (Z.eqb_neq cnt 0)) by (unfold NULL; lia). simpl orb. cbv iota.
  pose proof (in_pool_other _ Hok u _ Hin) as Hno.
  assert (u32 (p / 4096 - base (pool_at u σ) / 4096) = p / 4096 - base (pool_at u σ) / 4096) as Ew
    by (apply wrap_small; lia).
  unfold mbind at 1, M_bind at 1. unfold mret at 1, M_ret at 1. unfold mbind at 1, M_bind at 1.
  rewrite page_from_pool_eq by done.
  destruct u; simpl in Hno, Hin, Ew.
  - rewrite (bool_decide_eq_false_2 _ Hno). unfold mbind at 1, M_bind at 1.
    unfold mbind at 1, M_bind at 1. rewrite page_from_pool_eq by done. simpl pool_at.
    rewrite (bool_decide_eq_true_2 (in_pool _ _)) by done.
    unfold mret at 1, M_ret at 1, mbind at 1, M_bind at 1, gets at 1. simpl pool_at.
    by rewrite !pg_no_div, Ew.
  - simpl pool_at. rewrite (bool_decide_eq_true_2 (in_pool _ _)) by done.
    unfold mbind at 1, M_bind at 1. unfold mret at 1, M_ret at 1, mbind at 1, M_bind at 1, gets at 1.
    simpl pool_at. by rewrite !pg_no_div, Ew.
Qed.

Lemma wp_palloc_free_multiple σ u p cnt Q :
  palloc_ok σ → 0 < cnt → p mod 4096 = 0 → base (pool_at u σ) ≤ p →
  p + 4096 * cnt ≤ base (pool_at u σ) + 4096 * bit_cnt (used_map (pool_at u σ)) →
  (∀ pn, p / 4096 ≤ pn < p / 4096 + cnt → used σ pn = true) →
  (∀ σ', pages_set (λ pn, p / 4096 ≤ pn < p / 4096 + cnt) false
           (fill p (4096 * cnt) 0xcc (bytes σ)) σ σ' → Q tt σ') →
  wp (palloc_free_multiple p cnt) σ Q.
Proof.
  intros Hok Hc Ha Hb He Hused HQ. destruct (pool_bound _ Hok u) as (?&?&?&?).
  destruct (pool_at_ok _ Hok u) as [_ _ _ _ Hend].
  unfold wp. rewrite (palloc_free_multiple_eq σ u) by (done || unfold in_pool, first_page; lia).
  unfold PHYS_BASE, first_page in *. rewrite wrap_small by lia.
  set (i := p / 4096 - base (pool_at u σ) / 4096).
  match goal with |- match ?m σ with _ => _ end => change (wp m σ Q) end.
  wp_step. apply wp_memset_ram; [unfold PHYS_BASE; lia|lia|]. change (u8 204) with 204.
  set (σ1 := set_bytes _ σ).
  assert (palloc_ok σ1) as Hok1 by by destruct Hok as [? [] [] ?].
  assert (pool_at u σ1 = pool_at u σ) as E1 by by destruct u.
  unfold assertM. repeat wp_step. apply wp_on_map. unfold bitmap_all, notM. wp_step.
  rewrite E1. apply wp_bitmap_contains; [apply (pool_at_ok _ Hok u)|lia..|].
  intros r Hr. wp_step. rewrite <-E1, with_map_same. apply wp_assert.
  { apply negb_true_iff. destruct r; [|done]. destruct (proj1 Hr eq_refl) as (j & Hj & Ej).
    specialize (Hused (j + first_page (pool_at u σ))). unfold first_page in Hused.
    rewrite (used_pool _ Hok u) in Hused by (unfold in_pool, first_page; lia).
    unfold first_page in Hused. rewrite Z.add_simpl_r, Ej in Hused. symmetry. apply Hused. lia. }
  apply wp_on_map. rewrite E1. apply wp_bitmap_set_multiple; [apply (pool_at_ok _ Hok u)|lia..|].
  intros b Hup. apply HQ. rewrite <-E1 in Hup. apply pages_set_map in Hup; [|done|rewrite E1; lia].
  destruct Hup as [? ? ? ? Hi Ho ?]. rewrite E1 in Hi, Ho. unfold first_page in Hi, Ho.
  split; try done; intros pn Hpn; [apply Hi; lia|]. rewrite Ho by lia. done.
Qed.

Lemma wp_palloc_free_null cnt σ Q : Q tt σ → wp (palloc_free_multiple NULL cnt) σ Q.
Proof. done. Qed.

Lemma palloc_free_page_panics σ p :
  palloc_ok σ → 0 < p < 2 ^ 32 → used σ (p / 4096) = false → palloc_free_page p σ = Panic.
Proof.
  intros Hok Hp Hun. unfold palloc_free_page.
  destruct (decide (p mod 4096 = 0)) as [Ha|Ha].
  2: { unfold palloc_free_multiple. rewrite pg_ofs_mod, (proj2 (Z.eqb_neq _ _) Ha). done. }
  destruct (decide (∃ u, in_pool (pool_at u σ) (p / 4096))) as [[u Hu]|Hno].
  - destruct (pool_bound _ Hok u) as (?&?&?&?). destruct (pool_at_ok _ Hok u) as [_ Hwf _ _ He].
    rewrite (palloc_free_multiple_eq σ u) by done. unfold in_pool, first_page, PHYS_BASE in *.
    apply wpp_panic. change (u32 _) with 4096. apply wpp_bind, wp_memset_ram; [unfold PHYS_BASE; lia|lia|].
    set (σ1 := set_bytes _ σ). assert (pool_at u σ1 = pool_at u σ) as E1 by by destruct u.
    unfold assertM. apply wpp_bind_panic, wpp_bind, wp_on_map. unfold bitmap_all, notM. wp_step.
    rewrite E1. apply wp_bitmap_contains; [done|lia..|]. intros r Hr. wp_step.
    destruct r; [done|]. exfalso. assert (false = true); [|done]. apply Hr.
    exists (p / 4096 - base (pool_at u σ) / 4096). split; [lia|].
    by rewrite <-(used_pool _ Hok u) by (unfold in_pool, first_page; lia).
  - unfold palloc_free_multiple. rewrite pg_ofs_mod, Ha. simpl assert.
    rewrite (proj2 (Z.eqb_neq p NULL)) by (unfold NULL; lia). simpl orb. cbv iota.
    assert (∀ u, page_from_pool u p σ = Ok (false, σ)) as Ef.
    { intros u. rewrite page_from_pool_eq, bool_decide_eq_false_2 by (done || naive_solver). done. }
    unfold mbind, M_bind. unfold mret at 1, M_ret at 1. rewrite Ef. by rewrite Ef.
Qed.

(** ** Initialization *)

Lemma words_at_length n f a : length (words_at n f a) = n.
Proof. revert a; induction n as [|n IH]; intros a; simpl; by rewrite ?IH. Qed.

Lemma word_at_bounds f a : 0 ≤ word_at f a < 2 ^ 32.
Proof. unfold word_at. pose proof (λ x, wrap_bounds 8 (f x)) as H.
  pose proof (H a). pose proof (H (a + 1)). pose proof (H (a + 2)). pose proof (H (a + 3)). lia.
Qed.

Lemma words_at_words n f a : Forall (λ w, 0 ≤ w < 2 ^ 32) (words_at n f a).
Proof.
  revert a; induction n as [|n IH]; intros a; simpl; constructor; [apply word_at_bounds|apply IH].
Qed.

(** The number of pages that the bitmap of [n] pages takes. *)
Definition bitmap_pages (n : Z) : Z := (8 + 4 * ((n + 31) / 32) + 4095) / 4096.

Lemma bitmap_buf_size_eq n : 0 ≤ n < 2 ^ 18 → bitmap_buf_size n = 8 + 4 * ((n + 31) / 32).
Proof.
  intros Hn. unfold bitmap_buf_size, byte_cnt, elem_cnt, DIV_ROUND_UP, ELEM_BITS.
  replace (n + 32 - 1) with (n + 31) by lia. rewrite (wrap_small 32 (n + 31)) by lia.
  rewrite (wrap_small 32 (4 * _)) by lia. by rewrite wrap_small by lia.
Qed.

Lemma wp_init_pool u b n σ Q :
  1 ≤ n < 2 ^ 18 → PHYS_BASE ≤ b → b + 4096 * n < 2 ^ 32 → b mod 4096 = 0 →
  (∀ m, bitmap_wf m → bit_cnt m = n - bitmap_pages n → (∀ i, 0 ≤ i < bit_cnt m → bit m i = false) →
     Q tt (set_pool u (mk_pool false m (b + 4096 * bitmap_pages n)) σ)) →
  wp (init_pool u b n) σ Q.
Proof.
  intros Hn Hb He Ha HQ. unfold init_pool.
  assert (DIV_ROUND_UP (bitmap_buf_size n) PGSIZE = bitmap_pages n) as ->.
  { rewrite bitmap_buf_size_eq by lia. unfold DIV_ROUND_UP, bitmap_pages.
    rewrite PGSIZE_eq, wrap_small by lia. f_equal. lia. }
  assert (1 ≤ bitmap_pages n ≤ n) as Hbm by (unfold bitmap_pages; lia).
  rewrite (proj2 (Z.ltb_ge _ _)) by lia. rewrite PGSIZE_eq.
  rewrite (wrap_small 32 (n - _)), (wrap_small 32 (bitmap_pages n * 4096)) by lia.
  unfold PHYS_BASE in *. rewrite wrap_small by lia. wp_step. wp_step.
  set (m := n - bitmap_pages n) in *. set (old := words_at _ _ _).
  assert (bitmap_wf (mk_bitmap m old)) as Hwf.
  { split; simpl; [lia| |apply words_at_words]. unfold old. rewrite words_at_length.
    unfold ELEM_BITS, m, bitmap_pages in *. lia. }
  unfold bitmap_create_in_buf. rewrite (proj2 (Z.leb_le _ _)).
  2: { rewrite bitmap_buf_size_eq by lia. unfold m, bitmap_pages in *. lia. }
  assert (wp (bitmap_set_all false) (mk_bitmap m old) (λ _ b,
      bitmap_wf b ∧ bit_cnt b = m ∧ ∀ i, 0 ≤ i < m → bit b i = false)) as Hset.
  { unfold bitmap_set_all, bitmap_size. repeat wp_step.
    apply wp_bitmap_set_multiple; [done|simpl; lia..|].
    intros b' [W C I O]. split_and!; [done..|]. intros i Hi. apply I; simpl; lia. }
  unfold wp in Hset. destruct (bitmap_set_all _ _) as [[? b']| | |]; [|done..].
  destruct Hset as (W & C & I). wp_step.
  rewrite (Z.mul_comm (bitmap_pages n)). apply HQ; [done..|by rewrite C].
Qed.

(** The pages that the user pool starts with, its bitmap included. *)
Definition user_share (σ : pages) (limit : Z) : Z := Z.min limit ((init_ram_pages σ - 256) / 2).

Lemma wp_palloc_init limit σ Q :
  258 ≤ init_ram_pages σ < 2 ^ 18 → 1 ≤ limit →
  (∀ σ', palloc_ok σ' → init_ram_pages σ' = init_ram_pages σ → bytes σ' = bytes σ →
     (∀ pn, used σ' pn = false) →
     let up := user_share σ limit in
     let kp := init_ram_pages σ - 256 - up in
     bit_cnt (used_map (kernel_pool σ')) = kp - bitmap_pages kp →
     bit_cnt (used_map (user_pool σ')) = up - bitmap_pages up → Q tt σ') →
  wp (palloc_init limit) σ Q.
Proof.
  intros Hr Hl HQ. unfold palloc_init. rewrite PGSIZE_eq. repeat wp_step.
  apply wp_ptov; [unfold PHYS_BASE; lia|]. wp_step. rewrite (wrap_small 32 (_ * _)) by lia.
  apply wp_ptov; [unfold PHYS_BASE; lia|].
  replace (_ + PHYS_BASE - _) with (4096 * (init_ram_pages σ - 256)) by lia.
  rewrite swrap_small by lia. rewrite (Z.mul_comm 4096), Z.quot_mul by done.
  rewrite (wrap_small 32 (_ - 256)) by lia.
  replace (if limit <? _ then _ else _) with (user_share σ limit).
  2: { unfold user_share. destruct (Z.ltb_spec limit ((init_ram_pages σ - 256) / 2)); lia. }
  assert (1 ≤ user_share σ limit ≤ (init_ram_pages σ - 256) / 2) as Hu by (unfold user_share; lia).
  rewrite (wrap_small 32 (_ - user_share _ _)) by lia.
  set (up := user_share σ limit) in *. set (kp := init_ram_pages σ - 256 - up) in *.
  assert (∀ n, 1 ≤ n < 2 ^ 18 → 1 ≤ bitmap_pages n ≤ n) as Hbm by (intros; unfold bitmap_pages; lia).
  pose proof (Hbm up ltac:(lia)). pose proof (Hbm kp ltac:(lia)).
  wp_step. apply wp_init_pool; [lia|unfold PHYS_BASE; lia..|]. intros mk Wk Ck Fk.
  rewrite (wrap_small 32 (kp * 4096)), wrap_small by (unfold PHYS_BASE; lia).
  apply wp_init_pool; [lia|unfold PHYS_BASE; lia..|]. intros mu Wu Cu Fu. simpl set_pool.
  apply HQ; try done.
  - split; simpl; [lia|split..|]; simpl; unfold ram_end; rewrite ?PGSIZE_eq; simpl;
      unfold PHYS_BASE in *; done || lia.
  - intros pn. unfold used, used_in, in_pool, first_page. simpl.
    apply orb_false_intro; case_bool_decide; simpl; try done; [apply Fk|apply Fu]; lia.
Qed.

(** ** The theorems *)

(** C36: palloc_get_multiple returns the address of CNT consecutive pages of
    the pool that FLAGS select, which were all free and are now in use, zeroed if
    PAL_ZERO asks for it; nothing else changes.  Otherwise it returns a null
    pointer and changes nothing: only for CNT zero or when the pool has no CNT
    consecutive free pages, and in the latter case it panics if PAL_ASSERT is set. *)
Theorem palloc_get_multiple_correct (σ : pages) (flags cnt : Z) :
  palloc_ok σ → 0 ≤ cnt →
  let u := flag flags PAL_USER in
  wpp (palloc_get_multiple flags cnt) σ
    (λ p σ',
       0 < cnt ∧ p ≠ NULL ∧
         granted u p cnt (if flag flags PAL_ZERO then fill p (4096 * cnt) 0 (bytes σ) else bytes σ) σ σ' ∨
       p = NULL ∧ σ' = σ ∧ (cnt = 0 ∨ exhausted σ u cnt ∧ flag flags PAL_ASSERT = false))
    (exhausted σ u cnt ∧ flag flags PAL_ASSERT = true).
Proof.
  intros Hok Hc u. apply wpp_palloc_get_multiple; [done..| | | |]; [|naive_solver..].
  intros p σ' ? Hp _ Hg. left. unfold NULL, PHYS_BASE in *. split_and!; [lia..|done].
Qed.

(** A machine with 260 pages of RAM, three of them in the pools. *)
Definition small : pages :=
  mk_pages 260 (λ a, a) (mk_pool false (mk_bitmap 2 [1]) 0xc0101000) (mk_pool false (mk_bitmap 1 [0]) 0xc0103000).
Lemma small_ok : palloc_ok small.
Proof.
  split; [done| | |done]; (split; [done| |done..]; split; [done..|by repeat constructor]).
Qed.

Lemma palloc_get_multiple_correct_witness :
  wpp (palloc_get_multiple PAL_ZERO 1) small
    (λ p σ',
       0 < 1 ∧ p ≠ NULL ∧ granted false p 1 (fill p (4096 * 1) 0 (bytes small)) small σ' ∨
       p = NULL ∧ σ' = small ∧ (1 = 0 ∨ exhausted small false 1 ∧ flag PAL_ZERO PAL_ASSERT = false))
    (exhausted small false 1 ∧ flag PAL_ZERO PAL_ASSERT = true) ∧
  fst <$> match palloc_get_multiple PAL_ZERO 1 small with Ok x => Some x | _ => None end
    = Some 0xc0102000.
Proof.
  split; [|done]. apply (palloc_get_multiple_correct small PAL_ZERO 1); [apply small_ok|done].
Defined.

(** Freeing the pages that palloc_get_multiple has just returned succeeds,
    and brings back the set of pages in use; all bytes outside of these pages are
    as before, and the pages themselves are filled with 0xcc. *)
Theorem palloc_get_free_roundtrip (σ : pages) (flags cnt : Z) :
  palloc_ok σ → 0 ≤ cnt → flag flags PAL_ASSERT = false →
  wp (p ← palloc_get_multiple flags cnt; palloc_free_multiple p cnt;; mret p) σ
    (λ p σ', palloc_ok σ' ∧ (∀ pn, used σ' pn = used σ pn) ∧
       ∀ a, bytes σ' a = if decide (p ≠ NULL ∧ p ≤ a < p + 4096 * cnt) then 0xcc else bytes σ a).
Proof.
  intros Hok Hc Has. wp_step. apply (wp_wpp _ _ _ False); [tauto|].
  apply wpp_palloc_get_multiple; [done|done|..].
  - intros p σ1 ? Hp _ [Hb He Ha Hfree Hset]. unfold PHYS_BASE, NULL in *.
    set (u := flag flags PAL_USER) in *. destruct Hset as [Hok1 Er Ek Eu Hin Hout Eb].
    assert (base (pool_at u σ1) = base (pool_at u σ) ∧
      bit_cnt (used_map (pool_at u σ1)) = bit_cnt (used_map (pool_at u σ))) as [E1 E2] by by destruct u.
    wp_step. apply (wp_palloc_free_multiple _ u); [done|lia|done|lia|lia|done|].
    intros σ2 [Hok2 _ _ _ Hin2 Hout2 Eb2]. wp_step. split_and!; [done| |].
    + intros pn. destruct (decide (p / 4096 ≤ pn < p / 4096 + cnt)) as [HP|HP].
      * by rewrite Hin2, Hfree.
      * by rewrite Hout2, Hout.
    + intros a. rewrite Eb2. unfold fill.
      destruct (Z.leb_spec p a), (Z.ltb_spec a (p + 4096 * cnt)); simpl; case_decide; try lia; try done;
        rewrite Eb; destruct (flag flags PAL_ZERO); try done; unfold fill;
        destruct (Z.leb_spec p a), (Z.ltb_spec a (p + 4096 * cnt)); simpl; done || lia.
  - intros ->. wp_step. apply wp_palloc_free_null. wp_step.
    split_and!; [done..|]. intros a. by rewrite decide_False by naive_solver.
  - intros _ _. wp_step. apply wp_palloc_free_null. wp_step.
    split_and!; [done..|]. intros a. by rewrite decide_False by naive_solver.
  - intros _ E. by rewrite Has in E.
Qed.

Lemma palloc_get_free_roundtrip_witness :
  wp (p ← palloc_get_multiple PAL_USER 1; palloc_free_multiple p 1;; mret p) small
    (λ p σ', palloc_ok σ' ∧ (∀ pn, used σ' pn = used small pn) ∧
       ∀ a, bytes σ' a = if decide (p ≠ NULL ∧ p ≤ a < p + 4096 * 1) then 0xcc else bytes small a).
Proof. apply (palloc_get_free_roundtrip small PAL_USER 1); [apply small_ok|done..]. Defined.

(** Freeing a page that is not in use panics, wherever it lies: a page freed
    twice, a page of no pool, an address inside of a page. *)
Theorem palloc_free_page_double (σ : pages) (p : Z) :
  palloc_ok σ → 0 < p < 2 ^ 32 → used σ (p / 4096) = false → palloc_free_page p σ = Panic.
Proof. apply palloc_free_page_panics. Qed.

Lemma palloc_free_page_double_witness : palloc_free_page 0xc0102000 small = Panic.
Proof. apply (palloc_free_page_double small 0xc0102000); [apply small_ok|done..]. Defined.

(** palloc_init divides the RAM above 1 MB into two pools that do not
    overlap, with all pages free; the user pool gets at most half of the pages,
    and at most as many as its limit. *)
Theorem palloc_init_correct (σ : pages) (limit : Z) :
  258 ≤ init_ram_pages σ < 2 ^ 18 → 1 ≤ limit →
  wp (palloc_init limit) σ (λ _ σ', palloc_ok σ' ∧ init_ram_pages σ' = init_ram_pages σ ∧
    (∀ pn, used σ' pn = false) ∧
    let up := user_share σ limit in
    let kp := init_ram_pages σ - 256 - up in
    bit_cnt (used_map (kernel_pool σ')) = kp - bitmap_pages kp ∧
    bit_cnt (used_map (user_pool σ')) = up - bitmap_pages up).
Proof. intros Hr Hl. apply wp_palloc_init; [done..|]. naive_solver. Qed.

Lemma palloc_init_correct_witness :
  wp (palloc_init 1000) small (λ _ σ', palloc_ok σ' ∧ init_ram_pages σ' = 260 ∧
    (∀ pn, used σ' pn = false) ∧
    bit_cnt (used_map (kernel_pool σ')) = 1 ∧ bit_cnt (used_map (user_pool σ')) = 1).
Proof. apply (palloc_init_correct small 1000); done. Defined.
