(* ===== verification/Ram.v ===== *)
(** * Words and blocks of RAM

    Loads and stores of 32-bit little-endian words, and memcpy, on the RAM of
    Palloc.v, with their algebra.  They are used for the page tables of
    userprog/pagedir.c and the arena headers of threads/malloc.c. *)

From S2P Require Import Prelude Vaddr Palloc.
Local Open Scope Z_scope.
Local Ltac Zify.zify_post_hook ::= Z.div_mod_to_equations.

(** The bytes after the word [v] is stored at [a]. *)
Definition put_word (a v : Z) (f : Z → Z) : Z → Z := λ x,
  if x =? a then v mod 256
  else if x =? a + 1 then v / 2 ^ 8 mod 256
  else if x =? a + 2 then v / 2 ^ 16 mod 256
  else if x =? a + 3 then v / 2 ^ 24 mod 256
  else f x.

Definition load_word (a : Z) : M pages Z := access a 4;; gets (λ σ, word_at (bytes σ) a).
Definition store_word (a v : Z) : M pages unit :=
  access a 4;; modify (λ σ, set_bytes (put_word a v (bytes σ)) σ).

(** memcpy (dst, src, n) of lib/string.c on blocks that do not overlap. *)
Definition copy (dst src n : Z) (f : Z → Z) : Z → Z :=
  λ x, if (dst <=? x) && (x <? dst + n) then f (src + (x - dst)) else f x.
Definition memcpy_ram (dst src n : Z) : M pages unit :=
  access src n;; access dst n;; modify (λ σ, set_bytes (copy dst src n (bytes σ)) σ).

(** ** Algebra *)

(** [f] and [g] hold the same bytes in [[a, a + n)]. *)
Definition agree (a n : Z) (f g : Z → Z) : Prop := ∀ x, a ≤ x < a + n → f x = g x.

Lemma agree_word a n b f g : agree a n f g → a ≤ b → b + 4 ≤ a + n → word_at f b = word_at g b.
Proof. intros H ??. unfold word_at. by rewrite !H by lia. Qed.

Lemma agree_sym a n f g : agree a n f g → agree a n g f.
Proof. intros H x Hx. symmetry. by apply H. Qed.
Lemma agree_trans a n f g h : agree a n f g → agree a n g h → agree a n f h.
Proof. intros H1 H2 x Hx. rewrite H1 by done. by apply H2. Qed.

Lemma put_word_agree a v f b n : a + 4 ≤ b ∨ b + n ≤ a → agree b n (put_word a v f) f.
Proof.
  intros H x Hx. unfold put_word. by rewrite !(proj2 (Z.eqb_neq _ _)) by lia.
Qed.
Lemma fill_agree a n v f b m : a + n ≤ b ∨ b + m ≤ a → agree b m (fill a n v f) f.
Proof.
  intros H x Hx. unfold fill.
  destruct (Z.leb_spec a x), (Z.ltb_spec x (a + n)); simpl; done || lia.
Qed.
Lemma copy_agree a s n f b m : a + n ≤ b ∨ b + m ≤ a → agree b m (copy a s n f) f.
Proof.
  intros H x Hx. unfold copy.
  destruct (Z.leb_spec a x), (Z.ltb_spec x (a + n)); simpl; done || lia.
Qed.

Lemma word_at_put a v f : 0 ≤ v < 2 ^ 32 → word_at (put_word a v f) a = v.
Proof.
  intros Hv. unfold word_at, put_word. rewrite Z.eqb_refl.
  repeat (rewrite ?Z.eqb_refl, ?(proj2 (Z.eqb_neq (a + _) a)), ?(proj2 (Z.eqb_neq (a + 2) (a + 1))),
    ?(proj2 (Z.eqb_neq (a + 3) (a + 1))), ?(proj2 (Z.eqb_neq (a + 3) (a + 2))) by lia).
  unfold wrap. change (2 ^ 8) with 256. rewrite !Z.mod_mod by done. by apply word_bytes_word.
Qed.

(** Words at aligned addresses do not overlap. *)
Lemma word_at_put_ne a b v f :
  a ≠ b → a mod 4 = 0 → b mod 4 = 0 → word_at (put_word a v f) b = word_at f b.
Proof. intros ???. apply (agree_word b 4 b); [apply put_word_agree; lia|lia..]. Qed.

Lemma word_at_zero a n f b : a ≤ b → b + 4 ≤ a + n → word_at (fill a n 0 f) b = 0.
Proof.
  intros ??. unfold word_at, fill.
  by rewrite !(proj2 (Z.leb_le _ _)), !(proj2 (Z.ltb_lt _ _)) by lia.
Qed.

Lemma word_at_copy dst src n f a :
  0 ≤ a → a + 4 ≤ n → word_at (copy dst src n f) (dst + a) = word_at f (src + a).
Proof.
  intros ??. unfold word_at, copy.
  rewrite !(proj2 (Z.leb_le _ _)), !(proj2 (Z.ltb_lt _ _)) by lia. simpl.
  replace (src + (dst + a - dst)) with (src + a) by lia.
  replace (src + (dst + a + 1 - dst)) with (src + a + 1) by lia.
  replace (src + (dst + a + 2 - dst)) with (src + a + 2) by lia.
  by replace (src + (dst + a + 3 - dst)) with (src + a + 3) by lia.
Qed.

Lemma wp_load_word a σ Q :
  PHYS_BASE ≤ a → a + 4 ≤ ram_end σ → Q (word_at (bytes σ) a) σ → wp (load_word a) σ Q.
Proof.
  intros Ha Hn HQ. unfold load_word. wp_step. apply wp_access; [done..|]. by wp_step.
Qed.

Lemma wp_store_word a v σ Q :
  PHYS_BASE ≤ a → a + 4 ≤ ram_end σ → Q tt (set_bytes (put_word a v (bytes σ)) σ) →
  wp (store_word a v) σ Q.
Proof.
  intros Ha Hn HQ. unfold store_word. wp_step. apply wp_access; [done..|]. by wp_step.
Qed.

Lemma wp_memcpy_ram dst src n σ Q :
  PHYS_BASE ≤ dst → dst + n ≤ ram_end σ → PHYS_BASE ≤ src → src + n ≤ ram_end σ →
  Q tt (set_bytes (copy dst src n (bytes σ)) σ) → wp (memcpy_ram dst src n) σ Q.
Proof.
  intros ???? HQ. unfold memcpy_ram. do 2 (wp_step; apply wp_access; [done..|]). by wp_step.
Qed.

Lemma palloc_ok_bytes f σ : palloc_ok σ → palloc_ok (set_bytes f σ).
Proof. by intros [? [] [] ?]. Qed.
