(* ===== verification/Pagedir.v ===== *)
(** * Page directories: userprog/pagedir.c

    Page directories and page tables are pages of RAM (Ram.v), obtained from the
    page allocator (Palloc.v); an entry is a 32-bit word.  The processor's part
    of the state is CR3 and the TLB, the entries that it may have cached; the
    only thing the code does to the TLB is to empty it by loading CR3.

    [pte_of f pd va] is the page table entry that the tables of [pd], stored in
    the bytes [f], hold for the address [va].  The theorems describe every
    operation by what it does to that function. *)

From S2P Require Import Prelude Bitmap Vaddr Palloc Ram.
Local Open Scope Z_scope.
Local Ltac Zify.zify_post_hook ::= Z.div_mod_to_equations.

Record mmu := mk_mmu { ram : pages; init_page_dir : Z; cr3 : Z; tlb : gmap Z Z }.
Definition on_ram {A} : M pages A → M mmu A :=
  zoom ram (λ r σ, mk_mmu r (init_page_dir σ) (cr3 σ) (tlb σ)).

(** movl %0, %%cr3: the processor forgets the entries it has cached. *)
Definition load_cr3 (v : Z) : M mmu unit := modify (λ σ, mk_mmu (ram σ) (init_page_dir σ) v ∅).

Definition pagedir_activate (pd : Z) : M mmu unit :=
  init ← gets init_page_dir;
  let pd := if pd =? NULL then init else pd in
  p ← vtop pd; load_cr3 p.

Definition active_pd : M mmu Z := p ← gets cr3; ptov p.

Definition invalidate_pagedir (pd : Z) : M mmu unit :=
  a ← active_pd; if a =? pd then pagedir_activate pd else mret tt.

Definition pagedir_create : M mmu Z :=
  pd ← on_ram (palloc_get_page 0);
  (if negb (pd =? NULL) then
     init ← gets init_page_dir; on_ram (memcpy_ram pd init PGSIZE)
   else mret tt);;
  mret pd.

(** for (pte = pt; pte < pt + PGSIZE / sizeof *pte; pte++), [n] iterations left. *)
Fixpoint destroy_table (n : nat) (pte : Z) : M mmu unit :=
  match n with
  | O => mret tt
  | S n =>
    e ← on_ram (load_word pte);
    (if negb (Z.land e PTE_P =? 0) then p ← pte_get_page e; on_ram (palloc_free_page p) else mret tt);;
    destroy_table n (pte + 4)
  end.
(** for (pde = pd; pde < pd + pd_no (PHYS_BASE); pde++), [n] iterations left. *)
Fixpoint destroy_tables (n : nat) (pde : Z) : M mmu unit :=
  match n with
  | O => mret tt
  | S n =>
    e ← on_ram (load_word pde);
    (if negb (Z.land e PTE_P =? 0) then
       pt ← pde_get_pt e;
       destroy_table (Z.to_nat (PGSIZE / 4)) pt;;
       on_ram (palloc_free_page pt)
     else mret tt);;
    destroy_tables n (pde + 4)
  end.
Definition pagedir_destroy (pd : Z) : M mmu unit :=
  if pd =? NULL then mret tt else
  init ← gets init_page_dir;
  assert (negb (pd =? init));;
  destroy_tables (Z.to_nat (pd_no PHYS_BASE)) pd;;
  on_ram (palloc_free_page pd).

Definition lookup_page (pd vaddr : Z) (create : bool) : M mmu Z :=
  assert (negb (pd =? NULL));;
  assert (negb create || is_user_vaddr vaddr);;
  let pde := pd + 4 * pd_no vaddr in
  e ← on_ram (load_word pde);
  ok ← (if e =? 0 then
          if create then
            pt ← on_ram (palloc_get_page PAL_ZERO);
            if pt =? NULL then mret false else
            d ← pde_create pt; on_ram (store_word pde d);; mret true
          else mret false
        else mret true);
  if ok : bool then
    e ← on_ram (load_word pde);
    pt ← pde_get_pt e;
    mret (pt + 4 * pt_no vaddr)
  else mret NULL.

Definition pagedir_set_page (pd upage kpage : Z) (writable : bool) : M mmu bool :=
  assert (pg_ofs upage =? 0);;
  assert (pg_ofs kpage =? 0);;
  assert (is_user_vaddr upage);;
  p ← vtop kpage; n ← gets (λ σ, init_ram_pages (ram σ));
  assert (Z.shiftr p PTSHIFT <? n);;
  init ← gets init_page_dir;
  assert (negb (pd =? init));;
  pte ← lookup_page pd upage true;
  if negb (pte =? NULL) then
    e ← on_ram (load_word pte);
    assert (Z.land e PTE_P =? 0);;
    e ← pte_create_user kpage writable;
    on_ram (store_word pte e);;
    mret true
  else mret false.

Definition pagedir_get_page (pd uaddr : Z) : M mmu Z :=
  assert (is_user_vaddr uaddr);;
  pte ← lookup_page pd uaddr false;
  if negb (pte =? NULL) then
    e ← on_ram (load_word pte);
    if negb (Z.land e PTE_P =? 0) then
      page ← pte_get_page e; mret (page + pg_ofs uaddr)
    else mret NULL
  else mret NULL.

Definition pagedir_clear_page (pd upage : Z) : M mmu unit :=
  assert (pg_ofs upage =? 0);;
  assert (is_user_vaddr upage);;
  pte ← lookup_page pd upage false;
  if negb (pte =? NULL) then
    e ← on_ram (load_word pte);
    if negb (Z.land e PTE_P =? 0) then
      on_ram (store_word pte (Z.land e (u32 (Z.lnot PTE_P))));;
      invalidate_pagedir pd
    else mret tt
  else mret tt.

(** pagedir_is_dirty and pagedir_is_accessed, for the flag PTE_D or PTE_A. *)
Definition pagedir_is (flag pd vpage : Z) : M mmu bool :=
  pte ← lookup_page pd vpage false;
  if negb (pte =? NULL) then
    e ← on_ram (load_word pte); mret (negb (Z.land e flag =? 0))
  else mret false.
Definition pagedir_is_dirty (pd vpage : Z) : M mmu bool := pagedir_is PTE_D pd vpage.
Definition pagedir_is_accessed (pd vpage : Z) : M mmu bool := pagedir_is PTE_A pd vpage.

(** pagedir_set_dirty and pagedir_set_accessed. *)
Definition pagedir_set (flag pd vpage : Z) (v : bool) : M mmu unit :=
  pte ← lookup_page pd vpage false;
  if negb (pte =? NULL) then
    e ← on_ram (load_word pte);
    if v then on_ram (store_word pte (Z.lor e flag))
    else
      on_ram (store_word pte (Z.land e (u32 (Z.lnot flag))));;
      invalidate_pagedir pd
  else mret tt.
Definition pagedir_set_dirty (pd vpage : Z) (dirty : bool) : M mmu unit :=
  pagedir_set PTE_D pd vpage dirty.
Definition pagedir_set_accessed (pd vpage : Z) (accessed : bool) : M mmu unit :=
  pagedir_set PTE_A pd vpage accessed.

(** ** The tables in memory *)

Definition pde_at (f : Z → Z) (pd i : Z) : Z := word_at f (pd + 4 * i).
(** The page table of directory entry [i]. *)
Definition table (f : Z → Z) (pd i : Z) : Z := addr_of (pde_at f pd i).
Definition pte_of (f : Z → Z) (pd va : Z) : Z :=
  if pde_at f pd (pd_no va) =? 0 then 0 else word_at f (table f pd (pd_no va) + 4 * pt_no va).
(** The number of directory entries for user addresses. *)
Definition USER_PDES : Z := 768.

(** A page in use, at address [p]. *)
Record page_ok (σ : pages) (p : Z) : Prop := {
  pg_align : p mod 4096 = 0;
  pg_low : PHYS_BASE ≤ p;
  pg_high : p + 4096 ≤ ram_end σ;
  pg_used : used σ (p / 4096) = true
}.

(** The user part of the directory [pd]: every entry is zero or points to a page
    table; the tables are pages of their own, and what their entries map is RAM. *)
Record pd_ok (σ : pages) (pd : Z) : Prop := {
  pd_palloc : palloc_ok σ;
  pd_page : page_ok σ pd;
  pd_tables : ∀ i, 0 ≤ i < USER_PDES → pde_at (bytes σ) pd i ≠ 0 →
    Z.land (pde_at (bytes σ) pd i) PTE_P ≠ 0 ∧
    page_ok σ (table (bytes σ) pd i) ∧ table (bytes σ) pd i ≠ pd;
  pd_inj : ∀ i j, 0 ≤ i < USER_PDES → 0 ≤ j < USER_PDES →
    pde_at (bytes σ) pd i ≠ 0 → pde_at (bytes σ) pd j ≠ 0 →
    table (bytes σ) pd i = table (bytes σ) pd j → i = j;
  pd_frames : ∀ va, 0 ≤ va < PHYS_BASE → Z.land (pte_of (bytes σ) pd va) PTE_P ≠ 0 →
    addr_of (pte_of (bytes σ) pd va) + 4096 ≤ ram_end σ
}.

Definition with_ram (r : pages) (σ : mmu) : mmu := mk_mmu r (init_page_dir σ) (cr3 σ) (tlb σ).
Lemma wp_on_ram {A} (m : M pages A) σ Q :
  wp m (ram σ) (λ a r, Q a (with_ram r σ)) → wp (on_ram m) σ Q.
Proof. unfold on_ram. intros H. by refine (wp_zoom _ _ m σ Q H). Qed.

Lemma with_ram_same σ : with_ram (ram σ) σ = σ.
Proof. by destruct σ. Qed.

(** [a - a mod 4096] and [b - b mod 4096] are pages; the accesses stay inside. *)
Lemma pages_apart p q : p mod 4096 = 0 → q mod 4096 = 0 → p ≠ q → p + 4096 ≤ q ∨ q + 4096 ≤ p.
Proof. lia. Qed.

Lemma pd_index va : 0 ≤ va < PHYS_BASE → 0 ≤ pd_no va < USER_PDES.
Proof. unfold PHYS_BASE, USER_PDES. rewrite pd_no_div. lia. Qed.
Lemma pt_index va : 0 ≤ pt_no va < 1024.
Proof. rewrite pt_no_eq. lia. Qed.
Lemma same_page va va' : 0 ≤ va → 0 ≤ va' →
  (va' / 4096 = va / 4096 ↔ pd_no va' = pd_no va ∧ pt_no va' = pt_no va).
Proof. intros. rewrite !pd_no_div, !pt_no_eq. lia. Qed.

(** The tables of [pd] look the same in [f] and [g]. *)
Lemma pte_of_agree f g pd va :
  agree (pd + 4 * pd_no va) 4 f g →
  (pde_at f pd (pd_no va) ≠ 0 → agree (table f pd (pd_no va) + 4 * pt_no va) 4 f g) →
  pte_of f pd va = pte_of g pd va.
Proof.
  intros H1 H2. assert (pde_at f pd (pd_no va) = pde_at g pd (pd_no va)) as E.
  { apply (agree_word _ _ _ _ _ H1); lia. }
  unfold pte_of, table. unfold table in H2. rewrite <-E.
  destruct (Z.eqb_spec (pde_at f pd (pd_no va)) 0); [done|].
  apply (agree_word _ _ _ _ _ (H2 n)); lia.
Qed.

(** Storing a page table entry. *)
Section store.
Context (σ : pages) (pd va v : Z).
Context (Hpd : pd_ok σ pd) (Hva : 0 ≤ va < PHYS_BASE) (Hde : pde_at (bytes σ) pd (pd_no va) ≠ 0).
Context (Hv : 0 ≤ v < 2 ^ 32).
Let slot : Z := table (bytes σ) pd (pd_no va) + 4 * pt_no va.
Let f' : Z → Z := put_word slot v (bytes σ).

Lemma slot_bounds :
  slot mod 4 = 0 ∧ table (bytes σ) pd (pd_no va) ≤ slot ∧ slot + 4 ≤ table (bytes σ) pd (pd_no va) + 4096 ∧
  PHYS_BASE ≤ slot ∧ slot + 4 ≤ ram_end σ.
Proof using All.
  destruct (pd_tables _ _ Hpd _ (pd_index va Hva) Hde) as (_ & [Ha Hl Hh _] & _).
  pose proof (pt_index va). unfold slot. lia.
Qed.

Lemma store_pde i : 0 ≤ i < USER_PDES → pde_at f' pd i = pde_at (bytes σ) pd i.
Proof using All.
  intros Hi. pose proof slot_bounds. destruct (pd_page _ _ Hpd) as [Ha _ _ _].
  destruct (pd_tables _ _ Hpd _ (pd_index va Hva) Hde) as (_ & [Ht _ _ _] & Hne).
  unfold pde_at. apply (agree_word pd 4096); [|unfold USER_PDES in Hi; lia..].
  apply put_word_agree. destruct (pages_apart _ _ Ht Ha Hne); lia.
Qed.

Lemma store_table i : 0 ≤ i < USER_PDES → table f' pd i = table (bytes σ) pd i.
Proof using All. intros Hi. unfold table. by rewrite store_pde. Qed.

Lemma store_pte va' : 0 ≤ va' < PHYS_BASE →
  pte_of f' pd va' = if decide (va' / 4096 = va / 4096) then v else pte_of (bytes σ) pd va'.
Proof using All.
  intros Hva'. pose proof slot_bounds as (Hs & Hs1 & Hs2 & _).
  pose proof (pd_index _ Hva') as Hi. pose proof (same_page va va' ltac:(lia) ltac:(lia)) as Hsame.
  unfold pte_of at 1, table. rewrite store_pde by done. case_decide as E.
  - destruct (proj1 Hsame E) as [-> ->]. rewrite (proj2 (Z.eqb_neq _ 0)) by done.
    apply word_at_put; done.
  - unfold pte_of. fold (table (bytes σ) pd (pd_no va')).
    destruct (Z.eqb_spec (pde_at (bytes σ) pd (pd_no va')) 0) as [|Hn]; [done|].
    destruct (pd_tables _ _ Hpd _ Hi Hn) as (_ & [Ht' _ _ _] & _). pose proof (pt_index va').
    destruct (pd_tables _ _ Hpd _ (pd_index va Hva) Hde) as (_ & [Ht _ _ _] & _).
    apply word_at_put_ne; [|done|lia]. unfold slot in *. intros Eslot.
    assert (table (bytes σ) pd (pd_no va) = table (bytes σ) pd (pd_no va') ∧ pt_no va' = pt_no va)
      as [Et Ep] by (pose proof (pt_index va); lia).
    apply E, Hsame. split; [|done]. symmetry. apply (pd_inj _ _ Hpd); try done. by apply pd_index.
Qed.

Lemma store_pd_ok :
  (Z.land v PTE_P ≠ 0 → addr_of v + 4096 ≤ ram_end σ) → pd_ok (set_bytes f' σ) pd.
Proof using All.
  intros Hf. pose proof store_pde as Epde. pose proof Hpd as [Hok [] Htab Hinj Hfr].
  split; simpl.
  - by apply palloc_ok_bytes.
  - split; done.
  - intros i Hi. unfold table. rewrite Epde by done. intros Hn.
    destruct (Htab i Hi Hn) as (? & [] & ?). by split_and!.
  - intros i j Hi Hj. unfold table. rewrite !Epde by done. by apply Hinj.
  - intros va' Hva'. rewrite store_pte by done. case_decide; [done|]. by apply Hfr.
Qed.
End store.

(** A page in use is not the page that is granted. *)
Lemma old_page σ σ1 pt f p : granted false pt 1 f σ σ1 → page_ok σ p → p ≠ pt ∧ page_ok σ1 p.
Proof.
  intros Hg [Ha Hl Hh Hu]. destruct Hg as [_ _ Hal Hfree [_ Hr _ _ _ Hout _]].
  assert (p ≠ pt) as Hne. { intros ->. rewrite Hfree in Hu by lia. done. }
  split; [done|]. split; [done..|unfold ram_end in *; by rewrite Hr|]. rewrite Hout by lia. done.
Qed.

Lemma ram_end_new σ σ1 pt f : granted false pt 1 f σ σ1 → ram_end σ1 = ram_end σ.
Proof. intros Hg. unfold ram_end. by rewrite (ps_ram _ _ _ _ _ (gr_set _ _ _ _ _ _ Hg)). Qed.

(** Adding an empty page table [pt] for the address [va]. *)
Section new_table.
Context (σ σ1 : pages) (pd va pt : Z).
Context (Hpd : pd_ok σ pd) (Hva : 0 ≤ va < PHYS_BASE) (Hde : pde_at (bytes σ) pd (pd_no va) = 0).
Context (Hlow : PHYS_BASE ≤ pt) (Hhigh : pt + 4096 ≤ ram_end σ).
Context (Hg : granted false pt 1 (fill pt 4096 0 (bytes σ)) σ σ1).
Let d : Z := pt - PHYS_BASE + 7.
Let f' : Z → Z := put_word (pd + 4 * pd_no va) d (fill pt 4096 0 (bytes σ)).

Lemma pt_bound : pt mod 4096 = 0 ∧ ram_end σ < 2 ^ 32.
Proof using All.
  split; [apply Hg|]. pose proof (pk_ram _ (pd_palloc _ _ Hpd)).
  unfold ram_end, PHYS_BASE. rewrite PGSIZE_eq. lia.
Qed.

Lemma d_facts : 0 ≤ d < 2 ^ 32 ∧ addr_of d = pt ∧ Z.land d PTE_P ≠ 0.
Proof using All.
  destruct pt_bound as [Ha Hb]. unfold d, addr_of, PHYS_BASE in *.
  split_and!; [lia..|]. rewrite land_flags by done.
  replace ((pt - 3221225472 + 7) mod 4096) with 7 by lia. done.
Qed.

Lemma new_pde i : 0 ≤ i < USER_PDES →
  pde_at f' pd i = if decide (i = pd_no va) then d else pde_at (bytes σ) pd i.
Proof using All.
  intros Hi. destruct (pd_page _ _ Hpd) as [Ha ? ? ?]. destruct (old_page _ _ _ _ pd Hg (pd_page _ _ Hpd)) as [Hne _].
  pose proof (pd_index va Hva) as Hi'. unfold USER_PDES in *. destruct pt_bound as [Ht _].
  unfold pde_at, f'. case_decide as E; subst.
  - apply word_at_put. apply d_facts.
  - rewrite word_at_put_ne by lia. apply (agree_word pd 4096); [|lia..].
    apply fill_agree. destruct (pages_apart _ _ Ht Ha ltac:(done)); lia.
Qed.

Lemma new_table_of i : 0 ≤ i < USER_PDES →
  table f' pd i = if decide (i = pd_no va) then pt else table (bytes σ) pd i.
Proof using All.
  intros Hi. unfold table. rewrite new_pde by done. case_decide; [apply d_facts|done].
Qed.

Lemma new_pte va' : 0 ≤ va' < PHYS_BASE → pte_of f' pd va' = pte_of (bytes σ) pd va'.
Proof using All.
  intros Hva'. pose proof (pd_index _ Hva') as Hi. pose proof (pd_index _ Hva) as Hi0.
  destruct (pd_page _ _ Hpd) as [Ha ? ? ?]. destruct (old_page _ _ _ _ pd Hg (pd_page _ _ Hpd)) as [Hne _].
  destruct pt_bound as [Ht _]. pose proof (pt_index va'). pose proof d_facts as (Hd & _ & _).
  unfold pte_of at 1. rewrite new_pde, new_table_of by done. case_decide as E.
  - unfold pte_of. rewrite E, Hde. rewrite (proj2 (Z.eqb_neq d 0)) by (unfold d; lia).
    unfold f'. rewrite (agree_word pt 4096 _ _ (fill pt 4096 0 (bytes σ))); [|..|lia|lia].
    + apply word_at_zero; lia.
    + apply put_word_agree. unfold USER_PDES in *. destruct (pages_apart _ _ Ht Ha ltac:(done)); lia.
  - unfold pte_of. destruct (Z.eqb_spec (pde_at (bytes σ) pd (pd_no va')) 0) as [|Hn]; [done|].
    destruct (pd_tables _ _ Hpd _ Hi Hn) as (_ & Hp & Hnp). destruct (old_page _ _ _ _ _ Hg Hp) as [Hnt _].
    pose proof (pg_align _ _ Hp) as Ha'. unfold USER_PDES in *.
    apply (agree_word (table (bytes σ) pd (pd_no va')) 4096); [|lia..].
    apply (agree_trans _ _ _ (fill pt 4096 0 (bytes σ))).
    + apply put_word_agree. destruct (pages_apart _ _ Ha' Ha ltac:(done)); lia.
    + apply fill_agree. destruct (pages_apart _ _ Ha' Ht ltac:(done)); lia.
Qed.

Lemma new_pd_ok : pd_ok (set_bytes f' σ1) pd.
Proof using All.
  pose proof Hpd as [Hok Hp Htab Hinj Hfr]. pose proof (pd_index _ Hva) as Hi0.
  assert (∀ p, page_ok σ1 p → page_ok (set_bytes f' σ1) p) as Hmono by by intros p [].
  assert (page_ok σ1 pt) as Hpt.
  { destruct Hg as [_ _ Hal _ [_ _ _ _ Hin _ _]]. split; [done..| |apply Hin; lia]. by rewrite (ram_end_new _ _ _ _ Hg). }
  destruct (old_page _ _ _ _ pd Hg Hp) as [Hnpd Hp1]. split; simpl.
  - apply palloc_ok_bytes, Hg.
  - by apply Hmono.
  - intros i Hi. rewrite new_pde, new_table_of by done. case_decide as E.
    + intros _. split_and!; [apply d_facts|by apply Hmono|done].
    + intros Hn. destruct (Htab i Hi Hn) as (? & Hpi & ?). split_and!; try done.
      by apply Hmono, (old_page _ _ _ _ _ Hg).
  - intros i j Hi Hj. rewrite !new_pde, !new_table_of by done.
    assert (∀ k, 0 ≤ k < USER_PDES → pde_at (bytes σ) pd k ≠ 0 → table (bytes σ) pd k ≠ pt) as Hk.
    { intros k Hk Hn. destruct (Htab k Hk Hn) as (_ & Hpk & _). by destruct (old_page _ _ _ _ _ Hg Hpk). }
    case_decide; case_decide; intros H1 H2 E;
      [congruence|by destruct (Hk j)|by destruct (Hk i)|by apply Hinj].
  - intros va' Hva'. rewrite new_pte by done. change (ram_end (set_bytes f' σ1)) with (ram_end σ1).
    rewrite (ram_end_new _ _ _ _ Hg). by apply Hfr.
Qed.
End new_table.

(** ** lookup_page *)

(** [r'] differs from [r] in pages of [pd] and its tables and in pages that were
    free only. *)
Record pd_frame (pd : Z) (r r' : pages) : Prop := {
  fr_ram : init_ram_pages r' = init_ram_pages r;
  fr_used : ∀ pn, used r pn = true → used r' pn = true;
  fr_tables : ∀ i, 0 ≤ i < USER_PDES → pde_at (bytes r') pd i ≠ 0 →
    pde_at (bytes r) pd i ≠ 0 ∧ table (bytes r') pd i = table (bytes r) pd i ∨
    used r (table (bytes r') pd i / 4096) = false;
  fr_bytes : ∀ q, page_ok r q → q ≠ pd →
    (∀ i, 0 ≤ i < USER_PDES → pde_at (bytes r) pd i ≠ 0 → q ≠ table (bytes r) pd i) →
    agree q 4096 (bytes r') (bytes r)
}.

Lemma pd_frame_refl pd r : pd_frame pd r r.
Proof. split; [done..| |done]. by left. Qed.

Lemma frame_page pd r r' q : pd_frame pd r r' → page_ok r q → page_ok r' q.
Proof.
  intros [Hr Hu _ _] [Ha Hl Hh Hq]. split; [done..| |by apply Hu]. unfold ram_end in *. by rewrite Hr.
Qed.

Lemma pd_frame_trans pd r1 r2 r3 : pd_frame pd r1 r2 → pd_frame pd r2 r3 → pd_frame pd r1 r3.
Proof.
  intros H12 H23. pose proof H12 as [Hr Hu Ht Hb]. pose proof H23 as [Hr' Hu' Ht' Hb'].
  split; [congruence|auto| |].
  - intros i Hi Hn. destruct (Ht' i Hi Hn) as [[Hn' ->]|Hf]; [by apply Ht|]. right.
    destruct (used r1 _) eqn:E; [|done]. by rewrite Hu in Hf.
  - intros q Hq Hne Hnt. apply (agree_trans _ _ _ (bytes r2)); [|by apply Hb].
    apply Hb'; [by eapply frame_page|done|]. intros i Hi Hn ->.
    destruct (Ht i Hi Hn) as [[Hn' Et]|Hf]; [by eapply Hnt|]. destruct Hq as [_ _ _ E].
    by rewrite Hf in E.
Qed.

Section lookup.
Context (σ : mmu) (pd va : Z) (create : bool).
Context (Hpd : pd_ok (ram σ) pd) (Hva : 0 ≤ va < PHYS_BASE).

Lemma pde_addr i : 0 ≤ i < 1024 → PHYS_BASE ≤ pd + 4 * i ∧ pd + 4 * i + 4 ≤ ram_end (ram σ).
Proof using Hpd. clear Hva. intros Hi. destruct (pd_page _ _ Hpd) as [Ha ? ? ?]. lia. Qed.

(** The part of lookup_page before the table is read. *)
Lemma wp_lookup_start Q (k : Z → M mmu Z) :
  wp (k (pde_at (bytes (ram σ)) pd (pd_no va))) σ Q →
  wp (assert (negb (pd =? NULL));; assert (negb create || is_user_vaddr va);;
      e ← on_ram (load_word (pd + 4 * pd_no va)); k e) σ Q.
Proof using Hpd Hva.
  intros HQ. pose proof (pd_index va Hva) as Hi. unfold USER_PDES in Hi.
  destruct (pde_addr (pd_no va)) as [??]; [lia|]. pose proof (pg_low _ _ (pd_page _ _ Hpd)).
  unfold PHYS_BASE in *. repeat wp_step.
  { apply negb_true_iff, Z.eqb_neq. unfold NULL. lia. }
  { apply orb_true_iff. right. apply Z.ltb_lt. unfold PHYS_BASE. lia. }
  apply wp_on_ram, wp_load_word; [done..|]. by rewrite with_ram_same.
Qed.

(** The part of lookup_page that reads the table. *)
Lemma wp_lookup_end Q : pde_at (bytes (ram σ)) pd (pd_no va) ≠ 0 →
  Q (table (bytes (ram σ)) pd (pd_no va) + 4 * pt_no va) σ →
  wp (e ← on_ram (load_word (pd + 4 * pd_no va)); pt ← pde_get_pt e; mret (pt + 4 * pt_no va)) σ Q.
Proof using Hpd Hva.
  intros Hde HQ. pose proof (pd_index va Hva) as Hi. pose proof Hi as Hi'. unfold USER_PDES in Hi'.
  destruct (pde_addr (pd_no va)) as [??]; [lia|]. wp_step. apply wp_on_ram, wp_load_word; [done..|].
  destruct (pd_tables _ _ Hpd _ Hi Hde) as (HP & [Ha Hl Hh _] & _). rewrite with_ram_same. wp_step.
  pose proof (pk_ram _ (pd_palloc _ _ Hpd)).
  apply wp_pde_get_pt; [|done|by wp_step]. fold (pde_at (bytes (ram σ)) pd (pd_no va)) in *.
  pose proof (word_at_bounds (bytes (ram σ)) (pd + 4 * pd_no va)).
  fold (pde_at (bytes (ram σ)) pd (pd_no va)) in *. unfold table, addr_of, ram_end in *.
  rewrite PGSIZE_eq in *. unfold PHYS_BASE in *. lia.
Qed.
End lookup.

Lemma wp_lookup_find σ pd va create Q :
  pd_ok (ram σ) pd → 0 ≤ va < PHYS_BASE → pde_at (bytes (ram σ)) pd (pd_no va) ≠ 0 →
  Q (table (bytes (ram σ)) pd (pd_no va) + 4 * pt_no va) σ → wp (lookup_page pd va create) σ Q.
Proof.
  intros Hpd Hva Hde HQ. unfold lookup_page. apply wp_lookup_start; [done..|].
  rewrite (proj2 (Z.eqb_neq _ _) Hde). do 2 wp_step. by apply wp_lookup_end.
Qed.

Lemma wp_lookup_none σ pd va Q :
  pd_ok (ram σ) pd → 0 ≤ va < PHYS_BASE → pde_at (bytes (ram σ)) pd (pd_no va) = 0 →
  Q NULL σ → wp (lookup_page pd va false) σ Q.
Proof.
  intros Hpd Hva Hde HQ. unfold lookup_page. apply wp_lookup_start; [done..|].
  rewrite Hde. by repeat wp_step.
Qed.

Lemma new_frame σ σ1 pd va pt d :
  pd_ok σ pd → 0 ≤ va < PHYS_BASE → pde_at (bytes σ) pd (pd_no va) = 0 →
  PHYS_BASE ≤ pt → pt + 4096 ≤ ram_end σ → granted false pt 1 (fill pt 4096 0 (bytes σ)) σ σ1 →
  d = pt - PHYS_BASE + 7 →
  pd_frame pd σ (set_bytes (put_word (pd + 4 * pd_no va) d (fill pt 4096 0 (bytes σ))) σ1).
Proof.
  intros Hpd Hva Hde Hlow Hhigh Hg ->. pose proof (new_pde σ σ1 pd va pt Hpd Hva Hde Hlow Hhigh Hg) as Epde.
  pose proof (new_table_of σ σ1 pd va pt Hpd Hva Hde Hlow Hhigh Hg) as Etab. pose proof (λ p, old_page σ σ1 pt _ p Hg) as Hold.
  destruct Hg as [_ _ Ht Hfree [_ Hr _ _ Hin Hout _]]. split; simpl; [done| | |].
  - intros pn Hu. change (used σ1 pn = true).
    destruct (decide (pt / 4096 ≤ pn < pt / 4096 + 1)); [by apply Hin|by rewrite Hout].
  - intros i Hi. rewrite Epde, Etab by done. case_decide; [right; apply Hfree; lia|by left].
  - intros q Hq Hne _. pose proof (pg_align _ _ Hq) as Hqa. destruct (Hold q Hq) as [Hqt _].
    pose proof (pg_align _ _ (pd_page _ _ Hpd)) as Hpa. pose proof (pd_index va Hva). unfold USER_PDES in *.
    apply (agree_trans _ _ _ (fill pt 4096 0 (bytes σ))).
    + apply put_word_agree. destruct (pages_apart _ _ Hqa Hpa Hne); lia.
    + apply fill_agree. destruct (pages_apart _ _ Hqa Ht Hqt); lia.
Qed.

Lemma wp_lookup_create σ pd va Q :
  pd_ok (ram σ) pd → 0 ≤ va < PHYS_BASE →
  (∀ r, pd_ok r pd → pde_at (bytes r) pd (pd_no va) ≠ 0 →
     (∀ va', 0 ≤ va' < PHYS_BASE → pte_of (bytes r) pd va' = pte_of (bytes (ram σ)) pd va') →
     pd_frame pd (ram σ) r → Q (table (bytes r) pd (pd_no va) + 4 * pt_no va) (with_ram r σ)) →
  (exhausted (ram σ) false 1 → Q NULL σ) → wp (lookup_page pd va true) σ Q.
Proof.
  intros Hpd Hva HQ HE. destruct (decide (pde_at (bytes (ram σ)) pd (pd_no va) = 0)) as [Hde|Hde].
  2: { apply wp_lookup_find; [done..|]. rewrite <-(with_ram_same σ) at 2.
       apply HQ; [done..|apply pd_frame_refl]. }
  unfold lookup_page. apply wp_lookup_start; [done..|]. rewrite Hde. simpl Z.eqb. cbv iota.
  repeat wp_step. apply wp_on_ram, (wp_wpp _ _ _ False); [tauto|].
  apply wpp_palloc_get_multiple; [apply Hpd|done| |lia| |].
  - intros pt r1 _ Hlow Hhigh Hg. simpl in Hg.
    pose proof (pk_ram _ (pd_palloc _ _ Hpd)) as Hram.
    assert (PHYS_BASE ≤ pt < 2 ^ 32 ∧ pt mod 4096 = 0) as [Hpt Ha].
    { split; [|apply Hg]. unfold ram_end, PHYS_BASE in *. rewrite PGSIZE_eq in *. lia. }
    rewrite (proj2 (Z.eqb_neq pt NULL)) by (unfold PHYS_BASE, NULL in *; lia).
    wp_step. apply wp_pde_create; [done..|]. wp_step.
    pose proof (pd_index va Hva) as Hi. unfold USER_PDES in Hi.
    destruct (pde_addr σ pd Hpd (pd_no va)) as [??]; [lia|].
    apply wp_on_ram, wp_store_word; [done|simpl; by rewrite (ram_end_new _ _ _ _ Hg)|].
    wp_step. simpl ram. rewrite (ps_bytes _ _ _ _ _ (gr_set _ _ _ _ _ _ Hg)).
    set (r2 := set_bytes _ r1). change (with_ram r2 _) with (with_ram r2 σ).
    assert (pd_ok r2 pd) as Hpd2 by (apply (new_pd_ok (ram σ)); done || lia).
    assert (pde_at (bytes r2) pd (pd_no va) ≠ 0) as Hde2.
    { unfold r2. simpl. rewrite (new_pde (ram σ) r1 pd va pt) by (done || lia || by apply pd_index).
      rewrite decide_True by done. unfold PHYS_BASE in *. lia. }
    apply wp_lookup_end; [done..|]. apply HQ; [done..| |apply new_frame; done || lia].
    intros va' Hva'. apply (new_pte (ram σ) r1 pd va pt); done || lia.
  - intros Hex _. rewrite with_ram_same. simpl. repeat wp_step. by apply HE.
  - done.
Qed.

(** Storing an entry of a table of [pd]. *)
Lemma slot_frame r pd va v :
  pd_ok r pd → 0 ≤ va < PHYS_BASE → pde_at (bytes r) pd (pd_no va) ≠ 0 → 0 ≤ v < 2 ^ 32 →
  pd_frame pd r (set_bytes (put_word (table (bytes r) pd (pd_no va) + 4 * pt_no va) v (bytes r)) r).
Proof.
  intros Hpd Hva Hde Hv. split; simpl; [done..| |].
  - intros i Hi. rewrite (store_pde r), (store_table r) by done. by left.
  - intros q [Hq _ _ _] _ Hnt. pose proof (pd_index va Hva) as Hi.
    destruct (pd_tables _ _ Hpd _ Hi Hde) as (_ & [Ht _ _ _] & _). pose proof (pt_index va).
    apply put_word_agree. destruct (pages_apart _ _ Hq Ht (Hnt _ Hi Hde)); lia.
Qed.

(** The state after the entry of [va] is changed to [v]: nothing but that entry. *)
Record pte_set (pd va v : Z) (r r' : pages) : Prop := {
  pse_ok : pd_ok r' pd;
  pse_frame : pd_frame pd r r';
  pse_pte : ∀ va', 0 ≤ va' < PHYS_BASE →
    pte_of (bytes r') pd va' = if decide (va' / 4096 = va / 4096) then v else pte_of (bytes r) pd va'
}.

Lemma wp_store_pte σ pd va v Q :
  pd_ok (ram σ) pd → 0 ≤ va < PHYS_BASE → pde_at (bytes (ram σ)) pd (pd_no va) ≠ 0 →
  0 ≤ v < 2 ^ 32 → (Z.land v PTE_P ≠ 0 → addr_of v + 4096 ≤ ram_end (ram σ)) →
  (∀ r, pte_set pd va v (ram σ) r → Q tt (with_ram r σ)) →
  wp (on_ram (store_word (table (bytes (ram σ)) pd (pd_no va) + 4 * pt_no va) v)) σ Q.
Proof.
  intros Hpd Hva Hde Hv Hf HQ. destruct (slot_bounds (ram σ) pd va v) as (?&?&?&?&?); [done..|].
  apply wp_on_ram, wp_store_word; [done..|]. apply HQ. split.
  - by apply store_pd_ok.
  - by apply slot_frame.
  - intros va' Hva'. simpl. by apply (store_pte (ram σ)).
Qed.

Lemma wp_load_pte σ pd va Q :
  pd_ok (ram σ) pd → 0 ≤ va < PHYS_BASE → pde_at (bytes (ram σ)) pd (pd_no va) ≠ 0 →
  Q (pte_of (bytes (ram σ)) pd va) σ →
  wp (on_ram (load_word (table (bytes (ram σ)) pd (pd_no va) + 4 * pt_no va))) σ Q.
Proof.
  intros Hpd Hva Hde HQ. destruct (slot_bounds (ram σ) pd va 0) as (?&?&?&?&?); [done..|].
  apply wp_on_ram, wp_load_word; [done..|]. rewrite with_ram_same. unfold pte_of in HQ.
  by rewrite (proj2 (Z.eqb_neq _ _) Hde) in HQ.
Qed.

Lemma slot_nonnull σ pd va :
  pd_ok (ram σ) pd → 0 ≤ va < PHYS_BASE → pde_at (bytes (ram σ)) pd (pd_no va) ≠ 0 →
  (table (bytes (ram σ)) pd (pd_no va) + 4 * pt_no va =? NULL) = false.
Proof.
  intros Hpd Hva Hde. destruct (slot_bounds (ram σ) pd va 0) as (?&?&?&?&?); [done..|].
  apply Z.eqb_neq. unfold NULL, PHYS_BASE in *. lia.
Qed.

Lemma pte_bounds f pd va : 0 ≤ pte_of f pd va < 2 ^ 32.
Proof. unfold pte_of. destruct (_ =? 0); [lia|]. apply word_at_bounds. Qed.

(** ** The operations *)

Lemma wp_pagedir_set_page σ pd upage kpage (w : bool) Q :
  pd_ok (ram σ) pd → pd ≠ init_page_dir σ → upage mod 4096 = 0 → 0 ≤ upage < PHYS_BASE →
  kpage mod 4096 = 0 → PHYS_BASE ≤ kpage → kpage + 4096 ≤ ram_end (ram σ) →
  Z.land (pte_of (bytes (ram σ)) pd upage) PTE_P = 0 →
  (∀ r, pte_set pd upage (kpage - PHYS_BASE + (if w then 7 else 5)) (ram σ) r → Q true (with_ram r σ)) →
  (exhausted (ram σ) false 1 → Q false σ) →
  wp (pagedir_set_page pd upage kpage w) σ Q.
Proof.
  intros Hpd Hinit Hu Hu' Hk Hk1 Hk2 Hnp HQ HE. unfold pagedir_set_page.
  pose proof (pk_ram _ (pd_palloc _ _ Hpd)) as Hr.
  assert (ram_end (ram σ) = PHYS_BASE + 4096 * init_ram_pages (ram σ)) as Er by done.
  assert (kpage < 2 ^ 32) as Hk3 by (unfold PHYS_BASE in *; lia).
  repeat wp_step; [by rewrite pg_ofs_mod, Hu|by rewrite pg_ofs_mod, Hk|apply Z.ltb_lt, Hu'|].
  apply wp_vtop; [done|]. repeat wp_step.
  { apply Z.ltb_lt. change PTSHIFT with 12. rewrite Z.shiftr_div_pow2 by done. change (2 ^ 12) with 4096. lia. }
  { by apply negb_true_iff, Z.eqb_neq. }
  apply wp_lookup_create; [done..| |].
  - intros r Hpd1 Hde Hpte Hfr. change (bytes r) with (bytes (ram (with_ram r σ))).
    rewrite slot_nonnull by done. simpl negb. cbv iota. wp_step. apply wp_load_pte; [done..|].
    repeat wp_step. { simpl. rewrite Hpte by done. by apply Z.eqb_eq. }
    apply wp_pte_create_user; [lia|done|]. repeat wp_step.
    set (v := kpage - PHYS_BASE + (if w then 7 else 5)).
    assert (0 ≤ v < 2 ^ 32 ∧ addr_of v = kpage) as [Hv Ev].
    { unfold v, addr_of, PHYS_BASE in *. destruct w; lia. }
    apply wp_store_pte; [done..| |].
    { intros _. rewrite Ev. simpl. unfold ram_end in *. by rewrite (fr_ram _ _ _ Hfr). }
    intros r' [Hok' Hfr' Hpte']. wp_step. change (with_ram r' _) with (with_ram r' σ). apply HQ.
    split; [done|by eapply pd_frame_trans|]. intros va' Hva'. rewrite Hpte' by done.
    case_decide; [done|]. by apply Hpte.
  - intros Hex. simpl. wp_step. by apply HE.
Qed.

Lemma wp_pagedir_get_page σ pd va Q :
  pd_ok (ram σ) pd → 0 ≤ va < PHYS_BASE →
  (let e := pte_of (bytes (ram σ)) pd va in
   Q (if decide (Z.land e PTE_P = 0) then NULL else addr_of e + va mod 4096) σ) →
  wp (pagedir_get_page pd va) σ Q.
Proof.
  intros Hpd Hva HQ. simpl in HQ. unfold pagedir_get_page. repeat wp_step; [apply Z.ltb_lt, Hva|].
  destruct (decide (pde_at (bytes (ram σ)) pd (pd_no va) = 0)) as [Hde|Hde].
  - apply wp_lookup_none; [done..|]. simpl. wp_step. unfold pte_of in HQ. by rewrite Hde in HQ.
  - apply wp_lookup_find; [done..|]. rewrite slot_nonnull by done. simpl negb. cbv iota. wp_step.
    apply wp_load_pte; [done..|]. destruct (Z.eqb_spec (Z.land (pte_of (bytes (ram σ)) pd va) PTE_P) 0) as [E|E].
    + simpl. wp_step. by rewrite decide_True in HQ by done.
    + simpl. wp_step. rewrite decide_False in HQ by done.
      pose proof (pd_frames _ _ Hpd va Hva E) as Hf. pose proof (pte_bounds (bytes (ram σ)) pd va).
      pose proof (pk_ram _ (pd_palloc _ _ Hpd)). apply wp_pte_get_page.
      { unfold addr_of, ram_end in *. rewrite PGSIZE_eq in *. unfold PHYS_BASE in *. lia. }
      wp_step. by rewrite pg_ofs_mod.
Qed.

(** The processor forgets its entries if [pd] is the active directory. *)
Definition flushed (pd : Z) (σ : mmu) : mmu :=
  if decide (cr3 σ + PHYS_BASE = pd) then mk_mmu (ram σ) (init_page_dir σ) (cr3 σ) ∅ else σ.

Lemma wp_invalidate_pagedir σ pd Q :
  0 ≤ cr3 σ < 2 ^ 32 - PHYS_BASE → PHYS_BASE ≤ pd < 2 ^ 32 → Q tt (flushed pd σ) →
  wp (invalidate_pagedir pd) σ Q.
Proof.
  intros Hc Hp HQ. unfold invalidate_pagedir, active_pd. repeat wp_step. apply wp_ptov; [done|].
  unfold flushed in HQ. destruct (Z.eqb_spec (cr3 σ + PHYS_BASE) pd) as [E|E].
  - rewrite decide_True in HQ by done. unfold pagedir_activate, load_cr3. repeat wp_step.
    rewrite (proj2 (Z.eqb_neq pd NULL)) by (unfold PHYS_BASE, NULL in *; lia).
    apply wp_vtop; [done|]. wp_step. by replace (pd - PHYS_BASE) with (cr3 σ) by lia.
  - wp_step. by rewrite decide_False in HQ.
Qed.

(** The address in an entry is in its upper bits. *)
Lemma addr_of_land e : 0 ≤ e < 2 ^ 32 → addr_of e = Z.land e PTE_ADDR + PHYS_BASE.
Proof. intros He. unfold addr_of, PTE_ADDR. by rewrite land_addr. Qed.

(** Clearing some of the flags of an entry. *)
Lemma clear_flags e m : 0 ≤ e < 2 ^ 32 → Z.land m PTE_ADDR = PTE_ADDR → 0 ≤ m →
  0 ≤ Z.land e m < 2 ^ 32 ∧ addr_of (Z.land e m) = addr_of e ∧
  (∀ f, Z.land (Z.land e m) f = Z.land e (Z.land m f)).
Proof.
  intros He Hm Hm0. pose proof (land_word e m He Hm0). split_and!; [lia..| |].
  - by rewrite !addr_of_land, <-Z.land_assoc, Hm by done.
  - intros f. by rewrite Z.land_assoc.
Qed.

Lemma set_flags e m : 0 ≤ e < 2 ^ 32 → 0 ≤ m < 4096 →
  0 ≤ Z.lor e m < 2 ^ 32 ∧ addr_of (Z.lor e m) = addr_of e.
Proof.
  intros He Hm. pose proof (lor_word e m He ltac:(lia)). split; [lia|].
  rewrite !addr_of_land, Z.land_lor_distr_l by done. f_equal. unfold PTE_ADDR.
  rewrite (land_addr m) by lia. rewrite Z.div_small by done. apply Z.lor_0_r.
Qed.

Section ops.
Context (σ : mmu) (pd va : Z).
Context (Hpd : pd_ok (ram σ) pd) (Hva : 0 ≤ va < PHYS_BASE) (Hcr : 0 ≤ cr3 σ < 2 ^ 32 - PHYS_BASE).
Let e : Z := pte_of (bytes (ram σ)) pd va.

Lemma pd_word : PHYS_BASE ≤ pd < 2 ^ 32.
Proof using All.
  destruct (pd_page _ _ Hpd) as [Ha Hl Hh _]. pose proof (pk_ram _ (pd_palloc _ _ Hpd)).
  unfold ram_end in Hh. rewrite PGSIZE_eq in Hh. unfold PHYS_BASE in *. lia.
Qed.

Lemma wp_pagedir_clear_page Q :
  va mod 4096 = 0 →
  (∀ r, Z.land e PTE_P ≠ 0 → pte_set pd va (Z.land e (u32 (Z.lnot PTE_P))) (ram σ) r →
     Q tt (flushed pd (with_ram r σ))) →
  (Z.land e PTE_P = 0 → Q tt σ) →
  wp (pagedir_clear_page pd va) σ Q.
Proof using All.
  intros Ha HQ HN. pose proof pd_word. unfold pagedir_clear_page.
  repeat wp_step; [by rewrite pg_ofs_mod, Ha|apply Z.ltb_lt, Hva|].
  destruct (decide (pde_at (bytes (ram σ)) pd (pd_no va) = 0)) as [Hde|Hde].
  { apply wp_lookup_none; [done..|]. simpl. wp_step. apply HN. unfold e, pte_of. by rewrite Hde. }
  apply wp_lookup_find; [done..|]. rewrite slot_nonnull by done. simpl negb. cbv iota. wp_step.
  apply wp_load_pte; [done..|]. fold e. destruct (Z.eqb_spec (Z.land e PTE_P) 0) as [E|E]; simpl.
  { wp_step. by apply HN. }
  pose proof (pte_bounds (bytes (ram σ)) pd va) as He. fold e in He.
  destruct (clear_flags e (u32 (Z.lnot PTE_P)) He) as (? & ? & Hl); [done..|].
  wp_step. apply wp_store_pte; [done..| |].
  { intros Hp. by rewrite Hl, Z.land_0_r in Hp. }
  intros r Hr. apply wp_invalidate_pagedir; [done..|]. by apply HQ.
Qed.

(** [v]: the entry with the flag set or cleared. *)
Lemma wp_pagedir_set (fl : Z) (b : bool) Q :
  fl = PTE_A ∨ fl = PTE_D →
  (∀ r, pde_at (bytes (ram σ)) pd (pd_no va) ≠ 0 →
     pte_set pd va (if b then Z.lor e fl else Z.land e (u32 (Z.lnot fl))) (ram σ) r →
     Q tt (if b then with_ram r σ else flushed pd (with_ram r σ))) →
  (pde_at (bytes (ram σ)) pd (pd_no va) = 0 → Q tt σ) →
  wp (pagedir_set fl pd va b) σ Q.
Proof using All.
  intros Hfl HQ HN. pose proof pd_word. unfold pagedir_set. wp_step.
  destruct (decide (pde_at (bytes (ram σ)) pd (pd_no va) = 0)) as [Hde|Hde].
  { apply wp_lookup_none; [done..|]. simpl. wp_step. by apply HN. }
  apply wp_lookup_find; [done..|]. rewrite slot_nonnull by done. simpl negb. cbv iota. wp_step.
  apply wp_load_pte; [done..|]. fold e. pose proof (pte_bounds (bytes (ram σ)) pd va) as He. fold e in He.
  assert (0 ≤ fl < 4096 ∧ Z.land fl PTE_P = 0) as [Hfl1 Hfl2] by by destruct Hfl; subst.
  destruct b.
  - destruct (set_flags e fl He Hfl1) as [Hb Ea].
    apply wp_store_pte; [done..| |by intros r; apply HQ].
    intros Hp. rewrite Ea. apply (pd_frames _ _ Hpd va Hva). fold e.
    by rewrite Z.land_lor_distr_l, Hfl2, Z.lor_0_r in Hp.
  - destruct (clear_flags e (u32 (Z.lnot fl)) He) as (? & Ea & Hl); [by destruct Hfl; subst..|].
    wp_step. apply wp_store_pte; [done..| |].
    { intros Hp. rewrite Ea. apply (pd_frames _ _ Hpd va Hva). fold e. rewrite Hl in Hp.
      by destruct Hfl; subst. }
    intros r Hr. apply wp_invalidate_pagedir; [done..|]. by apply HQ.
Qed.

Lemma wp_pagedir_is (fl : Z) Q :
  Q (negb (Z.land e fl =? 0)) σ → wp (pagedir_is fl pd va) σ Q.
Proof using All.
  intros HQ. unfold pagedir_is. wp_step.
  destruct (decide (pde_at (bytes (ram σ)) pd (pd_no va) = 0)) as [Hde|Hde].
  { apply wp_lookup_none; [done..|]. simpl. wp_step. unfold e, pte_of in HQ. by rewrite Hde in HQ. }
  apply wp_lookup_find; [done..|]. rewrite slot_nonnull by done. simpl negb. cbv iota. wp_step.
  apply wp_load_pte; [done..|]. by wp_step.
Qed.
End ops.
