(* ===== verification/PagedirThms.v ===== *)
(** * Page directories: theorems on userprog/pagedir.c

    A page directory is a finite map from user pages to frames, with get, set
    and clear as its operations; directories that share no page do not disturb
    each other; the TLB never holds an entry that the tables contradict; and
    pagedir_destroy gives back exactly the pages of the directory. *)

From S2P Require Import Prelude Bitmap Vaddr Palloc Ram Pagedir.
Local Open Scope Z_scope.
Local Ltac Zify.zify_post_hook ::= Z.div_mod_to_equations.

(** ** Destruction *)

(** The frames that [n] entries from [a] on map, and the pages that [n] directory
    entries from [a] on own, in the order in which they are freed. *)
Fixpoint table_frames (n : nat) (f : Z → Z) (a : Z) : list Z :=
  match n with
  | O => []
  | S n =>
    (if decide (Z.land (word_at f a) PTE_P = 0) then [] else [addr_of (word_at f a)])
    ++ table_frames n f (a + 4)
  end.
Fixpoint dir_pages (n : nat) (f : Z → Z) (a : Z) : list Z :=
  match n with
  | O => []
  | S n =>
    (if decide (Z.land (word_at f a) PTE_P = 0) then []
     else table_frames 1024 f (addr_of (word_at f a)) ++ [addr_of (word_at f a)])
    ++ dir_pages n f (a + 4)
  end.
Definition pd_pages (f : Z → Z) (pd : Z) : list Z := dir_pages 768 f pd ++ [pd].

(** [r'] is [r] after the pages [ps] are freed. *)
Record freed (ps : list Z) (r r' : pages) : Prop := {
  fd_ok : palloc_ok r';
  fd_ram : init_ram_pages r' = init_ram_pages r;
  fd_pools : ∀ u, base (pool_at u r') = base (pool_at u r) ∧
    bit_cnt (used_map (pool_at u r')) = bit_cnt (used_map (pool_at u r));
  fd_used : ∀ pn, used r' pn = used r pn && bool_decide (4096 * pn ∉ ps);
  fd_bytes : ∀ q, q mod 4096 = 0 → q ∉ ps → agree q 4096 (bytes r') (bytes r)
}.

Lemma freed_nil r : palloc_ok r → freed [] r r.
Proof.
  intros Hr. split; [done..| |done]. intros pn. rewrite bool_decide_eq_true_2; [by rewrite andb_true_r|].
  apply not_elem_of_nil.
Qed.

Lemma freed_app ps qs r1 r2 r3 : freed ps r1 r2 → freed qs r2 r3 → freed (ps ++ qs) r1 r3.
Proof.
  intros [_ R1 P1 U1 B1] [Hok R2 P2 U2 B2]. split; [done|congruence| | |].
  - intros u. destruct (P1 u), (P2 u). split; congruence.
  - intros pn. rewrite U2, U1, <-andb_assoc. f_equal.
    apply eq_true_iff_eq. rewrite andb_true_iff, !bool_decide_eq_true, not_elem_of_app. done.
  - intros q Hq [??]%not_elem_of_app. apply (agree_trans _ _ _ (bytes r2)); [by apply B2|by apply B1].
Qed.

Lemma freed_page ps r r' q : freed ps r r' → page_ok r q → q ∉ ps → page_ok r' q.
Proof.
  intros [_ Hr _ Hu _] [Ha Hl Hh Hq] Hn. split; [done..| |].
  - unfold ram_end in *. by rewrite Hr.
  - rewrite Hu, Hq. apply bool_decide_eq_true. by replace (4096 * (q / 4096)) with q by lia.
Qed.

Lemma freed_pages ps qs r r' :
  freed ps r r' → Forall (page_ok r) qs → (∀ q, q ∈ qs → q ∉ ps) → Forall (page_ok r') qs.
Proof. rewrite !Forall_forall. intros Hf Hq Hn q Hin. eapply freed_page; eauto. Qed.

(** A page in use belongs to a pool. *)
Lemma used_pool_of σ pn : palloc_ok σ → used σ pn = true → ∃ u, in_pool (pool_at u σ) pn.
Proof.
  intros Hok. unfold used, used_in. intros [[H _]%andb_true_iff|[H _]%andb_true_iff]%orb_true_iff;
    apply bool_decide_eq_true in H; [by exists false|by exists true].
Qed.

Lemma wp_free_page r p Q :
  palloc_ok r → page_ok r p → (∀ r', freed [p] r r' → Q tt r') → wp (palloc_free_page p) r Q.
Proof.
  intros Hok [Ha Hl Hh Hu] HQ. destruct (used_pool_of r _ Hok Hu) as [u Hin].
  destruct (pool_bound _ Hok u) as (?&?&?&?). unfold in_pool, first_page in Hin.
  apply (wp_palloc_free_multiple _ u); [done|lia|done|lia|lia| |].
  { intros pn Hpn. by replace pn with (p / 4096) by lia. }
  intros r' [Hok' Hr Hkp Hup Hi Ho Hb]. apply HQ. split; [done..|by intros []| |].
  - intros pn. destruct (decide (p / 4096 ≤ pn < p / 4096 + 1)) as [E|E].
    + rewrite Hi by done. rewrite bool_decide_eq_false_2; [by rewrite andb_false_r|].
      rewrite list_elem_of_singleton. intros Hne. apply Hne. lia.
    + rewrite Ho by done. rewrite bool_decide_eq_true_2; [by rewrite andb_true_r|].
      rewrite list_elem_of_singleton. lia.
  - intros q Hq Hn. rewrite list_elem_of_singleton in Hn. rewrite Hb. apply fill_agree.
    destruct (pages_apart q p); lia.
Qed.

Lemma table_frames_agree n f g a t :
  agree t 4096 f g → t ≤ a → a + 4 * Z.of_nat n ≤ t + 4096 → table_frames n f a = table_frames n g a.
Proof.
  intros Hag. revert a; induction n as [|n IH]; intros a Ha Hn; [done|]. simpl.
  rewrite (agree_word t 4096 a f g Hag) by lia. by rewrite IH by lia.
Qed.

Lemma present_bound r e : palloc_ok r → 0 ≤ e < 2 ^ 32 → page_ok r (addr_of e) → 0 ≤ e < 2 ^ 32 - PHYS_BASE.
Proof.
  intros Hok He [_ _ Hh _]. pose proof (pk_ram _ Hok). unfold addr_of, ram_end in *.
  rewrite PGSIZE_eq in *. unfold PHYS_BASE in *. lia.
Qed.

Lemma wp_destroy_table n σ t a Q :
  palloc_ok (ram σ) → page_ok (ram σ) t → t ≤ a → a + 4 * Z.of_nat n ≤ t + 4096 →
  NoDup (table_frames n (bytes (ram σ)) a) → Forall (page_ok (ram σ)) (table_frames n (bytes (ram σ)) a) →
  t ∉ table_frames n (bytes (ram σ)) a →
  (∀ r, freed (table_frames n (bytes (ram σ)) a) (ram σ) r → Q tt (with_ram r σ)) →
  wp (destroy_table n a) σ Q.
Proof.
  revert σ a Q; induction n as [|n IH]; intros σ a Q Hok Ht Ha Hn Hnd Hall Hnt HQ.
  { simpl. wp_step. rewrite <-with_ram_same. by apply HQ, freed_nil. }
  cbn [destroy_table]. pose proof Ht as [Hta Htl Hth _]. wp_step.
  apply wp_on_ram, wp_load_word; [lia..|]. rewrite with_ram_same.
  set (e := word_at (bytes (ram σ)) a). cbn [table_frames] in *. fold e in Hnd, Hall, Hnt, HQ.
  destruct (Z.eqb_spec (Z.land e PTE_P) 0) as [E|E].
  - rewrite decide_True in Hnd, Hall, Hnt, HQ by done. simpl. do 2 wp_step.
    apply IH; [done|done|lia|lia|done..].
  - rewrite decide_False in Hnd, Hall, Hnt, HQ by done. simpl in *.
    apply NoDup_cons in Hnd as [Hni Hnd]. apply Forall_cons in Hall as [Hp Hall].
    apply not_elem_of_cons in Hnt as [Hne Hnt]. repeat wp_step.
    apply wp_pte_get_page; [apply (present_bound (ram σ)); [done|apply word_at_bounds|done]|].
    apply wp_on_ram, wp_free_page; [done..|]. intros r1 H1.
    assert (agree t 4096 (bytes r1) (bytes (ram σ))) as Hag.
    { apply H1; [done|]. rewrite list_elem_of_singleton. done. }
    pose proof (table_frames_agree n _ _ (a + 4) t Hag ltac:(lia) ltac:(lia)) as Ef.
    apply IH; simpl ram; rewrite ?Ef; [apply H1| |lia|lia|done| |done|].
    + eapply freed_page; [done..|]. by rewrite list_elem_of_singleton.
    + eapply freed_pages; [done..|]. intros q Hq. rewrite list_elem_of_singleton. by intros ->.
    + intros r2 H2. change (with_ram r2 _) with (with_ram r2 σ). apply HQ.
      apply (freed_app [_] _ _ _ _ H1 H2).
Qed.

Lemma dir_pages_agree n f g a :
  agree a (4 * Z.of_nat n) f g → (∀ t, t ∈ dir_pages n f a → agree t 4096 f g) →
  dir_pages n f a = dir_pages n g a.
Proof.
  revert a; induction n as [|n IH]; intros a Ha Ht; [done|]. cbn [dir_pages] in *.
  rewrite <-(agree_word _ _ a f g Ha) by lia.
  rewrite <-(IH (a + 4)).
  - case_decide; [done|]. f_equal. f_equal. apply (table_frames_agree _ _ _ _ (addr_of (word_at f a))); [|lia..].
    apply Ht. rewrite !elem_of_app, list_elem_of_singleton. auto.
  - intros x Hx. apply Ha. lia.
  - intros t Hin. apply Ht. apply elem_of_app. by right.
Qed.

Lemma wp_destroy_tables n σ pd a Q :
  palloc_ok (ram σ) → page_ok (ram σ) pd → pd ≤ a → a + 4 * Z.of_nat n ≤ pd + 4096 →
  NoDup (dir_pages n (bytes (ram σ)) a) → Forall (page_ok (ram σ)) (dir_pages n (bytes (ram σ)) a) →
  pd ∉ dir_pages n (bytes (ram σ)) a →
  (∀ r, freed (dir_pages n (bytes (ram σ)) a) (ram σ) r → Q tt (with_ram r σ)) →
  wp (destroy_tables n a) σ Q.
Proof.
  revert σ a Q; induction n as [|n IH]; intros σ a Q Hok Hpd Ha Hn Hnd Hall Hnt HQ.
  { simpl. wp_step. rewrite <-with_ram_same. by apply HQ, freed_nil. }
  cbn [destroy_tables]. pose proof Hpd as [Hta Htl Hth _]. wp_step.
  apply wp_on_ram, wp_load_word; [lia..|]. rewrite with_ram_same.
  set (f := bytes (ram σ)) in *. set (e := word_at f a). cbn [dir_pages] in Hnd, Hall, Hnt, HQ.
  fold e in Hnd, Hall, Hnt, HQ. destruct (Z.eqb_spec (Z.land e PTE_P) 0) as [E|E].
  - rewrite decide_True in Hnd, Hall, Hnt, HQ by done. simpl. do 2 wp_step.
    apply IH; [done|done|lia|lia|done..].
  - rewrite decide_False in Hnd, Hall, Hnt, HQ by done. simpl negb. cbv iota.
    set (t := addr_of e) in *. set (ps := table_frames 1024 f t ++ [t]) in *.
    apply NoDup_app in Hnd as (Hnd1 & Hdisj & Hnd2). apply Forall_app in Hall as [Hall1 Hall2].
    apply not_elem_of_app in Hnt as [Hnt1 Hnt2].
    pose proof Hnd1 as Hnd'. apply NoDup_app in Hnd' as (Hndt & Htf & _).
    apply Forall_app in Hall1 as [Hallt [Ht _]%Forall_cons].
    assert (t ∉ table_frames 1024 f t) as Hself.
    { intros Hin. apply (Htf _ Hin). by apply list_elem_of_singleton. }
    do 2 wp_step.
    apply wp_pde_get_pt; [apply (present_bound (ram σ)); [done|apply word_at_bounds|done]|done|].
    wp_step. change (Z.to_nat (PGSIZE / 4)) with 1024%nat. change (addr_of _) with t.
    apply (wp_destroy_table _ _ t); [done|done|lia|lia|done..|].
    intros r1 H1. apply wp_on_ram, wp_free_page; [apply H1|by eapply freed_page|].
    intros r2 H2. pose proof (freed_app _ _ _ _ _ H1 H2) as H12. change (_ ++ [t]) with ps in H12.
    assert (∀ q, q mod 4096 = 0 → q ∉ ps → agree q 4096 (bytes r2) f) as Hag by apply H12.
    assert (dir_pages n (bytes r2) (a + 4) = dir_pages n f (a + 4)) as Ed.
    { symmetry. apply dir_pages_agree.
      - intros x Hx. symmetry. apply (Hag pd); [done|done|lia].
      - intros q Hq. apply agree_sym, Hag; [|by intros Hin; apply (Hdisj q)].
        rewrite Forall_forall in Hall2. apply (Hall2 _ Hq). }
    apply IH; simpl ram; rewrite ?Ed; [apply H12|by eapply freed_page|lia|lia|done| |done|].
    + eapply freed_pages; [done..|]. intros q Hq Hin. by apply (Hdisj q).
    + intros r3 H3. change (with_ram r3 _) with (with_ram r3 σ). apply HQ, (freed_app _ _ _ _ _ H12 H3).
Qed.

(** All pages of [pd] are in use and no two of them are the same. *)
Definition owns (r : pages) (pd : Z) : Prop :=
  NoDup (pd_pages (bytes r) pd) ∧ Forall (page_ok r) (pd_pages (bytes r) pd).

Lemma wp_pagedir_destroy σ pd Q :
  palloc_ok (ram σ) → owns (ram σ) pd → pd ≠ init_page_dir σ →
  (∀ r, freed (pd_pages (bytes (ram σ)) pd) (ram σ) r → Q tt (with_ram r σ)) →
  wp (pagedir_destroy pd) σ Q.
Proof.
  intros Hok [Hnd Hall] Hinit HQ. unfold pd_pages in *.
  apply NoDup_app in Hnd as (Hnd & Hd & _). apply Forall_app in Hall as [Hall [Hpd _]%Forall_cons].
  assert (pd ∉ dir_pages 768 (bytes (ram σ)) pd) as Hself.
  { intros Hin. apply (Hd _ Hin). by apply list_elem_of_singleton. }
  pose proof (pg_low _ _ Hpd). unfold pagedir_destroy.
  rewrite (proj2 (Z.eqb_neq pd NULL)) by (unfold PHYS_BASE, NULL in *; lia).
  repeat wp_step; [by apply negb_true_iff, Z.eqb_neq|].
  change (Z.to_nat (pd_no PHYS_BASE)) with 768%nat.
  apply (wp_destroy_tables _ _ pd); [done|done|lia|lia|done..|].
  intros r1 H1. apply wp_on_ram, wp_free_page; [apply H1|by eapply freed_page|].
  intros r2 H2. change (with_ram r2 _) with (with_ram r2 σ).
  apply HQ, (freed_app _ _ _ _ _ H1 H2).
Qed.

(** ** Directories as maps *)

(** The frame that the page number [vpn] is mapped to, and whether it is writable. *)
Definition maps (r : pages) (pd vpn : Z) : option (Z * bool) :=
  let e := pte_of (bytes r) pd (4096 * vpn) in
  if decide (Z.land e PTE_P = 0) then None else Some (addr_of e, negb (Z.land e PTE_W =? 0)).

(** The page table entry does not depend on the offset in the page. *)
Lemma pte_of_page f pd va : 0 ≤ va → pte_of f pd (4096 * (va / 4096)) = pte_of f pd va.
Proof.
  intros Hva. destruct (proj1 (same_page va (4096 * (va / 4096)) Hva ltac:(lia)) ltac:(lia)) as [E1 E2].
  unfold pte_of. by rewrite E1, E2.
Qed.

Lemma pte_set_maps pd va v r r' vpn :
  pte_set pd va v r r' → 0 ≤ va < PHYS_BASE → 0 ≤ 4096 * vpn < PHYS_BASE →
  maps r' pd vpn =
    if decide (vpn = va / 4096)
    then if decide (Z.land v PTE_P = 0) then None else Some (addr_of v, negb (Z.land v PTE_W =? 0))
    else maps r pd vpn.
Proof.
  intros [_ _ Hp] Hva Hvpn. unfold maps. rewrite Hp by done.
  replace (4096 * vpn / 4096) with vpn by lia. by destruct (decide (vpn = va / 4096)).
Qed.

Lemma user_entry kpage (w : bool) :
  kpage mod 4096 = 0 → PHYS_BASE ≤ kpage →
  let v := kpage - PHYS_BASE + (if w then 7 else 5) in
  Z.land v PTE_P ≠ 0 ∧ addr_of v = kpage ∧ negb (Z.land v PTE_W =? 0) = w.
Proof.
  intros Ha Hl v. unfold PHYS_BASE in *.
  assert (v mod 4096 = if w then 7 else 5) as E by (unfold v; destruct w; lia).
  rewrite !(land_flags v) by done. rewrite E. split_and!; [destruct w; compute; congruence| |by destruct w].
  unfold addr_of, v, PHYS_BASE. destruct w; lia.
Qed.

(** Two directories that have no page in common. *)
Record apart (r : pages) (pd pd' : Z) : Prop := {
  ap_pd : pd ≠ pd';
  ap_table : ∀ i, 0 ≤ i < USER_PDES → pde_at (bytes r) pd i ≠ 0 → pd' ≠ table (bytes r) pd i;
  ap_table' : ∀ i, 0 ≤ i < USER_PDES → pde_at (bytes r) pd' i ≠ 0 → table (bytes r) pd' i ≠ pd;
  ap_tables : ∀ i j, 0 ≤ i < USER_PDES → 0 ≤ j < USER_PDES →
    pde_at (bytes r) pd i ≠ 0 → pde_at (bytes r) pd' j ≠ 0 → table (bytes r) pd' j ≠ table (bytes r) pd i
}.

(** What changes the tables of [pd] only leaves those of [pd'] alone. *)
Lemma frame_pte r r' pd pd' va :
  pd_frame pd r r' → pd_ok r pd' → apart r pd pd' → 0 ≤ va < PHYS_BASE →
  pte_of (bytes r') pd' va = pte_of (bytes r) pd' va.
Proof.
  intros [_ _ _ Hb] Hpd' [Hne Ht Ht' Htt] Hva. symmetry. pose proof (pd_index va Hva) as Hi.
  pose proof Hi as Hi'. unfold USER_PDES in Hi'. apply pte_of_agree.
  - intros x Hx. symmetry. apply (Hb pd'); [apply Hpd'|done|done|lia].
  - intros Hn x Hx. symmetry. pose proof (pt_index va).
    apply (Hb (table (bytes r) pd' (pd_no va))); [|by apply Ht'| |lia].
    + by apply (pd_tables _ _ Hpd').
    + intros i ??. by apply Htt.
Qed.

(** ** The TLB *)

(** A cached entry [e] is still right for the entry [c] of the tables: it is
    present and maps the same frame with the same rights, and it is marked
    accessed or dirty only if [c] is. *)
Record covers (e c : Z) : Prop := {
  cv_present : Z.land e PTE_P ≠ 0;
  cv_same : Z.land e 0xfffff007 = Z.land c 0xfffff007;
  cv_marks : Z.land (Z.land e 0x60) c = Z.land e 0x60
}.
(** The TLB holds right entries of the active directory only. *)
Definition tlb_ok (σ : mmu) : Prop := ∀ vpn e,
  0 ≤ 4096 * vpn < PHYS_BASE → tlb σ !! vpn = Some e →
  covers e (pte_of (bytes (ram σ)) (cr3 σ + PHYS_BASE) (4096 * vpn)).

Lemma covers_present e c : covers e c → Z.land c PTE_P ≠ 0.
Proof.
  intros [Hp Hs _]. apply (f_equal (λ x, Z.land x PTE_P)) in Hs.
  rewrite <-!Z.land_assoc in Hs. change (Z.land 0xfffff007 PTE_P) with PTE_P in Hs. congruence.
Qed.

Lemma covers_mark e c fl : fl = PTE_A ∨ fl = PTE_D → covers e c → covers e (Z.lor c fl).
Proof.
  intros Hfl [Hp Hs Hm]. split; [done| |].
  - rewrite Hs, Z.land_lor_distr_l. destruct Hfl; subst; [by rewrite Z.lor_0_r|by rewrite Z.lor_0_r].
  - rewrite Z.land_lor_distr_r, Hm. set (x := Z.land e 0x60). apply Z.bits_inj_iff'. intros k Hk.
    rewrite Z.lor_spec, Z.land_spec. by destruct (Z.testbit x k).
Qed.

Lemma tlb_flushed pd σ :
  (cr3 σ + PHYS_BASE = pd ∨ tlb_ok σ) → tlb_ok (flushed pd σ).
Proof.
  intros H. unfold flushed. case_decide; [|naive_solver]. intros vpn e _. simpl. by rewrite lookup_empty.
Qed.

(** A change of the tables that the TLB survives: entries of another directory,
    or an entry that the cached ones still cover. *)
Lemma tlb_pte_set σ pd va v r :
  tlb_ok σ → pd_ok (ram σ) (cr3 σ + PHYS_BASE) → pte_set pd va v (ram σ) r → 0 ≤ va < PHYS_BASE →
  apart (ram σ) pd (cr3 σ + PHYS_BASE) ∨
    pd = cr3 σ + PHYS_BASE ∧ (∀ e, covers e (pte_of (bytes (ram σ)) pd va) → covers e v) →
  tlb_ok (with_ram r σ).
Proof.
  intros Htlb Hact [_ Hfr Hp] Hva Hcase vpn e Hvpn Hin. simpl in *. pose proof (Htlb vpn e Hvpn Hin) as Hc.
  destruct Hcase as [Hap|[-> Hcov]].
  - by rewrite (frame_pte (ram σ) r pd).
  - rewrite Hp by done. case_decide as E; [|done]. apply Hcov.
    rewrite <-(pte_of_page _ _ va) by lia. rewrite <-E. by replace (4096 * vpn / 4096) with vpn by lia.
Qed.

(** ** The theorems *)

Lemma get_page_maps σ pd va :
  pd_ok (ram σ) pd → 0 ≤ va < PHYS_BASE →
  pagedir_get_page pd va σ =
    Ok (match maps (ram σ) pd (va / 4096) with Some (k, _) => k + va mod 4096 | None => NULL end, σ).
Proof.
  intros Hpd Hva. pose proof (wp_pagedir_get_page σ pd va (λ p σ', σ' = σ ∧ p =
    match maps (ram σ) pd (va / 4096) with Some (k, _) => k + va mod 4096 | None => NULL end) Hpd Hva) as H.
  unfold maps in *. rewrite pte_of_page in * by lia. simpl in H.
  destruct (decide (Z.land (pte_of (bytes (ram σ)) pd va) PTE_P = 0)); apply wp_ok in H as (p & σ' & E & -> & ->);
    done.
Qed.

(** C8: pagedir_set_page extends the directory, as a map from user pages to
    frames, by the new mapping and changes no other one, or, only when the kernel
    pool has no page for a new page table, returns false and changes nothing; it
    panics if the page is mapped already.  pagedir_get_page looks the map up. *)
Theorem pagedir_set_page_correct (σ : mmu) (pd upage kpage : Z) (w : bool) :
  pd_ok (ram σ) pd → pd ≠ init_page_dir σ → upage mod 4096 = 0 → 0 ≤ upage < PHYS_BASE →
  kpage mod 4096 = 0 → PHYS_BASE ≤ kpage → kpage + 4096 ≤ ram_end (ram σ) →
  wpp (pagedir_set_page pd upage kpage w) σ
    (λ ok σ',
       ok = false ∧ σ' = σ ∧ exhausted (ram σ) false 1 ∨
       ok = true ∧ maps (ram σ) pd (upage / 4096) = None ∧ pd_ok (ram σ') pd ∧
         (∀ vpn, 0 ≤ 4096 * vpn < PHYS_BASE → maps (ram σ') pd vpn =
            if decide (vpn = upage / 4096) then Some (kpage, w) else maps (ram σ) pd vpn) ∧
         (∀ va, 0 ≤ va < PHYS_BASE → pagedir_get_page pd va σ' =
            Ok (match maps (ram σ') pd (va / 4096) with
                | Some (k, _) => k + va mod 4096 | None => NULL end, σ')))
    (maps (ram σ) pd (upage / 4096) ≠ None).
Proof.
  intros Hpd Hinit Hu Hu' Hk Hk1 Hk2. assert (maps (ram σ) pd (upage / 4096) =
    let e := pte_of (bytes (ram σ)) pd upage in
    if decide (Z.land e PTE_P = 0) then None else Some (addr_of e, negb (Z.land e PTE_W =? 0))) as Em.
  { unfold maps. by rewrite pte_of_page by lia. }
  simpl in Em. destruct (decide (Z.land (pte_of (bytes (ram σ)) pd upage) PTE_P = 0)) as [E|E].
  - apply wpp_wp, wp_pagedir_set_page; [done..| |by left]. intros r Hr. right.
    destruct (user_entry kpage w Hk Hk1) as (Ep & Ea & Ew). split_and!; [done..|apply Hr| |].
    + intros vpn Hvpn. simpl. rewrite (pte_set_maps _ _ _ _ _ _ Hr Hu' Hvpn).
      rewrite (decide_False (P := Z.land _ _ = 0)) by done. by rewrite Ea, Ew.
    + intros va Hva. apply get_page_maps; [apply Hr|done].
  - unfold pagedir_set_page. pose proof (pk_ram _ (pd_palloc _ _ Hpd)) as Hr.
    assert (ram_end (ram σ) = PHYS_BASE + 4096 * init_ram_pages (ram σ)) as Er by done.
    apply wpp_bind, wp_assert; [by rewrite pg_ofs_mod, Hu|].
    apply wpp_bind, wp_assert; [by rewrite pg_ofs_mod, Hk|].
    apply wpp_bind, wp_assert; [apply Z.ltb_lt, Hu'|].
    apply wpp_bind, wp_vtop; [unfold PHYS_BASE in *; lia|]. apply wpp_bind, wp_gets.
    apply wpp_bind, wp_assert.
    { apply Z.ltb_lt. change PTSHIFT with 12. rewrite Z.shiftr_div_pow2 by done. change (2 ^ 12) with 4096. lia. }
    apply wpp_bind, wp_gets, wpp_bind, wp_assert; [by apply negb_true_iff, Z.eqb_neq|].
    assert (pde_at (bytes (ram σ)) pd (pd_no upage) ≠ 0) as Hde.
    { intros Hde. apply E. unfold pte_of. by rewrite Hde. }
    apply wpp_bind, wp_lookup_find; [done..|]. rewrite slot_nonnull by done. simpl negb. cbv iota.
    apply wpp_bind, wp_load_pte; [done..|]. rewrite (proj2 (Z.eqb_neq _ _) E). simpl. by rewrite Em.
Qed.

(** The operations that change entries of page tables. *)
Inductive pd_op :=
| OpSet (upage kpage : Z) (writable : bool)
| OpClear (upage : Z)
| OpDirty (vpage : Z) (dirty : bool)
| OpAccessed (vpage : Z) (accessed : bool).
Definition run_op (pd : Z) (op : pd_op) : M mmu unit :=
  match op with
  | OpSet upage kpage w => _ ← pagedir_set_page pd upage kpage w; mret tt
  | OpClear upage => pagedir_clear_page pd upage
  | OpDirty vpage b => pagedir_set_dirty pd vpage b
  | OpAccessed vpage b => pagedir_set_accessed pd vpage b
  end.
(** What the callers of an operation have to establish. *)
Definition op_ok (σ : mmu) (pd : Z) (op : pd_op) : Prop :=
  match op with
  | OpSet upage kpage _ =>
    pd ≠ init_page_dir σ ∧ upage mod 4096 = 0 ∧ 0 ≤ upage < PHYS_BASE ∧
    kpage mod 4096 = 0 ∧ PHYS_BASE ≤ kpage ∧ kpage + 4096 ≤ ram_end (ram σ) ∧
    maps (ram σ) pd (upage / 4096) = None
  | OpClear upage => upage mod 4096 = 0 ∧ 0 ≤ upage < PHYS_BASE
  | OpDirty vpage _ | OpAccessed vpage _ => 0 ≤ vpage < PHYS_BASE
  end.

(** An operation changes at most one entry; unless it flushes the TLB, cached
    entries stay right. *)
Definition op_effect (pd : Z) (σ σ' : mmu) : Prop :=
  σ' = σ ∨ ∃ va v r, 0 ≤ va < PHYS_BASE ∧ pte_set pd va v (ram σ) r ∧
    (σ' = flushed pd (with_ram r σ) ∨
     σ' = with_ram r σ ∧ ∀ e, covers e (pte_of (bytes (ram σ)) pd va) → covers e v).

Lemma wp_run_op σ pd op :
  pd_ok (ram σ) pd → 0 ≤ cr3 σ < 2 ^ 32 - PHYS_BASE → op_ok σ pd op →
  wp (run_op pd op) σ (λ _ σ', op_effect pd σ σ').
Proof.
  intros Hpd Hcr. destruct op as [upage kpage w|upage|va b|va b]; simpl.
  - intros (? & ? & Hu & ? & ? & ? & Hm). unfold maps in Hm. rewrite pte_of_page in Hm by lia.
    simpl in Hm. destruct (decide (Z.land (pte_of (bytes (ram σ)) pd upage) PTE_P = 0)) as [E|]; [|done].
    wp_step. apply wp_pagedir_set_page; [done..| |by left]. intros r Hr. wp_step. right.
    eexists upage, _, r. split; [done|]. split; [done|]. right. split; [done|].
    intros e He. by apply covers_present in He.
  - intros [Ha Hva]. apply wp_pagedir_clear_page; [done..| |by left].
    intros r _ Hr. right. eexists upage, _, r. naive_solver.
  - intros Hva. apply wp_pagedir_set; [done..|by right| |by left]. intros r _ Hr. right.
    eexists va, _, r. split; [done|]. split; [done|]. destruct b; [right|by left].
    split; [done|]. intros e. apply covers_mark. by right.
  - intros Hva. apply wp_pagedir_set; [done..|by left| |by left]. intros r _ Hr. right.
    eexists va, _, r. split; [done|]. split; [done|]. destruct b; [right|by left].
    split; [done|]. intros e. apply covers_mark. by left.
Qed.

(** C9: An operation on one directory changes no mapping of a directory that
    shares no page with it: processes do not see each other's page tables. *)
Theorem pagedir_isolation (σ : mmu) (pd pd' : Z) (op : pd_op) :
  pd_ok (ram σ) pd → pd_ok (ram σ) pd' → apart (ram σ) pd pd' →
  0 ≤ cr3 σ < 2 ^ 32 - PHYS_BASE → op_ok σ pd op →
  wp (run_op pd op) σ (λ _ σ',
    ∀ vpn, 0 ≤ 4096 * vpn < PHYS_BASE → maps (ram σ') pd' vpn = maps (ram σ) pd' vpn).
Proof.
  intros Hpd Hpd' Hap Hcr Hop. eapply wp_mono; [by apply wp_run_op|]. simpl.
  intros _ σ' [->|(va & v & r & Hva & Hr & Hσ)] vpn Hvpn; [done|].
  assert (ram σ' = r) as ->.
  { destruct Hσ as [->|[-> _]]; [|done]. unfold flushed. by case_decide. }
  unfold maps. by rewrite (frame_pte (ram σ) r pd pd') by (done || apply Hr).
Qed.

(** C33: The operations keep the TLB consistent: an entry that the processor may
    have cached for the active directory still maps the same frame with the same
    rights as the tables do, and is dirty or accessed only if it is there. *)
Theorem pagedir_tlb_consistent (σ : mmu) (pd : Z) (op : pd_op) :
  pd_ok (ram σ) pd → pd_ok (ram σ) (cr3 σ + PHYS_BASE) →
  pd = cr3 σ + PHYS_BASE ∨ apart (ram σ) pd (cr3 σ + PHYS_BASE) →
  0 ≤ cr3 σ < 2 ^ 32 - PHYS_BASE → op_ok σ pd op → tlb_ok σ →
  wp (run_op pd op) σ (λ _ σ', tlb_ok σ').
Proof.
  intros Hpd Hact Hcase Hcr Hop Htlb. eapply wp_mono; [by apply wp_run_op|]. simpl.
  intros _ σ' [->|(va & v & r & Hva & Hr & [->|[-> Hcov]])]; [done|..].
  - apply tlb_flushed. destruct Hcase as [->|Hap]; [by left|right].
    eapply tlb_pte_set; [done..|by left].
  - eapply tlb_pte_set; [done..|]. destruct Hcase as [->|Hap]; [by right|by left].
Qed.

(** C34: pagedir_destroy frees exactly the pages of the directory: the frames it
    maps, its page tables and the directory itself; the contents of all other
    pages stay. *)
Theorem pagedir_destroy_correct (σ : mmu) (pd : Z) :
  palloc_ok (ram σ) → owns (ram σ) pd → pd ≠ init_page_dir σ →
  wp (pagedir_destroy pd) σ (λ _ σ', palloc_ok (ram σ') ∧
    (∀ pn, used (ram σ') pn = used (ram σ) pn && bool_decide (4096 * pn ∉ pd_pages (bytes (ram σ)) pd)) ∧
    (∀ q, q mod 4096 = 0 → q ∉ pd_pages (bytes (ram σ)) pd →
       agree q 4096 (bytes (ram σ')) (bytes (ram σ)))).
Proof.
  intros Hok Hown Hinit. apply wp_pagedir_destroy; [done..|]. intros r []. done.
Qed.

(** A new directory is a copy of the initial one: its kernel entries are
    those of init_page_dir, and it maps no user page; no page in use is touched. *)
Theorem pagedir_create_correct (σ : mmu) :
  palloc_ok (ram σ) → page_ok (ram σ) (init_page_dir σ) →
  (∀ i, 0 ≤ i < USER_PDES → pde_at (bytes (ram σ)) (init_page_dir σ) i = 0) →
  wp pagedir_create σ (λ pd σ',
    pd = NULL ∧ σ' = σ ∧ exhausted (ram σ) false 1 ∨
    used (ram σ) (pd / 4096) = false ∧ pd_ok (ram σ') pd ∧
      (∀ vpn, 0 ≤ 4096 * vpn < PHYS_BASE → maps (ram σ') pd vpn = None) ∧
      (∀ i, 0 ≤ i < 1024 →
         pde_at (bytes (ram σ')) pd i = pde_at (bytes (ram σ)) (init_page_dir σ) i) ∧
      (∀ q, page_ok (ram σ) q → page_ok (ram σ') q ∧ agree q 4096 (bytes (ram σ')) (bytes (ram σ)))).
Proof.
  intros Hok Hinit Hz. unfold pagedir_create. wp_step. apply wp_on_ram, (wp_wpp _ _ _ False); [tauto|].
  apply wpp_palloc_get_multiple; [done..| |lia| |done].
  2: { intros Hex _. rewrite with_ram_same. repeat wp_step. by left. }
  intros pd r1 _ Hl Hh Hg. rewrite (proj2 (Z.eqb_neq pd NULL)) by (unfold PHYS_BASE, NULL in *; lia).
  simpl negb. cbv iota. repeat wp_step. pose proof (ram_end_new _ _ _ _ Hg) as Er.
  pose proof (λ q, old_page _ _ _ _ q Hg) as Hold. pose proof Hinit as [Ha0 Hl0 Hh0 _].
  apply wp_on_ram, wp_memcpy_ram; [done|simpl; rewrite PGSIZE_eq; lia|done|simpl; rewrite PGSIZE_eq; lia|].
  wp_step. simpl. rewrite PGSIZE_eq. destruct Hg as [_ _ Ha Hfree [Hok1 _ _ _ Hin Hout Eb]].
  simpl in Eb. rewrite Eb. set (f := copy _ _ _ _). right.
  assert (∀ i, 0 ≤ i < 1024 → pde_at f pd i = pde_at (bytes (ram σ)) (init_page_dir σ) i) as Hpde.
  { intros i Hi. unfold pde_at, f. apply word_at_copy; lia. }
  assert (∀ i, 0 ≤ i < USER_PDES → pde_at f pd i = 0) as Hpde0.
  { intros i Hi. rewrite Hpde, Hz by (unfold USER_PDES in *; lia). done. }
  assert (∀ va, 0 ≤ va < PHYS_BASE → pte_of f pd va = 0) as Hpte.
  { intros va Hva. unfold pte_of. by rewrite Hpde0 by by apply pd_index. }
  split_and!.
  - apply Hfree. lia.
  - split; simpl.
    + by apply palloc_ok_bytes.
    + split; [done..|unfold ram_end in *; simpl; lia|]. apply Hin. lia.
    + intros i Hi. by rewrite Hpde0.
    + intros i j Hi Hj. by rewrite Hpde0.
    + intros va Hva. by rewrite Hpte.
  - intros vpn Hvpn. unfold maps. simpl. by rewrite Hpte.
  - done.
  - intros q Hq. destruct (Hold q Hq) as [Hne Hq1]. split; [by destruct Hq1|].
    apply copy_agree. pose proof (pg_align _ _ Hq) as Hqa. destruct (pages_apart _ _ Ha Hqa); [congruence|lia..].
Qed.

(** ** An example: two directories, one of which maps the page at 0x5000 *)

Definition ex_bytes : Z → Z :=
  put_word 0xc0103014 0x108007 (put_word 0xc0101000 0x103007 (λ _, 0)).
Definition ex_ram : pages :=
  mk_pages 266 ex_bytes (mk_pool false (mk_bitmap 6 [7]) 0xc0101000)
    (mk_pool false (mk_bitmap 2 [1]) 0xc0108000).
Definition ex_mmu : mmu := mk_mmu ex_ram 0xc0100000 0x101000 {[5 := 0x108007]}.

Lemma ex_palloc : palloc_ok ex_ram.
Proof.
  split; [done| | |done]; (split; [done| |done..]; split; [done..|by repeat constructor]).
Qed.

Lemma ex_word a : a mod 4 = 0 → word_at ex_bytes a =
  if decide (a = 0xc0103014) then 0x108007 else if decide (a = 0xc0101000) then 0x103007 else 0.
Proof.
  intros Ha. unfold ex_bytes. case_decide as E; [subst; by apply word_at_put|].
  rewrite word_at_put_ne by done. case_decide as E'; [subst; by apply word_at_put|].
  by rewrite word_at_put_ne.
Qed.

Lemma ex_pde pd i : pd = 0xc0101000 ∨ pd = 0xc0102000 → 0 ≤ i < USER_PDES →
  pde_at ex_bytes pd i = if decide (pd = 0xc0101000 ∧ i = 0) then 0x103007 else 0.
Proof.
  unfold USER_PDES, pde_at. intros [->| ->] Hi; rewrite ex_word by lia; repeat case_decide; done || lia.
Qed.

Lemma ex_pd_ok pd : pd = 0xc0101000 ∨ pd = 0xc0102000 → pd_ok ex_ram pd.
Proof.
  intros Hpd. split.
  - apply ex_palloc.
  - by destruct Hpd as [->| ->].
  - intros i Hi. unfold table. simpl. rewrite ex_pde by done. case_decide as E; [|done].
    intros _. destruct E as [-> ->]. split_and!; done.
  - intros i j Hi Hj. simpl. rewrite !ex_pde by done.
    destruct (decide (pd = _ ∧ i = 0)) as [[_ ->]|]; [|done].
    by destruct (decide (pd = _ ∧ j = 0)) as [[_ ->]|].
  - intros va Hva. unfold pte_of. simpl. rewrite ex_pde by (done || by apply pd_index).
    unfold table. rewrite ex_pde by (done || by apply pd_index). repeat case_decide; [|done].
    simpl Z.eqb. cbv iota. change (addr_of 0x103007) with 0xc0103000. rewrite ex_word by lia.
    repeat case_decide; [done|pose proof (pt_index va); lia|done].
Qed.

Lemma ex_apart : apart ex_ram 0xc0102000 0xc0101000.
Proof.
  split; [done|..]; intros i; intros; simpl in *; rewrite ?ex_pde in * by auto; try done.
  unfold table in *. rewrite ex_pde by auto. case_decide; [|done]. done.
Qed.

Lemma pagedir_set_page_correct_witness :
  wpp (pagedir_set_page 0xc0102000 0x400000 0xc0108000 true) ex_mmu
    (λ ok σ',
       ok = false ∧ σ' = ex_mmu ∧ exhausted ex_ram false 1 ∨
       ok = true ∧ maps ex_ram 0xc0102000 (0x400000 / 4096) = None ∧ pd_ok (ram σ') 0xc0102000 ∧
         (∀ vpn, 0 ≤ 4096 * vpn < PHYS_BASE → maps (ram σ') 0xc0102000 vpn =
            if decide (vpn = 0x400000 / 4096) then Some (0xc0108000, true) else maps ex_ram 0xc0102000 vpn) ∧
         (∀ va, 0 ≤ va < PHYS_BASE → pagedir_get_page 0xc0102000 va σ' =
            Ok (match maps (ram σ') 0xc0102000 (va / 4096) with
                | Some (k, _) => k + va mod 4096 | None => NULL end, σ')))
    (maps ex_ram 0xc0102000 (0x400000 / 4096) ≠ None) ∧
  match pagedir_set_page 0xc0102000 0x400000 0xc0108000 true ex_mmu with
  | Ok (ok, σ') => ok = true ∧ maps (ram σ') 0xc0102000 1024 = Some (0xc0108000, true)
  | _ => False
  end.
Proof.
  split; [|by vm_compute].
  apply (pagedir_set_page_correct ex_mmu 0xc0102000 0x400000 0xc0108000 true); try done.
  by apply ex_pd_ok; right.
Defined.

Lemma pagedir_isolation_witness :
  wp (run_op 0xc0102000 (OpSet 0x5000 0xc0109000 false)) ex_mmu (λ _ σ',
    ∀ vpn, 0 ≤ 4096 * vpn < PHYS_BASE → maps (ram σ') 0xc0101000 vpn = maps ex_ram 0xc0101000 vpn) ∧
  maps ex_ram 0xc0101000 5 = Some (0xc0108000, true).
Proof.
  split; [|done]. apply (pagedir_isolation ex_mmu 0xc0102000 0xc0101000); try done.
  - by apply ex_pd_ok; right.
  - by apply ex_pd_ok; left.
  - apply ex_apart.
Defined.

Lemma pagedir_tlb_consistent_witness :
  wp (run_op 0xc0101000 (OpClear 0x5000)) ex_mmu (λ _ σ', tlb_ok σ') ∧ tlb ex_mmu ≠ ∅.
Proof.
  split; [|done]. apply (pagedir_tlb_consistent ex_mmu 0xc0101000 (OpClear 0x5000)); try done.
  - by apply ex_pd_ok; left.
  - by apply (ex_pd_ok 0xc0101000); left.
  - by left.
  - intros vpn e Hvpn Hin. simpl in Hin. apply lookup_singleton_Some in Hin as [<- <-]. by split; vm_compute.
Defined.

Lemma pagedir_destroy_correct_witness :
  wp (pagedir_destroy 0xc0101000) ex_mmu (λ _ σ', palloc_ok (ram σ') ∧
    (∀ pn, used (ram σ') pn =
       used ex_ram pn && bool_decide (4096 * pn ∉ pd_pages ex_bytes 0xc0101000)) ∧
    (∀ q, q mod 4096 = 0 → q ∉ pd_pages ex_bytes 0xc0101000 →
       agree q 4096 (bytes (ram σ')) ex_bytes)) ∧
  pd_pages ex_bytes 0xc0101000 = [0xc0108000; 0xc0103000; 0xc0101000].
Proof.
  assert (pd_pages ex_bytes 0xc0101000 = [0xc0108000; 0xc0103000; 0xc0101000]) as E by by vm_compute.
  split; [|done]. apply (pagedir_destroy_correct ex_mmu 0xc0101000); [apply ex_palloc| |done].
  change (owns ex_ram 0xc0101000). unfold owns. change (bytes ex_ram) with ex_bytes. rewrite E. split.
  - by apply (bool_decide_unpack _); vm_compute.
  - by repeat constructor.
Defined.

Lemma pagedir_create_correct_witness :
  let σ := mk_mmu ex_ram 0xc0102000 0x101000 ∅ in
  wp pagedir_create σ (λ pd σ',
    pd = NULL ∧ σ' = σ ∧ exhausted ex_ram false 1 ∨
    used ex_ram (pd / 4096) = false ∧ pd_ok (ram σ') pd ∧
      (∀ vpn, 0 ≤ 4096 * vpn < PHYS_BASE → maps (ram σ') pd vpn = None) ∧
      (∀ i, 0 ≤ i < 1024 → pde_at (bytes (ram σ')) pd i = pde_at ex_bytes 0xc0102000 i) ∧
      (∀ q, page_ok ex_ram q → page_ok (ram σ') q ∧ agree q 4096 (bytes (ram σ')) ex_bytes)).
Proof.
  apply (pagedir_create_correct (mk_mmu ex_ram 0xc0102000 0x101000 ∅)).
  - apply ex_palloc.
  - apply (pd_page _ _ (ex_pd_ok 0xc0102000 (or_intror eq_refl))).
  - intros i Hi. simpl. by rewrite ex_pde by auto.
Defined.
