(* ===== verification/Paging.v ===== *)
(** * The kernel's page tables: paging_init () of threads/init.c

    paging_init () builds the base page directory, which every process copies, from
    pages of the allocator.  The theorem says what the tables map when it is done. *)

From S2P Require Import Prelude Bitmap Vaddr Palloc Ram Pagedir.
Local Open Scope Z_scope.
Local Ltac Zify.zify_post_hook ::= Z.div_mod_to_equations.

Section paging.
(** &_start and &_end_kernel_text, from the linker. *)
Context (start end_kernel_text : Z).

(** for (page = 0; page < init_ram_pages; page++), [n] iterations left. *)
Fixpoint paging_loop (n : nat) (page pd pt : Z) : M pages unit :=
  match n with
  | O => mret tt
  | S n =>
    let paddr := u32 (page * PGSIZE) in
    vaddr ← ptov paddr;
    let pde_idx := pd_no vaddr in
    let pte_idx := pt_no vaddr in
    let in_kernel_text := (start <=? vaddr) && (vaddr <? end_kernel_text) in
    e ← load_word (pd + 4 * pde_idx);
    pt ← (if e =? 0 then
            pt ← palloc_get_page (Z.lor PAL_ASSERT PAL_ZERO);
            d ← pde_create pt;
            store_word (pd + 4 * pde_idx) d;;
            mret pt
          else mret pt);
    e ← pte_create_kernel vaddr (negb in_kernel_text);
    store_word (pt + 4 * pte_idx) e;;
    paging_loop n (page + 1) pd pt
  end.
Definition paging_init : M mmu unit :=
  pd ← on_ram (palloc_get_page (Z.lor PAL_ASSERT PAL_ZERO));
  modify (λ σ, mk_mmu (ram σ) pd (cr3 σ) (tlb σ));;
  n ← gets (λ σ, init_ram_pages (ram σ));
  on_ram (paging_loop (Z.to_nat n) 0 pd NULL);;
  p ← vtop pd;
  load_cr3 p.

(** The entry for page [k] of RAM. *)
Definition kernel_entry (k : Z) : Z :=
  4096 * k + (if (start <=? PHYS_BASE + 4096 * k) && (PHYS_BASE + 4096 * k <? end_kernel_text) then 1 else 3).

(** ** Counting free pages *)

(** Free pages of the kernel pool. *)
Definition free_pages (r : pages) : list Z :=
  filter (λ pn, used r pn = false) (seqZ (first_page (kernel_pool r)) (bit_cnt (used_map (kernel_pool r)))).
Lemma filter_one `{EqDecision A} (P Q : A → Prop) `{!∀ x, Decision (P x), !∀ x, Decision (Q x)} (l : list A) a :
  NoDup l → a ∈ l → P a → (∀ x, Q x ↔ P x ∧ x ≠ a) → length (filter P l) = S (length (filter Q l)).
Proof.
  intros Hl Ha HP HQ. induction Hl as [|x l Hx Hl IH]; [by apply elem_of_nil in Ha|].
  rewrite !filter_cons. destruct (decide (x = a)) as [->|Hne].
  - rewrite decide_True by done. rewrite decide_False by (rewrite HQ; naive_solver). simpl. f_equal. f_equal.
    clear -HQ Hx. induction l as [|y l IH]; [done|]. rewrite !filter_cons.
    rewrite not_elem_of_cons in Hx. rewrite IH by naive_solver.
    destruct (decide (P y)), (decide (Q y)); naive_solver.
  - apply elem_of_cons in Ha as [->|Ha]; [done|]. specialize (IH Ha).
    destruct (decide (P x)), (decide (Q x)); simpl; rewrite ?IH; naive_solver.
Qed.
Lemma free_pages_granted r r1 p f : granted false p 1 f r r1 → length (free_pages r) = S (length (free_pages r1)).
Proof.
  intros [Hb He Ha Hf [_ _ [Ek Ec] _ Hin Hout _]]. unfold free_pages, first_page. rewrite Ek, Ec.
  apply (filter_one _ _ _ (p / 4096)).
  - apply NoDup_seqZ.
  - apply elem_of_seqZ. simpl in *. lia.
  - apply Hf. lia.
  - intros x. destruct (decide (x = p / 4096)) as [->|]; [rewrite Hin by lia; naive_solver|].
    rewrite Hout by lia. naive_solver.
Qed.
Lemma free_pages_exhausted r : palloc_ok r → exhausted r false 1 → length (free_pages r) = 0%nat.
Proof.
  intros Hok Hex. destruct (free_pages r) as [|pn l] eqn:E; [done|]. exfalso.
  assert (pn ∈ free_pages r) as Hp by (rewrite E; apply elem_of_cons; by left).
  apply list_elem_of_filter in Hp as [Hu Hp]. apply elem_of_seqZ in Hp. apply (Hex pn); [simpl; lia|simpl; lia|].
  intros q Hq. by replace q with pn by lia.
Qed.

(** ** The invariant of the loop *)

(** Below [page] everything is entered, in the tables [ts] of the directory [pd]; what
    was in use before, in [r0], is as it was. *)
Record tables_upto (r0 : pages) (page pd : Z) (ts : list Z) (r : pages) : Prop := {
  tu_palloc : palloc_ok r;
  tu_ram : init_ram_pages r = init_ram_pages r0;
  tu_pages : ∀ p, p ∈ pd :: ts → page_ok r p;
  tu_nodup : NoDup (pd :: ts);
  tu_pdes j : 0 ≤ j < 1024 → word_at (bytes r) (pd + 4 * j) =
    match (if 768 <=? j then ts !! Z.to_nat (j - 768) else None) with Some t => t - PHYS_BASE + 7 | None => 0 end;
  tu_ptes k t : 0 ≤ k → ts !! Z.to_nat (k / 1024) = Some t →
    word_at (bytes r) (t + 4 * (k mod 1024)) = if k <? page then kernel_entry k else 0;
  tu_old p : page_ok r0 p → page_ok r p ∧ p ∉ pd :: ts ∧ agree p 4096 (bytes r) (bytes r0);
}.
Lemma page_ok_bytes f r p : page_ok (set_bytes f r) p ↔ page_ok r p.
Proof. split; by intros []. Qed.
Lemma page_word_ne r p q a v f k : page_ok r p → page_ok r q → p ≠ q → 0 ≤ a < 1024 → 0 ≤ k < 1024 →
  word_at (put_word (p + 4 * a) v f) (q + 4 * k) = word_at f (q + 4 * k).
Proof.
  intros [Hp _ _ _] [Hq _ _ _] Hne Ha Hk. apply word_at_put_ne; [|lia..].
  destruct (pages_apart _ _ Hp Hq Hne); lia.
Qed.
Lemma page_agree_put r p q a v f : page_ok r p → page_ok r q → p ≠ q → 0 ≤ a < 1024 →
  agree q 4096 (put_word (p + 4 * a) v f) f.
Proof. intros [Hp _ _ _] [Hq _ _ _] Hne Ha. apply put_word_agree. destruct (pages_apart _ _ Hp Hq Hne); lia. Qed.
Lemma page_agree_fill p q f : p mod 4096 = 0 → q mod 4096 = 0 → p ≠ q → agree q 4096 (fill p 4096 0 f) f.
Proof. intros Hp Hq Hne. apply fill_agree. destruct (pages_apart _ _ Hp Hq Hne); lia. Qed.

(** Storing the entry of a page. *)
Lemma tables_upto_store r0 page pd ts t r : tables_upto r0 page pd ts r → 0 ≤ page → page < 2 ^ 18 →
  ts !! Z.to_nat (page / 1024) = Some t →
  tables_upto r0 (page + 1) pd ts
    (set_bytes (put_word (t + 4 * (page mod 1024)) (kernel_entry page) (bytes r)) r).
Proof.
  intros [Hok Hram Hpg Hnd Hpd Hpt Hold] Hp Hp' Ht.
  assert (t ∈ pd :: ts) as Htin by (apply elem_of_cons; right; by eapply list_elem_of_lookup_2).
  assert (t ≠ pd) as Hne. { intros ->. apply NoDup_cons in Hnd as [Hn _]. apply Hn. by eapply list_elem_of_lookup_2. }
  split; simpl; try setoid_rewrite page_ok_bytes.
  - by apply palloc_ok_bytes.
  - done.
  - done.
  - done.
  - intros j Hj. rewrite <-Hpd by done. apply (page_word_ne r); [by apply Hpg|apply Hpg, elem_of_cons; by left|done|lia|done].
  - intros k u Hk Hu. destruct (decide (k = page)) as [->|Hkp].
    + replace u with t by congruence. rewrite (proj2 (Z.ltb_lt _ _)) by lia. apply word_at_put.
      unfold kernel_entry. destruct (_ && _); lia.
    + replace (k <? page + 1) with (k <? page) by lia. rewrite <-(Hpt k u) by done.
      assert (u ∈ pd :: ts) as Huin by (apply elem_of_cons; right; by eapply list_elem_of_lookup_2).
      destruct (decide (u = t)) as [->|Hut]; [|by apply (page_word_ne r); [apply Hpg..|done|lia|lia]].
      pose proof (pg_align _ _ (Hpg t Htin)). apply word_at_put_ne; [|lia..].
      intros E. apply Hkp. assert (Z.to_nat (k / 1024) = Z.to_nat (page / 1024)); [|lia].
      apply (NoDup_lookup ts _ _ t); [by apply NoDup_cons in Hnd as [_ ?]|done|done].
  - intros p Hpo. destruct (Hold p Hpo) as (H1 & H2 & H3). split; [done|]. split; [done|].
    eapply agree_trans; [|done]. apply (page_agree_put r); [by apply Hpg|done| |lia]. intros ->. by apply H2.
Qed.
(** The page that is granted. *)
Lemma table_page r r1 t f : granted false t 1 f r r1 → PHYS_BASE ≤ t → t + 4096 ≤ ram_end r → page_ok r1 t.
Proof.
  intros Hg Hl Hh. pose proof (ram_end_new _ _ _ _ Hg) as Er. destruct Hg as [_ _ Ha _ [_ _ _ _ Hin _ _]].
  split; [done|done|lia|]. apply Hin. lia.
Qed.
(** A new, empty table. *)
Lemma tables_upto_new r0 page pd ts r r1 t : tables_upto r0 page pd ts r → 0 ≤ page < 2 ^ 18 → page mod 1024 = 0 →
  length ts = Z.to_nat (page / 1024) → granted false t 1 (fill t 4096 0 (bytes r)) r r1 →
  PHYS_BASE ≤ t → t + 4096 ≤ ram_end r → ram_end r < 2 ^ 32 →
  tables_upto r0 page pd (ts ++ [t])
    (set_bytes (put_word (pd + 4 * (768 + page / 1024)) (t - PHYS_BASE + 7) (bytes r1)) r1).
Proof.
  intros [Hok Hram Hpg Hnd Hpd Hpt Hold] Hp Hm Hl Hg Ht1 Ht2 Hr.
  pose proof (table_page _ _ _ _ Hg Ht1 Ht2) as Ht.
  assert (∀ p, page_ok r p → p ≠ t ∧ page_ok r1 p) as Hot by (intros p; by apply (old_page _ _ _ _ p Hg)).
  assert (page_ok r pd) as Hpdr by (apply Hpg, elem_of_cons; by left). destruct (Hot pd Hpdr) as [Hpt' Hpd1].
  assert (bytes r1 = fill t 4096 0 (bytes r)) as Eb by apply Hg. rewrite Eb.
  assert (∀ q, page_ok r q → agree q 4096 (fill t 4096 0 (bytes r)) (bytes r)) as Hag.
  { intros q Hq. apply page_agree_fill; [apply Ht|apply Hq|]. intros ->. by destruct (Hot q Hq). }
  assert (∀ p, p ∈ pd :: ts ++ [t] → p = t ∨ p ∈ pd :: ts) as Hin.
  { intros p. rewrite !elem_of_cons, elem_of_app, list_elem_of_singleton. tauto. }
  split; simpl; try setoid_rewrite page_ok_bytes.
  - apply palloc_ok_bytes, Hg.
  - destruct Hg as [_ _ _ _ [_ E _ _ _ _ _]]. congruence.
  - intros p [->|H]%Hin; [done|]. by apply Hot, Hpg.
  - rewrite app_comm_cons. apply NoDup_app. split; [done|]. split; [|apply NoDup_singleton].
    intros p H1 ->%list_elem_of_singleton. by destruct (Hot t (Hpg t H1)).
  - intros j Hj. destruct (decide (j = 768 + page / 1024)) as [->|Hne].
    + rewrite word_at_put by (unfold PHYS_BASE in *; lia). rewrite (proj2 (Z.leb_le _ _)) by lia.
      rewrite lookup_app_r, list_lookup_singleton by lia. by replace (Z.to_nat _ - _)%nat with 0%nat by lia.
    + pose proof (pg_align _ _ Hpdr). rewrite word_at_put_ne by lia.
      rewrite (agree_word pd 4096 _ _ _ (Hag pd Hpdr)), Hpd by lia. destruct (Z.leb_spec 768 j); [|done].
      destruct (decide (j < 768 + page / 1024)).
      * by rewrite lookup_app_l by lia.
      * rewrite (lookup_ge_None_2 ts), (lookup_ge_None_2 (ts ++ [t])) by (rewrite ?length_app; simpl; lia). done.
  - intros k u Hk Hu. apply lookup_app_Some in Hu as [Hu|[Hu1 Hu]].
    + assert (u ∈ pd :: ts) as Huin by (apply elem_of_cons; right; by eapply list_elem_of_lookup_2).
      destruct (Hot u (Hpg u Huin)) as [_ Hu1].
      assert (pd ≠ u). { intros ->. apply NoDup_cons in Hnd as [Hn _]. apply Hn. by eapply list_elem_of_lookup_2. }
      rewrite (page_word_ne r1) by (done || lia). rewrite (agree_word u 4096 _ _ _ (Hag u (Hpg u Huin))) by lia. by apply Hpt.
    + apply list_lookup_singleton_Some in Hu as [Hz <-]. rewrite (page_word_ne r1) by (done || lia).
      rewrite word_at_zero by lia. by rewrite (proj2 (Z.ltb_ge _ _)) by lia.
  - intros p Hpo. destruct (Hold p Hpo) as (H1 & H2 & H3). destruct (Hot p H1) as [Hne H1'].
    split; [done|]. split; [intros [->|?]%Hin; done|].
    eapply agree_trans; [|by eapply agree_trans; [apply Hag|]].
    apply (page_agree_put r1); [done|done| |lia]. intros <-. apply H2, elem_of_cons. by left.
Qed.

(** ** The loop *)

Lemma wp_bind_assoc {S A B C} (m : M S A) (k : A → M S B) (g : B → M S C) s Q :
  wp ((m ≫= k) ≫= g) s Q ↔ wp (m ≫= λ a, k a ≫= g) s Q.
Proof. unfold wp, mbind, M_bind. by destruct (m s) as [[]| | |]. Qed.

Definition tables_for (n : Z) : Z := (n + 1023) / 1024.
Lemma wp_get_table r (Q : Z → pages → Prop) : palloc_ok r → (0 < length (free_pages r))%nat →
  (∀ t r1, granted false t 1 (fill t 4096 0 (bytes r)) r r1 → PHYS_BASE ≤ t → t + 4096 ≤ ram_end r → Q t r1) →
  wp (palloc_get_page (Z.lor PAL_ASSERT PAL_ZERO)) r Q.
Proof.
  intros Hok Hf HQ. apply (wp_wpp _ _ _ False); [tauto|]. apply wpp_palloc_get_multiple; [done|lia|..].
  - intros p r' _ Hl Hh Hg. by apply HQ.
  - lia.
  - intros Hex. apply free_pages_exhausted in Hex; [lia|done].
  - intros Hex. apply free_pages_exhausted in Hex; [lia|done].
Qed.
Lemma wp_pte_create_kernel {S} (s : S) k w (Q : Z → S → Prop) : 0 ≤ k < 2 ^ 18 →
  Q (4096 * k + (if w : bool then 3 else 1)) s → wp (pte_create_kernel (PHYS_BASE + 4096 * k) w) s Q.
Proof.
  intros Hk HQ. unfold pte_create_kernel. do 2 wp_step; [rewrite pg_ofs_mod; unfold PHYS_BASE; lia|].
  wp_step. apply wp_vtop; [unfold PHYS_BASE; lia|]. wp_step. rewrite <-Z.lor_assoc.
  replace (Z.lor PTE_P _) with (if w then 3 else 1) by by destruct w.
  rewrite lor_flags by (unfold PHYS_BASE; destruct w; lia).
  by replace (PHYS_BASE + 4096 * k - PHYS_BASE) with (4096 * k) by lia.
Qed.
(** The table for [page] is there after the test of its directory entry. *)
Lemma wp_paging_table r0 page pd pt ts r (Q : Z → pages → Prop) : let N := init_ram_pages r0 in
  tables_upto r0 page pd ts r → 0 ≤ page < N → Z.of_nat (length ts) = tables_for page →
  (page mod 1024 ≠ 0 → ts !! Z.to_nat (page / 1024) = Some pt) →
  tables_for N - tables_for page ≤ Z.of_nat (length (free_pages r)) →
  (∀ t ts' r', tables_upto r0 page pd ts' r' → ts' !! Z.to_nat (page / 1024) = Some t →
     Z.of_nat (length ts') = tables_for (page + 1) →
     tables_for N - tables_for (page + 1) ≤ Z.of_nat (length (free_pages r')) → Q t r') →
  wp (e ← load_word (pd + 4 * (768 + page / 1024));
      if e =? 0 then
        pt ← palloc_get_page (Z.lor PAL_ASSERT PAL_ZERO);
        d ← pde_create pt;
        store_word (pd + 4 * (768 + page / 1024)) d;;
        mret pt
      else mret pt) r Q.
Proof.
  intros N Ht Hp Hl Hpt Hf HQ. unfold tables_for in *.
  pose proof (pk_ram _ (tu_palloc _ _ _ _ _ Ht)) as Hr. rewrite (tu_ram _ _ _ _ _ Ht) in Hr. fold N in Hr.
  assert (ram_end r < 2 ^ 32) as Hend.
  { unfold ram_end, PHYS_BASE. rewrite (tu_ram _ _ _ _ _ Ht). fold N. rewrite PGSIZE_eq. lia. }
  pose proof (tu_pages _ _ _ _ _ Ht pd ltac:(apply elem_of_cons; by left)) as Hpd.
  wp_step. apply wp_load_word; [destruct Hpd; lia|destruct Hpd; lia|]. rewrite (tu_pdes _ _ _ _ _ Ht) by lia.
  rewrite (proj2 (Z.leb_le 768 _)) by lia. replace (Z.to_nat (768 + page / 1024 - 768)) with (Z.to_nat (page / 1024)) by lia.
  destruct (decide (page mod 1024 = 0)) as [Hm|Hm].
  - rewrite lookup_ge_None_2 by lia. rewrite Z.eqb_refl. wp_step.
    apply wp_get_table; [apply Ht|lia|]. intros t r1 Hg H1 H2. pose proof (table_page _ _ _ _ Hg H1 H2) as Htp.
    wp_step. apply wp_pde_create; [destruct Htp; unfold PHYS_BASE in *; lia|apply Htp|]. wp_step.
    pose proof (ram_end_new _ _ _ _ Hg) as Er.
    apply wp_store_word; [destruct Hpd; lia|destruct Hpd; lia|]. wp_step. apply (HQ t (ts ++ [t])).
    + apply (tables_upto_new _ _ _ _ r); [done|lia|done|lia|done..].
    + rewrite lookup_app_r by lia. by replace (_ - _)%nat with 0%nat by lia.
    + rewrite length_app. simpl. lia.
    + pose proof (free_pages_granted _ _ _ _ Hg). change (free_pages (set_bytes _ r1)) with (free_pages r1). lia.
  - rewrite (Hpt Hm).
    assert (page_ok r pt) as Htp.
    { apply (tu_pages _ _ _ _ _ Ht), elem_of_cons. right. by eapply list_elem_of_lookup_2, Hpt. }
    rewrite (proj2 (Z.eqb_neq _ _)) by (destruct Htp; lia). wp_step. apply (HQ pt ts); [done|by apply Hpt|lia|lia].
Qed.
Lemma wp_paging_loop (n : nat) r0 page pd pt ts r (Q : unit → pages → Prop) : let N := init_ram_pages r0 in
  tables_upto r0 page pd ts r → 0 ≤ page → page + Z.of_nat n = N → Z.of_nat (length ts) = tables_for page →
  (page mod 1024 ≠ 0 → ts !! Z.to_nat (page / 1024) = Some pt) →
  tables_for N - tables_for page ≤ Z.of_nat (length (free_pages r)) →
  (∀ ts' r', tables_upto r0 N pd ts' r' → Z.of_nat (length ts') = tables_for N → Q tt r') →
  wp (paging_loop n page pd pt) r Q.
Proof.
  intros N. revert page pt ts r. induction n as [|n IH]; intros page pt ts r Ht Hp Hn Hl Hpt Hf HQ; cbn [paging_loop].
  { wp_step. apply (HQ ts); [by replace N with page by lia|by replace N with page by lia]. }
  pose proof (pk_ram _ (tu_palloc _ _ _ _ _ Ht)) as Hr. rewrite (tu_ram _ _ _ _ _ Ht) in Hr. fold N in Hr.
  rewrite PGSIZE_eq, (wrap_small 32) by lia. wp_step. apply wp_ptov; [unfold PHYS_BASE; lia|].
  replace (page * 4096 + PHYS_BASE) with (PHYS_BASE + 4096 * page) by lia.
  replace (pd_no (PHYS_BASE + 4096 * page)) with (768 + page / 1024) by (rewrite pd_no_div; unfold PHYS_BASE; lia).
  replace (pt_no (PHYS_BASE + 4096 * page)) with (page mod 1024) by (rewrite pt_no_eq; unfold PHYS_BASE; lia).
  rewrite <-wp_bind_assoc. wp_step.
  apply (wp_paging_table r0 _ _ _ ts); [done|lia|done..|]. intros t ts' r' Ht' Hlk Hl' Hf'.
  wp_step. apply wp_pte_create_kernel; [lia|].
  replace (4096 * page + _) with (kernel_entry page) by (unfold kernel_entry; by destruct (_ && _)). wp_step.
  assert (page_ok r' t) as Htp.
  { apply (tu_pages _ _ _ _ _ Ht'), elem_of_cons. right. by eapply list_elem_of_lookup_2. }
  apply wp_store_word; [destruct Htp; lia|destruct Htp; lia|]. apply (IH _ _ ts').
  - apply tables_upto_store; [done|lia|lia|done].
  - lia.
  - lia.
  - done.
  - intros Hm. by replace ((page + 1) / 1024) with (page / 1024) by lia.
  - done.
  - done.
Qed.

Lemma tables_upto_start r0 r1 pd : granted false pd 1 (fill pd 4096 0 (bytes r0)) r0 r1 →
  PHYS_BASE ≤ pd → pd + 4096 ≤ ram_end r0 → tables_upto r0 0 pd [] r1.
Proof.
  intros Hg H1 H2. pose proof (table_page _ _ _ _ Hg H1 H2) as Hpd.
  assert (bytes r1 = fill pd 4096 0 (bytes r0)) as Eb by apply Hg. split.
  - apply Hg.
  - apply Hg.
  - by intros p ->%list_elem_of_singleton.
  - apply NoDup_singleton.
  - intros j Hj. rewrite Eb, word_at_zero by lia. by destruct (768 <=? j).
  - done.
  - intros p Hp. destruct (old_page _ _ _ _ p Hg Hp) as [Hne Hp1]. split; [done|].
    split; [by intros ->%list_elem_of_singleton|]. rewrite Eb. apply page_agree_fill; [apply Hpd|apply Hp|done].
Qed.
(** The tables that are complete, seen through [pte_of]. *)
Lemma tables_upto_pte r0 pd ts r va : let N := init_ram_pages r0 in
  tables_upto r0 N pd ts r → Z.of_nat (length ts) = tables_for N → 0 ≤ N < 2 ^ 18 → 0 ≤ va < 2 ^ 32 →
  pte_of (bytes r) pd va =
    if (PHYS_BASE <=? va) && (va <? PHYS_BASE + 4096 * N) then kernel_entry ((va - PHYS_BASE) / 4096) else 0.
Proof.
  intros N Ht Hl HN Hva. pose proof (tu_pdes _ _ _ _ _ Ht (pd_no va)) as Hpd. rewrite pd_no_div in *.
  specialize (Hpd ltac:(lia)). unfold pte_of, table, pde_at, tables_for in *. rewrite !pd_no_div, Hpd, pt_no_eq.
  destruct (Z.leb_spec 768 (va / 2 ^ 22)); cycle 1.
  { rewrite Z.eqb_refl. rewrite (proj2 (Z.leb_gt _ _)) by (unfold PHYS_BASE; lia). done. }
  rewrite (proj2 (Z.leb_le PHYS_BASE va)) by (unfold PHYS_BASE; lia). cbn [andb].
  set (k := (va - PHYS_BASE) / 4096). assert (va / 2 ^ 22 - 768 = k / 1024) as -> by (unfold k, PHYS_BASE; lia).
  replace (va / 4096 mod 1024) with (k mod 1024) by (unfold k, PHYS_BASE; lia).
  assert (0 ≤ k) as Hk by (unfold k, PHYS_BASE; lia).
  replace (va <? PHYS_BASE + 4096 * N) with (k <? N) by (unfold k, PHYS_BASE; lia).
  destruct (ts !! Z.to_nat (k / 1024)) as [t|] eqn:Et.
  - assert (page_ok r t) as Htp.
    { apply (tu_pages _ _ _ _ _ Ht), elem_of_cons. right. by eapply list_elem_of_lookup_2. }
    rewrite (proj2 (Z.eqb_neq _ _)) by (destruct Htp; lia).
    replace (addr_of (t - PHYS_BASE + 7)) with t by (destruct Htp; unfold addr_of, PHYS_BASE in *; lia).
    by apply (tu_ptes _ _ _ _ _ Ht).
  - rewrite Z.eqb_refl. apply lookup_ge_None in Et. by rewrite (proj2 (Z.ltb_ge _ _)) by lia.
Qed.
Lemma tables_upto_pd_ok r0 pd ts r : tables_upto r0 (init_ram_pages r0) pd ts r → pd_ok r pd.
Proof.
  intros Ht. assert (∀ i, 0 ≤ i < USER_PDES → pde_at (bytes r) pd i = 0) as Hz.
  { intros i Hi. unfold pde_at, USER_PDES in *. rewrite (tu_pdes _ _ _ _ _ Ht) by lia.
    by rewrite (proj2 (Z.leb_gt _ _)) by lia. }
  split.
  - apply Ht.
  - apply (tu_pages _ _ _ _ _ Ht), elem_of_cons. by left.
  - intros i Hi Hn. by rewrite Hz in Hn.
  - intros i j Hi Hj Hn. by rewrite Hz in Hn.
  - intros va Hva Hn. unfold pte_of in Hn. by rewrite Hz in Hn by by apply pd_index.
Qed.
(** C10: With a page for the directory and one for every 1024 pages of RAM to be had,
    paging_init () ends with a directory that maps every page of RAM at its kernel
    address, the kernel's code read-only and the rest writable, and nothing else; the
    directory is active and ready to be copied for processes, and every page that was
    in use keeps its contents. *)
Theorem paging_init_correct (σ : mmu) : let n := init_ram_pages (ram σ) in
  palloc_ok (ram σ) → 1 + tables_for n ≤ Z.of_nat (length (free_pages (ram σ))) →
  wp paging_init σ (λ _ σ', let pd := init_page_dir σ' in
    pd_ok (ram σ') pd ∧ cr3 σ' = pd - PHYS_BASE ∧ tlb σ' = ∅ ∧
    (∀ va, 0 ≤ va < 2 ^ 32 → pte_of (bytes (ram σ')) pd va =
       if (PHYS_BASE <=? va) && (va <? PHYS_BASE + 4096 * n) then kernel_entry ((va - PHYS_BASE) / 4096) else 0) ∧
    (∀ p, page_ok (ram σ) p → page_ok (ram σ') p ∧ p ≠ pd ∧ agree p 4096 (bytes (ram σ')) (bytes (ram σ)))).
Proof.
  intros n Hok Hf. pose proof (pk_ram _ Hok) as Hn. unfold paging_init. wp_step. apply wp_on_ram.
  apply wp_get_table; [done|unfold tables_for in Hf; lia|]. intros pd r1 Hg H1 H2.
  pose proof (free_pages_granted _ _ _ _ Hg) as Hc. pose proof (tables_upto_start _ _ _ Hg H1 H2) as Ht.
  do 5 wp_step. simpl. apply wp_on_ram. simpl. rewrite (tu_ram _ _ _ _ _ Ht). fold n.
  apply (wp_paging_loop _ (ram σ) 0 pd NULL []); [done|lia|fold n; lia|done|done|unfold tables_for in *; fold n; lia|].
  intros ts r' Ht' Hl. fold n in Ht', Hl.
  assert (page_ok r' pd) as Hpd by (apply (tu_pages _ _ _ _ _ Ht'), elem_of_cons; by left).
  wp_step. apply wp_vtop; [destruct Hpd as [_ ? Hh _]; unfold ram_end in Hh; rewrite (tu_ram _ _ _ _ _ Ht'), PGSIZE_eq in Hh;
    fold n in Hh; unfold PHYS_BASE in *; lia|].
  unfold load_cr3. wp_step. simpl. split; [by eapply tables_upto_pd_ok|]. split; [done|]. split; [done|]. split.
  - intros va Hva. by apply (tables_upto_pte (ram σ) pd ts).
  - intros p Hp. destruct (tu_old _ _ _ _ _ Ht' p Hp) as (? & Hnin & ?). split; [done|]. split; [|done].
    intros ->. by apply Hnin, elem_of_cons; left.
Qed.
End paging.

(** A machine with 260 pages of RAM, of which the kernel pool has three free ones; the
    kernel's code takes up the first two pages from 0xc0020000 on. *)
Definition boot : mmu :=
  mk_mmu (mk_pages 260 (λ a, a) (mk_pool false (mk_bitmap 4 [1]) 0xc0100000) (mk_pool false (mk_bitmap 0 []) 0xc0104000))
    0 0 ∅.
Lemma boot_ok : palloc_ok (ram boot).
Proof. split; [done| | |done]; (split; [done| |done..]; split; [done..|by repeat constructor]). Qed.
Lemma paging_init_correct_witness :
  wp (paging_init 0xc0020000 0xc0022000) boot (λ _ σ', let pd := init_page_dir σ' in
    pte_of (bytes (ram σ')) pd 0xc0021abc = 0x21001 ∧ pte_of (bytes (ram σ')) pd 0xc0022abc = 0x22003 ∧
    pte_of (bytes (ram σ')) pd 0x08048000 = 0).
Proof.
  eapply wp_mono; [apply (paging_init_correct 0xc0020000 0xc0022000 boot boot_ok); vm_compute; discriminate|].
  intros [] σ' (_ & _ & _ & Hp & _). cbv zeta in *. rewrite !Hp by lia. vm_compute. auto.
Defined.
