(* ===== verification/AddressSpace.v ===== *)
(** * User memory

    An address space is a page directory together with the frames it maps, all of
    them pages in use and all different; [umem] is the memory that the process
    sees through it.  The lemmas say what the operations on pages and page tables
    do to that memory: they are what the loader (Process.v) relies on. *)

From S2P Require Import Prelude Bitmap Vaddr Palloc Ram Pagedir PagedirThms.
Local Open Scope Z_scope.
Local Ltac Zify.zify_post_hook ::= Z.div_mod_to_equations.

Definition user_page (vpn : Z) : Prop := 0 ≤ 4096 * vpn < PHYS_BASE.
(** The pages that hold the directory [pd] and its page tables. *)
Definition tables_page (r : pages) (pd q : Z) : Prop :=
  q = pd ∨ ∃ i, 0 ≤ i < USER_PDES ∧ pde_at (bytes r) pd i ≠ 0 ∧ q = table (bytes r) pd i.
Record space (r : pages) (pd : Z) : Prop := {
  sp_pd : pd_ok r pd;
  sp_frames vpn k w : user_page vpn → maps r pd vpn = Some (k, w) → page_ok r k ∧ ¬ tables_page r pd k;
  sp_inj vpn vpn' k w w' : user_page vpn → user_page vpn' →
    maps r pd vpn = Some (k, w) → maps r pd vpn' = Some (k, w') → vpn = vpn'
}.
(** The byte that the process finds at the address [va]. *)
Definition umem (r : pages) (pd va : Z) : option Z :=
  match maps r pd (va / 4096) with
  | Some (k, _) => Some (bytes r (k + va mod 4096))
  | None => None
  end.
(** A page in use that [pd] has nothing to do with. *)
Record loose (r : pages) (pd k : Z) : Prop := {
  lo_page : page_ok r k;
  lo_tables : ¬ tables_page r pd k;
  lo_maps vpn k' w : user_page vpn → maps r pd vpn = Some (k', w) → k' ≠ k
}.

Lemma user_page_of va : 0 ≤ va < PHYS_BASE → user_page (va / 4096).
Proof. unfold user_page, PHYS_BASE. lia. Qed.
Lemma tables_page_ok r pd q : pd_ok r pd → tables_page r pd q → page_ok r q.
Proof. intros Hpd [->|(i & Hi & Hn & ->)]; [apply Hpd|]. by apply (pd_tables _ _ Hpd). Qed.

(** ** Steps that leave an address space alone *)

(** The step from [r] to [r'] may change or free the pages in [X]; it leaves the
    other pages in use as they are. *)
Record kept (X : Z → Prop) (r r' : pages) : Prop := {
  kp_ok : palloc_ok r';
  kp_ram : init_ram_pages r' = init_ram_pages r;
  kp_page q : page_ok r q → ¬ X q → page_ok r' q;
  kp_bytes q : page_ok r q → ¬ X q → agree q 4096 (bytes r') (bytes r)
}.

Lemma kept_refl X r : palloc_ok r → kept X r r.
Proof. by split. Qed.
Lemma kept_trans X r1 r2 r3 : kept X r1 r2 → kept X r2 r3 → kept X r1 r3.
Proof.
  intros [_ R1 P1 B1] [Hok R2 P2 B2]. split; [done|congruence|auto|].
  intros q Hq Hn. eapply agree_trans; [by apply B2; [apply P1|]|by apply B1].
Qed.
Lemma kept_weaken (X Y : Z → Prop) r r' : (∀ q, X q → Y q) → kept X r r' → kept Y r r'.
Proof. intros HXY []; split; auto. Qed.

Lemma agree_at a n f g x : agree a n f g → a ≤ x < a + n → f x = g x.
Proof. intros H. apply H. Qed.

Section kept.
Context (X : Z → Prop) (r r' : pages) (pd : Z).
Context (HK : kept X r r') (Hpd : pd_ok r pd) (HX : ∀ q, tables_page r pd q → ¬ X q).

Lemma kept_tables_agree q : tables_page r pd q → agree q 4096 (bytes r') (bytes r).
Proof using All. intros Hq. apply HK; [by eapply tables_page_ok|by apply HX]. Qed.

Lemma kept_pde i : 0 ≤ i < 1024 → pde_at (bytes r') pd i = pde_at (bytes r) pd i.
Proof using All.
  intros Hi. unfold pde_at. apply (agree_word pd 4096); [apply kept_tables_agree; by left|lia..].
Qed.

Lemma kept_pte va : 0 ≤ va < PHYS_BASE → pte_of (bytes r') pd va = pte_of (bytes r) pd va.
Proof using All.
  intros Hva. pose proof (pd_index va Hva) as Hi. pose proof Hi as Hi'. unfold USER_PDES in Hi'.
  symmetry. apply pte_of_agree.
  - intros x Hx. symmetry. apply (kept_tables_agree pd); [by left|lia].
  - intros Hn x Hx. symmetry. pose proof (pt_index va). apply (kept_tables_agree (table (bytes r) pd (pd_no va))); [|lia].
    right. eauto.
Qed.

Lemma kept_maps vpn : user_page vpn → maps r' pd vpn = maps r pd vpn.
Proof using All. intros Hv. unfold maps. by rewrite kept_pte. Qed.

Lemma kept_tables q : tables_page r' pd q ↔ tables_page r pd q.
Proof using All.
  unfold tables_page, table. split; (intros [->|(i & Hi & Hn & ->)]; [by left|right; exists i]);
    unfold USER_PDES in *; rewrite kept_pde in * by lia; done.
Qed.

Lemma kept_pd_ok : pd_ok r' pd.
Proof using All.
  pose proof Hpd as [Hok Hp Ht Hinj Hf].
  assert (∀ i, 0 ≤ i < USER_PDES → pde_at (bytes r') pd i = pde_at (bytes r) pd i) as Epde.
  { intros i Hi. apply kept_pde. unfold USER_PDES in Hi. lia. }
  split.
  - apply HK.
  - apply HK; [done|]. apply HX. by left.
  - intros i Hi. unfold table. rewrite Epde by done. intros Hn. destruct (Ht i Hi Hn) as (? & Hq & ?).
    split_and!; [done| |done]. apply HK; [done|]. apply HX. right. eauto.
  - intros i j Hi Hj. unfold table. rewrite !Epde by done. by apply Hinj.
  - intros va Hva. rewrite kept_pte by done. intros Hn. specialize (Hf va Hva Hn).
    unfold ram_end in *. by rewrite (kp_ram _ _ _ HK).
Qed.
End kept.

Lemma kept_space X r r' pd :
  kept X r r' → space r pd → (∀ q, tables_page r pd q → ¬ X q) →
  (∀ vpn k w, user_page vpn → maps r pd vpn = Some (k, w) → ¬ X k) →
  space r' pd ∧ ∀ va, 0 ≤ va < PHYS_BASE → umem r' pd va = umem r pd va.
Proof.
  intros HK [Hpd Hf Hi] HX HF. pose proof (kept_maps X r r' pd HK Hpd HX) as Em. split.
  - split.
    + by eapply kept_pd_ok.
    + intros vpn k w Hv. rewrite Em by done. intros E. destruct (Hf vpn k w Hv E) as [Hk Hn].
      rewrite (kept_tables X r r') by done. split; [|done]. by apply HK; [|eapply HF].
    + intros vpn vpn' k w w' Hv Hv'. rewrite !Em by done. by apply Hi.
  - intros va Hva. pose proof (user_page_of va Hva) as Hv. unfold umem. rewrite Em by done.
    destruct (maps r pd (va / 4096)) as [[k w]|] eqn:E; [|done]. f_equal.
    eapply agree_at; [apply HK|]; [by apply (Hf _ _ _ Hv E)|by eapply HF|lia].
Qed.

(** Pages that stay loose. *)
Lemma kept_loose X r r' pd k :
  kept X r r' → space r pd → (∀ q, tables_page r pd q → ¬ X q) → loose r pd k → ¬ X k → loose r' pd k.
Proof.
  intros HK [Hpd _ _] HX [Hp Ht Hm] Hk. split.
  - by apply HK.
  - by rewrite (kept_tables X r r').
  - intros vpn k' w Hv. rewrite (kept_maps X r r') by done. by apply Hm.
Qed.

(** ** The operations on pages *)

Lemma granted_page u p f r r' :
  palloc_ok r → granted u p 1 f r r' → PHYS_BASE ≤ p → p + 4096 ≤ ram_end r →
  page_ok r' p ∧ used r (p / 4096) = false.
Proof.
  intros Hok [_ _ Ha Hfree [_ Hr _ _ Hin _ _]] Hl Hh. split; [|apply Hfree; lia].
  split; [done..|unfold ram_end in *; by rewrite Hr|apply Hin; lia].
Qed.
Lemma kept_granted u p f r r' :
  granted u p 1 f r r' → (∀ x, x < p ∨ p + 4096 ≤ x → f x = bytes r x) → kept (λ _, False) r r'.
Proof.
  intros [_ _ Ha Hfree [Hok Hr _ _ Hin Hout Hb]] Hf.
  assert (∀ q, page_ok r q → q ≠ p) as Hne.
  { intros q [_ _ _ Hu] ->. rewrite Hfree in Hu by lia. done. }
  split; [done|done| |].
  - intros q Hq _. pose proof Hq as [Hqa Hl Hh Hu]. split; [done..|unfold ram_end in *; by rewrite Hr|].
    rewrite Hout; [done|]. specialize (Hne q Hq). lia.
  - intros q Hq _ x Hx. rewrite Hb. apply Hf. pose proof (pg_align _ _ Hq) as Hqa.
    destruct (pages_apart q p Hqa Ha (Hne q Hq)); lia.
Qed.
(** A new page has nothing to do with the address spaces there are. *)
Lemma granted_loose u p f r r' pd :
  space r pd → granted u p 1 f r r' → (∀ x, x < p ∨ p + 4096 ≤ x → f x = bytes r x) →
  PHYS_BASE ≤ p → p + 4096 ≤ ram_end r → loose r' pd p.
Proof.
  intros Hsp Hg Hf Hl Hh. pose proof Hsp as [Hpd Hfr _]. pose proof (kept_granted _ _ _ _ _ Hg Hf) as HK.
  destruct (granted_page _ _ _ _ _ (pd_palloc _ _ Hpd) Hg Hl Hh) as [Hp Hu].
  assert (∀ q, page_ok r q → q ≠ p) as Hne by (intros q [_ _ _ Hq] ->; by rewrite Hu in Hq). split.
  - done.
  - rewrite (kept_tables _ _ _ _ HK Hpd) by tauto. intros Ht. by apply (Hne p); [eapply tables_page_ok|].
  - intros vpn k w Hv. rewrite (kept_maps _ _ _ _ HK Hpd) by (done || tauto). intros E.
    apply Hne. by apply (Hfr _ _ _ Hv E).
Qed.

Lemma kept_bytes p f r :
  palloc_ok r → p mod 4096 = 0 → (∀ x, x < p ∨ p + 4096 ≤ x → f x = bytes r x) →
  kept (λ q, q = p) r (set_bytes f r).
Proof.
  intros Hok Hp Hf. split; simpl; [by apply palloc_ok_bytes|done|by intros q []|].
  intros q Hq Hne x Hx. apply Hf. destruct (pages_apart q p (pg_align _ _ Hq) Hp Hne); lia.
Qed.
Lemma kept_freed p r r' : freed [p] r r' → kept (λ q, q = p) r r'.
Proof.
  intros HF. split; [apply HF..| |].
  - intros q Hq Hne. eapply freed_page; [done..|]. by rewrite list_elem_of_singleton.
  - intros q Hq Hne. apply HF; [apply Hq|]. by rewrite list_elem_of_singleton.
Qed.
(** What happens to a loose page does not matter to the address space. *)
Lemma loose_space r r' pd p :
  space r pd → loose r pd p → kept (λ q, q = p) r r' →
  space r' pd ∧ ∀ va, 0 ≤ va < PHYS_BASE → umem r' pd va = umem r pd va.
Proof.
  intros Hsp [_ Ht Hm] HK. eapply kept_space; [done..| |].
  - intros q Hq ->. done.
  - intros vpn k w Hv E ->. by eapply Hm.
Qed.

(** ** Changing the map *)

Lemma set_page_kept pd va v r r' :
  pte_set pd va v r r' → kept (tables_page r pd) r r'.
Proof.
  intros [Hok Hfr _]. split.
  - apply Hok.
  - apply Hfr.
  - intros q Hq _. by eapply frame_page.
  - intros q Hq Hn. apply (fr_bytes _ _ _ Hfr); [done|by intros ->; apply Hn; left|].
    intros i Hi Hne ->. apply Hn. right. eauto.
Qed.

Lemma set_page_space pd upage kpage (w : bool) r r' :
  space r pd → loose r pd kpage → 0 ≤ upage < PHYS_BASE → maps r pd (upage / 4096) = None →
  pte_set pd upage (kpage - PHYS_BASE + (if w then 7 else 5)) r r' →
  space r' pd ∧
  (∀ vpn, user_page vpn →
     maps r' pd vpn = if decide (vpn = upage / 4096) then Some (kpage, w) else maps r pd vpn) ∧
  ∀ va, 0 ≤ va < PHYS_BASE → umem r' pd va =
    if decide (va / 4096 = upage / 4096) then Some (bytes r (kpage + va mod 4096)) else umem r pd va.
Proof.
  intros [Hpd Hf Hinj] [Hk Hkt Hkm] Hu Hnone Hs. pose proof (set_page_kept _ _ _ _ _ Hs) as HK.
  destruct (user_entry kpage w (pg_align _ _ Hk) (pg_low _ _ Hk)) as (Ep & Ea & Ew).
  assert (∀ vpn, user_page vpn →
     maps r' pd vpn = if decide (vpn = upage / 4096) then Some (kpage, w) else maps r pd vpn) as Em.
  { intros vpn Hv. rewrite (pte_set_maps _ _ _ _ _ _ Hs Hu Hv).
    rewrite (decide_False (P := Z.land _ _ = 0)) by done. by rewrite Ea, Ew. }
  assert (∀ k, page_ok r k → ¬ tables_page r pd k → ¬ tables_page r' pd k) as Htab.
  { intros k Hpk Hn [->|(i & Hi & Hne & ->)]; [by apply Hn; left|].
    destruct (fr_tables _ _ _ (pse_frame _ _ _ _ _ Hs) i Hi Hne) as [[? E]|E].
    - apply Hn. right. exists i. by rewrite E.
    - pose proof (pg_used _ _ Hpk). congruence. }
  split_and!; [|done|].
  - split; [apply Hs| |].
    + intros vpn k w' Hv. rewrite Em by done.
      assert (page_ok r k → ¬ tables_page r pd k → page_ok r' k ∧ ¬ tables_page r' pd k) as Hgo.
      { intros ??. split; [by apply HK|by apply Htab]. }
      case_decide; [intros [= <- <-]; by apply Hgo|]. intros E. destruct (Hf _ _ _ Hv E). by apply Hgo.
    + intros vpn vpn' k w1 w2 Hv Hv'. rewrite !Em by done. repeat case_decide; try congruence.
      * intros [= <- _] E. by destruct (Hkm _ _ _ Hv' E).
      * intros E [= <- _]. by destruct (Hkm _ _ _ Hv E).
      * by apply Hinj.
  - intros va Hva. pose proof (user_page_of va Hva) as Hv. unfold umem. rewrite Em by done. case_decide.
    + f_equal. eapply agree_at; [by apply HK|lia].
    + destruct (maps r pd (va / 4096)) as [[k w']|] eqn:E; [|done]. f_equal. destruct (Hf _ _ _ Hv E).
      eapply agree_at; [by apply HK|lia].
Qed.

(** Storing a byte in a frame changes the user memory at one address. *)
Lemma store_frame_space pd va k w v r :
  space r pd → 0 ≤ va < PHYS_BASE → maps r pd (va / 4096) = Some (k, w) →
  let r' := set_bytes (λ x, if x =? k + va mod 4096 then v else bytes r x) r in
  space r' pd ∧ (∀ vpn, user_page vpn → maps r' pd vpn = maps r pd vpn) ∧
  ∀ va', 0 ≤ va' < PHYS_BASE → umem r' pd va' = if decide (va' = va) then Some v else umem r pd va'.
Proof.
  intros Hsp Hva E r'. pose proof Hsp as [Hpd Hf Hinj]. pose proof (user_page_of va Hva) as Hv.
  destruct (Hf _ _ _ Hv E) as [Hk Hkt]. pose proof (pg_align _ _ Hk) as Ha.
  assert (kept (λ q, q = k) r r') as HK.
  { apply kept_bytes; [apply Hpd|done|]. intros x Hx. rewrite (proj2 (Z.eqb_neq _ _)); [done|lia]. }
  assert (∀ vpn, user_page vpn → maps r' pd vpn = maps r pd vpn) as Em.
  { intros vpn Hvpn. eapply kept_maps; [done..| |done]. by intros q Hq ->. }
  assert (∀ q, tables_page r pd q → q ≠ k) as Hne by by intros q Hq ->.
  split_and!; [|done|].
  - split.
    + by eapply kept_pd_ok.
    + intros vpn k' w' Hvpn. rewrite Em by done. intros E'. destruct (Hf _ _ _ Hvpn E') as [Hk' ?].
      rewrite (kept_tables _ _ _ _ HK Hpd Hne). split; [by destruct Hk'|done].
    + intros vpn vpn' k' w1 w2 ??. rewrite !Em by done. by apply Hinj.
  - intros va' Hva'. pose proof (user_page_of va' Hva') as Hv'. unfold umem. rewrite Em by done.
    case_decide as Ev.
    + subst va'. rewrite E. simpl. by rewrite Z.eqb_refl.
    + destruct (maps r pd (va' / 4096)) as [[k' w']|] eqn:E'; [|done]. f_equal. simpl.
      rewrite (proj2 (Z.eqb_neq _ _)); [done|]. intros Heq. apply Ev.
      destruct (Hf _ _ _ Hv' E') as [[Ha' _ _ _] _].
      assert (k' = k) as -> by lia. pose proof (Hinj _ _ _ _ _ Hv Hv' E E'). lia.
Qed.

(** ** What others notice

    A step of the process that owns [pd] changes its own tables, and pages that
    were free before. *)

Lemma used_page_ok r pn : palloc_ok r → used r pn = true → page_ok r (4096 * pn).
Proof.
  intros Hok Hu. destruct (used_pool_of r pn Hok Hu) as [u Hin]. destruct (pool_bound _ Hok u) as (?&?&?&?).
  destruct (pool_at_ok _ Hok u) as [_ _ Ha Hb He]. unfold in_pool, first_page in Hin.
  split; [lia..|]. by replace (4096 * pn / 4096) with pn by lia.
Qed.

Lemma frame_granted pd u p f r r' :
  space r pd → granted u p 1 f r r' → (∀ x, x < p ∨ p + 4096 ≤ x → f x = bytes r x) → pd_frame pd r r'.
Proof.
  intros [Hpd _ _] Hg Hf. pose proof (kept_granted _ _ _ _ _ Hg Hf) as HK. pose proof (pd_palloc _ _ Hpd) as Hok. split.
  - apply HK.
  - intros pn Hu. pose proof (pg_used _ _ (kp_page _ _ _ HK _ (used_page_ok r pn Hok Hu) id)) as E.
    by replace (4096 * pn / 4096) with pn in E by lia.
  - intros i Hi. unfold table. rewrite (kept_pde _ _ _ _ HK Hpd) by (tauto || (unfold USER_PDES in Hi; lia)). by left.
  - intros q Hq _ _. apply HK; [done|tauto].
Qed.

(** Changing or freeing a page of one's own that was free at first. *)
Lemma frame_private pd r r1 r2 k :
  palloc_ok r → pd_frame pd r r1 → pd_ok r1 pd → ¬ tables_page r1 pd k → used r (k / 4096) = false →
  kept (λ q, q = k) r1 r2 → pd_frame pd r r2.
Proof.
  intros Hok Hfr Hpd Hkt Hu HK. pose proof Hfr as [Hr Hus Ht Hb].
  assert (∀ q, tables_page r1 pd q → q ≠ k) as Hne by by intros q Hq ->.
  assert (∀ q, page_ok r q → q ≠ k) as Hold.
  { intros q [_ _ _ Hq] ->. by rewrite Hu in Hq. }
  split.
  - rewrite <-Hr. apply HK.
  - intros pn Hpn. pose proof (used_page_ok r pn Hok Hpn) as Hq.
    pose proof (pg_used _ _ (kp_page _ _ _ HK _ (frame_page _ _ _ _ Hfr Hq) (Hold _ Hq))) as E.
    by replace (4096 * pn / 4096) with pn in E by lia.
  - intros i Hi. unfold table. rewrite (kept_pde _ _ _ _ HK Hpd Hne) by (unfold USER_PDES in Hi; lia). by apply Ht.
  - intros q Hq Hqpd Hqt. eapply agree_trans; [|by apply Hb].
    apply HK; [by eapply frame_page|by apply Hold].
Qed.
