(* ===== verification/Process.v ===== *)
(** * Loading user programs: userprog/process.c and userprog/tss.c

    The state puts together the components that load () uses: the RAM with the
    page allocator and the page tables (Pagedir.v), and the file system
    (Directory.v), next to the members of struct thread that the functions use.
    An access of the kernel to a user address goes through the page tables that
    CR3 points to, as on the processor; that the TLB agrees with them is
    PagedirThms.pagedir_tlb_consistent. *)

From S2P Require Import Prelude Bitmap CString Block Inode Directory Vaddr Palloc Ram Pagedir.
Local Open Scope Z_scope.

(** ** The state *)

(** [cur] is the address of the running struct thread, with its members pagedir
    and save; [exec_block] is the value of its parent's semaphore of that name. *)
Record machine (D : Type) := mk_machine {
  mm : mmu;
  sys : fs D;
  tss : Z;
  cur : Z;
  pagedir : Z;
  save : Z;
  exec_block : Z
}.
Arguments mk_machine {D}.
Arguments mm {D}.
Arguments sys {D}.
Arguments tss {D}.
Arguments cur {D}.
Arguments pagedir {D}.
Arguments save {D}.
Arguments exec_block {D}.

(** ** Executable files *)

Definition Elf32_Half (bs : list Z) (i : nat) : Z := wrap 16 (byte bs i + 2 ^ 8 * byte bs (S i)).
Definition Elf32_Word (bs : list Z) (i : nat) : Z := u32 (word bs i).
(** The members of struct Elf32_Ehdr that load () reads, from its 52 bytes. *)
Record Elf32_Ehdr := mk_ehdr {
  e_ident : list Z; e_type : Z; e_machine : Z; e_version : Z; e_entry : Z; e_phoff : Z;
  e_phentsize : Z; e_phnum : Z }.
Definition EHDR_SIZE : Z := 52.
Definition ehdr_of (bs : list Z) : Elf32_Ehdr :=
  mk_ehdr (take 16 bs) (Elf32_Half bs 16) (Elf32_Half bs 18) (Elf32_Word bs 20) (Elf32_Word bs 24)
    (Elf32_Word bs 28) (Elf32_Half bs 42) (Elf32_Half bs 44).
(** struct Elf32_Phdr *)
Record Elf32_Phdr := mk_phdr {
  p_type : Z; p_offset : Z; p_vaddr : Z; p_paddr : Z; p_filesz : Z; p_memsz : Z; p_flags : Z; p_align : Z }.
Definition PHDR_SIZE : Z := 32.
Definition phdr_of (bs : list Z) : Elf32_Phdr :=
  mk_phdr (Elf32_Word bs 0) (Elf32_Word bs 4) (Elf32_Word bs 8) (Elf32_Word bs 12)
    (Elf32_Word bs 16) (Elf32_Word bs 20) (Elf32_Word bs 24) (Elf32_Word bs 28).
Definition PT_LOAD : Z := 1.
Definition PT_DYNAMIC : Z := 2.
Definition PT_INTERP : Z := 3.
Definition PT_SHLIB : Z := 5.
Definition PF_W : Z := 2.
Definition ELF_MAGIC : list Z := [127; 69; 76; 70; 1; 1; 1].
(** The condition on the header, after it has been read in full. *)
Definition bad_header (h : Elf32_Ehdr) : bool :=
  bool_decide (take 7 (e_ident h) ≠ ELF_MAGIC)
  || negb (e_type h =? 2)
  || negb (e_machine h =? 3)
  || negb (e_version h =? 1)
  || negb (e_phentsize h =? PHDR_SIZE)
  || (1024 <? e_phnum h).
(** ROUND_UP (x, PGSIZE), lib/round.h *)
Definition ROUND_UP_PAGE (x : Z) : Z := u32 (u32 (x + PGSIZE - 1) / PGSIZE * PGSIZE).
(** How a segment is laid out: READ_BYTES and ZERO_BYTES. *)
Definition segment_bytes (ph : Elf32_Phdr) : Z * Z :=
  let page_offset := Z.land (p_vaddr ph) PGMASK in
  if 0 <? p_filesz ph then
    let read_bytes := u32 (page_offset + p_filesz ph) in
    (read_bytes, u32 (ROUND_UP_PAGE (u32 (page_offset + p_memsz ph)) - read_bytes))
  else (0, ROUND_UP_PAGE (u32 (page_offset + p_memsz ph))).

Section process.
Context {D : Type} `{!BlockOps D} (nest : nat).
Notation P := (machine D).

Definition with_mm (m : mmu) (s : P) : P :=
  mk_machine m (sys s) (tss s) (cur s) (pagedir s) (save s) (exec_block s).
Definition with_sys (f : fs D) (s : P) : P :=
  mk_machine (mm s) f (tss s) (cur s) (pagedir s) (save s) (exec_block s).
Definition set_tss (p : Z) (s : P) : P :=
  mk_machine (mm s) (sys s) p (cur s) (pagedir s) (save s) (exec_block s).
Definition set_pagedir (pd : Z) (s : P) : P :=
  mk_machine (mm s) (sys s) (tss s) (cur s) pd (save s) (exec_block s).
Definition set_save (f : Z) (s : P) : P :=
  mk_machine (mm s) (sys s) (tss s) (cur s) (pagedir s) f (exec_block s).
Definition up_exec_block (s : P) : P :=
  mk_machine (mm s) (sys s) (tss s) (cur s) (pagedir s) (save s) (u32 (exec_block s + 1)).
Definition on_mm {A} : M mmu A → M P A := zoom mm with_mm.
Definition on_sys {A} : M (fs D) A → M P A := zoom sys with_sys.
Definition on_pages {A} (m : M pages A) : M P A := on_mm (on_ram m).

(** ** The task state segment *)

(** Offsets in struct tss: esp0 at 4, ss0 at 8, bitmap at 102. *)
Definition SEL_KDSEG : Z := 0x10.
Definition store_half (a v : Z) : M pages unit :=
  access a 2;;
  modify (λ σ, set_bytes (λ x, if x =? a then v mod 2 ^ 8 else if x =? a + 1 then v / 2 ^ 8 mod 2 ^ 8
                               else bytes σ x) σ).
Definition tss_update : M P unit :=
  t ← gets tss;
  assert (negb (t =? NULL));;
  c ← gets cur;
  on_pages (store_word (t + 4) (u32 (c + PGSIZE))).
Definition tss_init : M P unit :=
  t ← on_pages (palloc_get_page (Z.lor PAL_ASSERT PAL_ZERO));
  modify (set_tss t);;
  on_pages (store_half (t + 8) SEL_KDSEG);;
  on_pages (store_half (t + 102) 0xdfff);;
  tss_update.

(** ** Address spaces *)

Definition process_activate : M P unit :=
  pd ← gets pagedir; on_mm (pagedir_activate pd);; tss_update.

Definition install_page (upage kpage : Z) (writable : bool) : M P bool :=
  pd ← gets pagedir;
  k ← on_mm (pagedir_get_page pd upage);
  if k =? NULL then on_mm (pagedir_set_page pd upage kpage writable) else mret false.

(** The end of process_exit (): the directory is given up before it is freed. *)
Definition release_pagedir : M P unit :=
  pd ← gets pagedir;
  if negb (pd =? NULL) then
    modify (set_pagedir NULL);;
    on_mm (pagedir_activate NULL);;
    on_mm (pagedir_destroy pd)
  else mret tt.

(** ** Segments *)

Definition validate_segment (ph : Elf32_Phdr) (f : Z) : M P bool :=
  if negb (Z.land (p_offset ph) PGMASK =? Z.land (p_vaddr ph) PGMASK) then mret false
  else
    len ← on_sys (file_length f);
    mret (negb (u32 len <? p_offset ph)
          && negb (p_memsz ph <? p_filesz ph)
          && negb (p_memsz ph =? 0)
          && is_user_vaddr (p_vaddr ph)
          && is_user_vaddr (u32 (p_vaddr ph + p_memsz ph))
          && negb (u32 (p_vaddr ph + p_memsz ph) <? p_vaddr ph)
          && negb (p_vaddr ph <? PGSIZE)).

(** What file_read () stores in a buffer in kernel memory. *)
Definition store_bytes (a : Z) (bs : list Z) : M pages unit :=
  access a (Z.of_nat (length bs));;
  modify (λ σ, set_bytes (λ x, if (a <=? x) && (x <? a + Z.of_nat (length bs))
                               then default 0 (bs !! Z.to_nat (x - a)) else bytes σ x) σ).
Definition read_into (f a size : Z) : M P Z :=
  '(n, bs) ← on_sys (file_read f size);
  on_pages (store_bytes a bs);;
  mret n.

(** One iteration: a page with the next bytes of the file and zeros, ... *)
Definition fill_page (f page_read_bytes page_zero_bytes : Z) : M P Z :=
  kpage ← on_pages (palloc_get_page PAL_USER);
  if kpage =? NULL then mret NULL
  else
    n ← read_into f kpage page_read_bytes;
    if negb (n =? page_read_bytes) then on_pages (palloc_free_page kpage);; mret NULL
    else on_pages (memset_ram (kpage + page_read_bytes) 0 page_zero_bytes);; mret kpage.
(** ... which is added to the address space, or freed. *)
Definition add_page (upage kpage : Z) (writable : bool) : M P bool :=
  ok ← install_page upage kpage writable;
  if negb ok then on_pages (palloc_free_page kpage);; mret false else mret true.
(** The loop of load_segment (). *)
Fixpoint segment_loop (fuel : nat) (f upage read_bytes zero_bytes : Z) (writable : bool) : M P bool :=
  match fuel with
  | O => nofuel
  | S fuel =>
    if (0 <? read_bytes) || (0 <? zero_bytes) then
      let page_read_bytes := if read_bytes <? PGSIZE then read_bytes else PGSIZE in
      let page_zero_bytes := PGSIZE - page_read_bytes in
      kpage ← fill_page f page_read_bytes page_zero_bytes;
      if kpage =? NULL then mret false
      else
        ok ← add_page upage kpage writable;
        if negb ok then mret false
        else segment_loop fuel f (u32 (upage + PGSIZE)) (u32 (read_bytes - page_read_bytes))
               (u32 (zero_bytes - page_zero_bytes)) writable
    else mret true
  end.
Definition load_segment (f ofs upage read_bytes zero_bytes : Z) (writable : bool) : M P bool :=
  assert (u32 (read_bytes + zero_bytes) mod PGSIZE =? 0);;
  assert (pg_ofs upage =? 0);;
  assert (Z.rem ofs PGSIZE =? 0);;
  on_sys (file_seek f ofs);;
  segment_loop (S (Z.to_nat ((read_bytes + zero_bytes) / PGSIZE))) f upage read_bytes zero_bytes writable.

(** ** The stack *)

(** An access of the running thread, in kernel mode, to the address [va]. *)
Definition translate (σ : mmu) (va : Z) : option Z :=
  if va <? PHYS_BASE then
    let pd := cr3 σ + PHYS_BASE in
    let pde := pde_at (bytes (ram σ)) pd (pd_no va) in
    let pte := word_at (bytes (ram σ)) (addr_of pde + 4 * pt_no va) in
    if negb (Z.land pde PTE_P =? 0) && negb (Z.land pte PTE_P =? 0) && negb (Z.land pte PTE_W =? 0)
    then Some (addr_of pte + va mod 4096) else None
  else if va <? ram_end (ram σ) then Some va else None.
Definition user_store (va v : Z) : M P unit :=
  s ← get; a ← from_option (translate (mm s) va);
  on_pages (access a 1;; modify (λ σ, set_bytes (λ x, if x =? a then u8 v else bytes σ x) σ)).
Definition user_store_word (va w : Z) : M P unit :=
  user_store va (w mod 2 ^ 8);;
  user_store (va + 1) (w / 2 ^ 8 mod 2 ^ 8);;
  user_store (va + 2) (w / 2 ^ 16 mod 2 ^ 8);;
  user_store (va + 3) (w / 2 ^ 24 mod 2 ^ 8).

(** for (i = ...; i >= 0; i--): the characters of an argument, the last one
    first.  [i] counts the iterations left. *)
Fixpoint push_chars (i : nat) (arg : list Z) (esp : Z) : M P Z :=
  match i with
  | O => mret esp
  | S i =>
    let esp := u32 (esp - 1) in
    c ← from_option ((arg ++ [0]) !! i);
    user_store esp c;;
    push_chars i arg esp
  end.
(** The loop over the arguments, from the last to the first; the result has the
    addresses where they start. *)
Fixpoint push_args (args : list (list Z)) (esp : Z) (where_ : list Z) : M P (Z * list Z) :=
  match args with
  | [] => mret (esp, where_)
  | arg :: args =>
    let esp := u32 (esp - 1) in
    user_store esp 0;;
    (** strlen (args[count] + 1) *)
    esp ← push_chars (S (length (tail arg))) arg esp;
    push_args args esp (esp :: where_)
  end.
Fixpoint push_zeros (n : nat) (esp : Z) : M P Z :=
  match n with
  | O => mret esp
  | S n => let esp := u32 (esp - 1) in user_store esp 0;; push_zeros n esp
  end.
Fixpoint push_pointers (ps : list Z) (esp : Z) : M P Z :=
  match ps with
  | [] => mret esp
  | p :: ps => let esp := u32 (esp - 4) in user_store_word esp p;; push_pointers ps esp
  end.
(** The part of setup_stack () after the page has been installed; [ret] is the
    uninitialised variable of that name. *)
Definition push_arguments (esp : Z) (file_name : list Z) (ret : Z) : M P Z :=
  let args := words [32] file_name in
  (if (length args <=? 130)%nat then mret tt else fault);;
  '(esp, where_) ← push_args (rev args) esp [];
  let align := Z.rem (s32 esp) 4 + 4 in
  esp ← push_zeros (Z.to_nat align) esp;
  let esp := u32 (esp - 4) in
  user_store esp 0;;
  esp ← push_pointers (rev where_) esp;
  let start := esp in
  let esp := u32 (esp - 4) in
  user_store_word esp start;;
  let esp := u32 (esp - 4) in
  user_store esp (Z.of_nat (length args));;
  let esp := u32 (esp - 4) in
  user_store esp ret;;
  mret esp.
Definition setup_stack (esp : Z) (file_name : list Z) (ret : Z) : M P (bool * Z) :=
  kpage ← on_pages (palloc_get_page (Z.lor PAL_USER PAL_ZERO));
  '(success, esp) ←
    (if negb (kpage =? NULL) then
       ok ← add_page (PHYS_BASE - PGSIZE) kpage true;
       mret (ok, if ok : bool then PHYS_BASE else esp)
     else mret (false, esp));
  esp ← push_arguments esp file_name ret;
  mret (success, esp).

(** ** load () *)

(** One program header that has been read; false stands for goto done. *)
Definition load_header (f : Z) (ph : Elf32_Phdr) : M P bool :=
  let t := p_type ph in
  if (t =? PT_DYNAMIC) || (t =? PT_INTERP) || (t =? PT_SHLIB) then mret false
  else if t =? PT_LOAD then
    ok ← validate_segment ph f;
    if ok : bool then
      let writable := negb (Z.land (p_flags ph) PF_W =? 0) in
      let file_page := Z.land (p_offset ph) (u32 (Z.lnot PGMASK)) in
      let mem_page := Z.land (p_vaddr ph) (u32 (Z.lnot PGMASK)) in
      let '(read_bytes, zero_bytes) := segment_bytes ph in
      load_segment f (s32 file_page) mem_page read_bytes zero_bytes writable
    else mret false
  else mret true.
Fixpoint load_headers (n : nat) (f file_ofs : Z) : M P bool :=
  match n with
  | O => mret true
  | S n =>
    len ← on_sys (file_length f);
    if (file_ofs <? 0) || (len <? file_ofs) then mret false
    else
      on_sys (file_seek f file_ofs);;
      '(got, bs) ← on_sys (file_read f PHDR_SIZE);
      if negb (got =? PHDR_SIZE) then mret false
      else
        ok ← load_header f (phdr_of bs);
        if ok : bool then load_headers n f (s32 (file_ofs + PHDR_SIZE)) else mret false
  end.

(** What load () does between opening the file and the label done; the result is
    success with *eip and *esp. *)
Definition load_file (f : Z) (file_name : list Z) (eip esp ret : Z) : M P (bool * Z * Z) :=
  on_sys (file_deny_write f);;
  '(got, bs) ← on_sys (file_read f EHDR_SIZE);
  let h := ehdr_of bs in
  if negb (got =? EHDR_SIZE) || bad_header h then mret (false, eip, esp)
  else
    ok ← load_headers (Z.to_nat (e_phnum h)) f (s32 (e_phoff h));
    if negb ok then mret (false, eip, esp)
    else
      '(ok, esp) ← setup_stack esp file_name ret;
      if negb ok then mret (false, eip, esp) else mret (true, e_entry h, esp).
Definition load (file_name : list Z) (eip esp ret : Z) : M P (bool * Z * Z) :=
  pd ← on_mm pagedir_create;
  modify (set_pagedir pd);;
  r ← (if pd =? NULL then mret (false, eip, esp)
       else
         process_activate;;
         (** the array s[100] *)
         (if (length file_name <? 100)%nat then mret tt else fault);;
         real_file_name ← from_option (head (words [32] file_name));
         f ← on_sys (filesys_open nest real_file_name);
         modify (set_save f);;
         if f =? NULL then mret (false, eip, esp)
         else load_file f file_name eip esp ret);
  modify up_exec_block;;
  mret r.
End process.
