(* ===== verification/ProcessThms.v ===== *)
(** * Theorems on userprog/process.c

    The loader against the memory that the process will see: a segment is the
    bytes of the file followed by zeros, whatever the executable contains no
    assertion fails, and the stack that the program starts with holds its
    arguments. *)

From S2P Require Import Prelude Bitmap CString Block BlockThms Inode InodeInv InodeThms Directory.
From S2P Require Import Vaddr Palloc Ram Pagedir PagedirThms AddressSpace Process.
Local Open Scope Z_scope.
Local Ltac Zify.zify_post_hook ::= Z.to_euclidean_division_equations.

Section theorems.
Context {D : Type} `{BlockDevice D}.
Notation F := (fs D).
Notation P := (machine D).
Implicit Types (s : F) (i : inode) (m : P).

(** ** Reading the executable *)

(** FILE [f] is open at [pos]; its inode [i], at address [p], is all in direct
    sectors. *)
Record opened s (f p : Z) i (pos : Z) : Prop := {
  of_file : ∃ deny, files s !! f = Some (mk_file p pos deny);
  of_ok : file_ok s p i;
  of_dev : dev_ok (fs_device s);
  of_heap : heap_ok s;
  of_len : len i < DIRECT_BYTES;
  of_null : f ≠ NULL
}.
(** At most the positions of open files have changed. *)
Definition only_pos s s' : Prop := frame none s (with_files (files s) s').

Lemma only_pos_refl s : dev_ok (fs_device s) → only_pos s s.
Proof. by split. Qed.
Lemma only_pos_trans s1 s2 s3 : only_pos s1 s2 → only_pos s2 s3 → only_pos s1 s3.
Proof.
  intros F1 F2. unfold only_pos in *. eapply frame_trans; [exact F1|].
  destruct F2. split; simpl in *; try done.
Qed.
Lemma only_pos_files s s' fm : frame none s s' → only_pos s (with_files fm s').
Proof. intros []. by split. Qed.
Lemma opened_content s s' f p i pos x :
  only_pos s s' → opened s f p i pos → 0 ≤ x < len i → content_at s' i x = content_at s i x.
Proof.
  intros Hf Ho Hx. change (content_at s' i x) with (content_at (with_files (files s) s') i x).
  eapply content_at_frame; [exact Hf|apply Ho|by intros ? ? []|done].
Qed.
Lemma opened_step s s' f p i pos pos' :
  only_pos s s' → opened s f p i pos → (∃ deny, files s' !! f = Some (mk_file p pos' deny)) →
  opened s' f p i pos'.
Proof.
  intros Hf [_ Hok _ Hh Hl Hn] He. split; [done| | |by eapply heap_ok_frame in Hf|done|done].
  - apply (file_ok_frame _ _ _ _ _ Hf) in Hok. by destruct Hok.
  - apply Hf.
Qed.

Lemma wp_file_length s f p i pos Q :
  opened s f p i pos → Q (len i) s → wp (file_length f) s Q.
Proof.
  intros [[deny Ef] Hok _ _ _ Hn] HQ. unfold file_length, get_file. do 2 wp_step.
  { by apply negb_true_iff, Z.eqb_neq. }
  do 3 wp_step. apply (wp_from_option _ (mk_file p pos deny)); [done|]. apply (wp_inode_length _ _ i); [apply Hok|done].
Qed.
Lemma wp_file_seek s f p i pos new Q :
  opened s f p i pos → 0 ≤ new →
  (∀ s', only_pos s s' → opened s' f p i new → Q tt s') → wp (file_seek f new) s Q.
Proof.
  intros Ho Hnew HQ. pose proof Ho as [[deny Ef] Hok Hd _ _ Hn]. unfold file_seek, get_file, set_file.
  do 2 wp_step. { by apply negb_true_iff, Z.eqb_neq. }
  do 2 wp_step. { lia. }
  do 3 wp_step. apply (wp_from_option _ (mk_file p pos deny)); [done|]. wp_step.
  assert (only_pos s (with_files (<[f:=mk_file p new deny]> (files s)) s)) as Hs
    by by apply only_pos_files, frame_refl.
  apply HQ; [done|]. eapply opened_step; [done..|]. exists deny. apply lookup_insert_eq.
Qed.
(** file_read () is all or nothing: within the file it reads everything, and a
    read across the end counts as 0. *)
Lemma wp_file_read s f p i pos size Q :
  opened s f p i pos → 0 ≤ size → 0 ≤ pos ≤ len i →
  (∀ s' n bs, only_pos s s' → opened s' f p i (pos + n) → Z.of_nat (length bs) ≤ size →
     (n = size ∧ (size = 0 ∨ pos + size ≤ len i) ∧ bs = content s i pos size ∨
      n = 0 ∧ 0 < size ∧ len i < pos + size) → Q (n, bs) s') →
  wp (file_read f size) s Q.
Proof.
  intros Ho Hsz Hpos HQ. pose proof Ho as [[deny Ef] Hok Hd Hh Hl Hn]. unfold file_read, get_file, set_file.
  wp_step. do 2 wp_step. apply (wp_from_option _ (mk_file p pos deny)); [done|]. wp_step.
  apply (wp_inode_read_at _ _ i); simpl; [done|done|done|done|lia|lia|]. intros s' Fs _.
  assert (∀ n, only_pos s (with_files (<[f:=mk_file p (pos + n) deny]> (files s')) s')) as Hs
    by (intros n; by apply only_pos_files).
  assert (∀ n, opened (with_files (<[f:=mk_file p (pos + n) deny]> (files s')) s') f p i (pos + n)) as Hop.
  { intros n. eapply opened_step; [done..|]. exists deny. apply lookup_insert_eq. }
  unfold read_result. destruct (decide (size = 0 ∨ pos + size ≤ len i)) as [Hin|Hout]; do 3 wp_step; rewrite app_nil_l; (apply HQ; [done|done| |]).
  - rewrite content_length. lia.
  - left. split_and!; [done|done|done].
  - rewrite content_length. lia.
  - right. lia.
Qed.

(** ** Address spaces of processes *)

Notation R m := (ram (mm m)).
Definition with_pages (r : pages) m : P := with_mm (with_ram r (mm m)) m.
Lemma with_pages_same m : with_pages (R m) m = m.
Proof. by destruct m as [[] ? ? ? ? ? ?]. Qed.
Lemma with_mm_same m : with_mm (mm m) m = m.
Proof. by destruct m. Qed.
Lemma wp_on_pages {A} (c : M pages A) m Q :
  wp c (R m) (λ a r, Q a (with_pages r m)) → wp (on_pages c) m Q.
Proof. intros Hc. unfold on_pages, on_mm. by apply wp_zoom, wp_on_ram. Qed.
Lemma wp_on_sys {A} (c : M F A) m Q :
  wp c (sys m) (λ a s, Q a (with_sys s m)) → wp (on_sys c) m Q.
Proof. intros Hc. by apply wp_zoom. Qed.

(** Everything load () needs to go on: an address space and an open file. *)
Record ready m (f p : Z) i (pos : Z) : Prop := {
  rd_space : space (R m) (pagedir m);
  rd_init : pagedir m ≠ init_page_dir (mm m);
  rd_file : opened (sys m) f p i pos
}.
(** The process has got more memory: what it had is unchanged, and so are the
    pages of others. *)
Record grows m m' : Prop := {
  gw_rest : m' = with_pages (R m') (with_sys (sys m') m);
  gw_frame : pd_frame (pagedir m) (R m) (R m');
  gw_sys : only_pos (sys m) (sys m');
  gw_mem va : 0 ≤ va < PHYS_BASE → umem (R m) (pagedir m) va ≠ None →
    umem (R m') (pagedir m) va = umem (R m) (pagedir m) va;
  gw_maps vpn : user_page vpn → maps (R m) (pagedir m) vpn ≠ None →
    maps (R m') (pagedir m) vpn = maps (R m) (pagedir m) vpn
}.

Lemma grows_refl m : dev_ok (fs_device (sys m)) → grows m m.
Proof.
  intros Hd. split; [by destruct m as [[] ? ? ? ? ? ?]|apply pd_frame_refl|by apply only_pos_refl|done|done].
Qed.
Lemma grows_pagedir m m' : grows m m' → pagedir m' = pagedir m ∧ mm m' = with_ram (R m') (mm m).
Proof. intros [E _ _ _ _]. by rewrite E. Qed.
Lemma grows_trans m1 m2 m3 : grows m1 m2 → grows m2 m3 → grows m1 m3.
Proof.
  intros H12 H23. destruct (grows_pagedir _ _ H12) as [Epd _].
  destruct H12 as [E12 F12 S12 U12 M12], H23 as [E23 F23 S23 U23 M23]. rewrite Epd in *. split.
  - rewrite E23, E12. by destruct m1.
  - by eapply pd_frame_trans.
  - by eapply only_pos_trans.
  - intros va Hva Hn. rewrite U23; [by apply U12|done|]. by rewrite U12.
  - intros vpn Hv Hn. rewrite M23; [by apply M12|done|]. by rewrite M12.
Qed.

Lemma grows_ready m m' f p i pos pos' :
  grows m m' → ready m f p i pos → space (R m') (pagedir m) → opened (sys m') f p i pos' →
  ready m' f p i pos'.
Proof. intros Hg [_ Hi _] Hsp Ho. destruct (grows_pagedir _ _ Hg) as [E1 E2]. split; rewrite ?E1; [done| |done]. by rewrite E2. Qed.

Lemma wp_install_page m upage k (w : bool) Q :
  space (R m) (pagedir m) → loose (R m) (pagedir m) k → pagedir m ≠ init_page_dir (mm m) →
  upage mod 4096 = 0 → 0 ≤ upage < PHYS_BASE →
  (∀ r, maps (R m) (pagedir m) (upage / 4096) = None →
     pte_set (pagedir m) upage (k - PHYS_BASE + (if w then 7 else 5)) (R m) r → Q true (with_pages r m)) →
  (maps (R m) (pagedir m) (upage / 4096) ≠ None ∨ exhausted (R m) false 1 → Q false m) →
  wp (install_page upage k w) m Q.
Proof.
  intros [Hpd Hf _] Hk Hinit Ha Hu HQ HE. unfold install_page, on_mm. do 2 wp_step. wp_step. apply wp_zoom.
  unfold wp at 1. rewrite get_page_maps by done.
  destruct (maps (R m) (pagedir m) (upage / 4096)) as [[k' w']|] eqn:E.
  - destruct (Hf _ _ _ (user_page_of _ Hu) E) as [[_ Hl _ _] _].
    rewrite (proj2 (Z.eqb_neq _ _)) by (unfold PHYS_BASE, Palloc.NULL in *; lia). wp_step.
    rewrite with_mm_same. apply HE. by left.
  - change (Palloc.NULL =? NULL) with true. cbv iota. apply wp_zoom. rewrite with_mm_same.
    pose proof (lo_page _ _ _ Hk) as [Hka Hkl Hkh _].
    apply wp_pagedir_set_page; [done..| | |].
    + unfold maps in E. rewrite pte_of_page in E by lia. simpl in E. by case_decide.
    + intros r Hr. change (with_mm _ _) with (with_pages r m). by apply HQ.
    + intros Hex. rewrite with_mm_same. apply HE. by right.
Qed.

(** ** Segments *)

(** A page of its own that the process has just got and filled. *)
Record filled m m' (k : Z) : Prop := {
  fi_rest : m' = with_pages (R m') (with_sys (sys m') m);
  fi_sys : only_pos (sys m) (sys m');
  fi_space : space (R m') (pagedir m);
  fi_mem va : 0 ≤ va < PHYS_BASE → umem (R m') (pagedir m) va = umem (R m) (pagedir m) va;
  fi_maps vpn : user_page vpn → maps (R m') (pagedir m) vpn = maps (R m) (pagedir m) vpn;
  fi_loose : loose (R m') (pagedir m) k;
  fi_fresh : used (R m) (k / 4096) = false;
  fi_pool : base (user_pool (R m')) ≤ k;
  fi_frame : pd_frame (pagedir m) (R m) (R m');
  fi_kernel : exhausted (R m') false 1 → exhausted (R m) false 1
}.

Lemma granted_user_exhausted (r r' : pages) k g :
  palloc_ok r → granted true k 1 g r r' → exhausted r' false 1 → exhausted r false 1.
Proof.
  intros Hok [Hb _ Ha _ [_ _ [E1 E2] _ _ Hout _]] Hex n Hn Hn' Hfree.
  apply (Hex n); unfold first_page in *; simpl in *; rewrite ?E1, ?E2; [done..|]. intros pn Hpn.
  rewrite Hout; [by apply Hfree|]. pose proof (pk_apart _ Hok). pose proof (po_align _ _ (pk_kernel _ Hok)). lia.
Qed.
Lemma filled_granted m k g r :
  space (R m) (pagedir m) → dev_ok (fs_device (sys m)) → granted true k 1 g (R m) r →
  (∀ x, x < k ∨ k + 4096 ≤ x → g x = bytes (R m) x) →
  PHYS_BASE ≤ k → k + 4096 ≤ ram_end (R m) → filled m (with_pages r m) k.
Proof.
  intros Hsp Hd Hg Hx Hl Hh. pose proof (kept_granted _ _ _ _ _ Hg Hx) as HK.
  destruct (kept_space _ _ _ _ HK Hsp) as [Hsp' Hm]; [tauto..|].
  destruct (granted_page _ _ _ _ _ (pd_palloc _ _ (sp_pd _ _ Hsp)) Hg Hl Hh) as [_ Hu]. split; simpl.
  - by destruct m.
  - by apply only_pos_refl.
  - done.
  - done.
  - intros vpn Hv. by apply (kept_maps _ _ _ _ HK (sp_pd _ _ Hsp)); [tauto|].
  - by apply (granted_loose _ _ _ _ _ _ Hsp Hg Hx).
  - done.
  - destruct Hg as [Hb _ _ _ [_ _ _ [E _] _ _ _]]. simpl in Hb. by rewrite E.
  - apply (frame_granted _ _ _ _ _ _ Hsp Hg Hx).
  - eapply granted_user_exhausted; [apply Hsp|exact Hg].
Qed.
(** The page may be written. *)
Lemma filled_bytes m m' k f :
  palloc_ok (R m) → filled m m' k → (∀ x, x < k ∨ k + 4096 ≤ x → f x = bytes (R m') x) →
  filled m (with_pages (set_bytes f (R m')) m') k.
Proof.
  intros Hok [E Hs Hsp Hm Hmp Hl Hu Hp Hf Hke] Hx. pose proof (lo_page _ _ _ Hl) as Hpg.
  pose proof (kept_bytes k f (R m') (pd_palloc _ _ (sp_pd _ _ Hsp)) (pg_align _ _ Hpg) Hx) as HK.
  destruct (loose_space _ _ _ _ Hsp Hl HK) as [Hsp' Hm'].
  assert (∀ q, tables_page (R m') (pagedir m) q → q ≠ k) as Hne by (intros q Hq ->; by apply (lo_tables _ _ _ Hl)).
  assert (∀ vpn, user_page vpn → maps (set_bytes f (R m')) (pagedir m) vpn = maps (R m') (pagedir m) vpn) as Em.
  { intros vpn Hv. by apply (kept_maps _ _ _ _ HK (sp_pd _ _ Hsp)). }
  split; simpl.
  - rewrite E. by destruct m.
  - done.
  - done.
  - intros va Hva. rewrite Hm' by done. by apply Hm.
  - intros vpn Hv. rewrite Em by done. by apply Hmp.
  - split; [by destruct Hpg|rewrite (kept_tables _ _ _ _ HK (sp_pd _ _ Hsp) Hne); apply Hl|].
    intros vpn k' w Hv. rewrite Em by done. by eapply (lo_maps _ _ _ Hl).
  - done.
  - done.
  - eapply frame_private; [done|done|apply Hsp|apply Hl|done|done].
  - done.
Qed.
Lemma filled_sys m m' k s' :
  filled m m' k → only_pos (sys m') s' → filled m (with_sys s' m') k.
Proof.
  intros [E Hs Hsp Hm Hmp Hl Hu Hp Hf Hke] Hs'. split; simpl; [rewrite E; by destruct m|by eapply only_pos_trans|done..].
Qed.

Lemma filled_freed m m' k r :
  palloc_ok (R m) → filled m m' k → freed [k] (R m') r →
  space r (pagedir m) ∧ grows m (with_pages r m') ∧ (exhausted (R m') false 1 → exhausted r false 1).
Proof.
  intros Hok [E Hs Hsp Hm Hmp Hl Hu Hp Hf _] Hfr. pose proof (kept_freed _ _ _ Hfr) as HK.
  destruct (loose_space _ _ _ _ Hsp Hl HK) as [Hsp' Hm']. split_and!; [done| |].
  - split; simpl.
    + rewrite E. by destruct m.
    + eapply frame_private; [done|done|apply Hsp|apply Hl|done|done].
    + done.
    + intros va Hva _. rewrite Hm' by done. by apply Hm.
    + intros vpn Hv _. rewrite (kept_maps _ _ _ _ HK (sp_pd _ _ Hsp)); [by apply Hmp| |done].
      intros q Hq ->. by apply (lo_tables _ _ _ Hl).
  - intros Hex n Hn Hn' Hfree. destruct (fd_pools _ _ _ Hfr false) as [Eb Ec].
    unfold first_page in *. rewrite Eb, Ec in *. apply (Hex n); [done..|]. intros pn Hpn.
    specialize (Hfree pn Hpn). rewrite (fd_used _ _ _ Hfr) in Hfree. rewrite bool_decide_eq_true_2, andb_true_r in Hfree; [done|].
    rewrite list_elem_of_singleton. intros Ek. pose proof (pd_palloc _ _ (sp_pd _ _ Hsp)) as Hok'.
    pose proof (pk_apart _ Hok') as Hap. pose proof (po_align _ _ (pk_kernel _ Hok')) as Ha.
    simpl in Hn, Hn'. lia.
Qed.

Lemma wp_store_bytes a bs (r : pages) Q :
  PHYS_BASE ≤ a → a + Z.of_nat (length bs) ≤ ram_end r →
  Q tt (set_bytes (λ x, if (a <=? x) && (x <? a + Z.of_nat (length bs))
                       then default 0 (bs !! Z.to_nat (x - a)) else bytes r x) r) →
  wp (store_bytes a bs) r Q.
Proof. intros Hl Hh HQ. unfold store_bytes. wp_step. apply wp_access; [done..|]. by wp_step. Qed.

Lemma wp_get_user_page m Q :
  space (R m) (pagedir m) → dev_ok (fs_device (sys m)) →
  (exhausted (R m) true 1 → Q Palloc.NULL m) →
  (∀ k m', filled m m' k → sys m' = sys m → Q k m') →
  wp (on_pages (palloc_get_page PAL_USER)) m Q.
Proof.
  intros Hsp Hd HE HQ. apply wp_on_pages, (wp_wpp _ _ _ False); [tauto|].
  apply wpp_palloc_get_multiple; [apply Hsp|done| |lia| |done].
  - intros k r _ Hl Hh Hg. apply HQ; [|done]. by eapply filled_granted.
  - intros Hex _. rewrite with_pages_same. by apply HE.
Qed.

Lemma filled_page m m' k : filled m m' k →
  k mod 4096 = 0 ∧ PHYS_BASE ≤ k ∧ k + 4096 ≤ ram_end (R m') ∧ (k =? NULL) = false.
Proof.
  intros Hf. destruct (lo_page _ _ _ (fi_loose _ _ _ Hf)) as [Ha Hl Hh _]. split_and!; [done..|].
  apply Z.eqb_neq. unfold PHYS_BASE, NULL in *. lia.
Qed.

Lemma content_default s i pos n x :
  0 ≤ x < n → default 0 (content s i pos n !! Z.to_nat x) = content_at s i (pos + x).
Proof. intros Hx. by rewrite content_lookup. Qed.

Lemma wp_fill_page m f p i pos c Q :
  ready m f p i pos → 0 ≤ c ≤ 4096 → 0 ≤ pos ≤ len i →
  (∀ m' pos', ready m' f p i pos' → 0 ≤ pos' ≤ len i → grows m m' →
     exhausted (R m') true 1 ∨ len i < pos + c → Q NULL m') →
  (∀ m' k, filled m m' k → opened (sys m') f p i (pos + c) → (c = 0 ∨ pos + c ≤ len i) →
     (∀ x, 0 ≤ x < 4096 → bytes (R m') (k + x) = if decide (x < c) then content_at (sys m) i (pos + x) else 0) →
     Q k m') →
  wp (fill_page f c (4096 - c)) m Q.
Proof.
  intros Hrd Hc Hpos HN HQ. pose proof Hrd as [Hsp Hinit Hop]. pose proof (pd_palloc _ _ (sp_pd _ _ Hsp)) as Hok.
  unfold fill_page. wp_step. apply wp_get_user_page; [done|apply Hop| |].
  { intros Hex. change (Palloc.NULL =? NULL) with true. cbv iota. wp_step. eapply HN; [done..|apply grows_refl, Hop|by left]. }
  intros k m1 Hf1 Es1. destruct (filled_page _ _ _ Hf1) as (Ha & Hl & Hh & En). rewrite En. unfold read_into.
  do 2 wp_step. apply wp_on_sys. rewrite Es1. apply (wp_file_read _ _ p i pos); [done|lia|done|].
  intros s' n bs Hs' Hop' Hlen Hcase. wp_step. pose proof (filled_sys _ _ _ s' Hf1) as Hf2. rewrite Es1 in Hf2.
  specialize (Hf2 Hs'). apply wp_on_pages, wp_store_bytes; [done|simpl; lia|]. wp_step. simpl ram.
  apply (filled_bytes _ _ _ (λ x, if (k <=? x) && (x <? k + Z.of_nat (length bs))
    then default 0 (bs !! Z.to_nat (x - k)) else bytes (R m1) x) Hok) in Hf2.
  2: { intros x Hx. rewrite (proj2 (andb_false_iff _ _)); [done|]. rewrite Z.leb_gt, Z.ltb_ge. lia. }
  simpl in Hf2. set (m3 := with_pages _ _) in *. destruct (filled_page _ _ _ Hf2) as (_ & _ & Hh3 & _).
  destruct Hcase as [(-> & Hin & ->)|(-> & Hc0 & Hout)].
  - rewrite Z.eqb_refl. simpl negb. cbv iota. wp_step. apply wp_on_pages, wp_memset_ram; [lia|lia|]. wp_step.
    apply HQ; [apply filled_bytes; [done|done|]|done|done|].
    + intros x Hx. unfold fill. rewrite (proj2 (andb_false_iff _ _)); [done|]. rewrite Z.leb_gt, Z.ltb_ge. lia.
    + intros x Hx. simpl. unfold fill. change (u8 0) with 0. rewrite content_length in *.
      destruct (decide (x < c)) as [Hlt|Hge].
      * rewrite (proj2 (Z.leb_gt _ _)) by lia. simpl andb. cbv iota.
        rewrite (proj2 (Z.leb_le _ _)), (proj2 (Z.ltb_lt _ _)) by lia. simpl andb. cbv iota.
        replace (k + x - k) with x by lia. apply content_default. lia.
      * by rewrite (proj2 (Z.leb_le _ _)), (proj2 (Z.ltb_lt _ _)) by lia.
  - rewrite (proj2 (Z.eqb_neq _ _)) by lia. simpl negb. cbv iota. wp_step.
    apply wp_on_pages, wp_free_page; [apply Hf2|apply Hf2|]. intros r Hr. wp_step.
    destruct (filled_freed _ _ _ _ Hok Hf2 Hr) as (Hsp' & Hg & _).
    eapply (HN _ (pos + 0)); [|lia|done|by right]. by apply (grows_ready m _ _ _ _ pos).
Qed.

Lemma wp_add_page m0 m f p i pos k upage (w : bool) Q :
  ready m0 f p i pos → filled m0 m k → upage mod 4096 = 0 → 0 ≤ upage < PHYS_BASE →
  (∀ m', grows m0 m' → space (R m') (pagedir m0) → sys m' = sys m →
     maps (R m0) (pagedir m0) (upage / 4096) = None →
     (∀ vpn, user_page vpn → maps (R m') (pagedir m0) vpn =
        if decide (vpn = upage / 4096) then Some (k, w) else maps (R m0) (pagedir m0) vpn) →
     (∀ va, 0 ≤ va < PHYS_BASE → umem (R m') (pagedir m0) va =
        if decide (va / 4096 = upage / 4096) then Some (bytes (R m) (k + va mod 4096))
        else umem (R m0) (pagedir m0) va) → Q true m') →
  (∀ m', grows m0 m' → space (R m') (pagedir m0) → sys m' = sys m →
     maps (R m0) (pagedir m0) (upage / 4096) ≠ None ∨
       exhausted (R m0) false 1 ∧ exhausted (R m') false 1 → Q false m') →
  wp (add_page upage k w) m Q.
Proof.
  intros Hrd Hf Ha Hu HQ HE. pose proof Hrd as [Hsp0 Hinit _]. pose proof Hf as [E Hs Hsp Hm Hmp Hl Hfresh Hpool Hfr Hke].
  pose proof (user_page_of _ Hu) as Hup. pose proof (pd_palloc _ _ (sp_pd _ _ Hsp0)) as Hok.
  assert (pagedir m = pagedir m0) as Epd by by rewrite E.
  assert (init_page_dir (mm m) = init_page_dir (mm m0)) as Ein by by rewrite E.
  unfold add_page. wp_step. apply wp_install_page; rewrite ?Epd, ?Ein; [done..| |].
  - intros r Hnone Hr. rewrite Hmp in Hnone by done. simpl negb. cbv iota. wp_step.
    destruct (set_page_space _ _ _ w _ r Hsp Hl Hu) as (Hsp' & Hmp' & Hm'); [by rewrite Hmp|done|].
    assert (∀ vpn, user_page vpn → maps r (pagedir m0) vpn =
      if decide (vpn = upage / 4096) then Some (k, w) else maps (R m0) (pagedir m0) vpn) as Emp.
    { intros vpn Hv. rewrite Hmp' by done. by rewrite Hmp. }
    assert (∀ va, 0 ≤ va < PHYS_BASE → umem r (pagedir m0) va =
      if decide (va / 4096 = upage / 4096) then Some (bytes (R m) (k + va mod 4096))
      else umem (R m0) (pagedir m0) va) as Emm.
    { intros va Hva. rewrite Hm' by done. by rewrite Hm. }
    apply HQ; [|done..]. split; simpl.
    + rewrite E. by destruct m0.
    + eapply pd_frame_trans; [done|apply Hr].
    + done.
    + intros va Hva Hn. rewrite Emm by done. case_decide as Ev; [|done]. unfold umem in Hn. by rewrite Ev, Hnone in Hn.
    + intros vpn Hv Hn. rewrite Emp by done. case_decide; [congruence|done].
  - intros Hwhy. simpl negb. cbv iota. wp_step. apply wp_on_pages, wp_free_page; [apply Hsp|apply Hl|].
    intros r Hr. wp_step. destruct (filled_freed _ _ _ _ Hok Hf Hr) as (Hsp' & Hg & Hex).
    apply HE; [done..|]. rewrite Hmp in Hwhy by done. simpl. tauto.
Qed.

(** What load_segment () leaves in user memory. *)
Definition segment_loaded m m' i (pos upage rb size : Z) (w : bool) : Prop :=
  ∀ va, 0 ≤ va < PHYS_BASE →
    if decide (upage ≤ va < upage + size) then
      umem (R m) (pagedir m) va = None ∧
      umem (R m') (pagedir m) va =
        Some (if decide (va - upage < rb) then content_at (sys m) i (pos + (va - upage)) else 0) ∧
      ∃ k, maps (R m') (pagedir m) (va / 4096) = Some (k, w)
    else umem (R m') (pagedir m) va = umem (R m) (pagedir m) va ∧
      maps (R m') (pagedir m) (va / 4096) = maps (R m) (pagedir m) (va / 4096).
(** Why it can fail. *)
Definition segment_fails m m' i (pos upage rb size : Z) : Prop :=
  exhausted (R m') true 1 ∨ exhausted (R m') false 1 ∨ len i < pos + rb ∨
  ∃ va, upage ≤ va < upage + size ∧ umem (R m) (pagedir m) va ≠ None.

Lemma maps_umem r pd va : maps r pd (va / 4096) = None ↔ umem r pd va = None.
Proof. unfold umem. by destruct (maps r pd (va / 4096)) as [[]|]. Qed.

Lemma wp_segment_loop n fuel m f p i pos upage rb zb (w : bool) Q :
  (n < fuel)%nat → rb + zb = 4096 * Z.of_nat n → 0 ≤ rb → 0 ≤ zb →
  upage mod 4096 = 0 → 0 ≤ upage → upage + 4096 * Z.of_nat n ≤ PHYS_BASE →
  ready m f p i pos → 0 ≤ pos ≤ len i →
  (∀ m' pos', ready m' f p i pos' → 0 ≤ pos' ≤ len i → grows m m' → pos + rb ≤ len i →
     segment_loaded m m' i pos upage rb (4096 * Z.of_nat n) w → Q true m') →
  (∀ m' pos', ready m' f p i pos' → 0 ≤ pos' ≤ len i → grows m m' →
     segment_fails m m' i pos upage rb (4096 * Z.of_nat n) → Q false m') →
  wp (segment_loop fuel f upage rb zb w) m Q.
Proof.
  revert fuel m pos upage rb zb Q. induction n as [|n IH]; intros fuel m pos upage rb zb Q Hfuel Hsum Hrb Hzb Ha Hu Hend Hrd Hpos HQ HE.
  { destruct fuel as [|fuel]; [lia|]. cbn [segment_loop]. rewrite !(proj2 (Z.ltb_ge _ _)) by lia. simpl orb. cbv iota.
    wp_step. eapply HQ; [done..|apply grows_refl, Hrd|lia|]. intros va Hva. by rewrite decide_False by lia. }
  destruct fuel as [|fuel]; [lia|]. cbn [segment_loop]. rewrite PGSIZE_eq.
  rewrite (proj2 (orb_true_iff _ _)) by (rewrite !Z.ltb_lt; lia).
  set (c := if rb <? 4096 then rb else 4096). assert (0 ≤ c ≤ 4096 ∧ c = Z.min rb 4096) as [Hc Ec]
    by (unfold c; destruct (Z.ltb_spec rb 4096); lia). clearbody c. cbv zeta. wp_step.
  apply (wp_fill_page _ _ p i pos); [done..| |].
  { intros m' pos' Hrd' Hpos' Hg Hwhy. change (NULL =? NULL) with true. cbv iota. wp_step.
    eapply HE; [done..|]. unfold segment_fails. destruct Hwhy; [by left|]. right; right; left. lia. }
  intros m1 k Hf1 Hop1 Hin Hby. destruct (filled_page _ _ _ Hf1) as (_ & _ & _ & ->). wp_step.
  eapply wp_add_page; [done|done|done|unfold PHYS_BASE in *; lia| |].
  - intros m2 Hg Hsp2 Es2 Hnone Hmp Hmem. simpl negb. cbv iota. rewrite <-Es2 in Hop1.
    pose proof (grows_ready _ _ _ _ _ _ _ Hg Hrd Hsp2 Hop1) as Hrd2.
    destruct (grows_pagedir _ _ Hg) as [Epd _].
    unfold PHYS_BASE in *. rewrite !wrap_small by lia.
    eapply (IH fuel m2 (pos + c)); [lia..|exact Hrd2|lia| |].
    + intros m' pos' Hrd' Hpos' Hg' Hlen Hld. eapply HQ; [done|done|by eapply grows_trans|lia|].
      intros va Hva. specialize (Hld va Hva). rewrite Epd in Hld.
      assert (user_page (va / 4096)) as Hv by by apply user_page_of.
      destruct (decide (upage ≤ va < upage + 4096 * Z.of_nat (S n))) as [Hr|Hr].
      * destruct (decide (upage + 4096 ≤ va < upage + 4096 + 4096 * Z.of_nat n)) as [Hr'|Hr'].
        -- destruct Hld as (Hold & Hnew & Hw). rewrite Hmem, decide_False in Hold by (unfold PHYS_BASE; lia).
           split_and!; [done| |done]. rewrite Hnew. f_equal.
           destruct (decide (va - (upage + 4096) < rb - c)), (decide (va - upage < rb)); [|lia|lia|done].
           rewrite (opened_content (sys m) (sys m2) f p i pos) by (apply Hg || apply Hrd || lia). f_equal. lia.
        -- destruct Hld as [Hnew Hnm]. rewrite Hmem, decide_True in Hnew by (unfold PHYS_BASE; lia).
           rewrite Hmp, decide_True in Hnm by (done || lia). split_and!.
           ++ apply maps_umem. by replace (va / 4096) with (upage / 4096) by lia.
           ++ rewrite Hnew, Hby by lia. f_equal. replace (va mod 4096) with (va - upage) by lia.
              destruct (decide (va - upage < c)), (decide (va - upage < rb)); [done|lia|lia|done].
           ++ by exists k.
      * rewrite decide_False in Hld by lia. destruct Hld as [Hnew Hnm].
        rewrite Hnew, Hnm, Hmem, Hmp by (done || (unfold PHYS_BASE; lia)).
        by rewrite !decide_False by lia.
    + intros m' pos' Hrd' Hpos' Hg' Hwhy. eapply HE; [done|done|by eapply grows_trans|].
      unfold segment_fails in *. destruct Hwhy as [?|[?|[?|(va & Hva & Hn)]]]; [tauto|tauto|right; right; left; lia|].
      right; right; right. exists va. split; [lia|]. rewrite Epd, Hmem, decide_False in Hn by (unfold PHYS_BASE; lia). done.
  - intros m2 Hg Hsp2 Es2 Hwhy. simpl negb. cbv iota. wp_step. rewrite <-Es2 in Hop1.
    eapply HE; [by eapply grows_ready|lia|done|]. unfold segment_fails. destruct Hwhy as [Hn|[_ ?]]; [|tauto].
    right; right; right. exists upage. split; [lia|]. by rewrite <-maps_umem.
Qed.

(** A segment is loaded page by page: on success the pages were unmapped and hold
    READ_BYTES bytes of the file from OFS on and zeros, with the rights asked for,
    and the rest of the user memory is as before; it fails only if a pool of pages
    is exhausted, the file is too short, or an address is mapped already. *)
Lemma wp_load_segment m f p i pos ofs upage rb zb (w : bool) :
  ready m f p i pos → 0 ≤ ofs ≤ len i → ofs mod 4096 = 0 → upage mod 4096 = 0 → 0 ≤ upage →
  0 ≤ rb → 0 ≤ zb → (rb + zb) mod 4096 = 0 → upage + rb + zb ≤ PHYS_BASE →
  wp (load_segment f ofs upage rb zb w) m (λ ok m',
    (∃ pos', ready m' f p i pos') ∧ grows m m' ∧
    if ok : bool then ofs + rb ≤ len i ∧ segment_loaded m m' i ofs upage rb (rb + zb) w
    else segment_fails m m' i ofs upage rb (rb + zb)).
Proof.
  intros Hrd Hofs Hoa Hua Hu Hrb Hzb Hmod Hend. unfold load_segment. unfold PHYS_BASE in Hend.
  wp_step. wp_step. { rewrite PGSIZE_eq, wrap_small by lia. by rewrite Hmod. }
  wp_step. wp_step. { by rewrite pg_ofs_mod, Hua. }
  wp_step. wp_step. { rewrite PGSIZE_eq. apply Z.eqb_eq. lia. }
  wp_step. apply wp_on_sys. apply (wp_file_seek _ _ p i pos); [apply Hrd|lia|]. intros s' Hs' Hop.
  assert (∀ m', grows (with_sys s' m) m' → grows m m') as Hgo.
  { intros m' [E F1 S U V]. split; [rewrite E; by destruct m|done|by eapply only_pos_trans|done|done]. }
  assert (∀ x, 0 ≤ x < len i → content_at s' i x = content_at (sys m) i x) as Hct.
  { intros x Hx. eapply opened_content; [done|apply Hrd|done]. }
  eapply (wp_segment_loop (Z.to_nat ((rb + zb) / 4096)) _ _ f p i ofs); rewrite ?PGSIZE_eq;
    [lia|lia|done|done|done|done|unfold PHYS_BASE; lia| |done| |].
  - destruct Hrd as [? ? ?]. by split.
  - intros m' pos' Hrd' _ Hg Hlen Hld. split_and!; [by eexists|by apply Hgo|done|]. intros va Hva.
    replace (rb + zb) with (4096 * Z.of_nat (Z.to_nat ((rb + zb) / 4096))) by lia.
    specialize (Hld va Hva). simpl in Hld. case_decide; [|done]. destruct Hld as (? & Hnew & ?).
    split_and!; [done| |done]. rewrite Hnew. case_decide; [|done]. by rewrite Hct by lia.
  - intros m' pos' Hrd' _ Hg Hf. split_and!; [by eexists|by apply Hgo|].
    by replace (rb + zb) with (4096 * Z.of_nat (Z.to_nat ((rb + zb) / 4096))) by lia.
Qed.

(** ** Program headers *)

(** What validate_segment () checks, in a file of [l] bytes. *)
Definition segment_valid (ph : Elf32_Phdr) (l : Z) : Prop :=
  p_offset ph mod 4096 = p_vaddr ph mod 4096 ∧ p_offset ph ≤ l ∧ p_filesz ph ≤ p_memsz ph ∧
  0 < p_memsz ph ∧ 4096 ≤ p_vaddr ph ∧ p_vaddr ph + p_memsz ph < PHYS_BASE.
#[local] Instance segment_valid_dec ph l : Decision (segment_valid ph l).
Proof. unfold segment_valid. apply _. Defined.
(** The members of a header are 32-bit words. *)
Record phdr_words (ph : Elf32_Phdr) : Prop := {
  pw_offset : 0 ≤ p_offset ph < 2 ^ 32;
  pw_vaddr : 0 ≤ p_vaddr ph < 2 ^ 32;
  pw_filesz : 0 ≤ p_filesz ph < 2 ^ 32;
  pw_memsz : 0 ≤ p_memsz ph < 2 ^ 32
}.
Lemma phdr_of_words bs : phdr_words (phdr_of bs).
Proof. split; by apply wrap_bounds. Qed.

Lemma PGMASK_land x : Z.land x PGMASK = x mod 4096.
Proof. exact (land_ones_lt x 12 ltac:(lia)). Qed.

Lemma wp_validate_segment m f p i pos ph Q :
  ready m f p i pos → phdr_words ph → Q (bool_decide (segment_valid ph (len i))) m →
  wp (validate_segment ph f) m Q.
Proof.
  intros [_ _ Hop] [Ho Hv Hf Hm] HQ. unfold validate_segment. rewrite !PGMASK_land.
  pose proof (fo_len _ _ _ (of_ok _ _ _ _ _ Hop)) as Hlen. pose proof (of_len _ _ _ _ _ Hop) as Hl. unfold DIRECT_BYTES in *.
  destruct (Z.eqb_spec (p_offset ph mod 4096) (p_vaddr ph mod 4096)) as [E|E]; simpl negb; cbv iota.
  2: { wp_step. rewrite bool_decide_eq_false_2 in HQ; [done|]. intros [? _]. done. }
  wp_step. apply wp_on_sys. eapply wp_file_length; [done|]. replace (with_sys (sys m) m) with m by by destruct m.
  wp_step. match goal with |- Q ?b m => replace b with (bool_decide (segment_valid ph (len i))); [done|] end.
  apply eq_true_iff_eq. rewrite bool_decide_eq_true, !andb_true_iff, !negb_true_iff. unfold is_user_vaddr.
  rewrite PGSIZE_eq, !Z.ltb_ge, !Z.ltb_lt, Z.eqb_neq. unfold segment_valid, PHYS_BASE. rewrite (wrap_small 32 (len i)) by lia.
  unfold wrap. lia.
Qed.

Definition writable (ph : Elf32_Phdr) : bool := negb (Z.land (p_flags ph) PF_W =? 0).
(** The memory image of a segment, as the header describes it. *)
Definition segment_image m s i (ph : Elf32_Phdr) : Prop :=
  ∀ va, p_vaddr ph ≤ va < p_vaddr ph + p_memsz ph →
    umem (R m) (pagedir m) va =
      Some (if decide (va < p_vaddr ph + p_filesz ph) then content_at s i (p_offset ph + (va - p_vaddr ph)) else 0) ∧
    ∃ k, maps (R m) (pagedir m) (va / 4096) = Some (k, writable ph).
Definition refused_type (ph : Elf32_Phdr) : Prop :=
  p_type ph = PT_DYNAMIC ∨ p_type ph = PT_INTERP ∨ p_type ph = PT_SHLIB.
Definition header_loaded m s i (ph : Elf32_Phdr) : Prop :=
  ¬ refused_type ph ∧ (p_type ph = PT_LOAD →
    segment_valid ph (len i) ∧ p_offset ph + p_filesz ph ≤ len i ∧ segment_image m s i ph).
Definition header_fails m i (ph : Elf32_Phdr) : Prop :=
  refused_type ph ∨ p_type ph = PT_LOAD ∧
    (¬ segment_valid ph (len i) ∨ exhausted (R m) true 1 ∨ exhausted (R m) false 1 ∨
     len i < p_offset ph + p_filesz ph ∨
     ∃ va, p_vaddr ph / 4096 ≤ va / 4096 ≤ (p_vaddr ph + p_memsz ph - 1) / 4096 ∧ umem (R m) (pagedir m) va ≠ None).

(** The arguments that load () computes for load_segment (). *)
Lemma segment_bytes_eq ph l :
  phdr_words ph → segment_valid ph l →
  let rb := (segment_bytes ph).1 in let zb := (segment_bytes ph).2 in
  rb = (if decide (0 < p_filesz ph) then p_vaddr ph mod 4096 + p_filesz ph else 0) ∧ 0 ≤ zb ∧
  rb + zb = 4096 * ((p_vaddr ph mod 4096 + p_memsz ph + 4095) / 4096).
Proof.
  intros [Ho Hv Hf Hm] (He & _ & Hfm & Hm0 & Hlo & Hhi). unfold PHYS_BASE in *.
  unfold segment_bytes, ROUND_UP_PAGE. rewrite PGMASK_land, PGSIZE_eq.
  assert (0 ≤ p_vaddr ph mod 4096 + p_memsz ph ≤ 0xc0000000) by lia.
  rewrite (wrap_small 32 (p_vaddr ph mod 4096 + p_memsz ph)) by lia.
  rewrite (wrap_small 32 (_ + 4096 - 1)) by lia. rewrite (wrap_small 32 (_ / 4096 * 4096)) by lia.
  destruct (Z.ltb_spec 0 (p_filesz ph)); simpl.
  - rewrite decide_True by done. rewrite !wrap_small by lia. lia.
  - rewrite decide_False by lia. lia.
Qed.

Lemma page_base x : 0 ≤ x < 2 ^ 32 → Z.land x (u32 (Z.lnot PGMASK)) = 4096 * (x / 4096).
Proof. apply land_addr. Qed.

Lemma refused_type_spec ph :
  (p_type ph =? PT_DYNAMIC) || (p_type ph =? PT_INTERP) || (p_type ph =? PT_SHLIB) = true ↔ refused_type ph.
Proof. unfold refused_type. rewrite !orb_true_iff, !Z.eqb_eq. tauto. Qed.

Lemma wp_load_header m f p i pos ph Q :
  ready m f p i pos → phdr_words ph →
  (∀ m' pos' (ok : bool), ready m' f p i pos' → grows m m' →
     (if ok then header_loaded m' (sys m) i ph else header_fails m' i ph) → Q ok m') →
  wp (load_header f ph) m Q.
Proof.
  intros Hrd Hw HQ. unfold load_header. pose proof (refused_type_spec ph) as Hty.
  assert (grows m m) as Hrefl by apply grows_refl, Hrd.
  destruct (_ || _ || _) eqn:Et. { wp_step. eapply HQ; [done..|]. left. by apply Hty. }
  assert (¬ refused_type ph) as Hnr by (intros Hr; by apply Hty in Hr). clear Et Hty.
  destruct (Z.eqb_spec (p_type ph) PT_LOAD) as [El|El].
  2: { wp_step. eapply HQ; [done..|]. by split. }
  wp_step. eapply wp_validate_segment; [done..|]. case_bool_decide as Hval.
  2: { wp_step. eapply HQ; [done..|]. right. tauto. }
  pose proof Hw as [Ho Hv Hf Hm]. pose proof Hval as (He & Hol & Hfm & Hm0 & Hlo & Hhi). unfold PHYS_BASE in Hhi.
  rewrite !page_base by done.
  pose proof (segment_bytes_eq ph (len i) Hw Hval) as Hsb. destruct (segment_bytes ph) as [rb zb]. simpl in Hsb.
  destruct Hsb as (Erb & Hzb & Esum). pose proof (of_len _ _ _ _ _ (rd_file _ _ _ _ _ Hrd)) as Hl. unfold DIRECT_BYTES in Hl.
  rewrite swrap_small by lia.
  assert (0 ≤ rb) as Hrb by (rewrite Erb; case_decide; lia).
  eapply wp_mono; [apply (wp_load_segment _ _ p i pos); [done|lia|lia|lia|lia|done|done|lia|unfold PHYS_BASE; lia]|].
  intros ok m' ((pos' & Hrd') & Hg & Hres). eapply HQ; [done..|]. destruct (grows_pagedir _ _ Hg) as [Epd _].
  destruct ok.
  - destruct Hres as [Hfit Hres]. split; [done|]. intros _. split; [done|].
    split; [rewrite Erb in Hfit; case_decide; lia|]. intros va Hva. rewrite Epd.
    specialize (Hres va ltac:(unfold PHYS_BASE; lia)). rewrite decide_True in Hres by lia.
    destruct Hres as (_ & Hnew & Hk). split; [|done]. rewrite Hnew. f_equal.
    destruct (decide (va < p_vaddr ph + p_filesz ph)).
    + rewrite decide_True in Erb by lia. rewrite decide_True by lia. f_equal. lia.
    + case_decide; [|done]. rewrite Erb in *. case_decide; lia.
  - right. split; [done|]. unfold segment_fails in Hres. rewrite <-Epd in Hres.
    destruct Hres as [?|[?|[Hsh|(va & Hva & Hn)]]]; [tauto|tauto|..].
    + right; right; right; left. rewrite Erb in Hsh. case_decide; lia.
    + right; right; right; right. exists va. split; [lia|]. rewrite Epd in *. by rewrite (gw_mem _ _ Hg) by (done || unfold PHYS_BASE; lia).
Qed.

Lemma image_grows m m' s i ph :
  grows m m' → segment_valid ph (len i) → segment_image m s i ph → segment_image m' s i ph.
Proof.
  intros Hg (_ & _ & _ & _ & Hlo & Hhi) Him va Hva. destruct (grows_pagedir _ _ Hg) as [Epd _].
  destruct (Him va Hva) as (Hmem & k & Hk). rewrite Epd. split.
  - rewrite (gw_mem _ _ Hg), Hmem; [done|lia|by rewrite Hmem].
  - exists k. rewrite (gw_maps _ _ Hg), Hk; [done|apply user_page_of; lia|by rewrite Hk].
Qed.
Lemma loaded_grows m m' s i ph : grows m m' → header_loaded m s i ph → header_loaded m' s i ph.
Proof. intros Hg [Hn Hl]. split; [done|]. intros E. destruct (Hl E) as (? & ? & ?). split_and!; [done..|by eapply image_grows]. Qed.
Lemma loaded_content m s s' i ph :
  (∀ x, 0 ≤ x < len i → content_at s' i x = content_at s i x) → phdr_words ph →
  header_loaded m s' i ph → header_loaded m s i ph.
Proof.
  intros Hc [Ho _ _ _] [Hn Hl]. split; [done|]. intros E. destruct (Hl E) as (? & ? & Him). split_and!; [done..|].
  intros va Hva. destruct (Him va Hva) as [-> ?]. split; [|done]. case_decide; [|done]. by rewrite Hc by lia.
Qed.

Lemma content_same s s' i pos n :
  (∀ x, 0 ≤ x < len i → content_at s' i x = content_at s i x) → 0 ≤ pos → pos + n ≤ len i →
  content s' i pos n = content s i pos n.
Proof.
  intros Hc Hpos Hn. unfold content. apply list_fmap_ext. intros j x Hx. apply lookup_seqZ in Hx. apply Hc. lia.
Qed.

(** Program header number [j], as it is in the file. *)
Definition phdr_at s i (ofs j : Z) : Elf32_Phdr := phdr_of (content s i (ofs + 32 * j) 32).

(** For every file, load () goes through its program headers without a failing
    assertion or a fault, and changes no page of other processes; if it accepts
    them, the memory is the image that the headers describe; otherwise one of them
    is outside the file or not acceptable, or pages ran out. *)
Lemma wp_load_headers n m f p i pos ofs :
  ready m f p i pos → - 2 ^ 31 ≤ ofs < 2 ^ 31 →
  wp (load_headers n f ofs) m (λ ok m',
    (∃ pos', ready m' f p i pos') ∧ grows m m' ∧
    if ok : bool then ∀ j, 0 ≤ j < Z.of_nat n →
      0 ≤ ofs ∧ ofs + 32 * j + 32 ≤ len i ∧ header_loaded m' (sys m) i (phdr_at (sys m) i ofs j)
    else ∃ j, 0 ≤ j < Z.of_nat n ∧
      (ofs < 0 ∨ len i < ofs + 32 * j + 32 ∨ header_fails m' i (phdr_at (sys m) i ofs j))).
Proof.
  revert m pos ofs. induction n as [|n IH]; intros m pos ofs Hrd Hofs; cbn [load_headers].
  { wp_step. split_and!; [by eexists|apply grows_refl, Hrd|lia]. }
  pose proof (of_len _ _ _ _ _ (rd_file _ _ _ _ _ Hrd)) as Hl. unfold DIRECT_BYTES in Hl.
  wp_step. apply wp_on_sys. eapply wp_file_length; [apply Hrd|]. replace (with_sys (sys m) m) with m by by destruct m.
  assert (∀ s', only_pos (sys m) s' → grows m (with_sys s' m)) as Hgs.
  { intros s' Hs'. split; simpl; [by destruct m as [[] ? ? ? ? ? ?]|apply pd_frame_refl|done..]. }
  destruct (_ || _) eqn:Eb.
  { apply orb_true_iff in Eb. rewrite !Z.ltb_lt in Eb. wp_step.
    split_and!; [by eexists|apply grows_refl, Hrd|]. exists 0. lia. }
  apply orb_false_iff in Eb. rewrite !Z.ltb_ge in Eb. destruct Eb as [Hlo Hhi].
  wp_step. apply wp_on_sys. eapply wp_file_seek; [apply Hrd|lia|]. intros s1 Hs1 Hop1.
  wp_step. apply wp_on_sys. eapply wp_file_read; [exact Hop1|unfold PHDR_SIZE; lia|lia|].
  intros s2 k bs Hs2 Hop2 _ Hcase. simpl in Hs2, Hop2. unfold PHDR_SIZE in *.
  pose proof (only_pos_trans _ _ _ Hs1 Hs2) as Hs. change (with_sys s2 (with_sys s1 m)) with (with_sys s2 m).
  assert (ready (with_sys s2 m) f p i (ofs + k)) as Hrd2 by (eapply grows_ready; [by apply Hgs|exact Hrd|apply Hrd|done]).
  destruct Hcase as [(-> & Hin & ->)|(-> & _ & Hout)].
  2: { cbv iota. simpl negb. cbv iota. wp_step. split_and!; [by eexists|by apply Hgs|]. exists 0. lia. }
  rewrite Z.eqb_refl. simpl negb. cbv iota.
  assert (∀ x, 0 ≤ x < len i → content_at s2 i x = content_at (sys m) i x) as Hct.
  { intros x Hx. eapply opened_content; [done|apply Hrd|done]. }
  change (sys (with_sys s1 m)) with s1. assert (content s1 i ofs 32 = content (sys m) i (ofs + 32 * 0) 32) as ->.
  { replace (ofs + 32 * 0) with ofs by lia. apply content_same; [|lia..].
    intros x Hx. eapply opened_content; [done|apply Hrd|done]. }
  change (phdr_of _) with (phdr_at (sys m) i ofs 0). wp_step.
  eapply wp_load_header; [exact Hrd2|apply phdr_of_words|].
  intros m3 pos3 ok Hrd3 Hg3 Hres. pose proof (grows_trans _ _ _ (Hgs _ Hs) Hg3) as Hg. destruct ok.
  2: { wp_step. split_and!; [by eexists|done|]. exists 0. split; [lia|]. by right; right. }
  rewrite swrap_small by lia. eapply wp_mono; [eapply (IH m3 pos3 (ofs + 32)); [done|lia]|].
  intros ok m' (Hrd' & Hg' & Hres'). pose proof (phdr_of_words) as Hpw.
  assert (∀ x, 0 ≤ x < len i → content_at (sys m3) i x = content_at (sys m) i x) as Hct3.
  { intros x Hx. eapply opened_content; [apply Hg|apply Hrd|done]. }
  assert (∀ j, 0 ≤ j → ofs + 32 + 32 * j + 32 ≤ len i →
    phdr_at (sys m3) i (ofs + 32) j = phdr_at (sys m) i ofs (j + 1)) as Hph.
  { intros j Hj Hin'. unfold phdr_at. f_equal. replace (ofs + 32 * (j + 1)) with (ofs + 32 + 32 * j) by lia.
    apply content_same; [done|lia..]. }
  split_and!; [done|by eapply grows_trans|]. destruct ok.
  - intros j Hj. destruct (decide (j = 0)) as [->|Hj0].
    + split_and!; [done|lia|]. eapply loaded_grows; [done|]. eapply loaded_content; [exact Hct|apply Hpw|exact Hres].
    + destruct (Hres' (j - 1)) as (_ & Hin' & Hld); [lia|]. split_and!; [done|lia|].
      rewrite Hph in Hld by lia. replace (j - 1 + 1) with j in Hld by lia.
      eapply loaded_content; [exact Hct3|apply Hpw|exact Hld].
  - destruct Hres' as (j & Hj & Hwhy). exists (j + 1). split; [lia|]. destruct Hwhy as [?|[?|Hf]]; [lia|lia|].
    destruct (decide (len i < ofs + 32 * (j + 1) + 32)); [tauto|]. rewrite Hph in Hf by lia. tauto.
Qed.
End theorems.
