(* ===== verification/StackThms.v ===== *)
(** * The initial stack of a process: setup_stack () of userprog/process.c

    The stack is described by the bytes from the stack pointer up to PHYS_BASE;
    every push of the code puts bytes in front of them.  The theorem reads the
    result back the way the program does: argc, argv, and the strings. *)

From S2P Require Import Prelude Bitmap CString Block BlockThms Inode InodeInv InodeThms Directory.
From S2P Require Import Vaddr Palloc Ram Pagedir PagedirThms AddressSpace Process ProcessThms.
Local Open Scope Z_scope.
Local Ltac Zify.zify_post_hook ::= Z.to_euclidean_division_equations.

(** ** Words *)

Lemma words_from_spec ds cur s :
  Forall (λ w, w ≠ [] ∧ ∀ c, c ∈ w → c ∈ cur ∨ c ∈ s) (words_from ds cur s).
Proof.
  revert cur. induction s as [|c s IH]; intros cur; simpl.
  - case_decide; repeat constructor; [done|]. tauto.
  - assert (∀ cur', (∀ x, x ∈ cur' → x ∈ cur ∨ x = c) →
      Forall (λ w, w ≠ [] ∧ ∀ x, x ∈ w → x ∈ cur ∨ x ∈ c :: s) (words_from ds cur' s)) as Hstep.
    { intros cur' Hc. eapply Forall_impl; [apply (IH cur')|]. intros w [Hw Hx]. split; [done|].
      intros x [[?| ->]%Hc|?]%Hx; rewrite elem_of_cons; tauto. }
    repeat case_decide.
    + apply Hstep. intros x Hx. by apply elem_of_nil in Hx.
    + constructor; [split; [done|tauto]|]. apply Hstep. intros x Hx. by apply elem_of_nil in Hx.
    + apply Hstep. intros x [?| ->%list_elem_of_singleton]%elem_of_app; tauto.
Qed.
Lemma words_spec ds s w : w ∈ words ds s → w ≠ [] ∧ ∀ c, c ∈ w → c ∈ s.
Proof.
  intros Hw. pose proof (words_from_spec ds [] s) as Hf. rewrite Forall_forall in Hf. destruct (Hf w Hw) as [? Hc].
  split; [done|]. intros c [Hn|?]%Hc; [by apply elem_of_nil in Hn|done].
Qed.

Section stack.
Context {D : Type} `{BlockDevice D}.
Notation P := (machine D).
Notation R m := (ram (mm m)).
Implicit Types (m : P).

(** The page number of the stack page, and its address. *)
Definition STACK_PAGE : Z := 0xbffff.
Definition STACK_LOW : Z := PHYS_BASE - 4096.

(** The state [m] of a process that had the state [m0] before it got the frame [k]
    for its stack page; the stack holds the bytes [l] from [esp] on, and zeros
    below. *)
Record stack_is m0 (k : Z) m (esp : Z) (l : list Z) : Prop := {
  st_rest : m = with_pages (R m) m0;
  st_active : cr3 (mm m0) + PHYS_BASE = pagedir m0;
  st_space : space (R m) (pagedir m0);
  st_frame : pd_frame (pagedir m0) (R m0) (R m);
  st_fresh : used (R m0) (k / 4096) = false;
  st_maps : maps (R m) (pagedir m0) STACK_PAGE = Some (k, true);
  st_old vpn : user_page vpn → vpn ≠ STACK_PAGE → maps (R m) (pagedir m0) vpn = maps (R m0) (pagedir m0) vpn;
  st_top : esp + Z.of_nat (length l) = PHYS_BASE;
  st_mem va : 0 ≤ va < PHYS_BASE → umem (R m) (pagedir m0) va =
    if decide (STACK_LOW ≤ va) then if decide (va < esp) then Some 0 else l !! Z.to_nat (va - esp)
    else umem (R m0) (pagedir m0) va
}.

Lemma translate_mapped (σ : mmu) pd va k :
  cr3 σ + PHYS_BASE = pd → space (ram σ) pd → 0 ≤ va < PHYS_BASE →
  maps (ram σ) pd (va / 4096) = Some (k, true) → translate σ va = Some (k + va mod 4096).
Proof.
  intros <- [Hpd _ _] Hva Hm. unfold translate. rewrite (proj2 (Z.ltb_lt _ _)) by lia.
  unfold maps in Hm. rewrite pte_of_page in Hm by lia. simpl in Hm. case_decide as Ep; [done|].
  injection Hm as Ea Ew. unfold pte_of in Ep, Ea, Ew.
  destruct (Z.eqb_spec (pde_at (bytes (ram σ)) (cr3 σ + PHYS_BASE) (pd_no va)) 0) as [E0|E0]; [done|].
  destruct (pd_tables _ _ Hpd _ (pd_index va Hva) E0) as (Hp & _ & _). unfold table in *.
  rewrite (proj2 (Z.eqb_neq _ _) Hp), (proj2 (Z.eqb_neq _ _) Ep), Ew. simpl. by rewrite Ea.
Qed.

(** One store anywhere in the stack page. *)
Lemma wp_user_store m0 k m esp l va v Q :
  palloc_ok (R m0) → stack_is m0 k m esp l → STACK_LOW ≤ va < PHYS_BASE → 0 ≤ v < 256 →
  (∀ m', m' = with_pages (R m') m0 → space (R m') (pagedir m0) → pd_frame (pagedir m0) (R m0) (R m') →
     (∀ vpn, user_page vpn → maps (R m') (pagedir m0) vpn = maps (R m) (pagedir m0) vpn) →
     (∀ x, 0 ≤ x < PHYS_BASE → umem (R m') (pagedir m0) x = if decide (x = va) then Some v else umem (R m) (pagedir m0) x) →
     Q tt m') →
  wp (user_store va v) m Q.
Proof.
  intros Hok [E Hact Hsp Hfr Hfresh Hmap _ _ _] Hva Hv HQ. unfold STACK_LOW in Hva.
  assert (0 ≤ va < PHYS_BASE) as Hu by (unfold PHYS_BASE in *; lia).
  assert (va / 4096 = STACK_PAGE) as Epg by (unfold STACK_PAGE, PHYS_BASE in *; lia).
  assert (cr3 (mm m) + PHYS_BASE = pagedir m0) as Hact' by (rewrite E; done).
  destruct (sp_frames _ _ Hsp STACK_PAGE k true) as [[Ha Hl Hh _] Hkt]; [done|done|].
  unfold user_store. do 2 wp_step. wp_step. apply (wp_from_option _ (k + va mod 4096)).
  { eapply translate_mapped; [exact Hact'|done|done|by rewrite Epg]. }
  apply wp_on_pages. wp_step. apply wp_access; [lia|lia|]. wp_step. rewrite wrap_small by lia.
  destruct (store_frame_space (pagedir m0) va k true v (R m) Hsp Hu) as (Hsp' & Hmp' & Hm'); [by rewrite Epg|].
  apply HQ; simpl.
  - rewrite E. by destruct m0.
  - done.
  - eapply frame_private; [done|exact Hfr|apply Hsp|exact Hkt|done|].
    apply kept_bytes; [apply Hsp|done|]. intros x Hx. rewrite (proj2 (Z.eqb_neq _ _)); [done|lia].
  - done.
  - done.
Qed.

(** A store over the bytes of the stack, and one below it. *)
Lemma wp_overwrite m0 k m esp l (j : nat) v Q :
  palloc_ok (R m0) → stack_is m0 k m esp l → (j < length l ≤ 4096)%nat → 0 ≤ v < 256 →
  (∀ m', stack_is m0 k m' esp (<[j := v]> l) → Q tt m') →
  wp (user_store (esp + Z.of_nat j) v) m Q.
Proof.
  intros Hok Hst Hj Hv HQ. pose proof Hst as [E Hact Hsp Hfr Hfresh Hmap Hold Htop Hmem].
  assert (STACK_LOW ≤ esp + Z.of_nat j < PHYS_BASE) as Hr by (unfold STACK_LOW in *; lia).
  eapply wp_user_store; [done|done|done|done|]. intros m' E' Hsp' Hfr' Hmp' Hm'. apply HQ.
  split; [done..| | |by rewrite length_insert|].
  - by rewrite Hmp'.
  - intros vpn Hv' Hne. rewrite Hmp' by done. by apply Hold.
  - intros va Hva. rewrite Hm', Hmem by done. unfold STACK_LOW in *. case_decide as Ev; subst.
    + rewrite decide_True, decide_False by lia. replace (Z.to_nat (_ - esp)) with j by lia.
      by rewrite list_lookup_insert_eq by lia.
    + repeat case_decide; try done. rewrite list_lookup_insert_ne; [done|]. lia.
Qed.
Lemma stack_below m0 k m esp l (n : nat) :
  stack_is m0 k m esp l → (n + length l ≤ 4096)%nat →
  stack_is m0 k m (esp - Z.of_nat n) (replicate n 0 ++ l).
Proof.
  intros [E Hact Hsp Hfr Hfresh Hmap Hold Htop Hmem] Hn. split; try done.
  - rewrite length_app, length_replicate. lia.
  - intros va Hva. rewrite Hmem by done. unfold STACK_LOW in *. repeat case_decide; try done; try lia.
    + rewrite lookup_app_l by (rewrite length_replicate; lia). symmetry. apply lookup_replicate_2. lia.
    + rewrite lookup_app_r by (rewrite length_replicate; lia). rewrite length_replicate. f_equal. lia.
Qed.

(** ** Pushes *)

Section push.
Context (m0 : P) (k : Z) (Hok : palloc_ok (R m0)).
Notation stack_at := (stack_is m0 k).

Lemma stack_esp m esp l : stack_at m esp l → (length l ≤ 4096)%nat →
  0xbffff000 ≤ esp ≤ 0xc0000000 ∧ Z.of_nat (length l) = 0xc0000000 - esp.
Proof. intros Hst Hl. pose proof (st_top _ _ _ _ _ Hst) as Ht. unfold PHYS_BASE in Ht. lia. Qed.

Lemma wp_push4 m esp l v Q :
  stack_at m esp l → (4 + length l ≤ 4096)%nat → 0 ≤ v < 256 →
  (∀ m', stack_at m' (esp - 4) ([v; 0; 0; 0] ++ l) → Q tt m') → wp (user_store (u32 (esp - 4)) v) m Q.
Proof using Hok.
  intros Hst Hl Hv HQ. destruct (stack_esp _ _ _ Hst) as [He _]; [lia|]. rewrite wrap_small by lia.
  apply (stack_below _ _ _ _ _ 4) in Hst; [|done]. replace (esp - 4) with (esp - 4 + Z.of_nat 0) by lia.
  eapply wp_overwrite; [done|exact Hst|rewrite length_app; simpl; lia|done|].
  intros m' Hst'. replace (esp - Z.of_nat 4 + Z.of_nat 0) with (esp - 4) in * by lia. by apply HQ.
Qed.
Lemma wp_push_byte m esp l v Q :
  stack_at m esp l → (1 + length l ≤ 4096)%nat → 0 ≤ v < 256 →
  (∀ m', stack_at m' (esp - 1) (v :: l) → Q tt m') → wp (user_store (u32 (esp - 1)) v) m Q.
Proof using Hok.
  intros Hst Hl Hv HQ. destruct (stack_esp _ _ _ Hst) as [He _]; [lia|]. rewrite wrap_small by lia.
  apply (stack_below _ _ _ _ _ 1) in Hst; [|done]. replace (esp - 1) with (esp - 1 + Z.of_nat 0) by lia.
  eapply wp_overwrite; [done|exact Hst|simpl; lia|done|].
  intros m' Hst'. by apply HQ.
Qed.
Lemma wp_push_word m esp l w Q :
  stack_at m esp l → (4 + length l ≤ 4096)%nat →
  (∀ m', stack_at m' (esp - 4) (word_bytes w ++ l) → Q tt m') → wp (user_store_word (u32 (esp - 4)) w) m Q.
Proof using Hok.
  intros Hst Hl HQ. destruct (stack_esp _ _ _ Hst) as [He _]; [lia|]. unfold user_store_word.
  change (2 ^ 8) with 256. wp_step. eapply wp_push4; [done|done|lia|]. intros m1 Hst1. rewrite wrap_small by lia.
  wp_step. eapply (wp_overwrite _ _ _ _ _ 1); [done|exact Hst1|simpl; lia|lia|]. intros m2 Hst2.
  wp_step. eapply (wp_overwrite _ _ _ _ _ 2); [done|exact Hst2|simpl; lia|lia|]. intros m3 Hst3.
  eapply (wp_overwrite _ _ _ _ _ 3); [done|exact Hst3|simpl; lia|lia|]. intros m4 Hst4. by apply HQ.
Qed.

Lemma wp_push_chars i arg m esp l Q :
  stack_at m esp l → (i ≤ length arg)%nat → (i + length l ≤ 4096)%nat → Forall (λ c, 0 ≤ c < 256) arg →
  (∀ m', stack_at m' (esp - Z.of_nat i) (take i arg ++ l) → Q (esp - Z.of_nat i) m') →
  wp (push_chars i arg esp) m Q.
Proof using Hok.
  revert m esp l Q. induction i as [|i IH]; intros m esp l Q Hst Hi Hl Hc HQ; cbn [push_chars].
  { wp_step. replace (esp - Z.of_nat 0) with esp in HQ by lia. by apply HQ. }
  destruct (stack_esp _ _ _ Hst) as [He _]; [lia|].
  destruct (lookup_lt_is_Some_2 arg i) as [c Ec]; [lia|]. cbv zeta. wp_step.
  apply (wp_from_option _ c); [by rewrite lookup_app_l by lia|]. wp_step.
  eapply wp_push_byte; [done|lia|exact (Forall_lookup_1 _ _ _ _ Hc Ec)|]. intros m1 Hst1. rewrite wrap_small by lia.
  eapply IH; [done|lia|simpl; lia|done|]. intros m2 Hst2.
  replace (esp - 1 - Z.of_nat i) with (esp - Z.of_nat (S i)) in * by lia. apply HQ.
  by rewrite (take_S_r _ _ c), <-app_assoc by done.
Qed.
Lemma wp_push_zeros n m esp l Q :
  stack_at m esp l → (n + length l ≤ 4096)%nat →
  (∀ m', stack_at m' (esp - Z.of_nat n) (replicate n 0 ++ l) → Q (esp - Z.of_nat n) m') →
  wp (push_zeros n esp) m Q.
Proof using Hok.
  revert m esp l Q. induction n as [|n IH]; intros m esp l Q Hst Hl HQ; cbn [push_zeros].
  { wp_step. replace (esp - Z.of_nat 0) with esp in HQ by lia. by apply HQ. }
  destruct (stack_esp _ _ _ Hst) as [He _]; [lia|]. cbv zeta. wp_step.
  eapply wp_push_byte; [done|lia|lia|]. intros m1 Hst1. rewrite wrap_small by lia.
  eapply IH; [done|simpl; lia|]. intros m2 Hst2.
  replace (esp - 1 - Z.of_nat n) with (esp - Z.of_nat (S n)) in * by lia. apply HQ.
  by rewrite replicate_S_end, <-app_assoc.
Qed.
Lemma wp_push_pointers ps m esp l Q :
  stack_at m esp l → (4 * length ps + length l ≤ 4096)%nat →
  (∀ m', stack_at m' (esp - 4 * Z.of_nat (length ps)) (bytes_of (rev ps) ++ l) →
     Q (esp - 4 * Z.of_nat (length ps)) m') →
  wp (push_pointers ps esp) m Q.
Proof using Hok.
  revert m esp l Q. induction ps as [|p ps IH]; intros m esp l Q Hst Hl HQ; cbn [push_pointers].
  { wp_step. replace (esp - 4 * Z.of_nat _) with esp in HQ by (simpl; lia). by apply HQ. }
  simpl in Hl. destruct (stack_esp _ _ _ Hst) as [He _]; [lia|]. cbv zeta. wp_step.
  eapply wp_push_word; [done|lia|]. intros m1 Hst1. rewrite wrap_small by lia.
  eapply IH; [done|rewrite length_app; simpl; lia|]. intros m2 Hst2.
  replace (esp - 4 - 4 * Z.of_nat (length ps)) with (esp - 4 * Z.of_nat (length (p :: ps))) in * by (simpl; lia).
  apply HQ. simpl rev. by rewrite bytes_of_app, <-app_assoc.
Qed.

(** The argument strings, and where they are if the first starts at [a]. *)
Definition strings (args : list (list Z)) : list Z := concat ((λ w, w ++ [0]) <$> args).
Lemma strings_cons w args : strings (w :: args) = w ++ 0 :: strings args.
Proof. unfold strings. simpl. by rewrite <-app_assoc. Qed.
Lemma strings_app args args' : strings (args ++ args') = strings args ++ strings args'.
Proof. unfold strings. by rewrite fmap_app, concat_app. Qed.
Fixpoint addresses (a : Z) (args : list (list Z)) : list Z :=
  match args with
  | [] => []
  | w :: args => a :: addresses (a + Z.of_nat (length w) + 1) args
  end.
Definition arg_ok (w : list Z) : Prop := w ≠ [] ∧ Forall (λ c, 0 ≤ c < 256) w.

Lemma wp_push_args rs args m esp Q :
  stack_at m esp (strings args) → (length (strings (rev rs ++ args)) ≤ 4096)%nat → Forall arg_ok rs →
  (∀ m' esp', stack_at m' esp' (strings (rev rs ++ args)) → Q (esp', addresses esp' (rev rs ++ args)) m') →
  wp (push_args rs esp (addresses esp args)) m Q.
Proof using Hok.
  revert args m esp Q. induction rs as [|w rs IH]; intros args m esp Q Hst Hl Hrs HQ; cbn [push_args].
  { wp_step. by apply HQ. }
  apply Forall_cons in Hrs as [[Hw Hc] Hrs]. simpl rev in *. rewrite <-app_assoc in *. simpl in Hl, HQ.
  assert (length (strings (w :: args)) ≤ 4096)%nat as Hl1.
  { rewrite strings_app, length_app in Hl. lia. }
  rewrite strings_cons, length_app in Hl1. simpl in Hl1.
  destruct (stack_esp _ _ _ Hst) as [He _]; [lia|]. cbv zeta. wp_step.
  eapply wp_push_byte; [done|lia|lia|]. intros m1 Hst1. rewrite wrap_small by lia. wp_step.
  assert (S (length (tail w)) = length w) as El by by destruct w. rewrite El.
  eapply wp_push_chars; [done|lia|simpl; lia|done|]. intros m2 Hst2. rewrite firstn_all in Hst2.
  change (esp - 1 - Z.of_nat (length w)) with (esp - 1 - Z.of_nat (length w)).
  set (esp2 := esp - 1 - Z.of_nat (length w)) in *.
  replace (addresses esp args) with (addresses (esp2 + Z.of_nat (length w) + 1) args) by (f_equal; lia).
  change (esp2 :: addresses _ args) with (addresses esp2 (w :: args)). eapply IH; [|done|done|done].
  by rewrite strings_cons.
Qed.

(** Everything that setup_stack () pushes. *)
Definition arguments (args : list (list Z)) (esp ret : Z) : list Z :=
  let e := PHYS_BASE - Z.of_nat (length (strings args)) in
  [ret; 0; 0; 0] ++ [Z.of_nat (length args); 0; 0; 0] ++ word_bytes (esp + 12) ++
  bytes_of (addresses e args) ++ [0; 0; 0; 0] ++ replicate (Z.to_nat (if e mod 4 =? 0 then 4 else e mod 4)) 0 ++ strings args.
(** The bytes that this takes at most. *)
Definition frame_size (args : list (list Z)) : Z :=
  Z.of_nat (length (strings args)) + 4 + 4 * (Z.of_nat (length args) + 1) + 12.

Lemma addresses_length a args : length (addresses a args) = length args.
Proof. revert a. induction args as [|w args IH]; intros a; [done|]. simpl. by rewrite IH. Qed.

Lemma wp_push_arguments m file_name ret Q :
  let args := words [32] file_name in
  stack_at m PHYS_BASE [] → (length args ≤ 130)%nat → Forall arg_ok args → frame_size args ≤ 4096 →
  0 ≤ ret < 256 →
  (∀ m' esp, stack_at m' esp (arguments args esp ret) → esp mod 4 = 0 → STACK_LOW ≤ esp → Q esp m') →
  wp (push_arguments PHYS_BASE file_name ret) m Q.
Proof using Hok.
  intros args Hst Hlen Hargs Hsize Hret HQ. unfold push_arguments. fold args. unfold frame_size in Hsize.
  rewrite (proj2 (Nat.leb_le _ _) Hlen). wp_step. wp_step. wp_step.
  eapply (wp_push_args (rev args) []); [done|rewrite rev_involutive, app_nil_r; lia|by apply Forall_rev|].
  rewrite rev_involutive, app_nil_r. intros m1 e Hst1. pose proof (st_top _ _ _ _ _ Hst1) as Ee.
  destruct (stack_esp _ _ _ Hst1) as [He El]; [lia|]. wp_step.
  assert (Z.rem (s32 e) 4 + 4 = if e mod 4 =? 0 then 4 else e mod 4) as ->.
  { unfold swrap. destruct (Z.eqb_spec (e mod 4) 0); lia. }
  set (a := Z.to_nat _). assert (1 ≤ a ≤ 4)%nat as Ha by (unfold a; destruct (Z.eqb_spec (e mod 4) 0); lia).
  assert ((e - Z.of_nat a) mod 4 = 0) as Hal by (unfold a; destruct (Z.eqb_spec (e mod 4) 0); lia).
  eapply wp_push_zeros; [done|lia|]. intros m2 Hst2. cbv zeta. wp_step.
  eapply wp_push4; [done|rewrite length_app, length_replicate; lia|lia|]. intros m3 Hst3. rewrite wrap_small by lia. wp_step.
  pose proof (addresses_length e args) as Hal'.
  eapply wp_push_pointers; [done|rewrite length_rev, !length_app, length_replicate; simpl; lia|]. intros m4 Hst4.
  rewrite length_rev, rev_involutive, Hal' in *. cbv zeta. wp_step.
  assert (length (bytes_of (addresses e args)) = 4 * length args)%nat as Hbl by by rewrite bytes_of_length, Hal'.
  eapply wp_push_word; [done|rewrite !length_app, length_replicate, Hbl; simpl; lia|]. intros m5 Hst5.
  set (e5 := e - Z.of_nat a - 4 - 4 * Z.of_nat (length args) - 4) in *. assert (0xbffff008 ≤ e5 ≤ e) as He5 by lia.
  rewrite (wrap_small 32 e5) by lia. wp_step.
  eapply wp_push4; [done|rewrite !length_app, length_replicate, Hbl; simpl; lia|lia|]. intros m6 Hst6. rewrite (wrap_small 32 (e5 - 4)) by lia. wp_step.
  eapply wp_push4; [done|rewrite !length_app, length_replicate, Hbl; simpl; lia|lia|]. intros m7 Hst7. rewrite wrap_small by lia. wp_step.
  apply HQ; [|lia|unfold STACK_LOW, PHYS_BASE; lia]. unfold arguments.
  replace (PHYS_BASE - Z.of_nat (length (strings args))) with e by lia. fold a.
  match type of Hst7 with context [word_bytes ?x] => match goal with |- context [word_bytes ?y] => replace y with x by lia end end.
  exact Hst7.
Qed.
End push.

(** ** Reading the stack back *)

(** A word of user memory, and a string. *)
Definition uword m (va : Z) : option Z :=
  let u := umem (R m) (pagedir m) in
  b0 ← u va; b1 ← u (va + 1); b2 ← u (va + 2); b3 ← u (va + 3);
  Some (b0 + 2 ^ 8 * b1 + 2 ^ 16 * b2 + 2 ^ 24 * b3).
Definition ustring m (a : Z) (w : list Z) : Prop :=
  ∀ x c, (w ++ [0]) !! x = Some c → umem (R m) (pagedir m) (a + Z.of_nat x) = Some c.

(** What main () finds: argc, argv, and the arguments, with a null pointer after
    the last one. *)
Record args_on_stack m (esp : Z) (args : list (list Z)) : Prop := {
  as_align : esp mod 4 = 0;
  as_low : STACK_LOW ≤ esp < PHYS_BASE;
  as_argc : uword m (esp + 4) = Some (Z.of_nat (length args));
  as_argv : uword m (esp + 8) = Some (esp + 12);
  as_null : uword m (esp + 12 + 4 * Z.of_nat (length args)) = Some 0;
  as_arg j w : args !! j = Some w →
    ∃ a, uword m (esp + 12 + 4 * Z.of_nat j) = Some a ∧ ustring m a w
}.

Section read.
Context (m0 m : P) (k esp : Z) (l : list Z) (Hst : stack_is m0 k m esp l) (Hl : (length l ≤ 4096)%nat).

Lemma stack_bytes A S B x c : l = A ++ S ++ B → S !! x = Some c →
  umem (R m) (pagedir m) (esp + Z.of_nat (length A) + Z.of_nat x) = Some c.
Proof using All.
  intros El Hx. destruct (stack_esp _ _ _ _ _ Hst Hl) as [He Htop]. pose proof (lookup_lt_Some _ _ _ Hx) as Hlt.
  assert (pagedir m = pagedir m0) as -> by by rewrite (st_rest _ _ _ _ _ Hst).
  rewrite El, !length_app in Htop. rewrite (st_mem _ _ _ _ _ Hst) by (unfold PHYS_BASE; lia).
  unfold STACK_LOW, PHYS_BASE. rewrite decide_True, decide_False by lia. rewrite El.
  rewrite lookup_app_r by lia. rewrite lookup_app_l by lia. rewrite <-Hx. f_equal. lia.
Qed.
Lemma stack_word A w B : l = A ++ word_bytes w ++ B → 0 ≤ w < 2 ^ 32 →
  uword m (esp + Z.of_nat (length A)) = Some w.
Proof using All.
  intros El Hw. pose proof (stack_bytes A (word_bytes w) B) as Hb. unfold uword.
  pose proof (Hb 0%nat _ El eq_refl) as H0. pose proof (Hb 1%nat _ El eq_refl) as H1.
  pose proof (Hb 2%nat _ El eq_refl) as H2. pose proof (Hb 3%nat _ El eq_refl) as H3.
  rewrite Z.add_0_r in H0. change (Z.of_nat 1) with 1 in H1. change (Z.of_nat 2) with 2 in H2.
  change (Z.of_nat 3) with 3 in H3. rewrite H0. simpl. rewrite H1. simpl. rewrite H2. simpl. rewrite H3. simpl.
  f_equal. by apply word_bytes_word.
Qed.
End read.

Lemma addresses_lookup a args j w :
  args !! j = Some w → addresses a args !! j = Some (a + Z.of_nat (length (strings (take j args)))).
Proof.
  revert a j. induction args as [|v args IH]; intros a j Hj; [done|]. destruct j as [|j]; simpl in *.
  - f_equal. unfold strings. simpl. lia.
  - rewrite (IH _ j Hj). rewrite strings_cons, length_app. simpl. f_equal. lia.
Qed.
Lemma bytes_of_split ws j w :
  ws !! j = Some w → bytes_of ws = bytes_of (take j ws) ++ word_bytes w ++ bytes_of (drop (S j) ws).
Proof.
  intros Hj. rewrite <-(take_drop_middle ws j w Hj) at 1. by rewrite bytes_of_app.
Qed.
Lemma strings_split args j w :
  args !! j = Some w → strings args = strings (take j args) ++ (w ++ [0]) ++ strings (drop (S j) args).
Proof.
  intros Hj. rewrite <-(take_drop_middle args j w Hj) at 1. rewrite strings_app, strings_cons. by rewrite <-app_assoc.
Qed.
Lemma zero_word : [0; 0; 0; 0] = word_bytes 0.
Proof. done. Qed.
Lemma small_word n : 0 ≤ n < 256 → [n; 0; 0; 0] = word_bytes n.
Proof. intros Hn. unfold word_bytes. repeat f_equal; lia. Qed.

Lemma arguments_length args esp ret :
  Z.of_nat (length (arguments args esp ret)) ≤ frame_size args.
Proof.
  unfold arguments, frame_size. rewrite !length_app, bytes_of_length, addresses_length, length_replicate. simpl.
  destruct (Z.eqb_spec ((PHYS_BASE - Z.of_nat (length (strings args))) mod 4) 0); lia.
Qed.

Lemma arguments_read m0 k m esp ret args :
  stack_is m0 k m esp (arguments args esp ret) → frame_size args ≤ 4096 → (length args ≤ 130)%nat →
  esp mod 4 = 0 → STACK_LOW ≤ esp → args_on_stack m esp args.
Proof.
  intros Hst Hsize Hn Hal Hlow. pose proof (arguments_length args esp ret) as Hlen.
  assert (length (arguments args esp ret) ≤ 4096)%nat as Hl by lia.
  pose proof (stack_word m0 m k esp _ Hst Hl) as Hword. pose proof (stack_bytes m0 m k esp _ Hst Hl) as Hbytes.
  destruct (stack_esp _ _ _ _ _ Hst Hl) as [He Htop]. unfold arguments in *.
  set (e := PHYS_BASE - Z.of_nat (length (strings args))) in *. set (pad := replicate _ 0) in *.
  rewrite (small_word (Z.of_nat (length args))) in * by lia. rewrite zero_word in *.
  assert (length (bytes_of (addresses e args)) = 4 * length args)%nat as Hbl by by rewrite bytes_of_length, addresses_length.
  unfold frame_size in Hsize.
  assert (0xbffff000 ≤ e ≤ 0xc0000000) as Hee by (unfold e, PHYS_BASE; lia).
  split; [done| | | | |].
  - unfold STACK_LOW, PHYS_BASE in *. rewrite !length_app in Htop. simpl in Htop. lia.
  - apply (Hword [ret; 0; 0; 0] _ _ eq_refl). lia.
  - replace (esp + 8) with (esp + Z.of_nat (length ([ret; 0; 0; 0] ++ word_bytes (Z.of_nat (length args))))) by done.
    eapply Hword; [by rewrite <-app_assoc|]. lia.
  - replace (esp + 12 + _) with (esp + Z.of_nat (length ([ret; 0; 0; 0] ++ word_bytes (Z.of_nat (length args)) ++
      word_bytes (esp + 12) ++ bytes_of (addresses e args)))) by (rewrite !length_app, Hbl; simpl; lia).
    eapply Hword; [by rewrite <-!app_assoc|]. lia.
  - intros j w Hj. pose proof (addresses_lookup e args j w Hj) as Ha. pose proof (lookup_lt_Some _ _ _ Hj) as Hjl.
    pose proof (strings_split args j w Hj) as Hs. pose proof (f_equal length Hs) as Hsl. rewrite !length_app in Hsl.
    set (o := length (strings (take j args))) in *. exists (e + Z.of_nat o). split.
    + replace (esp + 12 + _) with (esp + Z.of_nat (length ([ret; 0; 0; 0] ++ word_bytes (Z.of_nat (length args)) ++
        word_bytes (esp + 12) ++ bytes_of (take j (addresses e args))))).
      2: { rewrite !length_app, bytes_of_length, length_take, addresses_length. simpl. lia. }
      eapply Hword; [rewrite (bytes_of_split _ j _ Ha); by rewrite <-!app_assoc|]. unfold e, PHYS_BASE in *. lia.
    + intros x c Hx. specialize (Hbytes ([ret; 0; 0; 0] ++ word_bytes (Z.of_nat (length args)) ++
        word_bytes (esp + 12) ++ bytes_of (addresses e args) ++ word_bytes 0 ++ pad ++ strings (take j args))
        (w ++ [0]) (strings (drop (S j) args)) x c). rewrite <-Hbytes; [f_equal| |done].
      * rewrite !length_app, Hbl in *. fold o. simpl in *. unfold e, PHYS_BASE in *. lia.
      * rewrite Hs. by rewrite <-!app_assoc.
Qed.

(** ** The failure of setup_stack () *)

Lemma store_top_faults m v : palloc_ok (R m) → user_store (u32 (0 - 1)) v m = Fault.
Proof.
  intros Hok. pose proof (pk_ram _ Hok). unfold user_store, mbind, M_bind, get.
  assert (translate (mm m) (u32 (0 - 1)) = None) as ->; [|done]. unfold translate.
  change (u32 (0 - 1)) with 0xffffffff. change (0xffffffff <? PHYS_BASE) with false. cbv iota.
  rewrite (proj2 (Z.ltb_ge _ _)); [done|]. unfold ram_end, PHYS_BASE. rewrite PGSIZE_eq. lia.
Qed.
Lemma push_arguments_faults m file_name ret :
  palloc_ok (R m) → push_arguments 0 file_name ret m = Fault.
Proof.
  intros Hok. unfold push_arguments. destruct (length _ <=? 130)%nat; [|done].
  unfold mbind, M_bind, mret, M_ret. destruct (rev (words [32] file_name)) as [|w ws].
  - cbn [push_args mret M_ret]. change (Z.to_nat (Z.rem (s32 0) 4 + 4)) with 4%nat. cbn [push_zeros].
    unfold mbind, M_bind. by rewrite store_top_faults.
  - cbn [push_args]. unfold mbind, M_bind. by rewrite store_top_faults.
Qed.

Lemma wp_get_stack_page m Q :
  space (R m) (pagedir m) → dev_ok (fs_device (sys m)) →
  (exhausted (R m) true 1 → Q Palloc.NULL m) →
  (∀ k m', filled m m' k → (∀ x, 0 ≤ x < 4096 → bytes (R m') (k + x) = 0) → sys m' = sys m → Q k m') →
  wp (on_pages (palloc_get_page (Z.lor PAL_USER PAL_ZERO))) m Q.
Proof.
  intros Hsp Hd HE HQ. apply wp_on_pages, (wp_wpp _ _ _ False); [tauto|].
  apply wpp_palloc_get_multiple; [apply Hsp|done| |lia| |done].
  - intros k r _ Hl Hh Hg. apply HQ; [|simpl|done].
    + eapply filled_granted; [done|done|done| |done|done]. intros x Hx. unfold flag, fill. simpl.
      rewrite (proj2 (andb_false_iff _ _)); [done|]. rewrite Z.leb_gt, Z.ltb_ge. lia.
    + intros x Hx. rewrite (ps_bytes _ _ _ _ _ (gr_set _ _ _ _ _ _ Hg)). unfold flag, fill. simpl.
      by rewrite (proj2 (Z.leb_le _ _)), (proj2 (Z.ltb_lt _ _)) by lia.
  - intros Hex _. rewrite with_pages_same. by apply HE.
Qed.

Lemma stack_installed m0 f p i pos m m' k :
  ready m0 f p i pos → cr3 (mm m0) + PHYS_BASE = pagedir m0 → filled m0 m k → sys m = sys m0 →
  (∀ x, 0 ≤ x < 4096 → bytes (R m) (k + x) = 0) →
  grows m0 m' → space (R m') (pagedir m0) → sys m' = sys m →
  (∀ vpn, user_page vpn → maps (R m') (pagedir m0) vpn =
     if decide (vpn = STACK_PAGE) then Some (k, true) else maps (R m0) (pagedir m0) vpn) →
  (∀ va, 0 ≤ va < PHYS_BASE → umem (R m') (pagedir m0) va =
     if decide (va / 4096 = STACK_PAGE) then Some (bytes (R m) (k + va mod 4096)) else umem (R m0) (pagedir m0) va) →
  stack_is m0 k m' PHYS_BASE [].
Proof.
  intros Hrd Hact Hf Es Hz Hg Hsp Es' Hmp Hm. split; try done.
  - rewrite (gw_rest _ _ Hg) at 1. rewrite Es', Es. by destruct m0.
  - apply Hg.
  - apply Hf.
  - by rewrite Hmp, decide_True.
  - intros vpn Hv Hne. by rewrite Hmp, decide_False.
  - intros va Hva. rewrite Hm by done. unfold STACK_LOW, STACK_PAGE, PHYS_BASE in *.
    destruct (decide (va / 4096 = 786431)).
    + rewrite decide_True, decide_True by lia. by rewrite Hz by lia.
    + by rewrite decide_False by lia.
Qed.

Lemma stack_grows m0 k m esp l :
  stack_is m0 k m esp l → dev_ok (fs_device (sys m0)) → maps (R m0) (pagedir m0) STACK_PAGE = None → grows m0 m.
Proof.
  intros [E _ _ Hfr _ Hmap Hold _ Hmem] Hd Hnone. split.
  - rewrite E at 1. rewrite E. by destruct m0.
  - done.
  - rewrite E. by apply only_pos_refl.
  - intros va Hva Hn. rewrite Hmem by done. case_decide as Hs; [|done]. destruct Hn. apply maps_umem.
    unfold STACK_LOW, STACK_PAGE, PHYS_BASE in *. by replace (va / 4096) with 786431 by lia.
  - intros vpn Hv Hn. apply Hold; [done|]. congruence.
Qed.

(** setup_stack () maps a page at the top of user memory and puts the arguments
    there, as the calling convention wants them: the words of the command line,
    argv and argc; nothing else in user memory changes.  If there is no page, or
    the address is taken by a segment, then *ESP is still the null pointer that
    start_process () put there, and the function goes on to write below it: a page
    fault in the kernel. *)
Lemma wpf_setup_stack m f p i pos file_name ret :
  let args := words [32] file_name in
  ready m f p i pos → cr3 (mm m) + PHYS_BASE = pagedir m →
  Forall (λ c, 0 < c < 256) file_name → (length args ≤ 130)%nat → frame_size args ≤ 4096 → 0 ≤ ret < 256 →
  wpf (setup_stack 0 file_name ret) m
    (λ '(ok, esp) m', ok = true ∧ args_on_stack m' esp args ∧ space (R m') (pagedir m') ∧ grows m m' ∧
       ∀ va, 0 ≤ va < STACK_LOW → umem (R m') (pagedir m') va = umem (R m) (pagedir m) va)
    (maps (R m) (pagedir m) STACK_PAGE ≠ None ∨ exhausted (R m) true 1 ∨ exhausted (R m) false 1).
Proof.
  intros args Hrd Hact Hchars Hn Hsize Hret. pose proof Hrd as [Hsp Hinit Hop]. pose proof (pd_palloc _ _ (sp_pd _ _ Hsp)) as Hok.
  unfold setup_stack. apply wpf_bind, wp_get_stack_page; [done|apply Hop| |].
  { intros Hex. change (Palloc.NULL =? NULL) with true. simpl negb. cbv iota. apply wpf_bind. wp_step.
    unfold wpf, mbind, M_bind. rewrite push_arguments_faults by done. tauto. }
  intros k m1 Hf1 Hz1 Es1. destruct (filled_page _ _ _ Hf1) as (_ & _ & _ & ->). simpl negb. cbv iota.
  rewrite PGSIZE_eq. apply wpf_bind. wp_step. eapply wp_add_page; [done|done|done|done| |].
  - intros m2 Hg Hsp2 Es2 Hnone Hmp Hmem. wp_step. change ((PHYS_BASE - 4096) / 4096) with STACK_PAGE in *.
    pose proof (stack_installed _ _ _ _ _ _ _ _ Hrd Hact Hf1 Es1 Hz1 Hg Hsp2 Es2 Hmp Hmem) as Hst.
    apply wpf_wp. wp_step. eapply wp_push_arguments; [done|done|done| |done|done|].
    { apply Forall_forall. intros w Hw. apply words_spec in Hw as [Hne Hc]. split; [done|].
      apply Forall_forall. intros c Hin%Hc. rewrite Forall_forall in Hchars. specialize (Hchars c Hin). lia. }
    intros m3 esp Hst3 Hal Hlow. wp_step.
    assert (pagedir m3 = pagedir m) as Epd by by rewrite (st_rest _ _ _ _ _ Hst3).
    split_and!; [done|by eapply arguments_read|rewrite Epd; apply Hst3|eapply stack_grows; [done|apply Hop|done]|].
    intros va Hva. rewrite Epd, (st_mem _ _ _ _ _ Hst3) by (unfold STACK_LOW, PHYS_BASE in *; lia).
    by rewrite decide_False by lia.
  - intros m2 Hg Hsp2 Es2 Hwhy. wp_step. unfold wpf, mbind, M_bind.
    rewrite push_arguments_faults by apply Hsp2. tauto.
Qed.
End stack.
