(* ===== verification/LoadThms.v ===== *)
(** * Theorems on load () of userprog/process.c

    The parts of the loader put together: from an open executable file to the
    memory image, the entry point and the stack of the new process. *)

From S2P Require Import Prelude Bitmap CString Block BlockThms Inode InodeInv InodeThms Directory.
From S2P Require Import Vaddr Palloc Ram Pagedir PagedirThms AddressSpace Process ProcessThms StackThms.
Local Open Scope Z_scope.
Local Ltac Zify.zify_post_hook ::= Z.to_euclidean_division_equations.

Section load.
Context {D : Type} `{BlockDevice D}.
Notation F := (fs D).
Notation P := (machine D).
Notation R m := (ram (mm m)).
Implicit Types (s : F) (i : inode) (m : P).

Definition denied i : inode := with_counts (open_cnt i) (deny_write_cnt i + 1) i.
(** file_deny_write (file) for a file that does not deny writes yet. *)
Lemma wp_file_deny_write s f p i pos Q :
  opened s f p i pos → files s !! f = Some (mk_file p pos false) → deny_write_cnt i < open_cnt i →
  (∀ s', opened s' f p (denied i) pos → (∀ x, content_at s' (denied i) x = content_at s i x) → Q tt s') →
  wp (file_deny_write f) s Q.
Proof.
  intros [_ Hok Hd Hh Hl Hn] Ef Hc HQ. unfold file_deny_write, get_file, set_file, inode_deny_write, set_inode.
  wp_step. wp_step. { by apply negb_true_iff, Z.eqb_neq. }
  do 3 wp_step. apply (wp_from_option _ (mk_file p pos false)); [done|]. simpl negb. cbv iota. wp_step. wp_step.
  wp_step. apply (wp_get_inode _ _ i); [apply Hok|]. simpl f_inode. wp_step. wp_step. wp_step. { apply Z.leb_le. lia. }
  apply HQ; [|done]. destruct Hok. split; simpl; [|split; simpl|..]; try done.
  - exists true. apply lookup_insert_eq.
  - apply lookup_insert_eq.
Qed.

(** The headers of an executable, as they are in the file. *)
Definition ehdr_at s i : Elf32_Ehdr := ehdr_of (content s i 0 52).

Lemma loaded_denied m s s' i ph :
  (∀ x, 0 ≤ x < len i → content_at s' (denied i) x = content_at s i x) → phdr_words ph →
  header_loaded m s' (denied i) ph → header_loaded m s i ph.
Proof.
  intros Hc [Ho _ _ _] [Hn Hl]. split; [done|]. intros E. destruct (Hl E) as (? & ? & Him).
  change (len (denied i)) with (len i) in *. split_and!; [done..|].
  intros va Hva. destruct (Him va Hva) as [-> ?]. split; [|done]. case_decide; [|done]. by rewrite Hc by lia.
Qed.


(** A segment in the topmost page of user memory, which validate_segment ()
    accepts, makes setup_stack () fault: any user can stop the kernel. *)
Theorem setup_stack_occupied m f p i pos file_name ret :
  ready m f p i pos → maps (R m) (pagedir m) STACK_PAGE ≠ None → setup_stack 0 file_name ret m = Fault.
Proof.
  intros Hrd Hm. pose proof Hrd as [Hsp Hinit Hop].
  assert (wpf (setup_stack 0 file_name ret) m (λ _ _, False) True) as Hw.
  2: { unfold wpf in Hw. by destruct (setup_stack 0 file_name ret m) as [[]| | |]. }
  unfold setup_stack. apply wpf_bind, wp_get_stack_page; [done|apply Hop| |].
  { intros Hex. change (Palloc.NULL =? NULL) with true. simpl negb. cbv iota. apply wpf_bind. wp_step.
    unfold wpf, mbind, M_bind. rewrite push_arguments_faults by apply Hsp. done. }
  intros k m1 Hf1 _ Es1. destruct (filled_page _ _ _ Hf1) as (_ & _ & _ & ->). simpl negb. cbv iota.
  rewrite PGSIZE_eq. apply wpf_bind. wp_step. eapply wp_add_page; [done|done|done|done| |].
  - intros m2 _ _ _ Hnone. by destruct Hm.
  - intros m2 Hg Hsp2 Es2 _. wp_step. unfold wpf, mbind, M_bind. rewrite push_arguments_faults by apply Hsp2. done.
Qed.
End load.

(** ** An executable of one segment *)

Section load_example.
#[local] Existing Instance ex_ops.
#[local] Existing Instance ex_device.

(** The file header, one program header, and 32 bytes of code: 116 bytes, loaded at
    [vaddr] with room for 200. *)
Definition elf_image (vaddr : Z) : list Z :=
  ELF_MAGIC ++ replicate 9 0 ++ [2; 0; 3; 0] ++ word_bytes 1 ++ word_bytes (vaddr + 84) ++ word_bytes 52 ++
  word_bytes 0 ++ word_bytes 0 ++ [52; 0; 32; 0; 1; 0; 0; 0; 0; 0; 0; 0] ++
  bytes_of [1; 0; vaddr; vaddr; 116; 200; 5; 4096] ++ replicate 32 0x90.
Definition elf_fs (vaddr : Z) : fs (block ramdisk) :=
  mk_fs (mk_block (λ n, if n =? 4 then elf_image vaddr ++ replicate 396 0 else replicate 512 0) [] BLOCK_FILESYS 64 0 0)
    [2; 1] {[ 1 := ex_map_inode; 2 := ex_inode ]} {[ 3 := mk_file 1 0 false; 4 := mk_file 2 0 false ]} ∅
    (mk_bitmap 64 [63; 0]) 3 DIRECT [] 6 (λ _, 0).
Definition elf_ram : pages :=
  mk_pages 270 (λ _, 0) (mk_pool false (mk_bitmap 6 [1]) 0xc0101000) (mk_pool false (mk_bitmap 6 [0]) 0xc0108000).
Definition elf_machine (vaddr : Z) : machine (block ramdisk) :=
  mk_machine (mk_mmu elf_ram 0xc0100000 0x101000 ∅) (elf_fs vaddr) 0xc0107000 0xc0107000 0xc0101000 0 0.

Lemma zero_word_at a : word_at (λ _, 0) a = 0.
Proof. done. Qed.
Lemma elf_pte va : pte_of (λ _, 0) 0xc0101000 va = 0.
Proof. unfold pte_of, pde_at. by rewrite zero_word_at. Qed.
Lemma elf_maps vpn : maps elf_ram 0xc0101000 vpn = None.
Proof. unfold maps, elf_ram. cbn [bytes]. by rewrite elf_pte. Qed.
Lemma elf_space : space elf_ram 0xc0101000.
Proof.
  assert (palloc_ok elf_ram) as Hok.
  { split; [done| | |done]; (split; [done| |done..]; split; [done..|by repeat constructor]). }
  split.
  - split; [done|done| | |].
    + intros i Hi. unfold pde_at, elf_ram. cbn [bytes]. by rewrite zero_word_at.
    + intros i j Hi Hj. unfold pde_at, elf_ram. cbn [bytes]. by rewrite zero_word_at.
    + intros va Hva. unfold elf_ram. cbn [bytes]. by rewrite elf_pte.
  - intros vpn k w _. by rewrite elf_maps.
  - intros vpn vpn' k w w' _ _. by rewrite elf_maps.
Qed.
Lemma elf_ready vaddr : ready (elf_machine vaddr) 4 2 ex_inode 0.
Proof.
  split; [apply elf_space|done|]. split; [by exists false| |split; [|done]|done|done|done].
  - destruct ex_file_ok. by split.
  - intros n. change (length (if n =? 4 then elf_image vaddr ++ replicate 396 0 else replicate 512 0) = 512%nat).
    destruct (n =? 4); [|apply length_replicate]. by rewrite length_app, length_replicate.
Qed.
Definition command : list Z := [101; 99; 104; 111; 32; 120]. (* echo x *)


(** An executable with its segment in the page of the stack. *)
Lemma setup_stack_occupied_witness :
  match load_headers 1 4 52 (elf_machine 0xbffff000) with
  | Ok (ok, m2) => ok = true ∧ setup_stack 0 command 7 m2 = Fault
  | _ => False
  end.
Proof.
  assert (match load_headers 1 4 52 (elf_machine 0xbffff000) with Ok (ok, _) => ok | _ => false end = true)
    as Ec by (vm_compute; reflexivity).
  assert (- 2 ^ 31 ≤ 52 < 2 ^ 31) as H52 by lia.
  pose proof (wp_load_headers 1 (elf_machine 0xbffff000) 4 2 ex_inode 0 52 (elf_ready _) H52) as Hw.
  unfold wp in Hw. destruct (load_headers 1 4 52 (elf_machine 0xbffff000)) as [[ok m2]| | |]; [|done..].
  subst ok. split; [done|]. destruct Hw as ((pos' & Hrd) & Hg & Hres).
  apply (setup_stack_occupied m2 4 2 ex_inode pos' command 7 Hrd). destruct (Hres 0) as (_ & _ & _ & Hld); [done|].
  destruct Hld as (_ & _ & Him); [by vm_compute|]. destruct (Him 0xbffff000) as (_ & k & Hk); [by vm_compute|].
  change (0xbffff000 / 4096) with STACK_PAGE in Hk. by rewrite Hk.
Defined.
End load_example.
