(* ===== verification/Syscall.v ===== *)
(** * System calls: userprog/syscall.c

    The state of the running process is the machine of Process.v with the members
    of struct thread that the calls use, the semaphore sema_files, what has been
    printed and the keys that have been typed.  A call that ends the process or the
    machine does not return: its result is [inr].

    Arguments are read from user memory through the page tables, and an address
    that is not mapped is a page fault in the kernel.  process_execute () and
    process_wait (), which block until another thread has run, are arguments of the
    handler; the path calls are those of Directory.v.  A line of output keeps the
    bytes or the exit status that it shows, not the name of the thread. *)

From S2P Require Import Prelude Bitmap CString Block Inode Directory Vaddr Palloc Ram Pagedir Process.
Local Open Scope Z_scope.

(** ** The state *)

Inductive output := Text (bs : list Z) | ExitMessage (status : Z).
(** A call that does not return. *)
Inductive stop := Exited | Halted.

Record proc (D : Type) := mk_proc {
  mach : machine D;
  file_pointers : list Z;
  fd_index : Z;
  current_dir : Z;
  exit_status : Z;
  sema_files : Z;
  create_cnt : Z;
  console : list output;
  keys : list Z
}.
Arguments mk_proc {D}.
Arguments mach {D}.
Arguments file_pointers {D}.
Arguments fd_index {D}.
Arguments current_dir {D}.
Arguments exit_status {D}.
Arguments sema_files {D}.
Arguments create_cnt {D}.
Arguments console {D}.
Arguments keys {D}.

(** lib/syscall-nr.h *)
Inductive sys_nr :=
| SYS_HALT | SYS_EXIT | SYS_EXEC | SYS_WAIT | SYS_CREATE | SYS_REMOVE | SYS_OPEN | SYS_FILESIZE
| SYS_READ | SYS_WRITE | SYS_SEEK | SYS_TELL | SYS_CLOSE | SYS_MMAP | SYS_MUNMAP
| SYS_CHDIR | SYS_MKDIR | SYS_READDIR | SYS_ISDIR | SYS_INUMBER.
Definition sys_nrs : list sys_nr :=
  [SYS_HALT; SYS_EXIT; SYS_EXEC; SYS_WAIT; SYS_CREATE; SYS_REMOVE; SYS_OPEN; SYS_FILESIZE;
   SYS_READ; SYS_WRITE; SYS_SEEK; SYS_TELL; SYS_CLOSE; SYS_MMAP; SYS_MUNMAP;
   SYS_CHDIR; SYS_MKDIR; SYS_READDIR; SYS_ISDIR; SYS_INUMBER].
Definition sys_nr_of (n : Z) : option sys_nr := if n <? 0 then None else sys_nrs !! Z.to_nat n.

Section syscall.
Context {D : Type} `{!BlockOps D} (stk : stack) (nest : nat).
Notation S := (proc D).

Definition on_mach {A} : M (machine D) A → M S A :=
  zoom mach (λ m s, mk_proc m (file_pointers s) (fd_index s) (current_dir s) (exit_status s)
                      (sema_files s) (create_cnt s) (console s) (keys s)).
Definition on_fs {A} (m : M (fs D) A) : M S A := on_mach (on_sys m).
Definition set_fds (l : list Z) (n : Z) (s : S) : S :=
  mk_proc (mach s) l n (current_dir s) (exit_status s) (sema_files s) (create_cnt s) (console s) (keys s).
Definition set_status (z : Z) (s : S) : S :=
  mk_proc (mach s) (file_pointers s) (fd_index s) (current_dir s) z (sema_files s) (create_cnt s) (console s) (keys s).
Definition set_sema (z : Z) (s : S) : S :=
  mk_proc (mach s) (file_pointers s) (fd_index s) (current_dir s) (exit_status s) z (create_cnt s) (console s) (keys s).
Definition set_create_cnt (z : Z) (s : S) : S :=
  mk_proc (mach s) (file_pointers s) (fd_index s) (current_dir s) (exit_status s) (sema_files s) z (console s) (keys s).
Definition print (o : output) (s : S) : S :=
  mk_proc (mach s) (file_pointers s) (fd_index s) (current_dir s) (exit_status s) (sema_files s) (create_cnt s)
    (console s ++ [o]) (keys s).
Definition set_keys (l : list Z) (s : S) : S :=
  mk_proc (mach s) (file_pointers s) (fd_index s) (current_dir s) (exit_status s) (sema_files s) (create_cnt s)
    (console s) l.

(** sema_down and sema_up on sema_files.  When the value is 0 the thread waits for
    another one to release it; in a run of one process that is for ever. *)
Definition files_down : M S unit :=
  v ← gets sema_files; if v =? 0 then nofuel else modify (set_sema (v - 1)).
Definition files_up : M S unit := v ← gets sema_files; modify (set_sema (u32 (v + 1))).

(** file_pointers[fd]; an index outside the array is undefined. *)
Definition file_pointer (fd : Z) : M S Z :=
  l ← gets file_pointers; if fd <? 0 then fault else from_option (l !! Z.to_nat fd).
Definition set_file_pointer (fd f : Z) : M S unit :=
  _ ← file_pointer fd;
  modify (λ s, set_fds (<[Z.to_nat fd := f]> (file_pointers s)) (fd_index s) s).

(** ** User memory *)

(** Reading needs a mapping, but not a writable one. *)
Definition translate_read (σ : mmu) (va : Z) : option Z :=
  if va <? PHYS_BASE then
    let pde := pde_at (bytes (ram σ)) (cr3 σ + PHYS_BASE) (pd_no va) in
    let pte := word_at (bytes (ram σ)) (addr_of pde + 4 * pt_no va) in
    if negb (Z.land pde PTE_P =? 0) && negb (Z.land pte PTE_P =? 0) then Some (addr_of pte + va mod 4096) else None
  else if va <? ram_end (ram σ) then Some va else None.
Definition peek (σ : mmu) (va : Z) : option Z :=
  a ← translate_read σ (u32 va);
  if (PHYS_BASE <=? a) && (a + 1 <=? ram_end (ram σ)) then Some (u8 (bytes (ram σ) a)) else None.
Definition user_load (va : Z) : M S Z := s ← get; from_option (peek (mm (mach s)) va).
Definition user_load_word (va : Z) : M S Z :=
  b0 ← user_load va; b1 ← user_load (va + 1); b2 ← user_load (va + 2); b3 ← user_load (va + 3);
  mret (b0 + 2 ^ 8 * b1 + 2 ^ 16 * b2 + 2 ^ 24 * b3).
Fixpoint user_load_bytes (n : nat) (va : Z) : M S (list Z) :=
  match n with
  | O => mret []
  | Datatypes.S n => b ← user_load va; bs ← user_load_bytes n (va + 1); mret (b :: bs)
  end.
(** The bytes of a buffer that can be read, up to [n]: a function that is given the
    buffer faults when it goes on to use one more. *)
Fixpoint readable (σ : mmu) (n : nat) (va : Z) : list Z :=
  match n with
  | O => []
  | Datatypes.S n => match peek σ va with Some b => b :: readable σ n (va + 1) | None => [] end
  end.
Fixpoint user_store_bytes (va : Z) (bs : list Z) : M S unit :=
  match bs with
  | [] => mret tt
  | b :: bs => on_mach (user_store (u32 va) b);; user_store_bytes (va + 1) bs
  end.
(** A string of the user program; it ends at a null byte or at an address that is
    not mapped, so that 2^32 is enough fuel. *)
Fixpoint user_string (fuel : nat) (va : Z) : M S (list Z) :=
  match fuel with
  | O => nofuel
  | Datatypes.S fuel =>
    c ← user_load va;
    if c =? 0 then mret [] else cs ← user_string fuel (va + 1); mret (c :: cs)
  end.

(** ** The calls *)

Definition bad_pointer (esp : Z) : M S (unit + stop) :=
  st ← gets exit_status;
  if esp =? NULL then modify (print (ExitMessage st));; mret (inr Exited)
  else if is_kernel_vaddr esp then modify (print (ExitMessage st));; mret (inr Exited)
  else
    pd ← gets (λ s, pagedir (mach s));
    k ← on_mach (on_mm (pagedir_get_page pd esp));
    if k =? NULL then modify (print (ExitMessage st));; mret (inr Exited)
    else mret (inl tt).

Definition close (fd : Z) : M S unit :=
  files_down;;
  n ← gets fd_index;
  (if (2 <=? fd) && (fd <=? n) then
     f ← file_pointer fd;
     if negb (f =? NULL) then on_fs (file_close nest f);; set_file_pointer fd NULL else mret tt
   else mret tt);;
  files_up.
(** for (counter = 2; counter < 130; counter++), [n] iterations left. *)
Fixpoint close_loop (n : nat) (counter : Z) : M S unit :=
  match n with
  | O => mret tt
  | Datatypes.S n => close counter;; close_loop n (counter + 1)
  end.
Definition close_files : M S unit := close_loop 128 2.
Definition exit (status : Z) : M S (Z + stop) :=
  modify (set_status status);;
  modify (print (ExitMessage status));;
  f ← gets (λ s, save (mach s));
  on_fs (file_close nest f);;
  close_files;;
  mret (inr Exited).

Definition create (file : list Z) (initial_size : Z) : M S Z :=
  files_down;;
  i ← gets create_cnt; d ← gets current_dir;
  '(res, i) ← on_fs (filesys_create stk nest i d file (s32 initial_size));
  modify (set_create_cnt i);;
  files_up;;
  mret (if res : bool then 1 else 0).
Definition remove (file : list Z) : M S Z :=
  files_down;;
  d ← gets current_dir;
  res ← on_fs (filesys_remove nest d file);
  files_up;;
  mret (if res : bool then 1 else 0).
Definition open (file : list Z) : M S Z :=
  files_down;;
  n ← gets fd_index;
  f ← on_fs (filesys_open nest file);
  set_file_pointer n f;;
  res ← (if f =? NULL then mret (-1)
         else modify (λ s, set_fds (file_pointers s) (n + 1) s);; mret n);
  files_up;;
  mret res.
Definition filesize (fd : Z) : M S Z :=
  files_down;;
  n ← gets fd_index;
  res ← (if (fd <? 2) || (n <? fd) then mret 0 else f ← file_pointer fd; on_fs (file_length f));
  files_up;;
  mret res.

(** input_getc () takes the next key; without one it waits. *)
Definition input_getc : M S Z :=
  l ← gets keys; match l with [] => nofuel | c :: l => modify (set_keys l);; mret c end.
Fixpoint read_keys (n : nat) (buffer : Z) : M S unit :=
  match n with
  | O => mret tt
  | Datatypes.S n => c ← input_getc; on_mach (user_store (u32 buffer) c);; read_keys n (buffer + 1)
  end.
Definition read (fd buffer size : Z) : M S Z :=
  files_down;;
  n ← gets fd_index;
  res ← (if fd =? 0 then read_keys (Z.to_nat size) buffer;; mret (s32 size)
         else if (1 <? fd) && (fd <=? n) && negb (buffer =? NULL) then
           f ← file_pointer fd;
           '(got, bs) ← on_fs (file_read f (s32 size));
           user_store_bytes buffer bs;;
           mret got
         else mret (-1));
  files_up;;
  mret res.
Definition write (fd buffer size : Z) : M S Z :=
  n ← gets fd_index;
  if (0 <? fd) && (fd <=? n) && negb (buffer =? NULL) then
    files_down;;
    if fd =? 1 then
      if size =? 0 then files_up;; mret 0
      else
        bs ← user_load_bytes (Z.to_nat size) buffer;
        modify (print (Text bs));;
        files_up;;
        mret (s32 size)
    else
      f ← file_pointer fd;
      x ← on_fs (get_file f);
      i ← on_fs (get_inode (f_inode x));
      if is_dir i =? -1 then files_up;; mret (-1)
      else
        files_up;;
        f ← file_pointer fd;
        σ ← gets (λ s, mm (mach s));
        on_fs (file_write nest f (readable σ (Z.to_nat (s32 size)) buffer) (s32 size))
  else mret 0.
Definition seek (fd position : Z) : M S (unit + stop) :=
  files_down;;
  n ← gets fd_index;
  if (2 <=? fd) && (fd <=? n) then
    f ← file_pointer fd;
    on_fs (file_seek f (s32 position));;
    files_up;;
    mret (inl tt)
  else files_up;; mret (inr Exited).
Definition tell (fd : Z) : M S (Z + stop) :=
  files_down;;
  n ← gets fd_index;
  if (fd <? 2) || (n <? fd) then files_up;; mret (inr Exited)
  else
    f ← file_pointer fd;
    res ← on_fs (file_tell f);
    files_up;;
    mret (inl res).

Definition sys_chdir (dir : list Z) : M S Z :=
  files_down;;
  d ← gets current_dir;
  res ← on_fs (chdir nest d dir);
  files_up;;
  mret (if res : bool then 1 else 0).
Definition sys_mkdir (dir : list Z) : M S Z :=
  files_down;;
  res ← on_fs (mkdir stk nest dir);
  files_up;;
  mret (if res : bool then 1 else 0).
Definition readdir (fd name : Z) : M S Z :=
  files_down;;
  f ← file_pointer fd;
  new_dir ← on_fs alloc;
  (if new_dir =? NULL then fault else mret tt);;
  x ← on_fs (get_file f);
  on_fs (set_dir new_dir (mk_dir false (f_inode x) (f_pos x) None));;
  files_up;;
  r ← on_fs (dir_readdir new_dir);
  match r with
  | Some n => user_store_bytes name (n ++ [0]);; mret 1
  | None => mret 0
  end.
Definition isdir (fd : Z) : M S Z :=
  f ← file_pointer fd;
  x ← on_fs (get_file f);
  i ← on_fs (get_inode (f_inode x));
  mret (if is_dir i =? -1 then 1 else 0).
(** dir_get_inode () takes a struct dir, whose member inode is where struct file has
    pos: the position of the file is followed as the address of a struct inode, and
    its member sector is at offset 8. *)
Definition inumber (fd : Z) : M S Z :=
  f ← file_pointer fd;
  x ← on_fs (get_file f);
  sec ← user_load_word (f_pos x + 8);
  mret (s32 sec).

Definition halt : M S (Z + stop) := mret (inr Halted).

(** ** The handler *)

Section handler.
Context (fuel : nat) (process_execute process_wait : Z → M S Z).

Definition exec (cmd_line : Z) : M S Z :=
  tid ← process_execute cmd_line; if tid =? -1 then mret (-1) else mret tid.
Definition wait (pid : Z) : M S Z := process_wait pid.

Definition and_then {A B} (m : M S (A + stop)) (k : A → M S (B + stop)) : M S (B + stop) :=
  r ← m; match r with inl a => k a | inr e => mret (inr e) end.
(** A call whose result goes to f->eax, and one that leaves it alone. *)
Definition eax (m : M S Z) : M S (option Z + stop) := v ← m; mret (inl (Some v)).
Definition no_result {A} (m : M S (A + stop)) : M S (option Z + stop) := and_then m (λ _, mret (inl None)).
(** bad_pointer (p); ... *)
Definition check (p : Z) (k : M S (option Z + stop)) : M S (option Z + stop) :=
  and_then (bad_pointer (u32 p)) (λ _, k).

(** The switch on *esp. *)
Definition dispatch (esp nr : Z) : M S (option Z + stop) :=
  let arg n := user_load_word (esp + 4 * n) in
  let str n := p ← arg n; user_string fuel p in
  match sys_nr_of (s32 nr) with
  | Some SYS_HALT => no_result halt
  | Some SYS_EXIT => check (esp + 4) (n ← arg 1; no_result (exit (s32 n)))
  | Some SYS_EXEC => p ← arg 1; check p (eax (p ← arg 1; exec p))
  | Some SYS_WAIT => check (esp + 4) (eax (p ← arg 1; wait (s32 p)))
  | Some SYS_CREATE => p ← arg 1; check p (check (esp + 8) (eax (f ← str 1; n ← arg 2; create f n)))
  | Some SYS_REMOVE => p ← arg 1; check p (eax (f ← str 1; remove f))
  | Some SYS_OPEN => p ← arg 1; check p (eax (f ← str 1; open f))
  | Some SYS_FILESIZE => check (esp + 4) (eax (fd ← arg 1; filesize (s32 fd)))
  | Some SYS_READ =>
    check (esp + 4) (p ← arg 2; check p (check (esp + 12)
      (eax (fd ← arg 1; b ← arg 2; n ← arg 3; read (s32 fd) b n))))
  | Some SYS_WRITE =>
    check (esp + 4) (p ← arg 2; check p (check (esp + 12)
      (eax (fd ← arg 1; b ← arg 2; n ← arg 3; write (s32 fd) b n))))
  | Some SYS_SEEK =>
    check (esp + 4) (check (esp + 8) (fd ← arg 1; n ← arg 2; no_result (seek (s32 fd) n)))
  | Some SYS_TELL => check (esp + 4) (fd ← arg 1; and_then (tell (s32 fd)) (λ v, mret (inl (Some v))))
  | Some SYS_CLOSE => check (esp + 4) (fd ← arg 1; close (s32 fd);; mret (inl None))
  | Some SYS_CHDIR => eax (d ← str 1; sys_chdir d)
  | Some SYS_MKDIR => eax (d ← str 1; sys_mkdir d)
  | Some SYS_READDIR => eax (name ← arg 2; readdir (s32 (esp + 4)) name)
  | Some SYS_ISDIR => eax (isdir (s32 (esp + 4)))
  | Some SYS_INUMBER => eax (inumber (s32 (esp + 4)))
  | Some SYS_MMAP | Some SYS_MUNMAP | None => mret (inr Exited)
  end.
Definition syscall_handler (esp : Z) : M S (option Z + stop) :=
  and_then (bad_pointer esp) (λ _, nr ← user_load_word esp; dispatch esp nr).
End handler.
End syscall.
