(* ===== verification/UserMem.v ===== *)
(** * The kernel's accesses to user memory

    What the loads and stores of Syscall.v do, in terms of the memory that the
    process sees ([umem] of AddressSpace.v). *)

From S2P Require Import Prelude Bitmap CString Block BlockThms Inode InodeInv InodeThms Directory.
From S2P Require Import Vaddr Palloc Ram Pagedir PagedirThms AddressSpace Process ProcessThms StackThms Syscall.
Local Open Scope Z_scope.
Local Ltac Zify.zify_post_hook ::= Z.to_euclidean_division_equations.

Section usermem.
Context {D : Type} `{BlockDevice D}.
Notation P := (machine D).
Notation R m := (ram (mm m)).
Implicit Types (m : P) (s : proc D).

(** The address space of the process is the one that the processor uses. *)
Record running m : Prop := {
  rn_space : space (R m) (pagedir m);
  rn_active : cr3 (mm m) + PHYS_BASE = pagedir m
}.
Definition ubyte m (va : Z) : option Z := u8 <$> umem (R m) (pagedir m) va.
Definition writable_at m (va : Z) : Prop := ∃ k, maps (R m) (pagedir m) (va / 4096) = Some (k, true).
Definition in_user (va n : Z) : Prop := 0 ≤ va ∧ va + n ≤ PHYS_BASE.
(** The frames of the process. *)
Definition user_frame m (q : Z) : Prop := ∃ vpn w, user_page vpn ∧ maps (R m) (pagedir m) vpn = Some (q, w).

(** The bytes [bs] have been stored at [va]; only frames of the process changed. *)
Record stored m m' (va : Z) (bs : list Z) : Prop := {
  sd_rest : m' = with_pages (R m') m;
  sd_space : space (R m') (pagedir m);
  sd_kept : kept (user_frame m) (R m) (R m');
  sd_maps vpn : user_page vpn → maps (R m') (pagedir m) vpn = maps (R m) (pagedir m) vpn;
  sd_mem x : 0 ≤ x < PHYS_BASE → umem (R m') (pagedir m) x =
    if decide (va ≤ x < va + Z.of_nat (length bs)) then u8 <$> bs !! Z.to_nat (x - va)
    else umem (R m) (pagedir m) x
}.

Lemma stored_fields m m' va bs : stored m m' va bs →
  pagedir m' = pagedir m ∧ sys m' = sys m ∧ save m' = save m ∧ cr3 (mm m') = cr3 (mm m).
Proof. intros [E _ _ _ _]. by rewrite E. Qed.
Lemma stored_running m m' va bs : stored m m' va bs → running m → running m'.
Proof.
  intros Hs [_ Ha]. destruct (stored_fields _ _ _ _ Hs) as (Ep & _ & _ & Ec).
  split; rewrite ?Ep, ?Ec; [apply Hs|done].
Qed.
Lemma stored_nil m va : running m → stored m m va [].
Proof.
  intros [Hsp _]. split; [by destruct m as [[] ? ? ? ? ? ?]|done|apply kept_refl, Hsp|done|].
  intros x Hx. by rewrite decide_False by (simpl; lia).
Qed.
Lemma stored_cons m m1 m2 va b bs : 0 ≤ va →
  stored m m1 va [b] → stored m1 m2 (va + 1) bs → stored m m2 va (b :: bs).
Proof.
  intros Hva Hs1 Hs2. destruct (stored_fields _ _ _ _ Hs1) as (Ep & _ & _ & _).
  destruct Hs1 as [E1 Sp1 K1 M1 U1]. destruct Hs2 as [E2 Sp2 K2 M2 U2]. rewrite Ep in *. split.
  - rewrite E2, E1. by destruct m.
  - done.
  - eapply kept_trans; [exact K1|]. eapply kept_weaken; [|exact K2]. intros q (vpn & w & Hv & Hq).
    exists vpn, w. rewrite Ep in Hq. by rewrite <-M1.
  - intros vpn Hv. by rewrite M2, M1.
  - intros x Hx. rewrite U2, U1 by done. cbn [length] in *. repeat case_decide; try lia; try done.
    + replace (Z.to_nat (x - va)) with (S (Z.to_nat (x - (va + 1)))) by lia. done.
    + by replace (Z.to_nat (x - va)) with 0%nat by lia.
Qed.
Lemma stored_writable m m' va bs x : stored m m' va bs → 0 ≤ x < PHYS_BASE →
  writable_at m x → writable_at m' x.
Proof.
  intros Hs Hx [k Hk]. destruct (stored_fields _ _ _ _ Hs) as (Ep & _ & _ & _). exists k.
  rewrite Ep, (sd_maps _ _ _ _ Hs); [done|]. by apply user_page_of.
Qed.

(** ** One byte *)

Lemma translate_read_umem m va : running m → 0 ≤ va < PHYS_BASE →
  translate_read (mm m) va =
    match maps (R m) (pagedir m) (va / 4096) with Some (k, _) => Some (k + va mod 4096) | None => None end.
Proof.
  intros [[Hpd _ _] Ha] Hva. unfold translate_read. rewrite (proj2 (Z.ltb_lt _ _)), Ha by lia.
  unfold maps. rewrite pte_of_page by lia. simpl. unfold pte_of.
  destruct (Z.eqb_spec (pde_at (bytes (R m)) (pagedir m) (pd_no va)) 0) as [E0|E0].
  { rewrite E0, !Z.land_0_l. done. }
  destruct (pd_tables _ _ Hpd _ (pd_index va Hva) E0) as (Hp & _ & _). unfold table in *.
  rewrite (proj2 (Z.eqb_neq _ _) Hp). simpl. case_decide as Ep.
  - by rewrite Ep.
  - by rewrite (proj2 (Z.eqb_neq _ _) Ep).
Qed.
Lemma peek_umem m va : running m → 0 ≤ va < PHYS_BASE → peek (mm m) va = ubyte m va.
Proof.
  intros Hr Hva. unfold peek, ubyte, umem. rewrite wrap_small by (unfold PHYS_BASE in Hva; lia).
  rewrite translate_read_umem by done.
  destruct (maps (R m) (pagedir m) (va / 4096)) as [[k w]|] eqn:E; [|done]. simpl.
  destruct (sp_frames _ _ (rn_space _ Hr) _ _ _ (user_page_of va Hva) E) as [[Ha Hl Hh _] _].
  rewrite !(proj2 (Z.leb_le _ _)) by lia. done.
Qed.
Lemma wp_user_store_at m va b Q : running m → 0 ≤ va < PHYS_BASE → writable_at m va →
  (∀ m', stored m m' va [b] → Q tt m') → wp (user_store (u32 va) b) m Q.
Proof.
  intros [Hsp Hact] Hva [k Hk] HQ. rewrite wrap_small by (unfold PHYS_BASE in Hva; lia).
  destruct (sp_frames _ _ Hsp _ _ _ (user_page_of va Hva) Hk) as [[Ha Hl Hh Hu] Hkt].
  unfold user_store. do 2 wp_step. wp_step. apply (wp_from_option _ (k + va mod 4096)).
  { by eapply translate_mapped. }
  apply wp_on_pages. wp_step. apply wp_access; [lia|lia|]. wp_step.
  destruct (store_frame_space (pagedir m) va k true (u8 b) (R m) Hsp Hva Hk) as (Hsp' & Hmp' & Hm').
  apply HQ. split; [done|exact Hsp'| |exact Hmp'|].
  - eapply kept_weaken; [|apply (kept_bytes k); [apply Hsp|done|]].
    + intros q ->. exists (va / 4096), true. split; [by apply user_page_of|done].
    + intros x Hx. rewrite (proj2 (Z.eqb_neq _ _)); [done|lia].
  - intros x Hx. refine (eq_trans (Hm' x Hx) _). cbn [length]. repeat case_decide; try lia; [|done].
    subst. by rewrite Z.sub_diag.
Qed.

(** ** Several bytes *)

Definition with_mach (m : P) s : proc D :=
  mk_proc m (file_pointers s) (fd_index s) (current_dir s) (exit_status s) (sema_files s) (create_cnt s)
    (console s) (keys s).
Lemma with_mach_same s : with_mach (mach s) s = s.
Proof. by destruct s. Qed.
Lemma wp_on_mach {A} (c : M P A) s Q :
  wp c (mach s) (λ a m, Q a (with_mach m s)) → wp (on_mach c) s Q.
Proof. intros Hc. by apply wp_zoom. Qed.
Lemma wp_on_fs {A} (c : M (fs D) A) s Q :
  wp c (sys (mach s)) (λ a f, Q a (with_mach (with_sys f (mach s)) s)) → wp (on_fs c) s Q.
Proof. intros Hc. unfold on_fs. apply wp_on_mach. by apply wp_on_sys. Qed.

Definition all_writable m (va n : Z) : Prop := in_user va n ∧ ∀ x, va ≤ x < va + n → writable_at m x.
Definition all_mapped m (va n : Z) : Prop :=
  in_user va n ∧ ∀ x, va ≤ x < va + n → maps (R m) (pagedir m) (x / 4096) ≠ None.
(** The bytes from [va] on, where there are [n]. *)
Definition ubytes m (va : Z) (n : nat) : list Z := (λ x, default 0 (ubyte m x)) <$> seqZ va (Z.of_nat n).

Lemma ubytes_length m va n : length (ubytes m va n) = n.
Proof. unfold ubytes. rewrite length_fmap, length_seqZ. lia. Qed.
Lemma ubytes_S m va n : ubytes m va (S n) = default 0 (ubyte m va) :: ubytes m (va + 1) n.
Proof. unfold ubytes. rewrite seqZ_cons by lia. simpl. by replace (Z.pred (Z.of_nat (S n))) with (Z.of_nat n) by lia. Qed.
Lemma ubytes_lookup m va n j : (j < n)%nat → ubytes m va n !! j = Some (default 0 (ubyte m (va + Z.of_nat j))).
Proof. intros Hj. unfold ubytes. rewrite list_lookup_fmap, lookup_seqZ_lt by lia. done. Qed.
Lemma ubyte_mapped m va : maps (R m) (pagedir m) (va / 4096) ≠ None → ubyte m va = Some (default 0 (ubyte m va)).
Proof. unfold ubyte, umem. by destruct (maps _ _ _) as [[]|]. Qed.
Lemma all_mapped_S m va n : all_mapped m va (Z.of_nat (S n)) → 0 ≤ va < PHYS_BASE ∧
  ubyte m va = Some (default 0 (ubyte m va)) ∧ all_mapped m (va + 1) (Z.of_nat n).
Proof.
  intros [[H1 H2] Hm]. split; [lia|]. split; [apply ubyte_mapped, Hm; lia|]. split; [split; lia|].
  intros x Hx. apply Hm. lia.
Qed.
Lemma all_writable_mapped m va n : all_writable m va n → all_mapped m va n.
Proof. intros [Hu Hw]. split; [done|]. intros x Hx. destruct (Hw x Hx) as [k ->]. done. Qed.

Lemma wp_user_store_bytes bs va s Q : running (mach s) → all_writable (mach s) va (Z.of_nat (length bs)) →
  (∀ m', stored (mach s) m' va bs → Q tt (with_mach m' s)) → wp (user_store_bytes va bs) s Q.
Proof.
  revert va s Q. induction bs as [|b bs IH]; intros va s Q Hr [[Hu Hu'] Hw] HQ; cbn [user_store_bytes length] in *.
  { wp_step. rewrite <-(with_mach_same s). by apply HQ, stored_nil. }
  wp_step. apply wp_on_mach. apply wp_user_store_at; [done|lia|apply Hw; lia|]. intros m1 Hs1.
  apply IH; simpl.
  - by eapply stored_running.
  - split; [split; lia|]. intros x Hx. eapply stored_writable; [done|lia|]. apply Hw. lia.
  - intros m2 Hs2. apply HQ. by eapply stored_cons.
Qed.
Lemma readable_all m va n : running m → all_mapped m va (Z.of_nat n) → readable (mm m) n va = ubytes m va n.
Proof.
  intros Hr. revert va. induction n as [|n IH]; intros va Hm; [done|]. cbn [readable].
  destruct (all_mapped_S _ _ _ Hm) as (Hva & Hb & Hm'). rewrite peek_umem, Hb, ubytes_S by done. by rewrite IH.
Qed.
Lemma wp_user_load va s b Q : running (mach s) → 0 ≤ va < PHYS_BASE → ubyte (mach s) va = Some b → Q b s →
  wp (user_load va) s Q.
Proof. intros Hr Hva Hb HQ. unfold user_load. do 2 wp_step. eapply wp_from_option; [by rewrite peek_umem|done]. Qed.
Lemma wp_user_load_bytes n va s Q : running (mach s) → all_mapped (mach s) va (Z.of_nat n) →
  Q (ubytes (mach s) va n) s → wp (user_load_bytes n va) s Q.
Proof.
  revert va Q. induction n as [|n IH]; intros va Q Hr Hm HQ; cbn [user_load_bytes]; [by wp_step|].
  destruct (all_mapped_S _ _ _ Hm) as (Hva & Hb & Hm'). wp_step. eapply wp_user_load; [done..|].
  wp_step. apply IH; [done..|]. wp_step. by rewrite <-ubytes_S.
Qed.
(** The word at [va], as the processor reads it. *)
Definition uword_at m (va : Z) : Z := word (ubytes m va 4) 0.
Lemma wp_user_load_word va s Q : running (mach s) → all_mapped (mach s) va 4 →
  Q (uword_at (mach s) va) s → wp (user_load_word va) s Q.
Proof.
  intros Hr Hm HQ. destruct (all_mapped_S _ _ 3 Hm) as (V0 & B0 & M1). destruct (all_mapped_S _ _ 2 M1) as (V1 & B1 & M2).
  destruct (all_mapped_S _ _ 1 M2) as (V2 & B2 & M3). destruct (all_mapped_S _ _ 0 M3) as (V3 & B3 & _).
  replace (va + 1 + 1) with (va + 2) in * by lia. replace (va + 2 + 1) with (va + 3) in * by lia.
  unfold user_load_word. do 4 (wp_step; eapply wp_user_load; [done..|]). wp_step.
  unfold uword_at, word in HQ. rewrite !ubytes_S in HQ. replace (va + 1 + 1) with (va + 2) in HQ by lia.
  replace (va + 2 + 1) with (va + 3) in HQ by lia. exact HQ.
Qed.
(** A load from an address that is not mapped is a page fault. *)
Lemma user_load_word_fault va s : running (mach s) → 0 ≤ va < PHYS_BASE → ubyte (mach s) va = None →
  user_load_word va s = Fault.
Proof.
  intros Hr Hva Hb. unfold user_load_word, user_load, mbind, M_bind, get. simpl. by rewrite peek_umem, Hb.
Qed.
End usermem.
