(* ===== verification/SyscallThms.v ===== *)
(** * Theorems on userprog/syscall.c

    The invariant that every call keeps, what the calls on files do to the memory
    of the process, and what the kernel does with bad arguments. *)

From S2P Require Import Prelude Bitmap CString Block BlockThms Inode InodeInv FreeMap InodeThms Directory.
From S2P Require Import Vaddr Palloc Ram Pagedir PagedirThms AddressSpace Process ProcessThms StackThms LoadThms Syscall UserMem.
Local Open Scope Z_scope.
Local Ltac Zify.zify_post_hook ::= Z.to_euclidean_division_equations.

(** ** The invariant of the system calls *)

Section invariant.
Context {D : Type} `{!BlockOps D} (stk : stack) (nest : nat).
Notation S := (proc D).
Implicit Types (s : S).

(** The table of open files: 130 entries, of which only those from 2 to
    [fd_index - 1] are in use. *)
Record fds_ok s : Prop := {
  fds_length : length (file_pointers s) = 130%nat;
  fds_index : 2 ≤ fd_index s ≤ 130;
  fds_unused fd : 0 ≤ fd < 130 → fd < 2 ∨ fd_index s ≤ fd → file_pointers s !! Z.to_nat fd = Some NULL
}.
(** Between calls the semaphore is free. *)
Definition call_ok (v : Z) s : Prop := sema_files s = v ∧ fds_ok s.

Definition hoare {A} (v v' : Z) (c : M S A) : Prop := ∀ s, call_ok v s → wlp c s (λ _, call_ok v').

Lemma hoare_bind {A B} v v1 v' (c : M S A) (k : A → M S B) :
  hoare v v1 c → (∀ a, hoare v1 v' (k a)) → hoare v v' (c ≫= k).
Proof. intros Hc Hk s Hs. wlp_step. eapply wlp_mono; [by apply Hc|]. intros a s' Hs'. by apply Hk. Qed.
Lemma hoare_ret {A} v (a : A) : hoare v v (mret a).
Proof. intros s Hs. by wlp_step. Qed.
Lemma hoare_fault {A} v v' : hoare v v' (fault : M S A).
Proof. intros s Hs. apply wlp_fault. Qed.
Lemma hoare_nofuel {A} v v' : hoare v v' (nofuel : M S A).
Proof. done. Qed.
Lemma hoare_get v : hoare v v get.
Proof. intros s Hs. by wlp_step. Qed.
Lemma hoare_gets {A} v (g : S → A) : hoare v v (gets g).
Proof. intros s Hs. by wlp_step. Qed.
Lemma hoare_option {A} v (o : option A) : hoare v v (from_option o).
Proof. intros s Hs. by wlp_step. Qed.
Lemma hoare_modify v (g : S → S) :
  (∀ s, sema_files (g s) = sema_files s ∧ file_pointers (g s) = file_pointers s ∧ fd_index (g s) = fd_index s) →
  hoare v v (modify g).
Proof.
  intros Hg s [Hv [Hl Hi Hu]]. wlp_step. destruct (Hg s) as (E1 & E2 & E3). split; [congruence|].
  split; rewrite ?E2, ?E3; done.
Qed.
Lemma hoare_mach {A} v (c : M (machine D) A) : hoare v v (on_mach c).
Proof.
  intros s [Hv [Hl Hi Hu]] a s'. unfold on_mach, zoom. destruct (c (mach s)) as [[b m]| | |]; [|done..].
  intros [= _ <-]. done.
Qed.
Lemma hoare_fs {A} v (c : M (fs D) A) : hoare v v (on_fs c).
Proof. apply hoare_mach. Qed.
Lemma hoare_if {A} v v' (b : bool) (c c' : M S A) : hoare v v' c → hoare v v' c' → hoare v v' (if b then c else c').
Proof. by destruct b. Qed.

Lemma hoare_down : hoare 1 0 files_down.
Proof.
  intros s [Hv Hf]. unfold files_down. do 2 wlp_step. rewrite Hv. simpl. wlp_step. split; [done|].
  destruct Hf. by split.
Qed.
Lemma hoare_up : hoare 0 1 files_up.
Proof.
  intros s [Hv Hf]. unfold files_up. do 2 wlp_step. rewrite Hv. wlp_step. split; [done|].
  destruct Hf. by split.
Qed.
Lemma hoare_file_pointer v fd : hoare v v (file_pointer fd).
Proof. unfold file_pointer. apply (hoare_bind _ v); [apply hoare_gets|]. intros l. apply hoare_if; [apply hoare_fault|apply hoare_option]. Qed.

(** ** The calls keep it *)

Create HintDb calls discriminated.
Hint Resolve hoare_ret hoare_fault hoare_nofuel hoare_get hoare_gets hoare_option hoare_mach hoare_fs hoare_file_pointer
  : calls.
(** The body of a call: [v] is the value of the semaphore at the end of the first
    step, which is 0 after files_down and otherwise as before. *)
Ltac call_step :=
  lazymatch goal with
  | |- hoare _ _ (mbind _ files_down) => eapply hoare_bind; [apply hoare_down|intros ?]
  | |- hoare _ _ (mbind _ files_up) => eapply hoare_bind; [apply hoare_up|intros ?]
  | |- hoare _ _ files_up => apply hoare_up
  | |- hoare ?v _ (mbind _ _) => eapply (hoare_bind v v); [|intros ?]
  | |- hoare _ _ (if _ then _ else _) => apply hoare_if
  | |- hoare _ _ (match ?x with _ => _ end) => destruct x
  | |- hoare _ _ (modify _) => apply hoare_modify; intros ?; done
  | |- hoare _ _ _ => solve [auto with calls]
  end.
Ltac call_solve := repeat call_step.

Lemma hoare_set_null v fd : hoare v v (set_file_pointer fd NULL : M S unit).
Proof.
  unfold set_file_pointer. call_step; [call_solve|]. intros s [Hv [Hl Hi Hu]]. wlp_step. split; [done|].
  split; simpl; [by rewrite length_insert|done|]. intros fd' H1 H2.
  destruct (decide (Z.to_nat fd' = Z.to_nat fd)) as [E|E].
  - rewrite E, list_lookup_insert_eq; [done|]. lia.
  - rewrite list_lookup_insert_ne by done. by apply Hu.
Qed.
Hint Resolve hoare_set_null : calls.

Lemma hoare_user_load v va : hoare v v (user_load va : M S Z).
Proof. unfold user_load. call_solve. Qed.
Hint Resolve hoare_user_load : calls.
Lemma hoare_user_load_word v va : hoare v v (user_load_word va : M S Z).
Proof. unfold user_load_word. call_solve. Qed.
Lemma hoare_user_load_bytes v n va : hoare v v (user_load_bytes n va : M S (list Z)).
Proof. revert va. induction n; intros va; cbn [user_load_bytes]; call_solve. Qed.
Lemma hoare_user_store_bytes v bs va : hoare v v (user_store_bytes va bs : M S unit).
Proof. revert va. induction bs; intros va; cbn [user_store_bytes]; call_solve. Qed.
Lemma hoare_user_string v fuel va : hoare v v (user_string fuel va : M S (list Z)).
Proof. revert va. induction fuel; intros va; cbn [user_string]; call_solve. Qed.
Lemma hoare_read_keys v n va : hoare v v (read_keys n va : M S unit).
Proof. revert va. induction n; intros va; cbn [read_keys]; unfold input_getc; call_solve. Qed.
Hint Resolve hoare_user_load_word hoare_user_load_bytes hoare_user_store_bytes hoare_user_string hoare_read_keys
  : calls.
Lemma hoare_bad_pointer v p : hoare v v (bad_pointer p : M S (unit + stop)).
Proof. unfold bad_pointer. call_solve. Qed.
Lemma hoare_close fd : hoare 1 1 (close nest fd : M S unit).
Proof. unfold close. call_solve. Qed.
Hint Resolve hoare_bad_pointer hoare_close : calls.
Lemma hoare_close_files : hoare 1 1 (close_files nest : M S unit).
Proof.
  unfold close_files. generalize 2 as c. generalize 128%nat as n.
  intros n. induction n; intros c; cbn [close_loop]; call_solve.
Qed.
Hint Resolve hoare_close_files : calls.
Lemma hoare_exit status : hoare 1 1 (exit nest status : M S (Z + stop)).
Proof. unfold exit. call_solve. Qed.
Lemma hoare_create file n : hoare 1 1 (create stk nest file n : M S Z).
Proof. unfold create. call_solve. Qed.
Lemma hoare_remove file : hoare 1 1 (remove nest file : M S Z).
Proof. unfold remove. call_solve. Qed.
Lemma hoare_filesize fd : hoare 1 1 (filesize fd : M S Z).
Proof. unfold filesize. call_solve. Qed.
Lemma hoare_read fd b n : hoare 1 1 (read fd b n : M S Z).
Proof. unfold read. call_solve. Qed.
Lemma hoare_write fd b n : hoare 1 1 (write nest fd b n : M S Z).
Proof. unfold write. call_solve. Qed.
Lemma hoare_seek fd n : hoare 1 1 (seek fd n : M S (unit + stop)).
Proof. unfold seek. call_solve. Qed.
Lemma hoare_tell fd : hoare 1 1 (tell fd : M S (Z + stop)).
Proof. unfold tell. call_solve. Qed.
Lemma hoare_chdir d : hoare 1 1 (sys_chdir nest d : M S Z).
Proof. unfold sys_chdir. call_solve. Qed.
Lemma hoare_mkdir d : hoare 1 1 (sys_mkdir stk nest d : M S Z).
Proof. unfold sys_mkdir. call_solve. Qed.
Lemma hoare_readdir fd name : hoare 1 1 (readdir fd name : M S Z).
Proof. unfold readdir. call_solve. Qed.
Lemma hoare_isdir fd : hoare 1 1 (isdir fd : M S Z).
Proof. unfold isdir. call_solve. Qed.
Lemma hoare_inumber fd : hoare 1 1 (inumber fd : M S Z).
Proof. unfold inumber. call_solve. Qed.
(** A descriptor is given out only for a file that was opened, and within the
    table. *)
Lemma hoare_open file : hoare 1 1 (open nest file : M S Z).
Proof.
  unfold open. call_step. intros s [Hv Hf]. do 2 wlp_step. wlp_step. intros f s1 E1.
  assert (call_ok 0 s1 ∧ fd_index s1 = fd_index s) as [[Hv1 [Hl Hi Hu]] En].
  { split; [by eapply (hoare_fs 0 _ s (conj Hv Hf))|]. unfold on_fs, on_mach, on_sys, zoom in E1.
    repeat case_match; try done. simplify_eq. done. }
  rewrite <-En. clear En E1 Hf Hv s. wlp_step. unfold set_file_pointer, file_pointer. do 3 wlp_step.
  destruct (Z.ltb_spec (fd_index s1) 0) as [|_]; [wlp_step|]. wlp_step. do 2 wlp_step.
  assert (0 ≤ fd_index s1 < 130) as Hr by (apply lookup_lt_Some in H; lia).
  destruct (Z.eqb_spec f NULL) as [->|Hn].
  - wlp_step. apply (hoare_bind 0 1); [apply hoare_up|intros ?; apply hoare_ret|]. split; [done|].
    split; simpl; [by rewrite length_insert|done|]. intros fd H1 H2.
    destruct (decide (Z.to_nat fd = Z.to_nat (fd_index s1))) as [E|E].
    + rewrite E, list_lookup_insert_eq; [done|]. lia.
    + rewrite list_lookup_insert_ne by done. by apply Hu.
  - do 2 wlp_step. wlp_step. apply (hoare_bind 0 1); [apply hoare_up|intros ?; apply hoare_ret|]. split; [done|].
    split; simpl; [by rewrite length_insert|lia|]. intros fd H1 H2.
    rewrite list_lookup_insert_ne by lia. apply Hu; lia.
Qed.
Hint Resolve hoare_exit hoare_create hoare_remove hoare_filesize hoare_read hoare_write hoare_seek hoare_tell
  hoare_chdir hoare_mkdir hoare_readdir hoare_isdir hoare_inumber hoare_open : calls.

End invariant.

(** ** Files and user memory *)

Section files.
Context {D : Type} `{BlockDevice D} (nest : nat).
Notation S := (proc D).
Notation R m := (ram (mm m)).
Implicit Types (s : S) (i : inode).

(** Descriptor [fd] is open for the file [f], whose inode [i] is at [p], and the
    position is [pos]. *)
Record fd_open s (fd f p : Z) i (pos : Z) : Prop := {
  fd_range : 2 ≤ fd ≤ fd_index s;
  fd_entry : file_pointers s !! Z.to_nat fd = Some f;
  fd_file : opened (sys (mach s)) f p i pos
}.
(** What the calls on files leave alone: everything but the file system and the
    memory of the process. *)
Definition same_process s s' : Prop :=
  s' = with_mach (with_pages (R (mach s')) (with_sys (sys (mach s')) (mach s))) s.

Lemma wp_files_down s Q : sema_files s = 1 → Q tt (set_sema 0 s) → wp files_down s Q.
Proof. intros Hv HQ. unfold files_down. do 2 wp_step. rewrite Hv. simpl. by wp_step. Qed.
Lemma wp_files_up s Q : sema_files s = 0 → Q tt (set_sema 1 s) → wp files_up s Q.
Proof. intros Hv HQ. unfold files_up. do 2 wp_step. rewrite Hv. by wp_step. Qed.
Lemma wp_file_pointer s fd f p i pos Q : fd_open s fd f p i pos → Q f s → wp (file_pointer fd) s Q.
Proof.
  intros [Hr He _] HQ. unfold file_pointer. do 2 wp_step. rewrite (proj2 (Z.ltb_ge _ _)) by lia.
  by apply (wp_from_option _ f).
Qed.
Lemma fd_valid s fd f p i pos : fd_open s fd f p i pos → (2 <=? fd) && (fd <=? fd_index s) = true.
Proof. intros [Hr _ _]. lia. Qed.

(** file_write () within the file. *)
Lemma wp_file_write (σ : fs D) f p i pos buf size Q :
  opened σ f p i pos → deny_write_cnt i = 0 → 0 ≤ size → 0 ≤ pos → pos + size ≤ len i →
  size ≤ Z.of_nat (length buf) →
  (∀ σ', written i buf size pos 0 σ (with_files (files σ) σ') → opened σ' f p i (pos + size) → Q size σ') →
  wp (file_write nest f buf size) σ Q.
Proof.
  intros [[deny Ef] Hok Hd Hh Hl Hn] Hdw Hsz Hpos Hle Hb HQ. unfold file_write, get_file, set_file.
  wp_step. do 2 wp_step. apply (wp_from_option _ (mk_file p pos deny)); [done|]. wp_step.
  apply (wp_inode_write_at _ _ i); [done..|]. intros σ1 W. do 2 wp_step. wp_step. cbn [f_inode f_pos f_deny_write].
  pose proof W as [F1 M1 C1]. apply HQ.
  - split; [|done|exact C1]. destruct F1. by split.
  - split; [exists deny; apply lookup_insert_eq| | |exact (heap_ok_frame _ _ _ F1 Hh)|done|done].
    + apply (file_ok_frame _ _ _ _ _ F1) in Hok. by destruct Hok.
    + apply F1.
Qed.

(** The calls through an open descriptor. *)
Lemma wp_write s fd f p i pos buffer n Q :
  fd_open s fd f p i pos → sema_files s = 1 → running (mach s) → is_dir i ≠ -1 → deny_write_cnt i = 0 →
  all_mapped (mach s) buffer n → buffer ≠ NULL → 0 ≤ n < 2 ^ 31 → 0 ≤ pos → pos + n ≤ len i →
  (∀ σ', let s' := with_mach (with_sys σ' (mach s)) s in
     written i (ubytes (mach s) buffer (Z.to_nat n)) n pos 0 (sys (mach s)) (with_files (files (sys (mach s))) σ') →
     fd_open s' fd f p i (pos + n) → Q n s') →
  wp (write nest fd buffer n) s Q.
Proof.
  intros Hfd Hv Hr Hdir Hdeny Hm Hb Hn Hpos Hle HQ. pose proof Hfd as [Hrg Hent Ho].
  pose proof Ho as [[deny Ef] Hok _ _ _ _].
  unfold write. do 2 wp_step. rewrite (proj2 (Z.ltb_lt 0 fd)), (proj2 (Z.leb_le fd _)), (proj2 (Z.eqb_neq _ _) Hb) by lia.
  cbn [andb negb]. wp_step. apply wp_files_down; [done|]. rewrite (proj2 (Z.eqb_neq fd 1)) by lia.
  wp_step. eapply (wp_file_pointer _ fd); [by split|]. wp_step. apply wp_on_fs. unfold get_file. do 2 wp_step.
  apply (wp_from_option _ (mk_file p pos deny)); [done|]. wp_step. apply wp_on_fs. cbn [f_inode].
  apply (wp_get_inode _ _ i); [apply Hok|]. rewrite (proj2 (Z.eqb_neq _ _) Hdir). wp_step.
  apply wp_files_up; [done|]. wp_step. eapply (wp_file_pointer _ fd); [by split|]. do 2 wp_step.
  rewrite swrap_small by lia. apply wp_on_fs. cbn [mach set_sema with_mach with_sys mm].
  rewrite readable_all by (done || by rewrite Z2Nat.id by lia).
  eapply (wp_file_write _ f p i pos); [done|done|lia|done|done|by rewrite ubytes_length; lia|].
  intros σ' W Ho'. destruct s as [m fp ix cd st sf cc co ks]. simpl in *. subst sf. apply HQ; [done|by split].
Qed.
Lemma wp_seek s fd f p i pos new Q :
  fd_open s fd f p i pos → sema_files s = 1 → 0 ≤ new < 2 ^ 31 →
  (∀ σ', let s' := with_mach (with_sys σ' (mach s)) s in
     only_pos (sys (mach s)) σ' → fd_open s' fd f p i new → Q (inl tt) s') →
  wp (seek fd new) s Q.
Proof.
  intros Hfd Hv Hn HQ. pose proof Hfd as [Hrg Hent Ho]. unfold seek. wp_step. apply wp_files_down; [done|].
  do 2 wp_step. change (fd_index (set_sema 0 s)) with (fd_index s). rewrite (fd_valid _ _ _ _ _ _ Hfd).
  wp_step. eapply (wp_file_pointer _ fd); [by split|]. wp_step. apply wp_on_fs. rewrite swrap_small by lia.
  eapply (wp_file_seek _ f p i pos); [done|lia|]. intros σ' Hp Ho'. wp_step. apply wp_files_up; [done|]. wp_step.
  destruct s as [m fp ix cd st sf cc co ks]. simpl in *. subst sf. apply HQ; [done|by split].
Qed.
Lemma wp_read s fd f p i pos buffer n Q :
  fd_open s fd f p i pos → sema_files s = 1 → running (mach s) →
  all_writable (mach s) buffer n → buffer ≠ NULL → 0 ≤ n < 2 ^ 31 → 0 ≤ pos → pos + n ≤ len i →
  (∀ σ' m', let s' := with_mach m' s in
     only_pos (sys (mach s)) σ' → stored (with_sys σ' (mach s)) m' buffer (content (sys (mach s)) i pos n) →
     fd_open s' fd f p i (pos + n) → Q n s') →
  wp (read fd buffer n) s Q.
Proof.
  intros Hfd Hv Hr Hw Hb Hn Hpos Hle HQ. pose proof Hfd as [Hrg Hent Ho]. unfold read. wp_step.
  apply wp_files_down; [done|]. do 2 wp_step. rewrite (proj2 (Z.eqb_neq fd 0)) by lia. cbn [fd_index set_sema].
  rewrite (proj2 (Z.ltb_lt 1 fd)), (proj2 (Z.leb_le fd _)), (proj2 (Z.eqb_neq _ _) Hb) by lia. cbn [andb negb].
  do 2 wp_step. eapply (wp_file_pointer _ fd); [by split|]. wp_step. apply wp_on_fs. rewrite swrap_small by lia.
  eapply (wp_file_read _ f p i pos); [done|lia|lia|]. intros σ' n' bs Hp Ho' _ [(-> & _ & ->)|]; [|lia].
  wp_step. apply wp_user_store_bytes; [by destruct Hr|by rewrite content_length, Z2Nat.id by lia|].
  intros m' Hs. do 2 wp_step. apply wp_files_up; [done|]. wp_step.
  destruct (stored_fields _ _ _ _ Hs) as (_ & Es & _ & _).
  destruct s as [m fp ix cd st sf cc co ks]. simpl in *. subst sf. apply (HQ σ' m'); [done|done|].
  split; [done|done|]. simpl. by rewrite Es.
Qed.

Lemma wrap_idem w z : 0 ≤ w → wrap w (wrap w z) = wrap w z.
Proof. intros Hw. unfold wrap. apply Z.mod_mod. pose proof (Z.pow_pos_nonneg 2 w). lia. Qed.
Lemma ubyte_u8 m x : u8 (default 0 (ubyte m x)) = default 0 (ubyte (D := D) m x).
Proof. unfold ubyte. destruct (umem _ _ _); simpl; [by apply wrap_idem|done]. Qed.
(** What was stored is what is there. *)
Lemma stored_ubytes (m m' : machine D) va bs :
  stored m m' va bs → in_user va (Z.of_nat (length bs)) → Forall (λ b, u8 b = b) bs →
  ubytes m' va (length bs) = bs.
Proof.
  intros Hs [Hu1 Hu2] Hb. destruct (stored_fields _ _ _ _ Hs) as (Ep & _ & _ & _).
  apply list_eq_same_length with (n := length bs); [done|apply ubytes_length|]. intros j x y Hj.
  rewrite ubytes_lookup by done. intros [= <-] Ey. unfold ubyte. rewrite Ep, (sd_mem _ _ _ _ Hs) by lia.
  rewrite decide_True by lia. replace (Z.to_nat (va + Z.of_nat j - va)) with j by lia. rewrite Ey. simpl.
  rewrite !(Forall_lookup_1 _ _ _ _ Hb Ey). done.
Qed.
Lemma ubytes_bytes (m : machine D) va n : Forall (λ b, u8 b = b) (ubytes m va n).
Proof. apply Forall_fmap, Forall_forall. intros x _. apply ubyte_u8. Qed.

Lemma only_pos_content (σ σ' : fs D) q j x :
  only_pos σ σ' → file_ok σ q j → 0 ≤ x < len j → content_at σ' j x = content_at σ j x.
Proof.
  intros Hf Hq Hx. change (content_at σ' j x) with (content_at (with_files (files σ) σ') j x).
  eapply content_at_frame; [exact Hf|exact Hq|by intros ? ? []|done].
Qed.
Lemma written_content (σ σ1 σ2 : fs D) i buf n pos q j x :
  written i buf n pos 0 σ (with_files (files σ) σ1) → only_pos σ1 σ2 → file_ok σ q j → 0 ≤ x < len j →
  content_at σ2 j x = content_at σ1 j x ∧
  ((∀ k, owned j k → ¬ owned i k) → content_at σ1 j x = content_at σ j x).
Proof.
  intros [Fr _ _] Hp Hq Hx. pose proof (file_ok_frame _ _ _ _ _ Fr Hq) as Hq'. split.
  - eapply only_pos_content; [done| |done]. destruct Hq'. by split.
  - intros Hdis. change (content_at σ1 j x) with (content_at (with_files (files σ) σ1) j x).
    eapply content_at_frame; [exact Fr|exact Hq|done|done].
Qed.

(** C7: A process that writes N bytes of its memory to a file, seeks back and reads N
    bytes into another part of its memory finds there the bytes that it wrote.
    Nothing else in its memory changes, no page of another process does, the rest of
    the file is as before, and so is every file that shares no sector with it. *)
Theorem write_seek_read s fd f p i pos b1 b2 n :
  fd_open s fd f p i pos → sema_files s = 1 → running (mach s) → is_dir i ≠ -1 → deny_write_cnt i = 0 →
  all_mapped (mach s) b1 n → all_writable (mach s) b2 n → b1 ≠ NULL → b2 ≠ NULL →
  0 ≤ n → 0 ≤ pos → pos + n ≤ len i →
  wp (w ← write nest fd b1 n; _ ← seek fd pos; r ← read fd b2 n; mret (w, r)) s (λ '(w, r) s',
    w = n ∧ r = n ∧ same_process s s' ∧ fd_open s' fd f p i (pos + n) ∧
    ubytes (mach s') b2 (Z.to_nat n) = ubytes (mach s) b1 (Z.to_nat n) ∧
    (∀ x, 0 ≤ x < PHYS_BASE → ¬ (b2 ≤ x < b2 + n) → ubyte (mach s') x = ubyte (mach s) x) ∧
    kept (user_frame (mach s)) (R (mach s)) (R (mach s')) ∧
    (∀ x, 0 ≤ x < len i → ¬ (pos ≤ x < pos + n) →
       content_at (sys (mach s')) i x = content_at (sys (mach s)) i x) ∧
    (∀ q j, file_ok (sys (mach s)) q j → (∀ k, owned j k → ¬ owned i k) → ∀ x, 0 ≤ x < len j →
       content_at (sys (mach s')) j x = content_at (sys (mach s)) j x)).
Proof.
  intros Hfd Hv Hr Hdir Hdeny Hm Hw H1 H2 Hn Hpos Hle.
  assert (n < 2 ^ 31 ∧ pos < 2 ^ 31) as [Hn31 Hp31].
  { pose proof (fo_len _ _ _ (of_ok _ _ _ _ _ (fd_file _ _ _ _ _ _ Hfd))). unfold DIRECT_BYTES in *. lia. }
  set (bs := ubytes (mach s) b1 (Z.to_nat n)).
  wp_step. apply (wp_write s fd f p i pos); [done..|]. intros σ1 s1 W Hfd1. wp_step.
  apply (wp_seek _ fd f p i (pos + n)); [done..|]. intros σ2 s2 P2 Hfd2. wp_step.
  apply (wp_read _ fd f p i pos); [done|done|by destruct Hr|done..|]. intros σ3 m' s3 P3 Hs Hfd3. wp_step.
  destruct (stored_fields _ _ _ _ Hs) as (_ & Es & _ & _). change (sys (mach s3)) with (sys m'). rewrite Es.
  pose proof (only_pos_trans _ _ _ P2 P3) as P13. pose proof (of_ok _ _ _ _ _ (fd_file _ _ _ _ _ _ Hfd)) as Hok.
  assert (length bs = Z.to_nat n) as Hbs by apply ubytes_length.
  assert (content (sys (mach s2)) i pos n = bs) as Ec.
  { assert (∀ x, 0 ≤ x < len i → content_at (sys (mach s2)) i x = content_at σ1 i x) as Hc.
    { intros x Hx. exact (proj1 (written_content _ _ _ _ _ _ _ _ _ x W P2 Hok Hx)). }
    rewrite (content_same σ1) by done.
    rewrite <-(take_ge bs (Z.to_nat n)) by lia. change σ1 with (sys (mach s1)).
    by apply (content_buffer _ _ _ _ _ _ Hpos Hle) in W; [|fold bs; lia]. }
  rewrite Ec in Hs. split_and!; [done|done| |done| | | | |].
  - unfold same_process. change (mach s3) with m'. rewrite Es. exact (f_equal (λ m, with_mach m s) (sd_rest _ _ _ _ Hs)).
  - rewrite <-Hbs. eapply stored_ubytes; [exact Hs|by rewrite Hbs, Z2Nat.id by lia; apply Hw|apply ubytes_bytes].
  - intros x Hx Hout. unfold ubyte. change (mach s3) with m'. destruct (stored_fields _ _ _ _ Hs) as (-> & _).
    rewrite (sd_mem _ _ _ _ Hs) by done. by rewrite decide_False by lia.
  - apply Hs.
  - intros x Hx Hout. destruct (written_content _ _ _ _ _ _ _ _ _ x W P13 Hok Hx) as [E1 _].
    pose proof (wr_content _ _ _ _ _ _ _ W x Hx) as C. rewrite decide_False in C by lia. exact (eq_trans E1 C).
  - intros q j Hq Hdis x Hx. destruct (written_content _ _ _ _ _ _ _ _ _ x W P13 Hq Hx) as [E1 E2].
    refine (eq_trans E1 (E2 Hdis)).
Qed.
End files.

(** ** Arguments *)

Section arguments.
Context {D : Type} `{BlockDevice D} (stk : stack) (nest fuel : nat).
Notation S := (proc D).
Notation R m := (ram (mm m)).
Implicit Types (s : S).

(** A pointer that the kernel accepts: the byte it points to is mapped. *)
Definition good_pointer s (p : Z) : Prop :=
  p ≠ NULL ∧ p < PHYS_BASE ∧ maps (R (mach s)) (pagedir (mach s)) (p / 4096) ≠ None.

Lemma wp_bad_pointer s p Q :
  running (mach s) → 0 ≤ p →
  (good_pointer s p → Q (inl tt) s) →
  (¬ good_pointer s p → Q (inr Exited) (print (ExitMessage (exit_status s)) s)) →
  wp (bad_pointer p) s Q.
Proof.
  intros [[Hpd Hf _] _] Hp Hgood Hbad. unfold bad_pointer. do 2 wp_step.
  destruct (Z.eqb_spec p NULL) as [->|Hn].
  { do 3 wp_step. apply Hbad. by intros []. }
  unfold is_kernel_vaddr. destruct (Z.leb_spec PHYS_BASE p) as [Hk|Hu].
  { do 3 wp_step. apply Hbad. intros (_ & ? & _). lia. }
  do 2 wp_step. wp_step. apply wp_on_mach. unfold on_mm. apply wp_zoom. unfold wp at 1.
  rewrite get_page_maps by (done || lia).
  assert (with_mach (with_mm (mm (mach s)) (mach s)) s = s) as -> by by destruct s as [[] ? ? ? ? ? ? ? ?].
  destruct (maps (R (mach s)) (pagedir (mach s)) (p / 4096)) as [[k w]|] eqn:E.
  - destruct (Hf _ _ _ (user_page_of p ltac:(lia)) E) as [[_ Hl _ _] _].
    rewrite (proj2 (Z.eqb_neq _ _)) by (unfold PHYS_BASE, NULL in *; lia). wp_step. apply Hgood.
    split_and!; [done|done|]. by rewrite E.
  - change (Palloc.NULL =? NULL) with true. cbv iota. do 3 wp_step. apply Hbad. intros (_ & _ & Hm). by rewrite E in Hm.
Qed.

Context (process_execute process_wait : Z → M S Z).
Notation handler := (syscall_handler stk nest fuel process_execute process_wait).

Lemma wp_check s p c Q : running (mach s) → 0 ≤ p < 2 ^ 32 → good_pointer s p → wp c s Q → wp (check p c) s Q.
Proof.
  intros Hr Hp Hg Hc. unfold check, and_then. rewrite wrap_small by done. wp_step.
  by apply wp_bad_pointer; [done|lia| |].
Qed.
Lemma good_mapped s va n p : all_mapped (mach s) va n → 0 < va → va ≤ p < va + n → good_pointer s p.
Proof. intros [[H1 H2] Hm] Hv Hp. split_and!; [unfold NULL; lia|lia|]. apply Hm. lia. Qed.
(** The number of the call is read and the call made. *)
Lemma handler_dispatch s esp : running (mach s) → all_mapped (mach s) esp 4 → 0 < esp →
  handler esp s = dispatch stk nest fuel process_execute process_wait esp (uword_at (mach s) esp) s.
Proof.
  intros Hr Hm He. pose proof Hm as [[? ?] _].
  assert (bad_pointer esp s = Ok (inl tt, s)) as E1.
  { assert (wp (bad_pointer esp) s (λ r s', r = inl tt ∧ s' = s)) as Hw.
    { apply wp_bad_pointer; [done|lia|done|]. intros []. eapply good_mapped; [exact Hm|done|lia]. }
    by apply wp_ok in Hw as (r & s' & E & -> & ->). }
  assert (user_load_word esp s = Ok (uword_at (mach s) esp, s)) as E2.
  { assert (wp (user_load_word esp) s (λ r s', r = uword_at (mach s) esp ∧ s' = s)) as Hw
      by by apply wp_user_load_word.
    by apply wp_ok in Hw as (r & s' & E & -> & ->). }
  unfold syscall_handler, and_then, mbind, M_bind. by rewrite E1, E2.
Qed.

(** write (1, buffer, size), made with its arguments on the user stack, prints
    the bytes of the buffer and changes nothing else. *)
Theorem syscall_write_console s esp :
  let buffer := uword_at (mach s) (esp + 8) in
  let size := uword_at (mach s) (esp + 12) in
  running (mach s) → sema_files s = 1 → 2 ≤ fd_index s →
  all_mapped (mach s) esp 16 → 0 < esp → uword_at (mach s) esp = 9 → uword_at (mach s) (esp + 4) = 1 →
  0 < buffer → 0 < size → all_mapped (mach s) buffer size →
  handler esp s = Ok (inl (Some (s32 size)), print (Text (ubytes (mach s) buffer (Z.to_nat size))) s).
Proof.
  intros buffer size Hr Hv Hfd Hm He Hnr Harg Hb Hs Hbuf. pose proof Hm as [[? ?] Hmm]. pose proof Hbuf as [[? ?] _].
  assert (∀ k, 0 ≤ k ≤ 3 → all_mapped (mach s) (esp + 4 * k) 4) as Hw.
  { intros k Hk. split; [split; lia|]. intros x Hx. apply Hmm. lia. }
  rewrite handler_dispatch; [|done| |done]. 2: { replace esp with (esp + 4 * 0) by lia. by apply Hw. }
  rewrite Hnr. assert (wp (dispatch stk nest fuel process_execute process_wait esp 9) s (λ r s',
    r = inl (Some (s32 size)) ∧ s' = print (Text (ubytes (mach s) buffer (Z.to_nat size))) s)) as Hwp.
  2: { by apply wp_ok in Hwp as (r & s' & E & -> & ->). }
  unfold dispatch. change (sys_nr_of (s32 9)) with (Some SYS_WRITE).
  cbv beta iota zeta.
  assert (∀ k, 0 ≤ k ≤ 3 → good_pointer s (esp + 4 * k)) as Hg.
  { intros k Hk. eapply good_mapped; [exact Hm|done|lia]. }
  unfold PHYS_BASE in *. apply wp_check; [done|lia|by apply (Hg 1)|]. wp_step. apply wp_user_load_word; [done|by apply Hw|].
  change (uword_at (mach s) (esp + 4 * 2)) with buffer.
  apply wp_check; [done|lia|eapply good_mapped; [exact Hbuf|done|lia]|]. apply wp_check; [done|lia|by apply (Hg 3)|].
  unfold eax. wp_step. do 3 (wp_step; apply wp_user_load_word; [done|by apply Hw|]).
  change (uword_at (mach s) (esp + 4 * 3)) with size. change (uword_at (mach s) (esp + 4 * 2)) with buffer.
  change (uword_at (mach s) (esp + 4 * 1)) with (uword_at (mach s) (esp + 4)). rewrite Harg. change (s32 1) with 1.
  unfold write. do 2 wp_step. rewrite (proj2 (Z.leb_le 1 _)), (proj2 (Z.eqb_neq buffer _)) by (unfold NULL; lia).
  cbn [andb negb Z.ltb Z.compare]. wp_step. apply wp_files_down; [done|]. cbn [Z.eqb Pos.eqb].
  rewrite (proj2 (Z.eqb_neq size 0)) by lia. wp_step. apply wp_user_load_bytes; [done|by rewrite Z2Nat.id by lia|].
  do 2 wp_step. wp_step. apply wp_files_up; [done|]. do 2 wp_step. split; [done|]. by destruct s; simpl in *; subst.
Qed.

(** The calls that pass the address of their first argument to bad_pointer (), and
    those that load it first. *)
Definition checks_first (nr : sys_nr) : bool :=
  match nr with
  | SYS_EXIT | SYS_WAIT | SYS_FILESIZE | SYS_READ | SYS_WRITE | SYS_SEEK | SYS_TELL | SYS_CLOSE => true
  | _ => false
  end.
Definition loads_first (nr : sys_nr) : bool :=
  match nr with
  | SYS_EXEC | SYS_CREATE | SYS_REMOVE | SYS_OPEN | SYS_CHDIR | SYS_MKDIR => true
  | _ => false
  end.
Lemma check_bad s p c : running (mach s) → 0 ≤ p < 2 ^ 32 → ¬ good_pointer s p →
  check p c s = Ok (inr Exited, print (ExitMessage (exit_status s)) s).
Proof.
  intros Hr Hp Hg.
  assert (wp (check p c) s (λ r s', r = inr Exited ∧ s' = print (ExitMessage (exit_status s)) s)) as Hw.
  { unfold check, and_then. rewrite wrap_small by done. wp_step. apply wp_bad_pointer; [done|lia|done|]. intros _. by wp_step. }
  by apply wp_ok in Hw as (r & s' & E & -> & ->).
Qed.

(** With the number of the call in the last word of a mapped page, and nothing
    mapped behind it, the calls that check the address of their argument end the
    process; those that load a pointer from there before they check it make the
    kernel itself take a page fault. *)
Theorem syscall_argument_unmapped s esp nr :
  running (mach s) → all_mapped (mach s) esp 4 → 0 < esp → esp + 4 < PHYS_BASE →
  maps (R (mach s)) (pagedir (mach s)) ((esp + 4) / 4096) = None →
  sys_nr_of (s32 (uword_at (mach s) esp)) = Some nr →
  (checks_first nr = true → handler esp s = Ok (inr Exited, print (ExitMessage (exit_status s)) s)) ∧
  (loads_first nr = true → handler esp s = Fault).
Proof.
  intros Hr Hm He Hlt Hun Hnr. rewrite handler_dispatch by done. unfold dispatch. rewrite Hnr.
  assert (∀ c, check (esp + 4) c s = Ok (inr Exited, print (ExitMessage (exit_status s)) s)) as Hchk.
  { intros c. apply check_bad; [done|unfold PHYS_BASE in *; lia|]. intros (_ & _ & Hn). done. }
  assert (user_load_word (esp + 4 * 1) s = Fault) as Hld.
  { change (esp + 4 * 1) with (esp + 4). apply user_load_word_fault; [done|lia|]. unfold ubyte, umem. by rewrite Hun. }
  split; intros Hc; destruct nr; try discriminate Hc; cbv beta iota zeta; first
    [ apply Hchk | unfold eax, mbind, M_bind; by rewrite Hld ].
Qed.
End arguments.

(** ** Descriptors without a file *)

Section closed.
Context {D : Type} `{!BlockOps D} (nest : nat).
Implicit Types (s : proc D).

Lemma file_pointer_null s fd :
  0 ≤ fd → file_pointers s !! Z.to_nat fd = Some NULL → file_pointer fd s = Ok (NULL, s).
Proof.
  intros Hfd He. unfold file_pointer, mbind, M_bind, gets. rewrite (proj2 (Z.ltb_ge _ _)) by lia. by rewrite He.
Qed.
(** A descriptor that has been closed, and the one that will be given out next,
    pass the check of the calls although there is no file: reading and writing
    follow the null pointer, and filesize, seek and tell fail an assertion, so that
    any process can stop the kernel. *)
Theorem descriptor_without_file s fd buffer size :
  sema_files s = 1 → 2 ≤ fd ≤ fd_index s → file_pointers s !! Z.to_nat fd = Some NULL →
  files (sys (mach s)) !! NULL = None → buffer ≠ NULL →
  read fd buffer size s = Fault ∧ write nest fd buffer size s = Fault ∧
  filesize fd s = Panic ∧ seek fd size s = Panic ∧ tell fd s = Panic.
Proof.
  intros Hv Hfd He Hn Hb. set (s1 := set_sema 0 s).
  assert (files_down s = Ok (tt, s1)) as Ed.
  { unfold files_down, mbind, M_bind, gets. by rewrite Hv. }
  assert (file_pointer fd s1 = Ok (NULL, s1)) as Ef by by apply file_pointer_null; [lia|].
  assert (fd_index s1 = fd_index s) as Ei by done.
  assert ((fd <? 2) || (fd_index s <? fd) = false) as C1 by lia.
  assert ((2 <=? fd) && (fd <=? fd_index s) = true) as C2 by lia.
  assert ((1 <? fd) && (fd <=? fd_index s) && negb (buffer =? NULL) = true) as C3 by lia.
  assert ((0 <? fd) && (fd <=? fd_index s) && negb (buffer =? NULL) = true) as C4 by lia.
  assert (∀ A (k : file → M (fs D) A), on_fs (x ← get_file NULL; k x) s1 = Fault) as Eg.
  { intros A k. unfold on_fs, on_mach, on_sys, zoom, get_file, mbind, M_bind, get. simpl. by rewrite Hn. }
  split_and!.
  - unfold read, mbind, M_bind. rewrite Ed. unfold gets. rewrite Ei, (proj2 (Z.eqb_neq fd 0)), C3, Ef by lia.
    unfold file_read. by rewrite Eg.
  - unfold write, mbind, M_bind, gets. rewrite C4, Ed, (proj2 (Z.eqb_neq fd 1)), Ef by lia.
    unfold on_fs at 1, on_mach at 1, on_sys at 1, zoom at 1 2, get_file, mbind, M_bind, get. simpl. by rewrite Hn.
  - unfold filesize, mbind, M_bind. rewrite Ed. unfold gets. rewrite Ei, C1, Ef. done.
  - unfold seek, mbind, M_bind. rewrite Ed. unfold gets. rewrite Ei, C2, Ef. done.
  - unfold tell, mbind, M_bind. rewrite Ed. unfold gets. rewrite Ei, C1, Ef. done.
Qed.
End closed.

(** ** Examples *)

Section syscall_examples.
#[local] Existing Instance ex_ops.
#[local] Existing Instance ex_device.
Notation R m := (ram (mm m)).

(** A process with one page of memory, at 0x8048000, and one open file; the bytes
    [bs] have been stored at [va]. *)
Definition ex_stk : stack := mk_stack None [] None.
Definition ex_user : machine (block ramdisk) :=
  match load_segment 4 0 0x8048000 0 4096 true (elf_machine 0x8048000) with
  | Ok (_, m) => m | _ => elf_machine 0x8048000 end.
Definition ex_proc0 : proc (block ramdisk) :=
  mk_proc ex_user (NULL :: NULL :: 4 :: replicate 127 NULL) 3 NULL (-1) 1 0 [] [].
Definition ex_proc (va : Z) (bs : list Z) : proc (block ramdisk) :=
  match user_store_bytes va bs ex_proc0 with Ok (_, s) => s | _ => ex_proc0 end.

Record ex_memory (m : machine (block ramdisk)) : Prop := {
  em_running : running m;
  em_sys : sys m = sys ex_user;
  em_page va : 0x8048000 ≤ va < 0x8049000 → writable_at m va;
  em_none va : 0x8049000 ≤ va < PHYS_BASE → maps (R m) (pagedir m) (va / 4096) = None
}.
Lemma ex_user_ok : ex_memory ex_user ∧ opened (sys ex_user) 4 2 ex_inode 0.
Proof.
  pose proof (wp_load_segment (elf_machine 0x8048000) 4 2 ex_inode 0 0 0x8048000 0 4096 true
    (elf_ready _) ltac:(done) eq_refl eq_refl ltac:(done) ltac:(done) ltac:(done) eq_refl ltac:(done)) as Hw.
  assert (match load_segment 4 0 0x8048000 0 4096 true (elf_machine 0x8048000) with Ok (ok, _) => ok | _ => false end
    = true) as Eok by (vm_compute; reflexivity).
  assert (f_pos <$> files (sys ex_user) !! 4 = Some 0) as Epos by (vm_compute; reflexivity).
  unfold wp in Hw.
  destruct (load_segment 4 0 0x8048000 0 4096 true (elf_machine 0x8048000)) as [[ok m]| | |] eqn:E;
    [|destruct Hw..]. subst ok.
  assert (ex_user = m) as Eu by (unfold ex_user; by rewrite E). clear E. rewrite Eu in Epos |- *.
  destruct Hw as ((pos & [Hsp _ Ho]) & Hg & _ & Hld). pose proof (grows_pagedir _ _ Hg) as [Ep Em].
  assert (pos = 0) as ->.
  { destruct (of_file _ _ _ _ _ Ho) as [deny Ef]. rewrite Ef in Epos. simpl in Epos. congruence. }
  split; [|done]. split; [|by rewrite Eu| |].
  - split; [done|]. by rewrite Em, Ep.
  - intros va Hva. unfold writable_at. rewrite Ep. specialize (Hld va). unfold PHYS_BASE in Hld.
    rewrite decide_True in Hld by lia. apply Hld. lia.
  - intros va Hva. rewrite Ep. specialize (Hld va). rewrite decide_False in Hld by lia.
    destruct Hld as [_ ->]; [lia|]. apply elf_maps.
Qed.
Lemma ex_writable m va n : ex_memory m → 0x8048000 ≤ va → 0 ≤ n → va + n ≤ 0x8049000 → all_writable m va n.
Proof. intros Hm ? ? ?. split; [split; unfold PHYS_BASE; lia|]. intros x Hx. apply (em_page _ Hm). lia. Qed.
Lemma ex_proc_ok va bs : 0x8048000 ≤ va → va + Z.of_nat (length bs) ≤ 0x8049000 →
  ∃ m, ex_proc va bs = with_mach m ex_proc0 ∧ ex_memory m ∧ stored ex_user m va bs.
Proof.
  intros H1 H2. pose proof (ex_writable ex_user va _ (proj1 ex_user_ok) H1 (Nat2Z.is_nonneg _) H2) as Hw.
  destruct ex_user_ok as [[Hr _ Hp Hn] _].
  assert (wp (user_store_bytes va bs) ex_proc0 (λ _ s, ∃ m, s = with_mach m ex_proc0 ∧ stored ex_user m va bs)) as Hwp.
  { apply wp_user_store_bytes; [done|done|]. intros m Hs. by exists m. }
  apply wp_ok in Hwp as ([] & s & E & m & -> & Hs). unfold ex_proc. rewrite E. exists m. split; [done|]. split; [|done].
  destruct (stored_fields _ _ _ _ Hs) as (Ep & Es & _ & _). split.
  - by eapply stored_running.
  - done.
  - intros x Hx. eapply stored_writable; [done| |by apply Hp]. unfold PHYS_BASE. lia.
  - intros x Hx. rewrite Ep, (sd_maps _ _ _ _ Hs); [by apply Hn|]. apply user_page_of. lia.
Qed.
Lemma ex_fds_ok m : fds_ok (with_mach m ex_proc0).
Proof.
  split; [done|done|]. intros fd H1 H2. change (fd_index (with_mach m ex_proc0)) with 3 in H2.
  change (file_pointers (with_mach m ex_proc0)) with (NULL :: NULL :: 4 :: replicate 127 NULL).
  assert (fd = 0 ∨ fd = 1 ∨ 3 ≤ fd) as [->|[->|H3]] by lia; [done|done|].
  replace (Z.to_nat fd) with (3 + Z.to_nat (fd - 3))%nat by lia. apply lookup_replicate_2. lia.
Qed.

(** The process closes descriptor 2 through the handler. *)
Definition close_call : list Z := bytes_of [12; 2].

(** 300 bytes go from 0x8048010 through the file to 0x8048800. *)
Lemma write_seek_read_witness :
  wp (w ← write 1 2 0x8048010 300; _ ← seek 2 0; r ← read 2 0x8048800 300; mret (w, r))
    (ex_proc 0x8048010 (seqZ 1 200)) (λ '(w, r) s', w = 300 ∧ r = 300 ∧
    ubytes (mach s') 0x8048800 300 = ubytes (mach (ex_proc 0x8048010 (seqZ 1 200))) 0x8048010 300).
Proof.
  destruct (ex_proc_ok 0x8048010 (seqZ 1 200) ltac:(lia) ltac:(vm_compute; discriminate)) as (m & E & Hm & Hs).
  rewrite E. pose proof (proj2 ex_user_ok) as Ho. rewrite <-(em_sys _ Hm) in Ho.
  eapply wp_mono; [apply (write_seek_read 1 (with_mach m ex_proc0) 2 4 2 ex_inode 0 0x8048010 0x8048800 300)|].
  - split; [split; discriminate|reflexivity|exact Ho].
  - reflexivity.
  - apply Hm.
  - discriminate.
  - reflexivity.
  - apply all_writable_mapped, ex_writable; [exact Hm|lia..].
  - apply ex_writable; [exact Hm|lia..].
  - discriminate.
  - discriminate.
  - discriminate.
  - discriminate.
  - discriminate.
  - intros [w r] s' (-> & -> & _ & _ & Hb & _). split; [reflexivity|]. split; [reflexivity|]. exact Hb.
Defined.

Lemma ex_uword m va bs k w : stored ex_user m va bs → 0 ≤ va → 0 ≤ k → va + Z.of_nat (length bs) ≤ PHYS_BASE →
  pagedir m = pagedir ex_user → k + 4 ≤ Z.of_nat (length bs) →
  take 4 (drop (Z.to_nat k) bs) = word_bytes w → 0 ≤ w < 2 ^ 32 → uword_at m (va + k) = w.
Proof.
  intros Hs Hva Hk Hend Ep Hlen Ew Hw. assert (ubytes m (va + k) 4 = word_bytes w) as Eb.
  { rewrite <-Ew. apply list_eq_same_length with (n := 4%nat); [by rewrite Ew|apply ubytes_length|].
    intros j x y Hj. rewrite ubytes_lookup by done. rewrite Ew. intros [= <-] Ey.
    assert (bs !! Z.to_nat (k + Z.of_nat j) = Some y) as Ej.
    { rewrite <-Ew in Ey. rewrite lookup_take_lt, lookup_drop in Ey by done. rewrite <-Ey. f_equal. lia. }
    unfold ubyte. rewrite Ep, (sd_mem _ _ _ _ Hs) by lia. rewrite decide_True by lia.
    replace (Z.to_nat (va + k + Z.of_nat j - va)) with (Z.to_nat (k + Z.of_nat j)) by lia. rewrite Ej. simpl.
    rewrite wrap_idem by done. apply wrap_small.
    assert (Forall (λ b, 0 ≤ b < 256) (word_bytes w)) as Hb by (unfold word_bytes; repeat constructor; lia).
    by apply (Forall_lookup_1 _ _ _ _ Hb Ey). }
  unfold uword_at. rewrite Eb. unfold word, word_bytes, byte. simpl. lia.
Qed.
(** write (1, buffer, 5), with the buffer behind the arguments. *)
Definition print_call : list Z := bytes_of [9; 1; 0x8048210; 5] ++ [104; 101; 108; 108; 111].
Lemma syscall_write_console_witness :
  syscall_handler ex_stk 1 20 (λ _, mret (-1)) (λ _, mret (-1)) 0x8048200 (ex_proc 0x8048200 print_call) =
  Ok (inl (Some 5), print (Text [104; 101; 108; 108; 111]) (ex_proc 0x8048200 print_call)).
Proof.
  assert (ubytes (mach (ex_proc 0x8048200 print_call)) 0x8048210 5 = [104; 101; 108; 108; 111]) as Et
    by (vm_compute; reflexivity).
  destruct (ex_proc_ok 0x8048200 print_call ltac:(lia) ltac:(vm_compute; discriminate)) as (m & E & Hm & Hs).
  rewrite E in Et |- *. destruct (stored_fields _ _ _ _ Hs) as (Ep & _).
  assert (∀ k w, 0 ≤ k → k + 4 ≤ 21 → take 4 (drop (Z.to_nat k) print_call) = word_bytes w → 0 ≤ w < 2 ^ 32 →
    uword_at m (0x8048200 + k) = w) as Hw.
  { intros k w H1 H2. apply ex_uword; [exact Hs|lia|exact H1|vm_compute; discriminate|exact Ep|exact H2]. }
  pose proof (Hw 0 9 ltac:(lia) ltac:(lia) eq_refl ltac:(lia)) as W0.
  pose proof (Hw 4 1 ltac:(lia) ltac:(lia) eq_refl ltac:(lia)) as W1.
  pose proof (Hw 8 0x8048210 ltac:(lia) ltac:(lia) eq_refl ltac:(lia)) as W2.
  pose proof (Hw 12 5 ltac:(lia) ltac:(lia) eq_refl ltac:(lia)) as W3.
  assert (∀ va n, 0x8048000 ≤ va → 0 ≤ n → va + n ≤ 0x8049000 → all_mapped m va n) as Hmap.
  { intros va n H1 H2 H3. apply all_writable_mapped. exact (ex_writable m va n Hm H1 H2 H3). }
  pose proof (syscall_write_console ex_stk 1 20 (λ _, mret (-1)) (λ _, mret (-1)) (with_mach m ex_proc0) 0x8048200) as T.
  cbv zeta in T. change (mach (with_mach m ex_proc0)) with m in T, Et. rewrite W2, W3 in T.
  change (Z.to_nat 5) with 5%nat in T. rewrite Et in T. apply T.
  - apply Hm.
  - reflexivity.
  - discriminate.
  - apply Hmap; lia.
  - lia.
  - exact W0.
  - exact W1.
  - lia.
  - lia.
  - apply Hmap; lia.
Defined.

(** The number of open () in the last word of the page. *)
Definition open_call : list Z := word_bytes 6.
Lemma syscall_argument_unmapped_witness :
  syscall_handler ex_stk 1 20 (λ _, mret (-1)) (λ _, mret (-1)) 0x8048ffc (ex_proc 0x8048ffc open_call) = Fault.
Proof.
  destruct (ex_proc_ok 0x8048ffc open_call ltac:(lia) ltac:(vm_compute; discriminate)) as (m & E & Hm & Hs).
  rewrite E. destruct (stored_fields _ _ _ _ Hs) as (Ep & _).
  assert (uword_at m (0x8048ffc + 0) = 6) as W.
  { apply (ex_uword _ _ _ 0 6 Hs); [lia|lia|vm_compute; discriminate|exact Ep|vm_compute; discriminate|reflexivity|lia]. }
  apply (syscall_argument_unmapped ex_stk 1 20 (λ _, mret (-1)) (λ _, mret (-1)) (with_mach m ex_proc0) 0x8048ffc SYS_OPEN).
  - apply Hm.
  - apply all_writable_mapped. apply (ex_writable m _ _ Hm); lia.
  - lia.
  - reflexivity.
  - apply (em_none _ Hm). unfold PHYS_BASE. lia.
  - change (sys_nr_of (s32 (uword_at m (0x8048ffc + 0))) = Some SYS_OPEN). rewrite W. reflexivity.
  - reflexivity.
Defined.

(** Descriptor 3 has not been given out. *)
Lemma descriptor_without_file_witness :
  read 3 0x8048010 10 ex_proc0 = Fault ∧ filesize 3 ex_proc0 = Panic.
Proof.
  destruct (descriptor_without_file 1 ex_proc0 3 0x8048010 10) as (H1 & _ & H2 & _).
  - reflexivity.
  - split; discriminate.
  - reflexivity.
  - vm_compute. reflexivity.
  - discriminate.
  - split; [exact H1|exact H2].
Defined.
End syscall_examples.
