(* ===== verification/UserLib.v ===== *)
(** * The C library of user programs: lib/user/syscall.c and lib/user/console.c

    A system call pushes its arguments and its number on the user stack and executes
    int $0x30, which runs the handler of Syscall.v.  The theorems say that the arguments
    arrive, and that formatted output is written through its buffer of 64 characters. *)

From stdpp Require Import strings.
From S2P Require Import Prelude Bitmap CString SortSearch Printf Block BlockThms Inode InodeInv InodeThms Directory.
From S2P Require Import Vaddr Palloc Ram Pagedir PagedirThms AddressSpace Process ProcessThms StackThms Syscall UserMem SyscallThms.
Local Open Scope Z_scope.
Local Ltac Zify.zify_post_hook ::= Z.to_euclidean_division_equations.

Definition nr_of (c : sys_nr) : Z :=
  match c with
  | SYS_HALT => 0 | SYS_EXIT => 1 | SYS_EXEC => 2 | SYS_WAIT => 3 | SYS_CREATE => 4 | SYS_REMOVE => 5 | SYS_OPEN => 6
  | SYS_FILESIZE => 7 | SYS_READ => 8 | SYS_WRITE => 9 | SYS_SEEK => 10 | SYS_TELL => 11 | SYS_CLOSE => 12 | SYS_MMAP => 13
  | SYS_MUNMAP => 14 | SYS_CHDIR => 15 | SYS_MKDIR => 16 | SYS_READDIR => 17 | SYS_ISDIR => 18 | SYS_INUMBER => 19
  end.

(** ** System calls *)
Module User.
Section stubs.
Context {D : Type} `{!BlockOps D} (stk : stack) (nest fuel : nat).
Notation S := (proc D).
Context (process_execute process_wait : Z → M S Z).
(** The register eax before the call, for calls without a result. *)
Context (eax : Z).

Definition pushl (esp v : Z) : M S Z := user_store_bytes (esp - 4) (word_bytes (u32 v));; mret (esp - 4).
Definition int_0x30 (esp : Z) : M S (Z + stop) :=
  r ← syscall_handler stk nest fuel process_execute process_wait esp;
  mret (match r with inl (Some v) => inl (s32 v) | inl None => inl eax | inr e => inr e end).
Definition syscall0 (number : sys_nr) (esp : Z) : M S (Z + stop) :=
  esp ← pushl esp (nr_of number); int_0x30 esp.
Definition syscall1 (number : sys_nr) (arg0 esp : Z) : M S (Z + stop) :=
  esp ← pushl esp arg0; esp ← pushl esp (nr_of number); int_0x30 esp.
Definition syscall2 (number : sys_nr) (arg0 arg1 esp : Z) : M S (Z + stop) :=
  esp ← pushl esp arg1; esp ← pushl esp arg0; esp ← pushl esp (nr_of number); int_0x30 esp.
Definition syscall3 (number : sys_nr) (arg0 arg1 arg2 esp : Z) : M S (Z + stop) :=
  esp ← pushl esp arg2; esp ← pushl esp arg1; esp ← pushl esp arg0; esp ← pushl esp (nr_of number); int_0x30 esp.

(** A function that returns a bool, or nothing, and NOT_REACHED (). *)
Definition returns_bool (m : M S (Z + stop)) : M S (bool + stop) :=
  r ← m; mret (match r with inl v => inl (negb (v =? 0)) | inr e => inr e end).
Definition returns_nothing (m : M S (Z + stop)) : M S (unit + stop) :=
  r ← m; mret (match r with inl _ => inl tt | inr e => inr e end).
Definition never_returns (m : M S (Z + stop)) : M S stop :=
  r ← m; match r with inl _ => panic | inr e => mret e end.

Definition halt (esp : Z) : M S stop := never_returns (syscall0 SYS_HALT esp).
Definition exit (status esp : Z) : M S stop := never_returns (syscall1 SYS_EXIT status esp).
Definition exec (file esp : Z) : M S (Z + stop) := syscall1 SYS_EXEC file esp.
Definition wait (pid esp : Z) : M S (Z + stop) := syscall1 SYS_WAIT pid esp.
Definition create (file initial_size esp : Z) : M S (bool + stop) := returns_bool (syscall2 SYS_CREATE file initial_size esp).
Definition remove (file esp : Z) : M S (bool + stop) := returns_bool (syscall1 SYS_REMOVE file esp).
Definition open (file esp : Z) : M S (Z + stop) := syscall1 SYS_OPEN file esp.
Definition filesize (fd esp : Z) : M S (Z + stop) := syscall1 SYS_FILESIZE fd esp.
Definition read (fd buffer size esp : Z) : M S (Z + stop) := syscall3 SYS_READ fd buffer size esp.
Definition write (fd buffer size esp : Z) : M S (Z + stop) := syscall3 SYS_WRITE fd buffer size esp.
Definition seek (fd position esp : Z) : M S (unit + stop) := returns_nothing (syscall2 SYS_SEEK fd position esp).
Definition tell (fd esp : Z) : M S (Z + stop) := syscall1 SYS_TELL fd esp.
Definition close (fd esp : Z) : M S (unit + stop) := returns_nothing (syscall1 SYS_CLOSE fd esp).
Definition mmap (fd addr esp : Z) : M S (Z + stop) := syscall2 SYS_MMAP fd addr esp.
Definition munmap (mapid esp : Z) : M S (unit + stop) := returns_nothing (syscall1 SYS_MUNMAP mapid esp).
Definition chdir (dir esp : Z) : M S (bool + stop) := returns_bool (syscall1 SYS_CHDIR dir esp).
Definition mkdir (dir esp : Z) : M S (bool + stop) := returns_bool (syscall1 SYS_MKDIR dir esp).
Definition readdir (fd name esp : Z) : M S (bool + stop) := returns_bool (syscall2 SYS_READDIR fd name esp).
Definition isdir (fd esp : Z) : M S (bool + stop) := returns_bool (syscall1 SYS_ISDIR fd esp).
Definition inumber (fd esp : Z) : M S (Z + stop) := syscall1 SYS_INUMBER fd esp.
End stubs.
End User.

(** ** The console of a user program

    The state is what has been given to write (), one element for each call. *)
Record vhprintf_aux := mk_vhprintf { buf : list Z; char_cnt : Z; handle : Z }.
Definition W := list (Z * list Z).
Definition sys_write (fd : Z) (bs : list Z) : M W unit := modify (λ w, w ++ [(fd, bs)]).
Definition flush (aux : vhprintf_aux) : M W vhprintf_aux :=
  (if (0 <? length (buf aux))%nat then sys_write (handle aux) (buf aux) else mret tt);;
  mret (mk_vhprintf [] (char_cnt aux) (handle aux)).
Definition add_char (aux : vhprintf_aux) (c : Z) : M W vhprintf_aux :=
  let aux := mk_vhprintf (buf aux ++ [c]) (char_cnt aux) (handle aux) in
  aux ← (if (64 <=? length (buf aux))%nat then flush aux else mret aux);
  mret (mk_vhprintf (buf aux) (s32 (char_cnt aux + 1)) (handle aux)).
(** __vprintf () gives its output to add_char (), one character at a time. *)
Fixpoint add_chars (aux : vhprintf_aux) (cs : list Z) : M W vhprintf_aux :=
  match cs with
  | [] => mret aux
  | c :: cs => aux ← add_char aux c; add_chars aux cs
  end.
Definition vhprintf (fuel : nat) (hd : Z) (format : list Z) (args : list arg) : M W Z :=
  out ← (λ w, match __vprintf fuel format args with Ok o => Ok (o, w) | Panic => Panic | Fault => Fault | Fuel => Fuel end);
  aux ← add_chars (mk_vhprintf [] 0 hd) out;
  aux ← flush aux;
  mret (char_cnt aux).
Definition STDOUT_FILENO : Z := 1.
Definition user_vprintf (fuel : nat) (format : list Z) (args : list arg) : M W Z := vhprintf fuel STDOUT_FILENO format args.
Definition hprintf (fuel : nat) (hd : Z) (format : list Z) (args : list arg) : M W Z := vhprintf fuel hd format args.
Definition user_putchar (c : Z) : M W Z := sys_write STDOUT_FILENO [u8 c];; mret c.
Definition user_puts (s : list Z) : M W Z := sys_write STDOUT_FILENO s;; user_putchar 10;; mret 0.

(** What has been written, and the sizes of the calls. *)
Definition written_bytes (w : W) : list Z := mjoin (snd <$> w).
Lemma written_cons fd bs w : written_bytes ((fd, bs) :: w) = bs ++ written_bytes w.
Proof. done. Qed.
Lemma written_app w w' : written_bytes (w ++ w') = written_bytes w ++ written_bytes w'.
Proof. unfold written_bytes. by rewrite fmap_app, join_app. Qed.
Lemma add_chars_spec cs aux w : (length (buf aux) < 64)%nat → 0 ≤ char_cnt aux → char_cnt aux + Z.of_nat (length cs) < 2 ^ 31 →
  ∃ w' b, add_chars aux cs w = Ok (mk_vhprintf b (char_cnt aux + Z.of_nat (length cs)) (handle aux), w ++ w') ∧
    written_bytes w' ++ b = buf aux ++ cs ∧ (length b < 64)%nat ∧
    Forall (λ '(fd, bs), fd = handle aux ∧ length bs = 64%nat) w'.
Proof.
  revert aux w. induction cs as [|c cs IH]; intros aux w Hb H0 H1; cbn [add_chars length] in *.
  - exists [], (buf aux). rewrite Z.add_0_r, !app_nil_r. split; [by destruct aux|]. by split.
  - unfold mbind, M_bind, add_char. cbn [buf char_cnt handle].
    rewrite length_app. cbn [length]. destruct (Nat.leb_spec 64 (length (buf aux) + 1)) as [Hf|Hf].
    + unfold flush, mbind, M_bind, sys_write, modify, mret, M_ret. cbn [buf char_cnt handle]. rewrite length_app. cbn [length].
      destruct (Nat.ltb_spec 0 (length (buf aux) + 1)); [|lia]. cbn [buf char_cnt handle]. rewrite swrap_small by (change (2 ^ (32 - 1)) with (2 ^ 31); lia).
      destruct (IH (mk_vhprintf [] (char_cnt aux + 1) (handle aux)) (w ++ [(handle aux, buf aux ++ [c])])) as (w' & b & E & Hw & Hb' & Hall);
        cbn [buf char_cnt length] in *; [lia..|]. exists ((handle aux, buf aux ++ [c]) :: w'), b. rewrite E. cbn [handle].
      split; [|split; [|split; [done|]]].
      * rewrite <-app_assoc. cbn [app]. do 3 f_equal. lia.
      * rewrite written_cons, <-app_assoc, Hw. simpl. by rewrite <-app_assoc.
      * constructor; [|done]. split; [done|]. rewrite length_app. simpl. lia.
    + unfold mbind, M_bind, mret, M_ret. cbn [buf char_cnt handle]. rewrite swrap_small by (change (2 ^ (32 - 1)) with (2 ^ 31); lia).
      destruct (IH (mk_vhprintf (buf aux ++ [c]) (char_cnt aux + 1) (handle aux)) w) as (w' & b & E & Hw & Hb' & Hall);
        cbn [buf char_cnt length handle] in *; [rewrite length_app; simpl; lia|lia|lia|]. exists w', b. rewrite E.
      split; [do 3 f_equal; lia|]. split; [|done]. rewrite Hw. by rewrite <-app_assoc.
Qed.
(** C28: What a user program prints is written to the handle in full and in order, in calls
    of 64 characters and a last one of the rest, none of them empty; the result is the
    number of characters. *)
Theorem vhprintf_correct (fuel : nat) (hd : Z) (format out : list Z) (args : list arg) (w : W) :
  __vprintf fuel format args = Ok out → Z.of_nat (length out) < 2 ^ 31 →
  wp (vhprintf fuel hd format args) w (λ n w', n = Z.of_nat (length out) ∧
    ∃ ws, w' = w ++ ws ∧ written_bytes ws = out ∧ Forall (λ '(fd, bs), fd = hd ∧ (0 < length bs ≤ 64)%nat) ws ∧
      Z.of_nat (length ws) = (Z.of_nat (length out) + 63) / 64).
Proof.
  intros E Hl. unfold vhprintf, wp, mbind, M_bind. rewrite E.
  destruct (add_chars_spec out (mk_vhprintf [] 0 hd) w) as (w' & b & Ea & Hw & Hb & Hall); [simpl; lia..|]. rewrite Ea.
  cbn [buf char_cnt handle app] in *. unfold flush, mbind, M_bind, sys_write, modify, mret, M_ret. cbn [buf char_cnt handle].
  assert (length (written_bytes w') = (64 * length w')%nat) as Hlen.
  { clear -Hall. induction Hall as [|[fd bs] w' [_ Hbs] _ IH]; [done|]. rewrite written_cons, length_app, IH. simpl. lia. }
  assert (length out = (64 * length w' + length b)%nat) as Hout by (rewrite <-Hw, length_app; lia).
  assert (Forall (λ '(fd, bs), fd = hd ∧ (0 < length bs ≤ 64)%nat) w') as Hall'.
  { eapply Forall_impl; [exact Hall|]. intros [fd bs] [-> ->]. split; [done|lia]. }
  destruct (Nat.ltb_spec 0 (length b)).
  - split; [done|]. exists (w' ++ [(hd, b)]). split_and!; [by rewrite app_assoc| | |].
    + rewrite written_app, written_cons, app_nil_r. done.
    + apply Forall_app; split; [done|]. constructor; [split; [done|lia]|done].
    + rewrite length_app. simpl. lia.
  - split; [done|]. exists w'. destruct b; [|simpl in *; lia]. rewrite app_nil_r in Hw. split_and!; [done..|]. simpl in *. lia.
Qed.
Lemma vhprintf_correct_witness :
  wp (vhprintf 90 1 (chars "%80d") [A32 7]) [] (λ n w', n = 80 ∧
    ∃ ws, w' = [] ++ ws ∧ written_bytes ws = replicate 79 32 ++ [55] ∧ Z.of_nat (length ws) = 2).
Proof.
  eapply wp_mono; [apply (vhprintf_correct 90 1 (chars "%80d") (replicate 79 32 ++ [55]) [A32 7] []); [vm_compute; reflexivity|vm_compute; reflexivity]|].
  intros n w' (-> & ws & Hw & Hb & _ & Hl). split; [reflexivity|]. exists ws. split; [exact Hw|]. split; [exact Hb|exact Hl].
Defined.

(** ** The arguments of system calls *)
Section arguments.
Context {D : Type} `{BlockDevice D}.
Notation P := (machine D).
Notation R m := (ram (mm m)).
Implicit Types (m : P) (s : proc D).

(** Bytes stored below others. *)
Lemma stored_below m m1 m2 va bs bs' : 0 ≤ va →
  stored m m1 (va + Z.of_nat (length bs)) bs' → stored m1 m2 va bs → stored m m2 va (bs ++ bs').
Proof.
  intros Hva Hs1 Hs2. destruct (stored_fields _ _ _ _ Hs1) as (Ep & _ & _ & _).
  destruct Hs1 as [E1 Sp1 K1 M1 U1]. destruct Hs2 as [E2 Sp2 K2 M2 U2]. rewrite Ep in *. split.
  - rewrite E2, E1. by destruct m.
  - done.
  - eapply kept_trans; [exact K1|]. eapply kept_weaken; [|exact K2]. intros q (vpn & w & Hv & Hq).
    exists vpn, w. rewrite Ep in Hq. by rewrite <-M1.
  - intros vpn Hv. by rewrite M2, M1.
  - intros x Hx. rewrite U2, U1 by done. rewrite length_app. repeat case_decide; try lia.
    + by rewrite lookup_app_l by lia.
    + rewrite lookup_app_r by lia. do 2 f_equal. lia.
    + done.
Qed.
Lemma stored_word m m' va ws k w : stored m m' va (bytes_of ws) → 0 ≤ va → va + 4 * Z.of_nat (length ws) ≤ PHYS_BASE →
  ws !! k = Some w → 0 ≤ w < 2 ^ 32 → uword_at m' (va + 4 * Z.of_nat k) = w.
Proof.
  intros Hs Hva Hend Hk Hw. destruct (stored_fields _ _ _ _ Hs) as (Ep & _). pose proof (lookup_lt_Some _ _ _ Hk) as Hlt.
  assert (∀ j b, word_bytes w !! j = Some b → ubyte m' (va + 4 * Z.of_nat k + Z.of_nat j) = Some b) as Hb.
  { intros j b Hj. pose proof (lookup_lt_Some _ _ _ Hj) as Hj4. change (length (word_bytes w)) with 4%nat in Hj4.
    unfold ubyte. rewrite Ep, (sd_mem _ _ _ _ Hs) by lia. rewrite decide_True by (rewrite bytes_of_length; lia).
    rewrite <-(take_drop_middle ws k w Hk), bytes_of_app.
    assert (length (bytes_of (take k ws)) = (4 * k)%nat) as Hl by (rewrite bytes_of_length, length_take; lia).
    replace (Z.to_nat _) with (4 * k + j)%nat by lia. rewrite lookup_app_r by lia. rewrite Hl.
    replace (4 * k + j - 4 * k)%nat with j by lia. cbn [bytes_of]. rewrite lookup_app_l by (simpl; lia). rewrite Hj. simpl. f_equal.
    assert (Forall (λ b, 0 ≤ b < 256) (word_bytes w)) as Hf by (unfold word_bytes; repeat constructor; lia).
    pose proof (Forall_lookup_1 _ _ _ _ Hf Hj) as Hb. simpl in Hb. rewrite !wrap_small by (rewrite ?wrap_small; lia). done. }
  set (a := va + 4 * Z.of_nat k) in *. unfold uword_at, word, byte. rewrite !ubytes_S.
  replace (a + 1 + 1) with (a + 2) by lia. replace (a + 2 + 1) with (a + 3) by lia.
  pose proof (Hb 0%nat _ eq_refl) as B0. pose proof (Hb 1%nat _ eq_refl) as B1. pose proof (Hb 2%nat _ eq_refl) as B2.
  pose proof (Hb 3%nat _ eq_refl) as B3. rewrite Z.add_0_r in B0. change (Z.of_nat 1) with 1 in B1. change (Z.of_nat 2) with 2 in B2.
  change (Z.of_nat 3) with 3 in B3. rewrite B0, B1, B2, B3. cbn [lookup list_lookup default Nat.add].
  pose proof (word_bytes_word w Hw) as Hword. simpl in *. lia.
Qed.

(** ** The stubs reach the kernel *)
Context (stk : stack) (nest fuel : nat) (process_execute process_wait : Z → M (proc D) Z) (old_eax : Z).
Notation dispatch := (dispatch stk nest fuel process_execute process_wait).
Notation stub1 := (User.syscall1 stk nest fuel process_execute process_wait old_eax).
Notation stub2 := (User.syscall2 stk nest fuel process_execute process_wait old_eax).
Notation stub3 := (User.syscall3 stk nest fuel process_execute process_wait old_eax).

(** What the kernel does for a call, given the words of its arguments, and which of them
    are pointers that it checks. *)
Definition kernel_call (c : sys_nr) (args : list Z) : M (proc D) (option Z + stop) :=
  match c, args with
  | SYS_EXIT, [n] => no_result (exit nest (s32 n))
  | SYS_EXEC, [p] => eax (exec process_execute p)
  | SYS_WAIT, [p] => eax (wait process_wait (s32 p))
  | SYS_CREATE, [p; n] => eax (f ← user_string fuel p; create stk nest f n)
  | SYS_REMOVE, [p] => eax (f ← user_string fuel p; remove nest f)
  | SYS_OPEN, [p] => eax (f ← user_string fuel p; open nest f)
  | SYS_FILESIZE, [fd] => eax (filesize (s32 fd))
  | SYS_READ, [fd; b; n] => eax (read (s32 fd) b n)
  | SYS_WRITE, [fd; b; n] => eax (write nest (s32 fd) b n)
  | SYS_SEEK, [fd; n] => no_result (seek (s32 fd) n)
  | SYS_TELL, [fd] => and_then (tell (s32 fd)) (λ v, mret (inl (Some v)))
  | SYS_CLOSE, [fd] => close nest (s32 fd);; mret (inl None)
  | SYS_CHDIR, [p] => eax (d ← user_string fuel p; sys_chdir nest d)
  | SYS_MKDIR, [p] => eax (d ← user_string fuel p; sys_mkdir stk nest d)
  | _, _ => fault
  end.
Definition call_ok (c : sys_nr) (args : list Z) : bool :=
  match c, args with
  | (SYS_READ | SYS_WRITE), [_; _; _] => true
  | (SYS_CREATE | SYS_SEEK), [_; _] => true
  | (SYS_EXIT | SYS_EXEC | SYS_WAIT | SYS_REMOVE | SYS_OPEN | SYS_FILESIZE | SYS_TELL | SYS_CLOSE | SYS_CHDIR | SYS_MKDIR), [_] => true
  | _, _ => false
  end.
Definition pointers (c : sys_nr) (args : list Z) : list Z :=
  match c, args with
  | (SYS_READ | SYS_WRITE), [_; b; _] => [b]
  | SYS_CREATE, [p; _] => [p]
  | (SYS_EXEC | SYS_REMOVE | SYS_OPEN), [p] => [p]
  | _, _ => []
  end.

Lemma load_word_eq s va w : running (mach s) → all_mapped (mach s) va 4 → uword_at (mach s) va = w →
  user_load_word va s = Ok (w, s).
Proof.
  intros Hr Hm <-. assert (wp (user_load_word va) s (λ r s', r = uword_at (mach s) va ∧ s' = s)) as Hw
    by by apply wp_user_load_word.
  by apply wp_ok in Hw as (r & s' & E & -> & ->).
Qed.
Lemma check_eq s p (k : M (proc D) (option Z + stop)) : running (mach s) → 0 ≤ p < 2 ^ 32 → good_pointer s p →
  check p k s = k s.
Proof.
  intros Hr Hp Hg. unfold check, and_then, mbind, M_bind. rewrite wrap_small by done.
  assert (wp (bad_pointer p) s (λ r s', r = inl tt ∧ s' = s)) as Hw by (by apply wp_bad_pointer; [done|lia| |]).
  by apply wp_ok in Hw as (r & s' & -> & -> & ->).
Qed.
(** The words of a call on the stack. *)
Record call_words s (esp : Z) (c : sys_nr) (args : list Z) : Prop := {
  cw_mapped : all_mapped (mach s) esp (4 * Z.of_nat (S (length args)));
  cw_esp : 0 < esp;
  cw_nr : uword_at (mach s) esp = nr_of c;
  cw_arg k w : args !! k = Some w → uword_at (mach s) (esp + 4 * Z.of_nat (S k)) = w;
  cw_range w : w ∈ args → 0 ≤ w < 2 ^ 32;
}.
Lemma user_string_state n va s l s' : user_string n va s = Ok (l, s') → s' = s.
Proof.
  revert va l. induction n as [|n IH]; intros va l; [done|]. cbn [user_string]. unfold mbind, M_bind, user_load, get, from_option.
  unfold mbind, M_bind. destruct (peek _ va) as [c|]; [|done]. unfold mret, M_ret. destruct (c =? 0); [by intros [= _ <-]|].
  destruct (user_string n (va + 1) s) as [[cs s1]| | |] eqn:E; [|done..]. intros [= _ <-]. by eapply IH.
Qed.
Lemma sys_nr_of_nr c : sys_nr_of (s32 (nr_of c)) = Some c.
Proof. by destruct c; vm_compute. Qed.
Lemma dispatch_call s esp c args :
  running (mach s) → call_words s esp c args → call_ok c args = true → Forall (good_pointer s) (pointers c args) →
  dispatch esp (nr_of c) s = kernel_call c args s.
Proof.
  intros Hr [Hm He _ Ha Hw] Hok Hp. pose proof Hm as [[? Hu] Hmm]. unfold PHYS_BASE in Hu.
  assert (∀ k n w, args !! k = Some w → Z.of_nat (S k) = n → user_load_word (esp + 4 * n) s = Ok (w, s)) as Hload.
  { intros k n w Hk <-. pose proof (lookup_lt_Some _ _ _ Hk). apply load_word_eq; [done| |by apply Ha].
    split; [split; unfold PHYS_BASE; lia|]. intros x Hx. apply Hmm. lia. }
  assert (∀ n K, 0 < n ≤ 4 * Z.of_nat (length args) → check (esp + n) K s = K s) as Hcheck.
  { intros n K Hn. apply check_eq; [done|lia|]. eapply (good_mapped process_execute process_wait); [exact Hm|done|lia]. }
  assert (∀ w K, w ∈ args → good_pointer s w → check w K s = K s) as Hptr.
  { intros w K Hin Hg. apply check_eq; [done|by apply Hw|done]. }
  unfold dispatch. rewrite sys_nr_of_nr. cbv zeta.
  destruct c, args as [|a0 [|a1 [|a2 [|]]]]; try discriminate Hok; unfold kernel_call; cbn [pointers length] in *;
    rewrite ?Forall_singleton in Hp;
    repeat match goal with
    | |- context [check (esp + ?n) ?K s] => rewrite (Hcheck n K) by lia
    | |- context [user_load_word (esp + 4 * 1) s] => rewrite (Hload 0%nat 1 _ eq_refl eq_refl)
    | |- context [user_load_word (esp + 4 * 2) s] => rewrite (Hload 1%nat 2 _ eq_refl eq_refl)
    | |- context [user_load_word (esp + 4 * 3) s] => rewrite (Hload 2%nat 3 _ eq_refl eq_refl)
    | |- context [check ?w ?K s] => rewrite (Hptr w K) by (set_solver || done)
    | |- _ => progress unfold eax, mbind, M_bind
    end; try reflexivity.
  destruct (user_string fuel a0 s) as [[f s']| | |] eqn:Ef; [|reflexivity..]. apply user_string_state in Ef as ->.
  by rewrite (Hload 1%nat 2 _ eq_refl eq_refl).
Qed.

Lemma wp_pushl esp v s Q : running (mach s) → all_writable (mach s) (esp - 4) 4 →
  (∀ m', stored (mach s) m' (esp - 4) (word_bytes (u32 v)) → Q (esp - 4) (with_mach m' s)) →
  wp (User.pushl esp v) s Q.
Proof.
  intros Hr Hw HQ. unfold User.pushl. wp_step. apply wp_user_store_bytes; [done|done|]. intros m' Hs. wp_step. by apply HQ.
Qed.

Lemma writable_below m m' va bs lo n : stored m m' va bs → all_writable m lo n → all_writable m' lo n.
Proof. intros Hs [[Hl Hu] Hw]. split; [done|]. intros x Hx. eapply stored_writable; [done|lia|by apply Hw]. Qed.
Lemma writable_part m lo n lo' n' : all_writable m lo n → lo ≤ lo' → 0 ≤ n' → lo' + n' ≤ lo + n → all_writable m lo' n'.
Proof. intros [[Hl Hu] Hw] H1 H2 H3. split; [split; lia|]. intros x Hx. apply Hw. lia. Qed.
(** The words pushed, from the last argument to the number. *)
Fixpoint pushes (ws : list Z) (esp : Z) : M (proc D) Z :=
  match ws with
  | [] => mret esp
  | w :: ws => esp ← pushes ws esp; User.pushl esp w
  end.
Lemma wp_pushes ws esp s Q : running (mach s) → Forall (λ w, 0 ≤ w < 2 ^ 32) ws → 
  all_writable (mach s) (esp - 4 * Z.of_nat (length ws)) (4 * Z.of_nat (length ws)) →
  (∀ m', stored (mach s) m' (esp - 4 * Z.of_nat (length ws)) (bytes_of ws) →
     Q (esp - 4 * Z.of_nat (length ws)) (with_mach m' s)) →
  wp (pushes ws esp) s Q.
Proof.
  revert Q. induction ws as [|w ws IH]; intros Q Hr Hws Hw HQ; cbn [pushes length] in *.
  - wp_step. rewrite Z.sub_0_r in HQ. rewrite <-(with_mach_same s). by apply HQ, stored_nil.
  - apply Forall_cons in Hws as [Hw0 Hws]. wp_step. apply IH; [done|done|eapply writable_part; [exact Hw|lia..]|]. intros m1 Hs1.
    apply wp_pushl; simpl.
    + by eapply stored_running.
    + eapply writable_below; [exact Hs1|]. eapply writable_part; [exact Hw|lia..].
    + intros m2 Hs2. rewrite wrap_small in Hs2 by done.
      replace (esp - 4 * Z.of_nat (length ws) - 4) with (esp - 4 * Z.of_nat (S (length ws))) in * by lia.
      apply HQ. cbn [bytes_of]. eapply stored_below; [destruct Hw as [[? _] _]; lia| |exact Hs2].
      change (length (word_bytes w)) with 4%nat. by replace (_ + Z.of_nat 4) with (esp - 4 * Z.of_nat (length ws)) by lia.
Qed.
(** The stub for a call with as many arguments. *)
Definition stub (c : sys_nr) (args : list Z) (esp : Z) : M (proc D) (Z + stop) :=
  match args with
  | [a0] => stub1 c a0 esp
  | [a0; a1] => stub2 c a0 a1 esp
  | [a0; a1; a2] => stub3 c a0 a1 a2 esp
  | _ => fault
  end.
Definition returned (r : option Z + stop) : Z + stop :=
  match r with inl (Some v) => inl (s32 v) | inl None => inl old_eax | inr e => inr e end.
Lemma stub_pushes c args esp s : call_ok c args = true →
  stub c args esp s =
  (esp ← pushes (nr_of c :: args) esp; User.int_0x30 stk nest fuel process_execute process_wait old_eax esp) s.
Proof.
  intros Hok. assert (∃ a l, args = a :: l ∧ (length l ≤ 2)%nat) as (a & l & -> & Hl)
    by (destruct c, args as [|a0 [|a1 [|a2 [|]]]]; try discriminate Hok; eexists _, _; (split; [reflexivity|simpl; lia])).
  destruct l as [|a1 [|a2 [|]]]; [..|simpl in Hl; lia]; unfold stub, User.syscall1, User.syscall2, User.syscall3; cbn [pushes];
    unfold mbind, M_bind, mret, M_ret; repeat case_match; simplify_eq; done.
Qed.
Lemma pointers_args c args w : w ∈ pointers c args → w ∈ args.
Proof. destruct c, args as [|a0 [|a1 [|a2 [|]]]]; simpl; set_solver. Qed.
End arguments.

(** ** An example: printing "hello" *)
Section userlib_example.
#[local] Existing Instance ex_ops.
#[local] Existing Instance ex_device.
Definition hello : list Z := [104; 101; 108; 108; 111].
Definition user_write : Z → Z → Z → Z → M (proc (block ramdisk)) (Z + stop) :=
  User.write ex_stk 1 20 (λ _, mret (-1)) (λ _, mret (-1)) 0.
End userlib_example.
