(* ===== verification/Wait.v ===== *)
(** * Parents and children: exec, wait and exit of userprog/process.c

    The threads run interleaved and can be preempted anywhere, so each function is
    cut where another thread can see the difference: at the semaphores and at the
    accesses to another struct thread.  Where a thread stands is its [pc]; one
    step of the system runs one piece of one thread.  A struct thread that has been
    freed is not in the map, and an access to it is a fault.

    The semaphores are their values: sema_down () of 0 is not enabled.  The queues
    and the scheduler behind them are in Thread.v and Synch.v. *)

From S2P Require Import Prelude.
Local Open Scope Z_scope.

Inductive place :=
| Run                              (* elsewhere, in the program or the kernel *)
| Create (c : Z)                   (* process_execute (), after thread_create () *)
| Exec (c : Z)                     (* ... before sema_down (&cur->exec_block) *)
| Check (c : Z)                    (* ... before the test of child->load *)
| Load                             (* start_process (), in load () *)
| Loaded (success : bool)          (* ... after load () *)
| Wait (c : Z)                     (* process_wait (), before sema_down (&current->sema_parent_block) *)
| Collect (c : Z)                  (* ... before the status is read *)
| Exit                             (* process_exit (), at the start *)
| Orphaned                         (* ... before the test of cur->parent *)
| Tell                             (* ... before sema_up (&cur->parent->sema_parent_block) *)
| Zombie                           (* ... before sema_down (&cur->wait_block) *)
| Dying.                           (* ... after it *)

Record task := mk_task {
  parent : option Z;
  children : list Z;
  sema_parent_block : Z;
  exec_block : Z;
  wait_block : Z;
  load : Z;
  exit_status : Z;
  pc : place
}.
Notation tasks := (gmap Z task).

Definition at_place (p : place) (t : task) : task :=
  mk_task (parent t) (children t) (sema_parent_block t) (exec_block t) (wait_block t) (load t) (exit_status t) p.
Definition with_parent (o : option Z) (t : task) : task :=
  mk_task o (children t) (sema_parent_block t) (exec_block t) (wait_block t) (load t) (exit_status t) (pc t).
Definition with_children (l : list Z) (t : task) : task :=
  mk_task (parent t) l (sema_parent_block t) (exec_block t) (wait_block t) (load t) (exit_status t) (pc t).
Definition add_parent_block (n : Z) (t : task) : task :=
  mk_task (parent t) (children t) (sema_parent_block t + n) (exec_block t) (wait_block t) (load t) (exit_status t) (pc t).
Definition add_exec_block (n : Z) (t : task) : task :=
  mk_task (parent t) (children t) (sema_parent_block t) (exec_block t + n) (wait_block t) (load t) (exit_status t) (pc t).
Definition add_wait_block (n : Z) (t : task) : task :=
  mk_task (parent t) (children t) (sema_parent_block t) (exec_block t) (wait_block t + n) (load t) (exit_status t) (pc t).
Definition with_load (z : Z) (t : task) : task :=
  mk_task (parent t) (children t) (sema_parent_block t) (exec_block t) (wait_block t) z (exit_status t) (pc t).
Definition with_status (z : Z) (t : task) : task :=
  mk_task (parent t) (children t) (sema_parent_block t) (exec_block t) (wait_block t) (load t) z (pc t).

Notation T := (gmap Z task).
Definition task_of (t : Z) : M T task := w ← get; from_option (w !! t).
Definition update (f : task → task) (t : Z) : M T unit := x ← task_of t; modify (insert t (f x)).
Definition goto (t : Z) (p : place) : M T unit := update (at_place p) t.

(** ** The pieces *)

(** init_thread (), and what thread_create () does for the family; [tid] is the
    number of a new thread. *)
Definition init_thread (p : Z) : task := mk_task (Some p) [] 0 0 0 1 (-1) Load.
Definition thread_create (p tid : Z) : M T unit :=
  modify (insert tid (init_thread p));;
  update (λ t, with_children (children t ++ [tid]) t) p.

Definition execute_create (p tid : Z) : M T unit := thread_create p tid;; goto p (Create tid).
(** child->parent = cur; the thread that get_thread_tid () does not find is a null
    pointer that the code follows. *)
Definition execute_parent (p c : Z) : M T unit := update (with_parent (Some p)) c;; goto p (Exec c).
Definition execute_down (p c : Z) : M T unit := update (add_exec_block (-1)) p;; goto p (Check c).
Definition execute_check (p c : Z) : M T Z :=
  child ← task_of c;
  goto p Run;;
  mret (if load child =? 0 then -1 else c).

(** load () returns: sema_up (&t->parent->exec_block) *)
Definition load_up (c : Z) (success : bool) : M T unit :=
  t ← task_of c;
  p ← from_option (parent t);
  update (add_exec_block 1) p;;
  goto c (Loaded success).
Definition start_process_end (c : Z) (success : bool) : M T unit :=
  if success then goto c Run else update (with_load 0) c;; goto c Exit.

(** The search for the child; every struct thread on the way is read. *)
Fixpoint find_child (l : list Z) (c : Z) : M T bool :=
  match l with
  | [] => mret false
  | x :: l => _ ← task_of x; if x =? c then mret true else find_child l c
  end.
(** The result is what process_wait () returns at once, if it does. *)
Definition wait_find (p c : Z) : M T (option Z) :=
  t ← task_of p;
  if bool_decide (children t = []) then mret (Some (-1))
  else
    found ← find_child (children t) c;
    if found : bool then
      update (λ t, with_children (filter (λ x, x ≠ c) (children t)) t) p;;
      goto p (Wait c);;
      mret None
    else mret (Some (-1)).
Definition wait_down (p c : Z) : M T unit := update (add_parent_block (-1)) p;; goto p (Collect c).
Definition wait_collect (p c : Z) : M T Z :=
  child ← task_of c;
  update (add_wait_block 1) c;;
  goto p Run;;
  mret (exit_status child).

(** exit (status), or the end of a process that was killed. *)
Definition exit_call (t : Z) (status : option Z) : M T unit :=
  match status with Some z => update (with_status z) t | None => mret tt end;;
  goto t Exit.
Fixpoint orphan (l : list Z) : M T unit :=
  match l with [] => mret tt | c :: l => update (with_parent None) c;; orphan l end.
Definition exit_orphan (t : Z) : M T unit := x ← task_of t; orphan (children x);; goto t Orphaned.
Definition exit_test (t : Z) : M T unit :=
  x ← task_of t; goto t (match parent x with Some _ => Tell | None => Dying end).
Definition exit_tell (t : Z) : M T unit :=
  x ← task_of t;
  p ← from_option (parent x);
  update (add_parent_block 1) p;;
  goto t Zombie.
Definition exit_down (t : Z) : M T unit := update (add_wait_block (-1)) t;; goto t Dying.
(** thread_exit (): the next thread to run frees this one. *)
Definition exit_free (t : Z) : M T unit := modify (delete t).

(** ** Steps *)

(** What a thread does next, where the code leaves a choice. *)
Inductive action :=
| DoExec (tid : Z) | DoWait (c : Z) | DoExit (status : option Z) | LoadEnds (success : bool) | Go.
(** What a step shows: the result of process_execute () or process_wait (). *)
Inductive event := Silent | ExecReturns (v : Z) | WaitReturns (c v : Z).

Definition silent (m : M T unit) : option (M T event) := Some (m;; mret Silent).
(** The piece that thread [t] runs for an action, if it can take it. *)
Definition piece (w : T) (t : Z) (a : action) : option (M T event) :=
  x ← w !! t;
  match pc x, a with
  | Run, DoExec tid => if bool_decide (w !! tid = None) then silent (execute_create t tid) else None
  | Create c, Go => silent (execute_parent t c)
  | Exec c, Go => if 0 <? exec_block x then silent (execute_down t c) else None
  | Check c, Go => Some (v ← execute_check t c; mret (ExecReturns v))
  | Load, LoadEnds s => silent (load_up t s)
  | Loaded s, Go => silent (start_process_end t s)
  | Run, DoWait c =>
    Some (r ← wait_find t c; mret (match r with Some v => WaitReturns c v | None => Silent end))
  | Wait c, Go => if 0 <? sema_parent_block x then silent (wait_down t c) else None
  | Collect c, Go => Some (v ← wait_collect t c; mret (WaitReturns c v))
  | Run, DoExit s => silent (exit_call t s)
  | Exit, Go => silent (exit_orphan t)
  | Orphaned, Go => silent (exit_test t)
  | Tell, Go => silent (exit_tell t)
  | Zombie, Go => if 0 <? wait_block x then silent (exit_down t) else None
  | Dying, Go => silent (exit_free t)
  | _, _ => None
  end.
Inductive step (w : T) : Z → action → event → T → Prop :=
| step_piece t a m e w' : piece w t a = Some m → m w = Ok (e, w') → step w t a e w'.
(** A step that follows a freed or null pointer. *)
Definition crashes (w : T) (t : Z) (a : action) : Prop := ∃ m, piece w t a = Some m ∧ m w = Fault.
(** The program runs, as far as the list of actions says. *)
Fixpoint run (l : list (Z * action)) (w : T) : option (list event * T) :=
  match l with
  | [] => Some ([], w)
  | (t, a) :: l =>
    match piece w t a with
    | Some m => match m w with Ok (e, w') => '(es, w'') ← run l w'; Some (e :: es, w'') | _ => None end
    | None => None
    end
  end.
(** main, before it runs the first program. *)
Definition initial : T := {[ 1 := mk_task None [] 0 0 0 1 (-1) Run ]}.
