(* ===== verification/WaitThms.v ===== *)
(** * Theorems on exec, wait and exit

    For processes that wait for every child before they start another one or exit,
    no interleaving makes the kernel follow a freed or null pointer, and wait
    returns the final status of the child.  For others there are runs in which it
    returns the status of a child that still runs, and in which the kernel uses a
    struct thread after it has been freed. *)

From S2P Require Import Prelude Wait.
Local Open Scope Z_scope.

(** ** The invariant *)

(** The child that a process has not collected yet. *)
Definition kid (x : task) : option Z :=
  match pc x with Wait c | Collect c => Some c | _ => head (children x) end.
Definition shape (x : task) : Prop :=
  match pc x with
  | Run => (length (children x) ≤ 1)%nat
  | Create c | Exec c | Check c => children x = [c]
  | _ => children x = []
  end.
(** Between process [t], with the struct thread [x], and its child [y]. *)
Definition linked (t : Z) (x y : task) : Prop :=
  parent y = Some t ∧ wait_block y = 0 ∧ pc y ≠ Dying ∧
  match pc x with
  | Create _ | Exec _ => exec_block x = (match pc y with Load => 0 | _ => 1 end)
  | _ => exec_block x = 0 ∧ pc y ≠ Load
  end ∧
  match pc x with
  | Collect _ => sema_parent_block x = 0 ∧ pc y = Zombie
  | _ => sema_parent_block x = (match pc y with Zombie => 1 | _ => 0 end)
  end.
Definition alone (x : task) : Prop := exec_block x = 0 ∧ sema_parent_block x = 0.
(** A process that does not use its parent any more. *)
Definition collected (x : task) : Prop := pc x = Zombie ∧ wait_block x = 1 ∨ pc x = Dying.
Definition rootless (x : task) : Prop := pc x ≠ Load ∧ pc x ≠ Tell ∧ pc x ≠ Zombie.

Record task_ok (w : tasks) (t : Z) (x : task) : Prop := {
  tk_shape : shape x;
  tk_kid c : kid x = Some c → c ≠ t ∧ ∃ y, w !! c = Some y ∧ linked t x y;
  tk_alone : kid x = None → alone x;
  tk_root : parent x = None → rootless x;
  tk_parent p : parent x = Some p → collected x ∨ ∃ px, w !! p = Some px ∧ kid px = Some t
}.
Definition tasks_ok (w : tasks) : Prop := ∀ t x, w !! t = Some x → task_ok w t x.

Lemma initial_ok : tasks_ok initial.
Proof. unfold initial. intros t x [<- <-]%lookup_singleton_Some. split; try done. unfold shape. simpl. lia. Qed.

(** One struct thread changes: it keeps its child and its parent. *)
Lemma tasks_ok_one w t x x' :
  tasks_ok w → w !! t = Some x → shape x' → kid x' = kid x → parent x' = parent x →
  (∀ y, linked t x y → linked t x' y) → (alone x → alone x') →
  (∀ p px, linked p px x → linked p px x') → (parent x = None → rootless x → rootless x') →
  (collected x → collected x') →
  tasks_ok (<[t := x']> w).
Proof.
  intros Hw Ht Hs Ek Ep Hl Ha Hu Hr Hc u z [[<- <-]|[Hne Hz]]%lookup_insert_Some.
  - destruct (Hw _ _ Ht) as [_ K A R P]. split; rewrite ?Ek, ?Ep.
    + done.
    + intros c Hk. destruct (K c Hk) as (Hne & y & Hy & Hlk). split; [done|]. exists y.
      rewrite lookup_insert_ne by done. auto.
    + auto.
    + auto.
    + intros p Hp. destruct (P p Hp) as [?|(px & Hpx & Hk)]; [by left; auto|]. right.
      destruct (decide (p = t)) as [->|Hpt].
      * exists x'. rewrite lookup_insert_eq, Ek. simplify_eq. done.
      * exists px. by rewrite lookup_insert_ne.
  - destruct (Hw _ _ Hz) as [S K A R P]. split; [done| |done|done|].
    + intros c Hk. destruct (K c Hk) as (Hcu & y & Hy & Hlk). split; [done|].
      destruct (decide (c = t)) as [->|Hct].
      * exists x'. rewrite lookup_insert_eq. simplify_eq. auto.
      * exists y. by rewrite lookup_insert_ne.
    + intros p Hp. destruct (P p Hp) as [?|(px & Hpx & Hk)]; [by left|]. right.
      destruct (decide (p = t)) as [->|Hpt].
      * exists x'. rewrite lookup_insert_eq, Ek. simplify_eq. done.
      * exists px. by rewrite lookup_insert_ne.
Qed.
(** A process and its child change, and the parent may let go of a child that has
    told it everything. *)
Lemma tasks_ok_two w p c px px' y y' :
  tasks_ok w → w !! p = Some px → w !! c = Some y → kid px = Some c →
  shape px' → parent px' = parent px → parent y' = Some p →
  kid px' = Some c ∧ linked p px' y' ∨ kid px' = None ∧ alone px' ∧ collected y' →
  (∀ q qx, linked q qx px → linked q qx px') → (rootless px → rootless px') → (collected px → collected px') →
  shape y' → kid y' = kid y → (∀ z, linked c y z → linked c y' z) → (alone y → alone y') →
  tasks_ok (<[p := px']> (<[c := y']> w)).
Proof.
  intros Hw Hp Hc Ek S1 P1 Py' L1 U1 R1 C1 S2 K2 L2 A2.
  destruct (tk_kid _ _ _ (Hw _ _ Hp) c Ek) as (Hne & y0 & Hy0 & Hlk). simplify_eq.
  assert (parent y = Some p) as Py by apply Hlk.
  set (w' := <[p := px']> (<[c := y']> w)).
  assert (w' !! p = Some px') as Wp by by unfold w'; rewrite lookup_insert_eq.
  assert (w' !! c = Some y') as Wc by by unfold w'; rewrite lookup_insert_ne, lookup_insert_eq.
  assert (∀ u, u ≠ p → u ≠ c → w' !! u = w !! u) as Wu by by intros u ? ?; unfold w'; rewrite !lookup_insert_ne.
  assert (∀ q u, u ≠ c → (∃ qx, w !! q = Some qx ∧ kid qx = Some u) → ∃ qx, w' !! q = Some qx ∧ kid qx = Some u) as Hup.
  { intros q u Hu (qx & Hq & Hk). destruct (decide (q = p)) as [->|]; [simplify_eq|].
    destruct (decide (q = c)) as [->|]; [exists y'; simplify_eq; by rewrite K2|]. exists qx. by rewrite Wu. }
  intros u z Hz. destruct (decide (u = p)) as [->|Hup']; [|destruct (decide (u = c)) as [->|Huc]].
  - simplify_eq. destruct (Hw _ _ Hp) as [_ _ _ R P]. split; rewrite ?P1; [done| | |auto|].
    + intros d Hd. destruct L1 as [[K1 Hl]|[K1 _]]; [|congruence]. simplify_eq. split; [done|]. by exists y'.
    + intros K1. destruct L1 as [[? _]|(_ & ? & _)]; [congruence|done].
    + intros q Hq. destruct (P q Hq); [by left; auto|right; auto].
  - simplify_eq. destruct (Hw _ _ Hc) as [_ K A R P]. split; rewrite ?K2, ?Py'; [done| |auto|done|].
    + intros d Hd. destruct (K d Hd) as (Hdc & v & Hv & Hl). split; [done|].
      destruct (decide (d = p)) as [->|]; [exists px'; simplify_eq; by auto|]. exists v. rewrite Wu by done. auto.
    + intros q [= <-]. destruct L1 as [[K1 _]|(_ & _ & Hcol)]; [right; by exists px'|by left].
  - rewrite Wu in Hz by done. destruct (Hw _ _ Hz) as [S K A R P]. split; [done| |done|done|].
    + intros d Hd. destruct (K d Hd) as (Hdu & v & Hv & Hl). split; [done|].
      destruct (decide (d = p)) as [->|]; [exists px'; simplify_eq; by auto|].
      destruct (decide (d = c)) as [->|]; [|exists v; by rewrite Wu].
      exfalso. simplify_eq. destruct Hl as [El _]. congruence.
    + intros q Hq. destruct (P q Hq); [by left|right; auto].
Qed.
(** A new child. *)
Lemma tasks_ok_new w p x x' c :
  tasks_ok w → w !! p = Some x → w !! c = None → kid x = None → shape x' → kid x' = Some c →
  parent x' = parent x → linked p x' (init_thread p) →
  (∀ q qx, linked q qx x → linked q qx x') → (rootless x → rootless x') → (collected x → collected x') →
  tasks_ok (<[p := x']> (<[c := init_thread p]> w)).
Proof.
  intros Hw Hp Hc Ek S1 K1 P1 L1 U1 R1 C1. assert (p ≠ c) as Hne by congruence.
  set (w' := <[p := x']> (<[c := init_thread p]> w)).
  assert (w' !! p = Some x') as Wp by by unfold w'; rewrite lookup_insert_eq.
  assert (w' !! c = Some (init_thread p)) as Wc by by unfold w'; rewrite lookup_insert_ne, lookup_insert_eq.
  assert (∀ u, u ≠ p → u ≠ c → w' !! u = w !! u) as Wu by by intros u ? ?; unfold w'; rewrite !lookup_insert_ne.
  assert (∀ q u, (∃ qx, w !! q = Some qx ∧ kid qx = Some u) → ∃ qx, w' !! q = Some qx ∧ kid qx = Some u) as Hup.
  { intros q u (qx & Hq & Hk). exists qx. rewrite Wu; [done|congruence|congruence]. }
  intros u z Hz. destruct (decide (u = p)) as [->|Hup']; [|destruct (decide (u = c)) as [->|Huc]].
  - simplify_eq. destruct (Hw _ _ Hp) as [_ _ _ R P]. split; rewrite ?P1; [done| |congruence|auto|].
    + intros d. rewrite K1. intros [= <-]. split; [done|]. by exists (init_thread p).
    + intros q Hq. destruct (P q Hq); [by left; auto|right; auto].
  - simplify_eq. split; [done|done|done|done|]. intros q [= <-]. right. by exists x'.
  - rewrite Wu in Hz by done. destruct (Hw _ _ Hz) as [S K A R P]. split; [done| |done|done|].
    + intros d Hd. destruct (K d Hd) as (Hdu & v & Hv & Hl). split; [done|].
      destruct (decide (d = p)) as [->|]; [exists x'; simplify_eq; by auto|]. exists v. rewrite Wu; [done|done|congruence].
    + intros q Hq. destruct (P q Hq); [by left|right; auto].
Qed.
(** The end of a process. *)
Lemma tasks_ok_delete w t x :
  tasks_ok w → w !! t = Some x → kid x = None → pc x = Dying → tasks_ok (delete t w).
Proof.
  intros Hw Ht Ek Hpc u z [Hne Hz]%lookup_delete_Some. destruct (Hw _ _ Hz) as [S K A R P]. split; [done| |done|done|].
  - intros d Hd. destruct (K d Hd) as (Hdu & v & Hv & Hl). split; [done|]. exists v. rewrite lookup_delete_ne; [done|].
    intros ->. simplify_eq. by destruct Hl as (_ & _ & Hd' & _).
  - intros q Hq. destruct (P q Hq) as [?|(px & Hpx & Hk)]; [by left|]. right. exists px.
    rewrite lookup_delete_ne; [done|]. congruence.
Qed.

(** ** The pieces keep it *)

Lemma wp_task_of w t x Q : w !! t = Some x → Q x w → wp (task_of t) w Q.
Proof. intros Ht HQ. unfold task_of. do 2 wp_step. by apply (wp_from_option _ x). Qed.
Lemma wp_update f w t x Q : w !! t = Some x → Q tt (<[t := f x]> w) → wp (update f t) w Q.
Proof. intros Ht HQ. unfold update. wp_step. apply (wp_task_of _ _ x); [done|]. by wp_step. Qed.
(** An update of the running thread and its next place. *)
Lemma wp_update_goto f w t x pl Q :
  w !! t = Some x → Q tt (<[t := at_place pl (f x)]> w) → wp (update f t;; goto t pl) w Q.
Proof.
  intros Ht HQ. wp_step. apply (wp_update _ _ _ x); [done|]. unfold goto.
  apply (wp_update _ _ _ (f x)); [by rewrite lookup_insert_eq|]. by rewrite insert_insert_eq.
Qed.

(** The conditions of [tasks_ok_one] and [tasks_ok_two], from where the threads stand. *)
Ltac place_solve :=
  intros; unfold shape, kid, linked, alone, rootless, collected in *; simpl in *;
  repeat match goal with
  | x : task |- _ => destruct x; simpl in *
  end; subst; simpl in *; destruct_and?; destruct_or?; simplify_eq;
  first
    [ solve [split_and?; lia || congruence || auto]
    | repeat match goal with
      | p : place |- _ => destruct p; simpl in *; destruct_and?; simplify_eq; try done
      end; intuition (try (lia || congruence)) ].

Lemma wp_exit_call w t x status :
  tasks_ok w → w !! t = Some x → pc x = Run → children x = [] →
  wp (exit_call t status) w (λ _, tasks_ok).
Proof.
  intros Hw Ht Hpc Hch. unfold exit_call. destruct status as [z|].
  - apply (wp_update_goto _ _ _ x); [done|]. eapply tasks_ok_one; [done|done|place_solve..].
  - wp_step. wp_step. unfold goto. apply (wp_update _ _ _ x); [done|]. eapply tasks_ok_one; [done|done|place_solve..].
Qed.
Lemma wp_execute_parent w p x c :
  tasks_ok w → w !! p = Some x → pc x = Create c → wp (execute_parent p c) w (λ _, tasks_ok).
Proof.
  intros Hw Hp Hpc. pose proof (tk_shape _ _ _ (Hw _ _ Hp)) as Hs. unfold shape in Hs. rewrite Hpc in Hs.
  destruct (tk_kid _ _ _ (Hw _ _ Hp) c) as (Hne & y & Hy & Hl); [unfold kid; by rewrite Hpc, Hs|].
  unfold execute_parent. wp_step. apply (wp_update _ _ _ y); [done|].
  assert (with_parent (Some p) y = y) as -> by (destruct Hl as [E _]; by destruct y; simpl in *; subst).
  rewrite (insert_id w c y) by done. unfold goto. apply (wp_update _ _ _ x); [done|].
  eapply tasks_ok_one; [done|done|place_solve..].
Qed.
Lemma wp_execute_down w p x c :
  tasks_ok w → w !! p = Some x → pc x = Exec c → 0 < exec_block x → wp (execute_down p c) w (λ _, tasks_ok).
Proof.
  intros Hw Hp Hpc Hb. pose proof (tk_shape _ _ _ (Hw _ _ Hp)) as Hs. unfold shape in Hs. rewrite Hpc in Hs.
  unfold execute_down. apply (wp_update_goto _ _ _ x); [done|]. eapply tasks_ok_one; [done|done|place_solve..].
Qed.
Lemma wp_execute_create w p x tid :
  tasks_ok w → w !! p = Some x → pc x = Run → children x = [] → w !! tid = None →
  wp (execute_create p tid) w (λ _, tasks_ok).
Proof.
  intros Hw Hp Hpc Hch Hn. assert (p ≠ tid) by congruence. unfold execute_create, thread_create. do 3 wp_step.
  assert (<[tid := init_thread p]> w !! p = Some x) as Hp' by by rewrite lookup_insert_ne.
  apply (wp_update _ _ _ x); [done|]. unfold goto. eapply wp_update; [by rewrite lookup_insert_eq|].
  rewrite insert_insert_eq. assert (kid x = None) as Ek by (unfold kid; by rewrite Hpc, Hch).
  pose proof (tk_alone _ _ _ (Hw _ _ Hp) Ek). apply (tasks_ok_new w p x); [done..|place_solve|place_solve|done| | | |].
  all: clear Hp' Hw Hp Hn; place_solve.
Qed.
Lemma wp_execute_check w p x c :
  tasks_ok w → w !! p = Some x → pc x = Check c →
  wp (execute_check p c) w (λ v w', tasks_ok w' ∧ ∃ y, w !! c = Some y ∧ v = if load y =? 0 then -1 else c).
Proof.
  intros Hw Hp Hpc. pose proof (tk_shape _ _ _ (Hw _ _ Hp)) as Hs. unfold shape in Hs. rewrite Hpc in Hs.
  destruct (tk_kid _ _ _ (Hw _ _ Hp) c) as (Hne & y & Hy & Hl); [unfold kid; by rewrite Hpc, Hs|].
  unfold execute_check. wp_step. apply (wp_task_of _ _ y); [done|]. wp_step. unfold goto.
  apply (wp_update _ _ _ x); [done|]. wp_step. split; [|by exists y].
  clear Hl Hy. eapply tasks_ok_one; [done|done|place_solve..].
Qed.
(** The parent of a child that still needs it. *)
Lemma parent_of w c y :
  tasks_ok w → w !! c = Some y → ¬ rootless y → ¬ collected y →
  ∃ p px, parent y = Some p ∧ w !! p = Some px ∧ kid px = Some c ∧ p ≠ c ∧ linked p px y.
Proof.
  intros Hw Hy Hr Hc. destruct (parent y) as [p|] eqn:Ep; [|by destruct Hr; apply (tk_root _ _ _ (Hw _ _ Hy))].
  destruct (tk_parent _ _ _ (Hw _ _ Hy) p Ep) as [|(px & Hpx & Hk)]; [done|]. exists p, px.
  destruct (tk_kid _ _ _ (Hw _ _ Hpx) c Hk) as (Hne & y' & Hy' & Hl). simplify_eq. done.
Qed.
Lemma wp_load_up w c y (s : bool) :
  tasks_ok w → w !! c = Some y → pc y = Load → wp (load_up c s) w (λ _, tasks_ok).
Proof.
  intros Hw Hy Hpc. destruct (parent_of w c y) as (p & px & Ep & Hpx & Hk & Hne & Hl); [done|done|place_solve..|].
  pose proof (tk_shape _ _ _ (Hw _ _ Hpx)) as Hs. pose proof (tk_shape _ _ _ (Hw _ _ Hy)) as Hsy.
  unfold load_up. wp_step. apply (wp_task_of _ _ y); [done|]. wp_step. apply (wp_from_option _ p); [done|]. wp_step.
  apply (wp_update _ _ _ px); [done|]. unfold goto. apply (wp_update _ _ _ y); [by rewrite lookup_insert_ne|].
  rewrite insert_insert_ne by done. apply (tasks_ok_two w p c px _ y); [done..| | | | | | | | | | |].
  all: clear Hw Hpx Hy; place_solve.
Qed.
Lemma wp_exit_tell w t x :
  tasks_ok w → w !! t = Some x → pc x = Tell → wp (exit_tell t) w (λ _, tasks_ok).
Proof.
  intros Hw Hy Hpc. destruct (parent_of w t x) as (p & px & Ep & Hpx & Hk & Hne & Hl); [done|done|place_solve..|].
  pose proof (tk_shape _ _ _ (Hw _ _ Hpx)) as Hs. pose proof (tk_shape _ _ _ (Hw _ _ Hy)) as Hsy.
  unfold exit_tell. wp_step. apply (wp_task_of _ _ x); [done|]. wp_step. apply (wp_from_option _ p); [done|]. wp_step.
  apply (wp_update _ _ _ px); [done|]. unfold goto. apply (wp_update _ _ _ x); [by rewrite lookup_insert_ne|].
  rewrite insert_insert_ne by done. apply (tasks_ok_two w p t px _ x); [done..| | | | | | | | | | |].
  all: clear Hw Hpx Hy; place_solve.
Qed.
Lemma wp_start_process_end w c y (s : bool) :
  tasks_ok w → w !! c = Some y → pc y = Loaded s → wp (start_process_end c s) w (λ _, tasks_ok).
Proof.
  intros Hw Hy Hpc. pose proof (tk_shape _ _ _ (Hw _ _ Hy)) as Hs. unfold shape in Hs. rewrite Hpc in Hs.
  unfold start_process_end. destruct s.
  - unfold goto. apply (wp_update _ _ _ y); [done|]. eapply tasks_ok_one; [done|done|place_solve..].
  - apply (wp_update_goto _ _ _ y); [done|]. eapply tasks_ok_one; [done|done|place_solve..].
Qed.
Lemma wp_wait_down w p x c :
  tasks_ok w → w !! p = Some x → pc x = Wait c → 0 < sema_parent_block x → wp (wait_down p c) w (λ _, tasks_ok).
Proof.
  intros Hw Hp Hpc Hb. pose proof (tk_shape _ _ _ (Hw _ _ Hp)) as Hs. unfold shape in Hs. rewrite Hpc in Hs.
  unfold wait_down. apply (wp_update_goto _ _ _ x); [done|]. eapply tasks_ok_one; [done|done|place_solve..].
Qed.
Lemma wp_wait_collect w p x c :
  tasks_ok w → w !! p = Some x → pc x = Collect c →
  wp (wait_collect p c) w (λ v w', tasks_ok w' ∧
    ∃ y, w !! c = Some y ∧ parent y = Some p ∧ pc y = Zombie ∧ v = exit_status y).
Proof.
  intros Hw Hp Hpc. pose proof (tk_shape _ _ _ (Hw _ _ Hp)) as Hs.
  assert (kid x = Some c) as Hk by (unfold kid; by rewrite Hpc).
  destruct (tk_kid _ _ _ (Hw _ _ Hp) c Hk) as (Hne & y & Hy & Hl). pose proof (tk_shape _ _ _ (Hw _ _ Hy)) as Hsy.
  unfold wait_collect. wp_step. apply (wp_task_of _ _ y); [done|]. wp_step. apply (wp_update _ _ _ y); [done|].
  wp_step. unfold goto. apply (wp_update _ _ _ x); [by rewrite lookup_insert_ne|]. wp_step. split.
  - apply (tasks_ok_two w p c x _ y); [done..| | | | | | | | | | |]. all: clear Hw Hp Hy; place_solve.
  - exists y. clear Hw. place_solve.
Qed.
Lemma find_child_one w c y x : w !! c = Some y → find_child [c] x w = Ok (bool_decide (c = x), w).
Proof.
  intros Hy. cbn [find_child]. unfold task_of, mbind, M_bind, get. rewrite Hy. simpl.
  destruct (Z.eqb_spec c x); [by rewrite bool_decide_true|by rewrite bool_decide_false].
Qed.
Lemma wp_wait_find w p x c :
  tasks_ok w → w !! p = Some x → pc x = Run →
  wp (wait_find p c) w (λ r w', tasks_ok w' ∧
    match r with Some v => v = -1 ∧ c ∉ children x ∧ w' = w | None => c ∈ children x end).
Proof.
  intros Hw Hp Hpc. pose proof (tk_shape _ _ _ (Hw _ _ Hp)) as Hs. unfold shape in Hs. rewrite Hpc in Hs.
  unfold wait_find. wp_step. apply (wp_task_of _ _ x); [done|].
  destruct (children x) as [|d [|]] eqn:Ech; [| |simpl in Hs; lia].
  { rewrite bool_decide_true by done. wp_step. split_and!; [done|done|apply not_elem_of_nil|done]. }
  destruct (tk_kid _ _ _ (Hw _ _ Hp) d) as (Hne & y & Hy & Hl); [unfold kid; by rewrite Hpc, Ech|].
  rewrite bool_decide_false by done. wp_step. unfold wp at 1. rewrite (find_child_one _ _ y) by done.
  case_bool_decide as Ed; cbv iota beta; [subst d|wp_step; split_and!; [done|done| |done]; by intros ?%list_elem_of_singleton].
  wp_step. apply (wp_update _ _ _ x); [done|]. wp_step. unfold goto. eapply wp_update; [by rewrite lookup_insert_eq|].
  wp_step. split; [|apply list_elem_of_here]. rewrite insert_insert_eq, Ech.
  assert (filter (λ u, u ≠ c) [c] = []) as -> by (rewrite filter_cons, decide_False; [done|tauto]).
  clear Hl Hy. eapply tasks_ok_one; [done|done|place_solve..].
Qed.
Lemma wp_exit_orphan w t x :
  tasks_ok w → w !! t = Some x → pc x = Exit → wp (exit_orphan t) w (λ _, tasks_ok).
Proof.
  intros Hw Ht Hpc. pose proof (tk_shape _ _ _ (Hw _ _ Ht)) as Hs. unfold shape in Hs. rewrite Hpc in Hs.
  unfold exit_orphan. wp_step. apply (wp_task_of _ _ x); [done|]. rewrite Hs. cbn [orphan]. do 2 wp_step. unfold goto.
  apply (wp_update _ _ _ x); [done|]. eapply tasks_ok_one; [done|done|place_solve..].
Qed.
Lemma wp_exit_test w t x :
  tasks_ok w → w !! t = Some x → pc x = Orphaned → wp (exit_test t) w (λ _, tasks_ok).
Proof.
  intros Hw Ht Hpc. pose proof (tk_shape _ _ _ (Hw _ _ Ht)) as Hs. unfold shape in Hs. rewrite Hpc in Hs.
  unfold exit_test. wp_step. apply (wp_task_of _ _ x); [done|]. unfold goto. apply (wp_update _ _ _ x); [done|].
  destruct (parent x) as [p|] eqn:Ep; (eapply tasks_ok_one; [done|done|place_solve..]).
Qed.
Lemma wp_exit_down w t x :
  tasks_ok w → w !! t = Some x → pc x = Zombie → 0 < wait_block x → wp (exit_down t) w (λ _, tasks_ok).
Proof.
  intros Hw Ht Hpc Hb. pose proof (tk_shape _ _ _ (Hw _ _ Ht)) as Hs. unfold shape in Hs. rewrite Hpc in Hs.
  unfold exit_down. apply (wp_update_goto _ _ _ x); [done|]. eapply tasks_ok_one; [done|done|place_solve..].
Qed.
Lemma wp_exit_free w t x :
  tasks_ok w → w !! t = Some x → pc x = Dying → wp (exit_free t) w (λ _, tasks_ok).
Proof.
  intros Hw Ht Hpc. pose proof (tk_shape _ _ _ (Hw _ _ Ht)) as Hs. unfold shape in Hs. rewrite Hpc in Hs.
  unfold exit_free. wp_step. eapply tasks_ok_delete; [done|done| |done]. unfold kid. by rewrite Hpc, Hs.
Qed.

(** ** Processes that wait for their children *)

(** The process starts another one, or exits, only when it has waited for all its
    children. *)
Definition tidy (w : tasks) (t : Z) (a : action) : Prop :=
  match a with DoExec _ | DoExit _ => ∀ x, w !! t = Some x → children x = [] | _ => True end.
Inductive reachable_tidy : tasks → Prop :=
| tidy_initial : reachable_tidy initial
| tidy_step w t a e w' : reachable_tidy w → tidy w t a → step w t a e w' → reachable_tidy w'.

(** What process_wait () may return: -1 at once for a thread that is not a child, or
    the status of a child that has come to the end of process_exit (). *)
Definition wait_result (w : tasks) (t c v : Z) : Prop :=
  (∃ x, w !! t = Some x ∧ c ∉ children x ∧ v = -1) ∨
  (∃ y, w !! c = Some y ∧ parent y = Some t ∧ pc y = Zombie ∧ v = exit_status y).
Lemma piece_ok w t a m :
  tasks_ok w → tidy w t a → piece w t a = Some m →
  wp m w (λ e w', tasks_ok w' ∧ ∀ c v, e = WaitReturns c v → wait_result w t c v).
Proof.
  intros Hw Htidy. unfold piece. destruct (w !! t) as [x|] eqn:Ht; [|done]. simpl.
  assert (∀ c : M tasks unit, wp c w (λ _, tasks_ok) →
    wp (c;; mret Silent) w (λ e w', tasks_ok w' ∧ ∀ c v, e = WaitReturns c v → wait_result w t c v)) as Hsilent.
  { intros c Hc. wp_step. eapply wp_mono; [exact Hc|]. intros [] w' Hw'. wp_step. by split. }
  unfold silent. intros Hp. destruct (pc x) eqn:Hpc; destruct a; try done; repeat case_match; simplify_eq; try done.
  all: rewrite ?bool_decide_eq_true, ?Z.ltb_lt in *; try apply Hsilent.
  - eapply wp_execute_create; eauto.
  - wp_step. eapply wp_mono; [by eapply wp_wait_find|]. intros r w' [Hw' Hr]. wp_step. split; [done|].
    intros c' v. destruct r; [|done]. intros [= <- <-]. left. exists x. tauto.
  - eapply wp_exit_call; eauto.
  - eapply wp_execute_parent; eauto.
  - eapply wp_execute_down; eauto.
  - wp_step. eapply wp_mono; [by eapply wp_execute_check|]. intros v w' [Hw' _]. wp_step. by split.
  - eapply wp_load_up; eauto.
  - eapply wp_start_process_end; eauto.
  - eapply wp_wait_down; eauto.
  - wp_step. eapply wp_mono; [by eapply wp_wait_collect|]. intros v w' (Hw' & Hy). wp_step. split; [done|].
    intros c' v' [= <- <-]. by right.
  - eapply wp_exit_orphan; eauto.
  - eapply wp_exit_test; eauto.
  - eapply wp_exit_tell; eauto.
  - eapply wp_exit_down; eauto.
  - eapply wp_exit_free; eauto.
Qed.
Lemma reachable_tidy_ok w : reachable_tidy w → tasks_ok w.
Proof.
  induction 1 as [|w t a e w' _ IH Ht Hs]; [apply initial_ok|]. inversion Hs as [t' a' m e' w'' Hp Hm]; subst.
  pose proof (piece_ok _ _ _ _ IH Ht Hp) as Hw. unfold wp in Hw. rewrite Hm in Hw. apply Hw.
Qed.


(** ** Processes that do not *)

Inductive reachable : tasks → Prop :=
| reach_initial : reachable initial
| reach_step w t a e w' : reachable w → step w t a e w' → reachable w'.
Lemma run_reachable l w es w' : reachable w → run l w = Some (es, w') → reachable w'.
Proof.
  revert w es. induction l as [|[t a] l IH]; intros w es Hr; cbn [run]; [by intros [= <- <-]|].
  destruct (piece w t a) as [m|] eqn:Hp; [|done]. destruct (m w) as [[e w1]| | |] eqn:Hm; [|done..].
  destruct (run l w1) as [[es' w2]|] eqn:Hl; [|done]. intros [= <- <-].
  eapply IH; [|exact Hl]. eapply reach_step; [done|]. by econstructor.
Qed.
(** exec with a program that can be loaded. *)
Definition exec_run (p c : Z) : list (Z * action) :=
  [(p, DoExec c); (p, Go); (c, LoadEnds true); (c, Go); (p, Go); (p, Go)].
Definition exit_run (t : Z) (status : Z) : list (Z * action) := [(t, DoExit (Some status)); (t, Go); (t, Go); (t, Go)].
(** Process 2 starts 3 and 4, and waits for 3 while 4 exits. *)
Definition two_children : list (Z * action) :=
  exec_run 1 2 ++ exec_run 2 3 ++ exec_run 2 4 ++ [(2, DoWait 3)] ++ exit_run 4 0 ++ [(2, Go); (2, Go)].
(** Then 2 exits, main waits for it, and 3 exits. *)
Definition late_exit : list (Z * action) :=
  exit_run 2 0 ++ [(1, DoWait 2); (1, Go); (1, Go); (2, Go); (2, Go)] ++ take 3 (exit_run 3 5).

(** With two children, process_wait () for one of them is ended by the exit of the
    other: it returns -1 while the child still runs.  When the parent has exited and
    its struct thread is free, the exit of that child follows the dangling pointer
    to it. *)
Theorem process_wait_wrong_child :
  ∃ w es, run two_children initial = Some (es, w) ∧ reachable w ∧ last es = Some (WaitReturns 3 (-1)) ∧
    (pc <$> w !! 3 = Some Run) ∧
    ∃ w' es', run late_exit w = Some (es', w') ∧ w' !! 2 = None ∧ crashes w' 3 Go.
Proof.
  eexists _, _. split; [vm_compute; reflexivity|]. split.
  { eapply (run_reachable two_children); [apply reach_initial|vm_compute; reflexivity]. }
  split; [reflexivity|]. split; [vm_compute; reflexivity|].
  eexists _, _. split; [vm_compute; reflexivity|]. split; [vm_compute; reflexivity|].
  eexists _. split; vm_compute; reflexivity.
Qed.
(** start_process () records the failure of load () after load () has released the
    parent: the result of process_execute () for a program that cannot be loaded is
    -1 or the number of a process, depending on who runs first. *)
Theorem process_execute_race :
  ∃ l1 l2 w1 w2 es1 es2,
    run ([(1, DoExec 2); (1, Go); (2, LoadEnds false)] ++ l1) initial = Some (es1, w1) ∧
    run ([(1, DoExec 2); (1, Go); (2, LoadEnds false)] ++ l2) initial = Some (es2, w2) ∧
    l1 ≡ₚ l2 ∧ ExecReturns 2 ∈ es1 ∧ ExecReturns (-1) ∈ es2.
Proof.
  exists [(1, Go); (1, Go); (2, Go)], [(2, Go); (1, Go); (1, Go)]. eexists _, _, _, _.
  split; [vm_compute; reflexivity|]. split; [vm_compute; reflexivity|]. split.
  { apply (Permutation_app_comm [(1, Go); (1, Go)] [(2, Go)]). }
  split; repeat (apply list_elem_of_here || apply list_elem_of_further).
Qed.

(** ** Examples *)

Fixpoint tidy_run (l : list (Z * action)) (w : tasks) : bool :=
  match l with
  | [] => true
  | (t, a) :: l =>
    match a with
    | DoExec _ | DoExit _ => match w !! t with Some x => bool_decide (children x = []) | None => true end
    | _ => true
    end && match run [(t, a)] w with Some (_, w') => tidy_run l w' | None => false end
  end.
Lemma tidy_run_reachable l w : reachable_tidy w → tidy_run l w = true →
  ∃ es w', run l w = Some (es, w') ∧ reachable_tidy w'.
Proof.
  revert w. induction l as [|[t a] l IH]; intros w Hr; cbn [tidy_run]; [by exists [], w|]. intros [Ht Hrun]%andb_true_iff.
  cbn [run] in *. destruct (piece w t a) as [m|] eqn:Hp; [|done]. destruct (m w) as [[e w1]| | |] eqn:Hm; try done.
  destruct (IH w1) as (es & w' & E & Hr'); [|done|].
  - eapply tidy_step; [done| |by econstructor]. destruct a; try done; intros x Hx; rewrite Hx in Ht;
      by apply bool_decide_eq_true in Ht.
  - exists (e :: es), w'. by rewrite E.
Qed.
(** main runs a program that exits with status 7. *)
Definition run_task : list (Z * action) := exec_run 1 2 ++ [(1, DoWait 2)] ++ exit_run 2 7.
Definition task_world (l : list (Z * action)) : tasks := match run l initial with Some (_, w) => w | None => ∅ end.
Lemma task_world_reachable l : tidy_run l initial = true → reachable_tidy (task_world l).
Proof. intros Hl. unfold task_world. destruct (tidy_run_reachable l initial tidy_initial Hl) as (es & w & -> & Hr). done. Qed.

