(* ===== verification/Intq.v ===== *)
(** * Interrupt queues and console input: devices/intq.c, input.c, serial.c, kbd.c

    The bytes that come from the keyboard and the serial port, and those that go to
    the serial port, pass through circular buffers that threads and interrupt
    handlers share.  One state holds the two queues and the variables of the
    drivers; the serial port itself is behind the class [UartOps], whose laws are in
    IntqThms.v.

    A function that puts the running thread to sleep ends with [None]: when the
    thread has been woken up it calls the function again, which goes on with the
    loop.  [me] is the running thread. *)

From S2P Require Import Prelude.
Local Open Scope Z_scope.

Definition INTQ_BUFSIZE : Z := 64.
Record intq := mk_intq {
  lock : option Z;
  not_full : option Z;
  not_empty : option Z;
  buf : list Z;
  head : Z;
  tail : Z
}.
Inductive serial_mode := UNINIT | POLL | QUEUE.
(** The variables of kbd.c *)
Record kbd := mk_kbd {
  left_shift : bool; right_shift : bool; left_alt : bool; right_alt : bool; left_ctrl : bool; right_ctrl : bool;
  caps_lock : bool; key_cnt : Z }.

(** The serial port: reading and writing its registers. *)
Class UartOps (U : Type) := {
  inb : Z → U → Z * U;
  outb : Z → Z → U → U
}.

(** [level_off]: interrupts are off; [context]: an interrupt handler runs;
    [unblocked]: the threads that have been woken up. *)
Record dev (U : Type) := mk_dev {
  buffer : intq;
  txq : intq;
  mode : serial_mode;
  keyboard : kbd;
  level_off : bool;
  context : bool;
  unblocked : list Z;
  uart : U
}.
Arguments mk_dev {U}.
Arguments buffer {U}.
Arguments txq {U}.
Arguments mode {U}.
Arguments keyboard {U}.
Arguments level_off {U}.
Arguments context {U}.
Arguments unblocked {U}.
Arguments uart {U}.

(** The struct intq that a pointer points to. *)
Inductive queue := Buffer | Txq.
Inductive waiter := NotEmpty | NotFull.
#[export] Instance waiter_eq_dec : EqDecision waiter.
Proof. solve_decision. Defined.

Section intq.
Context {U : Type} `{!UartOps U}.
Notation S := (dev U).
Implicit Types (q : queue) (s : S).

Definition the_queue q s : intq := match q with Buffer => buffer s | Txq => txq s end.
Definition set_queue q (x : intq) s : S :=
  match q with
  | Buffer => mk_dev x (txq s) (mode s) (keyboard s) (level_off s) (context s) (unblocked s) (uart s)
  | Txq => mk_dev (buffer s) x (mode s) (keyboard s) (level_off s) (context s) (unblocked s) (uart s)
  end.
Definition set_mode (m : serial_mode) s : S :=
  mk_dev (buffer s) (txq s) m (keyboard s) (level_off s) (context s) (unblocked s) (uart s).
Definition set_keyboard (k : kbd) s : S :=
  mk_dev (buffer s) (txq s) (mode s) k (level_off s) (context s) (unblocked s) (uart s).
Definition set_level (b : bool) s : S :=
  mk_dev (buffer s) (txq s) (mode s) (keyboard s) b (context s) (unblocked s) (uart s).
Definition wake (t : Z) s : S :=
  mk_dev (buffer s) (txq s) (mode s) (keyboard s) (level_off s) (context s) (unblocked s ++ [t]) (uart s).
Definition set_uart (u : U) s : S :=
  mk_dev (buffer s) (txq s) (mode s) (keyboard s) (level_off s) (context s) (unblocked s) u.

(** intr_disable () returns the old level, threads/interrupt.c *)
Definition intr_disable : M S bool := o ← gets level_off; modify (set_level true);; mret o.
Definition intr_set_level (o : bool) : M S unit := modify (set_level o).
Definition assert_off : M S unit := o ← gets level_off; assert o.
Definition in_port (port : Z) : M S Z :=
  u ← gets uart; let '(v, u) := inb port u in modify (set_uart u);; mret v.
Definition out_port (port v : Z) : M S unit := modify (λ s, set_uart (outb port v (uart s)) s).

(** ** Queues *)

Definition next (pos : Z) : Z := (pos + 1) `rem` INTQ_BUFSIZE.
Definition intq_init q : M S unit :=
  modify (λ s, set_queue q (mk_intq None None None (buf (the_queue q s)) 0 0) s).
Definition intq_empty q : M S bool :=
  assert_off;; x ← gets (the_queue q); mret (head x =? tail x).
Definition intq_full q : M S bool :=
  assert_off;; x ← gets (the_queue q); mret (next (head x) =? tail x).

Definition set_lock (o : option Z) (x : intq) : intq :=
  mk_intq o (not_full x) (not_empty x) (buf x) (head x) (tail x).
Definition the_waiter (v : waiter) (x : intq) : option Z := match v with NotEmpty => not_empty x | NotFull => not_full x end.
Definition set_waiter (v : waiter) (o : option Z) (x : intq) : intq :=
  match v with
  | NotEmpty => mk_intq (lock x) (not_full x) o (buf x) (head x) (tail x)
  | NotFull => mk_intq (lock x) o (not_empty x) (buf x) (head x) (tail x)
  end.
Definition update_queue q (f : intq → intq) : M S unit := modify (λ s, set_queue q (f (the_queue q s)) s).
(** The loop condition of the two waits. *)
Definition blocked q (v : waiter) : M S bool := match v with NotEmpty => intq_empty q | NotFull => intq_full q end.

Definition wait (me : Z) q (v : waiter) : M S unit :=
  c ← gets context; assert (negb c);;
  assert_off;;
  b ← blocked q v; assert b;;
  update_queue q (set_waiter v (Some me)).
Definition signal q (v : waiter) : M S unit :=
  assert_off;;
  b ← blocked q v; assert (negb b);;
  x ← gets (the_queue q);
  match the_waiter v x with
  | Some t => modify (wake t);; update_queue q (set_waiter v None)
  | None => mret tt
  end.
(** while (blocked) { lock_acquire; wait; lock_release }; true when the loop ends,
    false when the thread sleeps, in wait () or for the lock.  The thread that was
    woken up holds the lock and releases it first. *)
Definition await (me : Z) q (v : waiter) : M S bool :=
  x ← gets (the_queue q);
  (if bool_decide (lock x = Some me) then update_queue q (set_lock None) else mret tt);;
  b ← blocked q v;
  if b : bool then
    c ← gets context; assert (negb c);;
    x ← gets (the_queue q);
    match lock x with
    | Some _ => mret false
    | None => update_queue q (set_lock (Some me));; wait me q v;; mret false
    end
  else mret true.

Definition intq_getc (me : Z) q : M S (option Z) :=
  assert_off;;
  go ← await me q NotEmpty;
  if go : bool then
    x ← gets (the_queue q);
    byte ← (if tail x <? 0 then fault else from_option (buf x !! Z.to_nat (tail x)));
    update_queue q (λ x, mk_intq (lock x) (not_full x) (not_empty x) (buf x) (head x) (next (tail x)));;
    signal q NotFull;;
    mret (Some byte)
  else mret None.
Definition intq_putc (me : Z) q (byte : Z) : M S (option unit) :=
  assert_off;;
  go ← await me q NotFull;
  if go : bool then
    x ← gets (the_queue q);
    (if (0 <=? head x) && (head x <? Z.of_nat (length (buf x))) then mret tt else fault);;
    update_queue q (λ x, mk_intq (lock x) (not_full x) (not_empty x)
                           (<[Z.to_nat (head x) := u8 byte]> (buf x)) (next (head x)) (tail x));;
    signal q NotEmpty;;
    mret (Some tt)
  else mret None.

(** ** The serial port *)

Definition IO_BASE : Z := 0x3f8.
Definition RBR_REG : Z := IO_BASE + 0.
Definition THR_REG : Z := IO_BASE + 0.
Definition IER_REG : Z := IO_BASE + 1.
Definition LS_REG : Z := IO_BASE + 0.
Definition MS_REG : Z := IO_BASE + 1.
Definition IIR_REG : Z := IO_BASE + 2.
Definition FCR_REG : Z := IO_BASE + 2.
Definition LCR_REG : Z := IO_BASE + 3.
Definition MCR_REG : Z := IO_BASE + 4.
Definition LSR_REG : Z := IO_BASE + 5.
Definition IER_RECV : Z := 0x01.
Definition IER_XMIT : Z := 0x02.
Definition LCR_N81 : Z := 0x03.
Definition LCR_DLAB : Z := 0x80.
Definition MCR_OUT2 : Z := 0x08.
Definition LSR_DR : Z := 0x01.
Definition LSR_THRE : Z := 0x20.

Definition input_full : M S bool := assert_off;; intq_full Buffer.
Definition write_ier : M S unit :=
  assert_off;;
  e ← intq_empty Txq;
  let ier := if negb e then Z.lor 0 IER_XMIT else 0 in
  f ← input_full;
  let ier := if negb f then Z.lor ier IER_RECV else ier in
  out_port IER_REG ier.
Definition set_serial (bps : Z) : M S unit :=
  let base_rate := 1843200 `quot` 16 in
  let divisor := wrap 16 (base_rate `quot` bps) in
  assert ((300 <=? bps) && (bps <=? 115200));;
  out_port LCR_REG (Z.lor LCR_N81 LCR_DLAB);;
  out_port LS_REG (Z.land divisor 0xff);;
  out_port MS_REG (Z.shiftr divisor 8);;
  out_port LCR_REG LCR_N81.
Definition init_poll : M S unit :=
  m ← gets mode;
  assert (match m with UNINIT => true | _ => false end);;
  out_port IER_REG 0;;
  out_port FCR_REG 0;;
  set_serial 9600;;
  out_port MCR_REG MCR_OUT2;;
  intq_init Txq;;
  modify (set_mode POLL).
(** The busy-waiting; [fuel] bounds the number of times the register is read. *)
Fixpoint poll_loop (fuel : nat) : M S unit :=
  match fuel with
  | O => nofuel
  | Datatypes.S fuel => v ← in_port LSR_REG; if Z.land v LSR_THRE =? 0 then poll_loop fuel else mret tt
  end.
Definition putc_poll (fuel : nat) (byte : Z) : M S unit :=
  assert_off;; poll_loop fuel;; out_port THR_REG (u8 byte).

Definition serial_init_queue : M S unit :=
  m ← gets mode;
  (match m with UNINIT => init_poll | _ => mret tt end);;
  m ← gets mode;
  assert (match m with POLL => true | _ => false end);;
  modify (set_mode QUEUE);;
  old_level ← intr_disable;
  write_ier;;
  intr_set_level old_level.
Definition serial_putc (fuel : nat) (me byte : Z) : M S (option unit) :=
  old_level ← intr_disable;
  m ← gets mode;
  match m with
  | QUEUE =>
    full ← (if old_level : bool then intq_full Txq else mret false);
    (if full : bool then
       c ← intq_getc me Txq;
       match c with Some c => putc_poll fuel c | None => mret tt end
     else mret tt);;
    r ← intq_putc me Txq byte;
    match r with
    | None => mret None
    | Some _ => write_ier;; intr_set_level old_level;; mret (Some tt)
    end
  | _ =>
    (match m with UNINIT => init_poll | _ => mret tt end);;
    putc_poll fuel byte;;
    intr_set_level old_level;;
    mret (Some tt)
  end.
(** while (!intq_empty (&txq)), with at most [n] bytes in the queue. *)
Fixpoint flush_loop (fuel n : nat) (me : Z) : M S unit :=
  e ← intq_empty Txq;
  if e : bool then mret tt
  else match n with
       | O => nofuel
       | Datatypes.S n =>
         c ← intq_getc me Txq;
         match c with Some c => putc_poll fuel c;; flush_loop fuel n me | None => mret tt end
       end.
Definition serial_flush (fuel : nat) (me : Z) : M S unit :=
  old_level ← intr_disable;
  flush_loop fuel (Z.to_nat INTQ_BUFSIZE) me;;
  intr_set_level old_level.
Definition serial_notify : M S unit :=
  assert_off;; m ← gets mode; match m with QUEUE => write_ier | _ => mret tt end.

(** ** Input *)

Definition input_init : M S unit := intq_init Buffer.
Definition input_putc (me key : Z) : M S unit :=
  assert_off;;
  f ← intq_full Buffer; assert (negb f);;
  intq_putc me Buffer key;;
  serial_notify.
Definition input_getc (me : Z) : M S (option Z) :=
  old_level ← intr_disable;
  key ← intq_getc me Buffer;
  match key with
  | Some key => serial_notify;; intr_set_level old_level;; mret (Some key)
  | None => mret None
  end.

(** The loops of the handler: receive while there is room, transmit while the port
    takes it; each byte moves one queue, so INTQ_BUFSIZE iterations are enough. *)
Fixpoint receive_loop (n : nat) (me : Z) : M S unit :=
  match n with
  | O => nofuel
  | Datatypes.S n =>
    f ← input_full;
    if f : bool then mret tt
    else
      v ← in_port LSR_REG;
      if Z.land v LSR_DR =? 0 then mret tt
      else c ← in_port RBR_REG; input_putc me c;; receive_loop n me
  end.
Fixpoint transmit_loop (n : nat) (me : Z) : M S unit :=
  match n with
  | O => nofuel
  | Datatypes.S n =>
    e ← intq_empty Txq;
    if e : bool then mret tt
    else
      v ← in_port LSR_REG;
      if Z.land v LSR_THRE =? 0 then mret tt
      else c ← intq_getc me Txq;
           match c with Some c => out_port THR_REG c;; transmit_loop n me | None => mret tt end
  end.
Definition serial_interrupt (me : Z) : M S unit :=
  in_port IIR_REG;;
  receive_loop (Z.to_nat INTQ_BUFSIZE) me;;
  transmit_loop (Z.to_nat INTQ_BUFSIZE) me;;
  write_ier.

(** ** The keyboard *)

Definition keymap : Type := list (Z * list Z).
Definition invariant_keymap : keymap :=
  [(0x01, [27]); (0x0e, [8]); (0x0f, [9; 81; 87; 69; 82; 84; 89; 85; 73; 79; 80]); (0x1c, [13]);
   (0x1e, [65; 83; 68; 70; 71; 72; 74; 75; 76]); (0x2c, [90; 88; 67; 86; 66; 78; 77]); (0x37, [42]); (0x39, [32]);
   (0x53, [127])].
Definition unshifted_keymap : keymap :=
  [(0x02, [49; 50; 51; 52; 53; 54; 55; 56; 57; 48; 45; 61]); (0x1a, [91; 93]); (0x27, [59; 39; 96]); (0x2b, [92]);
   (0x33, [44; 46; 47])].
Definition shifted_keymap : keymap :=
  [(0x02, [33; 64; 35; 36; 37; 94; 38; 42; 40; 41; 95; 43]); (0x1a, [123; 125]); (0x27, [58; 34; 126]); (0x2b, [124]);
   (0x33, [60; 62; 63])].
Fixpoint map_key (k : keymap) (scancode : Z) : option Z :=
  match k with
  | [] => None
  | (first_scancode, chars) :: k =>
    if (first_scancode <=? scancode) && (scancode <? first_scancode + Z.of_nat (length chars))
    then chars !! Z.to_nat (scancode - first_scancode) else map_key k scancode
  end.
Definition tolower (c : Z) : Z := if (65 <=? c) && (c <=? 90) then c - 65 + 97 else c.
Definition shift_key (code : Z) (down : bool) (k : kbd) : kbd :=
  let 'mk_kbd ls rs la ra lc rc caps n := k in
  if code =? 0x2a then mk_kbd down rs la ra lc rc caps n
  else if code =? 0x36 then mk_kbd ls down la ra lc rc caps n
  else if code =? 0x38 then mk_kbd ls rs down ra lc rc caps n
  else if code =? 0xe038 then mk_kbd ls rs la down lc rc caps n
  else if code =? 0x1d then mk_kbd ls rs la ra down rc caps n
  else if code =? 0xe01d then mk_kbd ls rs la ra lc down caps n
  else k.
Definition toggle_caps (k : kbd) : kbd :=
  mk_kbd (left_shift k) (right_shift k) (left_alt k) (right_alt k) (left_ctrl k) (right_ctrl k) (negb (caps_lock k)) (key_cnt k).
Definition count_key (k : kbd) : kbd :=
  mk_kbd (left_shift k) (right_shift k) (left_alt k) (right_alt k) (left_ctrl k) (right_ctrl k) (caps_lock k) (key_cnt k + 1).
(** [b0] and [b1] are what the two reads of the keyboard's data register give.  The
    result is true when the machine is rebooted. *)
Definition keyboard_interrupt (me b0 b1 : Z) : M S bool :=
  k ← gets keyboard;
  let shift := left_shift k || right_shift k in
  let alt := left_alt k || right_alt k in
  let ctrl := left_ctrl k || right_ctrl k in
  let code := if b0 =? 0xe0 then Z.lor (Z.shiftl b0 8) b1 else b0 in
  let release := negb (Z.land code 0x80 =? 0) in
  let code := Z.land code (u32 (Z.lnot 0x80)) in
  if code =? 0x3a then (if negb release then modify (set_keyboard (toggle_caps k)) else mret tt);; mret false
  else
    let c := match map_key invariant_keymap code with
             | Some c => Some c
             | None => if negb shift then map_key unshifted_keymap code else map_key shifted_keymap code
             end in
    match c with
    | Some c =>
      if negb release then
        if (c =? 127) && ctrl && alt then mret true
        else
          let c := if ctrl && (0x40 <=? c) && (c <? 0x60) then u8 (c - 0x40)
                   else if Bool.eqb shift (caps_lock k) then tolower c else c in
          let c := if alt then u8 (c + 0x80) else c in
          f ← input_full;
          if negb f then modify (set_keyboard (count_key k));; input_putc me c;; mret false
          else mret false
      else mret false
    | None => modify (set_keyboard (shift_key code (negb release) k));; mret false
    end.
End intq.
