(* ===== verification/IntqThms.v ===== *)
(** * Theorems on console input and the serial port

    A circular buffer is a queue of at most 63 bytes, and no thread sleeps on a
    condition that holds.  The bytes sent to the serial port leave in order, and
    those received from it arrive in order in the input buffer; the drivers tell
    the port when to interrupt. *)

From S2P Require Import Prelude Intq.
Local Open Scope Z_scope.
Local Ltac Zify.zify_post_hook ::= Z.to_euclidean_division_equations.

(** ** A circular buffer as a list *)

Definition count (x : intq) : Z := (head x - tail x) mod 64.
Definition items (x : intq) : list Z :=
  (λ j, default 0 (buf x !! Z.to_nat ((tail x + j) mod 64))) <$> seqZ 0 (count x).
Record intq_ok (x : intq) : Prop := {
  iq_buf : length (buf x) = 64%nat;
  iq_head : 0 ≤ head x < 64;
  iq_tail : 0 ≤ tail x < 64;
  iq_not_empty : not_empty x ≠ None → items x = [];
  iq_not_full : not_full x ≠ None → length (items x) = 63%nat
}.

Lemma items_length x : length (items x) = Z.to_nat (count x).
Proof. unfold items. by rewrite length_fmap, length_seqZ. Qed.
Lemma count_range x : 0 ≤ count x < 64.
Proof. unfold count. lia. Qed.
Lemma next_mod p : 0 ≤ p < 64 → next p = (p + 1) mod 64.
Proof. intros Hp. unfold next, INTQ_BUFSIZE. lia. Qed.
Lemma empty_items x : intq_ok x → (head x =? tail x) = bool_decide (items x = []).
Proof.
  intros Hx. destruct Hx as [_ Hh Ht _ _]. pose proof (items_length x) as El. unfold count in El.
  destruct (Z.eqb_spec (head x) (tail x)) as [E|E].
  - rewrite bool_decide_true; [done|]. apply length_zero_iff_nil. rewrite El, E. lia.
  - rewrite bool_decide_false; [done|]. intros En. rewrite En in El. simpl in El. lia.
Qed.
Lemma full_items x : intq_ok x → (next (head x) =? tail x) = bool_decide (length (items x) = 63%nat).
Proof.
  intros Hx. destruct Hx as [_ Hh Ht _ _]. pose proof (items_length x) as El. unfold count in El.
  rewrite next_mod by done.
  destruct (Z.eqb_spec ((head x + 1) mod 64) (tail x)) as [E|E].
  - rewrite bool_decide_true; [done|]. lia.
  - rewrite bool_decide_false; [done|]. lia.
Qed.
Lemma items_lookup x j : (j < length (items x))%nat →
  items x !! j = Some (default 0 (buf x !! Z.to_nat ((tail x + Z.of_nat j) mod 64))).
Proof.
  rewrite items_length. intros Hj. unfold items. rewrite list_lookup_fmap, lookup_seqZ_lt by lia. simpl.
  done.
Qed.

Definition put_byte (b : Z) (x : intq) : intq :=
  mk_intq (lock x) (not_full x) (not_empty x) (<[Z.to_nat (head x) := b]> (buf x)) (next (head x)) (tail x).
Definition drop_byte (x : intq) : intq :=
  mk_intq (lock x) (not_full x) (not_empty x) (buf x) (head x) (next (tail x)).
Lemma items_put x b : intq_ok x → (length (items x) < 63)%nat → items (put_byte b x) = items x ++ [b].
Proof.
  intros [Hb Hh Ht _ _] Hl. rewrite items_length in Hl.
  assert (count (put_byte b x) = count x + 1) as Ec by (unfold count in *; simpl; rewrite next_mod by done; lia).
  pose proof (count_range x) as Hc. assert (length (items (put_byte b x)) = S (length (items x))) as El.
  { rewrite !items_length, Ec. lia. }
  apply list_eq_same_length with (n := S (length (items x))); [rewrite length_app; simpl; lia|done|].
  intros j y z Hj. rewrite items_lookup by lia. simpl. intros [= <-] Hz.
  rewrite items_length in Hj. destruct (decide (j = Z.to_nat (count x))) as [->|Hne].
  - rewrite lookup_app_r in Hz by (rewrite items_length; lia). rewrite items_length, Nat.sub_diag in Hz. injection Hz as <-.
    replace ((tail x + Z.of_nat (Z.to_nat (count x))) mod 64) with (head x) by (unfold count in *; lia).
    rewrite list_lookup_insert_eq by lia. done.
  - rewrite lookup_app_l, items_lookup in Hz by (rewrite items_length; lia). injection Hz as <-.
    rewrite list_lookup_insert_ne; [done|]. unfold count in *. lia.
Qed.
Lemma items_drop x : intq_ok x → items x ≠ [] →
  ∃ b, buf x !! Z.to_nat (tail x) = Some b ∧ items x = b :: items (drop_byte x).
Proof.
  intros [Hb Hh Ht _ _] Hn. assert (0 < count x) as Hpos.
  { pose proof (count_range x). destruct (decide (count x = 0)) as [E|]; [|lia]. destruct Hn.
    apply length_zero_iff_nil. by rewrite items_length, E. }
  destruct (lookup_lt_is_Some_2 (buf x) (Z.to_nat (tail x))) as [b Eb]; [lia|]. exists b. split; [done|].
  assert (count (drop_byte x) = count x - 1) as Ec by (unfold count in *; simpl; rewrite next_mod by done; lia).
  apply list_eq_same_length with (n := length (items x)); [simpl; rewrite !items_length; lia|done|].
  intros j y z Hj Hy Hz. rewrite items_length in Hj. destruct j as [|j]; cbn [lookup list_lookup] in *.
  - rewrite items_lookup in Hy by (rewrite items_length; lia). rewrite Z.add_0_r, Z.mod_small, Eb in Hy by lia. simpl in *. congruence.
  - rewrite items_lookup in Hy by (rewrite items_length; lia). rewrite items_lookup in Hz by (rewrite items_length; lia).
    simpl in Hz. rewrite next_mod in Hz by done.
    replace (((tail x + 1) mod 64 + Z.of_nat j) mod 64) with ((tail x + Z.of_nat (S j)) mod 64) in Hz by lia. congruence.
Qed.

Section queues.
Context {U : Type} `{!UartOps U}.
Notation S := (dev U).
Implicit Types (q : queue) (s : S).

Definition set_unblocked (l : list Z) s : S :=
  mk_dev (buffer s) (txq s) (mode s) (keyboard s) (level_off s) (context s) l (uart s).
(** Only the queue [q] has changed, and threads have been woken up. *)
Definition only_queue q s s' : Prop := s' = set_queue q (the_queue q s') (set_unblocked (unblocked s') s).

Lemma the_queue_set q x s : the_queue q (set_queue q x s) = x.
Proof. by destruct q. Qed.
Lemma only_queue_refl q s : only_queue q s s.
Proof. by destruct q, s. Qed.
Lemma only_queue_set q x s s' : only_queue q s s' → only_queue q s (set_queue q x s').
Proof. unfold only_queue. intros ->. by destruct q. Qed.
Lemma only_queue_wake q t s s' : only_queue q s s' → only_queue q s (wake t s').
Proof. unfold only_queue. intros ->. by destruct q. Qed.
Lemma only_queue_off q s s' : only_queue q s s' → level_off s' = level_off s ∧ context s' = context s.
Proof. unfold only_queue. intros ->. by destruct q. Qed.

Lemma wp_assert_off s Q : level_off s = true → Q tt s → wp assert_off s Q.
Proof. intros Ho HQ. unfold assert_off. do 2 wp_step. wp_step; [done|done]. Qed.
Lemma wp_intq_empty q s Q : level_off s = true → intq_ok (the_queue q s) →
  Q (bool_decide (items (the_queue q s) = [])) s → wp (intq_empty q) s Q.
Proof.
  intros Ho Hx HQ. unfold intq_empty. wp_step. apply wp_assert_off; [done|]. do 3 wp_step. by rewrite empty_items.
Qed.
Lemma wp_intq_full q s Q : level_off s = true → intq_ok (the_queue q s) →
  Q (bool_decide (length (items (the_queue q s)) = 63%nat)) s → wp (intq_full q) s Q.
Proof.
  intros Ho Hx HQ. unfold intq_full. wp_step. apply wp_assert_off; [done|]. do 3 wp_step. by rewrite full_items.
Qed.
(** The condition that [v] waits for does not hold. *)
Definition must_wait (v : waiter) (x : intq) : bool :=
  match v with NotEmpty => bool_decide (items x = []) | NotFull => bool_decide (length (items x) = 63%nat) end.
Lemma wp_blocked q v s Q : level_off s = true → intq_ok (the_queue q s) →
  Q (must_wait v (the_queue q s)) s → wp (blocked q v) s Q.
Proof. intros. destruct v; [by apply wp_intq_empty|by apply wp_intq_full]. Qed.

Lemma wp_signal q v s Q :
  level_off s = true → intq_ok (set_waiter v None (the_queue q s)) → must_wait v (the_queue q s) = false →
  (∀ s', only_queue q s s' → the_queue q s' = set_waiter v None (the_queue q s) → Q tt s') →
  wp (signal q v) s Q.
Proof.
  intros Ho Hx Hb HQ. unfold signal. wp_step. apply wp_assert_off; [done|]. wp_step.
  assert (wp (blocked q v) s (λ b s', b = false ∧ s' = s)) as Hbl.
  { destruct v; unfold blocked, intq_empty, intq_full; wp_step; (apply wp_assert_off; [done|]); do 3 wp_step; (split; [|done]).
    - pose proof (empty_items _ Hx) as E. simpl in E. rewrite E. done.
    - pose proof (full_items _ Hx) as E. simpl in E. rewrite E. done. }
  eapply wp_mono; [exact Hbl|]. intros b s' [-> ->]. do 2 wp_step; [done|]. do 2 wp_step.
  destruct (the_waiter v (the_queue q s)) as [t|] eqn:Ew.
  - do 2 wp_step. unfold update_queue. wp_step. apply HQ.
    + by apply only_queue_set, only_queue_wake, only_queue_refl.
    + rewrite the_queue_set. by destruct q.
  - wp_step. apply HQ; [apply only_queue_refl|]. destruct (the_queue q s), v; simpl in *; by subst.
Qed.

Lemma intq_ok_lock o x : intq_ok x → intq_ok (set_lock o x).
Proof. by intros []. Qed.
(** The loop in front of an operation: it ends when the condition holds, and
    otherwise the thread sleeps. *)
Lemma wp_await me q v s Q :
  level_off s = true → intq_ok (the_queue q s) →
  (must_wait v (the_queue q s) = true → context s = false) →
  (∀ s', only_queue q s s' → intq_ok (the_queue q s') → items (the_queue q s') = items (the_queue q s) →
     Q (negb (must_wait v (the_queue q s))) s') →
  wp (await me q v) s Q.
Proof.
  intros Ho Hx Hc HQ. unfold await. do 2 wp_step. wp_step.
  assert (∀ Q', (∀ o, Q' tt (set_queue q (set_lock o (the_queue q s)) s)) →
    wp (if bool_decide (lock (the_queue q s) = Some me) then update_queue q (set_lock None) else mret tt) s Q') as Hl.
  { intros Q' HQ'. case_bool_decide as El.
    - unfold update_queue. wp_step. apply HQ'.
    - wp_step. specialize (HQ' (lock (the_queue q s))).
      by assert (set_queue q (set_lock (lock (the_queue q s)) (the_queue q s)) s = s) as E
        by (destruct q, s as [[] [] ? ? ? ? ? ?]; done); rewrite E in HQ'. }
  apply Hl. intros o. set (s1 := set_queue q (set_lock o (the_queue q s)) s).
  assert (the_queue q s1 = set_lock o (the_queue q s)) as E1 by apply the_queue_set.
  assert (level_off s1 = true ∧ context s1 = context s) as [Ho1 Hc1] by by unfold s1; destruct q.
  assert (only_queue q s s1) as S1 by apply only_queue_set, only_queue_refl.
  assert (must_wait v (the_queue q s1) = must_wait v (the_queue q s)) as Em by by rewrite E1; destruct v.
  wp_step. apply wp_blocked; [done|rewrite E1; by apply intq_ok_lock|]. rewrite Em.
  destruct (must_wait v (the_queue q s)) eqn:Eb; simpl in HQ.
  2: { wp_step. apply HQ; [done|rewrite E1; by apply intq_ok_lock|by rewrite E1]. }
  do 2 wp_step. do 2 wp_step; [by rewrite Hc1, Hc|]. do 2 wp_step. rewrite E1. simpl. destruct o as [t|].
  { wp_step. apply HQ; [done|rewrite E1; by apply intq_ok_lock|by rewrite E1]. }
  wp_step. unfold update_queue. wp_step. wp_step. set (s2 := set_queue q _ s1).
  assert (the_queue q s2 = set_lock (Some me) (the_queue q s)) as E2 by (unfold s2; by rewrite the_queue_set, E1).
  assert (level_off s2 = true ∧ context s2 = context s) as [Ho2 Hc2] by by unfold s2; destruct q.
  unfold wait. do 2 wp_step. do 2 wp_step; [by rewrite Hc2, Hc|]. wp_step. apply wp_assert_off; [done|]. wp_step.
  apply wp_blocked; [done|rewrite E2; by apply intq_ok_lock|]. rewrite E2. wp_step. wp_step; [by destruct v|].
  unfold update_queue. do 2 wp_step. rewrite E2. apply HQ.
  - by apply only_queue_set, only_queue_set.
  - rewrite the_queue_set. destruct Hx as [H1 H2 H3 H4 H5]. destruct v; simpl in Eb; apply bool_decide_eq_true in Eb.
    + by split.
    + by split.
  - rewrite the_queue_set. by destruct v.
Qed.
Lemma wp_intq_putc me q b s Q :
  level_off s = true → intq_ok (the_queue q s) →
  (length (items (the_queue q s)) = 63%nat → context s = false) →
  (∀ s', only_queue q s s' → intq_ok (the_queue q s') →
     if bool_decide (length (items (the_queue q s)) = 63%nat)
     then items (the_queue q s') = items (the_queue q s) → Q None s'
     else items (the_queue q s') = items (the_queue q s) ++ [u8 b] → Q (Some tt) s') →
  wp (intq_putc me q b) s Q.
Proof.
  intros Ho Hx Hc HQ. unfold intq_putc. wp_step. apply wp_assert_off; [done|]. wp_step.
  apply wp_await; [done|done|simpl; by rewrite bool_decide_eq_true|]. intros s1 S1 Hx1 E1. simpl.
  destruct (only_queue_off _ _ _ S1) as [Ho1 _]. rewrite Ho in Ho1.
  case_bool_decide as Ef; simpl.
  { wp_step. by apply HQ. }
  assert (length (items (the_queue q s1)) < 63)%nat as Hlt.
  { rewrite E1. pose proof (count_range (the_queue q s)). rewrite items_length in *. lia. }
  do 3 wp_step. pose proof Hx1 as [Hb Hh Ht He Hf].
  rewrite (proj2 (Z.leb_le _ _)), (proj2 (Z.ltb_lt _ _)) by lia. simpl. wp_step. wp_step.
  unfold update_queue. do 2 wp_step. change (mk_intq _ _ _ _ _ _) with (put_byte (u8 b) (the_queue q s1)).
  pose proof (items_put _ (u8 b) Hx1 Hlt) as Ei. apply wp_signal.
  - by destruct q.
  - rewrite the_queue_set. split; simpl; [by rewrite length_insert|rewrite next_mod by done; lia|done|done|].
    intros Hn. destruct (not_full (the_queue q s1)); [|done]. specialize (Hf ltac:(done)). lia.
  - rewrite the_queue_set. simpl. apply bool_decide_eq_false. rewrite Ei. by destruct (items (the_queue q s1)).
  - intros s2 S2 E2. rewrite the_queue_set in E2. wp_step. apply HQ.
    + unfold only_queue in *. rewrite S2, S1. by destruct q.
    + rewrite E2. split; simpl; [by rewrite length_insert|rewrite next_mod by done; lia|done|done|].
      intros Hn. destruct (not_full (the_queue q s1)); [|done]. specialize (Hf ltac:(done)). lia.
    + rewrite E2. change (items (set_waiter NotEmpty None (put_byte (u8 b) (the_queue q s1)))) with
        (items (put_byte (u8 b) (the_queue q s1))). by rewrite Ei, E1.
Qed.
Lemma wp_intq_getc me q s Q :
  level_off s = true → intq_ok (the_queue q s) →
  (items (the_queue q s) = [] → context s = false) →
  (∀ s', only_queue q s s' → intq_ok (the_queue q s') →
     match items (the_queue q s) with
     | [] => items (the_queue q s') = [] → Q None s'
     | b :: l => items (the_queue q s') = l → Q (Some b) s'
     end) →
  wp (intq_getc me q) s Q.
Proof.
  intros Ho Hx Hc HQ. unfold intq_getc. wp_step. apply wp_assert_off; [done|]. wp_step.
  apply wp_await; [done|done|simpl; by rewrite bool_decide_eq_true|]. intros s1 S1 Hx1 E1. simpl.
  destruct (only_queue_off _ _ _ S1) as [Ho1 _]. rewrite Ho in Ho1.
  case_bool_decide as Ef; simpl.
  { wp_step. rewrite Ef in HQ. apply HQ; [done|done|congruence]. }
  destruct (items_drop (the_queue q s1) Hx1) as (b & Eb & Ed); [congruence|].
  do 3 wp_step. pose proof Hx1 as [Hb Hh Ht He Hf].
  rewrite (proj2 (Z.ltb_ge _ _)) by lia. apply (wp_from_option _ b); [done|]. wp_step.
  unfold update_queue. do 2 wp_step. change (mk_intq _ _ _ _ _ _) with (drop_byte (the_queue q s1)).
  assert (length (items (drop_byte (the_queue q s1))) < 63)%nat as Hlt.
  { pose proof (count_range (the_queue q s1)). pose proof (items_length (the_queue q s1)) as El. rewrite Ed in El. simpl in El. lia. }
  assert (intq_ok (set_waiter NotFull None (drop_byte (the_queue q s1)))) as Hok.
  { split; simpl; [done|done|rewrite next_mod by done; lia| |done].
    intros Hn. destruct (not_empty (the_queue q s1)); [|done]. specialize (He ltac:(done)). congruence. }
  apply wp_signal.
  - by destruct q.
  - by rewrite the_queue_set.
  - rewrite the_queue_set. simpl. apply bool_decide_eq_false. lia.
  - intros s2 S2 E2. rewrite the_queue_set in E2. wp_step. rewrite <-E1, Ed in HQ. apply HQ.
    + unfold only_queue in *. rewrite S2, S1. by destruct q.
    + by rewrite E2.
    + by rewrite E2.
Qed.

(** ** A queue of bytes *)

(** The operations that threads make, and what they return; None when the thread
    goes to sleep. *)
Inductive queue_op := Put (b : Z) | Get.
Definition do_op q (o : Z * queue_op) : M S (option (option Z)) :=
  match o with
  | (me, Put b) => r ← intq_putc me q b; mret ((λ _, None) <$> r)
  | (me, Get) => r ← intq_getc me q; mret (Some <$> r)
  end.
Fixpoint do_ops q (l : list (Z * queue_op)) : M S (list (option (option Z))) :=
  match l with [] => mret [] | o :: l => r ← do_op q o; rs ← do_ops q l; mret (r :: rs) end.
(** The same on a list of at most 63 bytes. *)
Definition fifo_op (l : list Z) (o : queue_op) : list Z * option (option Z) :=
  match o with
  | Put b => if bool_decide (length l = 63%nat) then (l, None) else (l ++ [u8 b], Some None)
  | Get => match l with [] => ([], None) | b :: l => (l, Some (Some b)) end
  end.
Fixpoint fifo_ops (l : list Z) (os : list (Z * queue_op)) : list Z * list (option (option Z)) :=
  match os with
  | [] => (l, [])
  | (_, o) :: os => let '(l, r) := fifo_op l o in let '(l, rs) := fifo_ops l os in (l, r :: rs)
  end.

Lemma wp_do_op q o s Q :
  level_off s = true → context s = false → intq_ok (the_queue q s) →
  (∀ s', only_queue q s s' → intq_ok (the_queue q s') → items (the_queue q s') = (fifo_op (items (the_queue q s)) o.2).1 →
     Q (fifo_op (items (the_queue q s)) o.2).2 s') →
  wp (do_op q o) s Q.
Proof.
  intros Ho Hc Hx HQ. destruct o as [me [b|]]; simpl in *; wp_step.
  - apply wp_intq_putc; [done|done|done|]. intros s' S' Hx'. specialize (HQ s' S' Hx').
    case_bool_decide; intros E; wp_step; by apply HQ.
  - apply wp_intq_getc; [done|done|done|]. intros s' S' Hx'. specialize (HQ s' S' Hx').
    destruct (items (the_queue q s)); intros E; wp_step; by apply HQ.
Qed.
End queues.

(** ** The serial port *)

(** What the drivers rely on: [pending] are the bytes that will be received and
    [sent] those that have been transmitted; [dlab] is the latch that gives the first
    two registers another meaning, [ier] the interrupts that are enabled, and [busy]
    how often at most the port answers that it cannot take a byte yet. *)
Class Uart (U : Type) `{!UartOps U} := {
  pending : U → list Z;
  sent : U → list Z;
  dlab : U → bool;
  ier : U → Z;
  busy : U → nat;
  max_busy : nat;
  busy_bound u : (busy u ≤ max_busy)%nat;
  uart_lsr u v u' : inb LSR_REG u = (v, u') →
    pending u' = pending u ∧ sent u' = sent u ∧ dlab u' = dlab u ∧ ier u' = ier u ∧
    (Z.land v LSR_DR ≠ 0 → pending u ≠ []) ∧ (Z.land v LSR_THRE = 0 → (busy u' < busy u)%nat);
  uart_iir u v u' : inb IIR_REG u = (v, u') →
    pending u' = pending u ∧ sent u' = sent u ∧ dlab u' = dlab u ∧ ier u' = ier u;
  uart_rbr u b l v u' : dlab u = false → pending u = b :: l → inb RBR_REG u = (v, u') →
    v = b ∧ u8 b = b ∧ pending u' = l ∧ sent u' = sent u ∧ dlab u' = dlab u ∧ ier u' = ier u;
  uart_thr u v : dlab u = false → sent (outb THR_REG v u) = sent u ++ [v] ∧
    pending (outb THR_REG v u) = pending u ∧ dlab (outb THR_REG v u) = dlab u ∧ ier (outb THR_REG v u) = ier u;
  uart_ier u v : dlab u = false → ier (outb IER_REG v u) = v ∧
    pending (outb IER_REG v u) = pending u ∧ sent (outb IER_REG v u) = sent u ∧ dlab (outb IER_REG v u) = dlab u;
  uart_lcr u v : dlab (outb LCR_REG v u) = negb (Z.land v LCR_DLAB =? 0) ∧
    pending (outb LCR_REG v u) = pending u ∧ sent (outb LCR_REG v u) = sent u ∧ ier (outb LCR_REG v u) = ier u;
  uart_latch u r v : dlab u = true → r = LS_REG ∨ r = MS_REG →
    pending (outb r v u) = pending u ∧ sent (outb r v u) = sent u ∧ dlab (outb r v u) = dlab u ∧ ier (outb r v u) = ier u;
  uart_control u r v : r = FCR_REG ∨ r = MCR_REG →
    pending (outb r v u) = pending u ∧ sent (outb r v u) = sent u ∧ dlab (outb r v u) = dlab u ∧ ier (outb r v u) = ier u
}.

Section serial.
Context {U : Type} `{Uart U}.
Notation S := (dev U).
Implicit Types (s : S) (u : U).

(** The bytes to send, and those received, in order. *)
Definition output s : list Z := sent (uart s) ++ items (txq s).
Definition input s : list Z := items (buffer s) ++ pending (uart s).
(** The drivers are running, with interrupts off. *)
Record serial_ok s : Prop := {
  so_buffer : intq_ok (buffer s);
  so_txq : intq_ok (txq s);
  so_bytes : Forall (λ b, u8 b = b) (items (txq s));
  so_dlab : dlab (uart s) = false;
  so_mode : mode s = QUEUE
}.
(** The interrupts that are needed: to send, and to receive while there is room. *)
Definition needed s : Z :=
  (if bool_decide (items (txq s) = []) then 0 else 2) + (if bool_decide (length (items (buffer s)) = 63%nat) then 0 else 1).

Lemma wp_out_port r v s Q : Q tt (set_uart (outb r v (uart s)) s) → wp (out_port r v) s Q.
Proof. intros HQ. unfold out_port. by wp_step. Qed.
Lemma wp_in_port r s Q : (∀ v u', inb r (uart s) = (v, u') → Q v (set_uart u' s)) → wp (in_port r) s Q.
Proof. intros HQ. unfold in_port. do 2 wp_step. destruct (inb r (uart s)) as [v u']. do 3 wp_step. by apply HQ. Qed.
Lemma wp_input_full s Q : level_off s = true → intq_ok (buffer s) →
  Q (bool_decide (length (items (buffer s)) = 63%nat)) s → wp input_full s Q.
Proof. intros. unfold input_full. wp_step. apply wp_assert_off; [done|]. by apply wp_intq_full. Qed.
Lemma wp_write_ier s Q : level_off s = true → serial_ok s →
  (∀ u', pending u' = pending (uart s) → sent u' = sent (uart s) → dlab u' = false → ier u' = needed s → Q tt (set_uart u' s)) →
  wp write_ier s Q.
Proof.
  intros Ho [Hb Ht _ Hd Hm] HQ. unfold write_ier. wp_step. apply wp_assert_off; [done|]. wp_step.
  apply wp_intq_empty; [done|done|]. wp_step. apply wp_input_full; [done|done|]. apply wp_out_port. simpl.
  match goal with |- Q tt (set_uart (outb _ ?v _) _) => destruct (uart_ier (uart s) v Hd) as (E1 & E2 & E3 & E4) end.
  apply HQ; [done|done|congruence|]. rewrite E1. unfold needed. by repeat case_bool_decide.
Qed.
Lemma wp_serial_notify s Q : level_off s = true → serial_ok s →
  (∀ u', pending u' = pending (uart s) → sent u' = sent (uart s) → dlab u' = false → ier u' = needed s → Q tt (set_uart u' s)) →
  wp serial_notify s Q.
Proof.
  intros Ho Hok HQ. unfold serial_notify. wp_step. apply wp_assert_off; [done|]. do 2 wp_step. rewrite (so_mode _ Hok).
  by apply wp_write_ier.
Qed.
Lemma wp_poll_loop fuel s Q : (busy (uart s) < fuel)%nat →
  (∀ u', pending u' = pending (uart s) → sent u' = sent (uart s) → dlab u' = dlab (uart s) → Q tt (set_uart u' s)) →
  wp (poll_loop fuel) s Q.
Proof.
  revert s Q. induction fuel as [|fuel IH]; [lia|]. intros s Q Hf HQ. cbn [poll_loop]. wp_step. apply wp_in_port.
  intros v u' E. apply uart_lsr in E as (E1 & E2 & E3 & _ & _ & Hbusy). destruct (Z.eqb_spec (Z.land v LSR_THRE) 0) as [Ez|].
  - apply IH; [simpl; specialize (Hbusy Ez); lia|]. simpl. intros u2 F1 F2 F3. apply HQ; congruence.
  - wp_step. by apply HQ.
Qed.
Lemma wp_putc_poll fuel b s Q : level_off s = true → (max_busy < fuel)%nat → dlab (uart s) = false →
  (∀ u', pending u' = pending (uart s) → sent u' = sent (uart s) ++ [u8 b] → dlab u' = false → Q tt (set_uart u' s)) →
  wp (putc_poll fuel b) s Q.
Proof.
  intros Ho Hf Hd HQ. unfold putc_poll. wp_step. apply wp_assert_off; [done|]. wp_step.
  apply wp_poll_loop; [pose proof (busy_bound (uart s)); lia|]. intros u' E1 E2 E3. apply wp_out_port. simpl.
  destruct (uart_thr u' (u8 b)) as (F1 & F2 & F3 & _); [congruence|]. apply HQ; congruence.
Qed.

Lemma only_txq s s' : only_queue Txq s s' →
  buffer s' = buffer s ∧ mode s' = mode s ∧ uart s' = uart s ∧ level_off s' = level_off s ∧ context s' = context s.
Proof. unfold only_queue. intros ->. done. Qed.
Lemma only_buffer s s' : only_queue Buffer s s' →
  txq s' = txq s ∧ mode s' = mode s ∧ uart s' = uart s ∧ level_off s' = level_off s ∧ context s' = context s.
Proof. unfold only_queue. intros ->. done. Qed.
(** A byte is put into the queue, and the port told. *)
Lemma wp_enqueue me b old s Q :
  level_off s = true → serial_ok s → (length (items (txq s)) < 63)%nat →
  (∀ s', serial_ok s' → level_off s' = old → output s' = output s ++ [u8 b] → input s' = input s →
     ier (uart s') = needed s' → Q (Some tt) s') →
  wp (r ← intq_putc me Txq b;
      match r with None => mret None | Some _ => write_ier;; intr_set_level old;; mret (Some tt) end) s Q.
Proof.
  intros Ho [Hb Ht Hby Hd Hm] Hl HQ. wp_step. apply wp_intq_putc; [done|done|simpl; lia|]. intros s1 S1 Hx1. simpl in *.
  rewrite bool_decide_false by lia. intros E1. destruct (only_txq _ _ S1) as (Eb & Em & Eu & Eo & _).
  assert (serial_ok s1) as Hok1.
  { split; [by rewrite Eb|done| |congruence|congruence]. rewrite E1. apply Forall_app. split; [done|].
    repeat constructor. unfold wrap. by rewrite Z.mod_mod. }
  wp_step. apply wp_write_ier; [congruence|done|]. intros u' P1 P2 P3 P4. wp_step. unfold intr_set_level. wp_step. wp_step.
  apply HQ; [|done| | |done].
  - destruct Hok1. by split.
  - unfold output. simpl. rewrite P2, E1, Eu. by rewrite app_assoc.
  - unfold input. simpl. by rewrite P1, Eb, Eu.
Qed.
(** A thread that sends a byte appends it to the bytes that leave through the
    serial port, whether it is queued or, when the queue is full and interrupts may
    not be enabled, the oldest byte of the queue is sent by polling; if it may wait
    for room it goes to sleep.  The port is told which interrupts are needed. *)
Theorem serial_putc_correct fuel me b s :
  serial_ok s → context s = false → (max_busy < fuel)%nat →
  wp (serial_putc fuel me b) s (λ r s',
    serial_ok s' ∧ input s' = input s ∧
    match r with
    | Some _ => output s' = output s ++ [u8 b] ∧ level_off s' = level_off s ∧ ier (uart s') = needed s'
    | None => output s' = output s ∧ level_off s = false ∧ length (items (txq s)) = 63%nat
    end).
Proof.
  intros Hok Hc Hf. unfold serial_putc, intr_disable. wp_step. do 3 wp_step. do 2 wp_step. do 2 wp_step. simpl.
  rewrite (so_mode _ Hok). set (s0 := set_level true s).
  assert (serial_ok s0 ∧ level_off s0 = true ∧ context s0 = false ∧ output s0 = output s ∧ input s0 = input s) as
    (Hok0 & Ho0 & Hc0 & Eo & Ei) by (split_and!; [destruct Hok; by split|done..]).
  assert (∀ s', serial_ok s' → level_off s' = level_off s → output s' = output s0 ++ [u8 b] → input s' = input s0 →
    ier (uart s') = needed s' → serial_ok s' ∧ input s' = input s ∧
      output s' = output s ++ [u8 b] ∧ level_off s' = level_off s ∧ ier (uart s') = needed s') as Hend by (intros; rewrite <-Eo, <-Ei; done).
  wp_step. destruct (level_off s) eqn:El.
  - apply wp_intq_full; [done|apply Hok0|]. simpl. case_bool_decide as Ef.
    + wp_step. wp_step. apply wp_intq_getc; [done|apply Hok0|done|]. simpl.
      destruct (items (txq s)) as [|c l] eqn:Eit; [done|]. intros s1 S1 Hx1 E1.
      destruct (only_txq _ _ S1) as (Eb & Em & Eu & El1 & Ec). destruct Hok0 as [Hb Ht Hby Hd Hm].
      change (txq s0) with (txq s) in Hby. rewrite Eit in Hby. apply Forall_cons in Hby as [Hc8 Hl8].
      apply wp_putc_poll; [congruence|done|congruence|]. intros u' P1 P2 P3.
      apply wp_enqueue; [simpl; congruence|split; simpl; congruence|simpl; rewrite E1; simpl in Ef; lia|].
      intros s' H1 H2 H3 H4 H5. apply Hend; [done|done| | |done].
      * rewrite H3. unfold output. simpl. rewrite P2, E1, Hc8, Eu. change (txq s0) with (txq s). rewrite Eit.
        by rewrite <-!app_assoc.
      * rewrite H4. unfold input. simpl. by rewrite P1, Eb, Eu.
    + wp_step. wp_step. apply wp_enqueue; [done|done| |].
      { change (txq s0) with (txq s). pose proof (count_range (txq s)). rewrite items_length in *. lia. }
      intros s' H1 H2 H3 H4 H5. by apply Hend.
  - wp_step. wp_step. wp_step. destruct (decide (length (items (txq s)) = 63%nat)) as [E63|Hn].
    + wp_step. apply wp_intq_putc; [done|apply Hok0|done|]. intros s1 S1 Hx1. simpl. rewrite bool_decide_true by done.
      intros E1. wp_step. destruct (only_txq _ _ S1) as (Eb & Em & Eu & _). destruct Hok0 as [Hb Ht Hby Hd Hm].
      split; [split; [by rewrite Eb|done| |congruence|congruence]|]. { simpl in E1. by rewrite E1. }
      unfold input, output. simpl in *. by rewrite Eb, Eu, E1.
    + apply wp_enqueue; [done|done| |].
      { change (txq s0) with (txq s). pose proof (count_range (txq s)). rewrite items_length in *. lia. }
      intros s' H1 H2 H3 H4 H5. by apply Hend.
Qed.

(** A byte is received into the input buffer. *)
Lemma wp_input_putc me b s Q :
  level_off s = true → serial_ok s → (length (items (buffer s)) < 63)%nat →
  (∀ s', serial_ok s' → level_off s' = true → context s' = context s → items (buffer s') = items (buffer s) ++ [u8 b] →
     pending (uart s') = pending (uart s) → output s' = output s → keyboard s' = keyboard s →
     ier (uart s') = needed s' → Q tt s') →
  wp (input_putc me b) s Q.
Proof.
  intros Ho [Hb Ht Hby Hd Hm] Hl HQ. unfold input_putc. wp_step. apply wp_assert_off; [done|]. wp_step.
  apply wp_intq_full; [done|done|]. simpl. rewrite bool_decide_false by lia. do 2 wp_step; [done|]. wp_step.
  apply wp_intq_putc; [done|done|simpl; lia|]. intros s1 S1 Hx1. simpl in *. rewrite bool_decide_false by lia. intros E1.
  assert (keyboard s1 = keyboard s) as Ek by by rewrite S1.
  destruct (only_buffer _ _ S1) as (Et & Em & Eu & Eo & Ec).
  assert (serial_ok s1) as Hok1 by (split; congruence || (rewrite ?Et; done)).
  apply wp_serial_notify; [congruence|done|]. intros u' P1 P2 P3 P4. apply HQ; [| |done|done| | |done|done].
  - destruct Hok1. by split.
  - simpl. congruence.
  - simpl. congruence.
  - unfold output. simpl. by rewrite P2, Et, Eu.
Qed.
Lemma wp_receive_loop n me s Q :
  level_off s = true → serial_ok s → (63 - length (items (buffer s)) < n)%nat →
  (∀ s', serial_ok s' → level_off s' = true → context s' = context s → input s' = input s → output s' = output s → Q tt s') →
  wp (receive_loop n me) s Q.
Proof.
  revert s Q. induction n as [|n IH]; [lia|]. intros s Q Ho Hok Hn HQ. cbn [receive_loop]. wp_step.
  apply wp_input_full; [done|apply Hok|]. case_bool_decide as Ef; [wp_step; by apply HQ|].
  assert (length (items (buffer s)) < 63)%nat as Hl.
  { pose proof (count_range (buffer s)). rewrite items_length in *. lia. }
  wp_step. apply wp_in_port. intros v u1 E1. apply uart_lsr in E1 as (P1 & P2 & P3 & _ & Hdr & _).
  assert (serial_ok (set_uart u1 s)) as Hok1 by (destruct Hok; split; simpl; congruence || done).
  destruct (Z.eqb_spec (Z.land v LSR_DR) 0) as [Ez|Hne].
  { wp_step. apply HQ; [done|done|done| |]; unfold input, output; simpl; congruence. }
  destruct (pending (uart s)) as [|b l] eqn:Ep; [by destruct (Hdr Hne)|].
  wp_step. apply wp_in_port. simpl. intros c u2 E2.
  destruct (uart_rbr u1 b l c u2) as (-> & H8 & R1 & R2 & R3 & _); [apply Hok1|done|done|]. wp_step.
  apply wp_input_putc; [done|destruct Hok1; split; simpl in *; congruence || done|done|].
  intros s3 Hok3 Ho3 Hc3 E3 E4 E5 _ _. simpl in *. apply IH; [done|done|rewrite E3, length_app; simpl; lia|].
  intros s' ? ? Hc' Ei Eo. apply HQ; [done|done|congruence| |].
  - rewrite Ei. unfold input. rewrite E3, E4, R1, Ep, H8. by rewrite <-app_assoc.
  - rewrite Eo, E5. unfold output. simpl. congruence.
Qed.
Lemma wp_transmit_loop n me s Q :
  level_off s = true → serial_ok s → (length (items (txq s)) < n)%nat →
  (∀ s', serial_ok s' → level_off s' = true → context s' = context s → input s' = input s → output s' = output s → Q tt s') →
  wp (transmit_loop n me) s Q.
Proof.
  revert s Q. induction n as [|n IH]; [lia|]. intros s Q Ho Hok Hn HQ. cbn [transmit_loop]. wp_step.
  apply wp_intq_empty; [done|apply Hok|]. simpl. case_bool_decide as Ef; [wp_step; by apply HQ|].
  wp_step. apply wp_in_port. intros v u1 E1. apply uart_lsr in E1 as (P1 & P2 & P3 & _).
  assert (serial_ok (set_uart u1 s)) as Hok1 by (destruct Hok; split; simpl; congruence || done).
  destruct (Z.eqb_spec (Z.land v LSR_THRE) 0) as [Ez|Hne].
  { wp_step. apply HQ; [done|done|done| |]; unfold input, output; simpl; congruence. }
  wp_step. apply wp_intq_getc; [done|apply Hok1|done|]. simpl. destruct (items (txq s)) as [|c l] eqn:Eit; [done|].
  intros s1 S1 Hx1 E1. destruct (only_txq _ _ S1) as (Eb & Em & Eu & Eo & Ec). destruct Hok1 as [Hb Ht Hby Hd Hm]. simpl in *.
  rewrite Eit in Hby. apply Forall_cons in Hby as [_ Hl8]. wp_step. apply wp_out_port.
  destruct (uart_thr (uart s1) c) as (T1 & T2 & T3 & _); [congruence|].
  apply IH; [simpl; congruence| |simpl; rewrite E1; simpl in *; lia|].
  { split; simpl; [by rewrite Eb|done|by rewrite E1|congruence|congruence]. }
  simpl. intros s' ? ? Hc' Ei Eo'. apply HQ; [done|done|congruence| |].
  - rewrite Ei. unfold input. simpl. by rewrite T2, Eb, Eu, P1.
  - rewrite Eo'. unfold output. simpl. rewrite T1, E1, Eu, P2, Eit. by rewrite <-app_assoc.
Qed.

(** ** The keyboard *)

Definition shifted (k : kbd) : bool := left_shift k || right_shift k.
Definition plain (k : kbd) : bool := negb (left_ctrl k || right_ctrl k || left_alt k || right_alt k).
(** The keys of a PC keyboard, by letter. *)
Definition letter_codes : list Z :=
  [0x1e; 0x30; 0x2e; 0x20; 0x12; 0x21; 0x22; 0x23; 0x17; 0x24; 0x25; 0x26; 0x32; 0x31; 0x18; 0x19; 0x10; 0x13; 0x1f;
   0x14; 0x16; 0x2f; 0x11; 0x2d; 0x15; 0x2c].
Lemma letter_key j code : letter_codes !! j = Some code →
  0 < code < 0x3a ∧ map_key invariant_keymap code = Some (65 + Z.of_nat j).
Proof.
  intros Hj. pose proof (lookup_lt_Some _ _ _ Hj) as Hl. simpl in Hl.
  do 26 (destruct j as [|j]; [injection Hj as <-; by vm_compute|]). lia.
Qed.
Lemma press_code code : 0 < code < 0x3a →
  (code =? 0xe0) = false ∧ Z.land code 0x80 = 0 ∧ Z.land code (u32 (Z.lnot 0x80)) = code.
Proof.
  intros Hc. assert (code ∈ seqZ 1 57) as Hin by (apply elem_of_seqZ; lia).
  assert (forallb (λ x, negb (x =? 0xe0) && (Z.land x 0x80 =? 0) && (Z.land x (u32 (Z.lnot 0x80)) =? x)) (seqZ 1 57)
    = true) as Hall by (vm_compute; reflexivity).
  rewrite forallb_forall in Hall. apply list_elem_of_In, Hall in Hin.
  apply andb_true_iff in Hin as [[H1%negb_true_iff H2%Z.eqb_eq]%andb_true_iff H3%Z.eqb_eq]. done.
Qed.
(** Pressing a letter key puts that letter into the input buffer, as a capital when
    exactly one of Shift and Caps Lock is on and as a small letter otherwise, and
    counts one key; when the buffer is full the key is dropped. *)
Theorem keyboard_letter me j code b1 s :
  letter_codes !! j = Some code → level_off s = true → serial_ok s → plain (keyboard s) = true →
  wp (keyboard_interrupt me code b1) s (λ reboot s',
    reboot = false ∧ serial_ok s' ∧ output s' = output s ∧
    if bool_decide (length (items (buffer s)) = 63%nat) then s' = s
    else items (buffer s') = items (buffer s) ++
           [if xorb (shifted (keyboard s)) (caps_lock (keyboard s)) then 65 + Z.of_nat j else 97 + Z.of_nat j] ∧
         keyboard s' = count_key (keyboard s)).
Proof.
  intros Hj Ho Hok Hp. destruct (letter_key j code Hj) as [Hc Hk]. destruct (press_code code Hc) as (C1 & C2 & C3).
  pose proof (lookup_lt_Some _ _ _ Hj) as Hl. simpl in Hl.
  assert (left_ctrl (keyboard s) || right_ctrl (keyboard s) = false ∧ left_alt (keyboard s) || right_alt (keyboard s) = false) as [Ec Ea].
  { unfold plain in Hp. destruct (left_ctrl _), (right_ctrl _), (left_alt _), (right_alt _); done. }
  unfold keyboard_interrupt. do 2 wp_step. rewrite C1, C2, C3, Hk, Ec, Ea. rewrite (proj2 (Z.eqb_neq code 0x3a)) by lia.
  cbn [negb Z.eqb]. rewrite !andb_false_r, !andb_false_l. wp_step. apply wp_input_full; [done|apply Hok|].
  case_bool_decide as Ef; cbn [negb]; [wp_step; done|].
  assert (length (items (buffer s)) < 63)%nat as Hlt.
  { pose proof (count_range (buffer s)). rewrite items_length in *. lia. }
  do 2 wp_step. wp_step. apply wp_input_putc; [done|by destruct Hok|done|].
  intros s' Hok' Ho' _ E1 _ Eo Ek _. wp_step. split_and!; [done|done|done| |done]. rewrite E1. simpl. do 2 f_equal.
  unfold shifted, tolower. rewrite (proj2 (Z.leb_le _ _)), (proj2 (Z.leb_le _ _)) by lia.
  destruct (left_shift (keyboard s) || right_shift (keyboard s)), (caps_lock (keyboard s)); simpl; apply wrap_small || rewrite wrap_small; lia.
Qed.
End serial.

(** ** A port *)

Section port.
(** After each byte the port answers once that it is busy. *)
Record port := mk_port { rx : list Z; tx : list Z; latch : bool; enabled : Z; ready : bool }.
Definition port_inb (r : Z) (u : port) : Z * port :=
  if r =? LSR_REG then
    (Z.lor (if bool_decide (rx u = []) then 0 else LSR_DR) (if ready u then LSR_THRE else 0),
     mk_port (rx u) (tx u) (latch u) (enabled u) true)
  else if (r =? RBR_REG) && negb (latch u) then
    match rx u with
    | [] => (0, u)
    | b :: l => (u8 b, mk_port l (tx u) (latch u) (enabled u) (ready u))
    end
  else (0, u).
Definition port_outb (r v : Z) (u : port) : port :=
  if r =? LCR_REG then mk_port (rx u) (tx u) (negb (Z.land v LCR_DLAB =? 0)) (enabled u) (ready u)
  else if latch u then u
  else if r =? THR_REG then mk_port (rx u) (tx u ++ [v]) (latch u) (enabled u) false
  else if r =? IER_REG then mk_port (rx u) (tx u) (latch u) v (ready u)
  else u.
#[local] Instance port_ops : UartOps port := { inb := port_inb; outb := port_outb }.
#[local] Program Instance port_uart : Uart port := {
  pending u := u8 <$> rx u;
  sent := tx;
  dlab := latch;
  ier := enabled;
  busy u := if ready u then 0%nat else 1%nat;
  max_busy := 1%nat
}.
Next Obligation. intros u. simpl. destruct (ready u); lia. Qed.
Next Obligation.
  intros u v u' [= <- <-]. simpl. split_and!; try done.
  - destruct (rx u); [|done]. rewrite bool_decide_true by done. by destruct (ready u).
  - destruct (rx u), (ready u); simpl; rewrite ?bool_decide_true, ?bool_decide_false by done; simpl; try done; lia.
Qed.
Next Obligation. by intros u v u' [= <- <-]. Qed.
Next Obligation.
  intros u b l v u' Hd Hp. unfold inb, port_ops, port_inb. simpl in *. rewrite Hd. destruct (rx u) as [|c r]; [done|].
  simpl in *. injection Hp as <- <-. intros [= <- <-]. simpl. unfold wrap. rewrite Z.mod_mod by done. done.
Qed.
Next Obligation. intros u v Hd. unfold outb, port_ops, port_outb. simpl in *. by rewrite Hd. Qed.
Next Obligation. intros u v Hd. unfold outb, port_ops, port_outb. simpl in *. by rewrite Hd. Qed.
Next Obligation. done. Qed.
Next Obligation. intros u r v Hd [-> | ->]; unfold outb, port_ops, port_outb; simpl in *; by rewrite Hd. Qed.
Next Obligation. intros u r v [-> | ->]; unfold outb, port_ops, port_outb; simpl in *; by destruct (latch u) eqn:E. Qed.

Definition no_keys : kbd := mk_kbd false false false false false false false 0.
Definition empty_queue : intq := mk_intq None None None (replicate 64 0) 60 60.
(** Interrupts off, in a thread or a handler; three bytes have arrived. *)
Definition ex_dev (handler : bool) : dev port :=
  mk_dev empty_queue empty_queue QUEUE no_keys true handler [] (mk_port [104; 105; 33] [] false 1 true).
Lemma ex_serial_ok h : serial_ok (ex_dev h).
Proof. split; [by split|by split|constructor|done|done]. Qed.

Lemma serial_putc_correct_witness :
  wp (serial_putc 2 5 65) (ex_dev false) (λ _ s', serial_ok s' ∧ output s' = [65] ∧ ier (uart s') = needed s').
Proof.
  eapply wp_mono; [apply (serial_putc_correct 2 5 65 (ex_dev false))|].
  - apply ex_serial_ok.
  - reflexivity.
  - simpl. lia.
  - intros [[]|] s' (Hok & _ & Hr); [|destruct Hr as (_ & E & _); discriminate E]. destruct Hr as (Ho & _ & Hi).
    split; [exact Hok|]. split; [exact Ho|exact Hi].
Defined.
(** The key Q. *)
Lemma keyboard_letter_witness :
  wp (keyboard_interrupt 5 0x10 0) (ex_dev true) (λ _ s', items (buffer s') = [113]).
Proof.
  eapply wp_mono; [apply (keyboard_letter 5 16 0x10 0 (ex_dev true))|].
  - reflexivity.
  - reflexivity.
  - apply ex_serial_ok.
  - reflexivity.
  - intros r s' (_ & _ & _ & Hk). rewrite bool_decide_false in Hk by (vm_compute; discriminate). exact (proj1 Hk).
Defined.
End port.
