(* ===== verification/Segments.v ===== *)
(** * Descriptor tables: userprog/gdt.c and the IDT of threads/interrupt.c

    The descriptors are the 64-bit words that the code computes.  The theorems
    decode them as the processor does ([IA32-v3a] 3.4.5 and 5.11). *)

From stdpp Require Import strings.
From S2P Require Import Prelude.
Local Open Scope Z_scope.

Definition SEL_NULL : Z := 0x00.
Definition SEL_KCSEG : Z := 0x08.
Definition SEL_KDSEG : Z := 0x10.
Definition SEL_UCSEG : Z := 0x1B.
Definition SEL_UDSEG : Z := 0x23.
Definition SEL_TSS : Z := 0x28.
Definition SEL_CNT : nat := 6.
Inductive seg_class := CLS_SYSTEM | CLS_CODE_DATA.
Inductive seg_granularity := GRAN_BYTE | GRAN_PAGE.
Definition class_no (c : seg_class) : Z := match c with CLS_SYSTEM => 0 | CLS_CODE_DATA => 1 end.
Definition gran_no (g : seg_granularity) : Z := match g with GRAN_BYTE => 0 | GRAN_PAGE => 1 end.

(** The tables and what is registered in them, the registers of the processor that
    point to them, the bytes written to the interrupt controllers, and the messages
    printed for unexpected interrupts.  A handler and a stub are addresses, and a
    missing handler is null. *)
Record tables := mk_tables {
  gdt : list Z; idt : list Z; intr_handlers : list Z; intr_names : list string; unexpected_cnt : list Z;
  gdtr : Z; tr : Z; idtr : Z; ports : list (Z * Z); messages : list (Z * string) }.
Definition INTR_CNT : nat := 256.
Definition PIC0_CTRL : Z := 0x20.
Definition PIC0_DATA : Z := 0x21.
Definition PIC1_CTRL : Z := 0xa0.
Definition PIC1_DATA : Z := 0xa1.

Section descriptors.
Context {S : Type}.

Definition seg_e0 (base limit : Z) : Z := Z.lor (Z.land limit 0xffff) (u32 (Z.shiftl base 16)).
Definition seg_e1 (base limit class type dpl granularity : Z) : Z :=
  u32 (Z.lor (Z.lor (Z.lor (Z.lor (Z.lor (Z.lor (Z.lor (Z.lor
    (Z.land (Z.shiftr base 16) 0xff)
    (Z.shiftl type 8))
    (Z.shiftl class 12))
    (Z.shiftl dpl 13))
    (Z.shiftl 1 15))
    (Z.land limit 0xf0000))
    (Z.shiftl 1 22))
    (Z.shiftl granularity 23))
    (Z.land base 0xff000000)).
Definition make_seg_desc (base limit : Z) (class : seg_class) (type dpl : Z) (granularity : seg_granularity) : M S Z :=
  assert (limit <=? 0xfffff);;
  assert ((0 <=? type) && (type <=? 15));;
  assert ((0 <=? dpl) && (dpl <=? 3));;
  mret (Z.lor (seg_e0 base limit)
          (u64 (Z.shiftl (seg_e1 base limit (class_no class) type dpl (gran_no granularity)) 32))).
Definition make_code_desc (dpl : Z) : M S Z := make_seg_desc 0 0xfffff CLS_CODE_DATA 10 dpl GRAN_PAGE.
Definition make_data_desc (dpl : Z) : M S Z := make_seg_desc 0 0xfffff CLS_CODE_DATA 2 dpl GRAN_PAGE.
Definition make_tss_desc (laddr : Z) : M S Z := make_seg_desc (u32 laddr) 0x67 CLS_SYSTEM 9 0 GRAN_BYTE.
Definition make_gdtr_operand (limit base : Z) : Z := Z.lor limit (u64 (Z.shiftl (u32 base) 16)).

Definition gate_e0 (function : Z) : Z := Z.lor (Z.land function 0xffff) (Z.shiftl SEL_KCSEG 16).
Definition gate_e1 (function dpl type : Z) : Z :=
  u32 (Z.lor (Z.lor (Z.lor (Z.lor (Z.land function 0xffff0000) (Z.shiftl 1 15)) (u32 (Z.shiftl dpl 13)))
    (Z.shiftl 0 12)) (u32 (Z.shiftl type 8))).
Definition make_gate (function dpl type : Z) : M S Z :=
  assert (negb (function =? 0));;
  assert ((0 <=? dpl) && (dpl <=? 3));;
  assert ((0 <=? type) && (type <=? 15));;
  mret (Z.lor (gate_e0 function) (u64 (Z.shiftl (gate_e1 function dpl type) 32))).
Definition make_intr_gate (function dpl : Z) : M S Z := make_gate function dpl 14.
Definition make_trap_gate (function dpl : Z) : M S Z := make_gate function dpl 15.
Definition make_idtr_operand (limit base : Z) : Z := Z.lor limit (u64 (Z.shiftl (u32 base) 16)).
End descriptors.

Section tables.
(** The table of the assembly stubs, and the addresses of the task state segment and
    of the two tables. *)
Context (intr_stubs : Z → Z) (tss gdt_address idt_address : Z).
Notation T := tables.

Definition set_gdt (sel d : Z) : M T unit := modify (λ t,
  mk_tables (<[Z.to_nat (sel / 8) := d]> (gdt t)) (idt t) (intr_handlers t) (intr_names t) (unexpected_cnt t)
    (gdtr t) (tr t) (idtr t) (ports t) (messages t)).
Definition set_gate (vec g : Z) : M T unit := modify (λ t,
  mk_tables (gdt t) (<[Z.to_nat vec := g]> (idt t)) (intr_handlers t) (intr_names t) (unexpected_cnt t)
    (gdtr t) (tr t) (idtr t) (ports t) (messages t)).
Definition set_handler (vec h : Z) : M T unit := modify (λ t,
  mk_tables (gdt t) (idt t) (<[Z.to_nat vec := h]> (intr_handlers t)) (intr_names t) (unexpected_cnt t)
    (gdtr t) (tr t) (idtr t) (ports t) (messages t)).
Definition set_name (vec : Z) (name : string) : M T unit := modify (λ t,
  mk_tables (gdt t) (idt t) (intr_handlers t) (<[Z.to_nat vec := name]> (intr_names t)) (unexpected_cnt t)
    (gdtr t) (tr t) (idtr t) (ports t) (messages t)).
Definition set_count (vec n : Z) : M T unit := modify (λ t,
  mk_tables (gdt t) (idt t) (intr_handlers t) (intr_names t) (<[Z.to_nat vec := n]> (unexpected_cnt t))
    (gdtr t) (tr t) (idtr t) (ports t) (messages t)).
(** The instructions lgdt and ltr, and lidt. *)
Definition load_gdt (operand sel : Z) : M T unit := modify (λ t,
  mk_tables (gdt t) (idt t) (intr_handlers t) (intr_names t) (unexpected_cnt t)
    operand sel (idtr t) (ports t) (messages t)).
Definition lidt (operand : Z) : M T unit := modify (λ t,
  mk_tables (gdt t) (idt t) (intr_handlers t) (intr_names t) (unexpected_cnt t)
    (gdtr t) (tr t) operand (ports t) (messages t)).
Definition outb (port v : Z) : M T unit := modify (λ t,
  mk_tables (gdt t) (idt t) (intr_handlers t) (intr_names t) (unexpected_cnt t)
    (gdtr t) (tr t) (idtr t) (ports t ++ [(port, v)]) (messages t)).
Definition message (vec : Z) (name : string) : M T unit := modify (λ t,
  mk_tables (gdt t) (idt t) (intr_handlers t) (intr_names t) (unexpected_cnt t)
    (gdtr t) (tr t) (idtr t) (ports t) (messages t ++ [(vec, name)])).

Definition gdt_init : M T unit :=
  set_gdt SEL_NULL 0;;
  d ← make_code_desc 0; set_gdt SEL_KCSEG d;;
  d ← make_data_desc 0; set_gdt SEL_KDSEG d;;
  d ← make_code_desc 3; set_gdt SEL_UCSEG d;;
  d ← make_data_desc 3; set_gdt SEL_UDSEG d;;
  assert (negb (tss =? 0));;
  d ← make_tss_desc tss; set_gdt SEL_TSS d;;
  load_gdt (make_gdtr_operand (Z.of_nat SEL_CNT * 8 - 1) gdt_address) SEL_TSS.

Definition pic_init : M T unit :=
  outb PIC0_DATA 0xff;; outb PIC1_DATA 0xff;;
  outb PIC0_CTRL 0x11;; outb PIC0_DATA 0x20;; outb PIC0_DATA 0x04;; outb PIC0_DATA 0x01;;
  outb PIC1_CTRL 0x11;; outb PIC1_DATA 0x28;; outb PIC1_DATA 0x02;; outb PIC1_DATA 0x01;;
  outb PIC0_DATA 0x00;; outb PIC1_DATA 0x00.
Definition pic_end_of_interrupt (irq : Z) : M T unit :=
  assert ((0x20 <=? irq) && (irq <? 0x30));;
  outb 0x20 0x20;;
  if 0x28 <=? irq then outb 0xa0 0x20 else mret tt.

(** for (i = 0; i < INTR_CNT; i++), [n] iterations left. *)
Fixpoint idt_loop (n : nat) (i : Z) : M T unit :=
  match n with
  | O => mret tt
  | S n => g ← make_intr_gate (intr_stubs i) 0; set_gate i g;; idt_loop n (i + 1)
  end.
Fixpoint names_loop (n : nat) (i : Z) : M T unit :=
  match n with O => mret tt | S n => set_name i "unknown";; names_loop n (i + 1) end.
Definition exception_names : list (Z * string) :=
  [(0, "#DE Divide Error"); (1, "#DB Debug Exception"); (2, "NMI Interrupt"); (3, "#BP Breakpoint Exception");
   (4, "#OF Overflow Exception"); (5, "#BR BOUND Range Exceeded Exception"); (6, "#UD Invalid Opcode Exception");
   (7, "#NM Device Not Available Exception"); (8, "#DF Double Fault Exception"); (9, "Coprocessor Segment Overrun");
   (10, "#TS Invalid TSS Exception"); (11, "#NP Segment Not Present"); (12, "#SS Stack Fault Exception");
   (13, "#GP General Protection Exception"); (14, "#PF Page-Fault Exception"); (16, "#MF x87 FPU Floating-Point Error");
   (17, "#AC Alignment Check Exception"); (18, "#MC Machine-Check Exception"); (19, "#XF SIMD Floating-Point Exception")].
Fixpoint set_names (l : list (Z * string)) : M T unit :=
  match l with [] => mret tt | (i, name) :: l => set_name i name;; set_names l end.
Definition intr_init : M T unit :=
  pic_init;;
  idt_loop INTR_CNT 0;;
  lidt (make_idtr_operand (Z.of_nat INTR_CNT * 8 - 1) idt_address);;
  names_loop INTR_CNT 0;;
  set_names exception_names.
(** [level] is true for INTR_ON. *)
Definition register_handler (vec_no dpl : Z) (level : bool) (handler : Z) (name : string) : M T unit :=
  h ← gets (λ t, intr_handlers t !! Z.to_nat vec_no);
  assert (bool_decide (h = Some 0));;
  g ← (if level then make_trap_gate (intr_stubs vec_no) dpl else make_intr_gate (intr_stubs vec_no) dpl);
  set_gate vec_no g;;
  set_handler vec_no handler;;
  set_name vec_no name.
Definition intr_register_ext (vec_no handler : Z) (name : string) : M T unit :=
  assert ((0x20 <=? vec_no) && (vec_no <=? 0x2f));;
  register_handler vec_no 0 false handler name.
Definition intr_register_int (vec_no dpl : Z) (level : bool) (handler : Z) (name : string) : M T unit :=
  assert ((vec_no <? 0x20) || (0x2f <? vec_no));;
  register_handler vec_no dpl level handler name.
Definition intr_name (vec : Z) : M T string :=
  names ← gets intr_names; from_option (names !! Z.to_nat vec).
Definition unexpected_interrupt (vec_no : Z) : M T unit :=
  counts ← gets unexpected_cnt;
  n ← from_option (counts !! Z.to_nat vec_no);
  let n := u32 (n + 1) in
  set_count vec_no n;;
  if Z.land n (u32 (n - 1)) =? 0 then name ← intr_name vec_no; message vec_no name else mret tt.
End tables.

(** ** Decoding *)

(** Bits [lo] to [lo + n - 1] of a descriptor. *)
Definition field (d lo n : Z) : Z := d / 2 ^ lo mod 2 ^ n.
(** A segment descriptor, as the processor reads it. *)
Record segment := mk_segment {
  s_base : Z; s_limit : Z; s_type : Z; s_class : Z; s_dpl : Z; s_present : Z; s_32bit : Z; s_gran : Z }.
Definition segment_of (d : Z) : segment :=
  mk_segment (field d 16 24 + 2 ^ 24 * field d 56 8) (field d 0 16 + 2 ^ 16 * field d 48 4) (field d 40 4) (field d 44 1)
    (field d 45 2) (field d 47 1) (field d 54 1) (field d 55 1).
Record gate := mk_gate { g_offset : Z; g_selector : Z; g_type : Z; g_dpl : Z; g_present : Z }.
Definition gate_of (d : Z) : gate :=
  mk_gate (field d 0 16 + 2 ^ 16 * field d 48 16) (field d 16 16) (field d 40 5) (field d 45 2) (field d 47 1).

Section bits.
Local Ltac Zify.zify_post_hook ::= Z.to_euclidean_division_equations.

Lemma land_low a n m : 0 ≤ n → m = 2 ^ n - 1 → Z.land a m = a mod 2 ^ n.
Proof. intros Hn ->. rewrite <-Z.land_ones by done. by rewrite Z.ones_equiv, Z.sub_1_r. Qed.
(** Bits from [n] up of a word of [n + k] bits, or of the bits from [n] to [n + k - 1]. *)
Lemma land_high a n k m : 0 ≤ n → 0 ≤ k → m = (2 ^ k - 1) * 2 ^ n → Z.land a m = a / 2 ^ n mod 2 ^ k * 2 ^ n.
Proof.
  intros Hn Hk ->. rewrite <-!Z.shiftl_mul_pow2 by done. apply Z.bits_inj'. intros j Hj.
  rewrite Z.land_spec. destruct (Z.lt_ge_cases j n).
  { rewrite !Z.shiftl_spec_low by done. apply andb_false_r. }
  rewrite !Z.shiftl_spec by done. rewrite <-(land_low _ k (2 ^ k - 1)) by done.
  rewrite Z.land_spec, <-Z.shiftr_div_pow2, Z.shiftr_spec by lia. by replace (j - n + n) with j by lia.
Qed.
End bits.

(** A field between what is below it and what is above it. *)
Lemma field_eq d lo n low f high :
  0 ≤ lo → 0 ≤ n → 0 ≤ low < 2 ^ lo → 0 ≤ f < 2 ^ n → d = low + 2 ^ lo * (f + 2 ^ n * high) → field d lo n = f.
Proof.
  intros Hlo Hn Hl Hf ->. unfold field. rewrite (Z.mul_comm (2 ^ lo)), Z.div_add, Z.div_small, Z.add_0_l by lia.
  rewrite (Z.mul_comm (2 ^ n)), Z.mod_add by lia. by apply Z.mod_small.
Qed.

Section roundtrip.
Local Ltac Zify.zify_post_hook ::= Z.to_euclidean_division_equations.

Lemma seg_e0_eq base limit : 0 ≤ base < 2 ^ 32 → 0 ≤ limit →
  seg_e0 base limit = limit mod 2 ^ 16 + 2 ^ 16 * (base mod 2 ^ 16).
Proof.
  intros Hb Hl. unfold seg_e0. rewrite (land_low _ 16), Z.shiftl_mul_pow2 by done. unfold wrap.
  change (2 ^ 32) with (2 ^ 16 * 2 ^ 16). rewrite Z.mul_mod_distr_r by done. rewrite (lor_add 16) by lia. lia.
Qed.
Lemma seg_e1_eq base limit class type dpl gran :
  0 ≤ base < 2 ^ 32 → 0 ≤ limit < 2 ^ 20 → 0 ≤ class < 2 → 0 ≤ type < 16 → 0 ≤ dpl < 4 → 0 ≤ gran < 2 →
  seg_e1 base limit class type dpl gran =
    base / 2 ^ 16 mod 2 ^ 8 + 2 ^ 8 * type + 2 ^ 12 * class + 2 ^ 13 * dpl + 2 ^ 15 + 2 ^ 16 * (limit / 2 ^ 16) + 2 ^ 22 +
    2 ^ 23 * gran + 2 ^ 24 * (base / 2 ^ 24).
Proof.
  intros Hb Hl Hc Ht Hd Hg. unfold seg_e1.
  rewrite Z.shiftr_div_pow2, (land_low _ 8), !Z.shiftl_mul_pow2, (land_high limit 16 4), (land_high base 24 8) by done.
  set (b1 := base / 2 ^ 16 mod 2 ^ 8). assert (0 ≤ b1 < 2 ^ 8) by (unfold b1; lia).
  set (l1 := limit / 2 ^ 16 mod 2 ^ 4). assert (0 ≤ l1 < 2 ^ 4 ∧ l1 = limit / 2 ^ 16) as [? El] by (unfold l1; lia).
  set (b2 := base / 2 ^ 24 mod 2 ^ 8). assert (0 ≤ b2 < 2 ^ 8 ∧ b2 = base / 2 ^ 24) as [? Eb] by (unfold b2; lia).
  rewrite <-El, <-Eb. clearbody b1 l1 b2. clear El Eb Hb Hl.
  rewrite (lor_add 8 b1) by lia. rewrite (lor_add 12 _ (class * 2 ^ 12)) by lia.
  rewrite (lor_add 13 _ (dpl * 2 ^ 13)) by lia. rewrite (lor_add 15 _ (1 * 2 ^ 15)) by lia.
  rewrite (lor_add 16 _ (l1 * 2 ^ 16)) by lia. rewrite (lor_add 22 _ (1 * 2 ^ 22)) by lia.
  rewrite (lor_add 23 _ (gran * 2 ^ 23)) by lia. rewrite (lor_add 24) by lia.
  rewrite wrap_small by lia. lia.
Qed.
Lemma segment_fields d l0 l1 b0 b1 b2 type c dpl g :
  0 ≤ l0 < 2 ^ 16 → 0 ≤ l1 < 16 → 0 ≤ b0 < 2 ^ 16 → 0 ≤ b1 < 2 ^ 8 → 0 ≤ b2 < 2 ^ 8 →
  0 ≤ type < 16 → 0 ≤ c < 2 → 0 ≤ dpl < 4 → 0 ≤ g < 2 →
  d = l0 + 2 ^ 16 * b0 + 2 ^ 32 * (b1 + 2 ^ 8 * type + 2 ^ 12 * c + 2 ^ 13 * dpl + 2 ^ 15 + 2 ^ 16 * l1 + 2 ^ 22 +
        2 ^ 23 * g + 2 ^ 24 * b2) →
  segment_of d = mk_segment (b0 + 2 ^ 16 * b1 + 2 ^ 24 * b2) (l0 + 2 ^ 16 * l1) type c dpl 1 1 g.
Proof.
  intros ? ? ? ? ? ? ? ? ? Ed. unfold segment_of.
  set (h48 := l1 + 2 ^ 6 + 2 ^ 7 * g + 2 ^ 8 * b2). set (low40 := l0 + 2 ^ 16 * b0 + 2 ^ 32 * b1).
  rewrite (field_eq d 16 24 l0 (b0 + 2 ^ 16 * b1) (type + 2 ^ 4 * c + 2 ^ 5 * dpl + 2 ^ 7 + 2 ^ 8 * h48)) by (unfold h48; lia).
  rewrite (field_eq d 0 16 0 l0 ((d - l0) / 2 ^ 16)) by (unfold h48; lia).
  rewrite (field_eq d 40 4 low40 type (c + 2 * dpl + 2 ^ 3 + 2 ^ 4 * h48)) by (unfold h48, low40; lia).
  rewrite (field_eq d 44 1 (low40 + 2 ^ 40 * type) c (dpl + 2 ^ 2 + 2 ^ 3 * h48)) by (unfold h48, low40; lia).
  rewrite (field_eq d 45 2 (low40 + 2 ^ 40 * type + 2 ^ 44 * c) dpl (1 + 2 * h48)) by (unfold h48, low40; lia).
  set (low48 := low40 + 2 ^ 40 * type + 2 ^ 44 * c + 2 ^ 45 * dpl + 2 ^ 47).
  rewrite (field_eq d 47 1 (low48 - 2 ^ 47) 1 h48) by (unfold h48, low48, low40; lia).
  rewrite (field_eq d 48 4 low48 l1 (2 ^ 2 + 2 ^ 3 * g + 2 ^ 4 * b2)) by (unfold low48, low40; lia).
  rewrite (field_eq d 54 1 (low48 + 2 ^ 48 * l1) 1 (g + 2 * b2)) by (unfold low48, low40; lia).
  rewrite (field_eq d 55 1 (low48 + 2 ^ 48 * l1 + 2 ^ 54) g b2) by (unfold low48, low40; lia).
  rewrite (field_eq d 56 8 (low48 + 2 ^ 48 * l1 + 2 ^ 54 + 2 ^ 55 * g) b2 0) by (unfold low48, low40; lia).
  f_equal; lia.
Qed.
(** Every segment descriptor that the code builds is read by the processor with
    the base, limit, class, type, privilege and granularity that were asked for. *)
Theorem make_seg_desc_roundtrip {S} (s : S) base limit class type dpl gran :
  0 ≤ base < 2 ^ 32 → 0 ≤ limit < 2 ^ 20 → 0 ≤ type < 16 → 0 ≤ dpl < 4 →
  ∃ d, make_seg_desc base limit class type dpl gran s = Ok (d, s) ∧ 0 ≤ d < 2 ^ 64 ∧
    segment_of d = mk_segment base limit type (class_no class) dpl 1 1 (gran_no gran).
Proof.
  intros Hb Hl Ht Hd. set (c := class_no class). set (g := gran_no gran).
  assert (0 ≤ c < 2 ∧ 0 ≤ g < 2) as [Hc Hg] by (unfold c, g; destruct class, gran; simpl; lia).
  set (e1 := seg_e1 base limit c type dpl g). pose proof (seg_e1_eq base limit c type dpl g Hb Hl Hc Ht Hd Hg) as E1.
  pose proof (seg_e0_eq base limit Hb ltac:(lia)) as E0. fold e1 in E1.
  set (d := Z.lor (seg_e0 base limit) (u64 (Z.shiftl e1 32))).
  assert (0 ≤ e1 < 2 ^ 32) as He1 by lia.
  assert (d = seg_e0 base limit + 2 ^ 32 * e1) as Ed.
  { unfold d. rewrite Z.shiftl_mul_pow2, wrap_small, (lor_add 32) by lia. lia. }
  exists d. split; [|split; [lia|]].
  - unfold make_seg_desc. rewrite (proj2 (Z.leb_le limit _)), !(proj2 (Z.leb_le 0 _)), (proj2 (Z.leb_le type _)),
      (proj2 (Z.leb_le dpl _)) by lia. done.
  - rewrite E0, E1 in Ed. rewrite (segment_fields d (limit mod 2 ^ 16) (limit / 2 ^ 16) (base mod 2 ^ 16)
      (base / 2 ^ 16 mod 2 ^ 8) (base / 2 ^ 24) type c dpl g) by (done || lia). f_equal; lia.
Qed.

(** ** Gates *)

Lemma gate_fields d f0 f1 dpl type :
  0 ≤ f0 < 2 ^ 16 → 0 ≤ f1 < 2 ^ 16 → 0 ≤ dpl < 4 → 0 ≤ type < 16 →
  d = f0 + 2 ^ 16 * 8 + 2 ^ 32 * (2 ^ 8 * type + 2 ^ 13 * dpl + 2 ^ 15 + 2 ^ 16 * f1) →
  gate_of d = mk_gate (f0 + 2 ^ 16 * f1) SEL_KCSEG type dpl 1.
Proof.
  intros ? ? ? ? Ed. unfold gate_of, SEL_KCSEG.
  rewrite (field_eq d 0 16 0 f0 ((d - f0) / 2 ^ 16)) by lia.
  rewrite (field_eq d 16 16 f0 8 (2 ^ 8 * type + 2 ^ 13 * dpl + 2 ^ 15 + 2 ^ 16 * f1)) by lia.
  rewrite (field_eq d 40 5 (f0 + 2 ^ 16 * 8) type (dpl + 2 ^ 2 + 2 ^ 3 * f1)) by lia.
  rewrite (field_eq d 45 2 (f0 + 2 ^ 16 * 8 + 2 ^ 40 * type) dpl (1 + 2 * f1)) by lia.
  rewrite (field_eq d 47 1 (f0 + 2 ^ 16 * 8 + 2 ^ 40 * type + 2 ^ 45 * dpl) 1 f1) by lia.
  rewrite (field_eq d 48 16 (f0 + 2 ^ 16 * 8 + 2 ^ 40 * type + 2 ^ 45 * dpl + 2 ^ 47) f1 0) by lia. done.
Qed.
Lemma make_gate_decodes {S} (s : S) function dpl type :
  0 < function < 2 ^ 32 → 0 ≤ dpl < 4 → 0 ≤ type < 16 →
  ∃ d, make_gate function dpl type s = Ok (d, s) ∧ gate_of d = mk_gate function SEL_KCSEG type dpl 1.
Proof.
  intros Hf Hd Ht. eexists. split.
  { unfold make_gate. rewrite (proj2 (Z.eqb_neq function 0)), !(proj2 (Z.leb_le 0 _)), (proj2 (Z.leb_le type _)),
      (proj2 (Z.leb_le dpl _)) by lia. reflexivity. }
  unfold gate_e0, gate_e1, SEL_KCSEG.
  rewrite (land_low _ 16), (land_high function 16 16), !Z.shiftl_mul_pow2 by done. rewrite (wrap_small 32 (dpl * _)),
    (wrap_small 32 (type * _)), (lor_add 16 _ (8 * 2 ^ 16)), Z.mul_0_l, Z.lor_0_r by lia.
  set (f1 := function / 2 ^ 16 mod 2 ^ 16). assert (0 ≤ f1 < 2 ^ 16) as Hf1 by (unfold f1; lia).
  rewrite (Z.lor_comm (f1 * 2 ^ 16)), (lor_add 16 (1 * 2 ^ 15)) by lia.
  rewrite (Z.lor_comm _ (dpl * 2 ^ 13)), (lor_add 15 (dpl * 2 ^ 13)) by lia.
  rewrite (Z.lor_comm _ (type * 2 ^ 8)), (lor_add 13 (type * 2 ^ 8)) by lia.
  rewrite wrap_small, wrap_small, (lor_add 32) by (rewrite ?wrap_small; lia).
  rewrite (gate_fields _ (function mod 2 ^ 16) f1 dpl type) by lia. unfold SEL_KCSEG. f_equal. unfold f1. lia.
Qed.
(** The tables with gate [d], [handler] and [name] entered for a vector. *)
Definition registered (vec_no d handler : Z) (name : string) (t : tables) : tables :=
  let vec := Z.to_nat vec_no in
  mk_tables (gdt t) (<[vec := d]> (idt t)) (<[vec := handler]> (intr_handlers t)) (<[vec := name]> (intr_names t))
    (unexpected_cnt t) (gdtr t) (tr t) (idtr t) (ports t) (messages t).
Lemma register_handler_step intr_stubs vec_no dpl (level : bool) handler name t :
  0 ≤ vec_no < 256 → 0 ≤ dpl < 4 → 0 < intr_stubs vec_no < 2 ^ 32 →
  length (idt t) = 256%nat → intr_handlers t !! Z.to_nat vec_no = Some 0 →
  wp (register_handler intr_stubs vec_no dpl level handler name) t (λ _ t', ∃ d,
    t' = registered vec_no d handler name t ∧
    gate_of d = mk_gate (intr_stubs vec_no) SEL_KCSEG (if level then 15 else 14) dpl 1).
Proof.
  intros Hv Hd Hs Hl Hh. unfold register_handler. do 2 wp_step. do 2 wp_step; [by apply bool_decide_eq_true|].
  destruct (make_gate_decodes t (intr_stubs vec_no) dpl (if level then 15 else 14) Hs Hd) as (d & E & Eg);
    [by destruct level|].
  wp_step. assert ((if level then make_trap_gate (intr_stubs vec_no) dpl else make_intr_gate (intr_stubs vec_no) dpl) t =
    Ok (d, t)) as Em by by destruct level.
  unfold wp at 1. rewrite Em. unfold set_gate, set_handler, set_name. do 5 wp_step. by exists d.
Qed.
(** Registering the handler of an exception or system call enters a gate in the
    IDT that leads to the stub of that vector in the kernel's code segment, with the
    privilege asked for, and that leaves interrupts on exactly when it should;
    registering one for a device always turns them off and allows no call from user
    mode.  Nothing else in the tables changes; a second handler for a vector, or a
    vector of the wrong kind, is refused. *)
Theorem intr_register_correct intr_stubs vec_no dpl (level : bool) handler name t :
  0 ≤ vec_no < 256 → 0 ≤ dpl < 4 → 0 < intr_stubs vec_no < 2 ^ 32 →
  length (idt t) = 256%nat → length (intr_handlers t) = 256%nat →
  let device := bool_decide (0x20 ≤ vec_no ≤ 0x2f) in
  let taken := negb (bool_decide (intr_handlers t !! Z.to_nat vec_no = Some 0)) in
  let result d_level d_dpl t' := ∃ d,
    t' = registered vec_no d handler name t ∧
    gate_of d = mk_gate (intr_stubs vec_no) SEL_KCSEG (if d_level : bool then 15 else 14) d_dpl 1 in
  match intr_register_int intr_stubs vec_no dpl level handler name t with
  | Ok (_, t') => device = false ∧ taken = false ∧ result level dpl t'
  | Panic => device = true ∨ taken = true
  | _ => False
  end ∧
  match intr_register_ext intr_stubs vec_no handler name t with
  | Ok (_, t') => device = true ∧ taken = false ∧ result false 0 t'
  | Panic => device = false ∨ taken = true
  | _ => False
  end.
Proof.
  intros Hv Hd Hs Hl Hh device taken result.
  assert (∀ level' dpl', 0 ≤ dpl' < 4 → match register_handler intr_stubs vec_no dpl' level' handler name t with
    | Ok (_, t') => taken = false ∧ result level' dpl' t' | Panic => taken = true | _ => False end) as Hr.
  { intros level' dpl' Hd'. unfold taken. case_bool_decide as Et.
    - pose proof (register_handler_step intr_stubs vec_no dpl' level' handler name t Hv Hd' Hs Hl Et) as Hw.
      unfold wp in Hw. by destruct (register_handler _ _ _ _ _ _ _) as [[[] t']| | |].
    - unfold register_handler, mbind, M_bind, gets. by rewrite bool_decide_false. }
  split; [unfold intr_register_int|unfold intr_register_ext]; unfold mbind, M_bind, assert.
  - replace ((vec_no <? 0x20) || (0x2f <? vec_no)) with (negb device) by (unfold device; case_bool_decide; lia).
    destruct device; simpl; [by left|]. specialize (Hr level dpl Hd).
    destruct (register_handler _ _ _ _ _ _ _) as [[[] t']| | |]; [done|by right|done|done].
  - replace ((0x20 <=? vec_no) && (vec_no <=? 0x2f)) with device by (unfold device; case_bool_decide; lia).
    destruct device; simpl; [|by left]. specialize (Hr false 0 ltac:(lia)).
    destruct (register_handler _ _ _ _ _ _ _) as [[[] t']| | |]; [done|by right|done|done].
Qed.
End roundtrip.

(** ** Unexpected interrupts *)

(** [n] interrupts of one vector. *)
Fixpoint unexpected_times (n : nat) (vec_no : Z) : M tables unit :=
  match n with O => mret tt | S n => unexpected_times n vec_no;; unexpected_interrupt vec_no end.
Lemma power_of_2 n : 0 < n → Z.land n (n - 1) = 0 ↔ n = 2 ^ Z.log2 n.
Proof.
  intros Hn. pose proof (Z.log2_spec n Hn) as [H1 H2]. pose proof (Z.log2_nonneg n). split.
  - intros Hl. destruct (Z.eq_dec n (2 ^ Z.log2 n)) as [|Hne]; [done|]. exfalso.
    assert (Z.testbit (Z.land n (n - 1)) (Z.log2 n) = true) as Ht; [|by rewrite Hl, Z.bits_0 in Ht].
    rewrite Z.land_spec, Z.bit_log2 by done. replace (Z.log2 n) with (Z.log2 (n - 1)).
    { apply Z.bit_log2. pose proof (Z.pow_pos_nonneg 2 (Z.log2 n)). lia. }
    apply Z.log2_unique; lia.
  - intros E. generalize dependent (Z.log2 n). intros k H1 H2 Hk ->.
    rewrite Z.sub_1_r, <-Z.ones_equiv, Z.land_ones by done. apply Z.mod_same. lia.
Qed.
Lemma log2_step n : 0 < n → Z.log2 (n + 1) = Z.log2 n + (if Z.land (n + 1) n =? 0 then 1 else 0).
Proof.
  intros Hn. pose proof (power_of_2 (n + 1) ltac:(lia)) as Hp. replace (n + 1 - 1) with n in Hp by lia.
  pose proof (Z.log2_spec n Hn). pose proof (Z.log2_nonneg n). pose proof (Z.log2_le_mono n (n + 1)).
  destruct (Z.eqb_spec (Z.land (n + 1) n) 0) as [E|E].
  - apply Hp in E. apply Z.log2_unique; [lia|]. replace (Z.succ (Z.log2 n + 1)) with (Z.succ (Z.succ (Z.log2 n))) by lia.
    rewrite Z.add_1_r, (Z.pow_succ_r 2 (Z.succ _)) by lia. assert (2 ^ Z.succ (Z.log2 n) ≤ n + 1); [|lia].
    rewrite E. apply Z.pow_le_mono_r; [lia|]. apply Z.le_succ_l.
    destruct (Z.eq_dec (Z.log2 (n + 1)) (Z.log2 n)) as [El|]; [rewrite El in E|]; lia.
  - rewrite Z.add_0_r. apply Z.log2_unique; [lia|]. split; [lia|].
    destruct (Z.eq_dec (n + 1) (2 ^ Z.succ (Z.log2 n))) as [En|]; [|lia]. exfalso. apply E, Hp.
    rewrite En at 1. f_equal. rewrite En. by rewrite Z.log2_pow2 by lia.
Qed.
Lemma unexpected_interrupt_step vec_no n name t : 0 ≤ n < 2 ^ 32 - 1 →
  unexpected_cnt t !! Z.to_nat vec_no = Some n → intr_names t !! Z.to_nat vec_no = Some name →
  wp (unexpected_interrupt vec_no) t (λ _ t',
    messages t' = messages t ++ (if Z.land (n + 1) n =? 0 then [(vec_no, name)] else []) ∧
    unexpected_cnt t' !! Z.to_nat vec_no = Some (n + 1) ∧ intr_names t' = intr_names t).
Proof.
  intros Hn Hc Hm. unfold unexpected_interrupt, set_count, intr_name, message. wp_step. wp_step. wp_step. eapply wp_from_option; [done|]. do 2 wp_step.
  rewrite (wrap_small 32 (n + 1)), wrap_small by lia. replace (n + 1 - 1) with n by lia.
  assert (∀ l : list Z, l !! Z.to_nat vec_no = Some n → <[Z.to_nat vec_no := n + 1]> l !! Z.to_nat vec_no = Some (n + 1)) as Hi.
  { intros l Hl. apply list_lookup_insert_eq. by eapply lookup_lt_Some. }
  destruct (_ =? 0); repeat wp_step; cbn [messages intr_names unexpected_cnt]; [eapply wp_from_option; [done|]; repeat wp_step|];
    cbn [messages intr_names unexpected_cnt]; rewrite ?app_nil_r; auto.
Qed.
(** Of [n] unexpected interrupts of one vector, exactly those whose number is a power
    of 2 are reported on the console, log2 n + 1 in all, for any [n] below 2^32. *)
Theorem unexpected_interrupt_rate (n : nat) vec_no name t : 0 < Z.of_nat n < 2 ^ 32 →
  unexpected_cnt t !! Z.to_nat vec_no = Some 0 → intr_names t !! Z.to_nat vec_no = Some name →
  wp (unexpected_times n vec_no) t (λ _ t',
    messages t' = messages t ++ replicate (Z.to_nat (Z.log2 (Z.of_nat n) + 1)) (vec_no, name) ∧
    unexpected_cnt t' !! Z.to_nat vec_no = Some (Z.of_nat n) ∧ intr_names t' = intr_names t).
Proof.
  intros Hn Hc Hm. induction n as [|n IH]; [lia|]. cbn [unexpected_times]. wp_step. destruct n as [|n].
  - cbn [unexpected_times]. wp_step. eapply wp_mono; [apply (unexpected_interrupt_step vec_no 0 name); done || lia|].
    intros [] t' (H1 & H2 & H3). auto.
  - eapply wp_mono; [apply IH; lia|]. intros [] t' (H1 & H2 & H3).
    eapply wp_mono; [apply (unexpected_interrupt_step vec_no (Z.of_nat (S n)) name); [lia|done|congruence]|].
    intros [] t'' (H1' & H2' & H3'). replace (Z.of_nat (S (S n))) with (Z.of_nat (S n) + 1) by lia.
    split; [|split; [done|congruence]]. rewrite log2_step by lia. rewrite H1', H1, <-app_assoc. f_equal.
    pose proof (Z.log2_nonneg (Z.of_nat (S n))). destruct (_ =? 0); [|by rewrite Z.add_0_r, app_nil_r].
    replace (Z.to_nat (Z.log2 (Z.of_nat (S n)) + 1 + 1)) with (Z.to_nat (Z.log2 (Z.of_nat (S n)) + 1) + 1)%nat by lia.
    by rewrite replicate_add.
Qed.

(** ** Examples *)

(** The task state segment. *)
Lemma make_seg_desc_roundtrip_witness :
  ∃ d, make_tss_desc 0xc0107000 tt = Ok (d, tt) ∧ segment_of d = mk_segment 0xc0107000 0x67 9 0 0 1 1 0.
Proof.
  destruct (make_seg_desc_roundtrip tt 0xc0107000 0x67 CLS_SYSTEM 9 0 GRAN_BYTE) as (d & E & _ & Ed).
  - lia.
  - lia.
  - lia.
  - lia.
  - exists d. split; [exact E|exact Ed].
Defined.
Definition ex_tables : tables := 
  mk_tables (replicate SEL_CNT 0) (replicate INTR_CNT 0) (replicate INTR_CNT 0) (replicate INTR_CNT EmptyString) (replicate INTR_CNT 0) 0 0 0 [] [].
(** The system call gate, syscall_init (). *)
Lemma intr_register_correct_witness :
  match intr_register_int (λ v, 0xc0020000 + 16 * v) 0x30 3 true 0xc0021000 "syscall" ex_tables with
  | Ok (_, t') => gate_of <$> idt t' !! 0x30%nat = Some (mk_gate 0xc0020300 SEL_KCSEG 15 3 1)
  | _ => False
  end.
Proof.
  destruct (intr_register_correct (λ v, 0xc0020000 + 16 * v) 0x30 3 true 0xc0021000 "syscall" ex_tables) as [H _].
  - lia.
  - lia.
  - lia.
  - reflexivity.
  - reflexivity.
  - destruct (intr_register_int (λ v, 0xc0020000 + 16 * v) 0x30 3 true 0xc0021000 "syscall" ex_tables) as [[[] t']| | |].
    + destruct H as (_ & _ & d & -> & Ed). cbn [idt registered]. rewrite list_lookup_insert_eq by (vm_compute; lia).
      cbn [fmap option_fmap option_map]. rewrite Ed. reflexivity.
    + destruct H as [H|H]; vm_compute in H; discriminate H.
    + exact H.
    + exact H.
Defined.
Lemma unexpected_interrupt_rate_witness :
  wp (unexpected_times 9 0x27) ex_tables (λ _ t', messages t' = replicate 4 (0x27, EmptyString)).
Proof.
  eapply wp_mono; [apply (unexpected_interrupt_rate 9 0x27 EmptyString ex_tables); [lia|reflexivity|reflexivity]|].
  intros [] t' (H & _). exact H.
Defined.
