(* ===== verification/Exception.v ===== *)
(** * Exceptions: userprog/exception.c

    The handlers for the exceptions of the processor.  They end the running process, or
    panic; thread_exit () does not return, which is the result [Exited].  The theorems
    say which of the two happens, and which gates exception_init () sets up. *)

From stdpp Require Import strings.
From S2P Require Import Prelude Bitmap CString Block BlockThms Inode InodeInv InodeThms Directory.
From S2P Require Import Vaddr Palloc Ram Pagedir PagedirThms AddressSpace Process ProcessThms StackThms Syscall UserMem SyscallThms Segments.
Local Open Scope Z_scope.
Local Ltac Zify.zify_post_hook ::= Z.to_euclidean_division_equations.

Definition PF_P : Z := 0x1.
Definition PF_W : Z := 0x2.
Definition PF_U : Z := 0x4.
(** The members of struct intr_frame that are used. *)
Record intr_frame := mk_intr_frame { cs : Z; frame_esp : Z; error_code : Z; vec_no : Z }.
(** What the message about a page fault says. *)
Record fault_report := mk_report { fault_addr : Z; not_present : bool; write : bool; user : bool }.
(** The process, the variables of the file and the interrupt flag, and the messages. *)
Record exc (D : Type) := mk_exc {
  x_proc : proc D; page_fault_cnt : Z; x_intr : bool; reports : list fault_report; dying : list Z }.
Arguments mk_exc {D}.
Arguments x_proc {D}.
Arguments page_fault_cnt {D}.
Arguments x_intr {D}.
Arguments reports {D}.
Arguments dying {D}.

Section handlers.
Context {D : Type} `{!BlockOps D}.
Notation X := (exc D).

Definition with_proc (s : proc D) (x : X) : X := mk_exc s (page_fault_cnt x) (x_intr x) (reports x) (dying x).
Definition on_proc {A} (m : M (proc D) A) : M X A := zoom x_proc with_proc m.
Definition kill (f : intr_frame) : M X stop :=
  if cs f =? SEL_UCSEG then
    modify (λ x, mk_exc (x_proc x) (page_fault_cnt x) (x_intr x) (reports x) (dying x ++ [vec_no f]));;
    mret Exited
  else if cs f =? SEL_KCSEG then panic
  else mret Exited.
(** [cr2] is the register that holds the faulting address. *)
Definition page_fault (cr2 : Z) (f : intr_frame) : M X stop :=
  let esp := frame_esp f in
  r ← on_proc (bad_pointer (u32 (esp + 4)));
  match r with
  | inr e => mret e
  | inl _ =>
    p ← on_proc (user_load_word (u32 (esp + 4)));
    r ← on_proc (bad_pointer p);
    match r with
    | inr e => mret e
    | inl _ =>
      let report := mk_report cr2 (Z.land (error_code f) PF_P =? 0) (negb (Z.land (error_code f) PF_W =? 0))
        (negb (Z.land (error_code f) PF_U =? 0)) in
      modify (λ x, mk_exc (x_proc x) (s64 (page_fault_cnt x + 1)) true (reports x ++ [report]) (dying x));;
      kill f
    end
  end.
End handlers.

(** The calls of intr_register_int (), in order: vector, DPL, level and name. *)
Definition exceptions : list (Z * Z * string) :=
  [(3, 3, "#BP Breakpoint Exception"); (4, 3, "#OF Overflow Exception"); (5, 3, "#BR BOUND Range Exceeded Exception");
   (0, 0, "#DE Divide Error"); (1, 0, "#DB Debug Exception"); (6, 0, "#UD Invalid Opcode Exception");
   (7, 0, "#NM Device Not Available Exception"); (11, 0, "#NP Segment Not Present"); (12, 0, "#SS Stack Fault Exception");
   (13, 0, "#GP General Protection Exception"); (16, 0, "#MF x87 FPU Floating-Point Error");
   (19, 0, "#XF SIMD Floating-Point Exception")]%Z.
Section init.
(** The stubs, and the addresses of kill () and page_fault (). *)
Context (intr_stubs : Z → Z) (kill_addr page_fault_addr : Z).
Fixpoint register_all (l : list (Z * Z * string)) : M tables unit :=
  match l with
  | [] => mret tt
  | (vec, dpl, name) :: l => intr_register_int intr_stubs vec dpl true kill_addr name;; register_all l
  end.
Definition exception_init : M tables unit :=
  register_all exceptions;;
  intr_register_int intr_stubs 14 0 false page_fault_addr "#PF Page-Fault Exception".
End init.

(** ** Page faults *)
Section faults.
Context {D : Type} `{BlockDevice D}.
Notation X := (exc D).
Implicit Types (s : proc D) (x : X).

Lemma uword_at_range (m : machine D) va : 0 ≤ uword_at m va < 2 ^ 32.
Proof.
  unfold uword_at, word, byte. rewrite !ubytes_S. cbn [lookup list_lookup default Nat.add].
  assert (∀ a, 0 ≤ default 0 (ubyte m a) < 256) as Hb.
  { intros a. unfold ubyte. destruct (umem _ _ a) as [b|]; simpl; [apply (wrap_bounds 8 b); lia|lia]. }
  pose proof (Hb va). pose proof (Hb (va + 1)). pose proof (Hb (va + 1 + 1)). pose proof (Hb (va + 1 + 1 + 1)).
  unfold default, from_option in *. simpl in *. lia.
Qed.
(** A word at an address that is a multiple of four lies in one page. *)
Lemma word_mapped s va : good_pointer s va → 0 ≤ va → va mod 4 = 0 → all_mapped (mach s) va 4.
Proof.
  intros (_ & Hp & Hm) Hv Ha. unfold PHYS_BASE in Hp. split; [split; unfold PHYS_BASE; lia|]. intros y Hy. by replace (y / 4096) with (va / 4096) by lia.
Qed.
(** The pointers that page_fault () looks at before anything else. *)
Definition accepted s (esp : Z) : Prop :=
  good_pointer s (esp + 4) ∧ good_pointer s (uword_at (mach s) (esp + 4)).
Definition counted (cr2 : Z) (f : intr_frame) x : X :=
  mk_exc (x_proc x) (s64 (page_fault_cnt x + 1)) true
    (reports x ++ [mk_report cr2 (Z.land (error_code f) PF_P =? 0) (negb (Z.land (error_code f) PF_W =? 0))
                     (negb (Z.land (error_code f) PF_U =? 0))])
    (dying x ++ (if cs f =? SEL_UCSEG then [vec_no f] else [])).
(** C27: With the stack pointer at a multiple of four, a page fault ends the running process:
    with a line about its exit status if the word above the stack pointer, or what it
    points to, is not mapped, and otherwise with a message about the fault.  The kernel
    panics only in the second case and for a fault in the kernel.  The memory and the
    files of the process stay as they are. *)
Theorem page_fault_correct cr2 f x :
  running (mach (x_proc x)) → 0 ≤ frame_esp f < 2 ^ 32 - 4 → frame_esp f mod 4 = 0 →
  wpp (page_fault cr2 f) x
    (λ r x', r = Exited ∧
       ((accepted (x_proc x) (frame_esp f) ∧ cs f ≠ SEL_KCSEG ∧ x' = counted cr2 f x) ∨
        (¬ accepted (x_proc x) (frame_esp f) ∧
           x' = with_proc (print (ExitMessage (exit_status (x_proc x))) (x_proc x)) x)))
    (accepted (x_proc x) (frame_esp f) ∧ cs f = SEL_KCSEG).
Proof.
  intros Hr He Ha. unfold page_fault. rewrite (wrap_small 32) by lia. set (esp := frame_esp f) in *.
  assert (with_proc (x_proc x) x = x) as Ex by by destruct x.
  apply wpp_bind, wp_zoom, wp_bad_pointer; [done|lia| |].
  2: { intros Hbad. apply wpp_wp, wp_ret. split; [done|]. right. split; [by intros []|done]. }
  intros Hgood. rewrite Ex. pose proof (word_mapped _ _ Hgood ltac:(lia) ltac:(lia)) as Hm.
  apply wpp_bind, wp_zoom, wp_user_load_word; [done|done|]. rewrite Ex.
  apply wpp_bind, wp_zoom, wp_bad_pointer; [done|apply uword_at_range| |].
  2: { intros Hbad. apply wpp_wp, wp_ret. split; [done|]. right. split; [by intros []|done]. }
  intros Hgood'. rewrite Ex. apply wpp_bind, wp_modify. unfold kill.
  destruct (Z.eqb_spec (cs f) SEL_UCSEG) as [Ec|Ec]; [|destruct (Z.eqb_spec (cs f) SEL_KCSEG) as [Ek|Ek]].
  - apply wpp_wp. do 3 wp_step. split; [done|]. left. split; [done|]. split; [by rewrite Ec|]. unfold counted. by rewrite Ec.
  - done.
  - apply wpp_wp, wp_ret. split; [done|]. left. split; [done|]. split; [done|]. unfold counted.
    rewrite (proj2 (Z.eqb_neq (cs f) SEL_UCSEG)) by done. by rewrite app_nil_r.
Qed.
End faults.

(** ** The gates *)
Section gates.
Context (intr_stubs : Z → Z) (kill_addr page_fault_addr : Z).
Context (stubs_ok : ∀ v, 0 ≤ v < 256 → 0 < intr_stubs v < 2 ^ 32).

(** A vector with its handler, its gate and its name. *)
Definition has_gate (t : tables) (vec handler dpl : Z) (level : bool) (name : string) : Prop :=
  intr_handlers t !! Z.to_nat vec = Some handler ∧ intr_names t !! Z.to_nat vec = Some name ∧
  gate_of <$> idt t !! Z.to_nat vec = Some (mk_gate (intr_stubs vec) SEL_KCSEG (if level then 15 else 14) dpl 1).
Definition sized (t : tables) : Prop :=
  length (idt t) = 256%nat ∧ length (intr_handlers t) = 256%nat ∧ length (intr_names t) = 256%nat.
(** The tables are the same for the other vectors. *)
Definition same_for (t t' : tables) (v : nat) : Prop :=
  idt t' !! v = idt t !! v ∧ intr_handlers t' !! v = intr_handlers t !! v ∧ intr_names t' !! v = intr_names t !! v.
Definition vector (x : Z * Z * string) : nat := Z.to_nat x.1.1.
Lemma elem_of_vector v dpl name (l : list (Z * Z * string)) : (v, dpl, name) ∈ l → Z.to_nat v ∈ vector <$> l.
Proof. exact (list_elem_of_fmap_2 vector l (v, dpl, name)). Qed.
Lemma wp_register_int vec dpl (level : bool) handler name t Q :
  sized t → 0 ≤ vec < 32 → 0 ≤ dpl < 4 → intr_handlers t !! Z.to_nat vec = Some 0 →
  (∀ t', sized t' → has_gate t' vec handler dpl level name → (∀ v, v ≠ Z.to_nat vec → same_for t t' v) → Q tt t') →
  wp (intr_register_int intr_stubs vec dpl level handler name) t Q.
Proof using stubs_ok.
  intros (Hi & Hh & Hn) Hv Hd Hfree HQ. unfold intr_register_int. wp_step. wp_step; [apply orb_true_iff; left; lia|].
  eapply wp_mono; [apply register_handler_step; [lia|done|apply stubs_ok; lia|done|done]|].
  intros [] t' (d & -> & Hg). apply HQ; unfold registered.
  - split_and!; cbn [idt intr_handlers intr_names]; by rewrite length_insert.
  - split_and!; cbn [idt intr_handlers intr_names]; rewrite list_lookup_insert_eq by lia; [done|done|]. simpl. by rewrite Hg.
  - intros v Hne. split_and!; cbn [idt intr_handlers intr_names]; by rewrite list_lookup_insert_ne.
Qed.
Lemma wp_register_all l t Q :
  sized t → NoDup (vector <$> l) →
  Forall (λ '(v, dpl, _), 0 ≤ v < 32 ∧ 0 ≤ dpl < 4 ∧ intr_handlers t !! Z.to_nat v = Some 0) l →
  (∀ t', sized t' → (∀ v dpl name, (v, dpl, name) ∈ l → has_gate t' v kill_addr dpl true name) →
     (∀ v, v ∉ vector <$> l → same_for t t' v) → Q tt t') →
  wp (register_all intr_stubs kill_addr l) t Q.
Proof using stubs_ok.
  revert t. induction l as [|[[v dpl] name] l IH]; intros t Hs Hnd Hl HQ; cbn [register_all].
  - wp_step. apply HQ; [done| |done]. by intros ??? ?%elem_of_nil.
  - rewrite fmap_cons in Hnd, HQ. apply NoDup_cons in Hnd as [Hv Hnd]. apply Forall_cons in Hl as [(Hv1 & Hd & Hfree) Hl]. wp_step.
    apply wp_register_int; [done..|]. intros t1 Hs1 Hg1 Hsame1. apply IH; [done|done| |].
    + apply Forall_forall. intros [[v' dpl'] name'] Hin. destruct (proj1 (Forall_forall _ _) Hl _ Hin) as (? & ? & Hf).
      split_and!; try lia. destruct (Hsame1 (Z.to_nat v')) as (_ & -> & _); [|done].
      intros E. apply Hv. unfold vector at 1. simpl. rewrite <-E. by eapply elem_of_vector.
    + intros t2 Hs2 Hg2 Hsame2. apply HQ; [done| |].
      * intros v' dpl' name' [[= -> -> ->]|Hin]%elem_of_cons; [|by apply Hg2].
        destruct (Hsame2 _ Hv) as (E1 & E2 & E3). unfold vector in E1, E2, E3. cbn [fst] in E1, E2, E3. unfold has_gate. by rewrite E1, E2, E3.
      * intros v' [Hne Hv']%not_elem_of_cons. destruct (Hsame1 v' Hne) as (E1 & E2 & E3).
        destruct (Hsame2 v' Hv') as (E4 & E5 & E6). unfold same_for. split_and!; congruence.
Qed.
(** After exception_init () a user program can raise the exceptions 3, 4 and 5 with an
    INT instruction, and no others; every exception except page faults is handled with
    interrupts on.  Each of the vectors has its handler and its name, and the other
    vectors are unchanged. *)
Theorem exception_init_correct t :
  sized t → Forall (λ v : nat, intr_handlers t !! v = Some 0) [0; 1; 3; 4; 5; 6; 7; 11; 12; 13; 14; 16; 19]%nat →
  wp (exception_init intr_stubs kill_addr page_fault_addr) t (λ _ t',
    (∀ v dpl name, (v, dpl, name) ∈ exceptions →
       has_gate t' v kill_addr dpl true name ∧ (dpl = 3 ↔ v = 3 ∨ v = 4 ∨ v = 5)) ∧
    has_gate t' 14 page_fault_addr 0 false "#PF Page-Fault Exception" ∧
    ∀ v, v ≠ 14%nat → v ∉ vector <$> exceptions → same_for t t' v).
Proof using stubs_ok.
  intros Hs Hf. unfold exception_init. wp_step. rewrite Forall_forall in Hf. apply wp_register_all; [done| | |].
  { apply (bool_decide_unpack _). by vm_compute. }
  { unfold exceptions. repeat (apply Forall_cons; split; [split_and!; [lia..|apply Hf; set_solver]|]). constructor. }
  intros t1 Hs1 Hg1 Hsame1.
  assert (14%nat ∉ vector <$> exceptions) as H14 by (apply (bool_decide_unpack _); by vm_compute).
  apply wp_register_int; [done|lia|lia| |].
  { change (Z.to_nat 14) with 14%nat. rewrite (proj1 (proj2 (Hsame1 _ H14))). apply Hf. set_solver. }
  intros t2 Hs2 Hg2 Hsame2. split_and!; [|done|].
  - intros v dpl name Hin. pose proof (Hg1 v dpl name Hin) as (G1 & G2 & G3). split.
    + destruct (Hsame2 (Z.to_nat v)) as (E1 & E2 & E3).
      { intros E. apply H14. change (Z.to_nat 14) with 14%nat in E. rewrite <-E. by eapply elem_of_vector. }
      unfold has_gate. by rewrite E1, E2, E3.
    + assert (Forall (λ '(v, dpl, _), dpl = 3 ↔ v = 3 ∨ v = 4 ∨ v = 5) exceptions) as Hall
        by (unfold exceptions; repeat (apply Forall_cons; split; [lia|]); constructor).
      exact (proj1 (Forall_forall _ _) Hall _ Hin).
  - intros v Hne Hv. destruct (Hsame1 v Hv) as (E1 & E2 & E3). destruct (Hsame2 v Hne) as (E4 & E5 & E6).
    unfold same_for. split_and!; congruence.
Qed.
End gates.

(** ** Examples *)
Section exception_examples.
#[local] Existing Instance ex_ops.
#[local] Existing Instance ex_device.

(** A process whose stack pointer is at 0x8048100, where the word above it points to the
    same page, writes to address 0. *)
Definition ex_frame (code_segment : Z) : intr_frame := mk_intr_frame code_segment 0x8048100 6 14.
Definition ex_exc : exc (block ramdisk) := mk_exc (ex_proc 0x8048100 (bytes_of [0; 0x8048010])) 0 false [] [].
Lemma page_fault_correct_witness :
  match page_fault 0 (ex_frame SEL_UCSEG) ex_exc with
  | Ok (r, x') => r = Exited ∧ mach (x_proc x') = mach (x_proc ex_exc) ∧ reports x' = [mk_report 0 true true true]
  | _ => False
  end.
Proof.
  assert (match page_fault 0 (ex_frame SEL_UCSEG) ex_exc with
    | Ok (_, x') => reports x' = [mk_report 0 true true true] | _ => False end) as Er by (vm_compute; reflexivity).
  unfold ex_exc in *. destruct (ex_proc_ok 0x8048100 (bytes_of [0; 0x8048010]) ltac:(lia) ltac:(vm_compute; discriminate)) as (m & E & Hm & Hs).
  rewrite E in Er |- *.
  pose proof (page_fault_correct 0 (ex_frame SEL_UCSEG) (mk_exc (with_mach m ex_proc0) 0 false [] []) (em_running _ Hm)
    ltac:(simpl; lia) ltac:(reflexivity)) as Hw. unfold wpp in Hw.
  destruct (page_fault 0 (ex_frame SEL_UCSEG) _) as [[r x']| | |]; [|destruct Hw as [_ Hw]; discriminate Hw|destruct Er|destruct Er].
  destruct Hw as [-> [(_ & _ & ->)|[_ ->]]]; (split; [reflexivity|]; split; [reflexivity|exact Er]).
Defined.
Definition ex_stubs (v : Z) : Z := 0xc0020000 + 16 * v.
Lemma exception_init_correct_witness :
  wp (exception_init ex_stubs 0xc0021000 0xc0021100) ex_tables (λ _ t',
    has_gate ex_stubs t' 3 0xc0021000 3 true "#BP Breakpoint Exception" ∧
    has_gate ex_stubs t' 14 0xc0021100 0 false "#PF Page-Fault Exception").
Proof.
  eapply wp_mono; [apply (exception_init_correct ex_stubs 0xc0021000 0xc0021100)|].
  - intros v Hv. unfold ex_stubs. lia.
  - split_and!; reflexivity.
  - repeat constructor.
  - intros [] t' (H1 & H2 & _). split; [|exact H2]. apply (H1 3 3). left.
Defined.
End exception_examples.
