(* ===== verification/Clock.v ===== *)
(** * Clocks: devices/rtc.c, pit.c and timer.c

    The real-time clock, the programmable timer, and the conversion of times into
    ticks and loops.  What the hardware answers, and how long a loop takes, are
    arguments. *)

From S2P Require Import Prelude.
Local Open Scope Z_scope.

(** ** The real-time clock *)

Definition RTC_REG_SEC : Z := 0.
Definition RTC_REG_MIN : Z := 2.
Definition RTC_REG_HOUR : Z := 4.
Definition RTC_REG_MDAY : Z := 7.
Definition RTC_REG_MON : Z := 8.
Definition RTC_REG_YEAR : Z := 9.
Definition bcd_to_bin (x : Z) : Z := Z.land x 0x0f + Z.shiftr x 4 * 10.
Definition days_per_month : list Z := [31; 28; 31; 30; 31; 30; 31; 31; 30; 31; 30; 31].

Section rtc.
(** The state of the clock chip, and what it answers to cmos_read (). *)
Context {C : Type} (cmos : Z → C → Z * C).

Definition cmos_read (index : Z) : M C Z := λ c, let '(v, c) := cmos index c in Ok (u8 v, c).
Definition read_bcd (index : Z) : M C Z := v ← cmos_read index; mret (bcd_to_bin v).
(** The loop that reads the time until it is stable; [fuel] bounds the rounds. *)
Fixpoint rtc_loop (fuel : nat) : M C (Z * Z * Z * Z * Z * Z) :=
  match fuel with
  | O => nofuel
  | S fuel =>
    sec ← read_bcd RTC_REG_SEC;
    min ← read_bcd RTC_REG_MIN;
    hour ← read_bcd RTC_REG_HOUR;
    mday ← read_bcd RTC_REG_MDAY;
    mon ← read_bcd RTC_REG_MON;
    year ← read_bcd RTC_REG_YEAR;
    again ← read_bcd RTC_REG_SEC;
    if negb (sec =? again) then rtc_loop fuel else mret (sec, min, hour, mday, mon, year)
  end.
(** for (i = 1; i <= mon; i++): time_t is an unsigned 32-bit integer. *)
Fixpoint add_months (n : nat) (i time : Z) : M C Z :=
  match n with
  | O => mret time
  | S n =>
    d ← from_option (days_per_month !! Z.to_nat (i - 1));
    add_months n (i + 1) (u32 (time + d * 24 * 60 * 60))
  end.
Definition rtc_get_time (fuel : nat) : M C Z :=
  '(sec, min, hour, mday, mon, year) ← rtc_loop fuel;
  let year := if year <? 70 then year + 100 else year in
  let year := year - 70 in
  let time := u32 (s32 ((year * 365 + (year - 1) `quot` 4) * 24 * 60 * 60)) in
  time ← add_months (Z.to_nat mon) 1 time;
  let time := if (2 <? mon) && (year `rem` 4 =? 0) then u32 (time + 24 * 60 * 60) else time in
  let time := u32 (time + (mday - 1) * 24 * 60 * 60) in
  let time := u32 (time + hour * 60 * 60) in
  let time := u32 (time + min * 60) in
  mret (u32 (time + sec)).
End rtc.

(** ** The programmable interrupt timer *)

Definition PIT_HZ : Z := 1193180.
Definition PIT_PORT_CONTROL : Z := 0x43.
Definition PIT_PORT_COUNTER (channel : Z) : Z := 0x40 + channel.
Definition pit_count (frequency : Z) : Z :=
  if frequency <? 19 then 0
  else if PIT_HZ <? frequency then 2
  else wrap 16 ((PIT_HZ + frequency `quot` 2) `quot` frequency).
(** The state is the list of writes to ports, which happen with interrupts off. *)
Definition pit_out (port v : Z) : M (list (Z * Z)) unit := modify (λ l, l ++ [(port, u8 v)]).
Definition pit_configure_channel (channel mode frequency : Z) : M (list (Z * Z)) unit :=
  assert ((channel =? 0) || (channel =? 2));;
  assert ((mode =? 2) || (mode =? 3));;
  let count := pit_count frequency in
  pit_out PIT_PORT_CONTROL (Z.lor (Z.lor (Z.shiftl channel 6) 0x30) (Z.shiftl mode 1));;
  pit_out (PIT_PORT_COUNTER channel) count;;
  pit_out (PIT_PORT_COUNTER channel) (Z.shiftr count 8).

(** ** Ticks and loops *)

Definition TIMER_FREQ : Z := 100.
Section calibrate.
(** Whether LOOPS iterations take longer than a tick.  The state says whether
    interrupts are on; what is printed is left out. *)
Context (too_many_loops : Z → bool).

(** while (!too_many_loops (loops_per_tick << 1)), at most [fuel] rounds. *)
Fixpoint double_loop (fuel : nat) (loops_per_tick : Z) : M bool Z :=
  match fuel with
  | O => nofuel
  | S fuel =>
    if too_many_loops (u32 (Z.shiftl loops_per_tick 1)) then mret loops_per_tick
    else
      let loops_per_tick := u32 (Z.shiftl loops_per_tick 1) in
      assert (negb (loops_per_tick =? 0));;
      double_loop fuel loops_per_tick
  end.
Fixpoint refine_loop (fuel : nat) (high_bit test_bit loops_per_tick : Z) : M bool Z :=
  match fuel with
  | O => nofuel
  | S fuel =>
    if test_bit =? Z.shiftr high_bit 10 then mret loops_per_tick
    else
      let loops_per_tick :=
        if negb (too_many_loops (Z.lor high_bit test_bit)) then Z.lor loops_per_tick test_bit else loops_per_tick in
      refine_loop fuel high_bit (Z.shiftr test_bit 1) loops_per_tick
  end.
Definition timer_calibrate : M bool Z :=
  assertM (gets id);;
  high_bit ← double_loop 32 (Z.shiftl 1 10);
  refine_loop 10 high_bit (Z.shiftr high_bit 1) high_bit.
End calibrate.

(** What real_time_sleep () does: sleep for a number of ticks, or busy-wait for a
    number of loops. *)
Inductive delay := SleepTicks (ticks : Z) | BusyWait (loops : Z).
Definition real_time_delay (loops_per_tick num denom : Z) : M bool delay :=
  assert (denom `rem` 1000 =? 0);;
  mret (BusyWait ((s64 (s64 (loops_per_tick * num) `quot` 1000 * TIMER_FREQ)) `quot` (denom `quot` 1000))).
Definition real_time_sleep (loops_per_tick num denom : Z) : M bool delay :=
  let ticks := s64 (num * TIMER_FREQ) `quot` denom in
  assertM (gets id);;
  if 0 <? ticks then mret (SleepTicks ticks) else real_time_delay loops_per_tick num denom.
Definition timer_msleep (loops_per_tick ms : Z) : M bool delay := real_time_sleep loops_per_tick ms 1000.
Definition timer_usleep (loops_per_tick us : Z) : M bool delay := real_time_sleep loops_per_tick us (1000 * 1000).
Definition timer_nsleep (loops_per_tick ns : Z) : M bool delay := real_time_sleep loops_per_tick ns (1000 * 1000 * 1000).
Definition timer_mdelay (loops_per_tick ms : Z) : M bool delay := real_time_delay loops_per_tick ms 1000.
Definition timer_udelay (loops_per_tick us : Z) : M bool delay := real_time_delay loops_per_tick us (1000 * 1000).
Definition timer_ndelay (loops_per_tick ns : Z) : M bool delay := real_time_delay loops_per_tick ns (1000 * 1000 * 1000).
