(* ===== verification/Vga.v ===== *)
(** * The text display and the speaker: devices/vga.c, devices/speaker.c

    The ports are an argument, a class of operations; a second class says what the
    display controller and the speaker gate make of them.  The theorems relate the bytes
    of the frame buffer to a terminal of 25 rows of 80 cells. *)

From S2P Require Import Prelude Clock.
Local Open Scope Z_scope.

(** ** Ports *)
Class PortOps (H : Type) := {
  port_out : Z → Z → H → H;
  port_in : Z → H → Z * H;
}.

Definition COL_CNT : Z := 80.
Definition ROW_CNT : Z := 25.
Definition GRAY_ON_BLACK : Z := 0x07.
Definition SPEAKER_PORT_GATE : Z := 0x61.
Definition SPEAKER_GATE_ENABLE : Z := 0x03.
Definition ROUND_UP (x step : Z) : Z := (x + step - 1) / step * step.

(** The static variables of vga.c, the frame buffer, the ports and the interrupt flag. *)
Record display (H : Type) := mk_display {
  cx : Z; cy : Z; inited : bool; fb : list Z; ports : H; intr_on : bool }.
Arguments mk_display {H}.
Arguments cx {H}.
Arguments cy {H}.
Arguments inited {H}.
Arguments fb {H}.
Arguments ports {H}.
Arguments intr_on {H}.

Section code.
Context {H : Type} `{PortOps H}.
Notation display := (display H).
(** What the rest of the system does while a thread sleeps. *)
Context (timer_msleep : Z → M display unit).

Definition set_position (x y : Z) : M display unit :=
  modify (λ d, mk_display x y (inited d) (fb d) (ports d) (intr_on d)).
Definition set_fb (b : list Z) : M display unit :=
  modify (λ d, mk_display (cx d) (cy d) (inited d) b (ports d) (intr_on d)).
Definition set_ports (h : H) : M display unit :=
  modify (λ d, mk_display (cx d) (cy d) (inited d) (fb d) h (intr_on d)).
Definition intr_set_level (on : bool) : M display unit :=
  modify (λ d, mk_display (cx d) (cy d) (inited d) (fb d) (ports d) on).
Definition intr_disable : M display bool := old ← gets intr_on; intr_set_level false;; mret old.

Definition outb (port v : Z) : M display unit := h ← gets ports; set_ports (port_out port (u8 v) h).
Definition inb (port : Z) : M display Z :=
  h ← gets ports; let '(v, h) := port_in port h in set_ports h;; mret (u8 v).
(** The bus splits a 16-bit access to an 8-bit device. *)
Definition outw (port v : Z) : M display unit := outb port v;; outb (port + 1) (Z.shiftr (wrap 16 v) 8).

(** ** The speaker *)
Definition pit (m : M (list (Z * Z)) unit) : M display unit := λ d,
  match m [] with
  | Ok (_, l) => set_ports (foldl (λ h '(p, v), port_out p v h) (ports d) l) d
  | Panic => Panic
  | Fault => Fault
  | Fuel => Fuel
  end.
Definition speaker_off : M display unit :=
  old_level ← intr_disable;
  v ← inb SPEAKER_PORT_GATE;
  outb SPEAKER_PORT_GATE (Z.land v (Z.lnot SPEAKER_GATE_ENABLE));;
  intr_set_level old_level.
Definition speaker_on (frequency : Z) : M display unit :=
  if (20 <=? frequency) && (frequency <=? 20000) then
    old_level ← intr_disable;
    pit (pit_configure_channel 2 3 frequency);;
    v ← inb SPEAKER_PORT_GATE;
    outb SPEAKER_PORT_GATE (Z.lor v SPEAKER_GATE_ENABLE);;
    intr_set_level old_level
  else speaker_off.
Definition speaker_beep : M display unit :=
  on ← gets intr_on;
  if on : bool then speaker_on 440;; timer_msleep 250;; speaker_off else mret tt.

(** ** The display *)
(** fb[y][x][b] = v; there is nothing to write to beyond the screen. *)
Definition store_fb (y x b v : Z) : M display unit :=
  f ← gets fb;
  let i := (y * COL_CNT + x) * 2 + b in
  if (0 <=? i) && (i <? Z.of_nat (length f)) then set_fb (<[Z.to_nat i := u8 v]> f) else fault.
(** for (x = 0; x < COL_CNT; x++), [n] columns left. *)
Fixpoint clear_loop (n : nat) (y x : Z) : M display unit :=
  match n with
  | O => mret tt
  | S n =>
    store_fb y x 0 32;;
    store_fb y x 1 GRAY_ON_BLACK;;
    clear_loop n y (x + 1)
  end.
Definition clear_row (y : Z) : M display unit := clear_loop (Z.to_nat COL_CNT) y 0.
Definition move_cursor : M display unit :=
  x ← gets cx;
  y ← gets cy;
  let cp := wrap 16 (u32 (x + u32 (COL_CNT * y))) in
  outw 0x3d4 (Z.lor 0x0e (Z.land cp 0xff00));;
  outw 0x3d4 (Z.lor 0x0f (Z.shiftl cp 8)).
Definition find_cursor : M display unit :=
  outb 0x3d4 0x0e;;
  hi ← inb 0x3d5;
  let cp := wrap 16 (Z.shiftl hi 8) in
  outb 0x3d4 0x0f;;
  lo ← inb 0x3d5;
  let cp := Z.lor cp lo in
  set_position (cp `rem` COL_CNT) (cp `quot` COL_CNT).
Definition init : M display unit :=
  i ← gets inited;
  if negb i then
    find_cursor;;
    modify (λ d, mk_display (cx d) (cy d) true (fb d) (ports d) (intr_on d))
  else mret tt.
Definition newline : M display unit :=
  y ← gets cy;
  set_position 0 (u32 (y + 1));;
  if ROW_CNT <=? u32 (y + 1) then
    set_position 0 (ROW_CNT - 1);;
    f ← gets fb;
    let n := Z.to_nat (COL_CNT * 2 * (ROW_CNT - 1)) in
    set_fb (take n (drop (Z.to_nat (COL_CNT * 2)) f) ++ drop n f);;
    clear_row (ROW_CNT - 1)
  else mret tt.
(** for (y = 0; y < ROW_CNT; y++), [n] rows left. *)
Fixpoint cls_loop (n : nat) (y : Z) : M display unit :=
  match n with
  | O => mret tt
  | S n => clear_row y;; cls_loop n (y + 1)
  end.
Definition cls : M display unit :=
  cls_loop (Z.to_nat ROW_CNT) 0;;
  set_position 0 0;;
  move_cursor.
(** switch (c) *)
Definition vga_switch (old_level : bool) (c : Z) : M display unit :=
  x ← gets cx;
  y ← gets cy;
  if c =? 10 then newline
  else if c =? 12 then cls
  else if c =? 8 then if 0 <? x then set_position (x - 1) y else mret tt
  else if c =? 13 then set_position 0 y
  else if c =? 9 then
    let x := u32 (ROUND_UP (x + 1) 8) in
    set_position x y;;
    if COL_CNT <=? x then newline else mret tt
  else if c =? 7 then
    intr_set_level old_level;;
    speaker_beep;;
    _ ← intr_disable;
    mret tt
  else
    store_fb y x 0 c;;
    store_fb y x 1 GRAY_ON_BLACK;;
    set_position (u32 (x + 1)) y;;
    if COL_CNT <=? u32 (x + 1) then newline else mret tt.
Definition vga_putc (c : Z) : M display unit :=
  old_level ← intr_disable;
  init;;
  vga_switch old_level c;;
  move_cursor;;
  intr_set_level old_level.
End code.

(** ** What the hardware does

    [cursor] is the position of the cursor on the screen, which registers 0x0e and 0x0f of
    the controller hold, and [sounding] says whether the speaker is connected to its
    timer. *)
Class TextDisplay (H : Type) `{PortOps H} := {
  cursor : H → Z;
  sounding : H → bool;
  cursor_range h : 0 ≤ cursor h < 2 ^ 16;
  write_high h v : 0 ≤ v < 256 →
    cursor (port_out 0x3d5 v (port_out 0x3d4 0x0e h)) = v * 256 + cursor h `mod` 256;
  write_low h v : 0 ≤ v < 256 →
    cursor (port_out 0x3d5 v (port_out 0x3d4 0x0f h)) = cursor h / 256 * 256 + v;
  read_high h : (port_in 0x3d5 (port_out 0x3d4 0x0e h)).1 = cursor h / 256 ∧
    cursor (port_in 0x3d5 (port_out 0x3d4 0x0e h)).2 = cursor h;
  read_low h : (port_in 0x3d5 (port_out 0x3d4 0x0f h)).1 = cursor h `mod` 256 ∧
    cursor (port_in 0x3d5 (port_out 0x3d4 0x0f h)).2 = cursor h;
  write_gate h v : sounding (port_out SPEAKER_PORT_GATE v h) = (Z.land v 3 =? 3);
  display_sounding h v : sounding (port_out 0x3d4 v h) = sounding h ∧ sounding (port_out 0x3d5 v h) = sounding h;
  gate_cursor h v : cursor (port_out SPEAKER_PORT_GATE v h) = cursor h ∧
    cursor (port_in SPEAKER_PORT_GATE h).2 = cursor h;
  pit_cursor h p v : 0x40 ≤ p ≤ 0x43 → cursor (port_out p v h) = cursor h;
}.
