(* ===== verification/VgaThms.v ===== *)
(** * The text display shows a terminal: theorems on devices/vga.c and speaker.c

    The bytes of the frame buffer stand for a terminal of 25 rows of 80 cells, and
    vga_putc () does to the one what a terminal does to the other. *)

From S2P Require Import Prelude Clock Vga.
Local Open Scope Z_scope.

(** ** The terminal the display shows

    A cell is a character and its attribute. *)
Record terminal := mk_terminal { rows : list (list (Z * Z)); row : nat; col : nat }.
Definition blank : list (Z * Z) := replicate 80 (32, 7).
Definition term_newline (t : terminal) : terminal :=
  if (row t =? 24)%nat then mk_terminal (tail (rows t) ++ [blank]) 24 0 else mk_terminal (rows t) (S (row t)) 0.
Definition term_wrap (t : terminal) : terminal := if (80 <=? col t)%nat then term_newline t else t.
Definition term_putc (t : terminal) (c : Z) : terminal :=
  if c =? 10 then term_newline t
  else if c =? 12 then mk_terminal (replicate 25 blank) 0 0
  else if c =? 8 then mk_terminal (rows t) (row t) (pred (col t))
  else if c =? 13 then mk_terminal (rows t) (row t) 0
  else if c =? 9 then term_wrap (mk_terminal (rows t) (row t) ((col t / 8 + 1) * 8))
  else if c =? 7 then t
  else term_wrap (mk_terminal (alter <[col t := (u8 c, 7)]> (row t) (rows t)) (row t) (S (col t))).

Definition term_ok (t : terminal) : Prop :=
  length (rows t) = 25%nat ∧ Forall (λ r, length r = 80%nat) (rows t) ∧ (row t < 25)%nat ∧ (col t < 80)%nat.
(** The bytes of the frame buffer. *)
Definition cell_bytes (c : Z * Z) : list Z := [c.1; c.2].
Definition row_bytes (r : list (Z * Z)) : list Z := mjoin (cell_bytes <$> r).
Definition screen_bytes (rs : list (list (Z * Z))) : list Z := mjoin (row_bytes <$> rs).
Definition position (t : terminal) : Z := 80 * Z.of_nat (row t) + Z.of_nat (col t).
Definition shows {H} `{TextDisplay H} (d : display H) (t : terminal) : Prop :=
  term_ok t ∧ fb d = screen_bytes (rows t) ∧
  if inited d then cx d = Z.of_nat (col t) ∧ cy d = Z.of_nat (row t) else cursor (ports d) = position t.

Lemma length_row_bytes r : length (row_bytes r) = (2 * length r)%nat.
Proof. induction r as [|c r IH]; [done|]. change (S (S (length (row_bytes r))) = (2 * S (length r))%nat). lia. Qed.
Lemma row_bytes_app r r' : row_bytes (r ++ r') = row_bytes r ++ row_bytes r'.
Proof. unfold row_bytes. by rewrite fmap_app, join_app. Qed.
Lemma screen_bytes_app rs rs' : screen_bytes (rs ++ rs') = screen_bytes rs ++ screen_bytes rs'.
Proof. unfold screen_bytes. by rewrite fmap_app, join_app. Qed.
Lemma screen_bytes_cons r rs : screen_bytes (r :: rs) = row_bytes r ++ screen_bytes rs.
Proof. done. Qed.
Lemma length_screen_bytes rs :
  Forall (λ r, length r = 80%nat) rs → length (screen_bytes rs) = (160 * length rs)%nat.
Proof.
  induction 1 as [|r rs Hr Hrs IH]; [done|].
  rewrite screen_bytes_cons, length_app, length_row_bytes, IH. simpl. lia.
Qed.
(** A byte of a cell in the row, and a row on the screen. *)
Lemma row_bytes_insert r x (b v : Z) c : r !! x = Some c → b = 0 ∨ b = 1 →
  <[(2 * x + Z.to_nat b)%nat := v]> (row_bytes r) =
  row_bytes (<[x := if b =? 0 then (v, c.2) else (c.1, v)]> r).
Proof.
  intros Hx Hb. rewrite <-(take_drop_middle r x c Hx) at 1. pose proof (lookup_lt_Some _ _ _ Hx).
  rewrite (insert_take_drop r x) by done. rewrite !row_bytes_app.
  assert (Hl : length (row_bytes (take x r)) = (2 * x)%nat) by (rewrite length_row_bytes, length_take; lia).
  rewrite insert_app_r_alt by lia. f_equal. rewrite Hl. replace (2 * x + Z.to_nat b - 2 * x)%nat with (Z.to_nat b) by lia.
  by destruct Hb as [-> | ->].
Qed.
Lemma screen_bytes_insert rs y r i v : Forall (λ r, length r = 80%nat) rs → rs !! y = Some r → (i < 160)%nat →
  <[(160 * y + i)%nat := v]> (screen_bytes rs) =
  screen_bytes (take y rs) ++ <[i := v]> (row_bytes r) ++ screen_bytes (drop (S y) rs).
Proof.
  intros Hrs Hy Hi. rewrite <-(take_drop_middle rs y r Hy) at 1. rewrite screen_bytes_app, screen_bytes_cons.
  pose proof (lookup_lt_Some _ _ _ Hy).
  assert (Hl : length (screen_bytes (take y rs)) = (160 * y)%nat)
    by (rewrite length_screen_bytes, length_take by (by apply Forall_take); lia).
  rewrite insert_app_r_alt by lia. f_equal. rewrite Hl. replace (160 * y + i - 160 * y)%nat with i by lia.
  apply insert_app_l. rewrite length_row_bytes. by rewrite (Forall_lookup_1 _ _ _ _ Hrs Hy).
Qed.
Lemma cell_insert rs y r x c b v :
  Forall (λ r, length r = 80%nat) rs → rs !! y = Some r → r !! x = Some c → b = 0 ∨ b = 1 →
  <[Z.to_nat ((Z.of_nat y * 80 + Z.of_nat x) * 2 + b) := v]> (screen_bytes rs) =
  screen_bytes (<[y := <[x := if b =? 0 then (v, c.2) else (c.1, v)]> r]> rs).
Proof.
  intros Hrs Hy Hx Hb. pose proof (lookup_lt_Some _ _ _ Hx). pose proof (lookup_lt_Some _ _ _ Hy).
  pose proof (Forall_lookup_1 _ _ _ _ Hrs Hy) as Hr. simpl in Hr.
  replace (Z.to_nat _) with (160 * y + (2 * x + Z.to_nat b))%nat by lia.
  rewrite (screen_bytes_insert _ _ r), (row_bytes_insert _ _ _ _ c), (insert_take_drop rs y) by (done || lia).
  by rewrite screen_bytes_app, screen_bytes_cons.
Qed.

Section proofs.
Context {H : Type} `{TextDisplay H}.
Notation display := (display H).
Implicit Types d : display.

(** The display with another screen. *)
Definition with_fb d (b : list Z) : display := mk_display (cx d) (cy d) (inited d) b (ports d) (intr_on d).
Lemma wp_store_fb d rs y r x c b v Q :
  length rs = 25%nat → Forall (λ r, length r = 80%nat) rs → fb d = screen_bytes rs →
  rs !! y = Some r → r !! x = Some c → b = 0 ∨ b = 1 →
  Q tt (with_fb d (screen_bytes (<[y := <[x := if b =? 0 then (u8 v, c.2) else (c.1, u8 v)]> r]> rs))) →
  wp (store_fb (Z.of_nat y) (Z.of_nat x) b v) d Q.
Proof.
  intros H25 Hrs Hfb Hy Hx Hb HQ. unfold store_fb. do 2 wp_step. rewrite Hfb, length_screen_bytes by done.
  pose proof (lookup_lt_Some _ _ _ Hx). pose proof (lookup_lt_Some _ _ _ Hy).
  pose proof (Forall_lookup_1 _ _ _ _ Hrs Hy) as Hr. simpl in Hr.
  unfold COL_CNT. destruct (Z.leb_spec 0 ((Z.of_nat y * 80 + Z.of_nat x) * 2 + b)); [|lia].
  destruct (Z.ltb_spec ((Z.of_nat y * 80 + Z.of_nat x) * 2 + b) (Z.of_nat (160 * length rs))); [|lia]. simpl.
  rewrite (cell_insert _ _ r _ c) by done. exact HQ.
Qed.
(** Both bytes of a cell. *)
Lemma wp_store_cell d rs y r x v (k : M display unit) Q :
  length rs = 25%nat → Forall (λ r, length r = 80%nat) rs → fb d = screen_bytes rs →
  rs !! y = Some r → (x < 80)%nat →
  wp k (with_fb d (screen_bytes (<[y := <[x := (u8 v, 7)]> r]> rs))) Q →
  wp (store_fb (Z.of_nat y) (Z.of_nat x) 0 v;; store_fb (Z.of_nat y) (Z.of_nat x) 1 GRAY_ON_BLACK;; k) d Q.
Proof.
  intros H25 Hrs Hfb Hy Hx HQ. pose proof (Forall_lookup_1 _ _ _ _ Hrs Hy) as Hr. simpl in Hr.
  pose proof (lookup_lt_Some _ _ _ Hy). destruct (lookup_lt_is_Some_2 r x) as [c Hc]; [lia|].
  wp_step. apply (wp_store_fb _ rs _ r _ c); auto. simpl.
  wp_step. eapply (wp_store_fb _ (<[y := <[x := (u8 v, c.2)]> r]> rs) _ (<[x := (u8 v, c.2)]> r) _ (u8 v, c.2)); auto.
  - by rewrite length_insert.
  - apply Forall_insert; [done|by rewrite length_insert].
  - by rewrite list_lookup_insert_eq by done.
  - by rewrite list_lookup_insert_eq by (rewrite Hr; done).
  - simpl. by rewrite !list_insert_insert_eq.
Qed.
Lemma wp_clear_loop n d rs y r x Q :
  length rs = 25%nat → Forall (λ r, length r = 80%nat) rs → fb d = screen_bytes rs →
  rs !! y = Some r → (n + x = 80)%nat → take x r = replicate x (32, 7) →
  Q tt (with_fb d (screen_bytes (<[y := blank]> rs))) →
  wp (clear_loop n (Z.of_nat y) (Z.of_nat x)) d Q.
Proof.
  revert d rs r x. induction n as [|n IH]; intros d rs r x H25 Hrs Hfb Hy Hn Hx HQ; cbn [clear_loop];
    pose proof (Forall_lookup_1 _ _ _ _ Hrs Hy) as Hr; simpl in Hr; pose proof (lookup_lt_Some _ _ _ Hy).
  - wp_step. rewrite take_ge in Hx by lia. assert (x = 80%nat) as -> by lia. fold blank in Hx. subst r.
    rewrite list_insert_id, <-Hfb in HQ by done. by destruct d.
  - apply (wp_store_cell _ rs _ r); auto; [lia|]. replace (Z.of_nat x + 1) with (Z.of_nat (S x)) by lia.
    eapply (IH _ (<[y := <[x := (u8 32, 7)]> r]> rs) (<[x := (u8 32, 7)]> r)); auto.
    + by rewrite length_insert.
    + apply Forall_insert; [done|by rewrite length_insert].
    + by rewrite list_lookup_insert_eq by lia.
    + lia.
    + rewrite (take_S_r _ _ (32, 7)) by (by rewrite list_lookup_insert_eq by lia).
      by rewrite take_insert_ge, Hx, <-replicate_S_end by lia.
    + simpl. by rewrite list_insert_insert_eq.
Qed.
Lemma wp_clear_row d rs (y : nat) Q :
  length rs = 25%nat → Forall (λ r, length r = 80%nat) rs → fb d = screen_bytes rs → (y < 25)%nat →
  Q tt (with_fb d (screen_bytes (<[y := blank]> rs))) → wp (clear_row (Z.of_nat y)) d Q.
Proof.
  intros H25 Hrs Hfb Hy HQ. destruct (lookup_lt_is_Some_2 rs y) as [r Hr]; [lia|].
  apply (wp_clear_loop 80 _ rs _ r 0); auto.
Qed.

(** *** Lines *)
Definition draw d (t : terminal) : display :=
  mk_display (Z.of_nat (col t)) (Z.of_nat (row t)) (inited d) (screen_bytes (rows t)) (ports d) (intr_on d).
Lemma wp_newline d t Q :
  length (rows t) = 25%nat → Forall (λ r, length r = 80%nat) (rows t) → (row t < 25)%nat →
  fb d = screen_bytes (rows t) → cy d = Z.of_nat (row t) →
  Q tt (draw d (term_newline t)) → wp newline d Q.
Proof.
  intros H25 Hrs Hrow Hfb Hy HQ. unfold newline. do 2 wp_step. rewrite Hy. unfold ROW_CNT, COL_CNT.
  assert (u32 (Z.of_nat (row t) + 1) = Z.of_nat (row t) + 1) as -> by (apply wrap_small; lia).
  unfold term_newline in HQ. wp_step. apply wp_modify. destruct (Z.leb_spec 25 (Z.of_nat (row t) + 1)) as [Hlast|Hlast].
  - destruct (Nat.eqb_spec (row t) 24); [|lia]. wp_step. apply wp_modify. do 2 wp_step. simpl. wp_step. apply wp_modify. simpl.
    rewrite Hfb. destruct (rows t) as [|r rs] eqn:Ers; [done|]. apply Forall_cons in Hrs as [Hr Hrs]. simpl in H25.
    destruct (list_snoc_inv rs) as [->|(rs' & l & ->)]; [done|]. rewrite length_app in H25. simpl in H25.
    pose proof (proj1 (Forall_app _ _ _) Hrs) as [Hrs' Hl]. apply (wp_clear_row _ ((rs' ++ [l]) ++ [l]) 24); [| | |lia|].
    + rewrite !length_app. simpl. lia.
    + by apply Forall_app.
    + cbn [fb]. rewrite screen_bytes_cons, (screen_bytes_app (rs' ++ [l])).
      rewrite (drop_app_length' _ _ 160), take_ge by (rewrite ?length_row_bytes, ?length_screen_bytes, ?length_app by done; simpl; lia).
      f_equal. rewrite screen_bytes_app, app_assoc. apply drop_app_length'.
      rewrite length_app, length_row_bytes, length_screen_bytes by done. lia.
    + rewrite insert_app_r_alt by (rewrite length_app; simpl; lia). rewrite length_app. cbn [length].
      by replace (24 - (length rs' + 1))%nat with 0%nat by lia.
  - destruct (Nat.eqb_spec (row t) 24); [lia|]. wp_step. unfold draw in HQ. simpl in HQ.
    rewrite Hfb. by replace (Z.of_nat (row t) + 1) with (Z.of_nat (S (row t))) by lia.
Qed.
Lemma high_byte cp : 0 ≤ cp < 2 ^ 16 → Z.land cp 0xff00 = cp / 256 * 256.
Proof.
  intros Hcp. change 0xff00 with (Z.shiftl (Z.ones 8) 8).
  change 256 with (2 ^ 8). rewrite <-(Z.shiftl_mul_pow2 _ 8), <-(Z.shiftr_div_pow2 cp 8) by lia. apply Z.bits_inj'. intros k Hk.
  rewrite Z.land_spec, !Z.shiftl_spec by done. destruct (Z.lt_ge_cases k 8).
  - rewrite !(Z.testbit_neg_r _ (k - 8)) by lia. apply andb_false_r.
  - rewrite Z.shiftr_spec by lia. replace (k - 8 + 8) with k by lia. destruct (Z.lt_ge_cases k 16).
    + rewrite Z.ones_spec_low by lia. apply andb_true_r.
    + by rewrite (testbit_bound cp k 16).
Qed.
Lemma write_cursor_word cp r : 0 ≤ cp < 2 ^ 16 → 0 ≤ r < 256 →
  u8 (Z.lor r (Z.land cp 0xff00)) = r ∧ Z.shiftr (wrap 16 (Z.lor r (Z.land cp 0xff00))) 8 = cp / 256.
Proof.
  intros Hcp Hr. rewrite high_byte, (lor_add 8) by (lia || apply Z_mod_mult).
  unfold wrap. rewrite Z.shiftr_div_pow2 by lia. split; Z.div_mod_to_equations; lia.
Qed.
Lemma write_cursor_low cp r : 0 ≤ cp < 2 ^ 16 → 0 ≤ r < 256 →
  u8 (Z.lor r (Z.shiftl cp 8)) = r ∧ Z.shiftr (wrap 16 (Z.lor r (Z.shiftl cp 8))) 8 = cp mod 256.
Proof.
  intros Hcp Hr. rewrite Z.shiftl_mul_pow2, (lor_add 8) by (lia || apply Z_mod_mult).
  unfold wrap. rewrite Z.shiftr_div_pow2 by lia. split; Z.div_mod_to_equations; lia.
Qed.

(** *** The hardware cursor *)
Definition with_ports d (h : H) : display := mk_display (cx d) (cy d) (inited d) (fb d) h (intr_on d).
Lemma wp_outb d p v Q : Q tt (with_ports d (port_out p (u8 v) (ports d))) → wp (outb p v) d Q.
Proof. done. Qed.
Lemma wp_inb d p Q :
  Q (u8 (port_in p (ports d)).1) (with_ports d (port_in p (ports d)).2) → wp (inb p) d Q.
Proof. intros HQ. unfold inb. do 2 wp_step. by destruct (port_in p (ports d)). Qed.
Lemma wp_move_cursor d Q :
  0 ≤ cx d < 80 → 0 ≤ cy d < 25 →
  (∀ h, cursor h = 80 * cy d + cx d → sounding h = sounding (ports d) → Q tt (with_ports d h)) →
  wp move_cursor d Q.
Proof.
  intros Hx Hy HQ. unfold move_cursor, COL_CNT. do 4 wp_step.
  rewrite (wrap_small 32 (80 * cy d)), (wrap_small 32 (cx d + _)), (wrap_small 16) by lia.
  set (cp := cx d + 80 * cy d).
  destruct (write_cursor_word cp 0x0e) as [E1 E2]; [lia..|]. destruct (write_cursor_low cp 0x0f) as [E3 E4]; [lia..|].
  unfold outw. do 2 wp_step. apply wp_outb, wp_outb. wp_step. apply wp_outb, wp_outb. rewrite E1, E2, E3, E4. cbn [ports with_ports]. rewrite !wrap_small by (Z.div_mod_to_equations; lia). apply HQ.
  - rewrite write_low, write_high by (Z.div_mod_to_equations; lia). subst cp. Z.div_mod_to_equations; lia.
  - by rewrite !(proj2 (display_sounding _ _)), (proj1 (display_sounding _ _)), (proj2 (display_sounding _ _)), (proj1 (display_sounding _ _)).
Qed.
Lemma wp_find_cursor d Q :
  (∀ h, cursor h = cursor (ports d) →
    Q tt (mk_display (cursor (ports d) mod 80) (cursor (ports d) / 80) (inited d) (fb d) h (intr_on d))) →
  wp find_cursor d Q.
Proof.
  intros HQ. pose proof (cursor_range (ports d)) as Hc. unfold find_cursor.
  wp_step. apply wp_outb. wp_step. apply wp_inb. cbn [ports with_ports]. rewrite (wrap_small 8 0x0e) by lia.
  destruct (read_high (ports d)) as [R1 R2]. destruct (port_in _ _) as [v h]. cbn [fst snd] in R1, R2. subst v.
  cbn [fst snd]. wp_step. apply wp_outb. wp_step. apply wp_inb. cbn [ports with_ports]. rewrite (wrap_small 8 0x0f) by lia.
  destruct (read_low h) as [R3 R4]. destruct (port_in _ _) as [v h']. cbn [fst snd] in R3, R4. subst v.
  cbn [fst snd]. apply wp_modify. cbn [with_ports ports inited fb intr_on]. unfold COL_CNT. rewrite R2.
  assert (Z.lor (wrap 16 (Z.shiftl (u8 (cursor (ports d) / 256)) 8)) (u8 (cursor (ports d) mod 256)) = cursor (ports d)) as ->.
  { unfold wrap. rewrite Z.shiftl_mul_pow2, Z.lor_comm, (lor_add 8) by (lia || (Z.div_mod_to_equations; lia)).
    Z.div_mod_to_equations; lia. }
  rewrite Z.rem_mod_nonneg, Z.quot_div_nonneg by lia. apply HQ. congruence.
Qed.
Lemma wp_init d t Q :
  shows d t → (∀ d', shows d' t → inited d' = true → intr_on d' = intr_on d → Q tt d') → wp init d Q.
Proof.
  intros Hd HQ. unfold init. do 2 wp_step. destruct (inited d) eqn:Hi; cbn [negb]; [wp_step; by apply HQ|wp_step].
  destruct Hd as (Ht & Hfb & Hc). rewrite Hi in Hc. apply wp_find_cursor. intros h Hh. apply wp_modify. apply HQ; [|done..].
  split; [done|]. split; [done|]. simpl. rewrite Hc. unfold position.
  destruct Ht as (_ & _ & Hr & Hl). split; Z.div_mod_to_equations; lia.
Qed.

(** *** Clearing the screen *)
Lemma wp_cls_loop n d rs y Q :
  length rs = 25%nat → Forall (λ r, length r = 80%nat) rs → fb d = screen_bytes rs →
  (n + y = 25)%nat → take y rs = replicate y blank →
  Q tt (with_fb d (screen_bytes (replicate 25 blank))) → wp (cls_loop n (Z.of_nat y)) d Q.
Proof.
  revert d rs y. induction n as [|n IH]; intros d rs y H25 Hrs Hfb Hn Hy HQ; cbn [cls_loop].
  - wp_step. rewrite take_ge in Hy by lia. assert (y = 25%nat) as -> by lia. rewrite <-Hy, <-Hfb in HQ. by destruct d.
  - wp_step. apply (wp_clear_row _ rs); auto; [lia|]. replace (Z.of_nat y + 1) with (Z.of_nat (S y)) by lia.
    apply (IH _ (<[y := blank]> rs)); auto.
    + by rewrite length_insert.
    + by apply Forall_insert.
    + lia.
    + rewrite (take_S_r _ _ blank) by (by rewrite list_lookup_insert_eq by lia).
      by rewrite take_insert_ge, Hy, <-replicate_S_end by lia.
Qed.
Lemma wp_cls d t Q : term_ok t → fb d = screen_bytes (rows t) →
  (∀ h, sounding h = sounding (ports d) →
    Q tt (mk_display 0 0 (inited d) (screen_bytes (replicate 25 blank)) h (intr_on d))) → wp cls d Q.
Proof.
  intros (H25 & Hrs & _) Hfb HQ. unfold cls. wp_step. apply (wp_cls_loop 25 _ (rows t) 0); auto.
  wp_step. apply wp_modify. apply wp_move_cursor; [simpl; lia..|]. intros h _ Hs. by apply HQ.
Qed.

(** *** The speaker *)
Lemma gate_off v : Z.land (u8 (Z.land v (Z.lnot SPEAKER_GATE_ENABLE))) 3 = 0.
Proof.
  change 3 with (Z.ones 2) at 1. rewrite Z.land_ones by lia. unfold wrap.
  rewrite <-Znumtheory.Zmod_div_mod by (lia || by exists 64). rewrite <-Z.land_ones by lia.
  rewrite <-Z.land_assoc. change (Z.land (Z.lnot SPEAKER_GATE_ENABLE) (Z.ones 2)) with 0. apply Z.land_0_r.
Qed.
Lemma gate_on v : Z.land (u8 (Z.lor v SPEAKER_GATE_ENABLE)) 3 = 3.
Proof.
  change 3 with (Z.ones 2) at 1. rewrite Z.land_ones by lia. unfold wrap.
  rewrite <-Znumtheory.Zmod_div_mod by (lia || by exists 64). rewrite <-Z.land_ones by lia.
  apply Z.bits_inj'. intros k Hk. rewrite Z.land_spec, Z.lor_spec. change SPEAKER_GATE_ENABLE with 3.
  change (Z.ones 2) with 3. by destruct (Z.testbit v k), (Z.testbit 3 k).
Qed.
Lemma wp_speaker_off d Q :
  (∀ h, cursor h = cursor (ports d) → sounding h = false → Q tt (with_ports d h)) → wp speaker_off d Q.
Proof.
  intros HQ. unfold speaker_off, intr_disable. do 4 wp_step. apply wp_modify. wp_step. wp_step. apply wp_inb.
  wp_step. apply wp_outb. apply wp_modify. cbn [ports with_ports]. apply HQ.
  - by rewrite (proj1 (gate_cursor _ _)), (proj2 (gate_cursor _ 0)).
  - by rewrite write_gate, gate_off.
Qed.
Lemma wp_pit m l d Q :
  m [] = Ok (tt, l) → Q tt (with_ports d (foldl (λ h '(p, v), port_out p v h) (ports d) l)) → wp (pit m) d Q.
Proof. intros Hm HQ. unfold wp, pit. by rewrite Hm. Qed.
Lemma wp_speaker_on f d Q :
  20 ≤ f ≤ 20000 → (∀ h, cursor h = cursor (ports d) → sounding h = true → Q tt (with_ports d h)) →
  wp (speaker_on f) d Q.
Proof.
  intros Hf HQ. unfold speaker_on. destruct (Z.leb_spec 20 f), (Z.leb_spec f 20000); try lia. cbn [andb].
  unfold intr_disable. do 4 wp_step. apply wp_modify. wp_step. wp_step.
  apply (wp_pit _ [(0x43, 0xb6); (0x42, u8 (pit_count f)); (0x42, u8 (Z.shiftr (pit_count f) 8))]); [reflexivity|]. wp_step. apply wp_inb. wp_step. apply wp_outb. apply wp_modify.
  cbn [ports with_ports foldl app]. apply HQ; [|by rewrite write_gate, gate_on].
  rewrite (proj1 (gate_cursor _ _)), (proj2 (gate_cursor _ 0)). by rewrite !pit_cursor by lia.
Qed.

(** *** A character *)
Lemma term_newline_ok t : length (rows t) = 25%nat → Forall (λ r, length r = 80%nat) (rows t) → (row t < 25)%nat →
  term_ok (term_newline t).
Proof.
  intros H25 Hrs Hr. unfold term_newline. destruct (Nat.eqb_spec (row t) 24).
  - destruct (rows t) as [|r rs]; [done|]. apply Forall_cons in Hrs as [_ Hrs]. simpl in *.
    unfold term_ok. cbn [rows row col]. split; [rewrite length_app; simpl; lia|]. split; [apply Forall_app; split; [done|by constructor]|]. simpl. lia.
  - split; [done|]. split; [done|]. simpl. lia.
Qed.
Lemma term_wrap_ok t : length (rows t) = 25%nat → Forall (λ r, length r = 80%nat) (rows t) → (row t < 25)%nat →
  term_ok (term_wrap t).
Proof.
  intros. unfold term_wrap. destruct (Nat.leb_spec 80 (col t)); [by apply term_newline_ok|]. by split_and!.
Qed.
Lemma alter_rows_ok t c : term_ok t →
  length (alter <[col t := c]> (row t) (rows t)) = 25%nat ∧
  Forall (λ r, length r = 80%nat) (alter <[col t := c]> (row t) (rows t)).
Proof.
  intros (H25 & Hrs & _). rewrite length_alter. split; [done|]. apply Forall_lookup. intros i r.
  destruct (decide (i = row t)) as [->|].
  - rewrite list_lookup_alter_eq. intros (r' & Hr' & ->)%fmap_Some. rewrite length_insert.
    by apply (Forall_lookup_1 _ _ _ _ Hrs Hr').
  - rewrite list_lookup_alter_ne by done. intros Hi. exact (Forall_lookup_1 _ _ _ _ Hrs Hi).
Qed.
Lemma term_putc_ok t c : term_ok t → term_ok (term_putc t c).
Proof.
  intros Ht. pose proof Ht as (H25 & Hrs & Hr & Hc). unfold term_putc.
  repeat case_match; try done.
  - by apply term_newline_ok.
  - split; [done|]. split; [apply Forall_replicate; done|]. simpl. lia.
  - split_and!; simpl; try done. lia.
  - split_and!; simpl; try done. lia.
  - by apply term_wrap_ok.
  - destruct (alter_rows_ok t (u8 c, 7) Ht). by apply term_wrap_ok.
Qed.
Lemma wp_finish d old t Q :
  shows d t → inited d = true →
  (∀ d', shows d' t → inited d' = true → cursor (ports d') = position t → intr_on d' = old →
    sounding (ports d') = sounding (ports d) → Q tt d') →
  wp (move_cursor;; intr_set_level old) d Q.
Proof.
  intros (Ht & Hfb & Hc) Hi HQ. rewrite Hi in Hc. pose proof Ht as (_ & _ & Hr & Hl). destruct Hc as [Hx Hy].
  wp_step. apply wp_move_cursor; [lia..|]. intros h Hh Hs. apply wp_modify. apply HQ; [|done| |done..].
  - split; [done|]. split; [done|]. simpl. by rewrite Hi.
  - unfold position. simpl. lia.
Qed.
(** A new position, and a new line where it is beyond the last column. *)
Lemma wp_wrap d t Q :
  length (rows t) = 25%nat → Forall (λ r, length r = 80%nat) (rows t) → (row t < 25)%nat →
  fb d = screen_bytes (rows t) →
  Q tt (draw d (term_wrap t)) →
  wp (set_position (Z.of_nat (col t)) (Z.of_nat (row t));; if COL_CNT <=? Z.of_nat (col t) then newline else mret tt) d Q.
Proof.
  intros H25 Hrs Hr Hfb HQ. wp_step. apply wp_modify. unfold COL_CNT, term_wrap in *.
  destruct (Z.leb_spec 80 (Z.of_nat (col t))), (Nat.leb_spec 80 (col t)); try lia.
  - by apply (wp_newline _ t).
  - wp_step. rewrite Hfb. exact HQ.
Qed.

Section putc.
(** What other threads do to the terminal during a beep. *)
Context (timer_msleep : Z → M display unit) (meanwhile : terminal → terminal).
Hypothesis sleep_ok : ∀ d t, shows d t → inited d = true → intr_on d = true →
  wp (timer_msleep 250) d (λ _ d', shows d' (meanwhile t) ∧ inited d' = true ∧ intr_on d' = true).

Lemma shows_inited d t : shows d t → inited d = true →
  ∀ h on, shows (mk_display (cx d) (cy d) (inited d) (fb d) h on) t.
Proof. intros (Ht & Hfb & Hc) Hi h on. split; [done|]. split; [done|]. simpl. by rewrite Hi in *. Qed.
Lemma wp_beep d t (old : bool) Q : shows d t → inited d = true →
  (∀ d', shows d' (if old then meanwhile t else t) → inited d' = true → (old = true → sounding (ports d') = false) →
    Q tt d') →
  wp (intr_set_level old;; speaker_beep timer_msleep;; _ ← intr_disable; mret tt) d Q.
Proof.
  intros Hd Hi HQ. pose proof (shows_inited _ _ Hd Hi) as Hd'. wp_step. apply wp_modify. wp_step. unfold speaker_beep.
  do 2 wp_step. cbn [intr_on]. destruct old.
  - wp_step. apply wp_speaker_on; [lia|]. intros h _ _. wp_step. eapply wp_mono; [apply (sleep_ok _ t); [apply Hd'|done|done]|].
    intros _ d2 (Hd2 & Hi2 & _). apply wp_speaker_off. intros h2 _ Hoff. unfold intr_disable. do 4 wp_step. apply wp_modify.
    do 2 wp_step. apply HQ; [by apply (shows_inited d2)|done|done].
  - wp_step. unfold intr_disable. do 4 wp_step. apply wp_modify. do 2 wp_step. apply HQ; [apply Hd'|done..].
Qed.
Lemma alter_as_insert {A} (f : A → A) (l : list A) (i : nat) x : l !! i = Some x → alter f i l = <[i := f x]> l.
Proof. revert i. induction l as [|y l IH]; intros [|i]; simpl; [done..|by intros [= ->]|]. intros Hi. f_equal. by apply IH. Qed.
Lemma shows_draw d t : term_ok t → inited d = true → shows (draw d t) t.
Proof. intros Ht Hi. split; [done|]. split; [done|]. simpl. by rewrite Hi. Qed.
Lemma wp_vga_switch (old : bool) c d t Q : shows d t → inited d = true →
  (∀ d', shows d' (if (c =? 7) && old then meanwhile t else term_putc t c) → inited d' = true →
    ((c =? 7) && old = true → sounding (ports d') = false) → Q tt d') →
  wp (vga_switch timer_msleep old c) d Q.
Proof using sleep_ok.
  intros Hd Hi HQ. pose proof Hd as (Ht & Hfb & Hc). rewrite Hi in Hc. destruct Hc as [Hx Hy].
  pose proof Ht as (H25 & Hrs & Hr & Hl). pose proof (term_putc_ok t c Ht) as Ht'.
  unfold vga_switch. do 4 wp_step. rewrite Hx, Hy. unfold term_putc in *.
  destruct (Z.eqb_spec c 10) as [->|]; [|destruct (Z.eqb_spec c 12) as [->|]; [|destruct (Z.eqb_spec c 8) as [->|];
    [|destruct (Z.eqb_spec c 13) as [->|]; [|destruct (Z.eqb_spec c 9) as [->|]; [|destruct (Z.eqb_spec c 7) as [->|]]]]]];
    cbn [andb] in *.
  - apply (wp_newline _ t); try done. apply HQ; [by apply shows_draw|done..].
  - apply (wp_cls _ t); try done. intros h _. apply HQ; [|done..]. split; [done|]. split; [done|]. simpl. by rewrite Hi.
  - destruct (Z.ltb_spec 0 (Z.of_nat (col t))).
    + apply wp_modify. apply HQ; [|done..]. split; [done|]. split; [done|]. simpl. rewrite Hi. lia.
    + wp_step. apply HQ; [|done..]. split; [done|]. split; [done|]. simpl. rewrite Hi. lia.
  - apply wp_modify. apply HQ; [|done..]. split; [done|]. split; [done|]. simpl. by rewrite Hi.
  - replace (u32 (ROUND_UP (Z.of_nat (col t) + 1) 8)) with (Z.of_nat ((col t / 8 + 1) * 8)).
    2:{ unfold ROUND_UP, wrap. rewrite Nat2Z.inj_mul, Nat2Z.inj_add, Nat2Z.inj_div. Z.div_mod_to_equations. lia. }
    apply (wp_wrap _ (mk_terminal (rows t) (row t) ((col t / 8 + 1) * 8))); try done. apply HQ; [by apply shows_draw|done..].
  - by apply (wp_beep _ t).
  - destruct (lookup_lt_is_Some_2 (rows t) (row t)) as [r Hrow]; [lia|]. apply (wp_store_cell _ (rows t) _ r); try done.
    rewrite (wrap_small 32) by lia. replace (Z.of_nat (col t) + 1) with (Z.of_nat (S (col t))) by lia.
    destruct (alter_rows_ok t (u8 c, 7) Ht) as [H25' Hrs'].
    apply (wp_wrap _ (mk_terminal (alter <[col t := (u8 c, 7)]> (row t) (rows t)) (row t) (S (col t)))); try done.
    { simpl. by rewrite (alter_as_insert _ _ _ r). }
    apply HQ; [by apply shows_draw|done..].
Qed.

Lemma wp_vga_putc d t c Q : shows d t →
  (∀ d', let t' := if (c =? 7) && intr_on d then meanwhile t else term_putc t c in
    shows d' t' ∧ inited d' = true ∧ cursor (ports d') = position t' ∧ intr_on d' = intr_on d ∧
    ((c =? 7) && intr_on d = true → sounding (ports d') = false) → Q tt d') →
  wp (vga_putc timer_msleep c) d Q.
Proof using sleep_ok.
  intros Hd HQ. unfold vga_putc. unfold intr_disable at 1. do 4 wp_step. apply wp_modify. do 2 wp_step.
  apply (wp_init _ t); [exact Hd|]. intros d1 Hd1 Hi1 _. wp_step. apply (wp_vga_switch _ _ _ t); [done..|].
  intros d2 Hd2 Hi2 Hs2. eapply wp_finish; [done..|]. intros d3 ???? E. apply HQ. split_and!; try done. intros Hb. rewrite E. auto.
Qed.
(** C13: vga_putc () does to the frame buffer what a terminal of 25 rows of 80 cells does
    with the character: line feeds scroll, form feeds clear, tabs go to the next multiple
    of eight, and text wraps at the last column.  No write leaves the buffer, the hardware
    cursor follows, and the interrupt level is as before.  A bell beeps, with interrupts
    on, and leaves the speaker off; meanwhile other threads may use the terminal. *)
Theorem vga_putc_correct d t c : shows d t →
  wp (vga_putc timer_msleep c) d (λ _ d',
    let t' := if (c =? 7) && intr_on d then meanwhile t else term_putc t c in
    shows d' t' ∧ inited d' = true ∧ cursor (ports d') = position t' ∧ intr_on d' = intr_on d ∧
    ((c =? 7) && intr_on d = true → sounding (ports d') = false)).
Proof using sleep_ok. intros Hd. apply (wp_vga_putc _ t); [done|]. by intros d'. Qed.

(** *** Text *)
Definition vga_puts (s : list Z) : M display unit := foldr (λ c m, vga_putc timer_msleep c;; m) (mret tt) s.
Lemma wp_vga_puts s d t Q : shows d t → Forall (λ c, c ≠ 7) s →
  (∀ d', shows d' (foldl term_putc t s) → Q tt d') → wp (vga_puts s) d Q.
Proof using sleep_ok.
  revert d t. induction s as [|c s IH]; intros d t Hd Hs HQ; [by apply HQ|]. apply Forall_cons in Hs as [Hc Hs].
  cbn [vga_puts foldr]. wp_step. apply (wp_vga_putc _ t); [done|]. intros d'. cbv zeta. intros (Hd' & _).
  destruct (Z.eqb_spec c 7); [done|]. cbn [andb] in Hd'. by apply (IH _ _ Hd').
Qed.
End putc.

(** A line of text, and the lines of it that are on the screen. *)
Definition plain (c : Z) : Prop := c ∉ [7; 8; 9; 10; 12; 13].
Definition line_row (l : list Z) : list (Z * Z) := ((λ c, (u8 c, 7)) <$> l) ++ replicate (80 - length l) (32, 7).
Definition text (ls : list (list Z)) : list Z := mjoin ((λ l, l ++ [10]) <$> ls).
Definition last_lines (ls : list (list Z)) : list (list Z) := drop (length ls - 24) ls.
Definition page (ls : list (list Z)) : terminal :=
  mk_terminal ((line_row <$> last_lines ls) ++ replicate (25 - length (last_lines ls)) blank) (length (last_lines ls)) 0.

Lemma term_putc_plain rs y x c : plain c → (S x < 80)%nat →
  term_putc (mk_terminal rs y x) c = mk_terminal (alter <[x := (u8 c, 7)]> y rs) y (S x).
Proof.
  unfold plain, term_putc, term_wrap. cbn [col row rows]. intros Hc Hx. rewrite !not_elem_of_cons in Hc.
  destruct Hc as (H7 & H8 & H9 & H10 & H12 & H13 & _).
  rewrite !(proj2 (Z.eqb_neq _ _)) by done. by destruct (Nat.leb_spec 80 (S x)); [lia|].
Qed.
Lemma term_puts_plain l rs y r x :
  Forall plain l → (x + length l < 80)%nat → rs !! y = Some r → length r = 80%nat →
  foldl term_putc (mk_terminal rs y x) l =
  mk_terminal (<[y := take x r ++ ((λ c, (u8 c, 7)) <$> l) ++ drop (x + length l) r]> rs) y (x + length l).
Proof.
  revert rs r x. induction l as [|c l IH]; intros rs r x Hl Hx Hr H80; simpl.
  - rewrite Nat.add_0_r, take_drop, list_insert_id by done. done.
  - apply Forall_cons in Hl as [Hc Hl]. simpl in Hx. rewrite term_putc_plain by (done || lia).
    pose proof (lookup_lt_Some _ _ _ Hr).
    rewrite (alter_as_insert _ _ _ r Hr), (IH _ (<[x := (u8 c, 7)]> r)); try done; try lia.
    + rewrite list_insert_insert_eq. f_equal; [|lia]. f_equal.
      rewrite (take_S_r _ _ (u8 c, 7)) by (by rewrite list_lookup_insert_eq by lia).
      rewrite take_insert_ge, drop_insert_lt by lia. rewrite <-app_assoc. simpl. by replace (x + S (length l))%nat with (S (x + length l)) by lia.
    + by rewrite list_lookup_insert_eq.
    + by rewrite length_insert.
Qed.
Lemma page_line ls l : Forall plain l → (length l < 80)%nat →
  foldl term_putc (page ls) (l ++ [10]) = page (ls ++ [l]).
Proof.
  intros Hl Hlen. rewrite foldl_app. unfold page.
  assert (Hk : length (last_lines ls) = Nat.min (length ls) 24) by (unfold last_lines; rewrite length_drop; lia).
  set (k := last_lines ls) in *.
  rewrite (term_puts_plain l _ _ blank); [|done|simpl; lia| |done].
  2:{ rewrite lookup_app_r by (by rewrite length_fmap). rewrite length_fmap, Nat.sub_diag.
      by replace (25 - length k)%nat with (S (24 - length k)) by lia. }
  simpl. replace (_ ++ drop (length l) blank) with (line_row l) by (unfold line_row, blank; by rewrite drop_replicate).
  rewrite insert_app_r_alt by (by rewrite length_fmap). rewrite length_fmap, Nat.sub_diag.
  replace (25 - length k)%nat with (S (24 - length k)) by lia. simpl.
  replace ((line_row <$> k) ++ line_row l :: replicate (24 - length k) blank)
    with ((line_row <$> (k ++ [l])) ++ replicate (24 - length k) blank) by (by rewrite fmap_app, <-app_assoc).
  unfold term_putc, term_newline. cbn [rows row col Z.eqb Pos.eqb].
  assert (Hk' : last_lines (ls ++ [l]) = if (length k =? 24)%nat then tail (k ++ [l]) else k ++ [l]).
  { unfold last_lines in *. rewrite length_app. simpl. destruct (Nat.eqb_spec (length k) 24) as [E|E].
    - replace (length ls + 1 - 24)%nat with (S (length ls - 24)) by lia.
      rewrite <-Nat.add_1_r, <-drop_drop, drop_app_le by lia. subst k. by destruct (drop _ ls ++ [l]).
    - replace (length ls + 1 - 24)%nat with 0%nat by lia. subst k. by replace (length ls - 24)%nat with 0%nat by lia. }
  rewrite Hk'. destruct (Nat.eqb_spec (length k) 24) as [E|E].
  - destruct k as [|k0 k]; [done|]. rewrite E. simpl in *. rewrite app_nil_r, length_app. simpl.
    by replace (length k + 1)%nat with 24%nat by lia.
  - rewrite length_app. simpl. f_equal; [|lia]. do 2 f_equal. lia.
Qed.
Lemma page_lines ls ls' : Forall (λ l, Forall plain l ∧ (length l < 80)%nat) ls' →
  foldl term_putc (page ls) (text ls') = page (ls ++ ls').
Proof.
  revert ls. induction ls' as [|l ls' IH]; intros ls Hls; [by rewrite app_nil_r|].
  apply Forall_cons in Hls as [[Hp Hl] Hls]. change (text (l :: ls')) with ((l ++ [10]) ++ text ls').
  rewrite foldl_app, page_line, IH by done. by rewrite <-app_assoc.
Qed.
(** Lines of text shorter than 80 characters, printed after a form feed, appear from
    the top of the screen, the last 24 of them if there are more, each padded with blanks,
    and the cursor is at the start of the row below them. *)
Theorem vga_shows_last_lines (timer_msleep : Z → M display unit) d t ls :
  (∀ d t, shows d t → inited d = true → intr_on d = true →
    wp (timer_msleep 250) d (λ _ d', shows d' t ∧ inited d' = true ∧ intr_on d' = true)) →
  shows d t → Forall (λ l, Forall plain l ∧ (length l < 80)%nat) ls →
  wp (vga_puts timer_msleep (12 :: text ls)) d (λ _ d', shows d' (page ls)).
Proof.
  intros Hsleep Hd Hls. apply (wp_vga_puts timer_msleep id Hsleep _ _ t _ Hd).
  - constructor; [done|]. unfold text. apply Forall_forall. intros c (k & Hk & (l & -> & Hl)%list_elem_of_fmap)%list_elem_of_join.
    apply elem_of_app in Hk as [Hk|Hk%list_elem_of_singleton]; [|lia].
    destruct (proj1 (Forall_forall _ _) Hls _ Hl) as [Hp _]. intros ->.
    apply (proj1 (Forall_forall _ _) Hp _ Hk). set_solver.
  - intros d' Hd'. simpl in Hd'. exact (eq_ind _ (shows d') Hd' _ (page_lines [] ls Hls)).
Qed.
End proofs.

(** ** A display

    A controller with its index register and the cursor, and the speaker gate. *)
Record ports_sim := mk_ports_sim { s_index : Z; s_high : Z; s_low : Z; s_gate : Z }.
#[export] Instance sim_ports : PortOps ports_sim := {|
  port_out p v h :=
    if p =? 0x3d4 then mk_ports_sim v (s_high h) (s_low h) (s_gate h)
    else if p =? 0x3d5 then
      if s_index h =? 0x0e then mk_ports_sim (s_index h) v (s_low h) (s_gate h)
      else if s_index h =? 0x0f then mk_ports_sim (s_index h) (s_high h) v (s_gate h)
      else h
    else if p =? SPEAKER_PORT_GATE then mk_ports_sim (s_index h) (s_high h) (s_low h) v
    else h;
  port_in p h :=
    (if p =? 0x3d5 then
       if s_index h =? 0x0e then u8 (s_high h) else if s_index h =? 0x0f then u8 (s_low h) else 0
     else if p =? SPEAKER_PORT_GATE then s_gate h else 0, h) |}.
#[export, refine] Instance sim_display : TextDisplay ports_sim := {|
  cursor h := u8 (s_high h) * 256 + u8 (s_low h);
  sounding h := Z.land (s_gate h) 3 =? 3 |}.
Proof.
  - intros h. unfold wrap. Z.div_mod_to_equations; lia.
  - intros h v Hv. cbn. unfold wrap. Z.div_mod_to_equations; lia.
  - intros h v Hv. cbn. unfold wrap. Z.div_mod_to_equations; lia.
  - intros h. cbn. unfold wrap. split; [|done]. Z.div_mod_to_equations; lia.
  - intros h. cbn. unfold wrap. split; [|done]. Z.div_mod_to_equations; lia.
  - done.
  - intros h v. cbn. split; [done|]. by repeat case_match.
  - done.
  - intros h p v Hp. cbn. unfold SPEAKER_PORT_GATE.
    destruct (Z.eqb_spec p 0x3d4), (Z.eqb_spec p 0x3d5), (Z.eqb_spec p 0x61); try lia; done.
Defined.
(** A display full of dots, with the cursor in the last cell. *)
Definition dots : terminal := mk_terminal (replicate 25 (replicate 80 (46, 7))) 24 79.
Definition dots_display : display ports_sim := mk_display 0 0 false (screen_bytes (rows dots)) (mk_ports_sim 0 7 207 0) true.
Lemma dots_shown : shows dots_display dots.
Proof.
  split; [|split; reflexivity]. split; [reflexivity|]. split; [|simpl; lia]. by apply Forall_replicate.
Qed.
Lemma sleep_alone (d : display ports_sim) (t : terminal) : shows d t → inited d = true → intr_on d = true →
  wp ((λ _, mret tt : M (display ports_sim) unit) 250) d (λ _ d', shows d' (id t) ∧ inited d' = true ∧ intr_on d' = true).
Proof. done. Qed.
Lemma vga_putc_correct_witness :
  wp (vga_putc (λ _, mret tt) 65) dots_display (λ _ d',
    shows d' (term_putc dots 65) ∧ rows (term_putc dots 65) !! 23%nat = Some (replicate 79 (46, 7) ++ [(65, 7)]) ∧
    cursor (ports d') = 24 * 80).
Proof.
  eapply wp_mono; [exact (vga_putc_correct (λ _, mret tt) id sleep_alone _ _ 65 dots_shown)|].
  intros _ d' (Hs & _ & Hc & _). split; [exact Hs|]. split; [reflexivity|exact Hc].
Defined.
(** "Hi" and "there" on a screen full of dots. *)
Lemma vga_shows_last_lines_witness :
  wp (vga_puts (λ _, mret tt) (12 :: text [[72; 105]; [116; 104; 101; 114; 101]])) dots_display (λ _ d',
    shows d' (page [[72; 105]; [116; 104; 101; 114; 101]])) ∧
  take 3 <$> rows (page [[72; 105]; [116; 104; 101; 114; 101]]) !! 0%nat = Some [(72, 7); (105, 7); (32, 7)].
Proof.
  split; [|reflexivity]. apply (vga_shows_last_lines _ _ dots _ sleep_alone dots_shown).
  unfold plain. apply (bool_decide_unpack _). vm_compute. exact I.
Defined.
