(* ===== verification/Shell.v ===== *)
(** * The line editor of the shell: examples/shell.c

    read_line () takes characters from the keyboard until the return key, with the
    backspace key and Ctrl+U, into a buffer of 80 bytes, and echoes them to the terminal
    of VgaThms.v. *)

From Stdlib Require Import String.
From S2P Require Import Prelude Printf Vga VgaThms.
Local Open Scope Z_scope.
Local Open Scope list_scope.

(** The position in the line, and what has been printed. *)
Definition backspace (pos : nat) (out : list Z) : bool * nat * list Z :=
  if (0 <? pos)%nat then (true, pred pos, out ++ [8; 32; 8]) else (false, pos, out).
(** The loop for Ctrl+U ends when backspace () has nothing left to do. *)
Fixpoint erase (fuel pos : nat) (out : list Z) : nat * list Z :=
  match fuel with
  | O => (pos, out)
  | S fuel => let '(b, pos, out) := backspace pos out in if b : bool then erase fuel pos out else (pos, out)
  end.
(** None if the keyboard has nothing more to give before the return key. *)
Fixpoint read_line (size : nat) (input line : list Z) (pos : nat) (out : list Z) : option (list Z * list Z * list Z) :=
  match input with
  | [] => None
  | c :: input =>
      if c =? 13 then Some (<[pos := 0]> line, out ++ [10], input)
      else if c =? 8 then let '(_, pos, out) := backspace pos out in read_line size input line pos out
      else if c =? 21 then let '(pos, out) := erase (S pos) pos out in read_line size input line pos out
      else if (pos <? size - 1)%nat then read_line size input (<[pos := c]> line) (S pos) (out ++ [c])
      else read_line size input line pos out
  end.

(** What the keys mean: the text so far and the keys that are left after the return. *)
Fixpoint edit (size : nat) (input text : list Z) : option (list Z * list Z) :=
  match input with
  | [] => None
  | c :: input =>
      if c =? 13 then Some (text, input)
      else edit size input
        (if c =? 8 then take (length text - 1) text
         else if c =? 21 then []
         else if (length text <? size - 1)%nat then text ++ [c] else text)
  end.

(** ** The terminal *)
Definition shown (rs : list (list (Z * Z))) (y : nat) (l : list Z) : terminal := mk_terminal (<[y := line_row l]> rs) y (length l).
Lemma line_row_length l : (length l ≤ 80)%nat → length (line_row l) = 80%nat.
Proof. intros H. unfold line_row. rewrite length_app, length_fmap, length_replicate. lia. Qed.
Lemma line_row_add l c : (length l < 80)%nat → <[length l := (u8 c, 7)]> (line_row l) = line_row (l ++ [c]).
Proof.
  intros H. unfold line_row. rewrite length_app, fmap_app, <-app_assoc. cbn [length fmap list_fmap app].
  replace (80 - length l)%nat with (S (80 - (length l + 1))) by lia. cbn [replicate].
  by rewrite insert_app_r_alt, length_fmap, Nat.sub_diag by (rewrite length_fmap; lia).
Qed.
Lemma line_row_drop l c : (length l < 80)%nat → <[length l := (32, 7)]> (line_row (l ++ [c])) = line_row l.
Proof.
  intros H. rewrite <-line_row_add by done. rewrite list_insert_insert_eq.
  apply list_insert_id. unfold line_row. rewrite lookup_app_r, length_fmap, Nat.sub_diag by (rewrite length_fmap; lia).
  apply lookup_replicate. split; [done|lia].
Qed.
Lemma plain_space : plain 32.
Proof. unfold plain. rewrite !not_elem_of_cons. split_and!; try done. apply not_elem_of_nil. Qed.
Section terminal.
Context (rs : list (list (Z * Z))) (y : nat) (Hy : (y < length rs)%nat).
Lemma alter_row (f : list (Z * Z) → list (Z * Z)) r : alter f y (<[y := r]> rs) = <[y := f r]> rs.
Proof. rewrite (alter_as_insert _ _ _ r) by (by apply list_lookup_insert_eq). by rewrite list_insert_insert_eq. Qed.
Lemma shown_char l c : plain c → (S (length l) < 80)%nat → term_putc (shown rs y l) c = shown rs y (l ++ [c]).
Proof.
  intros Hc Hl. unfold shown. rewrite term_putc_plain, alter_row, line_row_add by (done || lia). by rewrite length_app, Nat.add_1_r.
Qed.
Lemma shown_erase l c : (S (length l) < 80)%nat → foldl term_putc (shown rs y (l ++ [c])) [8; 32; 8] = shown rs y l.
Proof.
  intros Hl. cbn [foldl]. unfold shown at 1. rewrite length_app, Nat.add_1_r. change (term_putc (mk_terminal ?r y (S ?n)) 8) with (mk_terminal r y n).
  rewrite term_putc_plain, alter_row by (apply plain_space || lia). change (u8 32, 7) with (32, 7). rewrite line_row_drop by lia. done.
Qed.
End terminal.

(** ** The editor *)
Definition key (c : Z) : Prop := c = 8 ∨ c = 13 ∨ c = 21 ∨ plain c ∧ c ≠ 0 ∧ c ≠ 21.
Section editor.
Context (rs : list (list (Z * Z))) (y : nat) (Hy : (y < length rs)%nat) (prompt : list Z).
Lemma erase_shown n pos out t text : pos = length text → (pos < n)%nat →
  ∃ out', erase n pos out = (0%nat, out') ∧
    ((S (length prompt + length text) < 80)%nat → foldl term_putc t out = shown rs y (prompt ++ text) → foldl term_putc t out' = shown rs y prompt).
Proof using Hy.
  revert n out text. induction pos as [|pos IH]; intros n out text Hpos Hn; destruct n as [|n]; try lia; simpl.
  - exists out. split; [done|]. destruct text; [|done]. by rewrite app_nil_r.
  - destruct text as [|c text _] using rev_ind; [done|]. rewrite length_app in *. simpl in Hpos.
    destruct (IH n (out ++ [8; 32; 8]) text) as (out' & E & Ht); [lia|lia|]. exists out'. split; [done|]. simpl. intros Hl E'. apply Ht; [lia|].
    rewrite foldl_app, E', app_assoc. apply shown_erase; [done|]. rewrite length_app. lia.
Qed.
Lemma read_line_edit size input line text out t text' rest :
  (1 < size)%nat → length line = size → (length text < size)%nat → take (length text) line = text →
  Forall key input → edit size input text = Some (text', rest) →
  ∃ line' out', read_line size input line (length text) out = Some (line', out' ++ [10], rest) ∧
    length line' = size ∧ (length text' < size)%nat ∧ take (S (length text')) line' = text' ++ [0] ∧
    ((length prompt + length text + length input < 80)%nat → foldl term_putc t out = shown rs y (prompt ++ text) →
     foldl term_putc t out' = shown rs y (prompt ++ text')).
Proof using Hy.
  intros Hsz. revert line text out. induction input as [|c input IH]; intros line text out Hline Hl Htext Hk Hed; [done|].
  apply Forall_cons in Hk as [Hc Hk]. simpl in Hed |- *. destruct (Z.eqb_spec c 13) as [->|H13].
  { injection Hed as -> ->. exists (<[length text' := 0]> line), out. split; [done|]. rewrite length_insert. split; [done|]. split; [done|].
    split; [|done]. rewrite (take_S_r _ _ 0) by (apply list_lookup_insert_eq; lia). rewrite take_insert_ge by lia. by rewrite Htext. }
  destruct (Z.eqb_spec c 8) as [->|H8].
  { destruct text as [|x text _] using rev_ind.
    { destruct (IH line [] out) as (l' & o' & R & L1 & L2 & L3 & S'); try done. exists l', o'. split_and!; try done. intros ?. apply S'. simpl in *. lia. }
    unfold backspace. rewrite length_app in *. cbn [length] in *. rewrite Nat.add_sub, take_app_length in Hed.
    rewrite (proj2 (Nat.ltb_lt _ _)) by lia. replace (pred (length text + 1)) with (length text) by lia.
    destruct (IH line text (out ++ [8; 32; 8])) as (l' & o' & R & L1 & L2 & L3 & S'); try done; try lia.
    - apply (f_equal (take (length text))) in Htext. by rewrite take_take, Nat.min_l, take_app_length in Htext by lia.
    - exists l', o'. split_and!; try done. intros Hlen Ht. apply S'; [lia|]. rewrite foldl_app, Ht, app_assoc.
      apply shown_erase; [done|]. rewrite length_app. lia. }
  destruct (Z.eqb_spec c 21) as [->|H21].
  { destruct (erase_shown (S (length text)) (length text) out t text) as (out' & E & Ht'); [done|lia|].
    cbn [erase] in E. rewrite E. destruct (IH line [] out') as (l' & o' & R & L1 & L2 & L3 & S'); try done; [simpl; lia|].
    exists l', o'. split_and!; try done. intros Hlen Ht. apply S'; [simpl; lia|]. rewrite app_nil_r. apply Ht'; [lia|done]. }
  destruct Hc as [?|[?|[?|(Hp & H0 & _)]]]; try done.
  destruct (Nat.ltb_spec (length text) (size - 1)).
  - replace (S (length text)) with (length (text ++ [c])) by (rewrite length_app; simpl; lia).
    destruct (IH (<[length text := c]> line) (text ++ [c]) (out ++ [c])) as (l' & o' & R & L1 & L2 & L3 & S');
      try done; rewrite ?length_insert, ?length_app; simpl; try lia; try done.
    + rewrite Nat.add_1_r, (take_S_r _ _ c) by (apply list_lookup_insert_eq; lia). rewrite take_insert_ge by lia. by rewrite Htext.
    + exists l', o'. split_and!; try done; [by rewrite <-R, length_app|]. intros Hlen Ht. apply S'; [rewrite length_app; simpl; lia|].
      rewrite foldl_app, Ht, app_assoc. cbn [foldl]. apply shown_char; [done|done|]. rewrite length_app. lia.
  - destruct (IH line text out) as (l' & o' & R & L1 & L2 & L3 & S'); try done. exists l', o'. split_and!; try done. intros ?. apply S'. lia.
Qed.
End editor.

(** A line typed into the shell comes back as the text that the keys spell, with
    backspace and Ctrl+U, cut off at 79 characters and with a null character behind it,
    and never beyond the buffer.  As long as fewer than 78 keys are pressed for a line
    the row of the display shows the prompt, the text and blanks, with the cursor behind
    the text. *)
Theorem read_line_correct input line text rest rs y :
  length line = 80%nat → Forall key input → edit 80 input [] = Some (text, rest) → (y < length rs)%nat → rs !! y = Some blank →
  ∃ line' out, read_line 80 input line 0 [] = Some (line', out ++ [10], rest) ∧
    length line' = 80%nat ∧ (length text < 80)%nat ∧ take (S (length text)) line' = text ++ [0] ∧
    ((length input < 78)%nat →
     foldl term_putc (mk_terminal rs y 0) (chars "--" ++ out) = shown rs y (chars "--" ++ text)).
Proof.
  intros Hline Hk Hed Hy Hr.
  destruct (read_line_edit rs y Hy (chars "--") 80 input line [] [] (shown rs y (chars "--")) text rest)
    as (line' & out & R & L1 & L2 & L3 & S'); [lia|done|simpl; lia|done|done|done|].
  exists line', out. split_and!; try done. intros Hlen. rewrite foldl_app.
  assert (foldl term_putc (mk_terminal rs y 0) (chars "--") = shown rs y (chars "--")) as ->; [|apply S'; [simpl; lia|done]].
  assert (mk_terminal rs y 0 = shown rs y []) as -> by (unfold shown, line_row; simpl; by rewrite list_insert_id).
  assert (plain 45) by (unfold plain; rewrite !not_elem_of_cons; split_and!; try done; apply not_elem_of_nil).
  change (chars "--") with [45; 45]. cbn [foldl]. rewrite !shown_char by (done || simpl; lia). done.
Qed.
(** "ab", backspace, "c", return. *)
Lemma read_line_correct_witness :
  ∃ line' out, read_line 80 [97; 98; 8; 99; 13] (replicate 80 0) 0 [] = Some (line', out ++ [10], []) ∧ take 3 line' = [97; 99; 0] ∧
    foldl term_putc (mk_terminal (replicate 25 blank) 3 0) ([45; 45] ++ out) = shown (replicate 25 blank) 3 [45; 45; 97; 99].
Proof.
  destruct (read_line_correct [97; 98; 8; 99; 13] (replicate 80 0) [97; 99] [] (replicate 25 blank) 3)
    as (line' & out & E & _ & _ & Ht & Hs).
  - reflexivity.
  - repeat (constructor; [first [left; reflexivity | right; left; reflexivity |
      right; right; right; split; [unfold plain; rewrite !not_elem_of_cons; repeat split; try discriminate; apply not_elem_of_nil | split; discriminate]]|]).
    constructor.
  - reflexivity.
  - vm_compute. lia.
  - reflexivity.
  - exists line', out. split; [exact E|]. split; [exact Ht|]. apply Hs. simpl. lia.
Defined.
