(* ===== verification/ClockThms.v ===== *)
(** * Theorems on the clocks

    How far the time of the real-time clock is off, that the timer counts the
    nearest number of cycles, and what the calibration of busy loops measures. *)

From S2P Require Import Prelude Clock.
Local Open Scope Z_scope.
Local Ltac Zify.zify_post_hook ::= Z.to_euclidean_division_equations.

(** ** Dates *)

(** Days from 1 January 1970 to 1 January of the year 1970 + [n]; every fourth year
    from 1972 on is a leap year, until 2100. *)
Fixpoint days_before_year (n : nat) : Z :=
  match n with O => 0 | S n => days_before_year n + (if Z.of_nat n mod 4 =? 2 then 366 else 365) end.
Definition leap (y : Z) : Z := if y mod 4 =? 2 then 1 else 0.
Definition days_in_month (y m : Z) : Z := default 0 (days_per_month !! Z.to_nat (m - 1)) + (if m =? 2 then leap y else 0).
Fixpoint days_of_months (y : Z) (n : nat) : Z :=
  match n with O => 0 | S n => days_of_months y n + days_in_month y (Z.of_nat (S n)) end.
Definition days_before_month (y m : Z) : Z := days_of_months y (Z.to_nat (m - 1)).
(** Seconds from the epoch to a date of the year 1970 + [y]. *)
Definition seconds (y mon mday hour min sec : Z) : Z :=
  ((days_before_year (Z.to_nat y) + days_before_month y mon + (mday - 1)) * 24 + hour) * 3600 + min * 60 + sec.
Definition to_bcd (x : Z) : Z := x / 10 * 16 + x mod 10.

Lemma bcd_roundtrip x : 0 ≤ x < 100 → bcd_to_bin (to_bcd x) = x.
Proof.
  intros Hx. unfold bcd_to_bin, to_bcd. change 0x0f with (Z.ones 4). rewrite Z.land_ones, Z.shiftr_div_pow2 by done. lia.
Qed.
Lemma days_before_year_eq n : days_before_year n = 365 * Z.of_nat n + (Z.of_nat n + 1) / 4.
Proof.
  induction n as [|n IH]; [done|]. cbn [days_before_year]. rewrite IH.
  destruct (Z.eqb_spec (Z.of_nat n mod 4) 2); lia.
Qed.
Definition month_days (m : Z) : Z := default 0 (days_per_month !! Z.to_nat (m - 1)).
Definition table_days (m : Z) : Z := foldr Z.add 0 (take (Z.to_nat m) days_per_month).
Lemma month_cases m : 1 ≤ m ≤ 12 →
  m = 1 ∨ m = 2 ∨ m = 3 ∨ m = 4 ∨ m = 5 ∨ m = 6 ∨ m = 7 ∨ m = 8 ∨ m = 9 ∨ m = 10 ∨ m = 11 ∨ m = 12.
Proof. lia. Qed.
(** Evaluation for one month. *)
Ltac month_eval :=
  repeat match goal with
  | |- context [Z.to_nat ?x] => let v := eval vm_compute in (Z.to_nat x) in change (Z.to_nat x) with v
  | |- context [Z.of_nat ?x] => let v := eval vm_compute in (Z.of_nat x) in change (Z.of_nat x) with v
  | |- context [days_per_month !! ?i] => let v := eval vm_compute in (days_per_month !! i) in change (days_per_month !! i) with v
  | |- context [foldr Z.add 0 (take ?i days_per_month)] =>
    let v := eval vm_compute in (foldr Z.add 0 (take i days_per_month)) in
    change (foldr Z.add 0 (take i days_per_month)) with v
  end.
Lemma days_before_month_eq y m : 1 ≤ m ≤ 12 →
  days_before_month y m = table_days m - month_days m + (if 2 <? m then leap y else 0).
Proof.
  intros Hm. unfold days_before_month, table_days, month_days.
  destruct (month_cases m Hm) as [->|[->|[->|[->|[->|[->|[->|[->|[->|[->|[->| ->]]]]]]]]]]];
    month_eval; cbn [days_of_months]; unfold days_in_month; month_eval; cbn -[leap Z.add Z.sub]; lia.
Qed.
Lemma table_days_bound m : 1 ≤ m ≤ 12 → 28 ≤ month_days m ≤ 31 ∧ 0 ≤ table_days m ≤ 365 ∧ month_days m ≤ table_days m.
Proof.
  intros Hm. unfold table_days, month_days.
  destruct (month_cases m Hm) as [->|[->|[->|[->|[->|[->|[->|[->|[->|[->|[->| ->]]]]]]]]]]]; month_eval; simpl; lia.
Qed.
Lemma add_months_eq {C} (c : C) m time : 1 ≤ m ≤ 12 →
  add_months (Z.to_nat m) 1 time c = Ok (u32 (time + table_days m * 86400), c).
Proof.
  intros Hm. unfold table_days, wrap. destruct (month_cases m Hm) as [->|[->|[->|[->|[->|[->|[->|[->|[->|[->|[->| ->]]]]]]]]]]];
    month_eval; cbn [add_months]; unfold mbind, M_bind; month_eval; cbn [from_option];
    unfold mret, M_ret, wrap; repeat (rewrite Zplus_mod_idemp_l; rewrite <-?Z.add_assoc);
    (do 3 f_equal; lia).
Qed.

(** What the calendar of the code leaves out and adds, in days: the days of the
    current month, which the loop counts too, and one day at most for leap years,
    which it takes to be 1970, 1974, ... *)
Definition leap_error (y mon : Z) : Z :=
  (y - 1) `quot` 4 - (y + 1) / 4 + (if 2 <? mon then (if y `rem` 4 =? 0 then 1 else 0) - leap y else 0).
Lemma leap_error_bound y mon : 0 ≤ y → -1 ≤ leap_error y mon ≤ 1.
Proof.
  intros Hy. unfold leap_error, leap. destruct (2 <? mon); [|lia].
  destruct (Z.eqb_spec (y `rem` 4) 0), (Z.eqb_spec (y mod 4) 2); lia.
Qed.

(** Sums that stay in range, from the inside out. *)
Ltac u32_exact :=
  repeat match goal with
  | |- context [wrap 32 ?x] =>
    lazymatch x with context [wrap 32 _] => fail | _ => rewrite (wrap_small 32 x) by lia end
  end.

Section rtc.
Context (y mon mday hour min sec : Z).
(** A clock that stands at this time. *)
Definition stands (i : Z) (c : unit) : Z * unit :=
  (to_bcd (if i =? RTC_REG_SEC then sec else if i =? RTC_REG_MIN then min else if i =? RTC_REG_HOUR then hour
           else if i =? RTC_REG_MDAY then mday else if i =? RTC_REG_MON then mon else (y + 70) mod 100), c).
Hypothesis Hy : 0 ≤ y ≤ 67.
Hypothesis Hmon : 1 ≤ mon ≤ 12.
Hypothesis Hmday : 1 ≤ mday ≤ 31.
Hypothesis Hhour : 0 ≤ hour < 24.
Hypothesis Hmin : 0 ≤ min < 60.
Hypothesis Hsec : 0 ≤ sec < 60.

Lemma read_stands i v : v = (if i =? RTC_REG_SEC then sec else if i =? RTC_REG_MIN then min else if i =? RTC_REG_HOUR then hour
    else if i =? RTC_REG_MDAY then mday else if i =? RTC_REG_MON then mon else (y + 70) mod 100) → 0 ≤ v < 100 →
  read_bcd stands i tt = Ok (v, tt).
Proof.
  intros -> Hv. unfold read_bcd, cmos_read, stands, mbind, M_bind. rewrite wrap_small by (unfold to_bcd; lia).
  by rewrite bcd_roundtrip.
Qed.
Lemma rtc_loop_stands fuel : rtc_loop stands (S fuel) tt = Ok ((sec, min, hour, mday, mon, (y + 70) mod 100), tt).
Proof using Hhour Hmday Hmin Hmon Hsec Hy.
  cbn [rtc_loop]. unfold mbind, M_bind. rewrite (read_stands RTC_REG_SEC sec) by (done || lia).
  rewrite (read_stands RTC_REG_MIN min) by (done || lia). rewrite (read_stands RTC_REG_HOUR hour) by (done || lia).
  rewrite (read_stands RTC_REG_MDAY mday) by (done || lia). rewrite (read_stands RTC_REG_MON mon) by (done || lia).
  rewrite (read_stands RTC_REG_YEAR ((y + 70) mod 100)) by (done || lia).
  rewrite (read_stands RTC_REG_SEC sec) by (done || lia). by rewrite Z.eqb_refl.
Qed.
(** The time that rtc_get_time () returns for any date from 1970 to 2037 is ahead
    of the real one by the length of the current month, 28 to 31 days, give or take
    a day for the leap years. *)
Theorem rtc_get_time_ahead fuel :
  rtc_get_time stands (S fuel) tt =
    Ok (seconds y mon mday hour min sec + 86400 * (month_days mon + leap_error y mon), tt) ∧
  27 ≤ month_days mon + leap_error y mon ≤ 32.
Proof using Hhour Hmday Hmin Hmon Hsec Hy.
  pose proof (table_days_bound mon Hmon) as (Hm1 & Hm2 & Hm3). pose proof (leap_error_bound y mon ltac:(lia)) as Hle.
  split; [|lia]. unfold rtc_get_time, mbind at 1, M_bind at 1. rewrite rtc_loop_stands.
  assert ((if (y + 70) mod 100 <? 70 then (y + 70) mod 100 + 100 else (y + 70) mod 100) - 70 = y) as ->
    by (destruct (Z.ltb_spec ((y + 70) mod 100) 70); lia).
  unfold mbind, M_bind. rewrite add_months_eq by done. unfold mret, M_ret.
  unfold seconds. rewrite days_before_year_eq, days_before_month_eq, Z2Nat.id by lia.
  rewrite (swrap_small 32) by lia. unfold leap_error, leap in *.
  set (T := table_days mon) in *. set (D := month_days mon) in *. clearbody T D.
  destruct (Z.ltb_spec 2 mon); simpl; [destruct (Z.eqb_spec (y `rem` 4) 0), (Z.eqb_spec (y mod 4) 2)|];
    u32_exact; do 2 f_equal; lia.
Qed.
End rtc.
Lemma rtc_get_time_ahead_witness :
  rtc_get_time (stands 54 2 29 23 59 59) 1 tt = Ok (seconds 54 2 29 23 59 59 + 86400 * 28, tt).
Proof.
  destruct (rtc_get_time_ahead 54 2 29 23 59 59 ltac:(lia) ltac:(lia) ltac:(lia) ltac:(lia) ltac:(lia) ltac:(lia) 0) as [H _].
  rewrite H. vm_compute. reflexivity.
Defined.

(** ** The counter of the timer *)

Lemma pit_count_bound f : 19 ≤ f ≤ PIT_HZ → 1 ≤ pit_count f < 65536 ∧ 2 * Z.abs (pit_count f * f - PIT_HZ) ≤ f.
Proof.
  unfold pit_count, PIT_HZ. intros Hf. rewrite !(proj2 (Z.ltb_ge _ _)) by lia.
  set (q := (1193180 + f `quot` 2) `quot` f).
  assert (q * f ≤ 1193180 + f / 2 < (q + 1) * f) as Hq by (unfold q; rewrite !Z.quot_div_nonneg by lia; nia).
  assert (1 ≤ q < 65536) by nia. rewrite wrap_small by lia. nia.
Qed.
(** For every frequency the counter can express, pit_configure_channel () loads
    the count whose frequency is nearest to it, to half a cycle, and a count
    that fits in the two bytes written, low byte first. *)
Theorem pit_count_nearest channel mode f l :
  (channel = 0 ∨ channel = 2) → (mode = 2 ∨ mode = 3) → 19 ≤ f ≤ PIT_HZ →
  ∃ c lo hi, pit_configure_channel channel mode f l =
      Ok (tt, l ++ [(PIT_PORT_CONTROL, 64 * channel + 0x30 + 2 * mode); (0x40 + channel, lo); (0x40 + channel, hi)]) ∧
    c = lo + 256 * hi ∧ 0 ≤ lo < 256 ∧ 0 ≤ hi < 256 ∧ 1 ≤ c ∧ 2 * Z.abs (c * f - PIT_HZ) ≤ f.
Proof.
  intros Hc Hm Hf. pose proof (pit_count_bound f Hf) as [H1 H2]. set (c := pit_count f) in *.
  exists c, (c mod 256), (c / 256). split; [|lia].
  unfold pit_configure_channel, pit_out, modify, mbind, M_bind, assert.
  destruct Hc as [-> | ->], Hm as [-> | ->]; cbn -[pit_count wrap Z.shiftr]; fold c;
    rewrite <-!app_assoc; cbn [app]; rewrite Z.shiftr_div_pow2 by done;
    (do 3 f_equal); unfold wrap; repeat (f_equal; try lia).
Qed.
Lemma pit_count_nearest_witness : ∃ c lo hi, pit_configure_channel 0 2 100 [] =
    Ok (tt, [] ++ [(PIT_PORT_CONTROL, 0x34); (0x40, lo); (0x40, hi)]) ∧
  c = lo + 256 * hi ∧ 0 ≤ lo < 256 ∧ 0 ≤ hi < 256 ∧ 1 ≤ c ∧ 2 * Z.abs (c * 100 - PIT_HZ) ≤ 100.
Proof. apply (pit_count_nearest 0 2 100 []); [left|left|unfold PIT_HZ]; lia. Defined.

(** ** The calibration *)

Section calibrate.
(** The loops that fit in a tick, between two powers of 2. *)
Context (L h : Z).
Hypothesis Hh : 10 ≤ h ≤ 30.
Hypothesis HL : 2 ^ h ≤ L < 2 ^ (h + 1).
Let too_many (n : Z) : bool := L <? n.

Lemma double_loop_S fuel l on : double_loop too_many (S fuel) l on =
  if L <? u32 (Z.shiftl l 1) then Ok (l, on)
  else if u32 (Z.shiftl l 1) =? 0 then Panic else double_loop too_many fuel (u32 (Z.shiftl l 1)) on.
Proof.
  cbn [double_loop]. unfold too_many. destruct (L <? _); [done|]. by destruct (_ =? 0).
Qed.
Lemma double_loop_eq (n fuel : nat) : Z.of_nat n ≤ h - 10 → (n < fuel)%nat →
  double_loop too_many fuel (2 ^ (h - Z.of_nat n)) true = Ok (2 ^ h, true).
Proof using Hh HL.
  revert fuel. induction n as [|n IH]; intros [|fuel] Hn Hf; try lia.
  all: assert (Hs : ∀ k, 0 ≤ k ≤ 30 → u32 (Z.shiftl (2 ^ k) 1) = 2 ^ (k + 1)) by
    (intros k Hk; rewrite Z.shiftl_mul_pow2, <-Z.pow_add_r, wrap_small by
      (try lia; pose proof (Z.pow_lt_mono_r 2 (k + 1) 32); lia); done).
  all: rewrite double_loop_S, Hs by lia.
  - rewrite Z.sub_0_r, (proj2 (Z.ltb_lt _ _)) by lia. done.
  - replace (h - Z.of_nat (S n) + 1) with (h - Z.of_nat n) by lia.
    pose proof (Z.pow_le_mono_r 2 (h - Z.of_nat n) h ltac:(lia) ltac:(lia)).
    pose proof (Z.pow_pos_nonneg 2 (h - Z.of_nat n) ltac:(lia) ltac:(lia)).
    rewrite (proj2 (Z.ltb_ge _ _)), (proj2 (Z.eqb_neq _ _)) by lia. apply IH; lia.
Qed.
(** The bits from [h - 9] to [h - 10 + n] that refine_loop () sets. *)
Fixpoint refined (n : nat) : Z :=
  match n with
  | O => 0
  | S n' => (if 2 ^ h + 2 ^ (h - 10 + Z.of_nat n) <=? L then 2 ^ (h - 10 + Z.of_nat n) else 0) + refined n'
  end.
Lemma lor_bit a k : 0 ≤ k → a mod 2 ^ (k + 1) = 0 → Z.lor a (2 ^ k) = a + 2 ^ k.
Proof.
  intros Hk Ha. rewrite Z.lor_comm, (lor_add (k + 1)); [lia|lia| |done].
  pose proof (Z.pow_pos_nonneg 2 k). pose proof (Z.pow_lt_mono_r 2 k (k + 1)). lia.
Qed.
Lemma mod_pow2_le a j k : 0 ≤ j ≤ k → a mod 2 ^ k = 0 → a mod 2 ^ j = 0.
Proof.
  intros Hj Ha. apply Z.mod_divide in Ha; [|lia]. apply Z.mod_divide; [lia|].
  etrans; [|done]. exists (2 ^ (k - j)). rewrite <-Z.pow_add_r by lia. f_equal. lia.
Qed.
Lemma refine_loop_eq (n fuel : nat) l : (n ≤ 9)%nat → (n < fuel)%nat → l mod 2 ^ (h - 10 + Z.of_nat n + 1) = 0 →
  refine_loop too_many fuel (2 ^ h) (2 ^ (h - 10 + Z.of_nat n)) l true = Ok (l + refined n, true).
Proof using Hh.
  revert fuel l. induction n as [|n IH]; intros [|fuel] l Hn Hf Hl; try lia; cbn [refine_loop refined].
  all: rewrite (Z.shiftr_div_pow2 (2 ^ h)), <-Z.pow_sub_r by lia.
  - rewrite Z.add_0_r, Z.eqb_refl. rewrite Z.add_0_r. done.
  - set (k := h - 10 + Z.of_nat (S n)) in *. pose proof (Z.pow_lt_mono_r 2 (h - 10) k ltac:(lia) ltac:(lia) ltac:(lia)).
    rewrite (proj2 (Z.eqb_neq _ _)) by lia.
    rewrite (lor_bit (2 ^ h)) by first [lia|apply (mod_pow2_le _ _ h); [lia|apply Z.mod_same; lia]].
    rewrite Z.shiftr_div_pow2, <-Z.pow_sub_r by lia. replace (k - 1) with (h - 10 + Z.of_nat n) by lia.
    unfold too_many at 2. rewrite Z.leb_antisym. rewrite lor_bit by (done || lia).
    assert (Hm : (2 ^ k) mod 2 ^ (h - 10 + Z.of_nat n + 1) = 0).
    { replace (h - 10 + Z.of_nat n + 1) with k by lia. apply Z.mod_same. lia. }
    apply (mod_pow2_le _ (h - 10 + Z.of_nat n + 1)) in Hl; [|lia].
    destruct (L <? 2 ^ h + 2 ^ k); cbn [negb]; rewrite IH; try lia.
    + done.
    + do 2 f_equal. lia.
    + by rewrite Z.add_mod, Hl, Hm, Z.mod_0_l by lia.
Qed.
Lemma refined_small n : L - 2 ^ h < 2 ^ (h - 9) → refined n = 0.
Proof using Hh.
  intros Hd. induction n as [|n IH]; [done|]. cbn [refined].
  pose proof (Z.pow_le_mono_r 2 (h - 9) (h - 10 + Z.of_nat (S n)) ltac:(lia) ltac:(lia)).
  rewrite (proj2 (Z.leb_gt _ _)) by lia. lia.
Qed.
Lemma refined_large n : 2 ^ (h - 9) ≤ L - 2 ^ h →
  refined n = 2 ^ (Z.min (Z.log2 (L - 2 ^ h)) (h - 10 + Z.of_nat n) + 1) - 2 ^ (h - 9).
Proof using Hh.
  intros Hd. set (d := L - 2 ^ h) in *. assert (0 < d) by (pose proof (Z.pow_pos_nonneg 2 (h - 9)); lia).
  assert (h - 9 ≤ Z.log2 d) by (apply Z.log2_le_pow2; lia).
  pose proof (Z.log2_spec d) as [Hl1 Hl2]; [done|]. induction n as [|n IH]; cbn [refined].
  - rewrite Z.min_r by lia. replace (h - 10 + Z.of_nat 0 + 1) with (h - 9) by lia. lia.
  - rewrite IH. set (k := h - 10 + Z.of_nat (S n)). destruct (Z.le_gt_cases k (Z.log2 d)).
    + pose proof (Z.pow_le_mono_r 2 k (Z.log2 d) ltac:(lia) ltac:(lia)).
      rewrite (proj2 (Z.leb_le _ _)), !Z.min_r by lia.
      replace (h - 10 + Z.of_nat n + 1) with k by lia. rewrite Z.pow_add_r by lia. lia.
    + pose proof (Z.pow_le_mono_r 2 (Z.log2 d + 1) k ltac:(lia) ltac:(lia)). rewrite <-Z.add_1_r in Hl2.
      rewrite (proj2 (Z.leb_gt _ _)), !Z.min_l by lia. lia.
Qed.
Lemma refined_9 : refined 9 = if L - 2 ^ h <? 2 ^ (h - 9) then 0 else 2 ^ (Z.log2 (L - 2 ^ h) + 1) - 2 ^ (h - 9).
Proof using Hh HL.
  destruct (Z.ltb_spec (L - 2 ^ h) (2 ^ (h - 9))) as [Hd|Hd]; [by apply refined_small|].
  rewrite refined_large by lia. rewrite Z.min_l; [lia|].
  apply Z.lt_succ_r, Z.log2_lt_pow2; [pose proof (Z.pow_pos_nonneg 2 (h - 9)); lia|].
  rewrite Z.pow_add_r in HL by lia. replace (Z.succ _) with h by lia. lia.
Qed.
End calibrate.

(** C40: Where at most L loops fit in a tick, timer_calibrate () ends with the leading
    bit of L, with every bit from the second set bit of L down to the ninth after
    the leading one: it falls short of L by less than that ninth bit, but
    can exceed it, since each bit is tried on its own. *)
Theorem timer_calibrate_bits L h : 10 ≤ h ≤ 30 → 2 ^ h ≤ L < 2 ^ (h + 1) →
  ∃ r, timer_calibrate (λ n, L <? n) true = Ok (r, true) ∧ L < r + 2 ^ (h - 9) ∧
    r = if L - 2 ^ h <? 2 ^ (h - 9) then 2 ^ h else 2 ^ h + 2 ^ (Z.log2 (L - 2 ^ h) + 1) - 2 ^ (h - 9).
Proof.
  intros Hh HL. exists (2 ^ h + refined L h 9). unfold timer_calibrate, assertM, gets, mbind, M_bind, assert; cbn [id].
  split; [|split].
  - change (Z.shiftl 1 10) with (2 ^ 10). replace (2 ^ 10) with (2 ^ (h - Z.of_nat (Z.to_nat (h - 10)))) by (f_equal; lia).
    cbn -[double_loop refine_loop refined Z.pow Z.shiftr Z.sub Z.of_nat Z.to_nat].
    rewrite (double_loop_eq L h) by lia. rewrite Z.shiftr_div_pow2, <-Z.pow_sub_r by lia.
    replace (h - 1) with (h - 10 + Z.of_nat 9) by lia. rewrite refine_loop_eq; try lia; [done|].
    replace (h - 10 + Z.of_nat 9 + 1) with h by lia. apply Z.mod_same. lia.
  - rewrite refined_9 by done. destruct (Z.ltb_spec (L - 2 ^ h) (2 ^ (h - 9))); [lia|].
    pose proof (Z.log2_spec (L - 2 ^ h)) as [_ ?]; [pose proof (Z.pow_pos_nonneg 2 (h - 9)); lia|]. lia.
  - rewrite refined_9 by done. destruct (_ <? _); lia.
Qed.
Lemma timer_calibrate_bits_witness : ∃ r, timer_calibrate (λ n, 1572865 <? n) true = Ok (r, true) ∧ 1572865 < r + 2 ^ 11 ∧
  r = 2095104.
Proof. exact (timer_calibrate_bits 1572865 20 ltac:(lia) ltac:(lia)). Defined.
