(* ===== verification/Malloc.v ===== *)
(** * The block allocator: threads/malloc.c

    The state is the memory with the page allocator (Palloc.v, Ram.v), the
    descriptors, and the list elements of the free lists (KList.v).  An arena
    header is three words at the start of a page: magic, desc, free_cnt.  A free
    block holds a [struct list_elem]: [elems] has an entry for it from the
    moment the block is put on a free list to the moment it is taken off; the
    links of a block that is handed out are its owner's bytes. *)

From S2P Require Import Prelude KList Bitmap Vaddr Palloc Ram.
Local Open Scope Z_scope.

Definition ARENA_MAGIC : Z := 0x9a548eed.
(** sizeof (struct arena), sizeof (struct desc), the place of free_list in it. *)
Definition sizeof_arena : Z := 12.
Definition sizeof_desc : Z := 48.
Definition free_list_ofs : Z := 8.

(** struct desc; the lock is whether the running thread holds it. *)
Record desc := mk_desc { block_size : Z; blocks_per_arena : Z; desc_lock : bool }.

(** [descs_at] is the address of the array descs, [descs] its first desc_cnt elements. *)
Record mstate := mk_mstate { mem : pages; elems : heap; descs_at : Z; descs : list desc }.

Definition on_mem {A} : M pages A → M mstate A :=
  zoom mem (λ m σ, mk_mstate m (elems σ) (descs_at σ) (descs σ)).
Definition on_elems {A} : M heap A → M mstate A :=
  zoom elems (λ h σ, mk_mstate (mem σ) h (descs_at σ) (descs σ)).
Definition set_descs (ds : list desc) (σ : mstate) : mstate :=
  mk_mstate (mem σ) (elems σ) (descs_at σ) ds.

(** &descs[i] and &descs[i].free_list *)
Definition desc_ptr (σ : mstate) (i : nat) : Z := descs_at σ + sizeof_desc * Z.of_nat i.
Definition free_list (σ : mstate) (i : nat) : Z := desc_ptr σ i + free_list_ofs.
(** The descriptor that a pointer points to: the reverse of [desc_ptr]. *)
Definition desc_index (p : Z) : M mstate nat :=
  σ ← get;
  let i := Z.to_nat ((p - descs_at σ) / sizeof_desc) in
  if decide (p = desc_ptr σ i) then mret i else fault.
Definition load_desc (i : nat) : M mstate desc := σ ← get; from_option (descs σ !! i).

Definition desc_lock_acquire (i : nat) : M mstate unit :=
  d ← load_desc i; assert (negb (desc_lock d));;
  modify (λ σ, set_descs (<[i := mk_desc (block_size d) (blocks_per_arena d) true]> (descs σ)) σ).
Definition desc_lock_release (i : nat) : M mstate unit :=
  d ← load_desc i; assert (desc_lock d);;
  modify (λ σ, set_descs (<[i := mk_desc (block_size d) (blocks_per_arena d) false]> (descs σ)) σ).

(** The memory of block [b] seen as a struct list_elem, and no longer so. *)
Definition claim (b : Z) : M mstate unit :=
  modify (λ σ, mk_mstate (mem σ)
    (<[b := mk_elem (word_at (bytes (mem σ)) b) (word_at (bytes (mem σ)) (b + 4))]> (elems σ))
    (descs_at σ) (descs σ)).
Definition unclaim (b : Z) : M mstate unit :=
  modify (λ σ, mk_mstate (mem σ) (delete b (elems σ)) (descs_at σ) (descs σ)).

(** Members of the arena at [a]. *)
Definition get_magic (a : Z) : M mstate Z := on_mem (load_word a).
Definition get_desc (a : Z) : M mstate Z := on_mem (load_word (a + 4)).
Definition get_free_cnt (a : Z) : M mstate Z := on_mem (load_word (a + 8)).
Definition set_header (a d n : Z) : M mstate unit :=
  on_mem (store_word a ARENA_MAGIC);; on_mem (store_word (a + 4) d);; on_mem (store_word (a + 8) n).
Definition set_free_cnt (a n : Z) : M mstate unit := on_mem (store_word (a + 8) n).

(** ** The functions of malloc.c *)

(** for (block_size = 16; block_size < PGSIZE / 2; block_size *= 2) *)
Fixpoint malloc_init_loop (fuel : nat) (bs : Z) : M mstate unit :=
  match fuel with
  | O => nofuel
  | S fuel =>
    if bs <? PGSIZE / 2 then
      σ ← get;
      let i := length (descs σ) in
      assert (Z.of_nat (i + 1) <=? 10);;
      put (set_descs (descs σ ++ [mk_desc bs ((PGSIZE - sizeof_arena) / bs) false]) σ);;
      on_elems (list_init (free_list σ i));;
      malloc_init_loop fuel (u32 (bs * 2))
    else mret tt
  end.
Definition malloc_init : M mstate unit := malloc_init_loop 10 16.

Definition block_to_arena (b : Z) : M mstate Z :=
  let a := pg_round_down b in
  assert (negb (a =? NULL));;
  magic ← get_magic a;
  assert (magic =? ARENA_MAGIC);;
  dp ← get_desc a;
  assertM (orM (mret (dp =? NULL))
    (i ← desc_index dp; d ← load_desc i;
     mret (u32 (pg_ofs b - sizeof_arena) mod block_size d =? 0)));;
  assert (negb (dp =? NULL) || (pg_ofs b =? sizeof_arena));;
  mret a.

Definition arena_to_block (a idx : Z) : M mstate Z :=
  assert (negb (a =? NULL));;
  magic ← get_magic a;
  assert (magic =? ARENA_MAGIC);;
  dp ← get_desc a; i ← desc_index dp; d ← load_desc i;
  assert (idx <? blocks_per_arena d);;
  mret (u32 (a + sizeof_arena + idx * block_size d)).

(** for (d = descs; d < descs + desc_cnt; d++): the first that is large enough. *)
Fixpoint find_desc (ds : list desc) (i : nat) (size : Z) : option nat :=
  match ds with
  | [] => None
  | d :: ds => if size <=? block_size d then Some i else find_desc ds (S i) size
  end.

(** Adding the blocks of a new arena to the free list, [n] of them left. *)
Fixpoint push_blocks (n : nat) (i : nat) (a idx : Z) : M mstate unit :=
  match n with
  | O => mret tt
  | S n =>
    b ← arena_to_block a idx; claim b;;
    l ← gets (λ σ, free_list σ i); on_elems (list_push_back l b);;
    push_blocks n i a (idx + 1)
  end.

(** If the free list is empty, create a new arena; false if there is no page. *)
Definition refill (i : nat) : M mstate bool :=
  l ← gets (λ σ, free_list σ i);
  e ← on_elems (list_empty l);
  if e : bool then
    a ← on_mem (palloc_get_page 0);
    if a =? NULL then mret false else
    dp ← gets (λ σ, desc_ptr σ i); d ← load_desc i;
    set_header a dp (blocks_per_arena d);;
    push_blocks (Z.to_nat (blocks_per_arena d)) i a 0;;
    mret true
  else mret true.

Definition malloc (size : Z) : M mstate Z :=
  if size =? 0 then mret NULL else
  ds ← gets descs;
  match find_desc ds 0 size with
  | None =>
    let page_cnt := DIV_ROUND_UP (u32 (size + sizeof_arena)) PGSIZE in
    a ← on_mem (palloc_get_multiple 0 page_cnt);
    if a =? NULL then mret NULL else
    set_header a NULL page_cnt;;
    mret (u32 (a + sizeof_arena))
  | Some i =>
    desc_lock_acquire i;;
    ok ← refill i;
    if ok : bool then
      l ← gets (λ σ, free_list σ i);
      b ← on_elems (list_pop_front l); unclaim b;;
      a ← block_to_arena b;
      c ← get_free_cnt a; set_free_cnt a (u32 (c - 1));;
      desc_lock_release i;;
      mret b
    else desc_lock_release i;; mret NULL
  end.

Definition calloc (a b : Z) : M mstate Z :=
  let size := u32 (a * b) in
  if (size <? a) || (size <? b) then mret NULL else
  p ← malloc size;
  (if negb (p =? NULL) then on_mem (memset_ram p 0 size) else mret tt);;
  mret p.

(** block_size (block) *)
Definition block_size_of (block : Z) : M mstate Z :=
  a ← block_to_arena block;
  dp ← get_desc a;
  if negb (dp =? NULL) then i ← desc_index dp; d ← load_desc i; mret (block_size d)
  else c ← get_free_cnt a; mret (u32 (PGSIZE * c - pg_ofs block)).

(** Removing the blocks of an arena from the free list, [n] of them left. *)
Fixpoint remove_blocks (n : nat) (a idx : Z) : M mstate unit :=
  match n with
  | O => mret tt
  | S n =>
    b ← arena_to_block a idx;
    on_elems (list_remove b);; unclaim b;;
    remove_blocks n a (idx + 1)
  end.

Definition free (p : Z) : M mstate unit :=
  if negb (p =? NULL) then
    a ← block_to_arena p;
    dp ← get_desc a;
    if negb (dp =? NULL) then
      i ← desc_index dp; d ← load_desc i;
      on_mem (memset_ram p 0xcc (block_size d));;
      desc_lock_acquire i;;
      l ← gets (λ σ, free_list σ i);
      claim p;; on_elems (list_push_front l p);;
      c ← get_free_cnt a; set_free_cnt a (u32 (c + 1));;
      (if blocks_per_arena d <=? u32 (c + 1) then
         assert (u32 (c + 1) =? blocks_per_arena d);;
         remove_blocks (Z.to_nat (blocks_per_arena d)) a 0;;
         on_mem (palloc_free_page a)
       else mret tt);;
      desc_lock_release i
    else
      c ← get_free_cnt a; on_mem (palloc_free_multiple a c)
  else mret tt.

Definition realloc (old_block new_size : Z) : M mstate Z :=
  if new_size =? 0 then free old_block;; mret NULL
  else
    new_block ← malloc new_size;
    (if negb (old_block =? NULL) && negb (new_block =? NULL) then
       old_size ← block_size_of old_block;
       let min_size := if new_size <? old_size then new_size else old_size in
       on_mem (memcpy_ram new_block old_block min_size);;
       free old_block
     else mret tt);;
    mret new_block.
