(* ===== verification/MallocInv.v ===== *)
(** * The invariant of threads/malloc.c

    [layout] is what the allocator's data mean: which pages are arenas of which
    descriptor, which are big blocks, and the blocks of every free list.
    [core σ Γ] says that the memory, the free lists and the page allocator agree
    with the layout [Γ]; [live Γ p n] says that the block of [n] bytes at [p] is
    handed out.  The lemmas give the effect of the parts of malloc and free on
    the layout. *)

From S2P Require Import Prelude KList Bitmap Vaddr Palloc Ram Malloc.
Local Open Scope Z_scope.
Local Ltac Zify.zify_post_hook ::= Z.div_mod_to_equations.

(** The block size and the blocks per arena of the descriptor [i]. *)
Definition NDESCS : nat := 7.
Definition bs (i : nat) : Z := 16 * 2 ^ Z.of_nat i.
Definition bpa (i : nat) : Z := 4084 / bs i.
(** Block [k] of the arena [a]. *)
Definition blk (i : nat) (a k : Z) : Z := a + 12 + k * bs i.

Record layout := mk_layout { arenas : gmap Z nat; bigs : gmap Z Z; frees : nat → list Z }.
Definition set_frees (i : nat) (xs : list Z) (Γ : layout) : layout :=
  mk_layout (arenas Γ) (bigs Γ) (λ j, if decide (j = i) then xs else frees Γ j).

(** How many of the blocks [xs] lie in the page at [a]. *)
Definition count (a : Z) (xs : list Z) : Z := Z.of_nat (length (filter (λ x, x / 4096 = a / 4096) xs)).

(** [c] pages in use of the kernel pool. *)
Record kernel_pages (m : pages) (a c : Z) : Prop := {
  kp_align : a mod 4096 = 0;
  kp_low : base (kernel_pool m) ≤ a;
  kp_high : a + 4096 * c ≤ base (kernel_pool m) + 4096 * bit_cnt (used_map (kernel_pool m));
  kp_used : ∀ pn, a / 4096 ≤ pn < a / 4096 + c → used m pn = true
}.
(** The header of an arena. *)
Record header (f : Z → Z) (a d n : Z) : Prop := {
  hd_magic : word_at f a = ARENA_MAGIC;
  hd_desc : word_at f (a + 4) = d;
  hd_cnt : word_at f (a + 8) = n
}.

Record core (σ : mstate) (Γ : layout) : Prop := {
  co_palloc : palloc_ok (mem σ);
  co_len : length (descs σ) = NDESCS;
  co_descs : ∀ i d, descs σ !! i = Some d → block_size d = bs i ∧ blocks_per_arena d = bpa i;
  co_static : 0 < descs_at σ ∧ descs_at σ + 480 ≤ base (kernel_pool (mem σ));
  co_lists : ∀ i, (i < NDESCS)%nat → is_list (elems σ) (free_list σ i) (frees Γ i);
  co_blocks : ∀ i x, (i < NDESCS)%nat → x ∈ frees Γ i →
    ∃ a k, arenas Γ !! a = Some i ∧ 0 ≤ k < bpa i ∧ x = blk i a k;
  co_arenas : ∀ a i, arenas Γ !! a = Some i →
    (i < NDESCS)%nat ∧ kernel_pages (mem σ) a 1 ∧
    header (bytes (mem σ)) a (desc_ptr σ i) (count a (frees Γ i));
  co_bigs : ∀ b c, bigs Γ !! b = Some c →
    0 < c ∧ kernel_pages (mem σ) b c ∧ header (bytes (mem σ)) b NULL c;
  co_apart : ∀ a i b c, arenas Γ !! a = Some i → bigs Γ !! b = Some c → a + 4096 ≤ b ∨ b + 4096 * c ≤ a;
  co_apart' : ∀ b c b' c', bigs Γ !! b = Some c → bigs Γ !! b' = Some c' → b ≠ b' →
    b + 4096 * c ≤ b' ∨ b' + 4096 * c' ≤ b
}.

(** No arena is entirely free (it would have been given back). *)
Definition settled (Γ : layout) : Prop :=
  ∀ a i, arenas Γ !! a = Some i → count a (frees Γ i) < bpa i.
(** No lock is held. *)
Definition unlocked (σ : mstate) : Prop := ∀ i d, descs σ !! i = Some d → desc_lock d = false.

(** The block of [n] bytes at [p] is handed out. *)
Definition live (Γ : layout) (p n : Z) : Prop :=
  (∃ a i k, arenas Γ !! a = Some i ∧ 0 ≤ k < bpa i ∧ p = blk i a k ∧ p ∉ frees Γ i ∧ n = bs i) ∨
  (∃ b c, bigs Γ !! b = Some c ∧ p = b + 12 ∧ n = 4096 * c - 12).

(** ** Arithmetic of blocks *)

Lemma bs_bounds i : (i < NDESCS)%nat → 16 ≤ bs i ∧ 0 < bpa i ∧ bpa i * bs i ≤ 4084 ∧ bpa i < 256.
Proof.
  unfold NDESCS. intros Hi. assert (i ∈ seq 0 7) as Hin by (apply elem_of_seq; lia).
  simpl in Hin. unfold bs, bpa, bs.
  repeat (apply elem_of_cons in Hin as [->|Hin]; [by split_and!|]). by apply elem_of_nil in Hin.
Qed.

Lemma blk_in i a k : (i < NDESCS)%nat → 0 ≤ k < bpa i → a mod 4096 = 0 →
  a + 12 ≤ blk i a k ∧ blk i a k + bs i ≤ a + 4096 ∧ blk i a k / 4096 = a / 4096.
Proof.
  intros Hi Hk Ha. destruct (bs_bounds i Hi) as (?&?&?&?). unfold blk.
  assert (k * bs i + bs i ≤ bpa i * bs i) by nia. assert (0 ≤ k * bs i) by nia. lia.
Qed.

Lemma blk_inj i a k k' : (i < NDESCS)%nat → blk i a k = blk i a k' → k = k'.
Proof. intros Hi. destruct (bs_bounds i Hi) as (?&?&?&?). unfold blk. nia. Qed.

(** Blocks of the same arena do not overlap. *)
Lemma blk_apart i a k k' : (i < NDESCS)%nat → k ≠ k' →
  blk i a k + bs i ≤ blk i a k' ∨ blk i a k' + bs i ≤ blk i a k.
Proof. intros Hi Hk. destruct (bs_bounds i Hi) as (?&?&?&?). unfold blk. nia. Qed.

Lemma count_cons a x xs : count a (x :: xs) = (if decide (x / 4096 = a / 4096) then 1 else 0) + count a xs.
Proof. unfold count. rewrite filter_cons. case_decide; simpl; lia. Qed.
Lemma count_nonneg a xs : 0 ≤ count a xs.
Proof. unfold count. lia. Qed.

Section facts.
Context (σ : mstate) (Γ : layout) (H : core σ Γ).

Lemma arena_page a i : arenas Γ !! a = Some i →
  (i < NDESCS)%nat ∧ a mod 4096 = 0 ∧ PHYS_BASE ≤ a ∧ a + 4096 ≤ ram_end (mem σ) ∧
  ram_end (mem σ) < 2 ^ 32 ∧ base (kernel_pool (mem σ)) ≤ a.
Proof using H.
  intros Ha. destruct (co_arenas _ _ H a i Ha) as (Hi & [Hal Hlo Hhi _] & _).
  destruct (co_palloc _ _ H) as [Hr [_ _ _ ? ?] _ _]. unfold ram_end in *. rewrite PGSIZE_eq in *.
  unfold PHYS_BASE in *. lia.
Qed.

Lemma big_page b c : bigs Γ !! b = Some c →
  0 < c ∧ b mod 4096 = 0 ∧ PHYS_BASE ≤ b ∧ b + 4096 * c ≤ ram_end (mem σ) ∧ ram_end (mem σ) < 2 ^ 32.
Proof using H.
  intros Hb. destruct (co_bigs _ _ H b c Hb) as (? & [Hal Hlo Hhi _] & _).
  destruct (co_palloc _ _ H) as [Hr [_ _ _ ? ?] _ _]. unfold ram_end in *. rewrite PGSIZE_eq in *.
  unfold PHYS_BASE in *. lia.
Qed.

Lemma arena_inj a a' i i' :
  arenas Γ !! a = Some i → arenas Γ !! a' = Some i' → a / 4096 = a' / 4096 → a = a'.
Proof using H.
  intros Ha Ha' E. destruct (arena_page _ _ Ha) as (_&?&_). destruct (arena_page _ _ Ha') as (_&?&_). lia.
Qed.

(** The arena of a free block. *)
Lemma free_block i x : (i < NDESCS)%nat → x ∈ frees Γ i →
  ∃ a k, arenas Γ !! a = Some i ∧ 0 ≤ k < bpa i ∧ x = blk i a k ∧ x / 4096 = a / 4096 ∧
    base (kernel_pool (mem σ)) ≤ a ∧ a < x.
Proof using H.
  intros Hi Hx. destruct (co_blocks _ _ H i x Hi Hx) as (a & k & Ha & Hk & ->).
  destruct (arena_page _ _ Ha) as (?&?&?&?&?&?). destruct (blk_in i a k) as (?&?&?); [done..|].
  exists a, k. split_and!; try done; lia.
Qed.

Lemma desc_ptr_static i : (i < NDESCS)%nat →
  0 < desc_ptr σ i ∧ desc_ptr σ i + 48 ≤ base (kernel_pool (mem σ)) ∧ desc_ptr σ i < 2 ^ 32.
Proof using H.
  intros Hi. destruct (co_static _ _ H). destruct (pool_bound _ (co_palloc _ _ H) false) as (?&?&?&?).
  unfold desc_ptr, sizeof_desc, NDESCS in *. simpl pool_at in *. lia.
Qed.

(** The elements of two free lists are different. *)
Lemma nodes_apart i j q : (i < NDESCS)%nat → (j < NDESCS)%nat → i ≠ j →
  q ∈ nodes (free_list σ i) (frees Γ i) → q ∉ nodes (free_list σ j) (frees Γ j).
Proof using H.
  intros Hi Hj Hij Hq Hq'. destruct (desc_ptr_static i Hi) as (?&?&_). destruct (desc_ptr_static j Hj) as (?&?&_).
  assert (desc_ptr σ i + 48 ≤ desc_ptr σ j ∨ desc_ptr σ j + 48 ≤ desc_ptr σ i) as Hd.
  { unfold desc_ptr, sizeof_desc. lia. }
  unfold nodes, free_list, head_of, tail_of, free_list_ofs in *.
  apply elem_of_cons in Hq as [->|[Hq| ->%list_elem_of_singleton]%elem_of_app];
    apply elem_of_cons in Hq' as [Hq'|[Hq'|Hq'%list_elem_of_singleton]%elem_of_app]; try lia;
    try destruct (free_block _ _ Hi Hq) as (a & k & Ha & ? & ? & ? & ? & ?);
    try destruct (free_block _ _ Hj Hq') as (a' & k' & Ha' & ? & ? & ? & ? & ?); try lia.
  assert (a = a') as -> by (eapply arena_inj; [done..|lia]). congruence.
Qed.

(** A list survives changes to another one and to blocks that are on no list. *)
Lemma other_list i j ps h' : (i < NDESCS)%nat → (j < NDESCS)%nat → i ≠ j →
  same_outside (ps ++ nodes (free_list σ i) (frees Γ i)) (elems σ) h' →
  (∀ q, q ∈ ps → q ∉ nodes (free_list σ j) (frees Γ j)) →
  is_list h' (free_list σ j) (frees Γ j).
Proof using H.
  intros Hi Hj Hij Hs Hps. eapply is_list_frame; [exact Hs| |by apply (co_lists _ _ H)].
  intros q Hq [Hin|Hin]%elem_of_app; [by eapply Hps|]. by eapply (nodes_apart i j).
Qed.

(** A block of an arena of [i] is on no other list. *)
Lemma blk_other_list a i k j : arenas Γ !! a = Some i → 0 ≤ k < bpa i → (j < NDESCS)%nat →
  (j = i → blk i a k ∉ frees Γ i) → blk i a k ∉ nodes (free_list σ j) (frees Γ j).
Proof using H.
  intros Ha Hk Hj Hne Hq. destruct (arena_page _ _ Ha) as (Hi&?&?&?&?&?).
  destruct (blk_in i a k) as (?&?&?); [done..|]. destruct (desc_ptr_static j Hj) as (?&?&_).
  unfold nodes, free_list, head_of, tail_of, free_list_ofs in Hq.
  apply elem_of_cons in Hq as [Hq|[Hq|Hq%list_elem_of_singleton]%elem_of_app]; [lia| |lia].
  destruct (free_block _ _ Hj Hq) as (a' & k' & Ha' & ? & ? & ? & ? & ?).
  assert (a = a') as -> by (eapply arena_inj; [done..|lia]).
  assert (j = i) as -> by congruence. by apply Hne.
Qed.
End facts.

(** ** Running the parts of malloc.c *)

Definition with_mem (m : pages) (σ : mstate) : mstate := mk_mstate m (elems σ) (descs_at σ) (descs σ).
Definition with_elems (h : heap) (σ : mstate) : mstate := mk_mstate (mem σ) h (descs_at σ) (descs σ).

Lemma wp_on_mem {A} (m : M pages A) σ Q :
  wp m (mem σ) (λ a r, Q a (with_mem r σ)) → wp (on_mem m) σ Q.
Proof. unfold on_mem. intros H. by refine (wp_zoom _ _ m σ Q H). Qed.
Lemma wp_on_elems {A} (m : M heap A) σ Q :
  wp m (elems σ) (λ a h, Q a (with_elems h σ)) → wp (on_elems m) σ Q.
Proof. unfold on_elems. intros H. by refine (wp_zoom _ _ m σ Q H). Qed.
Lemma with_mem_same σ : with_mem (mem σ) σ = σ.
Proof. by destruct σ. Qed.
Lemma with_elems_same σ : with_elems (elems σ) σ = σ.
Proof. by destruct σ. Qed.

(** The descriptors, and the header of an arena of the descriptor [i]. *)
Record statics (σ : mstate) : Prop := {
  st_palloc : palloc_ok (mem σ);
  st_len : length (descs σ) = NDESCS;
  st_descs : ∀ i d, descs σ !! i = Some d → block_size d = bs i ∧ blocks_per_arena d = bpa i;
  st_static : 0 < descs_at σ
}.
Record page_at (σ : mstate) (a d : Z) : Prop := {
  pa_align : a mod 4096 = 0;
  pa_low : PHYS_BASE ≤ a;
  pa_high : a + 4096 ≤ ram_end (mem σ);
  pa_magic : word_at (bytes (mem σ)) a = ARENA_MAGIC;
  pa_desc : word_at (bytes (mem σ)) (a + 4) = d
}.

Lemma core_statics σ Γ : core σ Γ → statics σ.
Proof. intros []. split; try done. tauto. Qed.

Lemma core_page_at σ Γ a i : core σ Γ → arenas Γ !! a = Some i → page_at σ a (desc_ptr σ i).
Proof.
  intros H Ha. destruct (arena_page _ _ H _ _ Ha) as (?&?&?&?&?&?).
  destruct (co_arenas _ _ H _ _ Ha) as (_ & _ & [? ? _]). by split.
Qed.

Section run.
Context (σ : mstate) (Hst : statics σ).

Lemma ram_word : ram_end (mem σ) < 2 ^ 32.
Proof using Hst.
  pose proof (pk_ram _ (st_palloc _ Hst)). unfold ram_end, PHYS_BASE. rewrite PGSIZE_eq. lia.
Qed.

Lemma wp_load_desc i Q : (i < NDESCS)%nat →
  (∀ d, descs σ !! i = Some d → block_size d = bs i → blocks_per_arena d = bpa i → Q d σ) →
  wp (load_desc i) σ Q.
Proof using Hst.
  intros Hi HQ. rewrite <-(st_len _ Hst) in Hi. apply lookup_lt_is_Some_2 in Hi as [d Hd].
  unfold load_desc. repeat wp_step. apply (wp_from_option _ d); [done|].
  destruct (st_descs _ Hst _ _ Hd). by apply HQ.
Qed.

Lemma wp_desc_index i Q : Q i σ → wp (desc_index (desc_ptr σ i)) σ Q.
Proof.
  intros HQ. unfold desc_index. repeat wp_step.
  replace (Z.to_nat _) with i by (unfold desc_ptr, sizeof_desc; lia).
  rewrite decide_True by done. by wp_step.
Qed.

Lemma wp_get_word a w Q :
  PHYS_BASE ≤ a → a + 4 ≤ ram_end (mem σ) → word_at (bytes (mem σ)) a = w → Q w σ →
  wp (on_mem (load_word a)) σ Q.
Proof. intros ?? <- HQ. apply wp_on_mem, wp_load_word; [done..|]. by rewrite with_mem_same. Qed.

Lemma wp_arena_to_block a i k Q :
  (i < NDESCS)%nat → page_at σ a (desc_ptr σ i) → 0 ≤ k < bpa i → Q (blk i a k) σ →
  wp (arena_to_block a k) σ Q.
Proof using Hst.
  intros Hi [Ha Hl Hh Hm Hd] Hk HQ. destruct (blk_in i a k) as (?&?&?); [done..|]. pose proof ram_word.
  unfold arena_to_block, PHYS_BASE in *. wp_step.
  apply wp_assert; [apply negb_true_iff, Z.eqb_neq; unfold NULL; lia|].
  wp_step. apply (wp_get_word a _ _ ltac:(unfold PHYS_BASE; lia) ltac:(lia) Hm).
  wp_step. apply wp_assert; [done|].
  wp_step. apply (wp_get_word (a + 4) _ _ ltac:(unfold PHYS_BASE; lia) ltac:(lia) Hd).
  wp_step. apply wp_desc_index. wp_step. apply wp_load_desc; [done|]. intros d _ Eb En.
  wp_step. apply wp_assert; [rewrite En; apply Z.ltb_lt; lia|]. wp_step. rewrite Eb.
  unfold sizeof_arena. unfold blk in *. destruct (bs_bounds i Hi) as (?&_).
  rewrite wrap_small; [done|]. nia.
Qed.

Lemma wp_block_to_arena a i k Q :
  (i < NDESCS)%nat → page_at σ a (desc_ptr σ i) → 0 ≤ k < bpa i → Q a σ →
  wp (block_to_arena (blk i a k)) σ Q.
Proof using Hst.
  intros Hi [Ha Hl Hh Hm Hd] Hk HQ. destruct (blk_in i a k) as (?&?&?); [done..|]. pose proof ram_word.
  assert (0 < desc_ptr σ i) as Hdp.
  { pose proof (st_static _ Hst). unfold desc_ptr, sizeof_desc. lia. }
  destruct (bs_bounds i Hi) as (?&?&?&?). unfold block_to_arena, PHYS_BASE in *.
  rewrite pg_round_down_eq, pg_ofs_mod by lia.
  replace (blk i a k - blk i a k mod 4096) with a by lia. wp_step.
  apply wp_assert; [apply negb_true_iff, Z.eqb_neq; unfold NULL; lia|].
  wp_step. apply (wp_get_word a _ _ ltac:(unfold PHYS_BASE; lia) ltac:(lia) Hm).
  wp_step. apply wp_assert; [done|].
  wp_step. apply (wp_get_word (a + 4) _ _ ltac:(unfold PHYS_BASE; lia) ltac:(lia) Hd).
  wp_step. unfold assertM, orM. do 3 wp_step.
  rewrite (proj2 (Z.eqb_neq _ NULL)) by (unfold NULL; lia).
  wp_step. apply wp_desc_index. wp_step. apply wp_load_desc; [done|]. intros d _ Eb En. wp_step.
  apply wp_assert.
  { rewrite Eb. apply Z.eqb_eq. unfold sizeof_arena. rewrite wrap_small by lia.
    replace (blk i a k mod 4096 - 12) with (k * bs i) by (unfold blk in *; lia). apply Z.mod_mul. lia. }
  wp_step. apply wp_assert; [done|]. by wp_step.
Qed.

Lemma wp_block_to_arena_big a Q : page_at σ a NULL → Q a σ → wp (block_to_arena (a + 12)) σ Q.
Proof using Hst.
  intros [Ha Hl Hh Hm Hd] HQ. pose proof ram_word. unfold block_to_arena, PHYS_BASE in *.
  rewrite pg_round_down_eq, pg_ofs_mod by lia. replace (a + 12 - (a + 12) mod 4096) with a by lia. wp_step.
  apply wp_assert; [apply negb_true_iff, Z.eqb_neq; unfold NULL; lia|].
  wp_step. apply (wp_get_word a _ _ ltac:(unfold PHYS_BASE; lia) ltac:(lia) Hm).
  wp_step. apply wp_assert; [done|].
  wp_step. apply (wp_get_word (a + 4) _ _ ltac:(unfold PHYS_BASE; lia) ltac:(lia) Hd).
  wp_step. unfold assertM, orM. do 3 wp_step. change (NULL =? NULL) with true. cbv iota. wp_step.
  apply wp_assert; [done|].
  wp_step. apply wp_assert; [apply orb_true_iff; right; apply Z.eqb_eq; unfold sizeof_arena; lia|]. by wp_step.
Qed.
End run.

(** [n] blocks of the arena [a] from number [k] on. *)
Fixpoint blks (n : nat) (i : nat) (a k : Z) : list Z :=
  match n with O => [] | S n => blk i a k :: blks n i a (k + 1) end.

Lemma elem_of_blks n i a k x :
  x ∈ blks n i a k ↔ ∃ j, k ≤ j < k + Z.of_nat n ∧ x = blk i a j.
Proof.
  revert k; induction n as [|n IH]; intros k; cbn [blks].
  { split; [by intros ?%elem_of_nil|]. intros (j & ? & _). lia. }
  rewrite elem_of_cons, IH. split.
  - intros [->|(j & ? & ->)]; [exists k|exists j]; (split; [lia|done]).
  - intros (j & ? & ->). destruct (decide (j = k)) as [->|]; [by left|]. right. exists j. split; [lia|done].
Qed.

Lemma statics_elems h σ : statics σ → statics (with_elems h σ).
Proof. by intros []. Qed.
Lemma page_at_elems h σ a d : page_at σ a d → page_at (with_elems h σ) a d.
Proof. by intros []. Qed.

Lemma wp_push_blocks n σ i a k xs Q :
  statics σ → (i < NDESCS)%nat → page_at σ a (desc_ptr σ i) → 0 ≤ k → k + Z.of_nat n ≤ bpa i →
  is_list (elems σ) (free_list σ i) xs →
  (∀ j, k ≤ j < k + Z.of_nat n → blk i a j ∉ nodes (free_list σ i) xs) →
  (∀ h', is_list h' (free_list σ i) (xs ++ blks n i a k) →
     same_outside (blks n i a k ++ nodes (free_list σ i) xs) (elems σ) h' → Q tt (with_elems h' σ)) →
  wp (push_blocks n i a k) σ Q.
Proof.
  revert σ k xs; induction n as [|n IH]; intros σ k xs Hst Hi Hp Hk Hn Hl Hfresh HQ.
  { simpl in *. wp_step. rewrite <-(with_elems_same σ). apply HQ; [by rewrite app_nil_r|done]. }
  cbn [push_blocks blks] in *. pose proof Hp as [Ha Hlo _ _ _].
  destruct (blk_in i a k) as (?&?&?); [lia..|]. unfold PHYS_BASE in Hlo.
  wp_step. apply (wp_arena_to_block _ Hst a i k); [done|done|lia|]. unfold claim. repeat wp_step.
  match goal with |- context [mk_mstate (mem σ) ?h _ _] => set (h1 := h) end.
  assert (blk i a k ∉ nodes (free_list σ i) xs) as Hnk by (apply Hfresh; lia).
  assert (same_outside [blk i a k] (elems σ) h1) as Hs1.
  { intros q Hq. unfold h1. rewrite lookup_insert_ne; [done|]. by rewrite list_elem_of_singleton in Hq. }
  apply wp_on_elems, (wp_push_back _ _ xs).
  - eapply is_list_frame; [exact Hs1| |done]. intros q Hq. rewrite list_elem_of_singleton. by intros ->.
  - unfold KList.NULL. lia.
  - done.
  - exists (mk_elem (word_at (bytes (mem σ)) (blk i a k)) (word_at (bytes (mem σ)) (blk i a k + 4))).
    unfold h1. simpl. by rewrite lookup_insert_eq.
  - intros h2 Hl2 Hs2. simpl in Hs2. change (with_elems h2 _) with (with_elems h2 σ).
    assert (free_list (mk_mstate (mem σ) h1 (descs_at σ) (descs σ)) i = free_list σ i) as El by done.
    rewrite El in Hl2, Hs2.
    apply (IH _ (k + 1) (xs ++ [blk i a k])); [by apply statics_elems|done|by apply page_at_elems|lia|lia|done| |].
    + intros j Hj. change (free_list (with_elems h2 σ) i) with (free_list σ i).
      rewrite nodes_perm_cons, app_nil_r. apply not_elem_of_cons. split; [|apply Hfresh; lia].
      intros E. apply blk_inj in E; [lia|done].
    + intros h3 Hl3 Hs3. change (free_list (with_elems h2 σ) i) with (free_list σ i) in *.
      change (with_elems h3 (with_elems h2 σ)) with (with_elems h3 σ).
      apply HQ; [by rewrite <-app_assoc in Hl3|]. intros q [Hq1 Hq3]%not_elem_of_app.
      apply not_elem_of_cons in Hq1 as [Hq1 Hq2].
      rewrite Hs3, Hs2, Hs1; [done|by apply not_elem_of_cons; split; [|apply not_elem_of_nil]|
        by apply not_elem_of_cons|].
      rewrite nodes_perm_cons, app_nil_r, not_elem_of_app, not_elem_of_cons. done.
Qed.

Lemma filter_remove_elem (b : Z) ps qs bl : b ∉ ps → b ∉ qs →
  filter (λ x, x ∉ bl) (ps ++ qs) = filter (λ x, x ∉ b :: bl) (ps ++ b :: qs).
Proof.
  intros Hp Hq. rewrite !filter_app, filter_cons, decide_False by set_solver.
  f_equal; apply filter_ext_in; set_solver.
Qed.

Lemma wp_remove_blocks n σ i a k xs Q :
  statics σ → (i < NDESCS)%nat → page_at σ a (desc_ptr σ i) → 0 ≤ k → k + Z.of_nat n ≤ bpa i →
  is_list (elems σ) (free_list σ i) xs → (∀ x, x ∈ blks n i a k → x ∈ xs) →
  (∀ h', is_list h' (free_list σ i) (filter (λ x, x ∉ blks n i a k) xs) →
     same_outside (nodes (free_list σ i) xs) (elems σ) h' → Q tt (with_elems h' σ)) →
  wp (remove_blocks n a k) σ Q.
Proof.
  revert σ k xs; induction n as [|n IH]; intros σ k xs Hst Hi Hp Hk Hn Hl Hin HQ.
  { simpl in *. wp_step. rewrite <-(with_elems_same σ). apply HQ; [|done].
    rewrite filter_all; [done|]. intros x _. apply not_elem_of_nil. }
  cbn [remove_blocks blks] in *. pose proof Hp as [Ha Hlo _ _ _].
  destruct (list_elem_of_split xs (blk i a k)) as (ps & qs & ->); [apply Hin; set_solver|].
  pose proof (il_nodup _ _ _ Hl) as Hnd. rewrite nodes_perm_cons in Hnd.
  apply NoDup_cons in Hnd as [Hnk Hnd].
  assert (blk i a k ∉ ps ∧ blk i a k ∉ qs) as [Hkp Hkq].
  { unfold nodes in Hnk. rewrite !not_elem_of_cons, !not_elem_of_app in Hnk. tauto. }
  wp_step. apply (wp_arena_to_block _ Hst a i k); [done|done|lia|]. wp_step.
  apply wp_on_elems, (wp_remove _ (free_list σ i) ps _ qs); [done|]. intros h1 Hl1 Hs1.
  unfold unclaim. repeat wp_step. set (h2 := delete _ _).
  assert (same_outside [blk i a k] h1 h2) as Hs2.
  { intros q Hq. unfold h2. rewrite lookup_delete_ne; [done|]. by rewrite list_elem_of_singleton in Hq. }
  change (mk_mstate _ h2 _ _) with (with_elems h2 σ).
  apply (IH _ (k + 1) (ps ++ qs));
    [by apply statics_elems|done|by apply page_at_elems|lia|lia| | |].
  - eapply is_list_frame; [exact Hs2| |exact Hl1]. intros q Hq. rewrite list_elem_of_singleton. by intros ->.
  - intros x Hx. assert (x ≠ blk i a k) as Hne.
    { apply elem_of_blks in Hx as (j & ? & ->). intros E. apply blk_inj in E; [lia|done]. }
    specialize (Hin x ltac:(set_solver)). set_solver.
  - intros h3 Hl3 Hs3. change (free_list (with_elems h2 σ) i) with (free_list σ i) in *.
    change (with_elems h3 (with_elems h2 σ)) with (with_elems h3 σ).
    apply HQ; [by rewrite <-filter_remove_elem|]. intros q Hq. simpl in Hs3.
    rewrite nodes_perm_cons in Hq. apply not_elem_of_cons in Hq as [Hq1 Hq2].
    rewrite Hs3, Hs2, Hs1; [done|done|by apply not_elem_of_cons; split; [|apply not_elem_of_nil]|done].
Qed.
