(* ===== verification/MallocSteps.v ===== *)
(** * What malloc and free do to the layout

    One lemma per change of the allocator's state: a block leaves or joins a free
    list, an arena or a big block is created or given back. *)

From S2P Require Import Prelude KList Bitmap Vaddr Palloc Ram Malloc MallocInv.
Local Open Scope Z_scope.
Local Ltac Zify.zify_post_hook ::= Z.div_mod_to_equations.

Lemma header_agree f g a d n : agree a 12 g f → header f a d n → header g a d n.
Proof.
  intros Hag [H1 H2 H3].
  split; [rewrite <-H1|rewrite <-H2|rewrite <-H3]; apply (agree_word _ _ _ _ _ Hag); lia.
Qed.

Lemma header_set_cnt f a d n n' : a mod 4 = 0 → 0 ≤ n' < 2 ^ 32 →
  header f a d n → header (put_word (a + 8) n' f) a d n'.
Proof.
  intros Ha Hn [H1 H2 H3]. split; [rewrite word_at_put_ne by lia..|by apply word_at_put]; done.
Qed.

(** The bytes after set_header. *)
Definition new_header (a d n : Z) (f : Z → Z) : Z → Z :=
  put_word (a + 8) n (put_word (a + 4) d (put_word a ARENA_MAGIC f)).

Lemma header_new f a d n : a mod 4 = 0 → 0 ≤ d < 2 ^ 32 → 0 ≤ n < 2 ^ 32 →
  header (new_header a d n f) a d n.
Proof.
  intros Ha Hd Hn. unfold new_header. eapply (header_set_cnt _ _ _ (word_at f (a + 8))); [done..|].
  split; [rewrite word_at_put_ne by lia; by apply word_at_put|by apply word_at_put|].
  by rewrite !word_at_put_ne by lia.
Qed.

Lemma new_header_agree f a d n b m : a + 12 ≤ b ∨ b + m ≤ a → agree b m (new_header a d n f) f.
Proof.
  intros Hb. unfold new_header. do 2 (eapply agree_trans; [apply put_word_agree; lia|]).
  apply put_word_agree. lia.
Qed.

(** ** Changes of one free list *)

Lemma core_set_frees σ Γ i a g h xs :
  core σ Γ → arenas Γ !! a = Some i →
  (∀ a' i', arenas Γ !! a' = Some i' → a' ≠ a → agree a' 12 g (bytes (mem σ))) →
  (∀ b c, bigs Γ !! b = Some c → agree b 12 g (bytes (mem σ))) →
  header g a (desc_ptr σ i) (count a xs) →
  (∀ a', a' ≠ a → arenas Γ !! a' = Some i → count a' xs = count a' (frees Γ i)) →
  is_list h (free_list σ i) xs →
  (∀ j, (j < NDESCS)%nat → j ≠ i → is_list h (free_list σ j) (frees Γ j)) →
  (∀ x, x ∈ xs → ∃ a k, arenas Γ !! a = Some i ∧ 0 ≤ k < bpa i ∧ x = blk i a k) →
  core (mk_mstate (set_bytes g (mem σ)) h (descs_at σ) (descs σ)) (set_frees i xs Γ).
Proof.
  intros H Ha Hag Hag' Hhd Hcnt Hl Hl' Hbl. split; simpl.
  - by apply palloc_ok_bytes, (co_palloc _ _ H).
  - apply (co_len _ _ H).
  - apply (co_descs _ _ H).
  - apply (co_static _ _ H).
  - intros j Hj. case_decide as E; [by subst|]. by apply Hl'.
  - intros j x Hj. case_decide as E; [subst; apply Hbl|by apply (co_blocks _ _ H)].
  - intros a' i' Ha'. destruct (co_arenas _ _ H a' i' Ha') as (Hi' & [] & Hh).
    split_and!; [done|by split|]. destruct (decide (a' = a)) as [->|Hne].
    + assert (i' = i) as -> by congruence. by rewrite decide_True.
    + apply (header_agree (bytes (mem σ))); [by eapply Hag|]. case_decide as E; [|done].
      subst. rewrite Hcnt by done. done.
  - intros b c Hb. destruct (co_bigs _ _ H b c Hb) as (? & [] & Hh).
    split_and!; [done|by split|]. apply (header_agree (bytes (mem σ))); [by eapply Hag'|done].
  - apply (co_apart _ _ H).
  - apply (co_apart' _ _ H).
Qed.

(** Bytes of the page [a] change: the headers of other arenas and of big blocks stay. *)
Lemma headers_apart σ Γ a i g :
  core σ Γ → arenas Γ !! a = Some i →
  (∀ b n, a + 4096 ≤ b ∨ b + n ≤ a → agree b n g (bytes (mem σ))) →
  (∀ a' i', arenas Γ !! a' = Some i' → a' ≠ a → agree a' 12 g (bytes (mem σ))) ∧
  (∀ b c, bigs Γ !! b = Some c → agree b 12 g (bytes (mem σ))).
Proof.
  intros H Ha Hag. destruct (arena_page _ _ H _ _ Ha) as (_&?&_). split.
  - intros a' i' Ha' Hne. destruct (arena_page _ _ H _ _ Ha') as (_&?&_). apply Hag. lia.
  - intros b c Hb. destruct (big_page _ _ H _ _ Hb) as (?&?&_).
    apply Hag. destruct (co_apart _ _ H _ _ _ _ Ha Hb); lia.
Qed.

Section free_lists.
Context (σ : mstate) (Γ : layout) (H : core σ Γ) (i : nat) (a k : Z).
Context (Ha : arenas Γ !! a = Some i) (Hk : 0 ≤ k < bpa i).
Let x : Z := blk i a k.

Lemma x_page : (i < NDESCS)%nat ∧ a mod 4096 = 0 ∧ x / 4096 = a / 4096 ∧ a + 12 ≤ x ∧ x + bs i ≤ a + 4096.
Proof using All.
  destruct (arena_page _ _ H _ _ Ha) as (?&?&_). destruct (blk_in i a k) as (?&?&?); [done..|]. done.
Qed.

Lemma count_other a' xs : a' ≠ a → arenas Γ !! a' = Some i → count a' (x :: xs) = count a' xs.
Proof using All.
  intros Hne Ha'. destruct x_page as (_&?&?&_). destruct (arena_page _ _ H _ _ Ha') as (_&?&_).
  rewrite count_cons, decide_False by lia. lia.
Qed.

(** The first block of a free list is taken. *)
Lemma core_pop xs h :
  frees Γ i = x :: xs → is_list h (free_list σ i) xs →
  same_outside (nodes (free_list σ i) xs) (elems σ) h →
  core (mk_mstate (set_bytes (put_word (a + 8) (count a xs) (bytes (mem σ))) (mem σ))
          (delete x h) (descs_at σ) (descs σ)) (set_frees i xs Γ).
Proof using All.
  intros Ef Hl Hs. destruct x_page as (Hi&Hal&Hxa&?&?).
  pose proof (co_lists _ _ H i Hi) as Hl0. rewrite Ef in Hl0.
  pose proof (il_nodup _ _ _ Hl0) as Hnd. rewrite (nodes_perm_cons _ [] xs x) in Hnd.
  apply NoDup_cons in Hnd as [Hnx _]. simpl in Hnx.
  destruct (co_arenas _ _ H _ _ Ha) as (_ & _ & Hhd). rewrite Ef, count_cons, decide_True in Hhd by done.
  destruct (headers_apart σ Γ a i (put_word (a + 8) (count a xs) (bytes (mem σ))) H Ha) as [Hg Hg'].
  { intros b n Hb. apply put_word_agree. lia. }
  assert (same_outside [x] h (delete x h)) as Hd.
  { intros q Hq. rewrite lookup_delete_ne; [done|]. by rewrite list_elem_of_singleton in Hq. }
  assert (count a xs < 2 ^ 32) as Hc.
  { pose proof (word_at_bounds (bytes (mem σ)) (a + 8)) as Hw. rewrite (hd_cnt _ _ _ _ Hhd) in Hw. lia. }
  apply (core_set_frees σ Γ i a); try done.
  - eapply header_set_cnt; [lia| |exact Hhd]. split; [apply count_nonneg|done].
  - intros a' Hne Ha'. by rewrite Ef, count_other.
  - eapply is_list_frame; [exact Hd| |done]. intros q Hq. rewrite list_elem_of_singleton. by intros ->.
  - intros j Hj Hji. eapply is_list_frame; [exact Hd| |].
    + intros q Hq. rewrite list_elem_of_singleton. intros ->.
      apply (blk_other_list _ _ H a i k j Ha Hk Hj); [done|exact Hq].
    + eapply (other_list _ _ H i j [x]); [done..|congruence| |].
      * eapply same_outside_mono; [|exact Hs]. intros q Hq. apply elem_of_app. right. rewrite Ef.
        rewrite (nodes_perm_cons _ [] xs x). apply elem_of_cons. by right.
      * intros q ->%list_elem_of_singleton. by apply (blk_other_list _ _ H a i k j Ha Hk Hj).
  - intros y Hy. apply (co_blocks _ _ H i y Hi). rewrite Ef. apply elem_of_cons. by right.
Qed.

(** A block joins a free list. *)
Lemma core_push g h :
  x ∉ frees Γ i → is_list h (free_list σ i) (x :: frees Γ i) →
  same_outside (x :: nodes (free_list σ i) (frees Γ i)) (elems σ) h →
  (∀ b n, a + 4096 ≤ b ∨ b + n ≤ a → agree b n g (bytes (mem σ))) →
  header g a (desc_ptr σ i) (count a (frees Γ i) + 1) →
  core (mk_mstate (set_bytes g (mem σ)) h (descs_at σ) (descs σ)) (set_frees i (x :: frees Γ i) Γ).
Proof using All.
  intros Hx Hl Hs Hag Hhd. destruct x_page as (Hi&Hal&Hxa&?&?).
  destruct (headers_apart σ Γ a i g H Ha Hag) as [Hg Hg'].
  apply (core_set_frees σ Γ i a); try done.
  - by rewrite count_cons, decide_True, Z.add_comm.
  - intros a' Hne Ha'. by apply count_other.
  - intros j Hj Hji. eapply (other_list _ _ H i j [x]); [done..|congruence|exact Hs|].
    intros q ->%list_elem_of_singleton. by apply (blk_other_list _ _ H a i k j Ha Hk Hj).
  - intros y [->|Hy]%elem_of_cons; [by exists a, k|]. by apply (co_blocks _ _ H i y Hi).
Qed.
End free_lists.

(** ** New pages *)

Lemma kernel_pages_set P v f m m' a c :
  pages_set P v f m m' → (∀ pn, a / 4096 ≤ pn < a / 4096 + c → P pn → v = true) →
  (∀ pn, P pn ∨ ¬ P pn) → kernel_pages m a c → kernel_pages m' a c.
Proof.
  intros [_ _ [E1 E2] _ Hi Ho _] HP Hdec [? ? ? Hu]. split; [done|by rewrite E1|by rewrite E1, E2|].
  intros pn Hpn. destruct (Hdec pn) as [Hp|Hp]; [rewrite Hi by done; by eapply HP|].
  rewrite Ho by done. by apply Hu.
Qed.

Section new_pages.
Context (σ : mstate) (Γ : layout) (H : core σ Γ) (a c : Z) (f g : Z → Z) (m1 : pages).
Context (Hc : 0 < c) (Hg : granted false a c f (mem σ) m1).
Context (Hag : ∀ b n, a + 4096 * c ≤ b ∨ b + n ≤ a → agree b n g (bytes (mem σ))).

(** The pages of the layout are not among the new ones. *)
Lemma new_apart b n : kernel_pages (mem σ) b n → 0 < n → a + 4096 * c ≤ b ∨ b + 4096 * n ≤ a.
Proof using All.
  intros [Hb _ _ Hu] Hn. destruct Hg as [_ _ Ha Hfree _].
  destruct (Z.le_gt_cases (a + 4096 * c) b); [by left|].
  destruct (Z.le_gt_cases (b + 4096 * n) a); [by right|]. exfalso.
  assert (used (mem σ) (Z.max (a / 4096) (b / 4096)) = true) as E by (apply Hu; lia).
  rewrite Hfree in E by lia. done.
Qed.

Lemma new_arena_apart a' i' : arenas Γ !! a' = Some i' → a + 4096 * c ≤ a' ∨ a' + 4096 ≤ a.
Proof using All.
  intros Ha'. destruct (co_arenas _ _ H _ _ Ha') as (_ & Hp & _). pose proof (new_apart a' 1 Hp). lia.
Qed.
Lemma new_big_apart b n : bigs Γ !! b = Some n → a + 4096 * c ≤ b ∨ b + 4096 * n ≤ a.
Proof using All. intros Hb. destruct (co_bigs _ _ H _ _ Hb) as (? & Hp & _). by apply new_apart. Qed.

Lemma new_kernel_pages b n : kernel_pages (mem σ) b n → kernel_pages (set_bytes g m1) b n.
Proof using All.
  intros Hp. destruct (kernel_pages_set _ _ _ _ _ b n (gr_set _ _ _ _ _ _ Hg)) as []; [done| |done|by split].
  intros pn. lia.
Qed.

Lemma new_pages_granted : kernel_pages (set_bytes g m1) a c.
Proof using All.
  destruct Hg as [Hb He Ha _ [_ _ [E1 E2] _ Hin _ _]]. simpl pool_at in *.
  split; simpl; [done|by rewrite E1|by rewrite E1, E2|exact Hin].
Qed.

(** Addresses in the new pages are on no free list. *)
Lemma new_not_node j q : (j < NDESCS)%nat → a ≤ q < a + 4096 * c → q ∉ nodes (free_list σ j) (frees Γ j).
Proof using All.
  intros Hj Hq Hin. destruct (desc_ptr_static _ _ H j Hj) as (?&?&_).
  destruct Hg as [Hb _ _ _ _]. simpl pool_at in Hb.
  unfold nodes, free_list, head_of, tail_of, free_list_ofs in Hin.
  apply elem_of_cons in Hin as [Hin|[Hin|Hin%list_elem_of_singleton]%elem_of_app]; [lia| |lia].
  destruct (free_block _ _ H _ _ Hj Hin) as (a' & k' & Ha' & ? & ? & ? & ? & ?).
  destruct (arena_page _ _ H _ _ Ha') as (?&?&_). pose proof (new_arena_apart _ _ Ha'). lia.
Qed.

(** What [core] says of the old arenas and big blocks still holds. *)
Lemma new_core_old h Γ' :
  (∀ j, (j < NDESCS)%nat → is_list h (free_list σ j) (frees Γ' j)) →
  (∀ j x, (j < NDESCS)%nat → x ∈ frees Γ' j →
     ∃ a k, arenas Γ' !! a = Some j ∧ 0 ≤ k < bpa j ∧ x = blk j a k) →
  (∀ a' i, arenas Γ' !! a' = Some i →
     arenas Γ !! a' = Some i ∧ count a' (frees Γ' i) = count a' (frees Γ i) ∨
     a' = a ∧ c = 1 ∧ bigs Γ' = bigs Γ ∧ (i < NDESCS)%nat ∧
       header g a (desc_ptr σ i) (count a (frees Γ' i))) →
  (∀ b n, bigs Γ' !! b = Some n →
     bigs Γ !! b = Some n ∨ b = a ∧ n = c ∧ arenas Γ' = arenas Γ ∧ header g a NULL c) →
  core (mk_mstate (set_bytes g m1) h (descs_at σ) (descs σ)) Γ'.
Proof using All.
  intros Hl Hb Har Hbi. pose proof (ps_kernel _ _ _ _ _ (gr_set _ _ _ _ _ _ Hg)) as [E1 _].
  pose proof new_pages_granted as Hnew. split; simpl; try done.
  - apply palloc_ok_bytes, (gr_set _ _ _ _ _ _ Hg).
  - apply (co_len _ _ H).
  - apply (co_descs _ _ H).
  - rewrite E1. apply (co_static _ _ H).
  - intros a' i Ha'. destruct (Har a' i Ha') as [[Ho ->]|(-> & Ec & _ & ? & ?)].
    2: { rewrite Ec in Hnew. done. }
    destruct (co_arenas _ _ H _ _ Ho) as (? & Hp & Hh). split_and!; [done|by apply new_kernel_pages|].
    eapply header_agree; [|exact Hh]. apply Hag. pose proof (new_arena_apart _ _ Ho). lia.
  - intros b n Hbn. destruct (Hbi b n Hbn) as [Ho|(-> & -> & _ & ?)]; [|done].
    destruct (co_bigs _ _ H _ _ Ho) as (? & Hp & Hh). split_and!; [done|by apply new_kernel_pages|].
    eapply header_agree; [|exact Hh]. apply Hag. pose proof (new_big_apart _ _ Ho). lia.
  - intros a' i b n Ha' Hbn. destruct (Har a' i Ha') as [[Ho _]|(-> & Ec & Eb & _)].
    + destruct (Hbi b n Hbn) as [Ho'|(-> & -> & _)]; [by eapply (co_apart _ _ H)|].
      pose proof (new_arena_apart _ _ Ho). lia.
    + rewrite Eb in Hbn. pose proof (new_big_apart _ _ Hbn). lia.
  - intros b n b' n' Hbn Hbn' Hne. destruct (Hbi b n Hbn) as [Ho|(-> & -> & _)];
      destruct (Hbi b' n' Hbn') as [Ho'|(-> & -> & _)].
    + by eapply (co_apart' _ _ H).
    + pose proof (new_big_apart _ _ Ho). lia.
    + by apply new_big_apart.
    + done.
Qed.
End new_pages.

(** ** Pages given back *)

Lemma gone_core σ Γ Γ' a c m1 h :
  core σ Γ → a mod 4096 = 0 →
  pages_set (λ pn, a / 4096 ≤ pn < a / 4096 + c) false (fill a (4096 * c) 0xcc (bytes (mem σ))) (mem σ) m1 →
  (∀ j, (j < NDESCS)%nat → is_list h (free_list σ j) (frees Γ' j)) →
  (∀ j x, (j < NDESCS)%nat → x ∈ frees Γ' j →
     ∃ a k, arenas Γ' !! a = Some j ∧ 0 ≤ k < bpa j ∧ x = blk j a k) →
  (∀ a' i, arenas Γ' !! a' = Some i →
     arenas Γ !! a' = Some i ∧ count a' (frees Γ' i) = count a' (frees Γ i) ∧
     (a + 4096 * c ≤ a' ∨ a' + 4096 ≤ a)) →
  (∀ b n, bigs Γ' !! b = Some n → bigs Γ !! b = Some n ∧ (a + 4096 * c ≤ b ∨ b + 4096 * n ≤ a)) →
  core (mk_mstate m1 h (descs_at σ) (descs σ)) Γ'.
Proof.
  intros H Hal Hs Hl Hb Har Hbi. pose proof (ps_kernel _ _ _ _ _ Hs) as [E1 _].
  assert (∀ b n, a + 4096 * c ≤ b ∨ b + n ≤ a → agree b n (bytes m1) (bytes (mem σ))) as Hag.
  { intros b n Hbn. rewrite (ps_bytes _ _ _ _ _ Hs). by apply fill_agree. }
  assert (∀ b n, 0 < n → a + 4096 * c ≤ b ∨ b + 4096 * n ≤ a → kernel_pages (mem σ) b n → kernel_pages m1 b n)
    as Hkp.
  { intros b n Hn Hbn Hp. pose proof (kp_align _ _ _ Hp).
    eapply kernel_pages_set; [exact Hs| | |done]; intros pn; simpl; [intros ??; exfalso|]; lia. }
  split; simpl; try done.
  - apply Hs.
  - apply (co_len _ _ H).
  - apply (co_descs _ _ H).
  - rewrite E1. apply (co_static _ _ H).
  - intros a' i Ha'. destruct (Har a' i Ha') as (Ho & -> & Hap).
    destruct (co_arenas _ _ H _ _ Ho) as (? & Hp & Hh).
    split_and!; [done|apply Hkp; [done|lia|done]|]. eapply header_agree; [|exact Hh]. apply Hag. lia.
  - intros b n Hbn. destruct (Hbi b n Hbn) as (Ho & Hap).
    destruct (co_bigs _ _ H _ _ Ho) as (? & Hp & Hh).
    split_and!; [done|by apply Hkp|]. eapply header_agree; [|exact Hh]. apply Hag. lia.
  - intros a' i b n Ha' Hbn. destruct (Har a' i Ha') as [Ho _]. destruct (Hbi b n Hbn) as [Ho' _].
    by eapply (co_apart _ _ H).
  - intros b n b' n' Hbn Hbn'. destruct (Hbi b n Hbn) as [Ho _]. destruct (Hbi b' n' Hbn') as [Ho' _].
    by eapply (co_apart' _ _ H).
Qed.

(** ** Blocks handed out *)

Section live.
Context (σ : mstate) (Γ : layout) (H : core σ Γ).

(** A live block lies behind a header, in pages of its own. *)
Lemma live_in p n : live Γ p n →
  (∃ a i k, arenas Γ !! a = Some i ∧ 0 ≤ k < bpa i ∧ p = blk i a k ∧ p ∉ frees Γ i ∧ n = bs i ∧
     a + 12 ≤ p ∧ p + n ≤ a + 4096) ∨
  (∃ b c, bigs Γ !! b = Some c ∧ p = b + 12 ∧ n = 4096 * c - 12).
Proof using H.
  intros [(a & i & k & Ha & Hk & -> & Hf & ->)|Hb]; [left|by right].
  destruct (arena_page _ _ H _ _ Ha) as (?&?&_). destruct (blk_in i a k) as (?&?&?); [done..|].
  exists a, i, k. done.
Qed.

Lemma live_size p n : live Γ p n → 16 ≤ n.
Proof using H.
  intros [(a & i & k & Ha & _ & _ & _ & ->)|(b & c & Hb & _ & ->)].
  - destruct (arena_page _ _ H _ _ Ha) as (Hi&_). apply (bs_bounds i Hi).
  - destruct (big_page _ _ H _ _ Hb) as (?&_). lia.
Qed.

(** Two live blocks do not overlap. *)
Lemma live_apart p n q m : live Γ p n → live Γ q m → p ≠ q → p + n ≤ q ∨ q + m ≤ p.
Proof using H.
  intros Hp Hq Hne.
  destruct (live_in _ _ Hp) as [(a & i & k & Ha & Hk & Ep & _ & En & ? & ?)|(b & c & Hb & -> & ->)];
    destruct (live_in _ _ Hq) as [(a' & i' & k' & Ha' & Hk' & Eq & _ & Em & ? & ?)|(b' & c' & Hb' & -> & ->)].
  - destruct (arena_page _ _ H _ _ Ha) as (?&?&_). destruct (arena_page _ _ H _ _ Ha') as (?&?&_).
    destruct (decide (a = a')) as [<-|]; [|lia]. assert (i' = i) as -> by congruence.
    subst. apply blk_apart; [done|congruence].
  - destruct (big_page _ _ H _ _ Hb') as (?&?&_). destruct (co_apart _ _ H _ _ _ _ Ha Hb'); lia.
  - destruct (big_page _ _ H _ _ Hb) as (?&?&_). destruct (co_apart _ _ H _ _ _ _ Ha' Hb); lia.
  - destruct (big_page _ _ H _ _ Hb) as (?&?&_). destruct (big_page _ _ H _ _ Hb') as (?&?&_).
    destruct (co_apart' _ _ H _ _ _ _ Hb Hb'); [congruence|lia..].
Qed.

(** A live block is RAM. *)
Lemma live_ram p n : live Γ p n → PHYS_BASE + 12 ≤ p ∧ p + n ≤ ram_end (mem σ) ∧ ram_end (mem σ) < 2 ^ 32.
Proof using H.
  intros Hp. destruct (live_in _ _ Hp) as [(a & i & k & Ha & _ & _ & _ & _ & ? & ?)|(b & c & Hb & -> & ->)].
  - destruct (arena_page _ _ H _ _ Ha) as (?&?&?&?&?&?). lia.
  - destruct (big_page _ _ H _ _ Hb) as (?&?&?&?&?). lia.
Qed.

(** Taking the first block of a free list makes it live. *)
Lemma live_pop i a k xs q m :
  arenas Γ !! a = Some i → 0 ≤ k < bpa i → frees Γ i = blk i a k :: xs →
  live (set_frees i xs Γ) q m ↔ live Γ q m ∨ q = blk i a k ∧ m = bs i.
Proof using H.
  intros Ha Hk Ef. destruct (arena_page _ _ H _ _ Ha) as (Hi & _).
  assert (blk i a k ∉ xs) as Hnx.
  { pose proof (il_nodup _ _ _ (co_lists _ _ H i Hi)) as Hnd. rewrite Ef in Hnd.
    apply NoDup_cons in Hnd as [_ Hnd]. apply NoDup_app_l in Hnd. by apply NoDup_cons in Hnd as [? _]. }
  unfold live. simpl. split.
  - intros [(a' & i' & k' & Ha' & Hk' & -> & Hf & ->)|Hb]; [|by left; right].
    case_decide as E; [subst i'|left; left; by exists a', i', k'].
    destruct (decide (blk i a' k' = blk i a k)) as [E|E]; [by right|]. left; left.
    exists a', i, k'. rewrite Ef. do 3 (split; [done|]). split; [|done]. by apply not_elem_of_cons.
  - intros [[(a' & i' & k' & Ha' & Hk' & -> & Hf & ->)|Hb]|[-> ->]]; [|by right|].
    + left. exists a', i', k'. do 3 (split; [done|]). split; [|done]. case_decide as E; [|done]. subst i'.
      rewrite Ef in Hf. by apply not_elem_of_cons in Hf as [_ ?].
    + left. exists a, i, k. do 3 (split; [done|]). split; [|done]. by rewrite decide_True.
Qed.

(** A block that joins a free list is no longer live. *)
Lemma live_push i a k q m :
  arenas Γ !! a = Some i → 0 ≤ k < bpa i →
  live (set_frees i (blk i a k :: frees Γ i) Γ) q m ↔ live Γ q m ∧ q ≠ blk i a k.
Proof using H.
  intros Ha Hk. destruct (arena_page _ _ H _ _ Ha) as (Hi & Hal & _).
  destruct (blk_in i a k) as (?&?&?); [done..|]. unfold live. simpl. split.
  - intros [(a' & i' & k' & Ha' & Hk' & -> & Hf & ->)|(b & c & Hb & -> & ->)].
    + case_decide as E.
      * subst i'. apply not_elem_of_cons in Hf as [Hne Hf]. split; [|done]. left. by exists a', i, k'.
      * split; [left; by exists a', i', k'|]. intros Eb.
        destruct (arena_page _ _ H _ _ Ha') as (?&?&_). destruct (blk_in i' a' k') as (?&?&?); [done..|].
        assert (a' = a) as -> by lia. congruence.
    + split; [right; by exists b, c|]. destruct (big_page _ _ H _ _ Hb) as (?&?&_).
      destruct (co_apart _ _ H _ _ _ _ Ha Hb); lia.
  - intros [[(a' & i' & k' & Ha' & Hk' & -> & Hf & ->)|Hb] Hne]; [|by right].
    left. exists a', i', k'. do 3 (split; [done|]). split; [|done]. case_decide; [|done]. subst. by apply not_elem_of_cons.
Qed.
End live.
