(* ===== verification/MallocProofs.v ===== *)
(** * Correctness of threads/malloc.c

    In a [good] state, malloc hands out a block that no live block overlaps and
    leaves the contents of all live blocks alone; free takes a block back; calloc
    clears its block and realloc keeps the contents of the old one. *)

From S2P Require Import Prelude KList Bitmap Vaddr Palloc Ram Malloc MallocInv MallocSteps.
Local Open Scope Z_scope.
Local Ltac Zify.zify_post_hook ::= Z.div_mod_to_equations.

Record good (σ : mstate) (Γ : layout) : Prop := {
  go_core : core σ Γ;
  go_settled : settled Γ;
  go_unlocked : unlocked σ
}.

(** The contents of the blocks that are live in [Γ] stay. *)
Definition keeps (Γ : layout) (σ σ' : mstate) : Prop :=
  ∀ q m, live Γ q m → agree q m (bytes (mem σ')) (bytes (mem σ)).

(** ** Locks *)

Definition locked (i : nat) (σ : mstate) : mstate :=
  set_descs (<[i := mk_desc (bs i) (bpa i) true]> (descs σ)) σ.

Lemma core_set_descs σ Γ ds :
  core σ Γ → length ds = NDESCS →
  (∀ i d, ds !! i = Some d → block_size d = bs i ∧ blocks_per_arena d = bpa i) → core (set_descs ds σ) Γ.
Proof. intros []. by split. Qed.

Lemma core_locked σ Γ i : core σ Γ → core (locked i σ) Γ.
Proof.
  intros H. apply core_set_descs; [done|rewrite length_insert; apply (co_len _ _ H)|].
  intros j d. rewrite list_lookup_insert. case_decide as E; [|apply (co_descs _ _ H)].
  destruct E as [-> _]. by intros [= <-].
Qed.

Lemma unlock_locked i σ : set_descs (descs σ) (locked i σ) = σ.
Proof. by destruct σ. Qed.

Section locks.
Context (σ : mstate) (Γ : layout) (Hg : good σ Γ) (i : nat) (Hi : (i < NDESCS)%nat).

Lemma the_desc : descs σ !! i = Some (mk_desc (bs i) (bpa i) false).
Proof using All.
  pose proof (co_len _ _ (go_core _ _ Hg)) as Hn. rewrite <-Hn in Hi.
  apply lookup_lt_is_Some_2 in Hi as [[b n l] Hd].
  destruct (co_descs _ _ (go_core _ _ Hg) _ _ Hd) as [E1 E2]. pose proof (go_unlocked _ _ Hg _ _ Hd) as E3.
  simpl in *. by subst.
Qed.

Lemma wp_lock_acquire Q : Q tt (locked i σ) → wp (desc_lock_acquire i) σ Q.
Proof using All.
  intros HQ. unfold desc_lock_acquire, load_desc. repeat wp_step.
  apply (wp_from_option _ _ _ _ the_desc). repeat wp_step; [done|]. done.
Qed.

Lemma wp_lock_release σ' Q :
  descs σ' = descs (locked i σ) → Q tt (set_descs (descs σ) σ') → wp (desc_lock_release i) σ' Q.
Proof using All.
  intros Ed HQ. unfold desc_lock_release, load_desc. repeat wp_step.
  assert (descs σ' !! i = Some (mk_desc (bs i) (bpa i) true)) as Hl.
  { rewrite Ed. apply list_lookup_insert_eq. by rewrite (co_len _ _ (go_core _ _ Hg)). }
  apply (wp_from_option _ _ _ _ Hl). repeat wp_step; [done|]. rewrite Ed. simpl.
  rewrite list_insert_insert_eq, (list_insert_id _ _ _ the_desc). done.
Qed.

Lemma good_unlock σ' Γ' :
  core σ' Γ' → settled Γ' → good (set_descs (descs σ) σ') Γ'.
Proof using All.
  intros H Hs. split; [|done|apply (go_unlocked _ _ Hg)].
  apply core_set_descs; [done|apply (co_len _ _ (go_core _ _ Hg))|apply (co_descs _ _ (go_core _ _ Hg))].
Qed.
End locks.

(** ** Stores into headers *)

Lemma wp_set_header σ a d n Q :
  PHYS_BASE ≤ a → a + 12 ≤ ram_end (mem σ) →
  Q tt (with_mem (set_bytes (new_header a d n (bytes (mem σ))) (mem σ)) σ) →
  wp (set_header a d n) σ Q.
Proof.
  intros Ha He HQ. unfold set_header.
  do 2 (wp_step; apply wp_on_mem, wp_store_word; [lia|simpl; unfold ram_end in *; simpl; lia|]).
  apply wp_on_mem, wp_store_word; [lia|simpl; unfold ram_end in *; simpl; lia|]. done.
Qed.

Lemma count_blks n i a k :
  (i < NDESCS)%nat → a mod 4096 = 0 → 0 ≤ k → k + Z.of_nat n ≤ bpa i → count a (blks n i a k) = Z.of_nat n.
Proof.
  intros Hi Ha. revert k; induction n as [|n IH]; intros k Hk Hn; [done|]. cbn [blks].
  destruct (blk_in i a k) as (?&?&?); [done|lia|done|]. rewrite count_cons, decide_True, IH by lia. lia.
Qed.

Lemma count_apart a xs : (∀ x, x ∈ xs → x / 4096 ≠ a / 4096) → count a xs = 0.
Proof.
  intros Hx. unfold count. induction xs as [|x xs IH]; [done|].
  rewrite filter_cons, decide_False by set_solver. apply IH. set_solver.
Qed.

(** ** A new arena *)

Section refill.
Context (σ : mstate) (Γ : layout) (H : core σ Γ) (Hs : settled Γ) (i : nat) (Hi : (i < NDESCS)%nat).

Section arena.
Context (a : Z) (m1 : pages) (Hg : granted false a 1 (bytes (mem σ)) (mem σ) m1).
Let g : Z → Z := new_header a (desc_ptr σ i) (bpa i) (bytes (mem σ)).
Let bl : list Z := blks (Z.to_nat (bpa i)) i a 0.
Let Γ1 : layout := mk_layout (<[a := i]> (arenas Γ)) (bigs Γ) (λ j, if decide (j = i) then bl else frees Γ j).

Lemma arena_ag b n : a + 4096 * 1 ≤ b ∨ b + n ≤ a → agree b n g (bytes (mem σ)).
Proof using All. intros Hb. apply new_header_agree. lia. Qed.

Lemma arena_fresh a' j : arenas Γ !! a' = Some j → a' ≠ a.
Proof using All.
  intros Ha' ->. pose proof (new_arena_apart σ Γ H a 1 _ g m1 ltac:(lia) Hg arena_ag _ _ Ha'). lia.
Qed.

Lemma arena_blk x : x ∈ bl → ∃ k, 0 ≤ k < bpa i ∧ x = blk i a k ∧ a + 12 ≤ x < a + 4096 ∧ x / 4096 = a / 4096.
Proof using All.
  destruct (bs_bounds i Hi) as (?&?&?&?).
  intros (k & Hk & ->)%elem_of_blks. destruct (blk_in i a k) as (?&?&?); [done|lia|apply Hg|].
  exists k. split_and!; [lia..|done|lia|lia|done].
Qed.

Lemma core_new_arena h :
  frees Γ i = [] → is_list h (free_list σ i) bl →
  same_outside (bl ++ nodes (free_list σ i) []) (elems σ) h →
  core (mk_mstate (set_bytes g m1) h (descs_at σ) (descs σ)) Γ1.
Proof using All.
  intros Ef Hl Hso. destruct (bs_bounds i Hi) as (?&?&?&?).
  apply (new_core_old σ Γ H a 1 (bytes (mem σ)) g m1); [lia|done|apply arena_ag|..]; simpl.
  - intros j Hj. case_decide as E; [by subst|]. rewrite <-Ef in Hso.
    eapply (other_list _ _ H i j bl); [done..|congruence|done|].
    intros q (k & ? & -> & ? & ?)%arena_blk.
    apply (new_not_node σ Γ H a 1 (bytes (mem σ)) g m1); [lia|done|apply arena_ag|done|lia].
  - intros j x Hj. case_decide as E.
    + subst j. intros (k & ? & -> & ? & ?)%arena_blk. exists a, k. by rewrite lookup_insert_eq.
    + intros Hx. destruct (co_blocks _ _ H j x Hj Hx) as (a' & k & Ha' & ? & ->). exists a', k.
      rewrite lookup_insert_ne; [done|]. apply not_eq_sym. by eapply arena_fresh.
  - intros a' j. rewrite lookup_insert_Some. intros [[<- <-]|[Hne Ha']].
    + right. rewrite decide_True by done. split_and!; try done.
      unfold bl. rewrite count_blks, Z2Nat.id by (done || lia || apply Hg).
      apply header_new; [pose proof (gr_align _ _ _ _ _ _ Hg); lia| |lia].
      pose proof (desc_ptr_static _ _ H i Hi). lia.
    + left. split; [done|]. case_decide as E; [|done]. subst. rewrite Ef. apply count_apart.
      intros x (k & ? & -> & ? & Ex)%arena_blk. rewrite Ex. intros E.
      destruct (arena_page _ _ H _ _ Ha') as (_&?&_). pose proof (gr_align _ _ _ _ _ _ Hg). lia.
  - intros b n Hb. by left.
Qed.

(** The blocks of the new arena are free: nothing else becomes live. *)
Lemma live_new_arena q m : frees Γ i = [] → live Γ1 q m ↔ live Γ q m.
Proof using All.
  intros Ef. unfold live. simpl. split.
  - intros [(a' & j & k & Ha' & Hk & -> & Hf & ->)|Hb]; [|by right]. left.
    rewrite lookup_insert_Some in Ha'. destruct Ha' as [[<- <-]|[Hne Ha']].
    + exfalso. rewrite decide_True in Hf by done. apply Hf, elem_of_blks. exists k. split; [lia|done].
    + exists a', j, k. do 3 (split; [done|]). split; [|done]. case_decide as E; [|done]. subst.
      rewrite Ef. apply not_elem_of_nil.
  - intros [(a' & j & k & Ha' & Hk & -> & Hf & ->)|Hb]; [|by right]. left. exists a', j, k.
    split; [by rewrite lookup_insert_ne by (apply not_eq_sym; by eapply arena_fresh)|].
    do 2 (split; [done|]). split; [|done]. case_decide as E; [|done]. subst. intros (k' & ? & Ek & ? & Ex)%arena_blk.
    destruct (arena_page _ _ H _ _ Ha') as (_&?&_). destruct (blk_in i a' k) as (?&?&?); [done..|].
    apply (arena_fresh _ _ Ha'). pose proof (gr_align _ _ _ _ _ _ Hg). lia.
Qed.

(** Once one of its blocks is taken, the new arena is not entirely free. *)
Lemma settled_new_arena x xs : frees Γ i = [] → bl = x :: xs → settled (set_frees i xs Γ1).
Proof using All.
  intros Ef Ebl a' j. simpl. rewrite lookup_insert_Some. destruct (bs_bounds i Hi) as (?&?&?&?).
  pose proof (gr_align _ _ _ _ _ _ Hg) as Hal.
  pose proof (count_blks (Z.to_nat (bpa i)) i a 0 Hi Hal ltac:(lia) ltac:(lia)) as Hc. fold bl in Hc.
  assert (x = blk i a 0) as Ex.
  { unfold bl in Ebl. destruct (Z.to_nat (bpa i)); [done|]. by injection Ebl as <- _. }
  destruct (blk_in i a 0) as (?&?&?); [done|lia|done|].
  rewrite Ebl, count_cons, decide_True in Hc by by rewrite Ex.
  intros [[<- <-]|[Hne Ha']]; [rewrite decide_True by done; lia|].
  case_decide as E; [|by apply Hs]. subst j. rewrite count_apart; [done|].
  intros y Hy. destruct (arena_page _ _ H _ _ Ha') as (_&?&_).
  destruct (arena_blk y) as (k & ? & ? & ? & Ey); [rewrite Ebl; by right|]. rewrite Ey. lia.
Qed.

Lemma keeps_new_arena q m : live Γ q m → agree q m g (bytes (mem σ)).
Proof using All.
  intros Hq. apply arena_ag.
  destruct (live_in _ _ H _ _ Hq) as [(a' & j & k & Ha' & _ & _ & _ & _ & ? & ?)|(b & c & Hb & -> & ->)].
  - pose proof (new_arena_apart σ Γ H a 1 _ g m1 ltac:(lia) Hg arena_ag _ _ Ha'). lia.
  - pose proof (new_big_apart σ Γ H a 1 _ g m1 ltac:(lia) Hg arena_ag _ _ Hb). lia.
Qed.
End arena.

(** After refill the free list has a first block, and all blocks are as before. *)
Lemma wp_refill Q :
  (∀ σ' Γ' x xs, core σ' Γ' → frees Γ' i = x :: xs → settled (set_frees i xs Γ') →
     (∀ q m, live Γ' q m ↔ live Γ q m) → keeps Γ σ σ' → descs σ' = descs σ → Q true σ') →
  (exhausted (mem σ) false 1 → Q false σ) → wp (refill i) σ Q.
Proof using All.
  intros HQ HE. unfold refill. repeat wp_step. destruct (bs_bounds i Hi) as (?&?&?&?).
  apply wp_on_elems, (wp_empty _ _ (frees Γ i)); [by apply (co_lists _ _ H)|]. rewrite with_elems_same.
  destruct (frees Γ i) as [|x xs] eqn:Ef.
  2: { simpl. wp_step. eapply (HQ σ Γ); try done. intros a j Ha. simpl.
       pose proof (Hs a j Ha) as Hc. case_decide as E; [|done]. subst. rewrite Ef, count_cons in Hc.
       case_decide; lia. }
  rewrite bool_decide_eq_true_2 by done. wp_step.
  apply wp_on_mem, (wp_wpp _ _ _ False); [tauto|].
  apply wpp_palloc_get_multiple; [apply (co_palloc _ _ H)|done| |lia| |done].
  2: { intros Hex _. rewrite with_mem_same. simpl. wp_step. by apply HE. }
  intros a m1 _ Hlo Hhi Hg. simpl in Hg. pose proof (gr_align _ _ _ _ _ _ Hg) as Hal.
  rewrite (proj2 (Z.eqb_neq a NULL)) by (unfold PHYS_BASE, NULL in *; lia). repeat wp_step.
  destruct (gr_set _ _ _ _ _ _ Hg) as [Hok1 Er _ _ _ _ Eb].
  assert (ram_end m1 = ram_end (mem σ)) as Ere by (unfold ram_end; by rewrite Er).
  pose proof (core_statics _ _ H) as Hst.
  apply wp_load_desc; [by destruct Hst; split|done|]. intros d _ _ En. rewrite En. wp_step.
  apply wp_set_header; [done|change (a + 12 ≤ ram_end m1); lia|]. simpl. rewrite Eb.
  set (g := new_header a (desc_ptr σ i) (bpa i) (bytes (mem σ))). set (σ2 := with_mem (set_bytes g m1) σ).
  change (with_mem _ (with_mem _ _)) with σ2. change (desc_ptr (with_mem m1 σ) i) with (desc_ptr σ i).
  assert (∀ b n, a + 4096 * 1 ≤ b ∨ b + n ≤ a → agree b n g (bytes (mem σ))) as Hag by (apply (arena_ag a m1 Hg)).
  destruct (header_new (bytes (mem σ)) a (desc_ptr σ i) (bpa i)) as [Hm Hd _]; [lia| |lia|].
  { pose proof (desc_ptr_static _ _ H i Hi). lia. }
  wp_step. apply (wp_push_blocks _ _ i a 0 []).
  - destruct Hst. split; try done. by apply palloc_ok_bytes.
  - done.
  - split; simpl; try done. change (a + 4096 ≤ ram_end m1). lia.
  - done.
  - lia.
  - change (is_list (elems σ) (free_list σ i) []). rewrite <-Ef. by apply (co_lists _ _ H).
  - intros j Hj. change (free_list σ2 i) with (free_list σ i). rewrite <-Ef.
    destruct (blk_in i a j) as (?&?&?); [done|lia|done|].
    apply (new_not_node σ Γ H a 1 (bytes (mem σ)) g m1); [lia|done|done|done|lia].
  - intros h Hl Hso. wp_step. simpl in Hl, Hso.
    pose proof (core_new_arena a m1 Hg h Ef Hl Hso) as Hcore.
    destruct (blks (Z.to_nat (bpa i)) i a 0) as [|x xs] eqn:Eb'; [by destruct (Z.to_nat (bpa i)) eqn:?; [lia|]|].
    eapply (HQ _ _ x xs Hcore); [simpl; by rewrite decide_True|..|done].
    + rewrite <-Eb'. by apply (settled_new_arena a m1 Hg x xs).
    + intros q m. rewrite <-Eb'. by apply (live_new_arena a m1 Hg).
    + intros q m Hq. by apply (keeps_new_arena a m1 Hg).
Qed.
End refill.

(** ** malloc *)

Lemma find_desc_Some ds k size i :
  find_desc ds k size = Some i → ∃ d, ds !! (i - k)%nat = Some d ∧ (k ≤ i)%nat ∧ size ≤ block_size d.
Proof.
  revert k; induction ds as [|d ds IH]; intros k; simpl; [done|].
  destruct (Z.leb_spec size (block_size d)).
  - intros [= <-]. exists d. by rewrite Nat.sub_diag.
  - intros (d' & Hd & ? & ?)%IH. exists d'. split_and!; [|lia|done].
    by replace (i - k)%nat with (S (i - S k))%nat by lia.
Qed.
Lemma find_desc_None ds k size i d :
  find_desc ds k size = None → ds !! i = Some d → block_size d < size.
Proof.
  revert k i; induction ds as [|d' ds IH]; intros k i; simpl; [done|].
  destruct (Z.leb_spec size (block_size d')); [done|]. intros Hn.
  destruct i as [|i]; simpl; [by intros [= <-]|]. by eapply IH.
Qed.

(** The number of pages that malloc asks the page allocator for. *)
Definition pages_needed (size : Z) : Z := if size <=? 1024 then 1 else (size + 12 + 4095) / 4096.

(** What a successful malloc does: a new block, apart from the others. *)
Record new_block (Γ Γ' : layout) (σ σ' : mstate) (p n : Z) : Prop := {
  nb_good : good σ' Γ';
  nb_live : ∀ q m, live Γ' q m ↔ live Γ q m ∨ q = p ∧ m = n;
  nb_apart : ∀ q m, live Γ q m → p + n ≤ q ∨ q + m ≤ p;
  nb_keeps : keeps Γ σ σ'
}.

Section malloc.
Context (σ : mstate) (Γ : layout) (Hg : good σ Γ).
Let H : core σ Γ := go_core _ _ Hg.

(** Taking the first block of the free list [i]. *)
Lemma wp_take i σ1 Γ1 x xs Q :
  (i < NDESCS)%nat → core σ1 Γ1 → frees Γ1 i = x :: xs → settled (set_frees i xs Γ1) →
  (∀ q m, live Γ1 q m ↔ live Γ q m) → keeps Γ σ σ1 → descs σ1 = descs (locked i σ) →
  (∀ σ' Γ', new_block Γ Γ' σ σ' x (bs i) → Q x σ') →
  wp (l ← gets (λ σ, free_list σ i);
      b ← on_elems (list_pop_front l); unclaim b;;
      a ← block_to_arena b;
      c ← get_free_cnt a; set_free_cnt a (u32 (c - 1));;
      desc_lock_release i;; mret b) σ1 Q.
Proof using All.
  intros Hi H1 Ef Hs1 Hlive Hk1 Ed HQ.
  destruct (co_blocks _ _ H1 i x Hi) as (a & k & Ha & Hk & ->); [rewrite Ef; by left|].
  destruct (arena_page _ _ H1 _ _ Ha) as (_&Hal&Hlo&Hhi&Hw&_).
  destruct (co_arenas _ _ H1 _ _ Ha) as (_&_&Hhd).
  destruct (bs_bounds i Hi) as (?&_).
  destruct (blk_in i a k) as (?&?&Hpg); [done..|]. rewrite Ef, count_cons, decide_True in Hhd by done.
  repeat wp_step. apply wp_on_elems, (wp_pop_front _ _ (blk i a k) xs).
  { rewrite <-Ef. by apply (co_lists _ _ H1). }
  intros h Hl Hso. unfold unclaim. repeat wp_step. set (σ2 := mk_mstate _ _ _ _).
  assert (statics σ2) as Hst by by destruct (core_statics _ _ H1).
  assert (page_at σ2 a (desc_ptr σ2 i)) as Hpa by by destruct (core_page_at _ _ _ _ H1 Ha).
  apply (wp_block_to_arena _ Hst a i k); [done..|]. wp_step. unfold get_free_cnt, set_free_cnt.
  apply (wp_get_word _ (a + 8) (1 + count a xs));
    [lia|change (a + 8 + 4 ≤ ram_end (mem σ1)); lia|apply Hhd|]. wp_step.
  pose proof (word_at_bounds (bytes (mem σ1)) (a + 8)) as Hb. rewrite (hd_cnt _ _ _ _ Hhd) in Hb.
  pose proof (count_nonneg a xs). rewrite wrap_small by lia. replace (1 + count a xs - 1) with (count a xs) by lia.
  apply wp_on_mem, wp_store_word; [lia|change (a + 8 + 4 ≤ ram_end (mem σ1)); lia|]. wp_step.
  apply (wp_lock_release σ Γ Hg i Hi); [done|]. wp_step.
  pose proof (core_pop _ _ H1 i a k Ha Hk xs h Ef Hl Hso) as Hc.
  apply (HQ _ (set_frees i xs Γ1)). split.
  - by apply (good_unlock σ Γ Hg i Hi _ _ Hc).
  - intros q m. rewrite (live_pop _ _ H1 i a k xs) by done. by rewrite Hlive.
  - intros q m Hq. eapply (live_apart _ _ Hc); [apply (live_pop _ _ H1 i a k xs); eauto| |].
    + apply (live_pop _ _ H1 i a k xs); [done..|]. left. by apply Hlive.
    + intros <-. apply Hlive in Hq.
      destruct (live_in _ _ H1 _ _ Hq) as [(a' & j & k' & Ha' & _ & E & Hf & -> & ? & ?)|(b & c & Hb' & E & _)].
      * destruct (arena_page _ _ H1 _ _ Ha') as (Hj&?&_). destruct (bs_bounds j Hj) as (?&_). assert (a' = a) as -> by lia.
        assert (j = i) as -> by congruence. apply Hf. rewrite Ef, E. by left.
      * destruct (big_page _ _ H1 _ _ Hb') as (?&?&_). destruct (co_apart _ _ H1 _ _ _ _ Ha Hb'); lia.
  - intros q m Hq. simpl. eapply agree_trans; [|by apply Hk1]. apply Hlive in Hq.
    apply put_word_agree.
    destruct (live_in _ _ H1 _ _ Hq) as [(a' & j & k' & Ha' & _ & E & Hf & -> & ? & ?)|(b & c & Hb' & -> & ->)].
    + destruct (arena_page _ _ H1 _ _ Ha') as (Hj&?&_). destruct (bs_bounds j Hj) as (?&_). lia.
    + destruct (big_page _ _ H1 _ _ Hb') as (?&?&_). destruct (co_apart _ _ H1 _ _ _ _ Ha Hb'); lia.
Qed.

(** A big block. *)
Lemma core_new_big a c m1 :
  0 < c → c < 2 ^ 32 → granted false a c (bytes (mem σ)) (mem σ) m1 →
  let σ' := with_mem (set_bytes (new_header a NULL c (bytes (mem σ))) m1) σ in
  new_block Γ (mk_layout (arenas Γ) (<[a := c]> (bigs Γ)) (frees Γ)) σ σ' (a + 12) (4096 * c - 12).
Proof using All.
  intros Hc Hc' Hgr σ'. set (g := new_header a NULL c (bytes (mem σ))).
  assert (∀ b n, a + 4096 * c ≤ b ∨ b + n ≤ a → agree b n g (bytes (mem σ))) as Hag.
  { intros b n Hb. apply new_header_agree. lia. }
  pose proof (gr_align _ _ _ _ _ _ Hgr) as Hal.
  pose proof (λ a' i, new_arena_apart σ Γ H a c _ g m1 Hc Hgr Hag a' i) as Hap.
  pose proof (λ b n, new_big_apart σ Γ H a c _ g m1 Hc Hgr Hag b n) as Hap'.
  assert (∀ b n, bigs Γ !! b = Some n → b ≠ a) as Hne.
  { intros b n Hb ->. destruct (big_page _ _ H _ _ Hb) as (?&_). specialize (Hap' a n Hb). lia. }
  assert (∀ q m, live Γ q m → a + 4096 * c ≤ q ∨ q + m ≤ a) as Hq.
  { intros q m Hq. destruct (live_in _ _ H _ _ Hq) as [(a' & i & k & Ha' & _ & _ & _ & _ & ? & ?)|(b & n & Hb & -> & ->)].
    - specialize (Hap _ _ Ha'). lia.
    - specialize (Hap' _ _ Hb). lia. }
  split.
  - split; [|apply (go_settled _ _ Hg)|apply (go_unlocked _ _ Hg)].
    apply (new_core_old σ Γ H a c (bytes (mem σ)) g m1); simpl; try done.
    + apply (co_lists _ _ H).
    + apply (co_blocks _ _ H).
    + intros a' i Ha'. by left.
    + intros b n. rewrite lookup_insert_Some. intros [[<- <-]|[_ Hb]]; [right|by left].
      split_and!; [done..|]. apply header_new; [lia|unfold NULL; lia|lia].
  - intros q m. unfold live. simpl. split.
    + intros [Ha|(b & n & Hb & -> & ->)]; [by left; left|]. rewrite lookup_insert_Some in Hb.
      destruct Hb as [[<- <-]|[_ Hb]]; [by right|]. left; right. by exists b, n.
    + intros [[Ha|(b & n & Hb & -> & ->)]|[-> ->]]; [by left|right; exists b, n..|right; exists a, c].
      * rewrite lookup_insert_ne by (apply not_eq_sym; by eapply Hne). done.
      * by rewrite lookup_insert_eq.
  - intros q m Hl. specialize (Hq q m Hl). lia.
  - intros q m Hl. apply Hag. by apply Hq.
Qed.

(** A request that some descriptor satisfies. *)
Lemma wp_malloc_small size i Q :
  size ≠ 0 → find_desc (descs σ) 0 size = Some i →
  (∀ p Γ' σ', size ≤ bs i → PHYS_BASE < p → new_block Γ Γ' σ σ' p (bs i) → Q p σ') →
  (size ≤ 1024 → exhausted (mem σ) false 1 → Q NULL σ) → wp (malloc size) σ Q.
Proof using All.
  intros E0 Efd HQ HN. unfold malloc. rewrite (proj2 (Z.eqb_neq size 0)) by done. wp_step. wp_step. rewrite Efd.
  destruct (find_desc_Some _ _ _ _ Efd) as (d & Hd & _ & Hsd). rewrite Nat.sub_0_r in Hd.
  rewrite (proj1 (co_descs _ _ H _ _ Hd)) in Hsd.
  assert (i < NDESCS)%nat as Hi by (rewrite <-(co_len _ _ H); by eapply lookup_lt_Some).
  assert (size ≤ 1024) as Hs1.
  { assert (2 ^ Z.of_nat i ≤ 2 ^ 6) by (apply Z.pow_le_mono_r; unfold NDESCS in Hi; lia).
    unfold bs in *. lia. }
  wp_step. apply (wp_lock_acquire σ Γ Hg i Hi). wp_step.
  apply (wp_refill _ Γ); [by apply core_locked|apply (go_settled _ _ Hg)|done| |].
  - intros σ1 Γ1 x xs H1 Ef Hs Hl Hk Ed. apply (wp_take i σ1 Γ1 x xs); try done.
    intros σ' Γ' Hnb. eapply HQ; [done| |done].
    destruct (live_ram _ _ (go_core _ _ (nb_good _ _ _ _ _ _ Hnb)) x (bs i)) as (?&_); [|lia].
    apply (nb_live _ _ _ _ _ _ Hnb). by right.
  - intros Hex. wp_step. apply (wp_lock_release σ Γ Hg i Hi); [done|]. wp_step.
    rewrite unlock_locked. by apply HN.
Qed.

(** A request for [c] pages. *)
Lemma wp_malloc_big size c Q :
  size ≠ 0 → find_desc (descs σ) 0 size = None →
  DIV_ROUND_UP (u32 (size + sizeof_arena)) PGSIZE = c → 0 ≤ c < 2 ^ 32 →
  (∀ p Γ' σ', 0 < c → PHYS_BASE < p → new_block Γ Γ' σ σ' p (4096 * c - 12) → Q p σ') →
  (c = 0 ∨ exhausted (mem σ) false c → Q NULL σ) → wp (malloc size) σ Q.
Proof using All.
  intros E0 Efd Ec Hc HQ HN. unfold malloc. rewrite (proj2 (Z.eqb_neq size 0)) by done.
  wp_step. wp_step. rewrite Efd, Ec. wp_step. apply wp_on_mem, (wp_wpp _ _ _ False); [tauto|].
  apply wpp_palloc_get_multiple; [apply (co_palloc _ _ H)|lia| | | |done].
  - intros a m1 Hcp Hlo Hhi Hgr. simpl in Hgr. unfold PHYS_BASE in *.
    rewrite (proj2 (Z.eqb_neq a NULL)) by (unfold NULL; lia).
    pose proof (ps_ram _ _ _ _ _ (gr_set _ _ _ _ _ _ Hgr)) as Er.
    pose proof (pk_ram _ (co_palloc _ _ H)) as Hr.
    assert (ram_end m1 = ram_end (mem σ)) as Ere by (unfold ram_end; by rewrite Er).
    assert (ram_end (mem σ) < 2 ^ 32) by (unfold ram_end, PHYS_BASE; rewrite PGSIZE_eq; lia).
    wp_step. apply wp_set_header; [unfold PHYS_BASE; lia|change (a + 12 ≤ ram_end m1); lia|]. wp_step.
    unfold sizeof_arena. rewrite wrap_small by lia. simpl. rewrite (ps_bytes _ _ _ _ _ (gr_set _ _ _ _ _ _ Hgr)).
    pose proof (core_new_big a c m1 Hcp ltac:(lia) Hgr) as Hnb.
    eapply HQ; [lia|unfold PHYS_BASE; lia|exact Hnb].
  - intros E. rewrite with_mem_same. simpl. wp_step. apply HN. by left.
  - intros Hex _. rewrite with_mem_same. simpl. wp_step. apply HN. by right.
Qed.

Lemma no_desc size : find_desc (descs σ) 0 size = None ↔ 1024 < size.
Proof using All.
  split.
  - intros Efd. destruct (lookup_lt_is_Some_2 (descs σ) 6) as [d Hd]; [rewrite (co_len _ _ H); unfold NDESCS; lia|].
    pose proof (find_desc_None _ _ _ _ _ Efd Hd) as Hlt. by rewrite (proj1 (co_descs _ _ H _ _ Hd)) in Hlt.
  - intros Hs. destruct (find_desc (descs σ) 0 size) as [i|] eqn:Efd; [|done]. exfalso.
    destruct (find_desc_Some _ _ _ _ Efd) as (d & Hd & _ & Hsd). rewrite Nat.sub_0_r in Hd.
    rewrite (proj1 (co_descs _ _ H _ _ Hd)) in Hsd.
    assert (i < NDESCS)%nat as Hi by (rewrite <-(co_len _ _ H); by eapply lookup_lt_Some).
    assert (2 ^ Z.of_nat i ≤ 2 ^ 6) by (apply Z.pow_le_mono_r; unfold NDESCS in Hi; lia).
    unfold bs in *. lia.
Qed.

Lemma wp_malloc size Q :
  0 ≤ size ≤ 2 ^ 32 - 12 →
  (∀ p n Γ' σ', size ≤ n → 0 < size → PHYS_BASE < p → new_block Γ Γ' σ σ' p n → Q p σ') →
  (size = 0 ∨ exhausted (mem σ) false (pages_needed size) → Q NULL σ) →
  wp (malloc size) σ Q.
Proof using All.
  intros Hsz HQ HN. destruct (decide (size = 0)) as [->|E0]; [apply wp_ret, HN; by left|].
  destruct (find_desc (descs σ) 0 size) as [i|] eqn:Efd.
  - apply (wp_malloc_small size i); [done|done|intros; eapply HQ; done || lia|].
    intros Hs Hex. apply HN. right. unfold pages_needed. by rewrite (proj2 (Z.leb_le _ _)).
  - pose proof (proj1 (no_desc size) Efd) as Hs1.
    assert (pages_needed size = (size + 12 + 4095) / 4096) as En.
    { unfold pages_needed. by rewrite (proj2 (Z.leb_gt _ _)). }
    pose proof (pool_bound _ (co_palloc _ _ H) false) as (?&?&?&?). simpl pool_at in *. unfold PHYS_BASE in *.
    assert (2 ^ 20 - 1 ≤ pages_needed size → exhausted (mem σ) false (pages_needed size)) as Hbig.
    { intros Hpn k ??. simpl pool_at in *. lia. }
    set (c := DIV_ROUND_UP (u32 (size + sizeof_arena)) PGSIZE).
    assert (0 ≤ c < 2 ^ 32 ∧ (c = pages_needed size ∨ c = 0 ∧ 2 ^ 20 - 1 ≤ pages_needed size)) as [Hcb Hc].
    { unfold c, DIV_ROUND_UP, sizeof_arena. rewrite PGSIZE_eq, En. unfold wrap.
      destruct (decide (size = 2 ^ 32 - 12)); lia. }
    apply (wp_malloc_big size c); [done..| |].
    + intros p Γ' σ' Hcp Hp Hnb. destruct Hc as [Hc|[? _]]; [|lia].
      eapply HQ; [|lia|unfold PHYS_BASE in *; lia|exact Hnb]. lia.
    + intros Hc'. apply HN. right. destruct Hc as [Hc|[_ ?]]; [|by apply Hbig].
      destruct Hc' as [Hc'|]; [|by rewrite <-Hc]. apply Hbig. lia.
Qed.
End malloc.

(** ** free *)

(** What free does to a live block [p]. *)
Record block_freed (Γ Γ' : layout) (σ σ' : mstate) (p : Z) : Prop := {
  bf_good : good σ' Γ';
  bf_live : ∀ q m, live Γ' q m ↔ live Γ q m ∧ q ≠ p;
  bf_keeps : ∀ q m, live Γ q m → q ≠ p → agree q m (bytes (mem σ')) (bytes (mem σ))
}.

Lemma blks_length n i a k : length (blks n i a k) = n.
Proof. revert k; induction n as [|n IH]; intros k; simpl; by rewrite ?IH. Qed.
Lemma blks_NoDup n i a k : (i < NDESCS)%nat → NoDup (blks n i a k).
Proof.
  intros Hi. revert k; induction n as [|n IH]; intros k; simpl; constructor; [|apply IH].
  intros (j & ? & E)%elem_of_blks. apply blk_inj in E; [lia|done].
Qed.

(** An arena with as many free blocks as it has blocks is entirely free. *)
Lemma all_free σ Γ a i :
  core σ Γ → arenas Γ !! a = Some i → count a (frees Γ i) = bpa i →
  ∀ x, x ∈ blks (Z.to_nat (bpa i)) i a 0 → x ∈ frees Γ i.
Proof.
  intros H Ha Hc x Hx. destruct (arena_page _ _ H _ _ Ha) as (Hi&Hal&_). destruct (bs_bounds i Hi) as (?&?&?&?).
  pose proof (il_nodup _ _ _ (co_lists _ _ H i Hi)) as Hnd.
  apply NoDup_cons in Hnd as [_ Hnd]. apply NoDup_app_l in Hnd.
  set (ys := filter (λ x, x / 4096 = a / 4096) (frees Γ i)).
  assert (ys ⊆+ blks (Z.to_nat (bpa i)) i a 0) as Hsub.
  { apply NoDup_submseteq; [by apply NoDup_filter|]. intros y [Hpg Hy]%list_elem_of_filter.
    destruct (free_block _ _ H i y Hi Hy) as (a' & k & Ha' & ? & -> & ? & _).
    assert (a' = a) as -> by (eapply arena_inj; [done..|lia]).
    apply elem_of_blks. exists k. split; [lia|done]. }
  assert (x ∈ ys) as [_ ?]%list_elem_of_filter; [|done].
  rewrite (submseteq_length_Permutation _ _ Hsub); [done|]. rewrite blks_length. unfold count in Hc. fold ys in Hc. lia.
Qed.

(** An entirely free arena is given back. *)
Section release.
Context (σ1 : mstate) (Γ : layout) (H1 : core σ1 Γ) (a : Z) (i : nat).
Context (Ha : arenas Γ !! a = Some i) (Hc : count a (frees Γ i) = bpa i).
Let bl : list Z := blks (Z.to_nat (bpa i)) i a 0.
Let xs : list Z := filter (λ x, x ∉ bl) (frees Γ i).
Let Γ' : layout :=
  mk_layout (delete a (arenas Γ)) (bigs Γ) (λ j, if decide (j = i) then xs else frees Γ j).

Lemma a_page : (i < NDESCS)%nat ∧ a mod 4096 = 0 ∧ 0 < bpa i.
Proof using All.
  destruct (arena_page _ _ H1 _ _ Ha) as (Hi&?&_). by destruct (bs_bounds i Hi) as (?&?&?&?).
Qed.

Lemma elem_of_bl x : x ∈ bl ↔ ∃ k, 0 ≤ k < bpa i ∧ x = blk i a k.
Proof using All.
  destruct a_page as (?&?&?). unfold bl. rewrite elem_of_blks, Z2Nat.id by lia. done.
Qed.

(** The blocks of other arenas are not touched. *)
Lemma bl_page a' j k : arenas Γ !! a' = Some j → 0 ≤ k < bpa j → a' ≠ a → blk j a' k ∉ bl.
Proof using All.
  destruct a_page as (?&?&?). intros Ha' Hk Hne (k' & Hk' & E)%elem_of_bl.
  destruct (arena_page _ _ H1 _ _ Ha') as (Hj&?&_).
  destruct (blk_in j a' k) as (?&?&?); [done..|]. destruct (blk_in i a k') as (?&?&?); [done..|].
  rewrite E in *. lia.
Qed.

Lemma release_count a' : a' ≠ a → arenas Γ !! a' = Some i → count a' xs = count a' (frees Γ i).
Proof using All.
  intros Hne Ha'. destruct a_page as (Hi&?&?). destruct (arena_page _ _ H1 _ _ Ha') as (_&?&_).
  unfold count, xs. rewrite list_filter_filter. f_equal. f_equal. apply filter_ext_in. intros x Hx.
  split; [by intros [? _]|]. intros Hpg. split; [done|].
  intros (k & Hk & ->)%elem_of_bl. destruct (blk_in i a k) as (?&?&?); [done..|]. lia.
Qed.

Lemma release_core m1 h :
  pages_set (λ pn, a / 4096 ≤ pn < a / 4096 + 1) false (fill a (4096 * 1) 0xcc (bytes (mem σ1))) (mem σ1) m1 →
  is_list h (free_list σ1 i) xs → same_outside (nodes (free_list σ1 i) (frees Γ i)) (elems σ1) h →
  core (mk_mstate m1 h (descs_at σ1) (descs σ1)) Γ'.
Proof using All.
  intros Hm1 Hl Hso. destruct a_page as (Hi&?&?). apply (gone_core σ1 Γ Γ' a 1 m1 h); simpl; try done.
  - intros j Hj. case_decide as E; [by subst|].
    eapply (other_list _ _ H1 i j []); [done..|congruence|exact Hso|]. by intros q ?%elem_of_nil.
  - intros j x Hj. case_decide as E; intros Hx.
    + subst j. apply list_elem_of_filter in Hx as [Hnb Hx].
      destruct (co_blocks _ _ H1 i x Hi Hx) as (a' & k & Ha' & Hk & ->). exists a', k.
      rewrite lookup_delete_ne; [done|]. intros <-. apply Hnb, elem_of_bl. by exists k.
    + destruct (co_blocks _ _ H1 j x Hj Hx) as (a' & k & Ha' & Hk & ->). exists a', k.
      rewrite lookup_delete_ne; [done|]. intros <-. congruence.
  - intros a' j [Hne Ha']%lookup_delete_Some. split; [done|].
    destruct (arena_page _ _ H1 _ _ Ha') as (_&?&_). split; [|lia].
    case_decide as E; [|done]. subst. by apply release_count.
  - intros b n Hb'. split; [done|]. destruct (co_apart _ _ H1 _ _ _ _ Ha Hb'); lia.
Qed.

Lemma release_live q m : live Γ' q m ↔ live Γ q m.
Proof using All.
  destruct a_page as (Hi&?&?). unfold live. simpl. split.
  - intros [(a' & j & k & [Hne Ha']%lookup_delete_Some & Hk & -> & Hf & ->)|Hb']; [|by right]. left.
    exists a', j, k. do 3 (split; [done|]). split; [|done]. case_decide as E; [|done]. subst j.
    intros Hin. apply Hf, list_elem_of_filter. split; [|done]. by apply bl_page.
  - intros [(a' & j & k & Ha' & Hk & -> & Hf & ->)|Hb']; [|by right]. left. exists a', j, k.
    split; [apply lookup_delete_Some; split; [|done]|].
    + intros <-. assert (j = i) as -> by congruence. apply Hf, (all_free _ _ _ _ H1 Ha Hc), elem_of_bl.
      by exists k.
    + do 2 (split; [done|]). split; [|done]. case_decide as E; [|done]. subst.
      by intros [_ ?]%list_elem_of_filter.
Qed.

Lemma release_keeps q m : live Γ q m →
  agree q m (fill a (4096 * 1) 0xcc (bytes (mem σ1))) (bytes (mem σ1)).
Proof using All.
  destruct a_page as (Hi&?&?). intros Hq. apply fill_agree.
  destruct (live_in _ _ H1 _ _ Hq) as [(a' & j & k & Ha' & Hk & -> & Hf & -> & ? & ?)|(b & c & Hb' & -> & ->)].
  - destruct (arena_page _ _ H1 _ _ Ha') as (_&?&_). destruct (decide (a' = a)) as [->|]; [|lia].
    exfalso. assert (j = i) as -> by congruence. apply Hf, (all_free _ _ _ _ H1 Ha Hc), elem_of_bl. by exists k.
  - destruct (co_apart _ _ H1 _ _ _ _ Ha Hb'); lia.
Qed.

Lemma wp_release_arena Q :
  (∀ a' j, arenas Γ !! a' = Some j → a' ≠ a → count a' (frees Γ j) < bpa j) →
  (∀ σ', core σ' Γ' → settled Γ' → keeps Γ σ1 σ' → descs σ' = descs σ1 → Q tt σ') →
  wp (remove_blocks (Z.to_nat (bpa i)) a 0;; on_mem (palloc_free_page a)) σ1 Q.
Proof using All.
  intros Hset HQ. destruct a_page as (Hi&?&?). wp_step. apply (wp_remove_blocks _ _ i a 0 (frees Γ i));
    [by eapply core_statics|done|by eapply core_page_at|lia|lia|by apply (co_lists _ _ H1)|by eapply all_free|].
  intros h Hl Hso. destruct (co_arenas _ _ H1 _ _ Ha) as (_ & [_ Hb He Hu] & _).
  apply wp_on_mem, (wp_palloc_free_multiple _ false); simpl pool_at; try done; [apply (co_palloc _ _ H1)|].
  intros m1 Hm1. apply HQ; [by apply release_core| | |done].
  - intros a' j. simpl. intros [Hne Ha']%lookup_delete_Some. pose proof (Hset a' j Ha' ltac:(done)).
    case_decide as E; [|done]. subst. by rewrite release_count.
  - intros q m Hq. simpl. rewrite (ps_bytes _ _ _ _ _ Hm1). by apply release_keeps.
Qed.
End release.

Section free.
Context (σ : mstate) (Γ : layout) (Hg : good σ Γ).
Let H : core σ Γ := go_core _ _ Hg.

(** The rest of free once the block is on the free list again. *)
Lemma wp_free_end σ1 a i k c Q :
  let Γ1 := set_frees i (blk i a k :: frees Γ i) Γ in
  core σ1 Γ1 → arenas Γ !! a = Some i → 0 ≤ k < bpa i → c = count a (frees Γ i) →
  (∀ q m, live Γ q m → q ≠ blk i a k → agree q m (bytes (mem σ1)) (bytes (mem σ))) →
  descs σ1 = descs (locked i σ) →
  (∀ σ' Γ', block_freed Γ Γ' σ σ' (blk i a k) → Q tt σ') →
  wp ((if bpa i <=? u32 (c + 1) then
         assert (u32 (c + 1) =? bpa i);;
         remove_blocks (Z.to_nat (bpa i)) a 0;; on_mem (palloc_free_page a)
       else mret tt);; desc_lock_release i) σ1 Q.
Proof using All.
  intros Γ1 H1 Ha Hk -> Hkeep Ed HQ. destruct (arena_page _ _ H _ _ Ha) as (Hi&Hal&_).
  destruct (bs_bounds i Hi) as (?&?&?&?). destruct (blk_in i a k) as (?&?&?); [done..|].
  pose proof (go_settled _ _ Hg a i Ha) as Hlt. pose proof (count_nonneg a (frees Γ i)).
  rewrite wrap_small by lia.
  assert (count a (frees Γ1 i) = count a (frees Γ i) + 1) as Ec.
  { simpl. rewrite decide_True, count_cons, decide_True by done. lia. }
  assert (∀ a' j, arenas Γ1 !! a' = Some j → a' ≠ a → count a' (frees Γ1 j) < bpa j) as Hother.
  { intros a' j Ha' Hne. simpl. pose proof (go_settled _ _ Hg a' j Ha'). case_decide as E; [|done]. subst.
    by rewrite (count_other _ _ H i a k Ha Hk). }
  assert (∀ q m, live Γ1 q m ↔ live Γ q m ∧ q ≠ blk i a k) as Hl1.
  { intros q m. by apply (live_push _ _ H). }
  wp_step. destruct (Z.leb_spec (bpa i) (count a (frees Γ i) + 1)) as [Hle|Hgt].
  - wp_step. apply wp_assert; [apply Z.eqb_eq; lia|].
    apply (wp_release_arena σ1 Γ1 H1 a i); [done|lia|done|].
    intros σ2 Hcore2 Hs2 Hk2 Ed2. apply (wp_lock_release σ Γ Hg i Hi); [congruence|].
    eapply HQ. split; [by apply (good_unlock σ Γ Hg i Hi _ _ Hcore2)| |].
    + intros q m. rewrite (release_live σ1 Γ1 H1 a i) by (done || lia). by apply Hl1.
    + intros q m Hq Hne. simpl. eapply agree_trans; [|by apply Hkeep]. apply Hk2. by apply Hl1.
  - wp_step. apply (wp_lock_release σ Γ Hg i Hi); [done|]. apply (HQ _ Γ1).
    split; [apply (good_unlock σ Γ Hg i Hi _ _ H1)|done|done].
    intros a' j Ha'. destruct (decide (a' = a)) as [->|Hne]; [|by apply Hother].
    simpl in Ha'. assert (j = i) as -> by congruence. lia.
Qed.

(** The block [k] of the arena [a] is cleared and put on the free list. *)
Section small.
Context (i : nat) (a k : Z) (Ha : arenas Γ !! a = Some i) (Hk : 0 ≤ k < bpa i) (Hf : blk i a k ∉ frees Γ i).
Let x : Z := blk i a k.
Let g : Z → Z := fill x (bs i) 0xcc (bytes (mem σ)).
Let g' : Z → Z := put_word (a + 8) (count a (frees Γ i) + 1) g.

Lemma small_page : (i < NDESCS)%nat ∧ a mod 4096 = 0 ∧ PHYS_BASE ≤ a ∧ a + 4096 ≤ ram_end (mem σ) ∧
  16 ≤ bs i ∧ bpa i < 256 ∧ a + 12 ≤ x ∧ x + bs i ≤ a + 4096.
Proof using All.
  destruct (arena_page _ _ H _ _ Ha) as (Hi&Hal&Hlo&Hhi&Hw&_).
  destruct (bs_bounds i Hi) as (?&?&?&?). destruct (blk_in i a k) as (Hx&Hx'&?); done.
Qed.

Lemma small_agree b n : x + bs i ≤ b ∨ b + n ≤ x → agree b n g (bytes (mem σ)).
Proof using All. intros. by apply fill_agree. Qed.

Lemma small_core h :
  is_list h (free_list σ i) (x :: frees Γ i) →
  same_outside (x :: nodes (free_list σ i) (frees Γ i)) (elems σ) h →
  core (mk_mstate (set_bytes g' (mem σ)) h (descs_at σ) (descs σ)) (set_frees i (x :: frees Γ i) Γ).
Proof using All.
  intros Hl Hs. destruct small_page as (Hi&Hal&?&?&?&?&?&?). destruct (co_arenas _ _ H _ _ Ha) as (_ & _ & Hhd).
  pose proof (go_settled _ _ Hg a i Ha). pose proof (count_nonneg a (frees Γ i)).
  apply (core_push _ _ H i a k Ha Hk); [done|exact Hl|exact Hs| |].
  - intros b n Hb. eapply agree_trans; [apply put_word_agree; lia|]. apply small_agree. lia.
  - eapply header_set_cnt; [lia|lia|]. eapply header_agree; [|exact Hhd]. apply small_agree. lia.
Qed.

Lemma small_keeps q m : live Γ q m → q ≠ x → agree q m g' (bytes (mem σ)).
Proof using All.
  intros Hq Hne. destruct small_page as (Hi&Hal&?&?&?&?&?&?). apply agree_trans with g.
  - apply put_word_agree.
    destruct (live_in _ _ H _ _ Hq) as [(a' & j & k' & Ha' & _ & _ & _ & -> & ? & ?)|(b & c & Hb' & -> & ->)].
    + destruct (arena_page _ _ H _ _ Ha') as (Hj&?&_). destruct (bs_bounds j Hj) as (?&_). lia.
    + destruct (big_page _ _ H _ _ Hb') as (?&?&_). destruct (co_apart _ _ H _ _ _ _ Ha Hb'); lia.
  - apply small_agree. destruct (live_apart _ _ H x (bs i) q m) as [?|?]; [|done|done|by left|by right].
    left. by exists a, i, k.
Qed.

(** list_push_front of the block, seen as a list element. *)
Lemma wp_push_claimed e Q :
  (∀ h, is_list h (free_list σ i) (x :: frees Γ i) →
     same_outside (x :: nodes (free_list σ i) (frees Γ i)) (elems σ) h → Q tt h) →
  wp (list_push_front (free_list σ i) x) (<[x := e]> (elems σ)) Q.
Proof using All.
  intros HQ. destruct small_page as (Hi&Hal&?&?&?&?&?&?). unfold PHYS_BASE in *.
  assert (same_outside [x] (elems σ) (<[x := e]> (elems σ))) as Hs1.
  { intros q Hq. rewrite lookup_insert_ne; [done|]. by rewrite list_elem_of_singleton in Hq. }
  assert (x ∉ nodes (free_list σ i) (frees Γ i)) as Hnx by by apply (blk_other_list _ _ H a i k i Ha Hk Hi).
  apply (wp_push_front _ _ (frees Γ i)).
  - eapply is_list_frame; [exact Hs1| |by apply (co_lists _ _ H)]. intros q Hq.
    rewrite list_elem_of_singleton. by intros ->.
  - unfold KList.NULL. lia.
  - done.
  - by rewrite lookup_insert_eq.
  - intros h Hl Hs. apply HQ; [done|]. intros q [Hq1 Hq2]%not_elem_of_cons.
    rewrite Hs, Hs1; [done|by apply not_elem_of_cons; split; [|apply not_elem_of_nil]|by apply not_elem_of_cons].
Qed.

Lemma wp_free_small Q : (∀ σ' Γ', block_freed Γ Γ' σ σ' x → Q tt σ') → wp (free x) σ Q.
Proof using All.
  intros HQ. destruct small_page as (Hi&Hal&Hlo&?&?&?&?&?). pose proof (core_statics _ _ H) as Hst.
  destruct (co_arenas _ _ H _ _ Ha) as (_ & _ & Hhd). destruct (desc_ptr_static _ _ H i Hi) as (?&?&_).
  pose proof (go_settled _ _ Hg a i Ha). pose proof (count_nonneg a (frees Γ i)).
  unfold free, PHYS_BASE in *. rewrite (proj2 (Z.eqb_neq x NULL)) by (unfold NULL; lia). simpl negb. cbv iota.
  wp_step. apply (wp_block_to_arena _ Hst a i k); [done|by eapply core_page_at|done|]. wp_step.
  apply (wp_get_word σ (a + 4) (desc_ptr σ i)); [unfold PHYS_BASE; lia|lia|apply Hhd|].
  rewrite (proj2 (Z.eqb_neq _ NULL)) by (unfold NULL; lia). simpl negb. cbv iota. wp_step.
  apply wp_desc_index. wp_step. apply (wp_load_desc _ Hst); [done|]. intros d _ Eb En. rewrite Eb, En.
  wp_step. apply wp_on_mem, wp_memset_ram; [unfold PHYS_BASE; lia|lia|]. change (u8 204) with 204.
  wp_step. unfold desc_lock_acquire, load_desc. repeat wp_step.
  apply (wp_from_option _ (mk_desc (bs i) (bpa i) false)); [by apply (the_desc σ Γ Hg i)|].
  repeat wp_step; [done|]. unfold claim. repeat wp_step. apply wp_on_elems.
  match goal with |- wp _ _ ?F => change (wp (list_push_front (free_list σ i) x)
    (<[x := mk_elem (word_at g x) (word_at g (x + 4))]> (elems σ)) F) end.
  apply wp_push_claimed. intros h Hl Hs. unfold get_free_cnt, set_free_cnt. wp_step.
  apply (wp_get_word _ (a + 8) (count a (frees Γ i)));
    [unfold PHYS_BASE; lia|change (a + 8 + 4 ≤ ram_end (mem σ)); lia| |].
  { change (word_at g (a + 8) = count a (frees Γ i)). rewrite <-(hd_cnt _ _ _ _ Hhd).
    apply (agree_word a 12); [apply small_agree|..]; lia. }
  wp_step. apply wp_on_mem, wp_store_word; [unfold PHYS_BASE; lia|change (a + 8 + 4 ≤ ram_end (mem σ)); lia|].
  eapply (wp_free_end _ a i k); [|done|done|done| |done|done]; rewrite wrap_small by lia.
  - pose proof (core_locked _ _ i (small_core h Hl Hs)) as Hc. exact Hc.
  - exact small_keeps.
Qed.
End small.
End free.

(** A big block is given back. *)
Lemma wp_free_big σ Γ b c Q :
  good σ Γ → bigs Γ !! b = Some c →
  (∀ σ' Γ', block_freed Γ Γ' σ σ' (b + 12) → Q tt σ') → wp (free (b + 12)) σ Q.
Proof.
  intros Hg Hb HQ. pose proof (go_core _ _ Hg) as H. destruct (big_page _ _ H _ _ Hb) as (?&Hal&?&?&?).
  destruct (co_bigs _ _ H _ _ Hb) as (_ & [_ Hlo Hhi Hu] & Hhd). pose proof (core_statics _ _ H) as Hst.
  unfold free, PHYS_BASE in *. rewrite (proj2 (Z.eqb_neq (b + 12) NULL)) by (unfold NULL; lia).
  simpl negb. cbv iota. wp_step.
  apply (wp_block_to_arena_big _ Hst b); [split; [done|done|lia|apply Hhd|apply Hhd]|]. wp_step.
  apply (wp_get_word σ (b + 4) NULL); [unfold PHYS_BASE; lia|lia|apply Hhd|]. simpl. wp_step.
  apply (wp_get_word σ (b + 8) c); [unfold PHYS_BASE; lia|lia|apply Hhd|].
  apply wp_on_mem, (wp_palloc_free_multiple _ false); [apply (co_palloc _ _ H)|done|done|done|done|done|].
  intros m1 Hm1. apply (HQ _ (mk_layout (arenas Γ) (delete b (bigs Γ)) (frees Γ))).
  assert (∀ b' n, bigs Γ !! b' = Some n → b ≠ b' → b + 4096 * c ≤ b' ∨ b' + 4096 * n ≤ b) as Hap.
  { intros b' n Hb' Hne. by apply (co_apart' _ _ H). }
  split.
  - split; [|apply (go_settled _ _ Hg)|apply (go_unlocked _ _ Hg)].
    apply (gone_core σ Γ _ b c m1 (elems σ)); simpl; try done.
    + apply (co_lists _ _ H).
    + apply (co_blocks _ _ H).
    + intros a i Ha. split_and!; [done..|]. destruct (co_apart _ _ H _ _ _ _ Ha Hb); lia.
    + intros b' n [Hne Hb']%lookup_delete_Some. auto.
  - intros q m. unfold live. simpl. split.
    + intros [(a & i & k & Ha & Hk & -> & Hf & ->)|(b' & n & [Hne Hb']%lookup_delete_Some & -> & ->)].
      * split; [left; by exists a, i, k|]. destruct (arena_page _ _ H _ _ Ha) as (Hi&?&_).
        destruct (bs_bounds i Hi) as (?&_). destruct (blk_in i a k) as (?&?&?); [done..|].
        destruct (co_apart _ _ H _ _ _ _ Ha Hb); lia.
      * split; [right; by exists b', n|]. lia.
    + intros [[Ha|(b' & n & Hb' & -> & ->)] Hne]; [by left|]. right. exists b', n.
      split; [|done]. apply lookup_delete_Some. split; [|done]. intros ->. lia.
  - intros q m Hq Hne. simpl. rewrite (ps_bytes _ _ _ _ _ Hm1). apply fill_agree.
    destruct (live_in _ _ H _ _ Hq) as [(a' & j & k' & Ha' & _ & _ & _ & -> & ? & ?)|(b' & n & Hb' & -> & ->)].
    + destruct (co_apart _ _ H _ _ _ _ Ha' Hb); lia.
    + destruct (Hap b' n Hb'); lia.
Qed.

Lemma wp_free σ Γ p n Q :
  good σ Γ → live Γ p n → (∀ σ' Γ', block_freed Γ Γ' σ σ' p → Q tt σ') → wp (free p) σ Q.
Proof.
  intros Hg [(a & i & k & Ha & Hk & -> & Hf & _)|(b & c & Hb & -> & _)] HQ.
  - by apply (wp_free_small σ Γ Hg i a k).
  - by apply (wp_free_big σ Γ b c).
Qed.

(** Whatever the owner of a block writes into it, the allocator's data stay. *)
Lemma good_write σ Γ p n g :
  good σ Γ → live Γ p n →
  (∀ b m, p + n ≤ b ∨ b + m ≤ p → agree b m g (bytes (mem σ))) →
  good (with_mem (set_bytes g (mem σ)) σ) Γ.
Proof.
  intros [H Hs Hu] Hl Hag. split; [|done|done].
  assert (∀ a i, arenas Γ !! a = Some i → agree a 12 g (bytes (mem σ))) as Ha.
  { intros a i Ha. apply Hag. destruct (arena_page _ _ H _ _ Ha) as (_&?&_).
    destruct (live_in _ _ H _ _ Hl) as [(a' & j & k' & Ha' & _ & _ & _ & -> & ? & ?)|(b & c & Hb & -> & ->)].
    - destruct (arena_page _ _ H _ _ Ha') as (_&?&_). lia.
    - destruct (co_apart _ _ H _ _ _ _ Ha Hb); lia. }
  assert (∀ b c, bigs Γ !! b = Some c → agree b 12 g (bytes (mem σ))) as Hb.
  { intros b c Hb. apply Hag. destruct (big_page _ _ H _ _ Hb) as (?&?&_).
    destruct (live_in _ _ H _ _ Hl) as [(a' & j & k' & Ha' & _ & _ & _ & -> & ? & ?)|(b' & c' & Hb' & -> & ->)].
    - destruct (co_apart _ _ H _ _ _ _ Ha' Hb); lia.
    - destruct (big_page _ _ H _ _ Hb') as (?&?&_).
      destruct (decide (b = b')) as [->|]; [lia|]. destruct (co_apart' _ _ H _ _ _ _ Hb Hb'); lia. }
  destruct H. split; simpl; try done.
  - by apply palloc_ok_bytes.
  - intros a i Hai. destruct (co_arenas a i Hai) as (? & [] & ?). split_and!; [done|by split|].
    eapply header_agree; [by eapply Ha|done].
  - intros b c Hbc. destruct (co_bigs b c Hbc) as (? & [] & ?). split_and!; [done|by split|].
    eapply header_agree; [by eapply Hb|done].
Qed.

(** A new block stays new when it is written. *)
Lemma new_block_write Γ Γ' σ σ' p n g :
  new_block Γ Γ' σ σ' p n →
  (∀ b m, p + n ≤ b ∨ b + m ≤ p → agree b m g (bytes (mem σ'))) →
  new_block Γ Γ' σ (with_mem (set_bytes g (mem σ')) σ') p n.
Proof.
  intros [Hg Hl Hap Hk] Hag. split; [|done|done|].
  - eapply good_write; [done| |exact Hag]. apply Hl. by right.
  - intros q m Hq. simpl. eapply agree_trans; [|by apply Hk].
    apply Hag. destruct (Hap q m Hq); lia.
Qed.
