(* ===== verification/MallocThms.v ===== *)
(** * Theorems on threads/malloc.c

    malloc_init establishes the invariant; malloc, free, calloc and realloc keep
    it.  The last theorems are about sizes that overflow: malloc of nearly 2^32
    bytes and calloc of two factors whose product wraps around succeed with a
    block that is too small. *)

From S2P Require Import Prelude KList KListOps Bitmap Vaddr Palloc Ram Malloc MallocInv MallocSteps MallocProofs.
Local Open Scope Z_scope.
Local Ltac Zify.zify_post_hook ::= Z.div_mod_to_equations.

(** C4: malloc returns a block of at least SIZE bytes that overlaps no block
    handed out before and changes the contents of none of them; or a null pointer,
    with nothing changed, only if SIZE is zero or the kernel pool has not enough
    consecutive free pages. *)
Theorem malloc_correct (σ : mstate) (Γ : layout) (size : Z) :
  good σ Γ → 0 ≤ size ≤ 2 ^ 32 - 12 →
  wp (malloc size) σ (λ p σ',
    p = NULL ∧ σ' = σ ∧ (size = 0 ∨ exhausted (mem σ) false (pages_needed size)) ∨
    p ≠ NULL ∧ ∃ n Γ', size ≤ n ∧ new_block Γ Γ' σ σ' p n).
Proof.
  intros Hg Hs. apply (wp_malloc σ Γ Hg); [done| |by left].
  intros p n Γ' σ' Hn _ Hp Hnb. right. split; [unfold PHYS_BASE, NULL in *; lia|]. by exists n, Γ'.
Qed.


(** calloc of A times B bytes, if the product and a header fit 32 bits, returns
    a new block whose first A * B bytes are zero, or a null pointer. *)
Theorem calloc_correct (σ : mstate) (Γ : layout) (a b : Z) :
  good σ Γ → 0 < a → 0 < b → a * b ≤ 2 ^ 32 - 12 →
  wp (calloc a b) σ (λ p σ',
    p = NULL ∧ σ' = σ ∧ exhausted (mem σ) false (pages_needed (a * b)) ∨
    ∃ n Γ', a * b ≤ n ∧ new_block Γ Γ' σ σ' p n ∧ ∀ x, p ≤ x < p + a * b → bytes (mem σ') x = 0).
Proof.
  intros Hg Ha Hb Hab. unfold calloc. rewrite wrap_small by nia.
  rewrite (proj2 (Z.ltb_ge _ _)), (proj2 (Z.ltb_ge _ _)) by nia. simpl orb. cbv iota. wp_step.
  apply (wp_malloc σ Γ Hg); [nia| |].
  - intros p n Γ' σ' Hn _ Hp Hnb. pose proof (nb_good _ _ _ _ _ _ Hnb) as Hg'.
    destruct (live_ram _ _ (go_core _ _ Hg') p n) as (?&?&?); [apply (nb_live _ _ _ _ _ _ Hnb); by right|].
    rewrite (proj2 (Z.eqb_neq p NULL)) by (unfold PHYS_BASE, NULL in *; lia). simpl negb. cbv iota.
    wp_step. apply wp_on_mem, wp_memset_ram; [lia|lia|]. wp_step. right. exists n, Γ'.
    split_and!; [done| |].
    + apply new_block_write; [done|]. intros c m Hc. apply fill_agree. lia.
    + intros x Hx. simpl. unfold fill. by rewrite (proj2 (Z.leb_le _ _)), (proj2 (Z.ltb_lt _ _)) by lia.
  - intros [E|Hex]; [nia|]. simpl. repeat wp_step. by left.
Qed.

Lemma wp_block_size_of σ Γ p n Q :
  good σ Γ → live Γ p n → Q n σ → wp (block_size_of p) σ Q.
Proof.
  intros Hg Hl HQ. pose proof (go_core _ _ Hg) as H. pose proof (core_statics _ _ H) as Hst.
  destruct Hl as [(a & i & k & Ha & Hk & -> & Hf & ->)|(b & c & Hb & -> & ->)]; unfold block_size_of.
  - destruct (arena_page _ _ H _ _ Ha) as (Hi&Hal&Hlo&Hhi&Hw&_). destruct (co_arenas _ _ H _ _ Ha) as (_ & _ & Hhd).
    destruct (desc_ptr_static _ _ H i Hi) as (?&?&_). wp_step.
    apply (wp_block_to_arena _ Hst a i k); [done|by eapply core_page_at|done|]. wp_step.
    apply (wp_get_word σ (a + 4) (desc_ptr σ i)); [lia|lia|apply Hhd|].
    rewrite (proj2 (Z.eqb_neq _ NULL)) by (unfold NULL; lia). simpl negb. cbv iota. wp_step.
    apply wp_desc_index. wp_step. apply (wp_load_desc _ Hst); [done|]. intros d _ Eb _. wp_step. by rewrite Eb.
  - destruct (big_page _ _ H _ _ Hb) as (?&Hal&?&?&?). destruct (co_bigs _ _ H _ _ Hb) as (_ & _ & Hhd).
    wp_step. apply (wp_block_to_arena_big _ Hst b); [split; [done|done|lia|apply Hhd|apply Hhd]|]. wp_step.
    apply (wp_get_word σ (b + 4) NULL); [lia|lia|apply Hhd|]. simpl. wp_step.
    apply (wp_get_word σ (b + 8) c); [lia|lia|apply Hhd|]. wp_step.
    unfold PHYS_BASE in *. rewrite pg_ofs_mod, PGSIZE_eq, wrap_small by lia.
    by replace (4096 * c - (b + 12) mod 4096) with (4096 * c - 12) by lia.
Qed.

(** C35: realloc moves a live block: the new one begins with the contents of the
    old one, as far as both reach; the old one is freed and no other block
    changes.  If it returns a null pointer nothing has changed. *)
Theorem realloc_correct (σ : mstate) (Γ : layout) (old n new_size : Z) :
  good σ Γ → live Γ old n → 0 < new_size ≤ 2 ^ 32 - 12 →
  wp (realloc old new_size) σ (λ p σ',
    p = NULL ∧ σ' = σ ∨
    ∃ n' Γ', new_size ≤ n' ∧ good σ' Γ' ∧
      (∀ q m, live Γ' q m ↔ live Γ q m ∧ q ≠ old ∨ q = p ∧ m = n') ∧
      (∀ x, 0 ≤ x < Z.min new_size n → bytes (mem σ') (p + x) = bytes (mem σ) (old + x)) ∧
      (∀ q m, live Γ q m → q ≠ old → agree q m (bytes (mem σ')) (bytes (mem σ)))).
Proof.
  intros Hg Hl Hs. destruct (live_ram _ _ (go_core _ _ Hg) _ _ Hl) as (?&?&?). unfold realloc.
  rewrite (proj2 (Z.eqb_neq new_size 0)) by lia. wp_step. apply (wp_malloc σ Γ Hg); [lia| |].
  2: { intros _. rewrite andb_false_r. repeat wp_step. by left. }
  intros p n' Γ1 σ1 Hn _ Hp Hnb. pose proof (nb_good _ _ _ _ _ _ Hnb) as Hg1.
  assert (live Γ1 p n') as Hlp by (apply (nb_live _ _ _ _ _ _ Hnb); by right).
  assert (live Γ1 old n) as Hlo by (apply (nb_live _ _ _ _ _ _ Hnb); by left).
  destruct (live_ram _ _ (go_core _ _ Hg1) p n' Hlp) as (?&?&?).
  destruct (live_ram _ _ (go_core _ _ Hg1) old n Hlo) as (?&?&?).
  unfold PHYS_BASE, NULL in *. rewrite (proj2 (Z.eqb_neq old 0)), (proj2 (Z.eqb_neq p 0)) by lia.
  simpl andb. cbv iota. wp_step. wp_step. apply (wp_block_size_of _ Γ1 _ n); [done..|].
  replace (if new_size <? n then new_size else n) with (Z.min new_size n)
    by (destruct (Z.ltb_spec new_size n); lia).
  set (k := Z.min new_size n). pose proof (nb_apart _ _ _ _ _ _ Hnb old n Hl) as Hap.
  wp_step. apply wp_on_mem, wp_memcpy_ram; [unfold PHYS_BASE; lia|lia|unfold PHYS_BASE; lia|lia|].
  set (g := copy p old k (bytes (mem σ1))).
  assert (new_block Γ Γ1 σ (with_mem (set_bytes g (mem σ1)) σ1) p n') as Hnb2.
  { apply new_block_write; [done|]. intros b m Hb. apply copy_agree. lia. }
  assert (p ≠ old) as Hne.
  { intros ->. pose proof (live_size _ _ (go_core _ _ Hg) old n Hl). lia. }
  apply (wp_free _ Γ1 old n); [apply (nb_good _ _ _ _ _ _ Hnb2)|done|]. intros σ2 Γ2 [Hg2 Hl2 Hk2].
  wp_step. right. exists n', Γ2. split_and!; [done|done| | |].
  - intros q m. rewrite Hl2, (nb_live _ _ _ _ _ _ Hnb). intuition congruence.
  - intros x Hx. rewrite (Hk2 p n' Hlp Hne) by lia. simpl. unfold g, copy.
    rewrite (proj2 (Z.leb_le _ _)), (proj2 (Z.ltb_lt _ _)) by lia. simpl.
    replace (old + (p + x - p)) with (old + x) by lia. apply (nb_keeps _ _ _ _ _ _ Hnb old n Hl). lia.
  - intros q m Hq Hqo. eapply agree_trans; [apply Hk2; [apply (nb_live _ _ _ _ _ _ Hnb); by left|done]|].
    by apply (nb_keeps _ _ _ _ _ _ Hnb2).
Qed.

(** ** Initialization *)

Definition empty_layout : layout := mk_layout ∅ ∅ (λ _, []).

(** The descriptors after [j] iterations of malloc_init's loop. *)
Definition first_descs (j : nat) : list desc := (λ i, mk_desc (bs i) (bpa i) false) <$> seq 0 j.

(** The state of the loop: [j] free lists are initialized, and empty. *)
Record initialized (j : nat) (σ0 σ : mstate) : Prop := {
  in_mem : mem σ = mem σ0;
  in_at : descs_at σ = descs_at σ0;
  in_descs : descs σ = first_descs j;
  in_lists : ∀ i, (i < j)%nat → is_list (elems σ) (free_list σ i) [];
  in_heads : ∀ i, (i < NDESCS)%nat → is_Some (elems σ !! free_list σ i) ∧ is_Some (elems σ !! (free_list σ i + 8))
}.

Lemma wp_malloc_init_loop σ0 n m j σ Q :
  0 < descs_at σ0 → (j + n = NDESCS)%nat → initialized j σ0 σ →
  (∀ σ', initialized NDESCS σ0 σ' → Q tt σ') → wp (malloc_init_loop (S (n + m)) (bs j)) σ Q.
Proof.
  intros Hat. revert j σ; induction n as [|n IH]; intros j σ Hj Hin HQ.
  { replace j with 7%nat in * by (unfold NDESCS in Hj; lia). cbn [malloc_init_loop].
    change (bs 7 <? PGSIZE / 2) with false. cbv iota. wp_step. by apply HQ. }
  cbn [malloc_init_loop]. destruct Hin as [Hm Ha Hd Hl Hh].
  assert (2 ^ Z.of_nat j ≤ 2 ^ 6) as Hp by (apply Z.pow_le_mono_r; unfold NDESCS in *; lia).
  assert (bs j ≤ 1024 ∧ 16 ≤ bs j) as [Hb ?].
  { unfold bs. pose proof (Z.pow_pos_nonneg 2 (Z.of_nat j) ltac:(lia) ltac:(lia)) as Hp0. revert Hp Hp0.
    generalize (2 ^ Z.of_nat j). change (2 ^ 6) with 64. lia. }
  change (PGSIZE / 2) with 2048. rewrite (proj2 (Z.ltb_lt _ _)) by lia. wp_step. wp_step.
  assert (length (descs σ) = j) as Elen by by rewrite Hd; unfold first_descs; rewrite length_fmap, length_seq.
  rewrite Elen, Hd.
  wp_step. apply wp_assert; [apply Z.leb_le; unfold NDESCS in *; lia|]. wp_step. wp_step.
  change (PGSIZE - sizeof_arena) with 4084. fold (bpa j).
  assert (first_descs j ++ [mk_desc (bs j) (bpa j) false] = first_descs (S j)) as ->.
  { unfold first_descs. by rewrite seq_S, fmap_app. }
  destruct (Hh j) as [??]; [unfold NDESCS in *; lia|].
  assert (0 < free_list σ j) as Hf by (unfold free_list, desc_ptr, sizeof_desc, free_list_ofs; rewrite Ha; lia).
  wp_step. apply wp_on_elems. simpl. apply wp_list_init;
    [unfold KList.NULL; lia|unfold KList.NULL, tail_of; lia|done|done|]. intros h' Hl' Hs'.
  assert (∀ i, i ≠ j → free_list σ i ∉ nodes (free_list σ j) [] ∧ free_list σ i + 8 ∉ nodes (free_list σ j) []) as Hne.
  { intros i Hij. unfold nodes, head_of, tail_of. simpl.
    rewrite !not_elem_of_cons. unfold free_list, desc_ptr, sizeof_desc, free_list_ofs.
    split_and!; try apply not_elem_of_nil; lia. }
  replace (u32 (bs j * 2)) with (bs (S j)).
  2: { rewrite wrap_small by lia. unfold bs. rewrite Nat2Z.inj_succ, Z.pow_succ_r by lia. lia. }
  apply IH; [lia| |done]. split; simpl; try done.
  - intros i Hi. destruct (decide (i = j)) as [->|Hij]; [done|].
    eapply is_list_frame; [exact Hs'| |apply Hl; lia]. destruct (Hne i Hij).
    intros q [->|Hq]%elem_of_cons; [done|]. apply list_elem_of_singleton in Hq. by subst.
  - intros i Hi. destruct (decide (i = j)) as [->|Hij].
    + split; eapply (node_mapped h' _ [] _ Hl'); unfold nodes; simpl; rewrite elem_of_cons; [by left|right].
      by apply list_elem_of_singleton.
    + destruct (Hne i Hij). rewrite !Hs' by done. by apply Hh.
Qed.

Lemma wp_malloc_init σ Q :
  palloc_ok (mem σ) → descs σ = [] → 0 < descs_at σ → descs_at σ + 480 ≤ base (kernel_pool (mem σ)) →
  (∀ i, (i < NDESCS)%nat → is_Some (elems σ !! free_list σ i) ∧ is_Some (elems σ !! (free_list σ i + 8))) →
  (∀ σ', good σ' empty_layout → mem σ' = mem σ → Q tt σ') → wp malloc_init σ Q.
Proof.
  intros Hok Hd Hat Hst Hh HQ. unfold malloc_init.
  apply (wp_malloc_init_loop σ 7 2 0); [done..| |].
  { split; try done. intros i Hi. lia. }
  intros σ' [Hm Ha Hds Hl _]. apply HQ; [|done]. split.
  - split; simpl; rewrite ?Hm, ?Ha, ?Hds; try done.
    + intros i d. unfold first_descs. rewrite list_lookup_fmap_Some. intros (j & -> & [-> _]%lookup_seq). done.
    + intros i x _. by intros ?%elem_of_nil.
  - intros a i. simpl. by rewrite lookup_empty.
  - intros i d. rewrite Hds. unfold first_descs. rewrite list_lookup_fmap_Some.
    by intros (j & -> & _).
Qed.

(** malloc_init establishes the invariant, with no block handed out. *)
Theorem malloc_init_correct (σ : mstate) :
  palloc_ok (mem σ) → descs σ = [] → 0 < descs_at σ → descs_at σ + 480 ≤ base (kernel_pool (mem σ)) →
  (∀ i, (i < NDESCS)%nat → is_Some (elems σ !! free_list σ i) ∧ is_Some (elems σ !! (free_list σ i + 8))) →
  wp malloc_init σ (λ _ σ', good σ' empty_layout ∧ ∀ p n, ¬ live empty_layout p n).
Proof.
  intros. apply wp_malloc_init; [done..|]. intros σ' Hg _. split; [done|]. intros p n.
  intros [(a & i & k & Ha & _)|(b & c & Hb & _)]; simpl in *; by rewrite lookup_empty in *.
Qed.

(** ** Sizes that overflow *)

(** For a SIZE within 11 of 2^32 the sum of SIZE and the header wraps
    around: malloc asks for one page and, if there is one, returns a block of 4084
    bytes for the request of almost 4 GB. *)
Theorem malloc_size_overflow (σ : mstate) (Γ : layout) (size : Z) :
  good σ Γ → 2 ^ 32 - 12 < size < 2 ^ 32 →
  wp (malloc size) σ (λ p σ',
    p = NULL ∧ exhausted (mem σ) false 1 ∨ ∃ Γ', new_block Γ Γ' σ σ' p 4084).
Proof.
  intros Hg Hs. apply (wp_malloc_big σ Γ Hg size 1).
  - lia.
  - apply (no_desc σ Γ Hg). lia.
  - unfold DIV_ROUND_UP, sizeof_arena. rewrite PGSIZE_eq. unfold wrap. lia.
  - done.
  - intros p Γ' σ' _ _ Hnb. right. by exists Γ'.
  - intros [?|?]; [done|]. by left.
Qed.

(** calloc's check does not see that 0x10001 * 0x10001 wraps around to 0x20001:
    it returns a block of 33 pages less the header for more than 4 GB. *)
Lemma calloc_overflow (σ : mstate) (Γ : layout) :
  good σ Γ →
  wp (calloc 0x10001 0x10001) σ (λ p _,
    p = NULL ∧ exhausted (mem σ) false 33 ∨ ∃ Γ' σ', new_block Γ Γ' σ σ' p (4096 * 33 - 12)).
Proof.
  intros Hg. unfold calloc. change (u32 (0x10001 * 0x10001)) with 0x20001.
  change (0x20001 <? 0x10001) with false. simpl orb. cbv iota. wp_step.
  apply (wp_malloc_big σ Γ Hg 0x20001 33); [done|by apply (no_desc σ Γ Hg)|done|done| |].
  - intros p Γ' σ' _ Hp Hnb. pose proof (nb_good _ _ _ _ _ _ Hnb) as Hg'.
    destruct (live_ram _ _ (go_core _ _ Hg') p (4096 * 33 - 12)) as (?&?&?);
      [apply (nb_live _ _ _ _ _ _ Hnb); by right|].
    rewrite (proj2 (Z.eqb_neq p NULL)) by (unfold PHYS_BASE, NULL in *; lia). simpl negb. cbv iota.
    wp_step. apply wp_on_mem, wp_memset_ram; [lia|lia|]. wp_step. right. by exists Γ', σ'.
  - intros [?|?]; [done|]. simpl. repeat wp_step. by left.
Qed.

(** ** An example: three pages for the kernel *)

Definition ex_heads : heap :=
  foldr (λ i h, <[0xc0020008 + 48 * Z.of_nat i := mk_elem 0 0]>
    (<[0xc0020010 + 48 * Z.of_nat i := mk_elem 0 0]> h)) ∅ (seq 0 7).
Definition ex_start : mstate :=
  mk_mstate (mk_pages 264 (λ a, a) (mk_pool false (mk_bitmap 3 [0]) 0xc0101000)
    (mk_pool false (mk_bitmap 1 [0]) 0xc0104000)) ex_heads 0xc0020000 [].
Definition after (m : M mstate Z) (σ : mstate) : mstate :=
  match m σ with Ok (_, σ') => σ' | _ => σ end.
Definition ex_state : mstate := after (malloc_init;; mret 0) ex_start.

Lemma ex_palloc_ok : palloc_ok (mem ex_start).
Proof.
  split; [done| | |done]; (split; [done| |done..]; split; [done..|by repeat constructor]).
Qed.
Lemma ex_heads_mapped i : (i < NDESCS)%nat →
  is_Some (elems ex_start !! free_list ex_start i) ∧ is_Some (elems ex_start !! (free_list ex_start i + 8)).
Proof.
  unfold NDESCS. intros Hi. assert (i ∈ seq 0 7) as Hin by (apply elem_of_seq; lia). simpl in Hin.
  repeat (apply elem_of_cons in Hin as [->|Hin]; [by split; eexists|]). by apply elem_of_nil in Hin.
Qed.

Lemma ex_good : good ex_state empty_layout.
Proof.
  assert (wp (malloc_init;; mret 0) ex_start (λ _ σ, good σ empty_layout)) as Hw.
  { wp_step. apply wp_malloc_init; [apply ex_palloc_ok|done|done|done|apply ex_heads_mapped|].
    intros σ Hg _. by wp_step. }
  unfold wp in Hw. unfold ex_state, after. by destruct ((malloc_init;; mret 0) ex_start) as [[]| | |].
Qed.

Lemma malloc_init_correct_witness :
  wp malloc_init ex_start (λ _ σ', good σ' empty_layout ∧ ∀ p n, ¬ live empty_layout p n).
Proof.
  apply (malloc_init_correct ex_start); [apply ex_palloc_ok|done|done|done|apply ex_heads_mapped].
Defined.

Lemma malloc_correct_witness :
  wp (malloc 100) ex_state (λ p σ',
    p = NULL ∧ σ' = ex_state ∧ (100 = 0 ∨ exhausted (mem ex_state) false (pages_needed 100)) ∨
    p ≠ NULL ∧ ∃ n Γ', 100 ≤ n ∧ new_block empty_layout Γ' ex_state σ' p n) ∧
  match malloc 100 ex_state with Ok (p, _) => p = 0xc010100c | _ => False end.
Proof.
  split; [|by vm_compute]. apply (malloc_correct ex_state empty_layout 100); [apply ex_good|done].
Defined.

(** The state with one block. *)
Lemma ex_one : ∃ Γ, good (after (malloc 100) ex_state) Γ ∧ ∃ n, live Γ 0xc010100c n.
Proof.
  assert (wp (malloc 100) ex_state (λ p σ', p = 0xc010100c → ∃ Γ, good σ' Γ ∧ ∃ n, live Γ p n)) as Hw.
  { apply (wp_malloc ex_state empty_layout ex_good); [done| |done].
    intros p n Γ σ _ _ _ Hnb _. exists Γ. split; [apply Hnb|]. exists n.
    apply (nb_live _ _ _ _ _ _ Hnb). by right. }
  assert (match malloc 100 ex_state with Ok (p, _) => p = 0xc010100c | _ => False end) as Hp by by vm_compute.
  unfold wp in Hw. unfold after. destruct (malloc 100 ex_state) as [[p σ]| | |]; [|done..].
  subst. by apply Hw.
Qed.


Lemma calloc_correct_witness :
  wp (calloc 25 4) ex_state (λ p σ',
    p = NULL ∧ σ' = ex_state ∧ exhausted (mem ex_state) false (pages_needed (25 * 4)) ∨
    ∃ n Γ', 25 * 4 ≤ n ∧ new_block empty_layout Γ' ex_state σ' p n ∧
      ∀ x, p ≤ x < p + 25 * 4 → bytes (mem σ') x = 0).
Proof. apply (calloc_correct ex_state empty_layout 25 4); [apply ex_good|done..]. Defined.

Lemma realloc_correct_witness :
  ∃ Γ n, wp (realloc 0xc010100c 5000) (after (malloc 100) ex_state) (λ p σ',
    p = NULL ∧ σ' = after (malloc 100) ex_state ∨
    ∃ n' Γ', 5000 ≤ n' ∧ good σ' Γ' ∧
      (∀ q m, live Γ' q m ↔ live Γ q m ∧ q ≠ 0xc010100c ∨ q = p ∧ m = n') ∧
      (∀ x, 0 ≤ x < Z.min 5000 n →
         bytes (mem σ') (p + x) = bytes (mem (after (malloc 100) ex_state)) (0xc010100c + x)) ∧
      (∀ q m, live Γ q m → q ≠ 0xc010100c →
         agree q m (bytes (mem σ')) (bytes (mem (after (malloc 100) ex_state))))).
Proof.
  destruct ex_one as (Γ & Hg & n & Hl). exists Γ, n. apply (realloc_correct _ Γ 0xc010100c n 5000); done.
Defined.

Lemma malloc_size_overflow_witness :
  wp (malloc 0xfffffff8) ex_state (λ p σ',
    p = NULL ∧ exhausted (mem ex_state) false 1 ∨ ∃ Γ', new_block empty_layout Γ' ex_state σ' p 4084) ∧
  match malloc 0xfffffff8 ex_state with Ok (p, _) => p = 0xc010100c | _ => False end.
Proof.
  split; [|by vm_compute]. apply (malloc_size_overflow ex_state empty_layout 0xfffffff8); [apply ex_good|done].
Defined.
