(* ===== verification/Thread.v ===== *)
(** * Threads and the scheduler (threads/thread.c, threads/interrupt.c)

    The state of the scheduler and the operations of thread.c on it.  A thread
    is named by the address of its [struct thread]; ready_list and all_list
    are the sequences of the threads on them, in list order (what list.c does
    to the links is KList.v's subject).  The stack of a thread that is not at
    the start of a kernel call is a sequence of frames: what the thread still
    has to do when it next runs.  A context switch is the assignment of
    [running] in [schedule]: the code after a call of schedule () in the C text
    is a frame that the thread finds on its stack when it is scheduled again. *)

From S2P Require Import Prelude KListOps.
Local Open Scope Z_scope.

(** enum thread_status *)
Inductive thread_status := THREAD_RUNNING | THREAD_READY | THREAD_BLOCKED | THREAD_DYING.
#[export] Instance thread_status_eq_dec : EqDecision thread_status.
Proof. solve_decision. Defined.

Definition PRI_MIN : Z := 0.
Definition PRI_DEFAULT : Z := 31.
Definition PRI_MAX : Z := 63.
Definition TIME_SLICE : Z := 4.
Definition TID_ERROR : Z := -1.

(** A semaphore is named by the object it lies in and its place there: a
    semaphore of its own, one of the semaphores of a struct thread, the
    semaphore of a struct lock. *)
Definition sema_id : Type := Z * Z.
Definition own_sema (a : Z) : sema_id := (a, 0).
Definition sema_parent_block (t : Z) : sema_id := (t, 1).
Definition exec_block (t : Z) : sema_id := (t, 2).
Definition wait_block (t : Z) : sema_id := (t, 3).
Definition lock_sema (l : Z) : sema_id := (l, 4).

(** What a new thread executes: the idle thread's function, or some other one. *)
Inductive thread_func := func_idle (started : sema_id) | func_other.

(** The lock of allocate_tid (), a static variable: a name no other lock has. *)
Definition tid_lock : Z := 1.

(** What a thread still has to do.  The [C] frames are calls not yet begun,
    the [F] frames are what follows a switch to another thread. *)
Inductive frame :=
| CSemaDown (s : sema_id) | CSemaUp (s : sema_id) | CSemaTryDown (s : sema_id)
| CSemaInit (s : sema_id) (v : Z)
| CLockInit (l : Z) | CAcquire (l : Z) | CTryAcquire (l : Z) | CSetHolder (l : Z) | CRelease (l : Z)
| CCondInit (c : Z) | CWait (c l : Z) (waiter : sema_id) | CSignal (c l : Z) | CBroadcast (c l : Z)
| CCreate (name : list Z) (priority : Z) (f : thread_func) (page : option Z)
| CNextTid | CSetTid (t : Z) | CUnblockNew (t : Z) (f : thread_func)
| CYield | CSetPriority (p : Z) | CExit
| CSleep (ticks : Z) | CSleepLoop (start ticks : Z)
| CIdle (started : sema_id) | CIdleLoop
| CStart (started : sema_id) (page : option Z) | CEnable
| FYield (old_level : bool) | FDown (s : sema_id) (old_level : bool)
| FIret | FSti | FKernelThread (f : thread_func).
#[export] Instance thread_func_eq_dec : EqDecision thread_func.
Proof. solve_decision. Defined.
#[export] Instance frame_eq_dec : EqDecision frame.
Proof. solve_decision. Defined.

(** struct thread.  [eax] is the value that the last call returned. *)
Record thread := mk_thread {
  tid : Z; status : thread_status; name : list Z; priority : Z; original_priority : Z;
  locksAq : list Z; fd_index : Z; parent : Z; children : list Z;
  exit_status : Z; load_ok : Z; user_process : bool;
  stack : list frame; eax : Z }.

Definition set_tid v t := mk_thread v (status t) (name t) (priority t) (original_priority t)
  (locksAq t) (fd_index t) (parent t) (children t) (exit_status t) (load_ok t) (user_process t)
  (stack t) (eax t).
Definition set_status v t := mk_thread (tid t) v (name t) (priority t) (original_priority t)
  (locksAq t) (fd_index t) (parent t) (children t) (exit_status t) (load_ok t) (user_process t)
  (stack t) (eax t).
Definition set_priorities p q t := mk_thread (tid t) (status t) (name t) p q
  (locksAq t) (fd_index t) (parent t) (children t) (exit_status t) (load_ok t) (user_process t)
  (stack t) (eax t).
Definition set_parent v t := mk_thread (tid t) (status t) (name t) (priority t) (original_priority t)
  (locksAq t) (fd_index t) v (children t) (exit_status t) (load_ok t) (user_process t)
  (stack t) (eax t).
Definition set_children v t := mk_thread (tid t) (status t) (name t) (priority t) (original_priority t)
  (locksAq t) (fd_index t) (parent t) v (exit_status t) (load_ok t) (user_process t)
  (stack t) (eax t).
Definition set_stack v t := mk_thread (tid t) (status t) (name t) (priority t) (original_priority t)
  (locksAq t) (fd_index t) (parent t) (children t) (exit_status t) (load_ok t) (user_process t)
  v (eax t).
Definition set_eax v t := mk_thread (tid t) (status t) (name t) (priority t) (original_priority t)
  (locksAq t) (fd_index t) (parent t) (children t) (exit_status t) (load_ok t) (user_process t)
  (stack t) v.

(** struct semaphore *)
Record semaphore := mk_sema { value : Z; waiters : list Z }.

(** The statistics and counters of thread.c, interrupt.c and timer.c. *)
Record counters := mk_counters {
  idle_ticks : Z; kernel_ticks : Z; user_ticks : Z; thread_ticks : Z; ticks : Z; next_tid : Z }.

(** The state.  [intr] is the interrupt flag of the processor, [stray] the
    word that thread_yield () reads as a priority when ready_list is empty,
    [holders] the [holder] members of the locks (0 for NULL), [conds] the
    waiters of the condition variables. *)
Record sched := mk_sched {
  threads : gmap Z thread; ready_list : list Z; all_list : list Z;
  running : Z; idle_thread : Z; initial_thread : Z;
  intr : bool; in_external_intr : bool; yield_on_return : bool;
  count : counters; semas : gmap sema_id semaphore; holders : gmap Z Z;
  conds : gmap Z (list sema_id); stray : Z }.

Definition set_threads v σ := mk_sched v (ready_list σ) (all_list σ) (running σ) (idle_thread σ)
  (initial_thread σ) (intr σ) (in_external_intr σ) (yield_on_return σ) (count σ) (semas σ)
  (holders σ) (conds σ) (stray σ).
Definition set_ready v σ := mk_sched (threads σ) v (all_list σ) (running σ) (idle_thread σ)
  (initial_thread σ) (intr σ) (in_external_intr σ) (yield_on_return σ) (count σ) (semas σ)
  (holders σ) (conds σ) (stray σ).
Definition set_all v σ := mk_sched (threads σ) (ready_list σ) v (running σ) (idle_thread σ)
  (initial_thread σ) (intr σ) (in_external_intr σ) (yield_on_return σ) (count σ) (semas σ)
  (holders σ) (conds σ) (stray σ).
Definition set_running v σ := mk_sched (threads σ) (ready_list σ) (all_list σ) v (idle_thread σ)
  (initial_thread σ) (intr σ) (in_external_intr σ) (yield_on_return σ) (count σ) (semas σ)
  (holders σ) (conds σ) (stray σ).
Definition set_idle v σ := mk_sched (threads σ) (ready_list σ) (all_list σ) (running σ) v
  (initial_thread σ) (intr σ) (in_external_intr σ) (yield_on_return σ) (count σ) (semas σ)
  (holders σ) (conds σ) (stray σ).
Definition set_initial v σ := mk_sched (threads σ) (ready_list σ) (all_list σ) (running σ)
  (idle_thread σ) v (intr σ) (in_external_intr σ) (yield_on_return σ) (count σ) (semas σ)
  (holders σ) (conds σ) (stray σ).
Definition set_intr v σ := mk_sched (threads σ) (ready_list σ) (all_list σ) (running σ)
  (idle_thread σ) (initial_thread σ) v (in_external_intr σ) (yield_on_return σ) (count σ) (semas σ)
  (holders σ) (conds σ) (stray σ).
Definition set_external v w σ := mk_sched (threads σ) (ready_list σ) (all_list σ) (running σ)
  (idle_thread σ) (initial_thread σ) (intr σ) v w (count σ) (semas σ)
  (holders σ) (conds σ) (stray σ).
Definition set_count v σ := mk_sched (threads σ) (ready_list σ) (all_list σ) (running σ)
  (idle_thread σ) (initial_thread σ) (intr σ) (in_external_intr σ) (yield_on_return σ) v (semas σ)
  (holders σ) (conds σ) (stray σ).
Definition set_semas v σ := mk_sched (threads σ) (ready_list σ) (all_list σ) (running σ)
  (idle_thread σ) (initial_thread σ) (intr σ) (in_external_intr σ) (yield_on_return σ) (count σ) v
  (holders σ) (conds σ) (stray σ).
Definition set_holders v σ := mk_sched (threads σ) (ready_list σ) (all_list σ) (running σ)
  (idle_thread σ) (initial_thread σ) (intr σ) (in_external_intr σ) (yield_on_return σ) (count σ)
  (semas σ) v (conds σ) (stray σ).
Definition set_conds v σ := mk_sched (threads σ) (ready_list σ) (all_list σ) (running σ)
  (idle_thread σ) (initial_thread σ) (intr σ) (in_external_intr σ) (yield_on_return σ) (count σ)
  (semas σ) (holders σ) v (stray σ).
Definition set_stray v σ := mk_sched (threads σ) (ready_list σ) (all_list σ) (running σ)
  (idle_thread σ) (initial_thread σ) (intr σ) (in_external_intr σ) (yield_on_return σ) (count σ)
  (semas σ) (holders σ) (conds σ) v.

Notation K := (M sched).

(** ** Access to the state *)
Definition load_thread (t : Z) : K thread :=
  σ ← get; from_option (threads σ !! t).
Definition upd_thread (t : Z) (f : thread → thread) : K unit :=
  th ← load_thread t; modify (λ σ, set_threads (<[t := f th]> (threads σ)) σ).
(** The call [f], or what follows a switch, is what the running thread does next. *)
Definition push (f : frame) : K unit :=
  t ← gets running; upd_thread t (λ th, set_stack (f :: stack th) th).
Definition pushes (fs : list frame) : K unit :=
  t ← gets running; upd_thread t (λ th, set_stack (fs ++ stack th) th).
Definition return_value (v : Z) : K unit :=
  t ← gets running; upd_thread t (set_eax v).

(** ** Interrupts (threads/interrupt.c) *)
Definition intr_get_level : K bool := gets intr.
Definition intr_context : K bool := gets in_external_intr.
Definition intr_enable : K bool :=
  old ← intr_get_level; ctx ← intr_context; assert (negb ctx);;
  modify (set_intr true);; mret old.
Definition intr_disable : K bool :=
  old ← intr_get_level; modify (set_intr false);; mret old.
Definition intr_set_level (level : bool) : K bool :=
  if level then intr_enable else intr_disable.
Definition intr_yield_on_return : K unit :=
  ctx ← intr_context; assert ctx;; modify (λ σ, set_external (in_external_intr σ) true σ).

(** ** Threads (threads/thread.c) *)
Definition is_thread (t : Z) : K bool :=
  σ ← get; mret (bool_decide (t ≠ 0) && bool_decide (is_Some (threads σ !! t))).
Definition running_thread : K Z := gets running.
Definition thread_current : K Z :=
  t ← running_thread; b ← is_thread t; assert b;;
  th ← load_thread t; assert (bool_decide (status th = THREAD_RUNNING));; mret t.

Definition priority_of (T : gmap Z thread) (t : Z) : Z :=
  match T !! t with Some th => priority th | None => 0 end.
Definition prioritycmp (T : gmap Z thread) (a b : Z) : bool :=
  if priority_of T a <=? priority_of T b then false else true.

(** list_insert_ordered (&ready_list, &t->elem, prioritycmp, NULL) *)
Definition insert_ready (t : Z) : K unit :=
  modify (λ σ, set_ready (insert_ordered (prioritycmp (threads σ)) t (ready_list σ)) σ).

Definition next_thread_to_run : K Z :=
  σ ← get;
  match ready_list σ with
  | [] => mret (idle_thread σ)
  | t :: ts => modify (set_ready ts);; mret t
  end.

Definition reset_thread_ticks (c : counters) : counters :=
  mk_counters (idle_ticks c) (kernel_ticks c) (user_ticks c) 0 (ticks c) (next_tid c).

(** process_activate () changes no part of this state.  palloc_free_page ()
    takes the struct thread away. *)
Definition thread_schedule_tail (prev : Z) : K unit :=
  cur ← running_thread;
  level ← intr_get_level; assert (negb level);;
  upd_thread cur (set_status THREAD_RUNNING);;
  modify (λ σ, set_count (reset_thread_ticks (count σ)) σ);;
  if bool_decide (prev ≠ 0) then
    p ← load_thread prev; init ← gets initial_thread;
    if bool_decide (status p = THREAD_DYING) && bool_decide (prev ≠ init) then
      assert (bool_decide (prev ≠ cur));;
      modify (λ σ, set_threads (delete prev (threads σ)) σ)
    else mret tt
  else mret tt.

Definition schedule : K unit :=
  cur ← running_thread;
  next ← next_thread_to_run;
  level ← intr_get_level; assert (negb level);;
  c ← load_thread cur; assert (bool_decide (status c ≠ THREAD_RUNNING));;
  b ← is_thread next; assert b;;
  if bool_decide (cur ≠ next) then
    modify (set_running next);; thread_schedule_tail cur
  else thread_schedule_tail 0.

(** Up to the call of schedule (), with which it ends. *)
Definition thread_block : K unit :=
  ctx ← intr_context; assert (negb ctx);;
  level ← intr_get_level; assert (negb level);;
  cur ← thread_current; upd_thread cur (set_status THREAD_BLOCKED);;
  schedule.

Definition thread_unblock (t : Z) : K unit :=
  b ← is_thread t; assert b;;
  old ← intr_disable;
  th ← load_thread t; assert (bool_decide (status th = THREAD_BLOCKED));;
  insert_ready t;;
  upd_thread t (set_status THREAD_READY);;
  intr_set_level old;; mret tt.

(** The priority of the first thread of ready_list, or the word in its place
    when the list is empty and list_begin () is its tail. *)
Definition front_priority : K Z :=
  σ ← get;
  match ready_list σ with
  | [] => mret (stray σ)
  | t :: _ => th ← load_thread t; mret (priority th)
  end.

Definition thread_yield : K unit :=
  cur ← thread_current; th ← load_thread cur; p ← front_priority;
  if p <? priority th then mret tt
  else
    ctx ← intr_context; assert (negb ctx);;
    old ← intr_disable;
    idle ← gets idle_thread;
    (if bool_decide (cur ≠ idle) then insert_ready cur else mret tt);;
    upd_thread cur (set_status THREAD_READY);;
    push (FYield old);;
    schedule.

(** After process_exit (), which is a sequence of calls that comes before. *)
Definition thread_exit : K unit :=
  ctx ← intr_context; assert (negb ctx);;
  intr_disable;;
  cur ← thread_current;
  modify (λ σ, set_all (filter (λ u, u ≠ cur) (all_list σ)) σ);;
  upd_thread cur (set_status THREAD_DYING);;
  schedule.

Definition thread_set_priority (new_priority : Z) : K unit :=
  cur ← thread_current;
  upd_thread cur (λ th, set_priorities
    (match locksAq th with [] => new_priority | _ => priority th end) new_priority th);;
  push CYield.

Definition thread_get_priority : K Z :=
  cur ← thread_current; th ← load_thread cur; mret (priority th).
Definition thread_tid : K Z := cur ← thread_current; th ← load_thread cur; mret (tid th).
Definition thread_name : K (list Z) := cur ← thread_current; th ← load_thread cur; mret (name th).

Fixpoint tid_search (want : Z) (ts : list Z) : K Z :=
  match ts with
  | [] => mret 0
  | t :: ts => th ← load_thread t; if want =? tid th then mret t else tid_search want ts
  end.
Definition get_thread_tid (want : Z) : K Z :=
  thread_current;; ts ← gets all_list; tid_search want ts.

Fixpoint foreach_loop (func : Z → K unit) (ts : list Z) : K unit :=
  match ts with [] => mret tt | t :: ts => func t;; foreach_loop func ts end.
Definition thread_foreach (func : Z → K unit) : K unit :=
  level ← intr_get_level; assert (negb level);;
  ts ← gets all_list; foreach_loop func ts.

Definition tick_counters (is_idle is_user : bool) (c : counters) : counters :=
  mk_counters (if is_idle then s64 (idle_ticks c + 1) else idle_ticks c)
    (if negb is_idle && negb is_user then s64 (kernel_ticks c + 1) else kernel_ticks c)
    (if negb is_idle && is_user then s64 (user_ticks c + 1) else user_ticks c)
    (u32 (thread_ticks c + 1)) (ticks c) (next_tid c).

Definition thread_tick : K unit :=
  t ← thread_current; th ← load_thread t; idle ← gets idle_thread;
  modify (λ σ, set_count (tick_counters (bool_decide (t = idle)) (user_process th) (count σ)) σ);;
  c ← gets count;
  if TIME_SLICE <=? thread_ticks c then intr_yield_on_return else mret tt.

(** sema_init (threads/synch.c) *)
Definition sema_init (s : sema_id) (v : Z) : K unit :=
  modify (λ σ, set_semas (<[s := mk_sema v []]> (semas σ)) σ).

(** The name is copied by strlcpy () into an array of 16 characters. *)
Definition init_thread (t : Z) (nm : list Z) (prio : Z) : K unit :=
  assert (bool_decide (t ≠ 0));;
  assert ((PRI_MIN <=? prio) && (prio <=? PRI_MAX));;
  modify (λ σ, set_threads (<[t := mk_thread 0 THREAD_BLOCKED (take 15 nm) prio prio [] 2 0 [] (-1) 1
                                    false [] 0]> (threads σ)) σ);;
  modify (λ σ, set_all (all_list σ ++ [t]) σ);;
  sema_init (wait_block t) 0;;
  sema_init (sema_parent_block t) 0;;
  sema_init (exec_block t) 0.

(** The calls of allocate_tid (); the number is the value it returns. *)
Definition allocate_tid : list frame := [CAcquire tid_lock; CNextTid; CRelease tid_lock].
Definition next_tid_step : K unit :=
  c ← gets count;
  return_value (next_tid c);;
  modify (λ σ, set_count (mk_counters (idle_ticks c) (kernel_ticks c) (user_ticks c) (thread_ticks c)
                            (ticks c) (s32 (next_tid c + 1))) σ).

(** thread_create () up to the call of allocate_tid (), and what follows it:
    the new thread's first frame is kernel_thread (). *)
Definition thread_create (nm : list Z) (prio : Z) (f : thread_func) (page : option Z) : K unit :=
  match page with
  | None => return_value TID_ERROR
  | Some t => init_thread t nm prio;; pushes (allocate_tid ++ [CSetTid t; CUnblockNew t f])
  end.
Definition set_tid_step (t : Z) : K unit :=
  cur ← gets running; th ← load_thread cur; upd_thread t (set_tid (eax th)).
Definition thread_create_finish (t : Z) (f : thread_func) : K unit :=
  cur ← thread_current;
  upd_thread t (set_parent cur);;
  upd_thread cur (λ th, set_children (children th ++ [t]) th);;
  old ← intr_disable;
  upd_thread t (set_stack [FKernelThread f]);;
  intr_set_level old;;
  thread_unblock t.

(** kernel_thread () before the thread's function; another function's calls
    are the calls the thread makes, thread_exit () the last of them. *)
Definition kernel_thread (f : thread_func) : K unit :=
  intr_enable;;
  match f with func_idle s => push (CIdle s) | func_other => mret tt end.

Definition idle (started : sema_id) : K unit :=
  cur ← thread_current; modify (set_idle cur);; pushes [CSemaUp started; CIdleLoop].
Definition idle_loop : K unit :=
  intr_disable;; pushes [FSti; CIdleLoop];; thread_block.

Definition thread_start (started : sema_id) (page : option Z) : K unit :=
  sema_init started 0;;
  pushes [CCreate [105; 100; 108; 101] PRI_MIN (func_idle started) page; CEnable; CSemaDown started].

(** ** The timer (devices/timer.c) *)
Definition timer_ticks : K Z :=
  old ← intr_disable; c ← gets count; intr_set_level old;; mret (ticks c).
Definition timer_elapsed (since : Z) : K Z := t ← timer_ticks; mret (s64 (t - since)).
Definition timer_sleep (n : Z) : K unit :=
  start ← timer_ticks; level ← intr_get_level; assert level;; push (CSleepLoop start n).
Definition sleep_loop (start n : Z) : K unit :=
  e ← timer_elapsed start;
  if e <? n then pushes [CYield; CSleepLoop start n] else mret tt.
Definition timer_interrupt : K unit :=
  modify (λ σ, let c := count σ in set_count (mk_counters (idle_ticks c) (kernel_ticks c) (user_ticks c)
    (thread_ticks c) (s64 (ticks c + 1)) (next_tid c)) σ);;
  thread_tick.

(** intr_handler () for an external interrupt, with the handler it calls; the
    acknowledgement of the interrupt controller is device I/O. *)
Definition intr_handler (handler : K unit) : K unit :=
  level ← intr_get_level; assert (negb level);;
  ctx ← intr_context; assert (negb ctx);;
  modify (set_external true false);;
  handler;;
  level ← intr_get_level; assert (negb level);;
  ctx ← intr_context; assert ctx;;
  y ← gets yield_on_return; modify (set_external false y);;
  if (y : bool) then thread_yield else mret tt.
