(* ===== verification/Synch.v ===== *)
(** * Synchronization (threads/synch.c) and the steps of the system

    Semaphores, locks and condition variables over the scheduler of Thread.v,
    and the step relation of the whole: a step is one stretch of code that the
    processor executes without another thread or an interrupt handler coming
    between, which is what interrupts being off gives the bodies of sema_down,
    sema_up and thread_yield.  Between two steps of a call with interrupts on,
    such as between sema_down () and the assignment of [holder] in
    lock_acquire (), a timer interrupt can switch to another thread. *)

From S2P Require Import Prelude Thread.
Local Open Scope Z_scope.

(** ** Semaphores *)
Definition load_sema (s : sema_id) : K semaphore := σ ← get; from_option (semas σ !! s).
Definition store_sema (s : sema_id) (v : Z) (ws : list Z) : K unit :=
  modify (λ σ, set_semas (<[s := mk_sema v ws]> (semas σ)) σ).

(** The loop of sema_down () from its test on.  The frame [FDown] brings a
    thread that was blocked in it back to the test. *)
Definition sema_down_loop (s : sema_id) (old : bool) : K unit :=
  sm ← load_sema s;
  if value sm =? 0 then
    cur ← thread_current;
    store_sema s (value sm) (waiters sm ++ [cur]);;
    push (FDown s old);;
    thread_block
  else
    store_sema s (u32 (value sm - 1)) (waiters sm);;
    intr_set_level old;; mret tt.

Definition sema_down (s : sema_id) : K unit :=
  ctx ← intr_context; assert (negb ctx);;
  old ← intr_disable;
  sema_down_loop s old.

Definition sema_try_down (s : sema_id) : K bool :=
  old ← intr_disable;
  sm ← load_sema s;
  success ← (if 0 <? value sm then store_sema s (u32 (value sm - 1)) (waiters sm);; mret true
             else mret false);
  intr_set_level old;; mret success.

Definition sema_up (s : sema_id) : K unit :=
  old ← intr_disable;
  sm ← load_sema s;
  match waiters sm with
  | [] => mret tt
  | t :: ts => store_sema s (value sm) ts;; thread_unblock t
  end;;
  sm ← load_sema s;
  store_sema s (u32 (value sm + 1)) (waiters sm);;
  intr_set_level old;; mret tt.

(** ** Locks *)
Definition load_holder (l : Z) : K Z := σ ← get; from_option (holders σ !! l).
Definition store_holder (l h : Z) : K unit :=
  modify (λ σ, set_holders (<[l := h]> (holders σ)) σ).

Definition lock_init (l : Z) : K unit :=
  assert (bool_decide (l ≠ 0));; store_holder l 0;; sema_init (lock_sema l) 1.

Definition lock_held_by_current_thread (l : Z) : K bool :=
  assert (bool_decide (l ≠ 0));;
  h ← load_holder l; cur ← thread_current; mret (bool_decide (h = cur)).

(** The call of sema_down () and the assignment after it are frames. *)
Definition lock_acquire (l : Z) : K unit :=
  assert (bool_decide (l ≠ 0));;
  ctx ← intr_context; assert (negb ctx);;
  b ← lock_held_by_current_thread l; assert (negb b);;
  pushes [CSemaDown (lock_sema l); CSetHolder l].
Definition set_holder (l : Z) : K unit := cur ← thread_current; store_holder l cur.

Definition lock_try_acquire (l : Z) : K unit :=
  assert (bool_decide (l ≠ 0));;
  b ← lock_held_by_current_thread l; assert (negb b);;
  success ← sema_try_down (lock_sema l);
  return_value (if (success : bool) then 1 else 0);;
  if (success : bool) then push (CSetHolder l) else mret tt.

Definition lock_release (l : Z) : K unit :=
  assert (bool_decide (l ≠ 0));;
  b ← lock_held_by_current_thread l; assert b;;
  store_holder l 0;;
  push (CSemaUp (lock_sema l)).

(** ** Condition variables *)
Definition load_cond (c : Z) : K (list sema_id) := σ ← get; from_option (conds σ !! c).
Definition store_cond (c : Z) (ws : list sema_id) : K unit :=
  modify (λ σ, set_conds (<[c := ws]> (conds σ)) σ).

Definition cond_init (c : Z) : K unit := assert (bool_decide (c ≠ 0));; store_cond c [].

(** [waiter] is the semaphore of the local variable of that name. *)
Definition cond_wait (c l : Z) (waiter : sema_id) : K unit :=
  assert (bool_decide (c ≠ 0));; assert (bool_decide (l ≠ 0));;
  ctx ← intr_context; assert (negb ctx);;
  b ← lock_held_by_current_thread l; assert b;;
  sema_init waiter 0;;
  ws ← load_cond c; store_cond c (ws ++ [waiter]);;
  pushes [CRelease l; CSemaDown waiter; CAcquire l].

Definition cond_signal (c l : Z) : K unit :=
  assert (bool_decide (c ≠ 0));; assert (bool_decide (l ≠ 0));;
  ctx ← intr_context; assert (negb ctx);;
  b ← lock_held_by_current_thread l; assert b;;
  ws ← load_cond c;
  match ws with
  | [] => mret tt
  | s :: ss => store_cond c ss;; push (CSemaUp s)
  end.

Definition cond_broadcast (c l : Z) : K unit :=
  assert (bool_decide (c ≠ 0));; assert (bool_decide (l ≠ 0));;
  ws ← load_cond c;
  match ws with [] => mret tt | _ => pushes [CSignal c l; CBroadcast c l] end.

(** ** Executing a frame *)
Definition run_frame (f : frame) : K unit :=
  match f with
  | CSemaDown s => sema_down s
  | CSemaUp s => sema_up s
  | CSemaTryDown s => b ← sema_try_down s; return_value (if (b : bool) then 1 else 0)
  | CSemaInit s v => sema_init s v
  | CLockInit l => lock_init l
  | CAcquire l => lock_acquire l
  | CTryAcquire l => lock_try_acquire l
  | CSetHolder l => set_holder l
  | CRelease l => lock_release l
  | CCondInit c => cond_init c
  | CWait c l s => cond_wait c l s
  | CSignal c l => cond_signal c l
  | CBroadcast c l => cond_broadcast c l
  | CCreate nm p f page => thread_create nm p f page
  | CNextTid => next_tid_step
  | CSetTid t => set_tid_step t
  | CUnblockNew t f => thread_create_finish t f
  | CYield => thread_yield
  | CSetPriority p => thread_set_priority p
  | CExit => thread_exit
  | CSleep n => timer_sleep n
  | CSleepLoop start n => sleep_loop start n
  | CIdle s => idle s
  | CIdleLoop => idle_loop
  | CStart s page => thread_start s page
  | CEnable => intr_enable;; mret tt
  | FYield old => intr_set_level old;; mret tt
  | FDown s old => sema_down_loop s old
  | FIret => modify (set_intr true)
  | FSti => modify (set_intr true)
  | FKernelThread f => kernel_thread f
  end.

(** ** Steps *)

(** The running thread does what comes next on its stack. *)
Definition do_run : K unit :=
  cur ← gets running; th ← load_thread cur;
  match stack th with
  | [] => fault
  | f :: fs => upd_thread cur (set_stack fs);; run_frame f
  end.

(** An external interrupt: the processor clears the interrupt flag, which the
    return from the interrupt sets again. *)
Definition do_external (handler : K unit) : K unit :=
  modify (set_intr false);; push FIret;; intr_handler handler.

(** The calls that code outside thread.c and synch.c makes. *)
Definition public (f : frame) : bool :=
  match f with
  | CSemaDown s | CSemaUp s | CSemaTryDown s => bool_decide (s.2 ≠ 4)
  | CSemaInit s v => bool_decide (s.2 ≠ 4) && (0 <=? v) && (v <? 2 ^ 32)
  | CWait _ l s => bool_decide (s.2 ≠ 4)
  | CLockInit l | CAcquire l | CTryAcquire l | CRelease l => bool_decide (l ≠ tid_lock)
  | CCondInit _ | CSignal _ _ | CBroadcast _ _ => true
  | CCreate _ _ func_other _ => true
  | CYield | CSetPriority _ | CExit | CSleep _ => true
  | _ => false
  end.

(** What the callers of the functions that initialize an object owe: nobody
    waits on a semaphore that is initialized, a lock is initialized once, and
    palloc_get_page () gives a page that is in use by no thread. *)
Definition idle_sema (σ : sched) (s : sema_id) : Prop :=
  ∀ sm, semas σ !! s = Some sm → waiters sm = [].
Definition run_ok (σ : sched) (f : frame) : Prop :=
  match f with
  | CSemaInit s _ | CWait _ _ s => idle_sema σ s
  | CLockInit l => holders σ !! l = None ∧ idle_sema σ (lock_sema l)
  | CCreate _ _ _ (Some t) =>
      threads σ !! t = None ∧ idle_sema σ (sema_parent_block t) ∧
      idle_sema σ (exec_block t) ∧ idle_sema σ (wait_block t)
  | _ => True
  end.

Definition stack_of (σ : sched) (t : Z) : list frame :=
  match threads σ !! t with Some th => stack th | None => [] end.

Inductive step (σ σ' : sched) : Prop :=
| step_call f :
    is_Some (threads σ !! running σ) → stack_of σ (running σ) = [] → public f = true →
    push f σ = Ok (tt, σ') → step σ σ'
| step_run f fs :
    stack_of σ (running σ) = f :: fs → run_ok σ f → do_run σ = Ok (tt, σ') → step σ σ'
| step_timer :
    intr σ = true → do_external timer_interrupt σ = Ok (tt, σ') → step σ σ'
| step_device s :
    intr σ = true → s.2 ≠ 4 → do_external (sema_up s) σ = Ok (tt, σ') → step σ σ'
| step_stray v : σ' = set_stray v σ → step σ σ'.

(** ** Booting *)
Definition thread_init : K unit :=
  level ← intr_get_level; assert (negb level);;
  lock_init tid_lock;;
  modify (set_ready []);; modify (set_all []);;
  t ← running_thread; modify (set_initial t);;
  init_thread t [109; 97; 105; 110] PRI_DEFAULT;;
  upd_thread t (set_status THREAD_RUNNING);;
  pushes (allocate_tid ++ [CSetTid t]).

(** The state main () finds: nothing but the running thread. *)
Definition power_on (main : Z) : sched :=
  mk_sched ∅ [] [] main 0 0 false false false (mk_counters 0 0 0 0 0 1) ∅ ∅ ∅ 0.

Fixpoint runs (n : nat) : K unit :=
  match n with O => mret tt | S n => do_run;; runs n end.

(** thread_init () to its end (7 steps), and thread_start () to its end, which
    is 17 steps of the main and of the idle thread. *)
Definition boot (page : Z) (started : sema_id) : K unit :=
  thread_init;; runs 7;; push (CStart started (Some page));; runs 17.
