(* ===== verification/SchedInv.v ===== *)
(** * The invariant of the scheduler: its clauses and how they are preserved

    The invariant relates the maps of threads, semaphores and lock holders and
    the ready list.  It is split into groups of clauses by what they mention
    ([sched_ok], [wait_ok], [lock_ok], [wake_ok]), and for every elementary
    change of the state there is a lemma for every group it can affect. *)

From Stdlib Require Import Sorted.
From S2P Require Import Prelude KListOps Thread Synch.
Local Open Scope Z_scope.

(** ** Weights of stacks *)
Definition weigh (w : frame → Z) (st : list frame) : Z := foldr (λ f n, w f + n) 0 st.

(** The shares of lock [l] that a frame stands for: a thread about to become
    its holder or about to give back its semaphore has the lock, and a thread
    that waits for the semaphore has yet to take it before it becomes holder. *)
Definition lock_share (l : Z) (f : frame) : Z :=
  match f with
  | CSetHolder l' => if decide (l' = l) then 1 else 0
  | CSemaUp s => if decide (s = lock_sema l) then 1 else 0
  | CSemaDown s | FDown s _ => if decide (s = lock_sema l) then -1 else 0
  | _ => 0
  end.
(** The frames that will make the new thread [t] ready. *)
Definition makes_ready (t : Z) (f : frame) : Z :=
  match f with CUnblockNew t' _ => if decide (t' = t) then 1 else 0 | _ => 0 end.
(** Threads about to test semaphore [s] again. *)
Definition top_down (s : sema_id) (st : list frame) : Z :=
  match st with FDown s' _ :: _ => if decide (s' = s) then 1 else 0 | _ => 0 end.
Definition retrying (s : sema_id) (th : thread) : Z :=
  match status th with THREAD_RUNNING | THREAD_READY => top_down s (stack th) | _ => 0 end.

Definition total (w : thread → Z) (T : gmap Z thread) : Z := map_fold (λ _ th n, w th + n) 0 T.

Section total.
Implicit Types (T : gmap Z thread) (w : thread → Z).

Lemma total_insert_new w T t th : T !! t = None → total w (<[t := th]> T) = w th + total w T.
Proof.
  intros Ht. unfold total. apply (map_fold_insert_L (λ _ th n, w th + n) 0 t th T); [|done].
  intros. lia.
Qed.

Lemma total_delete w T t th : T !! t = Some th → total w T = w th + total w (delete t T).
Proof.
  intros Ht. rewrite <-(total_insert_new w (delete t T) t th) by apply lookup_delete_eq.
  by rewrite insert_delete_id.
Qed.

Lemma total_upd w T t th th' :
  T !! t = Some th → total w (<[t := th']> T) = total w T - w th + w th'.
Proof.
  intros Ht. rewrite <-insert_delete_eq, total_insert_new by apply lookup_delete_eq.
  rewrite (total_delete w T t th) by done. lia.
Qed.

Lemma total_same w T t th th' :
  T !! t = Some th → w th' = w th → total w (<[t := th']> T) = total w T.
Proof. intros Ht E. rewrite (total_upd w T t th) by done. lia. Qed.

Lemma total_nonneg w T : (∀ t th, T !! t = Some th → 0 ≤ w th) → 0 ≤ total w T.
Proof.
  revert T. refine (map_fold_weak_ind (λ n T, (∀ t th, T !! t = Some th → 0 ≤ w th) → 0 ≤ n) _ _ _ _).
  - done.
  - intros t th T n Ht IH H. pose proof (H t th (lookup_insert_eq _ _ _)).
    enough (0 ≤ n) by lia. apply IH. intros u uh Hu. apply (H u).
    rewrite lookup_insert_ne; [done|]. congruence.
Qed.

Lemma total_ge w T t th :
  (∀ t th, T !! t = Some th → 0 ≤ w th) → T !! t = Some th → w th ≤ total w T.
Proof.
  intros Hw Ht. rewrite (total_delete w T t th) by done.
  enough (0 ≤ total w (delete t T)) by lia. apply total_nonneg.
  intros u uh Hu. apply lookup_delete_Some in Hu as [_ Hu]. eauto.
Qed.
End total.

Lemma weigh_nonneg w st : (∀ f, 0 ≤ w f) → 0 ≤ weigh w st.
Proof. intros Hw. induction st as [|f st IH]; simpl; [done|]. pose proof (Hw f). lia. Qed.

Lemma makes_ready_nonneg t f : 0 ≤ makes_ready t f.
Proof. destruct f; simpl; try case_decide; lia. Qed.

(** ** Stacks *)

(** The frames that follow a switch. *)
Definition is_switch (f : frame) : bool :=
  match f with FYield _ | FDown _ _ | FSti | FKernelThread _ => true | _ => false end.

(** The frames a stack can hold once the system is up, in the idle thread and
    in the others. *)
Definition allowed (is_idle : bool) (f : frame) : bool :=
  match f with
  | CIdleLoop | FSti => is_idle
  | FIret | FYield _ | CYield => true
  | CSemaUp s => if is_idle then bool_decide (s.2 ≠ 4) else true
  | CIdle _ | CStart _ _ | CEnable | CCreate _ _ (func_idle _) _ | CUnblockNew _ (func_idle _)
  | FKernelThread (func_idle _) => false
  | CSemaTryDown s => negb is_idle && bool_decide (s.2 ≠ 4)
  | CWait _ _ s => negb is_idle && bool_decide (s.2 ≠ 4)
  | CSemaInit s v => negb is_idle && bool_decide (s.2 ≠ 4) && (0 <=? v) && (v <? 2 ^ 32)
  | _ => negb is_idle
  end.

(** A thread that takes a lock's semaphore becomes the holder next, and nothing
    comes after thread_exit (). *)
Fixpoint nested (st : list frame) : Prop :=
  match st with
  | [] => True
  | f :: st =>
      match f with
      | CSemaDown s | FDown s _ => s.2 = 4 → head st = Some (CSetHolder s.1)
      | CExit => st = []
      | _ => True
      end ∧ nested st
  end.

Record stack_ok (i t : Z) (st : list frame) : Prop := {
  so_allowed : Forall (λ f, allowed (bool_decide (t = i)) f = true) st;
  so_switch : Forall (λ f, is_switch f = false) (tail st);
  so_nested : nested st;
  so_idle : t = i → last st = Some CIdleLoop }.

Lemma nested_share l st : nested st → 0 ≤ weigh (lock_share l) st.
Proof.
  enough (nested st → 0 ≤ weigh (lock_share l) st ∧
          (head st = Some (CSetHolder l) → 1 ≤ weigh (lock_share l) st)) by naive_solver.
  induction st as [|f st IH]; simpl; [done|]. intros [Hf Hst]. destruct (IH Hst) as [IH1 IH2].
  split; [|intros [= ->]; simpl; rewrite decide_True by done; lia].
  destruct f; simpl; repeat case_decide; subst; try lia; specialize (Hf eq_refl); simpl in Hf;
    specialize (IH2 Hf); lia.
Qed.

(** ** Who runs and who is ready

    [r] is the running thread, if one is marked as such (in the middle of a
    switch none is), [i] the idle thread. *)
Definition before (T : gmap Z thread) (a b : Z) : Prop := priority_of T b ≤ priority_of T a.

Record sched_ok (i : Z) (r : option Z) (T : gmap Z thread) (R : list Z) : Prop := {
  k_run : ∀ t th, T !! t = Some th → status th = THREAD_RUNNING ↔ r = Some t;
  k_run_in : ∀ t, r = Some t → is_Some (T !! t);
  k_ready : ∀ t, t ∈ R ↔ ∃ th, T !! t = Some th ∧ status th = THREAD_READY ∧ t ≠ i;
  k_nodup : NoDup R;
  k_sorted : Sorted (before T) R;
  k_idle : ∃ th, T !! i = Some th ∧ status th ≠ THREAD_DYING;
  k_null : T !! 0 = None;
  k_stack : ∀ t th, T !! t = Some th → stack_ok i t (stack th) }.

Lemma Sorted_priorities (T T' : gmap Z thread) R :
  (∀ t, t ∈ R → priority_of T' t = priority_of T t) → Sorted (before T) R → Sorted (before T') R.
Proof.
  intros HR Hs. induction Hs as [|a R Hs IH Hh]; [constructor|].
  constructor; [apply IH; intros; apply HR; by right|].
  destruct Hh as [|b R Hab]; constructor. unfold before in *.
  rewrite (HR a), (HR b); [done|right; left|left].
Qed.

Lemma priority_of_ne T t u th : u ≠ t → priority_of (<[t := th]> T) u = priority_of T u.
Proof. intros. unfold priority_of. by rewrite lookup_insert_ne. Qed.

Lemma priority_of_upd T t u th th' :
  T !! t = Some th → priority th' = priority th →
  priority_of (<[t := th']> T) u = priority_of T u.
Proof.
  intros Ht E. unfold priority_of. destruct (decide (u = t)) as [->|Hne].
  - by rewrite lookup_insert_eq, Ht, E.
  - by rewrite lookup_insert_ne by congruence.
Qed.

Lemma before_cmp T a b : before T a b ↔ prioritycmp T b a = false.
Proof.
  unfold before, prioritycmp. destruct (Z.leb_spec (priority_of T b) (priority_of T a)); split; (done || lia).
Qed.

Lemma insert_ordered_priority T t R :
  Sorted (before T) R → Sorted (before T) (insert_ordered (prioritycmp T) t R).
Proof.
  assert (∀ R, Sorted (before T) R ↔ Sorted (λ a b, prioritycmp T b a = false) R) as E.
  { clear. intros R. split; induction 1 as [|a R Hs IH Hh]; constructor; try done;
      destruct Hh; constructor; by apply before_cmp. }
  rewrite !E. apply insert_ordered_Sorted. intros a b. unfold prioritycmp.
  destruct (Z.leb_spec (priority_of T a) (priority_of T b)); [done|].
  destruct (Z.leb_spec (priority_of T b) (priority_of T a)); [done|lia].
Qed.

Section sched_ok.
Context (i : Z).
Implicit Types (r : option Z) (T : gmap Z thread) (R : list Z).

(** Case analysis on whether the thread looked up is the one just updated. *)
Ltac lookups :=
  repeat match goal with
  | H : <[?t := _]> _ !! ?u = Some _ |- _ =>
      apply lookup_insert_Some in H as [[? ?]|[? H]]; subst
  end.

Lemma ready_status r T R t th : sched_ok i r T R → T !! t = Some th → status th ≠ THREAD_READY → t ∉ R.
Proof. intros HK Ht Hs Hin. apply (k_ready _ _ _ _ HK) in Hin as (th' & Ht' & ? & _). naive_solver. Qed.

Lemma sched_ok_same r T R t th th' :
  sched_ok i r T R → T !! t = Some th → status th' = status th →
  (status th = THREAD_READY → priority th' = priority th) → stack_ok i t (stack th') →
  sched_ok i r (<[t := th']> T) R.
Proof.
  intros HK Ht Hs Hp Hst. pose proof HK as [Hr Hri HR Hnd Hso Hid Hnu Hk]. split.
  - intros u uh Hu. lookups; [|by eauto]. rewrite Hs. by apply Hr.
  - intros u Hu. rewrite lookup_insert_is_Some'. auto.
  - intros u. rewrite HR. split; intros (uh & Hu & Hsu & Hne).
    + destruct (decide (u = t)) as [->|]; [|exists uh; by rewrite lookup_insert_ne].
      exists th'. rewrite lookup_insert_eq. split_and!; [done| |done]. congruence.
    + lookups; [|by eauto]. exists th. split_and!; [done| |done]. congruence.
  - done.
  - apply (Sorted_priorities T); [|done]. intros u Hu.
    destruct (decide (u = t)) as [->|]; [|by apply priority_of_ne].
    apply HR in Hu as (th2 & Ht2 & Hs2 & _). assert (th2 = th) as -> by congruence.
    rewrite (priority_of_upd T t t th); auto.
  - destruct Hid as (ih & Hi & Hd). destruct (decide (i = t)) as [<-|].
    + exists th'. rewrite lookup_insert_eq. split; [done|]. congruence.
    + exists ih. by rewrite lookup_insert_ne.
  - rewrite lookup_insert_ne; [done|]. intros ->. congruence.
  - intros u uh Hu. lookups; [done|by eauto].
Qed.

(** The running thread [c] stops running, as [th'], with the ready list [R']. *)
Lemma sched_ok_stop c T R th th' R' :
  sched_ok i (Some c) T R → T !! c = Some th → status th' ≠ THREAD_RUNNING →
  stack_ok i c (stack th') → (c = i → status th' ≠ THREAD_DYING) →
  (status th' ≠ THREAD_READY ∨ c = i → R' = R) →
  (status th' = THREAD_READY → priority th' = priority th) →
  (status th' = THREAD_READY → c ≠ i → R' = insert_ordered (prioritycmp T) c R) →
  sched_ok i None (<[c := th']> T) R'.
Proof.
  intros HK Hc Hs Hst Hdy HR1 Hpr HR2. pose proof HK as [Hr Hri HR Hnd Hso Hid Hnu Hk].
  assert (c ∉ R) as Hnin.
  { eapply ready_status; [done..|]. rewrite (proj2 (Hr c th Hc) eq_refl). done. }
  assert (∀ u, u ∈ R' ↔ u ∈ R ∨ (u = c ∧ status th' = THREAD_READY ∧ c ≠ i)) as HR'.
  { intros u. destruct (decide (status th' = THREAD_READY)) as [E|E]; [destruct (decide (c = i)) as [E'|E']|].
    - rewrite HR1 by auto. naive_solver.
    - rewrite HR2 by done. rewrite insert_ordered_perm. rewrite elem_of_cons. naive_solver.
    - rewrite HR1 by auto. naive_solver. }
  split.
  - intros u uh Hu. lookups; [naive_solver|]. rewrite (Hr u uh Hu). naive_solver.
  - done.
  - intros u. rewrite HR'. split.
    + intros [Hin|(-> & ? & ?)]; [|exists th'; by rewrite lookup_insert_eq].
      apply HR in Hin as (uh & Hu & ? & ?). exists uh.
      rewrite lookup_insert_ne; [done|]. intros ->. apply Hnin, HR. eauto.
    + intros (uh & Hu & ? & ?). lookups; [by right|]. left. apply HR. eauto.
  - destruct (decide (status th' = THREAD_READY)) as [E|E]; [destruct (decide (c = i)) as [E'|E']|];
      [by rewrite HR1 by auto| |by rewrite HR1 by auto].
    rewrite HR2 by done. rewrite insert_ordered_perm. by constructor.
  - assert (Sorted (before T) R' ∧ (c ∈ R' → priority th' = priority th)) as [Hso' Hp'].
    { split; [|intros Hin; apply HR' in Hin as [?|(_ & ? & _)]; [done|auto]].
      destruct (decide (status th' = THREAD_READY)) as [E|E]; [destruct (decide (c = i)) as [E'|E']|];
        [by rewrite HR1 by auto| |by rewrite HR1 by auto].
      rewrite HR2 by done. by apply insert_ordered_priority. }
    apply (Sorted_priorities T); [|done]. intros u Hu.
    destruct (decide (u = c)) as [->|]; [|by apply priority_of_ne].
    rewrite (priority_of_upd T c c th); auto.
  - destruct Hid as (ih & Hi & Hd). destruct (decide (i = c)) as [E|].
    + exists th'. rewrite E, lookup_insert_eq. split; [done|]. auto.
    + exists ih. by rewrite lookup_insert_ne.
  - rewrite lookup_insert_ne; [done|]. intros ->. congruence.
  - intros u uh Hu. lookups; [done|by eauto].
Qed.

(** A thread [t] off the ready list [R] becomes the running one. *)
Lemma sched_ok_start T R R' t th :
  sched_ok i None T R → T !! t = Some th → status th ≠ THREAD_DYING →
  (R = t :: R' ∨ R = R' ∧ t = i) →
  sched_ok i (Some t) (<[t := set_status THREAD_RUNNING th]> T) R'.
Proof.
  intros HK Ht Hdy HR'. pose proof HK as [Hr Hri HR Hnd Hso Hid Hnu Hk].
  assert (t ∉ R' ∧ ∀ u, u ≠ t → u ∈ R' ↔ u ∈ R) as [Hnin Hin].
  { destruct HR' as [->|[-> ->]].
    - apply NoDup_cons in Hnd as [? _]. split; [done|]. intros u Hu. rewrite elem_of_cons. naive_solver.
    - split; [|done]. intros Hin. apply HR in Hin. naive_solver. }
  split.
  - intros u uh Hu. lookups; [done|]. rewrite (Hr u uh Hu). naive_solver.
  - intros u [= ->]. by rewrite lookup_insert_eq.
  - intros u. destruct (decide (u = t)) as [->|Hne].
    + split; [done|]. intros (uh & Hu & ? & _). by rewrite lookup_insert_eq in Hu; simplify_eq.
    + rewrite Hin, HR, lookup_insert_ne by congruence. done.
  - destruct HR' as [->|[-> ->]]; [|done]. by apply NoDup_cons in Hnd as [_ ?].
  - apply (Sorted_priorities T); [intros; by eapply priority_of_upd|].
    destruct HR' as [->|[-> ->]]; [|done]. by inversion Hso.
  - destruct Hid as (ih & Hi & Hd). destruct (decide (i = t)) as [<-|].
    + eexists. by rewrite lookup_insert_eq.
    + exists ih. by rewrite lookup_insert_ne.
  - rewrite lookup_insert_ne; [done|]. intros ->. congruence.
  - intros u uh Hu. lookups; [|by eauto]. simpl. eauto.
Qed.

(** A blocked thread [t], with the stack of [th'], becomes ready. *)
Lemma sched_ok_unblock r T R t th th' :
  sched_ok i r T R → T !! t = Some th → status th = THREAD_BLOCKED → t ≠ i →
  status th' = THREAD_READY → priority th' = priority th → stack_ok i t (stack th') →
  sched_ok i r (<[t := th']> T) (insert_ordered (prioritycmp T) t R).
Proof.
  intros HK Ht Hs Hti Hs' Hp' Hst. pose proof HK as [Hr Hri HR Hnd Hso Hid Hnu Hk].
  assert (t ∉ R) as Hnin by (eapply ready_status; [done..|congruence]).
  split.
  - intros u uh Hu. lookups; [|by eauto]. rewrite Hs'. split; [done|].
    intros E. apply (Hr _ _ Ht) in E. congruence.
  - intros u Hu. rewrite lookup_insert_is_Some'. auto.
  - intros u. rewrite insert_ordered_perm, elem_of_cons, HR. split.
    + intros [->|(uh & Hu & ? & ?)]; [exists th'; by rewrite lookup_insert_eq|].
      exists uh. rewrite lookup_insert_ne; [done|]. intros ->. congruence.
    + intros (uh & Hu & ? & ?). lookups; [by left|right; eauto].
  - rewrite insert_ordered_perm. by constructor.
  - apply (Sorted_priorities T); [intros; by eapply priority_of_upd|]. by apply insert_ordered_priority.
  - destruct Hid as (ih & Hi & Hd). exists ih. by rewrite lookup_insert_ne.
  - rewrite lookup_insert_ne; [done|]. intros ->. congruence.
  - intros u uh Hu. lookups; [done|by eauto].
Qed.

Lemma sched_ok_delete r T R t th :
  sched_ok i r T R → T !! t = Some th → status th = THREAD_DYING → sched_ok i r (delete t T) R.
Proof.
  intros HK Ht Hs. pose proof HK as [Hr Hri HR Hnd Hso Hid Hnu Hk].
  assert (∀ u uh, T !! u = Some uh → status uh ≠ THREAD_DYING → delete t T !! u = Some uh) as Hdel.
  { intros u uh Hu Hd. rewrite lookup_delete_ne; [done|]. congruence. }
  split.
  - intros u uh [_ Hu]%lookup_delete_Some. eauto.
  - intros u Hu. destruct (Hri u Hu) as [uh Hu']. exists uh. apply Hdel; [done|].
    by rewrite (proj2 (Hr u uh Hu') Hu).
  - intros u. rewrite HR. split; intros (uh & Hu & ? & ?).
    + exists uh. split; [|done]. apply Hdel; [done|congruence].
    + apply lookup_delete_Some in Hu as [_ Hu]. eauto.
  - done.
  - apply (Sorted_priorities T); [|done]. intros u (uh & Hu & ? & _)%HR. unfold priority_of.
    rewrite (Hdel u uh), Hu; congruence.
  - destruct Hid as (ih & Hi & Hd). exists ih. auto.
  - rewrite lookup_delete_None. auto.
  - intros u uh [_ Hu]%lookup_delete_Some. eauto.
Qed.

Lemma sched_ok_new r T R t th :
  sched_ok i r T R → T !! t = None → t ≠ 0 → status th = THREAD_BLOCKED → stack th = [] →
  sched_ok i r (<[t := th]> T) R.
Proof.
  intros HK Ht H0 Hs Hst. pose proof HK as [Hr Hri HR Hnd Hso Hid Hnu Hk].
  assert (∀ u uh, T !! u = Some uh → <[t := th]> T !! u = Some uh) as Hins.
  { intros u uh Hu. rewrite lookup_insert_ne; [done|]. congruence. }
  assert (t ≠ i) as Hti by (destruct Hid as (? & ? & _); congruence).
  split.
  - intros u uh Hu. lookups; [|by eauto]. rewrite Hs. split; [done|]. intros E%Hri.
    rewrite Ht in E. by destruct E.
  - intros u Hu. rewrite lookup_insert_is_Some'. auto.
  - intros u. rewrite HR. split; intros (uh & Hu & ? & ?); [eauto|]. lookups; [congruence|eauto].
  - done.
  - apply (Sorted_priorities T); [|done]. intros u (uh & Hu & _)%HR. unfold priority_of.
    by rewrite (Hins u uh), Hu.
  - destruct Hid as (ih & Hi & Hd). eauto.
  - by rewrite lookup_insert_ne.
  - intros u uh Hu. lookups; [|by eauto]. rewrite Hst. split; simpl; [constructor..|done|congruence].
Qed.
End sched_ok.

(** ** Who waits, and where *)
Definition news (t : Z) (th : thread) : Z := weigh (makes_ready t) (stack th).

Record wait_ok (i : Z) (T : gmap Z thread) (S : gmap sema_id semaphore) : Prop := {
  b_down : ∀ t th s old, T !! t = Some th → FDown s old ∈ stack th → is_Some (S !! s);
  b_wait : ∀ s sm t, S !! s = Some sm → t ∈ waiters sm → ∃ th old rest,
    T !! t = Some th ∧ status th = THREAD_BLOCKED ∧ stack th = FDown s old :: rest;
  b_nodup : ∀ s sm, S !! s = Some sm → NoDup (waiters sm);
  b_value : ∀ s sm, S !! s = Some sm → 0 ≤ value sm < 2 ^ 32;
  b_blocked : ∀ t th, T !! t = Some th → status th = THREAD_BLOCKED →
    t = i ∨
    (∃ s old rest sm, stack th = FDown s old :: rest ∧ S !! s = Some sm ∧ t ∈ waiters sm) ∨
    (stack th = [] ∧ total (news t) T = 1);
  b_new : ∀ t, 0 < total (news t) T → total (news t) T = 1 ∧ ∃ th,
    T !! t = Some th ∧ status th = THREAD_BLOCKED ∧ stack th = [] }.

Lemma news_nonneg t T : 0 ≤ total (news t) T.
Proof. apply total_nonneg. intros. apply weigh_nonneg, makes_ready_nonneg. Qed.

Lemma news_nil t th : stack th = [] → news t th = 0.
Proof. unfold news. by intros ->. Qed.

Section wait_ok.
Context (i : Z).
Implicit Types (T : gmap Z thread) (S : gmap sema_id semaphore).

Ltac lookups :=
  repeat match goal with
  | H : <[?t := _]> _ !! ?u = Some _ |- _ =>
      apply lookup_insert_Some in H as [[? ?]|[? H]]; subst
  end.

Lemma not_waiting T S t th :
  wait_ok i T S → T !! t = Some th → status th ≠ THREAD_BLOCKED →
  ∀ s sm, S !! s = Some sm → t ∉ waiters sm.
Proof. intros HB Ht Hs s sm Hsm Hin. apply (b_wait _ _ _ HB s) in Hin; [naive_solver|done]. Qed.

Lemma not_new T S t th :
  wait_ok i T S → T !! t = Some th → status th ≠ THREAD_BLOCKED ∨ stack th ≠ [] →
  total (news t) T = 0.
Proof.
  intros HB Ht Hs. pose proof (news_nonneg t T). destruct (decide (total (news t) T = 0)); [done|].
  destruct (b_new _ _ _ HB t) as (_ & th' & ? & ? & ?); [lia|]. naive_solver.
Qed.

(** A thread that waits for nothing changes and does not come to wait. *)
Lemma wait_ok_upd T S t th th' :
  wait_ok i T S → T !! t = Some th → (∀ s sm, S !! s = Some sm → t ∉ waiters sm) →
  status th ≠ THREAD_BLOCKED ∨ stack th ≠ [] → status th' ≠ THREAD_BLOCKED ∨ t = i →
  (∀ s old, FDown s old ∈ stack th' → is_Some (S !! s)) → (∀ u, news u th' = news u th) →
  wait_ok i (<[t := th']> T) S.
Proof.
  intros HB Ht Hnw Hs Hs' Hd Hn. pose proof (not_new _ _ _ _ HB Ht Hs) as Ht0.
  pose proof HB as [B1 B2 B3 B4 B5 B6].
  assert (∀ u, total (news u) (<[t := th']> T) = total (news u) T) as En
    by (intros u; by apply (total_same _ _ _ th)).
  split; [| |done|done| |].
  - intros u uh s old Hu Hin. lookups; eauto.
  - intros s sm u Hsm Hu. destruct (decide (u = t)) as [->|]; [by destruct (Hnw s sm)|].
    rewrite lookup_insert_ne by congruence. eauto.
  - intros u uh Hu Hb. rewrite En. lookups; [|by eauto]. left. naive_solver.
  - intros u. rewrite En. intros Hu. destruct (decide (u = t)) as [->|]; [lia|].
    rewrite lookup_insert_ne by congruence. eauto.
Qed.

Lemma wait_ok_same T S t th th' :
  wait_ok i T S → T !! t = Some th → status th' = status th → stack th' = stack th →
  wait_ok i (<[t := th']> T) S.
Proof.
  intros [B1 B2 B3 B4 B5 B6] Ht Hs Hst.
  assert (∀ u, total (news u) (<[t := th']> T) = total (news u) T) as En
    by (intros u; apply (total_same _ _ _ th); [done|unfold news; by rewrite Hst]).
  assert (∀ u uh, T !! u = Some uh → ∃ uh', <[t := th']> T !! u = Some uh' ∧
      status uh' = status uh ∧ stack uh' = stack uh) as Hf.
  { intros u uh Hu. destruct (decide (u = t)) as [->|]; [exists th'|exists uh].
    - rewrite lookup_insert_eq. by simplify_eq.
    - by rewrite lookup_insert_ne by congruence. }
  split; [| |done|done| |].
  - intros u uh s old Hu Hin. lookups; [rewrite Hst in Hin|]; eauto.
  - intros s sm u Hsm Hu. destruct (B2 s sm u Hsm Hu) as (uh & old & rest & Hu' & ? & ?).
    destruct (Hf u uh Hu') as (uh' & ? & ? & ?). exists uh', old, rest. split_and!; congruence.
  - intros u uh Hu Hb. rewrite En. lookups; [rewrite Hst|]; apply (B5 u); congruence.
  - intros u. rewrite En. intros Hu. destruct (B6 u Hu) as (? & uh & Hu' & ? & ?). split; [done|].
    destruct (Hf u uh Hu') as (uh' & ? & ? & ?). exists uh'. split_and!; congruence.
Qed.

Lemma wait_ok_value T S s sm v :
  wait_ok i T S → S !! s = Some sm → 0 ≤ v < 2 ^ 32 →
  wait_ok i T (<[s := mk_sema v (waiters sm)]> S).
Proof.
  intros [B1 B2 B3 B4 B5 B6] Hs Hv. split; [..|done].
  - intros t th s' old Ht Hin. rewrite lookup_insert_is_Some'. eauto.
  - intros s' sm' t Hs' Hin. lookups; eauto.
  - intros s' sm' Hs'. lookups; simpl; eauto.
  - intros s' sm' Hs'. lookups; simpl; eauto.
  - intros t th Ht Hb. destruct (B5 t th Ht Hb) as [?|[(s' & old & rest & sm' & ? & Hs' & ?)|?]]; [by left| |by right; right].
    right; left. destruct (decide (s' = s)) as [->|].
    + eexists s, old, rest, _. rewrite lookup_insert_eq. split_and!; [done..|]. simpl. congruence.
    + exists s', old, rest, sm'. by rewrite lookup_insert_ne.
Qed.

(** The first waiter becomes ready. *)
Lemma wait_ok_wake T S s sm v t ts th :
  wait_ok i T S → S !! s = Some sm → waiters sm = t :: ts → 0 ≤ v < 2 ^ 32 → T !! t = Some th →
  wait_ok i (<[t := set_status THREAD_READY th]> T) (<[s := mk_sema v ts]> S).
Proof.
  intros HB Hs Hw Hv Ht. pose proof HB as [B1 B2 B3 B4 B5 B6].
  destruct (B2 s sm t Hs) as (th' & old0 & rest0 & ? & Hb & Hst); [rewrite Hw; left|]. simplify_eq.
  assert (NoDup (t :: ts)) as [Htn Hnd]%NoDup_cons by (rewrite <-Hw; eauto).
  assert (total (news t) T = 0) as Ht0 by (eapply not_new; [done..|right; by rewrite Hst]).
  assert (∀ u, total (news u) (<[t := set_status THREAD_READY th]> T) = total (news u) T) as En
    by (intros u; by apply (total_same _ _ _ th)).
  split.
  - intros u uh s' old Hu Hin. rewrite lookup_insert_is_Some'. lookups; [simpl in Hin|]; eauto.
  - intros s' sm' u Hs' Hin. assert (u ≠ t) as Hut.
    { intros ->. lookups; [done|]. destruct (B2 s' sm' t Hs' Hin) as (? & ? & ? & ? & _ & ?). congruence. }
    rewrite lookup_insert_ne by congruence. lookups; [|by eauto].
    eapply B2; [done|]. rewrite Hw. by right.
  - intros s' sm' Hs'. lookups; simpl; eauto.
  - intros s' sm' Hs'. lookups; simpl; eauto.
  - intros u uh Hu Hbu. rewrite En. lookups; [done|].
    destruct (B5 u uh Hu Hbu) as [?|[(s' & old & rest & sm' & ? & Hs' & Hin)|?]]; [by left| |by right; right].
    right; left. destruct (decide (s' = s)) as [->|].
    + eexists s, old, rest, _. rewrite lookup_insert_eq. split_and!; [done..|]. simplify_eq.
      rewrite Hw in Hin. by apply elem_of_cons in Hin as [?|?].
    + exists s', old, rest, sm'. by rewrite lookup_insert_ne.
  - intros u. rewrite En. intros Hu. destruct (B6 u Hu) as (? & uh & ? & ? & ?).
    rewrite lookup_insert_ne; [by eauto|]. intros ->. lia.
Qed.

(** The running thread [c] blocks at the end of the queue of [s]. *)
Lemma wait_ok_block T S s sm c th th' old rest :
  wait_ok i T S → S !! s = Some sm → T !! c = Some th → status th ≠ THREAD_BLOCKED →
  status th' = THREAD_BLOCKED → stack th' = FDown s old :: rest → (∀ s old, FDown s old ∉ rest) →
  (∀ u, news u th' = news u th) →
  wait_ok i (<[c := th']> T) (<[s := mk_sema (value sm) (waiters sm ++ [c])]> S).
Proof.
  intros HB Hs Hc Hrun Hb' Hst Hd Hn. pose proof HB as [B1 B2 B3 B4 B5 B6].
  pose proof (not_waiting _ _ _ _ HB Hc Hrun) as Hnw.
  assert (total (news c) T = 0) as Hc0 by (eapply not_new; [done..|by left]).
  assert (∀ u, total (news u) (<[c := th']> T) = total (news u) T) as En
    by (intros u; by apply (total_same _ _ _ th)).
  split.
  - intros u uh s' old' Hu Hin. rewrite lookup_insert_is_Some'. lookups; [|by eauto].
    rewrite Hst in Hin. apply elem_of_cons in Hin as [?|Hin]; [simplify_eq; by left|by destruct (Hd s' old')].
  - intros s' sm' u Hs' Hin. destruct (decide (u = c)) as [->|].
    + exists th', old, rest. rewrite lookup_insert_eq. lookups; [done|]. by destruct (Hnw s' sm').
    + rewrite lookup_insert_ne by congruence. lookups; [|by eauto]. simpl in Hin.
      apply elem_of_app in Hin as [?|?%list_elem_of_singleton]; [eauto|done].
  - intros s' sm' Hs'. lookups; simpl; [|by eauto]. apply NoDup_app. split_and!; [by eauto| |apply NoDup_singleton].
    intros u Hu ->%list_elem_of_singleton. by destruct (Hnw s' sm).
  - intros s' sm' Hs'. lookups; simpl; eauto.
  - intros u uh Hu Hbu. rewrite En. lookups.
    + right; left. eexists s, old, rest, _. rewrite lookup_insert_eq. split_and!; [done..|].
      simpl. apply elem_of_app. right. by left.
    + destruct (B5 u uh Hu Hbu) as [?|[(s' & old' & rest' & sm' & ? & Hs' & Hin)|?]]; [by left| |by right; right].
      right; left. destruct (decide (s' = s)) as [->|]; [|exists s', old', rest', sm'; by rewrite lookup_insert_ne].
      eexists s, old', rest', _. rewrite lookup_insert_eq. split_and!; [done..|]. simplify_eq.
      simpl. apply elem_of_app. by left.
  - intros u. rewrite En. intros Hu. destruct (B6 u Hu) as (? & uh & ? & ? & ?).
    rewrite lookup_insert_ne; [by eauto|]. intros ->. lia.
Qed.

Lemma wait_ok_sema_init T S s v :
  wait_ok i T S → (∀ sm, S !! s = Some sm → waiters sm = []) → 0 ≤ v < 2 ^ 32 →
  wait_ok i T (<[s := mk_sema v []]> S).
Proof.
  intros [B1 B2 B3 B4 B5 B6] Hs Hv. split; [..|done].
  - intros t th s' old Ht Hin. rewrite lookup_insert_is_Some'. eauto.
  - intros s' sm' t Hs' Hin. lookups; [by apply not_elem_of_nil in Hin|eauto].
  - intros s' sm' Hs'. lookups; simpl; [constructor|eauto].
  - intros s' sm' Hs'. lookups; simpl; eauto.
  - intros t th Ht Hb. destruct (B5 t th Ht Hb) as [?|[(s' & old & rest & sm' & ? & Hs' & Hin)|?]]; [by left| |by right; right].
    right; left. exists s', old, rest, sm'. rewrite lookup_insert_ne; [done|]. intros ->.
    rewrite (Hs sm' Hs') in Hin. by apply not_elem_of_nil in Hin.
Qed.

Lemma wait_ok_delete T S t th :
  wait_ok i T S → T !! t = Some th → status th ≠ THREAD_BLOCKED → stack th = [] →
  wait_ok i (delete t T) S.
Proof.
  intros HB Ht Hs Hst. pose proof HB as [B1 B2 B3 B4 B5 B6].
  assert (∀ u, total (news u) (delete t T) = total (news u) T) as En.
  { intros u. rewrite (total_delete _ T t th), (news_nil u th); done. }
  assert (∀ u uh, T !! u = Some uh → status uh = THREAD_BLOCKED → delete t T !! u = Some uh) as Hdel.
  { intros u uh Hu Hd. rewrite lookup_delete_ne; [done|]. congruence. }
  split; [| |done|done| |].
  - intros u uh s old [_ Hu]%lookup_delete_Some. eauto.
  - intros s sm u Hsm Hu. destruct (B2 s sm u Hsm Hu) as (uh & old & rest & ? & ? & ?).
    exists uh, old, rest. auto.
  - intros u uh [_ Hu]%lookup_delete_Some Hb. rewrite En. eauto.
  - intros u. rewrite En. intros (? & uh & ? & ? & ?)%B6. eauto 6.
Qed.

(** The new thread [t], made known by the running thread [c], which will make
    it ready. *)
Lemma wait_ok_create T S c ch ch' t th :
  wait_ok i T S → T !! c = Some ch → status ch ≠ THREAD_BLOCKED → status ch' ≠ THREAD_BLOCKED →
  T !! t = None → status th = THREAD_BLOCKED → stack th = [] →
  (∀ s old, FDown s old ∈ stack ch' → is_Some (S !! s)) →
  (∀ u, news u ch' = news u ch + (if decide (u = t) then 1 else 0)) →
  wait_ok i (<[c := ch']> (<[t := th]> T)) S.
Proof.
  intros HB Hc Hr Hr' Ht Hs Hst Hd Hn. pose proof HB as [B1 B2 B3 B4 B5 B6].
  assert (c ≠ t) as Hct by congruence.
  assert (∀ u, total (news u) (<[c := ch']> (<[t := th]> T)) =
               total (news u) T + (if decide (u = t) then 1 else 0)) as En.
  { intros u. rewrite (total_upd _ _ c ch) by by rewrite lookup_insert_ne.
    rewrite total_insert_new by done. rewrite Hn, (news_nil u th) by done. lia. }
  assert (total (news t) T = 0) as Ht0.
  { pose proof (news_nonneg t T). destruct (decide (total (news t) T = 0)); [done|].
    destruct (B6 t) as (_ & ? & ? & _); [lia|congruence]. }
  assert (∀ u uh, T !! u = Some uh → status uh = THREAD_BLOCKED →
                  <[c := ch']> (<[t := th]> T) !! u = Some uh) as Hins.
  { intros u uh Hu Hb. rewrite !lookup_insert_ne; [done|congruence..]. }
  split; [| |done|done| |].
  - intros u uh s old Hu Hin. lookups; [by eauto|by rewrite Hst in Hin; apply not_elem_of_nil in Hin|by eauto].
  - intros s sm u Hsm Hu. destruct (B2 s sm u Hsm Hu) as (uh & old & rest & ? & ? & ?).
    exists uh, old, rest. auto.
  - intros u uh Hu Hb. rewrite En. lookups; [done|right; right; split; [done|]; rewrite decide_True by done; lia|].
    rewrite decide_False by done. rewrite Z.add_0_r. eauto.
  - intros u. rewrite En. case_decide as E; subst.
    + intros _. split; [lia|]. exists th. rewrite lookup_insert_ne, lookup_insert_eq by done. done.
    + rewrite Z.add_0_r. intros (? & uh & ? & ? & ?)%B6. eauto 6.
Qed.

(** The running thread [c] makes the new thread [t] ready. *)
Lemma wait_ok_make_ready T S c ch ch' t th th' :
  wait_ok i T S → T !! c = Some ch → status ch ≠ THREAD_BLOCKED → status ch' ≠ THREAD_BLOCKED →
  T !! t = Some th → status th' ≠ THREAD_BLOCKED →
  (∀ s old, FDown s old ∈ stack th' → is_Some (S !! s)) →
  (∀ s old, FDown s old ∈ stack ch' → is_Some (S !! s)) →
  (∀ u, news u ch' = news u ch - (if decide (u = t) then 1 else 0)) → (∀ u, news u th' = 0) →
  0 < total (news t) T →
  wait_ok i (<[t := th']> (<[c := ch']> T)) S.
Proof.
  intros HB Hc Hr Hr' Ht Hs Hd1 Hd2 Hn Hn' Hnew. pose proof HB as [B1 B2 B3 B4 B5 B6].
  destruct (B6 t Hnew) as (Ht1 & th0 & Ht' & Hb0 & Hst0). rewrite Ht' in Ht. injection Ht as <-.
  assert (c ≠ t) as Hct by congruence.
  assert (∀ u, total (news u) (<[t := th']> (<[c := ch']> T)) =
               total (news u) T - (if decide (u = t) then 1 else 0)) as En.
  { intros u. rewrite (total_upd _ _ t th0), (total_upd _ _ c ch) by (rewrite ?lookup_insert_ne; done).
    rewrite Hn, Hn', (news_nil u th0) by done. lia. }
  assert (∀ u uh, u ≠ t → T !! u = Some uh → status uh = THREAD_BLOCKED →
                  <[t := th']> (<[c := ch']> T) !! u = Some uh) as Hins.
  { intros u uh Hu ? Hb. rewrite !lookup_insert_ne; [done|congruence..]. }
  split; [| |done|done| |].
  - intros u uh s old Hu Hin. lookups; eauto.
  - intros s sm u Hsm Hu. destruct (B2 s sm u Hsm Hu) as (uh & old & rest & ? & ? & Hst).
    exists uh, old, rest. split_and!; [|done..]. apply Hins; [|done..]. intros ->. congruence.
  - intros u uh Hu Hb. rewrite En. lookups; [done|done|].
    rewrite decide_False by done. rewrite Z.sub_0_r. eauto.
  - intros u. rewrite En. case_decide as E; subst; [lia|].
    rewrite Z.sub_0_r. intros (? & uh & ? & ? & ?)%B6. eauto 7.
Qed.
End wait_ok.

(** ** Locks: at any time one share of each lock is somewhere *)
Definition held (h : Z) : Z := if decide (h = 0) then 0 else 1.
Definition shares (l : Z) (th : thread) : Z := weigh (lock_share l) (stack th).

Record lock_ok (T : gmap Z thread) (S : gmap sema_id semaphore) (H : gmap Z Z) : Prop := {
  l_lock : ∀ l h, H !! l = Some h → ∃ sm, S !! lock_sema l = Some sm ∧
    value sm + held h + total (shares l) T = 1;
  l_none : ∀ l, H !! l = None → S !! lock_sema l = None ∧ total (shares l) T = 0 }.

(** Each lock is untouched, or its share moves. *)
Lemma lock_ok_move T S H T' S' H' :
  lock_ok T S H →
  (∀ l, (H' !! l = H !! l ∧ S' !! lock_sema l = S !! lock_sema l ∧
         total (shares l) T' = total (shares l) T) ∨
        (∃ h h' sm sm', H !! l = Some h ∧ H' !! l = Some h' ∧
         S !! lock_sema l = Some sm ∧ S' !! lock_sema l = Some sm' ∧
         value sm' + held h' + total (shares l) T' = value sm + held h + total (shares l) T)) →
  lock_ok T' S' H'.
Proof.
  intros [L1 L2] Hm. split.
  - intros l h' Hh'. destruct (Hm l) as [(Eh & Es & Et)|(h & h'' & sm & sm' & Hh & Hh'' & Hs & Hs' & E)].
    + rewrite Es, Et. apply L1. congruence.
    + exists sm'. split; [done|]. destruct (L1 l h Hh) as (sm2 & ? & ?). simplify_eq. lia.
  - intros l Hl. destruct (Hm l) as [(Eh & Es & Et)|(h & h'' & sm & sm' & Hh & Hh'' & ?)]; [|congruence].
    rewrite Es, Et. apply L2. congruence.
Qed.

Lemma lock_ok_threads T S H T' :
  lock_ok T S H → (∀ l, total (shares l) T' = total (shares l) T) → lock_ok T' S H.
Proof. intros HL E. eapply lock_ok_move; [done|]. intros l. left. auto. Qed.

(** ** No wakeup is lost: a positive semaphore with waiters has a thread on its
    way to take it *)
Definition wake_ok (T : gmap Z thread) (S : gmap sema_id semaphore) : Prop :=
  ∀ s sm, S !! s = Some sm → waiters sm ≠ [] → value sm ≤ total (retrying s) T.

Lemma retrying_nonneg s th : 0 ≤ retrying s th.
Proof. unfold retrying, top_down. repeat case_match; lia. Qed.

Lemma wake_ok_move T S T' S' :
  wake_ok T S →
  (∀ s sm', S' !! s = Some sm' → waiters sm' ≠ [] → value sm' ≤ 0 ∨
     ∃ sm, S !! s = Some sm ∧ waiters sm ≠ [] ∧
       value sm' - value sm ≤ total (retrying s) T' - total (retrying s) T) →
  wake_ok T' S'.
Proof.
  intros HW Hm s sm' Hs Hw. destruct (Hm s sm' Hs Hw) as [?|(sm & Hs0 & Hw0 & ?)].
  - enough (0 ≤ total (retrying s) T') by lia. apply total_nonneg. intros. apply retrying_nonneg.
  - specialize (HW s sm Hs0 Hw0). lia.
Qed.

Lemma wake_ok_threads T S T' :
  wake_ok T S → (∀ s, total (retrying s) T ≤ total (retrying s) T') → wake_ok T' S.
Proof.
  intros HW E. eapply wake_ok_move; [done|]. intros s sm Hs Hw. right. exists sm.
  specialize (E s). split_and!; [done..|lia].
Qed.
