(* ===== verification/SchedProofs.v ===== *)
(** * The scheduler keeps its invariant

    Every step of the system preserves the invariant of SchedInv.v, so it holds
    in every state reachable from the end of thread_start ().  The theorems
    about scheduling and synchronization follow from it. *)

From Stdlib Require Import Sorted.
From S2P Require Import Prelude KListOps Thread Synch SchedInv.
Local Open Scope Z_scope.

Definition conds_ok (C : gmap Z (list sema_id)) : Prop :=
  ∀ c ws, C !! c = Some ws → Forall (λ s : sema_id, s.2 ≠ 4) ws.
Definition plain (st : list frame) : Prop := Forall (λ f, is_switch f = false) st.

Record inv (σ : sched) : Prop := {
  v_sched : sched_ok (idle_thread σ) (Some (running σ)) (threads σ) (ready_list σ);
  v_wait : wait_ok (idle_thread σ) (threads σ) (semas σ);
  v_lock : lock_ok (threads σ) (semas σ) (holders σ);
  v_wake : wake_ok (threads σ) (semas σ);
  v_ctx : in_external_intr σ = false;
  v_conds : conds_ok (conds σ);
  v_intr : plain (stack_of σ (running σ)) ∨ intr σ = false }.

(** In the middle of a switch. *)
Record mid (σ : sched) : Prop := {
  m_sched : sched_ok (idle_thread σ) None (threads σ) (ready_list σ);
  m_wait : wait_ok (idle_thread σ) (threads σ) (semas σ);
  m_lock : lock_ok (threads σ) (semas σ) (holders σ);
  m_wake : wake_ok (threads σ) (semas σ);
  m_ctx : in_external_intr σ = false;
  m_conds : conds_ok (conds σ);
  m_dying : ∀ th, threads σ !! running σ = Some th → status th = THREAD_DYING → stack th = [] }.

(** The running thread is in the middle of a frame that it has taken off its
    stack: the rest of the stack holds calls only. *)
Definition inv_in (σ : sched) : Prop := inv σ ∧ plain (stack_of σ (running σ)).

(** Case analysis on a decision in the goal. *)
Ltac decide_goal H :=
  match goal with |- context [bool_decide ?P] => destruct (bool_decide_reflect P) as [H|H] end.

Ltac split_inv H := destruct H as [?Hsch ?Hwt ?Hlk ?Hwk ?Hctx ?Hcd ?Hin].

Lemma shares_same_stack l th th' : stack th' = stack th → shares l th' = shares l th.
Proof. unfold shares. by intros ->. Qed.
Lemma news_same_stack t th th' : stack th' = stack th → news t th' = news t th.
Proof. unfold news. by intros ->. Qed.

(** ** Symbolic execution of the kernel's functions *)
Section steps.
Context (σ : sched).

Lemma wlp_load_thread t Q :
  (∀ th, threads σ !! t = Some th → Q th σ) → wlp (load_thread t) σ Q.
Proof. intros HQ. unfold load_thread. by repeat wlp_step; apply HQ. Qed.

Lemma wlp_upd_thread t f Q :
  (∀ th, threads σ !! t = Some th → Q tt (set_threads (<[t := f th]> (threads σ)) σ)) →
  wlp (upd_thread t f) σ Q.
Proof. intros HQ. unfold upd_thread, load_thread. by repeat wlp_step; apply HQ. Qed.

Lemma wlp_push f Q :
  (∀ th, threads σ !! running σ = Some th →
    Q tt (set_threads (<[running σ := set_stack (f :: stack th) th]> (threads σ)) σ)) →
  wlp (push f) σ Q.
Proof. intros HQ. unfold push. wlp_step. wlp_step. by apply wlp_upd_thread. Qed.

Lemma wlp_thread_current Q :
  (∀ th, threads σ !! running σ = Some th → status th = THREAD_RUNNING → Q (running σ) σ) →
  wlp thread_current σ Q.
Proof.
  intros HQ. unfold thread_current, running_thread, is_thread, load_thread. repeat wlp_step.
  apply (HQ a); [done|]. by eapply bool_decide_eq_true_1.
Qed.

Lemma wlp_intr_disable Q : Q (intr σ) (set_intr false σ) → wlp intr_disable σ Q.
Proof. intros HQ. unfold intr_disable, intr_get_level. by repeat wlp_step. Qed.

Lemma wlp_intr_enable Q :
  (in_external_intr σ = false → Q (intr σ) (set_intr true σ)) → wlp intr_enable σ Q.
Proof.
  intros HQ. unfold intr_enable, intr_get_level, intr_context. repeat wlp_step. apply HQ.
  by destruct (in_external_intr σ).
Qed.

Lemma wlp_intr_set_level b Q :
  ((b = true → in_external_intr σ = false) → Q (intr σ) (set_intr b σ)) →
  wlp (intr_set_level b) σ Q.
Proof.
  intros HQ. unfold intr_set_level. destruct b; [apply wlp_intr_enable|apply wlp_intr_disable]; auto.
  by apply HQ.
Qed.

Lemma wlp_load_sema s Q : (∀ sm, semas σ !! s = Some sm → Q sm σ) → wlp (load_sema s) σ Q.
Proof. intros HQ. unfold load_sema. by repeat wlp_step; apply HQ. Qed.

Lemma wlp_store_sema s v ws Q :
  Q tt (set_semas (<[s := mk_sema v ws]> (semas σ)) σ) → wlp (store_sema s v ws) σ Q.
Proof. intros HQ. unfold store_sema. by wlp_step. Qed.

Lemma wlp_load_holder l Q : (∀ h, holders σ !! l = Some h → Q h σ) → wlp (load_holder l) σ Q.
Proof. intros HQ. unfold load_holder. by repeat wlp_step; apply HQ. Qed.

Lemma wlp_load_cond c Q : (∀ ws, conds σ !! c = Some ws → Q ws σ) → wlp (load_cond c) σ Q.
Proof. intros HQ. unfold load_cond. by repeat wlp_step; apply HQ. Qed.

Lemma wlp_held l Q :
  (∀ h th, l ≠ 0 → holders σ !! l = Some h → threads σ !! running σ = Some th →
    Q (bool_decide (h = running σ)) σ) → wlp (lock_held_by_current_thread l) σ Q.
Proof.
  intros HQ. unfold lock_held_by_current_thread. wlp_step. wlp_step. wlp_step.
  apply wlp_load_holder. intros h Hh. wlp_step. apply wlp_thread_current. intros th Hth _. wlp_step.
  apply (HQ h th); [|done..]. by eapply bool_decide_eq_true_1.
Qed.
End steps.

Ltac kstep :=
  lazymatch goal with
  | |- wlp (load_thread _) _ _ => apply wlp_load_thread; intros ?th ?Hth
  | |- wlp (upd_thread _ _) _ _ => apply wlp_upd_thread; intros ?th ?Hth
  | |- wlp (push _) _ _ => apply wlp_push; intros ?th ?Hth
  | |- wlp thread_current _ _ => apply wlp_thread_current; intros ?th ?Hth ?Hrun
  | |- wlp intr_disable _ _ => apply wlp_intr_disable
  | |- wlp intr_enable _ _ => apply wlp_intr_enable; intros ?
  | |- wlp (intr_set_level _) _ _ => apply wlp_intr_set_level; intros ?
  | |- wlp (load_sema _) _ _ => apply wlp_load_sema; intros ?sm ?Hsm
  | |- wlp (store_sema _ _ _) _ _ => apply wlp_store_sema
  | |- wlp (load_holder _) _ _ => apply wlp_load_holder; intros ?h ?Hh
  | |- wlp (load_cond _) _ _ => apply wlp_load_cond; intros ?ws ?Hws
  | |- wlp (lock_held_by_current_thread _) _ _ => apply wlp_held; intros ?h ?th ?Hl ?Hh ?Hth
  | |- wlp intr_get_level _ _ => apply wlp_gets
  | |- wlp intr_context _ _ => apply wlp_gets
  | |- wlp running_thread _ _ => apply wlp_gets
  | |- _ => wlp_step
  end.
Ltac ksteps := repeat (kstep; simpl in *; simplify_eq).

(** ** schedule *)
Section schedule.
Implicit Types (T : gmap Z thread) (S : gmap sema_id semaphore) (H : gmap Z Z).

Lemma idle_not_waiting i r T R S t th :
  sched_ok i r T R → wait_ok i T S → T !! t = Some th →
  status th = THREAD_READY ∨ t = i →
  (∀ s sm, S !! s = Some sm → t ∉ waiters sm) ∧ (status th ≠ THREAD_BLOCKED ∨ stack th ≠ []).
Proof.
  intros HK HB Ht [Hs| ->].
  - split; [|left; congruence]. eapply not_waiting; [done..|congruence].
  - destruct (k_stack _ _ _ _ HK i th Ht) as [Hal _ _ Hid]. split.
    + intros s sm Hs Hin. destruct (b_wait _ _ _ HB s sm i Hs Hin) as (th' & old & rest & ? & _ & Hst).
      simplify_eq. rewrite Hst in Hal. inversion Hal as [|?? Ha]. by rewrite bool_decide_true in Ha by done.
    + right. intros E. specialize (Hid eq_refl). by rewrite E in Hid.
Qed.

Lemma start_ok i T R R' S H t th :
  sched_ok i None T R → wait_ok i T S → lock_ok T S H → wake_ok T S →
  T !! t = Some th → (R = t :: R' ∨ R = R' ∧ t = i) →
  let T' := <[t := set_status THREAD_RUNNING th]> T in
  sched_ok i (Some t) T' R' ∧ wait_ok i T' S ∧ lock_ok T' S H ∧ wake_ok T' S.
Proof.
  intros HK HB HL HW Ht HR T'.
  assert (status th = THREAD_READY ∨ t = i) as Hs.
  { destruct HR as [->|[_ ->]]; [left|by right].
    destruct (proj1 (k_ready _ _ _ _ HK t)) as (? & ? & ? & _); [left|congruence]. }
  destruct (idle_not_waiting _ _ _ _ _ _ _ HK HB Ht Hs) as [Hnw Hnn].
  assert (status th ≠ THREAD_DYING) as Hd.
  { destruct Hs as [Hs| ->]; [congruence|]. destruct (k_idle _ _ _ _ HK) as (? & ? & ?). congruence. }
  split_and!.
  - by eapply sched_ok_start.
  - eapply wait_ok_upd; [done..|by left| |done]. intros s old Hin. by eapply (b_down _ _ _ HB t th).
  - apply (lock_ok_threads T); [done|]. intros l. by apply (total_same _ _ _ th).
  - apply (wake_ok_threads T); [done|]. intros s. unfold T'. rewrite (total_upd _ _ t th) by done.
    enough (retrying s th ≤ retrying s (set_status THREAD_RUNNING th)) by lia.
    pose proof (retrying_nonneg s (set_status THREAD_RUNNING th)) as Hr. unfold retrying in *. simpl in *.
    destruct (status th); lia.
Qed.

Lemma delete_ok i r T R S H t th :
  sched_ok i r T R → wait_ok i T S → lock_ok T S H → wake_ok T S →
  T !! t = Some th → status th = THREAD_DYING → stack th = [] →
  let T' := delete t T in
  sched_ok i r T' R ∧ wait_ok i T' S ∧ lock_ok T' S H ∧ wake_ok T' S.
Proof.
  intros HK HB HL HW Ht Hs Hst T'.
  assert (∀ w, w th = 0 → total w T' = total w T) as E.
  { intros w Hw. rewrite (total_delete w T t th) by done. fold T'. lia. }
  split_and!.
  - by eapply sched_ok_delete.
  - eapply wait_ok_delete; [done..|congruence|done].
  - apply (lock_ok_threads T); [done|]. intros l. apply E. unfold shares. by rewrite Hst.
  - apply (wake_ok_threads T); [done|]. intros s. rewrite E; [done|]. unfold retrying.
    rewrite Hst. by destruct (status th).
Qed.

(** thread_schedule_tail (), when [t] has been given the processor. *)
Lemma wlp_schedule_tail σ R t prev :
  sched_ok (idle_thread σ) None (threads σ) R → wait_ok (idle_thread σ) (threads σ) (semas σ) →
  lock_ok (threads σ) (semas σ) (holders σ) → wake_ok (threads σ) (semas σ) →
  in_external_intr σ = false → conds_ok (conds σ) → running σ = t →
  (R = t :: ready_list σ ∨ R = ready_list σ ∧ t = idle_thread σ) →
  (∀ th, threads σ !! prev = Some th → status th = THREAD_DYING → stack th = []) →
  wlp (thread_schedule_tail prev) σ (λ _ σ', inv σ' ∧ running σ' = t ∧ ready_list σ' = ready_list σ ∧
    (∀ u uh, threads σ' !! u = Some uh → ∃ uh', threads σ !! u = Some uh' ∧ priority uh = priority uh')).
Proof.
  intros HK HB HL HW Hctx Hcd Hrun HR Hdy.
  unfold thread_schedule_tail, running_thread, intr_get_level, upd_thread, load_thread.
  repeat wlp_step. subst t. rename a into th.
  destruct (start_ok _ _ _ _ _ _ _ _ HK HB HL HW ltac:(eassumption) HR) as (HK' & HB' & HL' & HW').
  assert (Hintr : intr σ = false) by by destruct (intr σ).
  assert (∀ u uh, <[running σ:=set_status THREAD_RUNNING th]> (threads σ) !! u = Some uh →
    ∃ uh', threads σ !! u = Some uh' ∧ priority uh = priority uh') as Hpr.
  { intros u uh [[<- <-]|[? Hu]]%lookup_insert_Some; eauto. }
  case_bool_decide as Hp0; [|wlp_step; split; [split; simpl; auto|by simpl]].
  repeat wlp_step. rename a into p. simpl in *.
  destruct (bool_decide (status p = THREAD_DYING)) eqn:Hd; simpl;
    [|wlp_step; split; [split; simpl; auto|by simpl]].
  apply bool_decide_eq_true in Hd.
  case_bool_decide; [|wlp_step; split; [split; simpl; auto|by simpl]].
  repeat wlp_step. simpl in *.
  match goal with Hne : bool_decide (prev ≠ _) = true |- _ => apply bool_decide_eq_true in Hne end.
  match goal with Hp : <[_ := _]> _ !! prev = Some p |- _ => rename Hp into Hpl end.
  destruct (delete_ok _ _ _ _ _ _ prev p HK' HB' HL' HW' Hpl Hd) as (HK2 & HB2 & HL2 & HW2).
  { apply Hdy; [|done]. by rewrite lookup_insert_ne in Hpl by congruence. }
  split; [by split; simpl; auto|split_and!; [done..|]].
  simpl. intros u uh [_ Hu]%lookup_delete_Some. eauto.
Qed.

Lemma wlp_schedule σ :
  mid σ → wlp schedule σ (λ _ σ', inv σ' ∧
    (∀ u uh, threads σ' !! u = Some uh → ∃ uh', threads σ !! u = Some uh' ∧ priority uh = priority uh') ∧
    (ready_list σ = [] ∧ running σ' = idle_thread σ ∧ ready_list σ' = [] ∨
     ∃ R', ready_list σ = running σ' :: R' ∧ ready_list σ' = R')).
Proof.
  intros [HK HB HL HW Hctx Hcd Hdy].
  unfold schedule, running_thread, next_thread_to_run, intr_get_level, load_thread, is_thread.
  repeat wlp_step. destruct (ready_list σ) as [|t R] eqn:ER; repeat wlp_step; simpl in *.
  - decide_goal Hne; [repeat wlp_step|apply dec_stable in Hne]; (eapply wlp_mono; [eapply wlp_schedule_tail|]); simpl;
      try done; try (by rewrite ER; right); try (rewrite ER; tauto).
    intros th Hth. by rewrite (k_null _ _ _ _ HK) in Hth.
  - decide_goal Hne; [repeat wlp_step|apply dec_stable in Hne]; (eapply wlp_mono; [eapply wlp_schedule_tail|]); simpl;
      try done; try (by left).
    + intros _ σ' (? & <- & <- & ?). eauto 6.
    + intros th Hth. by rewrite (k_null _ _ _ _ HK) in Hth.
    + intros _ σ' (? & <- & <- & ?). split_and!; [done..|]. right. eauto.
Qed.
End schedule.

(** ** Changes of the running thread *)
Section running.
Context (σ : sched) (Hinv : inv σ).
Context (th : thread) (Hth : threads σ !! running σ = Some th).
Notation c := (running σ).
Notation i := (idle_thread σ).

Lemma running_status : status th = THREAD_RUNNING.
Proof. by apply (k_run _ _ _ _ (v_sched _ Hinv) c th Hth). Qed.

Lemma running_stack : stack_ok i c (stack th).
Proof. by apply (k_stack _ _ _ _ (v_sched _ Hinv)). Qed.

Lemma running_retrying s th' : status th' = THREAD_RUNNING → retrying s th' = top_down s (stack th').
Proof. unfold retrying. by intros ->. Qed.

(** The running thread takes frame [f] off its stack. *)
Lemma pop_ok f rest :
  stack th = f :: rest → (∀ t, makes_ready t f = 0) → (c = i → last rest = Some CIdleLoop) →
  let T' := <[c := set_stack rest th]> (threads σ) in
  sched_ok i (Some c) T' (ready_list σ) ∧ wait_ok i T' (semas σ) ∧
  (∀ l, total (shares l) T' = total (shares l) (threads σ) - lock_share l f) ∧
  (∀ s, total (retrying s) T' = total (retrying s) (threads σ) - top_down s [f]) ∧ plain rest.
Proof using Hinv Hth.
  intros Hst Hnew Hlast T'. pose proof running_status as Hr. pose proof running_stack as Hok.
  rewrite Hst in Hok. destruct Hok as [Hal Hsw Hac _]. simpl in Hsw. inversion Hal as [|?? Hf Hal']; subst.
  assert (stack_ok i c rest) as Hok'.
  { split; [done| |by destruct Hac|done]. destruct rest; [constructor|]. by inversion Hsw. }
  assert (∀ s, top_down s rest = 0) as Htop.
  { intros s. destruct rest as [|[]]; try done. by inversion Hsw. }
  split_and!.
  - eapply sched_ok_same; [apply Hinv|done..].
  - eapply wait_ok_upd; [apply Hinv|done| |by left; rewrite Hr|left; by simpl; rewrite Hr| |].
    + eapply not_waiting; [apply Hinv|done|by rewrite Hr].
    + simpl. intros s old Hin. apply (b_down _ _ _ (v_wait _ Hinv) c th s old); [done|].
      rewrite Hst. by right.
    + intros u. unfold news. rewrite Hst. simpl. by rewrite Hnew.
  - intros l. unfold T'. rewrite (total_upd _ _ c th) by done. unfold shares at 2 3. rewrite Hst. simpl. lia.
  - intros s. unfold T'. rewrite (total_upd _ _ c th) by done. rewrite !running_retrying by done.
    rewrite Hst. simpl. rewrite Htop. destruct f; simpl; lia.
  - done.
Qed.

(** It changes without a change of the weights of its stack. *)
Lemma upd_ok th' :
  status th' = THREAD_RUNNING → stack_ok i c (stack th') →
  (∀ s old, FDown s old ∈ stack th' → FDown s old ∈ stack th) →
  (∀ l, shares l th' = shares l th) → (∀ u, news u th' = news u th) →
  (∀ s, top_down s (stack th) ≤ top_down s (stack th')) →
  plain (stack th') ∨ intr σ = false →
  inv (set_threads (<[c := th']> (threads σ)) σ).
Proof using Hinv Hth.
  intros Hs Hok Hd Hsh Hn Htop Hi. pose proof running_status as Hr.
  pose proof Hinv as [HK HB HL HW Hctx Hcd Hin]. split; simpl; [..|done|done|].
  - eapply sched_ok_same; [done..|by rewrite Hr|by rewrite Hr|done].
  - eapply wait_ok_upd; [done..| |by left; rewrite Hr|left; by rewrite Hs| |done].
    + eapply not_waiting; [done..|by rewrite Hr].
    + intros s old Hin'. eapply (b_down _ _ _ HB c th s); [done|]. by apply Hd.
  - apply (lock_ok_threads (threads σ)); [done|]. intros l. by apply (total_same _ _ _ th).
  - apply (wake_ok_threads (threads σ)); [done|]. intros s. rewrite (total_upd _ _ c th) by done.
    rewrite !running_retrying by done. specialize (Htop s). lia.
  - unfold stack_of. simpl. by rewrite lookup_insert_eq.
Qed.
End running.

(** A frame that stands for no share of a lock, for no new thread and for no
    second test of a semaphore. *)
Definition weightless (f : frame) : Prop :=
  (∀ l, lock_share l f = 0) ∧ (∀ t, makes_ready t f = 0) ∧ (∀ s, top_down s [f] = 0).

(** Frames that can be put on any stack. *)
Record pushable (σ : sched) (fs : list frame) : Prop := {
  p_allowed : Forall (λ f, allowed (bool_decide (running σ = idle_thread σ)) f = true) fs;
  p_plain : plain fs;
  p_nested : ∀ st, nested st → nested (fs ++ st);
  p_shares : ∀ l, weigh (lock_share l) fs = 0;
  p_news : ∀ t, weigh (makes_ready t) fs = 0 }.

Lemma weigh_app w st st' : weigh w (st ++ st') = weigh w st + weigh w st'.
Proof. induction st as [|f st IH]; simpl; [done|]. rewrite IH. lia. Qed.

Lemma stack_of_lookup σ t th : threads σ !! t = Some th → stack_of σ t = stack th.
Proof. unfold stack_of. by intros ->. Qed.

Lemma plain_no_down st s old : plain st → FDown s old ∉ st.
Proof. intros Hp Hin. by apply (proj1 (Forall_forall _ _) Hp) in Hin. Qed.

Lemma plain_top_down st s : plain st → top_down s st = 0.
Proof. intros Hp. destruct st as [|[] ?]; try done. by inversion Hp. Qed.

Lemma stack_ok_push i c fs st :
  stack_ok i c st → plain st → Forall (λ f, allowed (bool_decide (c = i)) f = true) fs →
  plain (tail fs) → nested (fs ++ st) → stack_ok i c (fs ++ st).
Proof.
  intros [Hal Hsw Hac Hid] Hpl Hfs Hpf Hac'. split.
  - by apply Forall_app.
  - destruct fs as [|f fs]; [done|]. simpl in *. by apply Forall_app.
  - done.
  - intros E. specialize (Hid E). destruct st as [|x st _] using rev_ind; [done|].
    rewrite app_assoc, last_snoc. by rewrite last_snoc in Hid.
Qed.

Lemma wlp_pushes σ fs :
  inv_in σ → pushable σ fs → wlp (pushes fs) σ (λ _ σ', inv_in σ').
Proof.
  intros [Hinv Hpl] [Hal Hp Hac Hsh Hn]. unfold pushes, upd_thread, load_thread. repeat wlp_step.
  rename a into th. rewrite (stack_of_lookup _ _ _ H) in Hpl.
  assert (plain (fs ++ stack th)) as Hpl' by by apply Forall_app.
  split; [|unfold stack_of; simpl; by rewrite lookup_insert_eq].
  pose proof (running_stack _ Hinv _ H) as Hok.
  apply (upd_ok σ Hinv th H); simpl.
  - by eapply running_status.
  - apply stack_ok_push; [done..| |by apply Hac, Hok]. destruct fs; [done|]. by inversion Hp.
  - intros s old Hin. by apply plain_no_down in Hin.
  - intros l. unfold shares. simpl. by rewrite weigh_app, Hsh.
  - intros u. unfold news. simpl. by rewrite weigh_app, Hn.
  - intros s. by rewrite !plain_top_down.
  - by left.
Qed.

(** The parts of the state that the invariant does not mention. *)
Lemma inv_in_intr σ b : inv_in σ → inv_in (set_intr b σ).
Proof. intros [[] ?]. by repeat (split; [split; simpl; auto|]). Qed.

Lemma pop_inv σ th f rest :
  inv σ → threads σ !! running σ = Some th → stack th = f :: rest → weightless f →
  (running σ = idle_thread σ → last rest = Some CIdleLoop) →
  inv_in (set_threads (<[running σ := set_stack rest th]> (threads σ)) σ).
Proof.
  intros Hinv Hth Hst (W1 & W2 & W3) Hlast.
  destruct (pop_ok σ Hinv th Hth f rest Hst W2 Hlast) as (HK & HB & HL & HW & Hpl).
  assert (plain (stack_of (set_threads (<[running σ := set_stack rest th]> (threads σ)) σ) (running σ))) as Hpl'.
  { unfold stack_of. simpl. by rewrite lookup_insert_eq. }
  split; [|done]. split; simpl; [done..| | |apply Hinv|apply Hinv|by left].
  - apply (lock_ok_threads (threads σ)); [apply Hinv|]. intros l. rewrite HL, W1. lia.
  - apply (wake_ok_threads (threads σ)); [apply Hinv|]. intros s. rewrite HW, W3. lia.
Qed.

(** ** Yielding *)

(** Nobody who is ready has a higher priority than the running thread. *)
Definition highest_runs (σ : sched) : Prop :=
  ∀ t, t ∈ ready_list σ → priority_of (threads σ) t ≤ priority_of (threads σ) (running σ).

Lemma Sorted_before_head T t R : Sorted (before T) (t :: R) → Forall (λ u, priority_of T u ≤ priority_of T t) R.
Proof.
  intros Hs. apply Sorted_StronglySorted in Hs; [by inversion Hs|]. unfold before. intros a b d. lia.
Qed.

(** The running thread gives up the processor, ready to go on. *)
Lemma mid_yield σ th old :
  inv_in σ → threads σ !! running σ = Some th →
  mid (set_threads (<[running σ := set_stack (FYield old :: stack th) (set_status THREAD_READY th)]> (threads σ))
        (set_ready (if bool_decide (running σ ≠ idle_thread σ)
                    then insert_ordered (prioritycmp (threads σ)) (running σ) (ready_list σ)
                    else ready_list σ) (set_intr false σ))).
Proof.
  intros [Hinv Hpl] Hth. pose proof (running_status _ Hinv _ Hth) as Hr.
  pose proof (running_stack _ Hinv _ Hth) as Hok. rewrite (stack_of_lookup _ _ _ Hth) in Hpl.
  assert (stack_ok (idle_thread σ) (running σ) (FYield old :: stack th)) as Hok'.
  { apply (stack_ok_push _ _ [_]); [done..|by repeat constructor|constructor|by split; [|apply Hok]]. }
  split; simpl; try apply Hinv.
  - eapply sched_ok_stop; [apply Hinv|done|done|done|done| |done|].
    + intros [?|E]; [done|]. by rewrite bool_decide_false by naive_solver.
    + intros _ E. by rewrite bool_decide_true.
  - eapply wait_ok_upd; [apply Hinv|done| |by left; rewrite Hr|by left| |done].
    + eapply not_waiting; [apply Hinv|done|by rewrite Hr].
    + simpl. intros s o [?|Hin]%elem_of_cons; [done|]. by apply plain_no_down in Hin.
  - apply (lock_ok_threads (threads σ)); [apply Hinv|]. intros l. by apply (total_same _ _ _ th).
  - apply (wake_ok_threads (threads σ)); [apply Hinv|]. intros s. rewrite (total_upd _ _ _ th) by done.
    rewrite (running_retrying s th) by done. rewrite plain_top_down by done. unfold retrying at 3.
    simpl. lia.
  - intros th'. rewrite lookup_insert_eq. by intros [= <-].
Qed.

Lemma mid_yield_highest σ : mid σ → wlp schedule σ (λ _ σ', inv σ' ∧ highest_runs σ').
Proof.
  intros Hmid. eapply wlp_mono; [by apply wlp_schedule|]. simpl.
  intros _ σ' (Hinv & Hpr & Hcase). split; [done|]. intros t Ht.
  destruct Hcase as [(_ & _ & E)|(R' & E & ER')]; [rewrite E in Ht; by apply not_elem_of_nil in Ht|].
  pose proof (k_sorted _ _ _ _ (m_sched _ Hmid)) as Hs. rewrite E in Hs. apply Sorted_before_head in Hs.
  assert (∀ u, u ∈ running σ' :: R' → is_Some (threads σ' !! u)) as Hin.
  { intros u [->|Hu]%elem_of_cons; [by apply (k_run_in _ _ _ _ (v_sched _ Hinv))|].
    rewrite <-ER' in Hu. apply (k_ready _ _ _ _ (v_sched _ Hinv)) in Hu as (? & ? & _). eauto. }
  assert (∀ u, u ∈ running σ' :: R' → priority_of (threads σ') u = priority_of (threads σ) u) as Ep.
  { intros u [uh Hu]%Hin. destruct (Hpr u uh Hu) as (uh' & Hu' & ?). unfold priority_of. by rewrite Hu, Hu'. }
  rewrite ER' in Ht. rewrite (Ep t), (Ep (running σ')); [|by left|by right]. by apply (proj1 (Forall_forall _ _) Hs).
Qed.

Lemma wlp_front_priority σ :
  inv σ → wlp front_priority σ (λ p σ', σ' = σ ∧ ∀ t, t ∈ ready_list σ → priority_of (threads σ) t ≤ p).
Proof.
  intros Hinv. unfold front_priority. kstep. kstep. destruct (ready_list σ) as [|u R] eqn:ER; ksteps.
  - split; [done|]. by intros t ?%not_elem_of_nil.
  - split; [done|]. pose proof (k_sorted _ _ _ _ (v_sched _ Hinv)) as Hs. rewrite ER in Hs.
    apply Sorted_before_head in Hs. unfold priority_of at 2 in Hs. rewrite Hth in Hs.
    intros t [->|Hin]%elem_of_cons; [unfold priority_of; by rewrite Hth|].
    by apply (proj1 (Forall_forall _ _) Hs).
Qed.

Lemma wlp_thread_yield σ :
  inv_in σ → wlp thread_yield σ (λ _ σ', inv σ' ∧ highest_runs σ').
Proof.
  intros Hin. pose proof Hin as [Hinv Hpl]. unfold thread_yield. ksteps.
  eapply wlp_mono; [by apply wlp_front_priority|]. simpl. intros p σ' [-> Hp].
  destruct (Z.ltb_spec p (priority th)) as [Hlt|_]; ksteps.
  { split; [done|]. intros t Ht%Hp. unfold priority_of at 2. rewrite Hth. lia. }
  pose proof (mid_yield σ th (intr σ) Hin Hth) as Hmid.
  destruct (bool_decide (running σ ≠ idle_thread σ)); unfold insert_ready; ksteps;
    rewrite lookup_insert_eq in *; simplify_eq; (rewrite insert_insert_eq; by apply mid_yield_highest in Hmid).
Qed.

(** ** Semaphores *)
Lemma lock_of_sema T S H l sm :
  lock_ok T S H → S !! lock_sema l = Some sm → ∃ h, H !! l = Some h.
Proof.
  intros HL Hsm. destruct (H !! l) as [h|] eqn:Hh; [by exists h|].
  destruct (l_none _ _ _ HL l Hh). congruence.
Qed.

Section down.
Context (σ : sched) (T : gmap Z thread) (th : thread) (s : sema_id).
Notation c := (running σ).
Notation i := (idle_thread σ).
Context (HK : sched_ok i (Some c) (threads σ) (ready_list σ)).
Context (HB : wait_ok i (threads σ) (semas σ)).
Context (HL : lock_ok T (semas σ) (holders σ)) (HW : wake_ok T (semas σ)).
Context (Hctx : in_external_intr σ = false) (Hcd : conds_ok (conds σ)).
Context (Hth : threads σ !! c = Some th) (Hpl : plain (stack th)) (Hci : c ≠ i).
Context (Hacq : s.2 = 4 → head (stack th) = Some (CSetHolder s.1)).
(** [T] are the threads before the running one took the frame that waits for
    [s] off its stack. *)
Context (Hsh : ∀ l, total (shares l) (threads σ) =
                    total (shares l) T + (if decide (s = lock_sema l) then 1 else 0)).
Context (Hre : ∀ s', total (retrying s') T - (if decide (s' = s) then 1 else 0) ≤
                     total (retrying s') (threads σ)).

Let Hrun : status th = THREAD_RUNNING.
Proof. by apply (k_run _ _ _ _ HK c th Hth). Qed.

Lemma down_taken old sm :
  semas σ !! s = Some sm → value sm ≠ 0 →
  inv (set_intr old (set_semas (<[s := mk_sema (u32 (value sm - 1)) (waiters sm)]> (semas σ)) σ)).
Proof.
  intros Hsm Hv. pose proof (b_value _ _ _ HB s sm Hsm) as Hb. rewrite wrap_small by lia.
  split; simpl; [done|by apply wait_ok_value; [..|lia]| | |done|done|].
  - eapply lock_ok_move; [done|]. intros l. rewrite Hsh. case_decide as E; subst.
    + destruct (lock_of_sema _ _ _ l sm HL Hsm) as [h Hh]. right.
      exists h, h, sm, (mk_sema (value sm - 1) (waiters sm)).
      rewrite lookup_insert_eq. split_and!; [done..|]. simpl. lia.
    + left. split_and!; [done| |lia]. by rewrite lookup_insert_ne.
  - eapply wake_ok_move; [done|]. intros s' sm' Hs' Hw. right. specialize (Hre s').
    apply lookup_insert_Some in Hs' as [[<- <-]|[Hne Hs']]; simpl in *.
    + rewrite decide_True in Hre by done. exists sm. split_and!; [done..|lia].
    + rewrite decide_False in Hre by done. exists sm'. split_and!; [done..|lia].
  - left. unfold stack_of. simpl. by rewrite Hth.
Qed.

Lemma down_blocks old sm :
  semas σ !! s = Some sm → value sm = 0 →
  mid (set_threads (<[c := set_status THREAD_BLOCKED (set_stack (FDown s old :: stack th) th)]> (threads σ))
        (set_semas (<[s := mk_sema (value sm) (waiters sm ++ [c])]> (semas σ)) σ)).
Proof.
  intros Hsm Hv. set (th' := set_status _ _).
  assert (∀ w, total w (<[c := th']> (threads σ)) = total w (threads σ) - w th + w th') as Et
    by (intros w; by apply total_upd).
  split; simpl; [| | | |done|done|].
  - eapply sched_ok_stop; [done..| |done| |done|done]; [|done].
    apply (stack_ok_push _ _ [_]); [by eapply k_stack|done| |constructor|].
    + repeat constructor. simpl. by rewrite bool_decide_false.
    + split; [done|]. by eapply so_nested, k_stack.
  - eapply wait_ok_block; [done..|by rewrite Hrun|done|done| |done].
    intros s' old'. by apply plain_no_down.
  - eapply lock_ok_move; [done|]. intros l. rewrite Et, Hsh.
    assert (shares l th' = shares l th + (if decide (s = lock_sema l) then -1 else 0)) as -> by (unfold shares; simpl; lia).
    case_decide as E; subst.
    + destruct (lock_of_sema _ _ _ l sm HL Hsm) as [h Hh]. right.
      exists h, h, sm, (mk_sema (value sm) (waiters sm ++ [c])).
      rewrite lookup_insert_eq. split_and!; [done..|]. simpl. lia.
    + left. split_and!; [done| |lia]. by rewrite lookup_insert_ne.
  - eapply wake_ok_move; [done|]. intros s' sm' Hs' Hw. specialize (Hre s').
    apply lookup_insert_Some in Hs' as [[<- <-]|[Hne Hs']]; simpl in *; [left; lia|right].
    rewrite decide_False in Hre by done. exists sm'. split_and!; [done..|]. rewrite Et.
    rewrite (running_retrying s' th), plain_top_down by done. pose proof (retrying_nonneg s' th'). lia.
  - intros th2. rewrite lookup_insert_eq. by intros [= <-].
Qed.

Lemma wlp_sema_down_loop old : wlp (sema_down_loop s old) σ (λ _ σ', inv σ').
Proof.
  unfold sema_down_loop. ksteps. destruct (Z.eqb_spec (value sm) 0) as [Hv|Hv].
  - unfold thread_block. ksteps. rewrite insert_insert_eq, !lookup_insert_eq in *. simplify_eq.
    eapply wlp_mono; [apply wlp_schedule, (down_blocks old sm); done|]. by intros _ σ' (? & _).
  - ksteps. by apply down_taken.
Qed.
End down.

Lemma shares_nonneg i r T R l : sched_ok i r T R → 0 ≤ total (shares l) T.
Proof.
  intros HK. apply total_nonneg. intros t th Ht. apply nested_share.
  by eapply so_nested, (k_stack _ _ _ _ HK).
Qed.

Section up.
Context (σ : sched) (T : gmap Z thread) (s : sema_id).
Notation c := (running σ).
Notation i := (idle_thread σ).
Context (HK : sched_ok i (Some c) (threads σ) (ready_list σ)).
Context (HB : wait_ok i (threads σ) (semas σ)).
Context (HL : lock_ok T (semas σ) (holders σ)) (HW : wake_ok (threads σ) (semas σ)).
(** [T] are the threads before the running one took the call of sema_up () off
    its stack. *)
Context (Hsh : ∀ l, total (shares l) (threads σ) =
                    total (shares l) T - (if decide (s = lock_sema l) then 1 else 0)).

(** The lock of [s], if it has one, gets its share back. *)
Lemma up_lock sm T' ts :
  semas σ !! s = Some sm → (∀ l, total (shares l) T' = total (shares l) (threads σ)) →
  lock_ok T' (<[s := mk_sema (u32 (value sm + 1)) ts]> (semas σ)) (holders σ).
Proof.
  intros Hsm Ht. eapply lock_ok_move; [done|]. intros l. rewrite Ht, Hsh. case_decide as E; subst.
  - destruct (lock_of_sema _ _ _ l sm HL Hsm) as [h Hh]. right.
    exists h, h, sm, (mk_sema (u32 (value sm + 1)) ts). rewrite lookup_insert_eq. split_and!; [done..|]. simpl.
    destruct (l_lock _ _ _ HL l h Hh) as (sm' & ? & Heq). simplify_eq.
    pose proof (b_value _ _ _ HB _ _ Hsm). pose proof (shares_nonneg _ _ _ _ l HK) as Hnn.
    rewrite Hsh, decide_True in Hnn by done.
    assert (0 ≤ held h) by (unfold held; case_decide; lia). rewrite wrap_small by lia. lia.
  - left. split_and!; [done| |lia]. by rewrite lookup_insert_ne.
Qed.

Definition upped (σ' : sched) : Prop :=
  ∃ T' R' S', σ' = set_threads T' (set_ready R' (set_semas S' σ)) ∧
    sched_ok i (Some c) T' R' ∧ wait_ok i T' S' ∧ lock_ok T' S' (holders σ) ∧ wake_ok T' S' ∧
    T' !! c = threads σ !! c.

Lemma up_nobody sm :
  semas σ !! s = Some sm → waiters sm = [] →
  upped (set_semas (<[s := mk_sema (u32 (value sm + 1)) []]> (semas σ)) σ).
Proof.
  intros Hsm Hw. exists (threads σ), (ready_list σ), (<[s := mk_sema (u32 (value sm + 1)) []]> (semas σ)).
  split_and!; [done|done| | | |done].
  - rewrite <-Hw. apply wait_ok_value; [done..|]. by apply wrap_bounds.
  - by apply up_lock.
  - eapply wake_ok_move; [done|]. intros s' sm' Hs' Hw'. right. exists sm'.
    apply lookup_insert_Some in Hs' as [[<- <-]|[Hne Hs']]; [done|]. split_and!; [done..|lia].
Qed.

Lemma up_first sm t ts th :
  semas σ !! s = Some sm → waiters sm = t :: ts → threads σ !! t = Some th →
  upped (set_threads (<[t := set_status THREAD_READY th]> (threads σ))
          (set_ready (insert_ordered (prioritycmp (threads σ)) t (ready_list σ))
            (set_semas (<[s := mk_sema (u32 (value sm + 1)) ts]> (semas σ)) σ))).
Proof.
  intros Hsm Hw Ht. destruct (b_wait _ _ _ HB s sm t) as (th' & old & rest & ? & Hb & Hst); [done|rewrite Hw; left|].
  simplify_eq. pose proof (k_stack _ _ _ _ HK t th Ht) as Hok.
  assert (t ≠ i) as Hti.
  { intros E. pose proof (so_allowed _ _ _ Hok) as Ha. rewrite Hst in Ha. inversion Ha as [|?? Hf].
    by rewrite bool_decide_true in Hf by done. }
  assert (t ≠ c) as Htc. { intros ->. by rewrite (proj2 (k_run _ _ _ _ HK c th Ht) eq_refl) in Hb. }
  exists (<[t := set_status THREAD_READY th]> (threads σ)),
    (insert_ordered (prioritycmp (threads σ)) t (ready_list σ)),
    (<[s := mk_sema (u32 (value sm + 1)) ts]> (semas σ)).
  split_and!; [done| | | | |by rewrite lookup_insert_ne].
  - by eapply sched_ok_unblock.
  - eapply wait_ok_wake; [done..| |done]. by apply wrap_bounds.
  - apply up_lock; [done|]. intros l. by apply (total_same _ _ _ th).
  - eapply wake_ok_move; [done|]. intros s' sm' Hs' Hw'. right. rewrite (total_upd _ _ t th) by done.
    assert (retrying s' th = 0) as -> by (unfold retrying; by rewrite Hb).
    apply lookup_insert_Some in Hs' as [[<- <-]|[Hne Hs']]; simpl in *.
    + exists sm. split_and!; [done|by rewrite Hw|]. unfold retrying at 2. simpl. rewrite Hst. simpl.
      rewrite decide_True by done. pose proof (b_value _ _ _ HB s sm Hsm).
      enough (u32 (value sm + 1) ≤ value sm + 1) by lia. apply Z.mod_le; lia.
    + exists sm'. split_and!; [done..|]. pose proof (retrying_nonneg s' (set_status THREAD_READY th)). lia.
Qed.

Lemma wlp_sema_up : wlp (sema_up s) σ (λ _ σ', upped σ').
Proof.
  unfold sema_up, thread_unblock, is_thread, insert_ready. ksteps. destruct (waiters sm) as [|t ts] eqn:Hw; ksteps.
  - rewrite Hw. by apply up_nobody.
  - rewrite lookup_insert_eq in *. simplify_eq. simpl. rewrite insert_insert_eq. by eapply up_first.
Qed.
End up.

(** ** The calls one by one

    Each lemma starts from a state in which the running thread has taken the
    call off its stack. *)
Lemma inv_in_upd σ th th' :
  inv_in σ → threads σ !! running σ = Some th → status th' = THREAD_RUNNING → stack th' = stack th →
  inv_in (set_threads (<[running σ := th']> (threads σ)) σ).
Proof.
  intros [Hinv Hpl] Hth Hs Hst. rewrite (stack_of_lookup _ _ _ Hth) in Hpl. split.
  - apply (upd_ok σ Hinv th Hth); rewrite ?Hst; try done; [by eapply running_stack| | |by left];
      intros; [by apply shares_same_stack|by apply news_same_stack].
  - unfold stack_of. simpl. rewrite lookup_insert_eq. by rewrite Hst.
Qed.

Lemma inv_in_count σ v : inv_in σ → inv_in (set_count v σ).
Proof. intros [[] ?]. by repeat (split; [split; simpl; auto|]). Qed.
Lemma inv_in_all σ v : inv_in σ → inv_in (set_all v σ).
Proof. intros [[] ?]. by repeat (split; [split; simpl; auto|]). Qed.
Lemma inv_in_conds σ v : inv_in σ → conds_ok v → inv_in (set_conds v σ).
Proof. intros [[] ?] ?. by repeat (split; [split; simpl; auto|]). Qed.

Lemma inv_in_sema_init σ s v :
  inv_in σ → s.2 ≠ 4 → idle_sema σ s → 0 ≤ v < 2 ^ 32 →
  inv_in (set_semas (<[s := mk_sema v []]> (semas σ)) σ).
Proof.
  intros [[HK HB HL HW ? ? ?] ?] Hs Hidle Hv. split; [|done]. split; simpl; try done.
  - by apply wait_ok_sema_init.
  - eapply lock_ok_move; [done|]. intros l. left. rewrite lookup_insert_ne; [done|]. by intros ->.
  - eapply wake_ok_move; [done|]. intros s' sm' Hs' Hw'. right. exists sm'.
    apply lookup_insert_Some in Hs' as [[<- <-]|[Hne Hs']]; [done|]. split_and!; [done..|lia].
Qed.

Lemma inv_in_lock_init σ l :
  inv_in σ → holders σ !! l = None →
  inv_in (set_semas (<[lock_sema l := mk_sema 1 []]> (semas σ)) (set_holders (<[l := 0]> (holders σ)) σ)).
Proof.
  intros [[HK HB HL HW ? ? ?] ?] Hl. split; [|done]. destruct (l_none _ _ _ HL l Hl) as [Hs Ht].
  split; simpl; try done.
  - apply wait_ok_sema_init; [done| |lia]. intros sm. by rewrite Hs.
  - split.
    + intros l' h [[<- <-]|[Hne Hh]]%lookup_insert_Some; [rewrite lookup_insert_eq; eexists; split; [done|]|].
      * rewrite Ht. done.
      * rewrite lookup_insert_ne by (unfold lock_sema; congruence). by apply HL.
    + intros l' [Hh Hne]%lookup_insert_None. rewrite lookup_insert_ne by (unfold lock_sema; congruence).
      by apply HL.
  - eapply wake_ok_move; [done|]. intros s' sm' Hs' Hw'. right. exists sm'.
    apply lookup_insert_Some in Hs' as [[<- <-]|[Hne Hs']]; [done|]. split_and!; [done..|lia].
Qed.

(** The running thread gives its lock up and is about to give the semaphore back. *)
Lemma inv_release σ th l :
  inv_in σ → threads σ !! running σ = Some th → running σ ≠ idle_thread σ →
  holders σ !! l = Some (running σ) →
  inv (set_threads (<[running σ := set_stack (CSemaUp (lock_sema l) :: stack th) th]> (threads σ))
         (set_holders (<[l := 0]> (holders σ)) σ)).
Proof.
  intros [Hinv Hpl] Hth Hci Hl. pose proof Hinv as [HK HB HL HW Hctx Hcd Hin].
  rewrite (stack_of_lookup _ _ _ Hth) in Hpl.
  pose proof (running_status _ Hinv _ Hth) as Hr. set (th' := set_stack _ _).
  assert (plain (CSemaUp (lock_sema l) :: stack th)) as Hpl' by by constructor.
  split; simpl; try done.
  - eapply sched_ok_same; [done..|]. apply (stack_ok_push _ _ [_]); [by eapply k_stack|done| |constructor|].
    + repeat constructor. simpl. by rewrite bool_decide_false.
    + split; [done|]. by eapply so_nested, k_stack.
  - eapply wait_ok_upd; [done..| |by left; rewrite Hr|left; simpl; by rewrite Hr| |done].
    + eapply not_waiting; [done..|by rewrite Hr].
    + intros s old Hin'. by apply plain_no_down in Hin'.
  - eapply lock_ok_move; [done|]. intros l'. rewrite (total_upd _ _ _ th) by done.
    assert (shares l' th' = shares l' th + (if decide (lock_sema l = lock_sema l') then 1 else 0)) as ->
      by (unfold shares; simpl; lia).
    destruct (decide (l = l')) as [<-|Hne].
    + right. destruct (l_lock _ _ _ HL l _ Hl) as (sm & Hsm & Heq). exists (running σ), 0, sm, sm.
      rewrite lookup_insert_eq, decide_True by done. split_and!; [done..|].
      assert (running σ ≠ 0) by (intros E; rewrite E, (k_null _ _ _ _ HK) in Hth; done).
      assert (held (running σ) = 1) by (unfold held; by rewrite decide_False).
      assert (held 0 = 0) by done. lia.
    + left. rewrite lookup_insert_ne by done. rewrite decide_False by (unfold lock_sema; congruence).
      split_and!; [done..|lia].
  - apply (wake_ok_threads (threads σ)); [done|]. intros s. rewrite (total_upd _ _ _ th) by done.
    rewrite !running_retrying, !plain_top_down by done. lia.
  - left. unfold stack_of. simpl. by rewrite lookup_insert_eq.
Qed.

(** The running thread becomes the holder of [l]. *)
Lemma inv_set_holder σ th l rest :
  inv σ → threads σ !! running σ = Some th → stack th = CSetHolder l :: rest → running σ ≠ idle_thread σ →
  inv (set_holders (<[l := running σ]> (holders σ))
        (set_threads (<[running σ := set_stack rest th]> (threads σ)) σ)).
Proof.
  intros Hinv Hth Hst Hci.
  destruct (pop_ok σ Hinv th Hth _ rest Hst) as (HK & HB & HL & HW & Hpl); [done..|].
  pose proof Hinv as [HK0 _ HL0 HW0 Hctx Hcd _]. split; simpl; try done.
  - pose proof (shares_nonneg _ _ _ _ l HK) as Hnn. rewrite HL in Hnn. simpl in Hnn. rewrite decide_True in Hnn by done.
    eapply lock_ok_move; [done|]. intros l'. rewrite HL. simpl. destruct (decide (l = l')) as [<-|Hne].
    + right. destruct (holders σ !! l) as [h|] eqn:Hh; [|destruct (l_none _ _ _ HL0 l Hh); lia].
      destruct (l_lock _ _ _ HL0 l h Hh) as (sm & Hsm & Heq). exists h, (running σ), sm, sm.
      rewrite lookup_insert_eq. split_and!; [done..|].
      assert (running σ ≠ 0) by (intros E; rewrite E, (k_null _ _ _ _ HK0) in Hth; done).
      assert (held (running σ) = 1) by (unfold held; by rewrite decide_False).
      pose proof (b_value _ _ _ (v_wait _ Hinv) _ _ Hsm). assert (0 ≤ held h) by (unfold held; case_decide; lia). lia.
    + left. rewrite lookup_insert_ne by done. split_and!; [done..|lia].
  - apply (wake_ok_threads (threads σ)); [done|]. intros s. rewrite HW. simpl. lia.
  - left. unfold stack_of. simpl. by rewrite lookup_insert_eq.
Qed.

(** lock_try_acquire () takes the semaphore. *)
Lemma inv_try_acquire σ th th' l sm old :
  inv_in σ → threads σ !! running σ = Some th → running σ ≠ idle_thread σ →
  semas σ !! lock_sema l = Some sm → 0 < value sm →
  status th' = THREAD_RUNNING → stack th' = CSetHolder l :: stack th →
  inv (set_threads (<[running σ := th']> (threads σ))
        (set_intr old (set_semas (<[lock_sema l := mk_sema (u32 (value sm - 1)) (waiters sm)]> (semas σ)) σ))).
Proof.
  intros [Hinv Hpl] Hth Hci Hsm Hv Hs Hst. pose proof Hinv as [HK HB HL HW Hctx Hcd _].
  rewrite (stack_of_lookup _ _ _ Hth) in Hpl. pose proof (running_status _ Hinv _ Hth) as Hr.
  assert (plain (stack th')) as Hpl' by (rewrite Hst; by constructor).
  set (σ' := set_threads (<[running σ := th']> (threads σ)) σ).
  change (inv (set_intr old (set_semas (<[lock_sema l := mk_sema (u32 (value sm - 1)) (waiters sm)]> (semas σ')) σ'))).
  apply (down_taken σ' (threads σ) th' (lock_sema l)); subst σ'; simpl; try done.
  - eapply sched_ok_same; [done..|by rewrite Hr|by rewrite Hr|]. rewrite Hst.
    apply (stack_ok_push _ _ [_]); [by eapply k_stack|done| |constructor|].
    + repeat constructor. simpl. by rewrite bool_decide_false.
    + split; [done|]. by eapply so_nested, k_stack.
  - eapply wait_ok_upd; [done..| |by left; rewrite Hr|left; by rewrite Hs| |].
    + eapply not_waiting; [done..|by rewrite Hr].
    + intros s o Hin'. by apply plain_no_down in Hin'.
    + intros u. unfold news. by rewrite Hst.
  - by rewrite lookup_insert_eq.
  - intros _. by rewrite Hst.
  - intros l'. rewrite (total_upd _ _ _ th) by done. unfold shares at 2 3. rewrite Hst. simpl.
    destruct (decide (l = l')) as [->|]; [rewrite decide_True by done|rewrite decide_False by (unfold lock_sema; congruence)]; lia.
  - intros s. rewrite (total_upd _ _ _ th) by done. rewrite !running_retrying, !plain_top_down by done.
    case_decide; lia.
  - lia.
Qed.

(** The running thread dies. *)
Lemma mid_exit σ th A :
  inv_in σ → threads σ !! running σ = Some th → running σ ≠ idle_thread σ → stack th = [] →
  mid (set_threads (<[running σ := set_status THREAD_DYING th]> (threads σ)) (set_all A (set_intr false σ))).
Proof.
  intros [Hinv Hpl] Hth Hci Hst. pose proof Hinv as [HK HB HL HW Hctx Hcd _].
  pose proof (running_status _ Hinv _ Hth) as Hr. split; simpl; try done.
  - eapply sched_ok_stop; [done..| |done| |done|done]; [|done]. simpl. by eapply k_stack.
  - eapply wait_ok_upd; [done..| |by left; rewrite Hr|by left| |done].
    + eapply not_waiting; [done..|by rewrite Hr].
    + simpl. rewrite Hst. by intros s o ?%not_elem_of_nil.
  - apply (lock_ok_threads (threads σ)); [done|]. intros l. by apply (total_same _ _ _ th).
  - apply (wake_ok_threads (threads σ)); [done|]. intros s. rewrite (total_upd _ _ _ th) by done.
    unfold retrying at 3 4. simpl. rewrite Hst, Hr. simpl. lia.
  - intros th'. rewrite lookup_insert_eq. by intros [= <-].
Qed.

(** The idle thread blocks. *)
Lemma mid_idle σ th rest :
  inv σ → threads σ !! running σ = Some th → stack th = CIdleLoop :: rest → running σ = idle_thread σ →
  mid (set_threads (<[running σ := set_status THREAD_BLOCKED (set_stack (FSti :: CIdleLoop :: rest) th)]> (threads σ))
         (set_intr false σ)).
Proof.
  intros Hinv Hth Hst Hci. pose proof Hinv as [HK HB HL HW Hctx Hcd _].
  pose proof (running_status _ Hinv _ Hth) as Hr. pose proof (running_stack _ Hinv _ Hth) as Hok.
  rewrite Hst in Hok. destruct Hok as [Hal Hsw Hnest Hlast]. simpl in Hsw.
  split; simpl; try done.
  - eapply sched_ok_stop; [done..| |done| |done|done]; [|done]. simpl. split.
    + constructor; [simpl; by rewrite bool_decide_true|done].
    + by constructor.
    + split; [done|]. apply Hnest.
    + intros E. specialize (Hlast E). by rewrite <-Hlast.
  - eapply wait_ok_upd; [done..| |by left; rewrite Hr|by right| |].
    + eapply not_waiting; [done..|by rewrite Hr].
    + simpl. intros s o [?|[?|Hin]%elem_of_cons]%elem_of_cons; [done..|]. by apply plain_no_down in Hin.
    + intros u. unfold news. by rewrite Hst.
  - apply (lock_ok_threads (threads σ)); [done|]. intros l. apply (total_same _ _ _ th); [done|].
    unfold shares. by rewrite Hst.
  - apply (wake_ok_threads (threads σ)); [done|]. intros s. rewrite (total_upd _ _ _ th) by done.
    unfold retrying at 3 4. simpl. rewrite Hst, Hr. simpl. lia.
  - intros th'. rewrite lookup_insert_eq. by intros [= <-].
Qed.
