(* ===== verification/SchedSteps.v ===== *)
(** * Every step of the system keeps the invariant

    The frames of the step relation one after the other, the invariant of the
    reachable states and what follows from it: mutual exclusion, no lost
    wakeups, priority scheduling. *)

From Stdlib Require Import Sorted.
From S2P Require Import Prelude KListOps Thread Synch SchedInv SchedProofs.
Local Open Scope Z_scope.

(** ** Creating a thread *)
Definition create_frames (t : Z) (f : thread_func) : list frame :=
  allocate_tid ++ [CSetTid t; CUnblockNew t f].

Lemma inv_in_create σ th t new A :
  inv_in σ → threads σ !! running σ = Some th → running σ ≠ idle_thread σ →
  threads σ !! t = None → t ≠ 0 → status new = THREAD_BLOCKED → stack new = [] →
  inv (set_threads (<[running σ := set_stack (create_frames t func_other ++ stack th) th]>
                      (<[t := new]> (threads σ))) (set_all A σ)).
Proof.
  intros [Hinv Hpl] Hth Hci Ht Ht0 Hns Hnst. pose proof Hinv as [HK HB HL HW Hctx Hcd _].
  rewrite (stack_of_lookup _ _ _ Hth) in Hpl. pose proof (running_status _ Hinv _ Hth) as Hr.
  set (th' := set_stack _ _). assert (running σ ≠ t) as Hct by congruence.
  assert (plain (stack th')) as Hpl' by (repeat (constructor; [done|]); done).
  assert (<[t := new]> (threads σ) !! running σ = Some th) as Hth' by by rewrite lookup_insert_ne.
  assert (∀ w, total w (<[running σ := th']> (<[t := new]> (threads σ))) =
               total w (threads σ) + w new - w th + w th') as Et.
  { intros w. rewrite (total_upd _ _ _ th), total_insert_new by done. lia. }
  split; simpl; try done.
  - eapply sched_ok_same; [by apply sched_ok_new|done|by simpl; rewrite Hr|by rewrite Hr|].
    apply stack_ok_push; [by eapply k_stack|done| |by repeat constructor|].
    + repeat constructor; simpl; by rewrite bool_decide_false.
    + simpl. split_and!; try done. by eapply so_nested, k_stack.
  - eapply wait_ok_create; [done..|by rewrite Hr|by simpl; rewrite Hr|done|done|done| |].
    + intros s old Hin. by apply plain_no_down in Hin.
    + intros u. unfold news. simpl. destruct (decide (t = u)) as [<-|];
        [rewrite decide_True by done|rewrite decide_False by done]; lia.
  - apply (lock_ok_threads (threads σ)); [done|]. intros l. rewrite Et. unfold shares. rewrite Hnst. simpl. lia.
  - apply (wake_ok_threads (threads σ)); [done|]. intros s. rewrite Et.
    rewrite (running_retrying s th), (running_retrying s th'), !plain_top_down by done.
    pose proof (retrying_nonneg s new). lia.
  - left. unfold stack_of. simpl. by rewrite lookup_insert_eq.
Qed.

(** The running thread makes the thread that it created ready. *)
Lemma make_ready_ok σ th t nth rest :
  inv σ → threads σ !! running σ = Some th → stack th = CUnblockNew t func_other :: rest →
  threads σ !! t = Some nth → running σ ≠ idle_thread σ →
  t ≠ running σ ∧ t ≠ idle_thread σ ∧ status nth = THREAD_BLOCKED ∧ stack nth = [] ∧
  0 < total (news t) (threads σ).
Proof.
  intros Hinv Hth Hst Ht Hci. pose proof Hinv as [HK HB HL HW Hctx Hcd _].
  assert (0 < total (news t) (threads σ)) as Hnew.
  { enough (1 ≤ total (news t) (threads σ)) by lia. transitivity (news t th).
    - unfold news. rewrite Hst. simpl. rewrite decide_True by done.
      pose proof (weigh_nonneg (makes_ready t) rest (makes_ready_nonneg t)). lia.
    - apply (total_ge (news t) (threads σ) (running σ)); [|done].
      intros. apply weigh_nonneg, makes_ready_nonneg. }
  destruct (b_new _ _ _ HB t Hnew) as (_ & nth' & ? & Hb & Hnst). simplify_eq.
  pose proof (running_status _ Hinv _ Hth). split_and!; [congruence| |done..].
  intros ->. pose proof (so_idle _ _ _ (k_stack _ _ _ _ HK _ _ Ht) eq_refl) as Hl. by rewrite Hnst in Hl.
Qed.

Lemma inv_make_ready σ th t nth rest :
  inv σ → threads σ !! running σ = Some th → stack th = CUnblockNew t func_other :: rest →
  threads σ !! t = Some nth → running σ ≠ idle_thread σ →
  let nth' := set_stack [FKernelThread func_other] (set_parent (running σ) nth) in
  let T1 := <[running σ := set_children (children th ++ [t]) (set_stack rest th)]> (threads σ) in
  inv (set_threads (<[t := set_status THREAD_READY nth']> T1)
        (set_ready (insert_ordered (prioritycmp (<[t := nth']> T1)) t (ready_list σ)) σ)).
Proof.
  intros Hinv Hth Hst Ht Hci nth' T1.
  destruct (make_ready_ok _ _ _ _ _ Hinv Hth Hst Ht Hci) as (Htc & Hti & Hb & Hnst & Hnew).
  pose proof Hinv as [HK HB HL HW Hctx Hcd _]. pose proof (running_status _ Hinv _ Hth) as Hr.
  pose proof (running_stack _ Hinv _ Hth) as Hok. rewrite Hst in Hok. destruct Hok as [Hal Hsw Hne Hla].
  simpl in Hsw. inversion Hal as [|?? Ha Hal']; subst. set (th1 := set_children _ _) in *.
  assert (T1 !! t = Some nth) as Ht1 by (unfold T1; by rewrite lookup_insert_ne).
  assert (stack_ok (idle_thread σ) (running σ) rest) as Hok1.
  { split; [done| |apply Hne|done]. destruct rest; [constructor|by inversion Hsw]. }
  assert (stack_ok (idle_thread σ) t [FKernelThread func_other]) as Hok2.
  { split; [constructor; [simpl; by rewrite bool_decide_false|constructor]|constructor|done|done]. }
  assert (∀ w, total w (<[t := set_status THREAD_READY nth']> T1) =
               total w (threads σ) - w th + w th1 - w nth + w (set_status THREAD_READY nth')) as Et.
  { intros w. unfold T1. rewrite (total_upd _ _ t nth), (total_upd _ _ _ th) by done. lia. }
  split; simpl; try done.
  - rewrite <-(insert_insert_eq T1 t _ nth'). eapply sched_ok_unblock; [|by rewrite lookup_insert_eq|done..].
    eapply sched_ok_same; [|done|done|by rewrite Hb|done]. by eapply sched_ok_same; [done..|by rewrite Hr|].
  - unfold T1. eapply wait_ok_make_ready; [done..|by rewrite Hr|by simpl; rewrite Hr|done|done| | | | |done].
    + simpl. by intros s o [?|?%not_elem_of_nil]%elem_of_cons.
    + simpl. intros s o Hin. by apply plain_no_down in Hin.
    + intros u. unfold news. rewrite Hst. simpl. destruct (decide (t = u)) as [<-|];
        [rewrite decide_True by done|rewrite decide_False by done]; lia.
    + done.
  - apply (lock_ok_threads (threads σ)); [done|]. intros l. rewrite Et. unfold shares. rewrite Hst, Hnst. simpl. lia.
  - apply (wake_ok_threads (threads σ)); [done|]. intros s. rewrite Et.
    rewrite (running_retrying s th), (running_retrying s th1), Hst by done. simpl. rewrite plain_top_down by done.
    unfold retrying at 3 4. simpl. rewrite Hb. simpl. lia.
  - left. unfold stack_of. simpl. unfold T1. by rewrite lookup_insert_ne, lookup_insert_eq.
Qed.

(** A change of a thread, the running one or not, that keeps its status, its
    stack and its priority. *)
Lemma inv_in_other σ t th th' :
  inv_in σ → threads σ !! t = Some th → status th' = status th → stack th' = stack th →
  priority th' = priority th → inv_in (set_threads (<[t := th']> (threads σ)) σ).
Proof.
  intros [Hinv Hpl] Ht Hs Hst Hp. pose proof Hinv as [HK HB HL HW Hctx Hcd _].
  assert (plain (stack_of (set_threads (<[t := th']> (threads σ)) σ) (running σ))) as Hpl'.
  { unfold stack_of in *. simpl. destruct (decide (running σ = t)) as [E|].
    - rewrite E, Ht in Hpl. by rewrite E, lookup_insert_eq, Hst.
    - by rewrite lookup_insert_ne. }
  split; [|done]. split; simpl; try done.
  - eapply sched_ok_same; [done..|]. rewrite Hst. by eapply k_stack.
  - by eapply wait_ok_same.
  - apply (lock_ok_threads (threads σ)); [done|]. intros l. apply (total_same _ _ _ th); [done|].
    by apply shares_same_stack.
  - apply (wake_ok_threads (threads σ)); [done|]. intros s. rewrite (total_same _ _ _ th); [done..|].
    unfold retrying. by rewrite Hs, Hst.
  - by left.
Qed.

(** ** Calls that carry no weight *)
(** Frames that another frame pushes and that carry no weight. *)
Lemma pushable_plain σ fs :
  Forall (λ f, allowed (bool_decide (running σ = idle_thread σ)) f = true ∧ is_switch f = false ∧
    (∀ l, lock_share l f = 0) ∧ (∀ t, makes_ready t f = 0) ∧
    match f with CSemaDown s | FDown s _ => s.2 ≠ 4 | CExit => False | _ => True end) fs →
  pushable σ fs.
Proof.
  intros Hfs. split.
  - eapply Forall_impl; [done|]. naive_solver.
  - eapply Forall_impl; [done|]. naive_solver.
  - intros st Hst. induction Hfs as [|f fs Hf Hfs IH]; [done|]. split; [|done]. destruct f; naive_solver.
  - intros l. induction Hfs as [|f fs Hf Hfs IH]; [done|]. simpl. rewrite IH. destruct Hf as (_ & _ & -> & _). done.
  - intros l. induction Hfs as [|f fs Hf Hfs IH]; [done|]. simpl. rewrite IH. destruct Hf as (_ & _ & _ & -> & _). done.
Qed.

Lemma user_sema_share (s : sema_id) l : s.2 ≠ 4 → s ≠ lock_sema l.
Proof. by intros Hs ->. Qed.

Section calls.
Context (σ : sched) (Hin : inv_in σ).
Notation c := (running σ).
Notation Inv := (λ _ σ', inv σ').

Let Hinv : inv σ.
Proof. by destruct Hin. Qed.

Lemma wlp_return_value v : wlp (return_value v) σ (λ _ σ', inv_in σ').
Proof using Hin.
  unfold return_value. ksteps. apply (inv_in_upd σ th); [done|done| |done].
  simpl. by eapply running_status.
Qed.

(** What sema_try_down () does. *)
Lemma wlp_sema_try_down s Q :
  (∀ sm, semas σ !! s = Some sm → value sm = 0 → Q false σ) →
  (∀ sm, semas σ !! s = Some sm → 0 < value sm →
     Q true (set_semas (<[s := mk_sema (u32 (value sm - 1)) (waiters sm)]> (semas σ)) σ)) →
  wlp (sema_try_down s) σ Q.
Proof using Hin.
  intros Q0 Q1. unfold sema_try_down. ksteps. pose proof (b_value _ _ _ (v_wait _ Hinv) s sm Hsm) as Hv.
  destruct (Z.ltb_spec 0 (value sm)); ksteps; [by apply Q1|].
  assert (set_intr (intr σ) (set_intr false σ) = σ) as -> by by destruct σ. apply (Q0 sm); [done|lia].
Qed.

Lemma wlp_call_try_down s : s.2 ≠ 4 → wlp (run_frame (CSemaTryDown s)) σ Inv.
Proof using Hin.
  intros Hs. simpl. wlp_step. apply wlp_sema_try_down.
  - intros sm _ _. by eapply wlp_mono; [apply wlp_return_value|intros _ ? []].
  - intros sm Hsm Hv. pose proof Hin as [_ Hpl].
    unfold return_value. ksteps. rewrite (stack_of_lookup _ _ _ Hth) in Hpl. pose proof Hinv as [HK HB HL HW Hctx Hcd _].
    pose proof (b_value _ _ _ HB s sm Hsm). rewrite wrap_small by lia.
    assert (inv (set_semas (<[s := mk_sema (value sm - 1) (waiters sm)]> (semas σ)) σ)) as Hinv'.
    { split; simpl; try done; [by apply wait_ok_value; [..|lia]| | |left; unfold stack_of; simpl; by rewrite Hth].
      - eapply lock_ok_move; [done|]. intros l. left. rewrite lookup_insert_ne; [done|]. by intros ->.
      - eapply wake_ok_move; [done|]. intros s' sm' [[<- <-]|[Hne Hs']]%lookup_insert_Some Hw'; right;
          [exists sm|exists sm']; simpl in *; split_and!; (done || lia). }
    assert (inv_in (set_semas (<[s := mk_sema (value sm - 1) (waiters sm)]> (semas σ)) σ)) as Hin'.
    { split; [done|]. simpl. unfold stack_of. simpl. by rewrite Hth. }
    eapply (inv_in_upd _ th) in Hin'; [by destruct Hin'|done| |done]. simpl. by eapply running_status.
Qed.

Lemma wlp_lock_try_acquire l : c ≠ idle_thread σ → wlp (lock_try_acquire l) σ Inv.
Proof using Hin.
  intros Hci. unfold lock_try_acquire. ksteps. apply wlp_sema_try_down.
  - intros sm _ _. wlp_step. eapply wlp_mono; [apply wlp_return_value|]. simpl. intros _ σ' [? _]. by wlp_step.
  - intros sm Hsm Hv. unfold return_value. ksteps. rewrite lookup_insert_eq in *. simplify_eq.
    rewrite insert_insert_eq.
    eapply (inv_try_acquire σ th _ l sm (intr σ)) in Hin; [exact Hin|done..|simpl; by eapply running_status|done].
Qed.

Lemma pushes_inv fs : pushable σ fs → wlp (pushes fs) σ Inv.
Proof using Hin. intros Hp. by eapply wlp_mono; [by apply wlp_pushes|intros _ ? []]. Qed.

Lemma wlp_lock_acquire l : c ≠ idle_thread σ → wlp (lock_acquire l) σ Inv.
Proof using Hin.
  intros Hci. unfold lock_acquire. ksteps. apply pushes_inv. split.
  - repeat constructor; simpl; by rewrite bool_decide_false.
  - by repeat constructor.
  - intros st Hst. by split; [|split].
  - intros l'. simpl. destruct (decide (l = l')) as [->|]; [by rewrite decide_True|].
    rewrite decide_False; [done|]. unfold lock_sema. congruence.
  - done.
Qed.

Lemma wlp_lock_release l : c ≠ idle_thread σ → wlp (lock_release l) σ Inv.
Proof using Hin.
  intros Hci. unfold lock_release. ksteps. rewrite bool_decide_eq_true in *. subst.
  unfold store_holder. ksteps. by eapply inv_release.
Qed.

Lemma wlp_thread_create nm p page :
  c ≠ idle_thread σ → run_ok σ (CCreate nm p func_other page) → wlp (thread_create nm p func_other page) σ Inv.
Proof using Hin.
  intros Hci Hok. unfold thread_create. destruct page as [t|].
  2: { by eapply wlp_mono; [apply wlp_return_value|intros _ ? []]. }
  destruct Hok as (Hnone & Hs1 & Hs2 & Hs3). unfold init_thread, sema_init. ksteps. unfold pushes. ksteps.
  assert (t ≠ 0) as Ht0 by by eapply bool_decide_eq_true_1.
  rewrite lookup_insert_ne in * by (intros ->; pose proof Hinv as [HK _ _ _ _ _ _];
    destruct (k_run_in _ _ _ _ HK c eq_refl); congruence).
  pose proof (inv_in_sema_init σ (wait_block t) 0 Hin ltac:(done) Hs3 ltac:(lia)) as Hin1.
  eapply (inv_in_sema_init _ (sema_parent_block t) 0) in Hin1; [|done| |lia].
  2: { intros sm. simpl. by rewrite lookup_insert_ne; [apply Hs1|]. }
  eapply (inv_in_sema_init _ (exec_block t) 0) in Hin1; [|done| |lia].
  2: { intros sm. simpl. by rewrite !lookup_insert_ne; [apply Hs2|..]. }
  eapply (inv_in_create _ th t) in Hin1; [exact Hin1|done..].
Qed.

Lemma wlp_cond_wait cv l s :
  c ≠ idle_thread σ → s.2 ≠ 4 → idle_sema σ s → wlp (cond_wait cv l s) σ Inv.
Proof using Hin.
  intros Hci Hs Hidle. unfold cond_wait, sema_init, store_cond. ksteps.
  eapply wlp_mono; [eapply wlp_pushes|by intros _ ? []].
  - apply (inv_in_conds (set_semas (<[s := mk_sema 0 []]> (semas σ)) σ)); [by apply inv_in_sema_init|].
    intros cv' ws'. simpl. intros [[<- <-]|[_ Hws']]%lookup_insert_Some; [|by eapply v_conds].
    apply Forall_app. split; [by eapply v_conds|by constructor].
  - split; simpl.
    + rewrite bool_decide_false by done. by repeat constructor.
    + by repeat constructor.
    + intros st Hst. by split_and!.
    + intros l'. rewrite decide_False by by apply user_sema_share. done.
    + done.
Qed.

Lemma wlp_cond_signal cv l : c ≠ idle_thread σ → wlp (cond_signal cv l) σ Inv.
Proof using Hin.
  intros Hci. unfold cond_signal, store_cond. change push with (λ f, pushes [f]). ksteps.
  destruct ws as [|s ss]; ksteps; [done|].
  pose proof (v_conds _ Hinv _ _ Hws) as Hss. inversion Hss as [|?? Hs Hss']; subst.
  eapply wlp_mono; [eapply wlp_pushes|by intros _ ? []].
  - apply inv_in_conds; [done|]. intros cv' ws'.
    intros [[<- <-]|[_ Hws']]%lookup_insert_Some; [done|by eapply v_conds].
  - split; simpl; [rewrite bool_decide_false by done; by repeat constructor|by repeat constructor|by split| |done].
    intros l'. by rewrite decide_False by by apply user_sema_share.
Qed.

Lemma wlp_cond_broadcast cv l : c ≠ idle_thread σ → wlp (cond_broadcast cv l) σ Inv.
Proof using Hin.
  intros Hci. unfold cond_broadcast. ksteps. destruct ws as [|s ss]; ksteps; [done|].
  apply pushes_inv, pushable_plain. rewrite bool_decide_false by done. by repeat constructor.
Qed.

Lemma wlp_set_priority p : c ≠ idle_thread σ → wlp (thread_set_priority p) σ Inv.
Proof using Hin.
  intros Hci. unfold thread_set_priority. change push with (λ f, pushes [f]). ksteps.
  eapply wlp_mono; [eapply wlp_pushes|by intros _ ? []].
  - by apply (inv_in_upd σ th).
  - apply pushable_plain. by repeat constructor.
Qed.

Lemma wlp_timer_sleep n : c ≠ idle_thread σ → wlp (timer_sleep n) σ Inv.
Proof using Hin.
  intros Hci. unfold timer_sleep, timer_ticks. change push with (λ f, pushes [f]). ksteps.
  eapply wlp_mono; [eapply wlp_pushes|by intros _ ? []].
  - by apply inv_in_intr, inv_in_intr.
  - apply pushable_plain. simpl. rewrite bool_decide_false by done. by repeat constructor.
Qed.

Lemma wlp_sleep_loop start n : c ≠ idle_thread σ → wlp (sleep_loop start n) σ Inv.
Proof using Hin.
  intros Hci. unfold sleep_loop, timer_elapsed, timer_ticks. ksteps.
  assert (inv_in (set_intr (intr σ) (set_intr false σ))) as Hin' by by apply inv_in_intr, inv_in_intr.
  destruct (_ <? n); ksteps; [|by destruct Hin'].
  eapply wlp_mono; [eapply (wlp_pushes _ _ Hin')|by intros _ ? []].
  apply pushable_plain. simpl. rewrite bool_decide_false by done. by repeat constructor.
Qed.

Lemma wlp_set_tid_step t : wlp (set_tid_step t) σ Inv.
Proof using Hin.
  unfold set_tid_step. ksteps. by destruct (inv_in_other σ t th0 (set_tid (eax th) th0) Hin).
Qed.

Lemma wlp_next_tid_step : wlp next_tid_step σ Inv.
Proof using Hin.
  unfold next_tid_step. do 3 kstep. eapply wlp_mono; [apply wlp_return_value|].
  simpl. intros _ σ' Hin'. kstep. by destruct (inv_in_count σ' (mk_counters (idle_ticks (count σ))
    (kernel_ticks (count σ)) (user_ticks (count σ)) (thread_ticks (count σ)) (ticks (count σ))
    (s32 (next_tid (count σ) + 1))) Hin').
Qed.
End calls.

(** ** Executing a frame *)
Definition heavy (f : frame) : bool :=
  match f with
  | CSemaDown _ | CSemaUp _ | CSetHolder _ | CUnblockNew _ _ | CExit | CIdleLoop | FDown _ _ => true
  | _ => false
  end.

Lemma heavy_weightless f : heavy f = false → weightless f.
Proof. by destruct f. Qed.

Lemma not_idle_thread (c i : Z) f : allowed (bool_decide (c = i)) f = true → allowed true f = false → c ≠ i.
Proof. intros Ha Hi ->. rewrite bool_decide_true in Ha by done. congruence. Qed.

Lemma run_plain σ f :
  inv_in σ → allowed (bool_decide (running σ = idle_thread σ)) f = true → run_ok σ f → heavy f = false →
  wlp (run_frame f) σ (λ _ σ', inv σ').
Proof.
  intros Hin Ha Hok Hh. pose proof (not_idle_thread _ _ _ Ha) as Hci.
  assert (∀ b, inv (set_intr b σ)) as Hb by (intros b; by apply inv_in_intr).
  destruct f; simpl in Hh, Hok; try done; try specialize (Hci eq_refl);
    try (rewrite (bool_decide_false (running σ = idle_thread σ)) in Ha by done; simpl in Ha).
  - apply wlp_call_try_down; [done|]. by eapply bool_decide_eq_true_1.
  - rewrite !andb_true_iff, bool_decide_eq_true, Z.leb_le, Z.ltb_lt in Ha. destruct Ha as [[? ?] ?].
    simpl. unfold sema_init. ksteps. by apply inv_in_sema_init.
  - simpl. unfold lock_init, store_holder, sema_init. ksteps. apply inv_in_lock_init; [done|by destruct Hok].
  - by apply wlp_lock_acquire.
  - by apply wlp_lock_try_acquire.
  - by apply wlp_lock_release.
  - simpl. unfold cond_init, store_cond. ksteps. apply inv_in_conds; [done|].
    intros cv' ws [[_ <-]|[_ ?]]%lookup_insert_Some; [constructor|]. by eapply v_conds; [apply Hin|].
  - apply wlp_cond_wait; [done|done| |done]. by eapply bool_decide_eq_true_1.
  - by apply wlp_cond_signal.
  - by apply wlp_cond_broadcast.
  - destruct f; [done|]. apply wlp_thread_create; [done|by apply Hci|done].
  - by apply wlp_next_tid_step.
  - by apply wlp_set_tid_step.
  - eapply wlp_mono; [by apply wlp_thread_yield|]. by intros _ ? [].
  - by apply wlp_set_priority.
  - by apply wlp_timer_sleep.
  - by apply wlp_sleep_loop.
  - simpl. ksteps. apply Hb.
  - simpl. ksteps. apply Hb.
  - simpl. ksteps. apply Hb.
  - simpl. unfold kernel_thread. destruct f; [done|]. ksteps. apply Hb.
Qed.

(** ** A step of the running thread *)
Lemma inv_off σ : inv σ → inv (set_intr false σ).
Proof. intros []. split; simpl; auto. Qed.

(** What the running thread leaves behind when it takes a frame that waits for
    semaphore [s] off its stack. *)
Section run_down.
Context (σ : sched) (th : thread) (f : frame) (rest : list frame) (s : sema_id) (old : bool).
Context (Hinv : inv σ) (Hth : threads σ !! running σ = Some th) (Hst : stack th = f :: rest).
Context (Hf : f = CSemaDown s ∨ f = FDown s old).
Notation σ1 := (set_threads (<[running σ := set_stack rest th]> (threads σ)) σ).

Let facts :
  running σ ≠ idle_thread σ ∧ (s.2 = 4 → head rest = Some (CSetHolder s.1)) ∧ (∀ t, makes_ready t f = 0).
Proof.
  pose proof (running_stack _ Hinv _ Hth) as [Hal _ Hne _]. rewrite Hst in Hal, Hne.
  inversion Hal as [|?? Ha _]; subst. destruct Hne as [Hne _]. split_and!.
  - apply (not_idle_thread _ _ _ Ha). by destruct Hf as [->| ->].
  - by destruct Hf as [->| ->].
  - by destruct Hf as [->| ->].
Qed.

Lemma run_down_shares l : total (shares l) (threads σ) - lock_share l f =
  total (shares l) (threads σ) + (if decide (s = lock_sema l) then 1 else 0).
Proof. destruct Hf as [->| ->]; simpl; repeat case_decide; done || lia. Qed.

Lemma run_down_retrying s' : total (retrying s') (threads σ) - (if decide (s' = s) then 1 else 0) ≤
  total (retrying s') (threads σ) - top_down s' [f].
Proof. destruct Hf as [->| ->]; simpl; repeat case_decide; congruence || lia. Qed.

Lemma run_down : wlp (sema_down_loop s old) σ1 (λ _ σ', inv σ').
Proof.
  destruct facts as (Hci & Hacq & Hmr).
  destruct (pop_ok σ Hinv th Hth _ rest Hst Hmr) as (HK & HB & HL & HW & Hpl); [done|].
  eapply (wlp_sema_down_loop σ1 (threads σ) (set_stack rest th)); simpl; try apply Hinv; try done.
  - by rewrite lookup_insert_eq.
  - intros l. rewrite HL. apply run_down_shares.
  - intros s'. rewrite HW. apply run_down_retrying.
Qed.

Lemma run_down_mid sm :
  semas σ !! s = Some sm → value sm = 0 →
  mid (set_threads (<[running σ := set_status THREAD_BLOCKED (set_stack (FDown s old :: rest) (set_stack rest th))]>
        (<[running σ := set_stack rest th]> (threads σ)))
        (set_semas (<[s := mk_sema (value sm) (waiters sm ++ [running σ])]> (semas σ)) σ1)).
Proof.
  intros Hsm Hv. destruct facts as (Hci & Hacq & Hmr).
  destruct (pop_ok σ Hinv th Hth _ rest Hst Hmr) as (HK & HB & HL & HW & Hpl); [done|].
  pose proof (down_blocks σ1 (threads σ) (set_stack rest th) s) as Hd. simpl in Hd.
  apply Hd; try apply Hinv; try done.
  - by rewrite lookup_insert_eq.
  - intros l. rewrite HL. apply run_down_shares.
  - intros s'. rewrite HW. apply run_down_retrying.
Qed.
End run_down.

(** Taking off a frame that makes no new thread ready. *)
Lemma pop_frame σ th f rest :
  inv σ → threads σ !! running σ = Some th → stack th = f :: rest →
  (∀ t, makes_ready t f = 0) → f ≠ CIdleLoop →
  let T' := <[running σ := set_stack rest th]> (threads σ) in
  sched_ok (idle_thread σ) (Some (running σ)) T' (ready_list σ) ∧ wait_ok (idle_thread σ) T' (semas σ) ∧ plain rest.
Proof.
  intros Hinv Hth Hst Hmr Hf. destruct (pop_ok σ Hinv th Hth f rest Hst Hmr) as (HK & HB & _ & _ & Hpl); [|done].
  intros E. pose proof (so_idle _ _ _ (running_stack _ Hinv _ Hth) E) as Hla. rewrite Hst in Hla.
  destruct rest; [simpl in Hla; congruence|done].
Qed.

Lemma run_up σ th s rest :
  inv σ → threads σ !! running σ = Some th → stack th = CSemaUp s :: rest →
  (running σ = idle_thread σ → last rest = Some CIdleLoop) →
  wlp (sema_up s) (set_threads (<[running σ := set_stack rest th]> (threads σ)) σ) (λ _ σ', inv σ').
Proof.
  intros Hinv Hth Hst Hla. destruct (pop_ok σ Hinv th Hth _ rest Hst) as (HK & HB & HL & HW & Hpl); [done..|].
  eapply wlp_mono; [eapply (wlp_sema_up _ (threads σ)); simpl; try apply Hinv; try done|].
  - apply (wake_ok_threads (threads σ)); [apply Hinv|]. intros s'. rewrite HW. simpl. lia.
  - simpl. intros _ σ' (T' & R' & S' & -> & ? & ? & ? & ? & E). split; simpl; try done; try apply Hinv.
    left. unfold stack_of. simpl in *. by rewrite E, lookup_insert_eq.
Qed.

Lemma run_unblock_new σ th t f rest :
  inv σ → threads σ !! running σ = Some th → stack th = CUnblockNew t f :: rest →
  wlp (thread_create_finish t f) (set_threads (<[running σ := set_stack rest th]> (threads σ)) σ) (λ _ σ', inv σ').
Proof.
  intros Hinv Hth Hst. pose proof (running_stack _ Hinv _ Hth) as [Hal _ _ _]. rewrite Hst in Hal.
  inversion Hal as [|?? Ha _]; subst. destruct f as [|]; [done|].
  assert (running σ ≠ idle_thread σ) as Hci by by apply (not_idle_thread _ _ _ Ha).
  unfold thread_create_finish, thread_unblock, is_thread, insert_ready. ksteps.
  destruct (decide (t = running σ)) as [->|Htc].
  { by destruct (make_ready_ok _ _ _ _ _ Hinv Hth Hst Hth Hci). }
  rewrite lookup_insert_ne in Hth1 by done. rewrite lookup_insert_ne, lookup_insert_eq in Hth2 by done. simplify_eq.
  rewrite lookup_insert_ne, lookup_insert_eq in Hth3 by done. simplify_eq.
  rewrite lookup_insert_eq in Hth4. simplify_eq.
  rewrite (insert_insert_ne _ (running σ) t), !insert_insert_eq by done.
  pose proof (inv_make_ready σ th t th1 rest Hinv Hth Hst Hth1 Hci) as Hready. simpl in Hready. exact Hready.
Qed.

Lemma run_ok_pop σ f T' :
  run_ok σ f → (∀ t, threads σ !! t = None → T' !! t = None) → run_ok (set_threads T' σ) f.
Proof.
  intros Hok HT. destruct f; try done.
  match goal with p : option Z |- _ => destruct p end; naive_solver.
Qed.

Lemma do_run_inv σ f fs :
  inv σ → stack_of σ (running σ) = f :: fs → run_ok σ f → wlp do_run σ (λ _ σ', inv σ').
Proof.
  intros Hinv Hst Hok. unfold do_run. ksteps. rewrite (stack_of_lookup _ _ _ Hth) in Hst. rewrite Hst. ksteps.
  pose proof (running_stack _ Hinv _ Hth) as [Hal _ Hne Hla]. rewrite Hst in Hal, Hne, Hla.
  inversion Hal as [|?? Ha _]; subst. pose proof (not_idle_thread _ _ _ Ha) as Hci.
  assert (f ≠ CIdleLoop → running σ = idle_thread σ → last fs = Some CIdleLoop) as Hla'.
  { intros Hf E. specialize (Hla E). destruct fs; [simpl in Hla; congruence|done]. }
  destruct (heavy f) eqn:Hh.
  2: { assert (f ≠ CIdleLoop) as Hf by by intros ->.
    apply run_plain; [|done| |done].
    - apply (pop_inv σ th f); auto using heavy_weightless.
    - apply run_ok_pop; [done|]. intros t Ht. rewrite lookup_insert_ne; [done|]. congruence. }
  destruct f; try done; simpl.
  - unfold sema_down. ksteps.
    eapply (run_down (set_intr false σ)); [by apply inv_off|done|done|by left].
  - apply run_up; auto.
  - unfold set_holder, store_holder. ksteps. apply inv_set_holder; auto.
  - by apply run_unblock_new.
  - destruct Hne as [-> _]. unfold thread_exit. ksteps. rewrite lookup_insert_eq in *. simplify_eq.
    eapply wlp_mono; [apply wlp_schedule|by intros _ ? []].
    assert (inv_in (set_threads (<[running σ := set_stack [] th]> (threads σ)) σ)) as Hin
      by (by apply (pop_inv σ th CExit); auto).
    eapply (mid_exit _ (set_stack [] th)) in Hin; [exact Hin|by simpl; rewrite lookup_insert_eq|by apply Hci|done].
  - unfold idle_loop, pushes, thread_block. ksteps. rewrite !insert_insert_eq, !lookup_insert_eq in *. simplify_eq.
    eapply wlp_mono; [apply wlp_schedule|by intros _ ? []].
    apply (mid_idle σ th); auto. destruct (decide (running σ = idle_thread σ)); [done|].
    by rewrite bool_decide_false in Ha.
  - eapply run_down; [done..|by right].
Qed.

(** ** Interrupts *)
Lemma inv_in_external σ y : inv_in σ → inv_in (set_external false y σ).
Proof. intros [[] ?]. by repeat (split; [split; simpl; auto|]). Qed.

Lemma wlp_timer_interrupt σ Q :
  (∀ n e y, Q tt (set_external e y (set_count n σ))) → wlp timer_interrupt σ Q.
Proof.
  intros HQ. unfold timer_interrupt, thread_tick, intr_yield_on_return. ksteps.
  assert (∀ n, Q tt (set_count n σ)) as HQ' by (intros n; apply (HQ n (in_external_intr σ) (yield_on_return σ))).
  destruct (TIME_SLICE <=? _); ksteps; [apply HQ|apply HQ'].
Qed.

(** The interrupted thread will return from the interrupt. *)
Lemma push_iret_inv σ th :
  inv σ → intr σ = true → threads σ !! running σ = Some th →
  inv_in (set_threads (<[running σ := set_stack (FIret :: stack th) th]> (threads σ)) (set_intr false σ)).
Proof.
  intros Hinv Hi Hth.
  assert (inv_in σ) as Hin.
  { split; [done|]. destruct (v_intr _ Hinv) as [?|E]; [done|congruence]. }
  assert (pushable (set_intr false σ) [FIret]) as Hp by by apply pushable_plain; repeat constructor.
  apply (wlp_pushes (set_intr false σ) [FIret] (inv_in_intr σ false Hin) Hp tt).
  unfold pushes, upd_thread, load_thread. cbv [mbind M_bind gets get from_option modify mret M_ret]. simpl.
  by rewrite Hth.
Qed.

Lemma timer_inv σ : inv σ → intr σ = true → wlp (do_external timer_interrupt) σ (λ _ σ', inv σ').
Proof.
  intros Hinv Hi. unfold do_external, intr_handler. ksteps.
  pose proof (push_iret_inv σ th Hinv Hi Hth) as Hin.
  apply wlp_timer_interrupt. intros n e y. ksteps.
  apply (inv_in_count _ n) in Hin. apply (inv_in_external _ y) in Hin.
  destruct y; ksteps; [|by destruct Hin].
  eapply wlp_mono; [by apply (wlp_thread_yield _ Hin)|]. by intros _ ? [].
Qed.

Lemma device_inv σ s : inv σ → intr σ = true → s.2 ≠ 4 → wlp (do_external (sema_up s)) σ (λ _ σ', inv σ').
Proof.
  intros Hinv Hi Hs. unfold do_external, intr_handler. ksteps.
  pose proof (push_iret_inv σ th Hinv Hi Hth) as [Hinv' Hpl].
  set (σ1 := set_threads _ _) in *. pose proof Hinv' as [HK HB HL HW Hctx Hcd Hin'].
  eapply wlp_mono; [apply (wlp_sema_up _ (threads σ1)); try done|].
  - intros l. rewrite decide_False by by apply user_sema_share. simpl. lia.
  - simpl. intros _ σ' (T' & R' & S' & -> & ? & ? & ? & ? & E). ksteps. split; simpl; try done.
    left. unfold stack_of in *. simpl in *. by rewrite E.
Qed.

(** ** Steps *)
Lemma public_ok f : public f = true →
  allowed false f = true ∧ is_switch f = false ∧ (∀ l, lock_share l f = 0) ∧
  (∀ t, makes_ready t f = 0) ∧ nested [f].
Proof.
  destruct f; simpl; try done;
    rewrite ?andb_true_iff, ?bool_decide_eq_true; intros Hp; split_and!; try done; try tauto;
    try (intros l; by rewrite decide_False by by apply user_sema_share).
Qed.

Lemma call_inv σ f :
  inv σ → stack_of σ (running σ) = [] → public f = true → wlp (push f) σ (λ _ σ', inv σ').
Proof.
  intros Hinv Hst (Hal & Hsw & Hsh & Hmr & Hne)%public_ok. ksteps.
  rewrite (stack_of_lookup _ _ _ Hth) in Hst. rewrite Hst.
  assert (running σ ≠ idle_thread σ) as Hci.
  { intros E. pose proof (so_idle _ _ _ (running_stack _ Hinv _ Hth) E) as Hl. by rewrite Hst in Hl. }
  assert (plain [f]) as Hpl by by repeat constructor.
  apply (upd_ok σ Hinv th Hth); simpl.
  - by eapply running_status.
  - split; [rewrite bool_decide_false by done; by repeat constructor|constructor|done|done].
  - intros s old Hin. by apply plain_no_down in Hin.
  - intros l. unfold shares. rewrite Hst. simpl. rewrite Hsh. done.
  - intros u. unfold news. rewrite Hst. simpl. rewrite Hmr. done.
  - intros s. rewrite Hst. by destruct f.
  - by left.
Qed.

Lemma step_inv σ σ' : inv σ → step σ σ' → inv σ'.
Proof.
  intros Hinv Hstep. destruct Hstep as [f Hth Hst Hp Hr|f fs Hst Hok Hr|Hi Hr|s Hi Hs Hr|v ->].
  - by apply (call_inv _ _ Hinv Hst Hp tt).
  - by apply (do_run_inv _ _ _ Hinv Hst Hok tt).
  - by apply (timer_inv _ Hinv Hi tt).
  - by apply (device_inv _ _ Hinv Hi Hs tt).
  - destruct Hinv. by split.
Qed.
