(* ===== verification/SchedThms.v ===== *)
(** * Theorems about scheduling and synchronization

    The invariant holds when thread_start () returns, so it holds in every
    reachable state.  From it: the lists are what the comments of thread.h say,
    locks exclude, no wakeup is lost, the thread of highest priority runs after
    a yield, and the scheduler's own assertions never fail. *)

From Stdlib Require Import Sorted.
From S2P Require Import Prelude KListOps Thread Synch SchedInv SchedProofs SchedSteps.
Local Open Scope Z_scope.

(** ** The state in which thread_start () returns *)

(** The main thread's page is the one that loader.S sets up at 0xc000e000, and
    the first page of the kernel pool becomes the idle thread; idle_started is
    on the main thread's stack. *)
Definition main_page : Z := 0xc000e000.
Definition idle_page : Z := 0xc0100000.
Definition idle_started : sema_id := own_sema 0xc000ef00.

Definition main_thread : thread :=
  mk_thread 1 THREAD_RUNNING [109; 97; 105; 110] PRI_DEFAULT PRI_DEFAULT [] 2 0 [idle_page] (-1) 1 false [] 2.
Definition idle_thread_0 : thread :=
  mk_thread 2 THREAD_BLOCKED [105; 100; 108; 101] PRI_MIN PRI_MIN [] 2 main_page [] (-1) 1 false
    [FSti; CIdleLoop] 0.
Definition boot_threads : gmap Z thread := <[main_page := main_thread]> {[ idle_page := idle_thread_0 ]}.
Definition boot_semas : gmap sema_id semaphore :=
  list_to_map ((λ s, (s, mk_sema 0 [])) <$>
    [idle_started; wait_block main_page; sema_parent_block main_page; exec_block main_page;
     wait_block idle_page; sema_parent_block idle_page; exec_block idle_page]).
Definition booted : sched :=
  mk_sched boot_threads [] [main_page; idle_page] main_page idle_page main_page true false false
    (mk_counters 0 0 0 0 0 3) (<[lock_sema tid_lock := mk_sema 1 []]> boot_semas) {[ tid_lock := 0 ]} ∅ 0.

Lemma boot_result : boot idle_page idle_started (power_on main_page) = Ok (tt, booted).
Proof. vm_compute. reflexivity. Qed.

Inductive reachable : sched → Prop :=
| reach_boot σ : boot idle_page idle_started (power_on main_page) = Ok (tt, σ) → reachable σ
| reach_step σ σ' : reachable σ → step σ σ' → reachable σ'.

Lemma boot_lookup t th :
  boot_threads !! t = Some th → t = main_page ∧ th = main_thread ∨ t = idle_page ∧ th = idle_thread_0.
Proof. unfold boot_threads. intros [[<- <-]|[_ [<- <-]%lookup_singleton_Some]]%lookup_insert_Some; auto. Qed.

Lemma boot_sema s sm :
  semas booted !! s = Some sm → waiters sm = [] ∧ 0 ≤ value sm < 2 ^ 32 ∧ (s.2 = 4 → s.1 = tid_lock).
Proof.
  simpl. intros [[<- <-]|[_ Hs]]%lookup_insert_Some; [done|].
  apply elem_of_list_to_map_2, list_elem_of_fmap in Hs as (s' & [= -> ->] & Hin). split_and!; [done..|].
  intros E. repeat (apply elem_of_cons in Hin as [->|Hin]; [done|]). by apply not_elem_of_nil in Hin.
Qed.

Lemma boot_total w : total w boot_threads = w main_thread + w idle_thread_0.
Proof.
  unfold boot_threads. rewrite total_insert_new by done. rewrite <-insert_empty, total_insert_new by done.
  unfold total. rewrite map_fold_empty. lia.
Qed.

Lemma booted_inv : inv booted.
Proof.
  split.
  - split.
    + intros t th [[-> ->]|[-> ->]]%boot_lookup; done.
    + by intros t [= <-].
    + intros t. split; [by intros ?%not_elem_of_nil|]. intros (th & [[-> ->]|[-> ->]]%boot_lookup & ? & ?); done.
    + constructor.
    + constructor.
    + by exists idle_thread_0.
    + done.
    + intros t th [[-> ->]|[-> ->]]%boot_lookup; (split; [by repeat constructor..|done]).
  - split.
    + intros t th s old [[-> ->]|[-> ->]]%boot_lookup Hin; simpl in Hin.
      * by apply not_elem_of_nil in Hin.
      * by repeat (apply elem_of_cons in Hin as [?|Hin]; [done|]); apply not_elem_of_nil in Hin.
    + intros s sm t [Hw _]%boot_sema Hin. rewrite Hw in Hin. by apply not_elem_of_nil in Hin.
    + intros s sm [-> _]%boot_sema. constructor.
    + intros s sm (_ & ? & _)%boot_sema. done.
    + intros t th [[-> ->]|[-> ->]]%boot_lookup; [done|by left].
    + intros t. simpl. by rewrite boot_total.
  - split.
    + intros l h. simpl. intros [<- <-]%lookup_singleton_Some. eexists. split; [by rewrite lookup_insert_eq|].
      simpl. by rewrite boot_total.
    + intros l. simpl. intros Hl%lookup_singleton_None. split; [|by rewrite boot_total].
      destruct (_ !! lock_sema l) as [sm|] eqn:Hs; [|done].
      apply boot_sema in Hs as (_ & _ & E). specialize (E eq_refl). done.
  - intros s sm [Hw _]%boot_sema ?. done.
  - done.
  - intros c ws. by simpl; rewrite lookup_empty.
  - left. constructor.
Qed.

Lemma reachable_inv σ : reachable σ → inv σ.
Proof.
  induction 1 as [σ Hb|σ σ' _ IH Hstep]; [|by eapply step_inv].
  rewrite boot_result in Hb. injection Hb as <-. apply booted_inv.
Qed.

(** ** Executing steps

    A schedule of calls, interrupts and steps of the running thread, executed:
    the scenarios below are states that such schedules lead to. *)
Inductive event := ECall (f : frame) | ERun | ETimer | EDevice (s : sema_id) | EStray (v : Z).

Definition idle_sema_b (σ : sched) (s : sema_id) : bool :=
  match semas σ !! s with Some sm => bool_decide (waiters sm = []) | None => true end.
Definition run_ok_b (σ : sched) (f : frame) : bool :=
  match f with
  | CSemaInit s _ | CWait _ _ s => idle_sema_b σ s
  | CLockInit l => bool_decide (holders σ !! l = None) && idle_sema_b σ (lock_sema l)
  | CCreate _ _ _ (Some t) =>
      negb (bool_decide (is_Some (threads σ !! t))) && (idle_sema_b σ (sema_parent_block t) &&
      (idle_sema_b σ (exec_block t) && idle_sema_b σ (wait_block t)))
  | _ => true
  end.

Definition fire (e : event) : K unit := λ σ,
  match e with
  | ECall f =>
      if bool_decide (is_Some (threads σ !! running σ)) && bool_decide (stack_of σ (running σ) = []) && public f
      then push f σ else Fault
  | ERun => match stack_of σ (running σ) with f :: _ => if run_ok_b σ f then do_run σ else Fault | [] => Fault end
  | ETimer => if intr σ then do_external timer_interrupt σ else Fault
  | EDevice s => if intr σ && bool_decide (s.2 ≠ 4) then do_external (sema_up s) σ else Fault
  | EStray v => Ok (tt, set_stray v σ)
  end.
Fixpoint fires (es : list event) : K unit :=
  match es with [] => mret tt | e :: es => fire e;; fires es end.
Notation runs_of n := (replicate n ERun).

Lemma idle_sema_b_ok σ s : idle_sema_b σ s = true → idle_sema σ s.
Proof. unfold idle_sema_b. intros H sm Hs. rewrite Hs in H. by apply bool_decide_eq_true in H. Qed.

Lemma run_ok_b_ok σ f : run_ok_b σ f = true → run_ok σ f.
Proof.
  destruct f as [| | | | | | | | | | | | |nm p f page| | | | | | | | | | | | | | | | |]; simpl; try done;
    [auto using idle_sema_b_ok| |auto using idle_sema_b_ok|].
  - intros [?%bool_decide_eq_true ?]%andb_true_iff. auto using idle_sema_b_ok.
  - destruct page as [t|]; [|done]. rewrite !andb_true_iff, negb_true_iff, bool_decide_eq_false, <-eq_None_not_Some.
    naive_solver auto using idle_sema_b_ok.
Qed.

Lemma fire_step e σ σ' : fire e σ = Ok (tt, σ') → step σ σ'.
Proof.
  destruct e as [f| | |s|v]; simpl.
  - destruct (bool_decide_reflect (is_Some (threads σ !! running σ))); [|done].
    destruct (bool_decide_reflect (stack_of σ (running σ) = [])); [|done].
    destruct (public f) eqn:?; [|done]. by apply step_call.
  - destruct (stack_of σ (running σ)) as [|f fs] eqn:Hst; [done|].
    destruct (run_ok_b σ f) eqn:Hok; [|done]. eapply step_run; [done|by apply run_ok_b_ok].
  - destruct (intr σ) eqn:?; [|done]. by apply step_timer.
  - destruct (intr σ) eqn:?; [|done]. destruct (bool_decide_reflect (s.2 ≠ 4)); [|done]. by eapply step_device.
  - intros [= <-]. by apply (step_stray _ _ v).
Qed.

Lemma fires_reachable es σ σ' : reachable σ → fires es σ = Ok (tt, σ') → reachable σ'.
Proof.
  revert σ. induction es as [|e es IH]; intros σ Hr; simpl; [by intros [= <-]|].
  cbv [mbind M_bind]. destruct (fire e σ) as [[[] σ1]| | |] eqn:He; [|done..].
  apply IH. eapply reach_step; [done|by eapply fire_step].
Qed.

(** The state after a schedule from the booted system. *)
Definition after (es : list event) : sched :=
  match fires es booted with Ok (_, σ) => σ | _ => booted end.

Lemma reachable_after es : reachable (after es).
Proof.
  assert (reachable booted) as Hb by (apply reach_boot, boot_result).
  unfold after. destruct (fires es booted) as [[[] σ]| | |] eqn:E; [|done..]. by eapply fires_reachable.
Qed.

(** ** What the lists hold *)

(** Thread [t] waits in the queue of semaphore [s]. *)
Definition waits (σ : sched) (t : Z) (s : sema_id) : Prop :=
  ∃ sm, semas σ !! s = Some sm ∧ t ∈ waiters sm.

(** C1: in every state the kernel can reach, the thread that runs is the one
    marked running; the run queue holds the ready threads but the idle one, each
    once, in the order of descending priority; a thread in the queue of a
    semaphore is blocked and in no other queue, so that its list element, which
    the two kinds of lists share, is on one list at most. *)
Theorem scheduler_lists σ :
  reachable σ →
  (∀ t th, threads σ !! t = Some th → status th = THREAD_RUNNING ↔ t = running σ) ∧
  (∀ t, t ∈ ready_list σ ↔ ∃ th, threads σ !! t = Some th ∧ status th = THREAD_READY ∧ t ≠ idle_thread σ) ∧
  NoDup (ready_list σ) ∧
  Sorted (λ a b, priority_of (threads σ) b ≤ priority_of (threads σ) a) (ready_list σ) ∧
  (∀ t s, waits σ t s → t ∉ ready_list σ ∧
     (∃ th, threads σ !! t = Some th ∧ status th = THREAD_BLOCKED) ∧ (∀ s', waits σ t s' → s' = s)) ∧
  (∀ s sm, semas σ !! s = Some sm → NoDup (waiters sm)).
Proof.
  intros [HK HB _ _ _ _ _]%reachable_inv. split_and!.
  - intros t th Ht. rewrite (k_run _ _ _ _ HK t th Ht). naive_solver.
  - apply (k_ready _ _ _ _ HK).
  - apply (k_nodup _ _ _ _ HK).
  - apply (k_sorted _ _ _ _ HK).
  - intros t s (sm & Hs & Hin). destruct (b_wait _ _ _ HB s sm t Hs Hin) as (th & old & rest & Ht & Hb & Hst).
    split_and!; [|by eauto|].
    + intros (th' & ? & ? & _)%(k_ready _ _ _ _ HK). congruence.
    + intros s' (sm' & Hs' & Hin'). destruct (b_wait _ _ _ HB s' sm' t Hs' Hin') as (? & ? & ? & ? & ? & ?).
      congruence.
  - apply (b_nodup _ _ _ HB).
Qed.

(** Two threads created with priorities 20 and 40 wait in that order. *)
Definition create (t p : Z) : list event := ECall (CCreate [116] p func_other (Some t)) :: runs_of 9.

Lemma scheduler_lists_witness :
  let σ := after (create 4096 20 ++ create 8192 40) in
  ready_list σ = [8192; 4096] ∧ NoDup (ready_list σ).
Proof.
  intros σ. destruct (scheduler_lists σ (reachable_after _)) as (_ & _ & Hnd & _).
  split; [vm_compute; reflexivity|exact Hnd].
Defined.

(** ** Locks *)

(** Code that leaves the holders of all locks as they are. *)
Definition keeps_holders {A} (m : K A) : Prop := ∀ σ, wlp m σ (λ _ σ', holders σ' = holders σ).

Lemma keeps_bind {A B} (m : K A) (k : A → K B) :
  keeps_holders m → (∀ a, keeps_holders (k a)) → keeps_holders (m ≫= k).
Proof.
  intros Hm Hk σ. apply wlp_bind. eapply wlp_mono; [apply Hm|]. simpl. intros a σ' <-. apply Hk.
Qed.
Lemma keeps_ret {A} (a : A) : keeps_holders (mret a).
Proof. intros σ. by wlp_step. Qed.
Lemma keeps_assert b : keeps_holders (assert b).
Proof. intros σ. by wlp_step. Qed.
Lemma keeps_from_option {A} (o : option A) : keeps_holders (from_option o).
Proof. intros σ. by wlp_step. Qed.
Lemma keeps_fault {A} : keeps_holders (fault : K A).
Proof. intros σ. by wlp_step. Qed.
Lemma keeps_get : keeps_holders get.
Proof. intros σ. by wlp_step. Qed.
Lemma keeps_gets {A} (f : sched → A) : keeps_holders (gets f).
Proof. intros σ. by wlp_step. Qed.
Lemma keeps_modify f : (∀ σ, holders (f σ) = holders σ) → keeps_holders (modify f).
Proof. intros Hf σ. wlp_step. apply Hf. Qed.

Create HintDb keeps.
#[local] Hint Resolve keeps_ret keeps_assert keeps_from_option keeps_fault keeps_get keeps_gets : keeps.

(** Goes through the text of a function. *)
Ltac keeps :=
  repeat match goal with
  | |- keeps_holders (mbind _ _) => apply keeps_bind; [|intros ?]
  | |- keeps_holders (modify _) => by apply keeps_modify
  | |- keeps_holders (match ?x with _ => _ end) => destruct x
  | |- _ => solve [auto with keeps]
  end.

Lemma keeps_intr_set_level b : keeps_holders (intr_set_level b).
Proof. unfold intr_set_level, intr_enable, intr_disable, intr_get_level, intr_context. keeps. Qed.
Lemma keeps_intr_disable : keeps_holders intr_disable.
Proof. apply (keeps_intr_set_level false). Qed.
Lemma keeps_intr_enable : keeps_holders intr_enable.
Proof. apply (keeps_intr_set_level true). Qed.
Lemma keeps_load_thread t : keeps_holders (load_thread t).
Proof. unfold load_thread. keeps. Qed.
#[local] Hint Resolve keeps_intr_set_level keeps_intr_disable keeps_intr_enable keeps_load_thread : keeps.
Lemma keeps_upd_thread t f : keeps_holders (upd_thread t f).
Proof. unfold upd_thread. keeps. Qed.
#[local] Hint Resolve keeps_upd_thread : keeps.
Lemma keeps_pushes fs : keeps_holders (pushes fs).
Proof. unfold pushes. keeps. Qed.
Lemma keeps_push f : keeps_holders (push f).
Proof. unfold push. keeps. Qed.
Lemma keeps_return_value v : keeps_holders (return_value v).
Proof. unfold return_value. keeps. Qed.
Lemma keeps_thread_current : keeps_holders thread_current.
Proof. unfold thread_current, running_thread, is_thread. keeps. Qed.
Lemma keeps_schedule : keeps_holders schedule.
Proof.
  unfold schedule, thread_schedule_tail, running_thread, next_thread_to_run, intr_get_level, is_thread. keeps.
Qed.
#[local] Hint Resolve keeps_pushes keeps_push keeps_return_value keeps_thread_current keeps_schedule : keeps.
Lemma keeps_thread_block : keeps_holders thread_block.
Proof. unfold thread_block, intr_context, intr_get_level. keeps. Qed.
Lemma keeps_thread_unblock t : keeps_holders (thread_unblock t).
Proof. unfold thread_unblock, is_thread, insert_ready. keeps. Qed.
Lemma keeps_thread_yield : keeps_holders thread_yield.
Proof. unfold thread_yield, front_priority, intr_context, insert_ready. keeps. Qed.
#[local] Hint Resolve keeps_thread_block keeps_thread_unblock keeps_thread_yield : keeps.
Lemma keeps_sema_init s v : keeps_holders (sema_init s v).
Proof. unfold sema_init. keeps. Qed.
Lemma keeps_load_sema s : keeps_holders (load_sema s).
Proof. unfold load_sema. keeps. Qed.
Lemma keeps_store_sema s v ws : keeps_holders (store_sema s v ws).
Proof. unfold store_sema. keeps. Qed.
#[local] Hint Resolve keeps_sema_init keeps_load_sema keeps_store_sema : keeps.
Lemma keeps_sema_up s : keeps_holders (sema_up s).
Proof. unfold sema_up. keeps. Qed.
Lemma keeps_sema_down_loop s old : keeps_holders (sema_down_loop s old).
Proof. unfold sema_down_loop. keeps. Qed.
Lemma keeps_sema_try_down s : keeps_holders (sema_try_down s).
Proof. unfold sema_try_down. keeps. Qed.
Lemma keeps_held l : keeps_holders (lock_held_by_current_thread l).
Proof. unfold lock_held_by_current_thread, load_holder. keeps. Qed.
#[local] Hint Resolve keeps_sema_up keeps_sema_down_loop keeps_sema_try_down keeps_held : keeps.

Lemma keeps_run_frame f :
  match f with CSetHolder _ | CRelease _ | CLockInit _ => True | _ => keeps_holders (run_frame f) end.
Proof.
  destruct f; try exact I; simpl;
    unfold sema_down, lock_acquire, lock_try_acquire, cond_init, cond_wait, cond_signal, cond_broadcast,
      load_cond, store_cond, thread_create, init_thread, next_tid_step, set_tid_step, thread_create_finish,
      thread_set_priority, thread_exit, timer_sleep, sleep_loop, timer_elapsed, timer_ticks, idle, idle_loop,
      thread_start, kernel_thread, intr_context, intr_get_level; keeps.
Qed.

(** A lock that is held stays with its holder, whose next call is lock_release
    () if it does not. *)
Lemma do_run_holder σ σ' f fs l t :
  inv σ → stack_of σ (running σ) = f :: fs → run_ok σ f → do_run σ = Ok (tt, σ') →
  holders σ !! l = Some t → t ≠ 0 →
  holders σ' !! l = Some t ∨ (t = running σ ∧ f = CRelease l ∧ holders σ' !! l = Some 0).
Proof.
  intros Hinv Hst Hok Hrun Hl Ht. revert Hrun.
  enough (wlp do_run σ (λ _ σ', holders σ' !! l = Some t ∨
    (t = running σ ∧ f = CRelease l ∧ holders σ' !! l = Some 0))) as Hw
    by apply Hw.
  unfold do_run. ksteps. rewrite (stack_of_lookup _ _ _ Hth) in Hst. rewrite Hst. ksteps.
  pose proof (keeps_run_frame f) as Hk.
  destruct f; try (eapply wlp_mono; [apply Hk|]; simpl; intros _ σ1 ->; by left); clear Hk; simpl.
  - unfold lock_init, store_holder, sema_init. ksteps. destruct Hok as [Hnone _]. left.
    rewrite lookup_insert_ne; [done|]. congruence.
  - unfold set_holder, store_holder. ksteps. left.
    rewrite lookup_insert_ne; [done|]. intros ->.
    pose proof (v_lock _ Hinv) as HL. destruct (l_lock _ _ _ HL l t Hl) as (sm & Hsm & Heq).
    pose proof (b_value _ _ _ (v_wait _ Hinv) _ _ Hsm).
    assert (held t = 1) by (unfold held; by rewrite decide_False).
    destruct (pop_ok σ Hinv th Hth _ fs Hst) as (HK & _ & Hs & _); [done| |].
    { intros E. pose proof (so_idle _ _ _ (running_stack _ Hinv _ Hth) E) as Hla. rewrite Hst in Hla.
      by destruct fs. }
    pose proof (shares_nonneg _ _ _ _ l HK) as Hnn. rewrite Hs in Hnn. simpl in Hnn.
    rewrite decide_True in Hnn by done. lia.
  - unfold lock_release, store_holder. ksteps. rewrite bool_decide_eq_true in *. subst.
    destruct (decide (l0 = l)) as [->|Hne]; [right|left].
    { simplify_eq. by rewrite lookup_insert_eq. }
    by rewrite lookup_insert_ne.
Qed.

Lemma do_external_holders handler σ : keeps_holders handler → wlp (do_external handler) σ (λ _ σ', holders σ' = holders σ).
Proof.
  intros Hh. enough (keeps_holders (do_external handler)) as Hk by apply Hk.
  unfold do_external, intr_handler, intr_get_level, intr_context. keeps.
Qed.

Lemma keeps_timer_interrupt : keeps_holders timer_interrupt.
Proof. unfold timer_interrupt, thread_tick, intr_yield_on_return, intr_context. keeps. Qed.

(** C2: a lock that a thread holds stays with that thread, whatever the threads
    and the interrupts do, until that thread itself calls lock_release () on it;
    no other thread becomes its holder in the meantime. *)
Theorem lock_mutual_exclusion σ σ' l t :
  reachable σ → step σ σ' → holders σ !! l = Some t → t ≠ 0 →
  holders σ' !! l = Some t ∨
  (t = running σ ∧ head (stack_of σ t) = Some (CRelease l) ∧ holders σ' !! l = Some 0).
Proof.
  intros Hinv%reachable_inv Hstep Hl Ht.
  destruct Hstep as [f Hth Hst Hp Hr|f fs Hst Hok Hr|Hi Hr|s Hi Hs Hr|v ->].
  - left. by rewrite (keeps_push f σ tt σ' Hr).
  - destruct (do_run_holder σ σ' f fs l t Hinv Hst Hok Hr Hl Ht) as [?|(-> & -> & ?)]; [by left|right].
    by rewrite Hst.
  - left. by rewrite (do_external_holders _ _ keeps_timer_interrupt tt σ' Hr).
  - left. by rewrite (do_external_holders _ _ (keeps_sema_up s) tt σ' Hr).
  - by left.
Qed.

(** The main thread holds a lock when a timer interrupt comes. *)
Definition lock_held : list event := [ECall (CLockInit 77); ERun; ECall (CAcquire 77); ERun; ERun; ERun].

Lemma lock_mutual_exclusion_witness :
  let σ := after lock_held in let σ' := after (lock_held ++ [ETimer]) in
  holders σ !! 77 = Some main_page ∧
  (holders σ' !! 77 = Some main_page ∨
   (main_page = running σ ∧ head (stack_of σ main_page) = Some (CRelease 77) ∧ holders σ' !! 77 = Some 0)).
Proof.
  intros σ σ'. assert (holders σ !! 77 = Some main_page) as Hh by (vm_compute; reflexivity).
  split; [exact Hh|].
  apply (lock_mutual_exclusion σ σ' 77 main_page); [apply reachable_after| |exact Hh|done].
  apply (fire_step ETimer). vm_compute. reflexivity.
Defined.

(** ** Semaphores *)
Lemma total_positive w T :
  0 < total w T → ∃ t th, T !! t = Some th ∧ 0 < w th.
Proof.
  unfold total. revert T.
  refine (map_fold_weak_ind (λ n T, 0 < n → ∃ t th, T !! t = Some th ∧ 0 < w th) _ _ _ _); [done|].
  intros t th T n Ht IH Hn. destruct (decide (0 < w th)) as [Hw|Hw].
  - exists t, th. by rewrite lookup_insert_eq.
  - destruct IH as (u & uh & Hu & ?); [lia|]. exists u, uh.
    rewrite lookup_insert_ne; [done|]. congruence.
Qed.

(** C5: no wakeup is lost.  If a semaphore is positive while threads wait in its
    queue, then a thread that sema_up () has woken is ready or running inside
    sema_down (), about to test the value again. *)
Theorem no_lost_wakeup σ s sm :
  reachable σ → semas σ !! s = Some sm → 0 < value sm → waiters sm ≠ [] →
  ∃ t th old fs, threads σ !! t = Some th ∧ stack th = FDown s old :: fs ∧
    (t = running σ ∨ status th = THREAD_READY ∧ t ∈ ready_list σ).
Proof.
  intros Hinv%reachable_inv Hs Hv Hw. pose proof (v_sched _ Hinv) as HK.
  pose proof (v_wake _ Hinv s sm Hs Hw) as Ht.
  destruct (total_positive (retrying s) (threads σ)) as (t & th & Hth & Hpos); [lia|].
  exists t, th. unfold retrying in Hpos.
  assert (0 < top_down s (stack th) ∧ (status th = THREAD_RUNNING ∨ status th = THREAD_READY)) as [Hd Hs']
    by (destruct (status th); [auto..|lia|lia]).
  destruct (stack th) as [|[] fs] eqn:Hst; simpl in Hd; try lia. case_decide; [subst|lia].
  pose proof (k_stack _ _ _ _ HK t th Hth) as Hok. rewrite Hst in Hok.
  assert (t ≠ idle_thread σ) as Hti.
  { intros E. pose proof (so_allowed _ _ _ Hok) as Ha. inversion Ha as [|?? Hf _]; subst.
    by rewrite bool_decide_true in Hf. }
  exists old_level, fs. split_and!; [done..|]. destruct Hs' as [Hs'|Hs'].
  - left. by apply (k_run _ _ _ _ HK t th Hth) in Hs' as [= ->].
  - right. split; [done|]. apply (k_ready _ _ _ _ HK). eauto.
Qed.

(** Two threads wait for a semaphore when the main thread calls sema_up (). *)
Definition woken : list event :=
  let s := own_sema 9 in
  [ECall (CSemaInit s 0); ERun] ++ create 4096 40 ++ create 8192 40 ++
  [ECall CYield; ERun; ERun; ECall (CSemaDown s); ERun; ERun; ECall (CSemaDown s); ERun; ERun;
   ECall (CSemaUp s); ERun].

Lemma no_lost_wakeup_witness :
  let σ := after woken in
  semas σ !! own_sema 9 = Some (mk_sema 1 [8192]) ∧
  ∃ t th old fs, threads σ !! t = Some th ∧ stack th = FDown (own_sema 9) old :: fs ∧
    (t = running σ ∨ status th = THREAD_READY ∧ t ∈ ready_list σ).
Proof.
  intros σ. assert (semas σ !! own_sema 9 = Some (mk_sema 1 [8192])) as Hs by (vm_compute; reflexivity).
  split; [exact Hs|]. apply (no_lost_wakeup σ (own_sema 9) (mk_sema 1 [8192])); [apply reachable_after|exact Hs|done|done].
Defined.

(** ** Yielding never fails and lets the highest priority run *)
Section total.
Implicit Types (σ : sched).

Lemma wp_of_wlp {A} (m : K A) σ Q : wp m σ (λ _ _, True) → wlp m σ Q → wp m σ Q.
Proof. unfold wp, wlp. destruct (m σ) as [[a σ']| | |]; [|done..]. intros _ H. by apply H. Qed.

Lemma wp_load_thread t th Q σ : threads σ !! t = Some th → Q th σ → wp (load_thread t) σ Q.
Proof. intros Ht HQ. unfold load_thread. wp_step. wp_step. by apply (wp_from_option _ th). Qed.

Lemma wp_upd_thread t th f Q σ :
  threads σ !! t = Some th → Q tt (set_threads (<[t := f th]> (threads σ)) σ) → wp (upd_thread t f) σ Q.
Proof. intros Ht HQ. unfold upd_thread. wp_step. apply (wp_load_thread _ th); [done|]. by wp_step. Qed.

Lemma wp_is_thread t Q σ : t ≠ 0 → is_Some (threads σ !! t) → Q true σ → wp (is_thread t) σ Q.
Proof. intros Ht Hs HQ. unfold is_thread. do 3 wp_step. by rewrite !bool_decide_true. Qed.

Lemma wp_schedule_tail σ t prev th :
  running σ = t → intr σ = false → threads σ !! t = Some th →
  (prev ≠ 0 → prev ≠ t ∧ is_Some (threads σ !! prev)) →
  wp (thread_schedule_tail prev) σ (λ _ _, True).
Proof.
  intros <- Hi Hth Hp. unfold thread_schedule_tail, running_thread, intr_get_level. do 6 wp_step.
  { by rewrite Hi. }
  wp_step. apply (wp_upd_thread _ th); [done|]. do 2 wp_step.
  destruct (bool_decide_reflect (prev ≠ 0)) as [Hp0|]; [|by wp_step].
  destruct (Hp Hp0) as (Hne & p & Hpr). wp_step. apply (wp_load_thread _ p); [simpl; by rewrite lookup_insert_ne|].
  do 2 wp_step. case_match; [|by wp_step]. wp_step. wp_step; [by apply bool_decide_true|]. by wp_step.
Qed.

Lemma wp_schedule σ th :
  mid σ → intr σ = false → threads σ !! running σ = Some th → wp schedule σ (λ _ _, True).
Proof.
  intros Hmid Hi Hth. pose proof (m_sched _ Hmid) as HK.
  assert (status th ≠ THREAD_RUNNING) as Hnr by (by intros ?%(k_run _ _ _ _ HK _ th Hth)).
  assert (∀ t, is_Some (threads σ !! t) → t ≠ 0) as H0.
  { intros t [x Ht] ->. by rewrite (k_null _ _ _ _ HK) in Ht. }
  assert (∃ next R nth, threads σ !! next = Some nth ∧
    next_thread_to_run σ = Ok (next, set_ready R σ)) as (next & R & nth & Hn & Hnext).
  { unfold next_thread_to_run. cbv [mbind M_bind get modify mret M_ret].
    destruct (ready_list σ) as [|t ts] eqn:ER.
    - destruct (k_idle _ _ _ _ HK) as (ith & Hit & _). exists (idle_thread σ), [], ith. split; [done|].
      destruct σ. simpl in *. by rewrite ER.
    - destruct (proj1 (k_ready _ _ _ _ HK t)) as (x & Hx & _); [left|]. by exists t, ts, x. }
  unfold schedule, running_thread, intr_get_level. do 3 wp_step. apply wp_ok. exists next, (set_ready R σ).
  split; [done|]. do 4 wp_step; [simpl; by rewrite Hi|]. wp_step. apply (wp_load_thread _ th); [done|].
  do 2 wp_step; [by apply bool_decide_true|]. wp_step. apply wp_is_thread; [by eauto|by eauto|].
  do 2 wp_step; [done|]. destruct (bool_decide_reflect (running σ ≠ next)) as [Hne|Heq%dec_stable].
  - do 2 wp_step. apply (wp_schedule_tail _ next _ nth); [done..|]. simpl. eauto.
  - by apply (wp_schedule_tail _ (running σ) _ th).
Qed.

Lemma wp_front_priority σ : inv σ → wp front_priority σ (λ _ σ', σ' = σ).
Proof.
  intros Hinv. unfold front_priority. do 2 wp_step. destruct (ready_list σ) as [|t ts] eqn:ER; [by wp_step|].
  destruct (proj1 (k_ready _ _ _ _ (v_sched _ Hinv) t)) as (x & Hx & _); [rewrite ER; left|].
  wp_step. apply (wp_load_thread _ x); [done|]. by wp_step.
Qed.

Lemma wp_thread_current σ th Q :
  running σ ≠ 0 → threads σ !! running σ = Some th → status th = THREAD_RUNNING → Q (running σ) σ →
  wp thread_current σ Q.
Proof.
  intros H0 Hth Hr HQ. unfold thread_current, running_thread. do 3 wp_step.
  apply wp_is_thread; [done|by eauto|]. do 2 wp_step; [done|]. wp_step.
  apply (wp_load_thread _ th); [done|]. do 2 wp_step; [by apply bool_decide_true|by wp_step].
Qed.

Lemma running_not_null i T R c th : sched_ok i (Some c) T R → T !! c = Some th → c ≠ 0.
Proof. intros HK Hth ->. by rewrite (k_null _ _ _ _ HK) in Hth. Qed.

Lemma wp_thread_yield σ : inv_in σ → wp thread_yield σ (λ _ σ', inv σ' ∧ highest_runs σ').
Proof.
  intros Hin. apply wp_of_wlp; [|by apply wlp_thread_yield]. pose proof Hin as [Hinv Hpl].
  destruct (k_run_in _ _ _ _ (v_sched _ Hinv) _ eq_refl) as [th Hth].
  pose proof (running_not_null _ _ _ _ _ (v_sched _ Hinv) Hth) as H0.
  unfold thread_yield. wp_step. apply (wp_thread_current _ th); [done|done|by eapply running_status|].
  wp_step. apply (wp_load_thread _ th); [done|]. wp_step.
  eapply wp_mono; [by apply wp_front_priority|]. simpl. intros p ? ->.
  destruct (p <? priority th); [by wp_step|]. unfold intr_context, intr_disable, intr_get_level, push, insert_ready.
  repeat wp_step; [by rewrite (v_ctx _ Hinv)|].
  pose proof (mid_yield σ th (intr σ) Hin Hth) as Hmid.
  simpl. destruct (bool_decide (running σ ≠ idle_thread σ)); repeat wp_step;
    (apply (wp_upd_thread _ th); [done|]); repeat wp_step;
    (eapply wp_upd_thread; [by simpl; rewrite lookup_insert_eq|]); simpl; rewrite insert_insert_eq;
    (eapply wp_schedule in Hmid; [exact Hmid|done|by simpl; rewrite lookup_insert_eq]).
Qed.
Lemma wp_do_run σ f fs th Q :
  threads σ !! running σ = Some th → stack th = f :: fs →
  wp (run_frame f) (set_threads (<[running σ := set_stack fs th]> (threads σ)) σ) Q → wp do_run σ Q.
Proof.
  intros Hth Hst HQ. unfold do_run. do 3 wp_step. apply (wp_load_thread _ th); [done|]. rewrite Hst.
  wp_step. by apply (wp_upd_thread _ th).
Qed.

(** The test of sema_down () at its loop. *)
Lemma wp_sema_down_loop σ s old th :
  sched_ok (idle_thread σ) (Some (running σ)) (threads σ) (ready_list σ) →
  in_external_intr σ = false → intr σ = false → is_Some (semas σ !! s) → threads σ !! running σ = Some th →
  (∀ sm, semas σ !! s = Some sm → value sm = 0 →
    mid (set_threads (<[running σ := set_status THREAD_BLOCKED (set_stack (FDown s old :: stack th) th)]> (threads σ))
        (set_semas (<[s := mk_sema (value sm) (waiters sm ++ [running σ])]> (semas σ)) σ))) →
  wp (sema_down_loop s old) σ (λ _ _, True).
Proof.
  intros HK Hctx Hi [sm Hsm] Hth Hmid. unfold sema_down_loop, load_sema, store_sema. do 3 wp_step.
  apply (wp_from_option _ sm); [done|]. assert (status th = THREAD_RUNNING) as Hr by by apply (k_run _ _ _ _ HK _ th Hth).
  pose proof (running_not_null _ _ _ _ _ HK Hth) as H0.
  destruct (Z.eqb_spec (value sm) 0) as [Hv|Hv].
  - wp_step. apply (wp_thread_current _ th); [done..|]. do 2 wp_step. wp_step. unfold push, thread_block, intr_context, intr_get_level.
    do 2 wp_step. apply (wp_upd_thread _ th); [done|]. repeat wp_step; [by simpl; rewrite Hctx|by simpl; rewrite Hi|].
    eapply wp_thread_current; [done|by simpl; rewrite lookup_insert_eq|done|].
    wp_step. eapply wp_upd_thread; [by simpl; rewrite lookup_insert_eq|]. simpl. rewrite insert_insert_eq.
    specialize (Hmid sm Hsm Hv). eapply wp_schedule in Hmid; [exact Hmid|done|by simpl; rewrite lookup_insert_eq].
  - unfold intr_set_level, intr_enable, intr_disable, intr_get_level, intr_context.
    destruct old; repeat wp_step; [by simpl; rewrite Hctx|done..].
Qed.

Lemma wp_sema_up σ s r :
  wait_ok (idle_thread σ) (threads σ) (semas σ) →
  sched_ok (idle_thread σ) r (threads σ) (ready_list σ) →
  in_external_intr σ = false → is_Some (semas σ !! s) → wp (sema_up s) σ (λ _ _, True).
Proof.
  intros HB HK Hctx [sm Hsm]. unfold sema_up, load_sema, store_sema, thread_unblock, intr_set_level, intr_enable,
    intr_disable, intr_get_level, intr_context, insert_ready.
  repeat wp_step. apply (wp_from_option _ sm); [done|]. wp_step.
  destruct (waiters sm) as [|t ts] eqn:Hw.
  - repeat wp_step. apply (wp_from_option _ sm); [done|].
    destruct (intr σ); repeat wp_step; [by simpl; rewrite Hctx|done..].
  - destruct (b_wait _ _ _ HB s sm t Hsm) as (th & old & fs & Hth & Hb & _); [rewrite Hw; left|].
    repeat wp_step. apply wp_is_thread; [|by eauto|].
    { intros ->. by rewrite (k_null _ _ _ _ HK) in Hth. }
    repeat wp_step; [done|]. apply (wp_load_thread _ th); [done|].
    repeat wp_step; [by apply bool_decide_true|]. apply (wp_upd_thread _ th); [done|]. simpl.
    repeat wp_step. apply (wp_from_option _ (mk_sema (value sm) ts)); [by simpl; rewrite lookup_insert_eq|].
    destruct (intr σ); repeat wp_step; [by simpl; rewrite Hctx|done..].
Qed.
End total.

(** C17: thread_yield () never fails, neither when a thread calls it nor when the
    timer interrupt that ends a time slice does, whatever the word is that it
    reads from an empty ready list; and when it is done no ready thread has a
    higher priority than the one that runs. *)
Theorem yield_runs_highest σ :
  reachable σ →
  (∀ fs, stack_of σ (running σ) = CYield :: fs → wp do_run σ (λ _ σ', highest_runs σ')) ∧
  (intr σ = true → TIME_SLICE ≤ u32 (thread_ticks (count σ) + 1) →
   wp (do_external timer_interrupt) σ (λ _ σ', highest_runs σ')).
Proof.
  intros Hinv%reachable_inv. destruct (k_run_in _ _ _ _ (v_sched _ Hinv) _ eq_refl) as [th Hth]. split.
  - intros fs Hst. rewrite (stack_of_lookup _ _ _ Hth) in Hst. apply (wp_do_run σ CYield fs th); [done..|].
    eapply wp_mono; [apply wp_thread_yield|by intros _ ? []]. apply (pop_inv σ th CYield); [done..|].
    intros E. pose proof (so_idle _ _ _ (running_stack _ Hinv _ Hth) E) as Hla. rewrite Hst in Hla. by destruct fs.
  - intros Hi Ht. pose proof (push_iret_inv σ th Hinv Hi Hth) as Hin.
    unfold do_external, push, intr_handler, timer_interrupt, thread_tick, intr_yield_on_return, intr_get_level, intr_context.
    repeat wp_step. apply (wp_upd_thread _ th); [done|]. repeat wp_step; [done|by simpl; rewrite (v_ctx _ Hinv)|].
    pose proof (running_not_null _ _ _ _ _ (v_sched _ Hinv) Hth) as H0. pose proof (running_status _ Hinv _ Hth) as Hr.
    eapply wp_thread_current; [done|by simpl; rewrite lookup_insert_eq|done|]. wp_step.
    eapply wp_load_thread; [by simpl; rewrite lookup_insert_eq|]. repeat wp_step. simpl.
    rewrite (proj2 (Z.leb_le _ _) Ht). repeat wp_step; [done|done|done|]. simpl.
    pose proof (inv_in_external _ true (inv_in_count _ (tick_counters (bool_decide (running σ = idle_thread σ))
      (user_process th) (mk_counters (idle_ticks (count σ)) (kernel_ticks (count σ)) (user_ticks (count σ))
      (thread_ticks (count σ)) (s64 (ticks (count σ) + 1)) (next_tid (count σ)))) Hin)) as Hin'.
    eapply wp_mono; [exact (wp_thread_yield _ Hin')|by intros _ ? []].
Qed.

(** The time slice of the main thread ends while a thread of higher priority is
    ready. *)
Lemma yield_runs_highest_witness :
  let σ := after (create 4096 40 ++ [ETimer; ERun; ETimer; ERun; ETimer; ERun]) in
  intr σ = true ∧ thread_ticks (count σ) = 3 ∧
  wp (do_external timer_interrupt) σ (λ _ σ', highest_runs σ').
Proof.
  intros σ. assert (intr σ = true) as Hi by (vm_compute; reflexivity).
  assert (thread_ticks (count σ) = 3) as Ht by (vm_compute; reflexivity).
  split; [exact Hi|]. split; [exact Ht|].
  apply (yield_runs_highest σ (reachable_after _)); [exact Hi|]. rewrite Ht. vm_compute. discriminate.
Defined.

(** the assertions inside the semaphore operations and the scheduler never
    fail.  A thread that executes sema_down () or sema_up () on a semaphore that
    was initialized, or that comes back to the loop of sema_down () after having
    been woken, gets through, up to its return or to the switch to another
    thread. *)
Theorem semaphores_never_panic σ f fs s :
  reachable σ → stack_of σ (running σ) = f :: fs → is_Some (semas σ !! s) →
  f = CSemaDown s ∨ f = CSemaUp s ∨ (∃ old, f = FDown s old) → wp do_run σ (λ _ _, True).
Proof.
  intros Hinv%reachable_inv Hst Hs Hf. destruct (k_run_in _ _ _ _ (v_sched _ Hinv) _ eq_refl) as [th Hth].
  rewrite (stack_of_lookup _ _ _ Hth) in Hst. apply (wp_do_run σ f fs th); [done..|].
  destruct (pop_frame σ th f fs Hinv Hth Hst) as (HK & HB & Hpl); [by destruct Hf as [->|[->|[? ->]]]..|].
  destruct Hf as [->|[->|[old ->]]]; simpl.
  - unfold sema_down, intr_context, intr_disable, intr_get_level. repeat wp_step; [by simpl; rewrite (v_ctx _ Hinv)|].
    simpl. eapply wp_sema_down_loop; simpl; [done|apply Hinv|done|done|by rewrite lookup_insert_eq|].
    intros sm Hsm Hv. eapply (run_down_mid (set_intr false σ)); [by apply inv_off|done|done|by left|done|done].
  - by eapply wp_sema_up; [done|done|apply Hinv|].
  - assert (intr σ = false) as Hi.
    { destruct (v_intr _ Hinv) as [Hp|]; [|done]. rewrite (stack_of_lookup _ _ _ Hth), Hst in Hp. by inversion Hp. }
    eapply wp_sema_down_loop; simpl; [done|apply Hinv|done|done|by rewrite lookup_insert_eq|].
    intros sm Hsm Hv. eapply (run_down_mid σ); [done|done|done|by right|done|done].
Qed.

(** The first of the two waiting threads comes back to the loop. *)
Lemma semaphores_never_panic_witness :
  let σ := after (woken ++ [ECall CYield; ERun]) in
  stack_of σ (running σ) = [FDown (own_sema 9) true] ∧ wp do_run σ (λ _ _, True).
Proof.
  intros σ. assert (stack_of σ (running σ) = [FDown (own_sema 9) true]) as Hst by (vm_compute; reflexivity).
  split; [exact Hst|].
  apply (semaphores_never_panic σ (FDown (own_sema 9) true) [] (own_sema 9));
    [apply reachable_after|exact Hst|vm_compute; eauto|by right; right; exists true].
Defined.
