(* ===== verification/Init.v ===== *)
(** * Starting the kernel: threads/init.c and devices/shutdown.c

    How the kernel takes its command line apart, sets its options and runs the
    actions it is given, built with USERPROG and FILESYS but not VM.  The command
    line lies in memory where the loader left it; the options point into it.  The
    commands of fsutil.c and of process.c that the actions stand for, and the
    real-time clock, are arguments.  What is printed is left out. *)

From stdpp Require Import strings.
From S2P Require Import Prelude CString SortSearch Random Vaddr Printf Block.
Local Open Scope Z_scope.

(** ** threads/loader.h *)

Definition LOADER_END : Z := 0x7e00.
Definition LOADER_SIG_LEN : Z := 2.
Definition LOADER_PARTS_LEN : Z := 64.
Definition LOADER_ARGS_LEN : Z := 128.
Definition LOADER_ARG_CNT_LEN : Z := 4.
Definition LOADER_SIG : Z := LOADER_END - LOADER_SIG_LEN.
Definition LOADER_PARTS : Z := LOADER_SIG - LOADER_PARTS_LEN.
Definition LOADER_ARGS : Z := LOADER_PARTS - LOADER_ARGS_LEN.
Definition LOADER_ARG_CNT : Z := LOADER_ARGS - LOADER_ARG_CNT_LEN.

(** ** The command line *)

Definition load_u32 (a : Z) : M memory Z :=
  b0 ← CString.load a; b1 ← CString.load (a + 1); b2 ← CString.load (a + 2); b3 ← CString.load (a + 3);
  mret (b0 + 2 ^ 8 * b1 + 2 ^ 16 * b2 + 2 ^ 24 * b3).
(** An index of the static array argv. *)
Definition argv_index (i : Z) : M memory unit := if (0 <=? i) && (i <? LOADER_ARGS_LEN / 2 + 1) then mret tt else fault.
(** for (i = 0; i < argc; i++), [n] iterations left. *)
Fixpoint read_args (n : nat) (i p finish : Z) : M memory (list Z) :=
  match n with
  | O => mret []
  | S n =>
    assert (p <? finish);;
    argv_index i;;
    len ← strnlen (Z.to_nat LOADER_ARGS_LEN + 1) p (finish - p);
    rest ← read_args n (i + 1) (p + (len + 1)) finish;
    mret (p :: rest)
  end.
Definition read_command_line : M memory (list Z) :=
  a ← ptov LOADER_ARG_CNT;
  n ← load_u32 a;
  let argc := s32 n in
  p ← ptov LOADER_ARGS;
  argv ← read_args (Z.to_nat argc) 0 p (p + LOADER_ARGS_LEN);
  argv_index argc;;
  mret argv.

(** ** Options *)

Inductive shutdown_type := SHUTDOWN_NONE | SHUTDOWN_POWER_OFF | SHUTDOWN_REBOOT.
(** The static variables that options set; names are pointers. *)
Record options := mk_options {
  format_filesys : bool;
  filesys_bdev_name : Z;
  scratch_bdev_name : Z;
  user_page_limit : Z;
  thread_mlfqs : bool;
  how : shutdown_type;
}.
Record kernel := mk_kernel { k_mem : memory; k_options : options; k_random : rc4 }.
Definition in_memory {A} (m : M memory A) : M kernel A :=
  zoom k_mem (λ x k, mk_kernel x (k_options k) (k_random k)) m.
Definition set_options (f : options → options) : M kernel unit :=
  modify (λ k, mk_kernel (k_mem k) (f (k_options k)) (k_random k)).
Definition seed_random (seed : Z) : M kernel unit :=
  zoom k_random (λ x k, mk_kernel (k_mem k) (k_options k) x) (random_init seed).

Section options.
(** The addresses of the literals "=" and of the empty string, the time of the
    real-time clock, and a bound for the lengths of strings. *)
Context (equals empty : Z) (rtc_time : Z) (fuel : nat).

(** The string at [p]. *)
Fixpoint string_at (n : nat) (p : Z) : M memory (list Z) :=
  match n with
  | O => nofuel
  | S n => c ← CString.load p; if c =? 0 then mret [] else s ← string_at n (p + 1); mret (c :: s)
  end.
(** atoi (value), with its assertion. *)
Definition atoi_at (value : Z) : M memory Z :=
  assert (negb (value =? NULL));; s ← string_at fuel value; mret (atoi s).
Definition shutdown_configure (type : shutdown_type) : M kernel unit :=
  set_options (λ o, mk_options (format_filesys o) (filesys_bdev_name o) (scratch_bdev_name o) (user_page_limit o) (thread_mlfqs o) type).

(** What an option does; usage () powers the machine off, and false is returned. *)
Definition do_option (name : list Z) (value : Z) : M kernel bool :=
  if decide (name = chars "-h") then mret false
  else if decide (name = chars "-q") then shutdown_configure SHUTDOWN_POWER_OFF;; mret true
  else if decide (name = chars "-r") then shutdown_configure SHUTDOWN_REBOOT;; mret true
  else if decide (name = chars "-f") then
    set_options (λ o, mk_options true (filesys_bdev_name o) (scratch_bdev_name o) (user_page_limit o) (thread_mlfqs o) (how o));; mret true
  else if decide (name = chars "-filesys") then
    set_options (λ o, mk_options (format_filesys o) value (scratch_bdev_name o) (user_page_limit o) (thread_mlfqs o) (how o));; mret true
  else if decide (name = chars "-scratch") then
    set_options (λ o, mk_options (format_filesys o) (filesys_bdev_name o) value (user_page_limit o) (thread_mlfqs o) (how o));; mret true
  else if decide (name = chars "-rs") then
    n ← in_memory (atoi_at value); seed_random (u32 n);; mret true
  else if decide (name = chars "-mlfqs") then
    set_options (λ o, mk_options (format_filesys o) (filesys_bdev_name o) (scratch_bdev_name o) (user_page_limit o) true (how o));; mret true
  else if decide (name = chars "-ul") then
    n ← in_memory (atoi_at value);
    set_options (λ o, mk_options (format_filesys o) (filesys_bdev_name o) (scratch_bdev_name o) (u32 n) (thread_mlfqs o) (how o));; mret true
  else panic.
(** The loop over argv; [None] when the machine has been powered off. *)
Fixpoint options_loop (argv : list Z) : M kernel (option (list Z)) :=
  match argv with
  | [] => mret (Some [])
  | arg :: rest =>
    c ← in_memory (CString.load arg);
    if c =? 45 then
      '(name, save) ← in_memory (strtok_r fuel arg equals 0);
      '(value, _) ← in_memory (strtok_r fuel NULL empty save);
      s ← in_memory (string_at fuel name);
      go ← do_option s value;
      if go : bool then options_loop rest else mret None
    else mret (Some argv)
  end.
Definition parse_options (argv : list Z) : M kernel (option (list Z)) :=
  r ← options_loop argv;
  match r with
  | Some argv => seed_random (u32 rtc_time);; mret (Some argv)
  | None => mret None
  end.
End options.

(** ** Actions *)

(** run_task () and the functions of fsutil.c. *)
Inductive function := run_task | fsutil_ls | fsutil_cat | fsutil_rm | fsutil_extract | fsutil_append.
Definition actions : list (list Z * nat * function) :=
  [(chars "run", 2%nat, run_task); (chars "ls", 1%nat, fsutil_ls); (chars "cat", 2%nat, fsutil_cat);
   (chars "rm", 2%nat, fsutil_rm); (chars "extract", 1%nat, fsutil_extract); (chars "append", 2%nat, fsutil_append)].
Fixpoint find_action (l : list (list Z * nat * function)) (name : list Z) : option (nat * function) :=
  match l with
  | [] => None
  | (n, argc, f) :: l => if decide (name = n) then Some (argc, f) else find_action l name
  end.

Section actions.
(** The call of a function with the rest of argv, here the strings themselves. *)
Context {S : Type} (invoke : function → list (list Z) → M S unit).

(** The loop while there are arguments, at most [n] rounds. *)
Fixpoint actions_loop (n : nat) (argv : list (list Z)) : M S unit :=
  match n with
  | O => nofuel
  | Datatypes.S n =>
    match argv with
    | [] => mret tt
    | name :: _ =>
      match find_action actions name with
      | None => panic
      | Some (argc, f) =>
        assert (argc <=? length argv)%nat;;
        invoke f argv;;
        actions_loop n (drop argc argv)
      end
    end
  end.
Definition run_actions (argv : list (list Z)) : M S unit := actions_loop (Datatypes.S (length argv)) argv.
End actions.

(** ** Block devices *)

(** for (block = block_first (); block != NULL; block = block_next (block)), at most
    [n] rounds. *)
Fixpoint first_of_type (n : nat) (role : block_kind) (b : option nat) : M registry (option nat) :=
  match b with
  | None => mret None
  | Some i =>
    match n with
    | O => nofuel
    | S n =>
      r ← get;
      d ← from_option (all_blocks r !! i);
      if decide (dev_type d = role) then mret (Some i)
      else b ← block_next i; first_of_type n role b
    end
  end.
Definition locate_block_device (role : block_kind) (name : option (list Z)) : M registry unit :=
  b ← (match name with
       | Some name =>
         b ← block_get_by_name name;
         match b with None => panic | Some _ => mret b end
       | None => b ← block_first; r ← get; first_of_type (length (all_blocks r)) role b
       end);
  match b with
  | Some _ => block_set_role role b
  | None => mret tt
  end.
Definition locate_block_devices (filesys scratch : option (list Z)) : M registry unit :=
  locate_block_device BLOCK_FILESYS filesys;;
  locate_block_device BLOCK_SCRATCH scratch.

(** ** devices/shutdown.c *)

(** What becomes of the machine: shutdown () returns, or writes the power-off sequence
    to its port and halts, or resets the processor. *)
Inductive ending := Returned | PoweredOff (ports : list (Z * Z)) | Rebooted.
Definition power_off_sequence : list (Z * Z) := (λ c, (0x8900, c)) <$> chars "Shutdown".
Section shutdown.
Context {S : Type} (filesys_done : M S unit).
Definition shutdown_power_off : M S ending := filesys_done;; mret (PoweredOff power_off_sequence).
Definition shutdown (o : options) : M S ending :=
  match how o with
  | SHUTDOWN_POWER_OFF => shutdown_power_off
  | SHUTDOWN_REBOOT => mret Rebooted
  | SHUTDOWN_NONE => mret Returned
  end.
End shutdown.
