(* ===== verification/InitThms.v ===== *)
(** * Theorems on the start of the kernel

    The command line comes out as the loader put it in; the options have the effect
    of a reading of the words one after the other; actions run in order. *)

From stdpp Require Import strings.
From S2P Require Import Prelude CString SortSearch Random Vaddr Printf Block Init.
Local Open Scope Z_scope.
Local Notation len l := (Z.of_nat (length l)).

(** ** The words of the command line *)

(** The strings [ss], one behind the other, from [a] on; their addresses, and the end. *)
Fixpoint strings_at (m : memory) (a : Z) (ss : list (list Z)) : Prop :=
  match ss with [] => True | s :: ss => cstr m a s ∧ strings_at m (a + len s + 1) ss end.
Fixpoint addresses (a : Z) (ss : list (list Z)) : list Z :=
  match ss with [] => [] | s :: ss => a :: addresses (a + len s + 1) ss end.
Fixpoint room (ss : list (list Z)) : Z :=
  match ss with [] => 0 | s :: ss => len s + 1 + room ss end.
Lemma room_nonneg ss : 0 ≤ room ss.
Proof. induction ss as [|s ss IH]; simpl; lia. Qed.

Lemma wp_strnlen_loop fuel m a s t maxlen n Q : cstr m a (s ++ t) → len s = n → n ≤ maxlen → len (s ++ t) < maxlen →
  (length t < fuel)%nat → Q (len (s ++ t)) m → wp (strnlen_loop fuel a maxlen n) m Q.
Proof.
  revert s n t. induction fuel as [|fuel IH]; intros s n t Hs Hn Hm Hl Hf HQ; [lia|]. cbn [strnlen_loop].
  pose proof (proj2 (proj1 (cstr_app m a s t) Hs)) as Ht. rewrite Hn in Ht.
  wp_step. apply (wp_load_byte _ _ _ _ (cstr_load _ _ _ Ht)). destruct t as [|c t]; simpl char0.
  - simpl. wp_step. by rewrite app_nil_r, Hn in HQ.
  - destruct Ht as (_ & Hc & _). rewrite length_app in Hl. simpl in Hl, Hf.
    rewrite (proj2 (Z.eqb_neq c 0)), (proj2 (Z.ltb_lt n maxlen)) by lia. simpl.
    apply (IH (s ++ [c]) (n + 1) t); rewrite <-?app_assoc; simpl; rewrite ?length_app in *; simpl in *; try done; lia.
Qed.
Lemma wp_read_args ss m a i finish Q : strings_at m a ss → a + room ss ≤ finish → finish - a ≤ 128 →
  0 ≤ i → i + len ss ≤ 64 → Q (addresses a ss) m → wp (read_args (length ss) i a finish) m Q.
Proof.
  revert a i Q. induction ss as [|s ss IH]; intros a i Q Hs Hr Hf Hi Hn HQ; cbn [read_args length].
  { by wp_step. }
  destruct Hs as [Hs Hss]. simpl in Hr, Hn. pose proof (room_nonneg ss) as Hp.
  do 2 wp_step; [apply Z.ltb_lt; lia|]. wp_step. unfold argv_index.
  change (LOADER_ARGS_LEN / 2 + 1) with 65. rewrite (proj2 (Z.leb_le 0 i)), (proj2 (Z.ltb_lt i 65)) by lia. simpl. wp_step.
  wp_step. unfold strnlen. change (Z.to_nat LOADER_ARGS_LEN + 1)%nat with 129%nat.
  apply (wp_strnlen_loop _ _ _ [] s); [done|done|lia|simpl; lia|lia|]. simpl app.
  wp_step. replace (a + (len s + 1)) with (a + len s + 1) by lia. apply IH; [done|lia|lia|lia|lia|]. wp_step. exact HQ.
Qed.
(** The four bytes of the number of arguments. *)
Definition count_at (m : memory) (a n : Z) : Prop :=
  m !! a = Some (n mod 256) ∧ m !! (a + 1) = Some (n / 2 ^ 8 mod 256) ∧ m !! (a + 2) = Some (n / 2 ^ 16 mod 256) ∧
  m !! (a + 3) = Some (n / 2 ^ 24).
(** A command line of at most 64 words that fits in the 128 bytes of the boot
    sector is read word for word. *)
Theorem read_command_line_correct m ss :
  strings_at m (PHYS_BASE + LOADER_ARGS) ss → room ss ≤ LOADER_ARGS_LEN → len ss ≤ 64 →
  count_at m (PHYS_BASE + LOADER_ARG_CNT) (len ss) →
  read_command_line m = Ok (addresses (PHYS_BASE + LOADER_ARGS) ss, m).
Proof.
  intros Hs Hr Hn (H0 & H1 & H2 & H3).
  assert (wp read_command_line m (λ argv m', argv = addresses (PHYS_BASE + LOADER_ARGS) ss ∧ m' = m)) as Hw.
  { unfold read_command_line. wp_step. apply wp_ptov; [done|]. wp_step. unfold load_u32.
    replace (LOADER_ARG_CNT + PHYS_BASE) with (PHYS_BASE + LOADER_ARG_CNT) by lia.
    wp_step. apply (wp_load_byte _ _ _ _ H0). wp_step. apply (wp_load_byte _ _ _ _ H1).
    wp_step. apply (wp_load_byte _ _ _ _ H2). wp_step. apply (wp_load_byte _ _ _ _ H3). do 2 wp_step.
    replace (LOADER_ARGS + PHYS_BASE) with (PHYS_BASE + LOADER_ARGS) by lia.
    assert (s32 (len ss mod 256 + 2 ^ 8 * (len ss / 2 ^ 8 mod 256) + 2 ^ 16 * (len ss / 2 ^ 16 mod 256) + 2 ^ 24 * (len ss / 2 ^ 24)) = len ss) as ->.
    { rewrite swrap_small; Z.to_euclidean_division_equations; lia. }
    apply wp_ptov; [done|]. wp_step. rewrite Nat2Z.id.
    replace (LOADER_ARGS + PHYS_BASE) with (PHYS_BASE + LOADER_ARGS) by lia.
    apply wp_read_args; [done|unfold LOADER_ARGS_LEN in *; lia|unfold LOADER_ARGS_LEN; lia|lia|lia|].
    wp_step. unfold argv_index. change (LOADER_ARGS_LEN / 2 + 1) with 65.
    rewrite (proj2 (Z.leb_le 0 _)), (proj2 (Z.ltb_lt _ 65)) by lia. simpl. wp_step. by wp_step. }
  apply wp_ok in Hw as (argv & m' & E & -> & ->). done.
Qed.

(** ** Actions *)

Section actions.
Context {S : Type} (invoke : function → list (list Z) → M S unit).
(** The functions look at their own arguments only. *)
Context (invoke_args : ∀ f argc argv, (∃ n, (n, argc, f) ∈ actions) → invoke f argv = invoke f (take argc argv)).

(** An action with its arguments. *)
Definition action_ok (act : list (list Z)) : Prop :=
  ∃ name args argc f, act = name :: args ∧ find_action actions name = Some (argc, f) ∧ length act = argc.
Definition run_action (act : list (list Z)) : M S unit :=
  match act with
  | name :: _ => match find_action actions name with Some (_, f) => invoke f act | None => panic end
  | [] => panic
  end.
Fixpoint run_all (acts : list (list (list Z))) : M S unit :=
  match acts with [] => mret tt | act :: acts => run_action act;; run_all acts end.
(** What is neither the end nor the beginning of an action: an unknown word, or one with
    too few arguments. *)
Definition malformed (argv : list (list Z)) : Prop :=
  ∃ name args, argv = name :: args ∧
    match find_action actions name with Some (argc, _) => (length argv < argc)%nat | None => True end.

Lemma find_action_in l name argc f : find_action l name = Some (argc, f) → (name, argc, f) ∈ l.
Proof.
  induction l as [|[[n c] g] l IH]; simpl; [done|]. case_decide as E.
  - intros [= -> ->]. subst. apply elem_of_cons. by left.
  - intros H. apply elem_of_cons. right. auto.
Qed.
Lemma actions_argc name argc f : (name, argc, f) ∈ actions → (0 < argc)%nat.
Proof. unfold actions. rewrite !elem_of_cons, elem_of_nil. intuition; simplify_eq; lia. Qed.
Lemma actions_loop_spec acts rest n s : Forall action_ok acts → rest = [] ∨ malformed rest →
  (length (concat acts ++ rest) < n)%nat →
  actions_loop invoke n (concat acts ++ rest) s = (run_all acts;; if decide (rest = []) then mret tt else panic) s.
Proof using invoke_args.
  intros Ha Hr. revert n s. induction Ha as [|act acts (name & args & argc & f & -> & Hf & Hl) Ha IH]; intros [|n] s Hn; try lia.
  - simpl concat in *. rewrite app_nil_l in *. cbn [actions_loop]. destruct Hr as [->|(name & args & -> & Hm)]; [done|].
    destruct (find_action actions name) as [[argc f]|] eqn:E; [|done].
    unfold mbind, M_bind. rewrite (proj2 (Nat.leb_gt _ _)) by lia. done.
  - simpl concat. cbn [actions_loop app]. rewrite Hf.
    assert ((argc <=? length (name :: (args ++ concat acts) ++ rest))%nat = true) as Hle.
    { apply Nat.leb_le. simpl in *. rewrite !length_app. lia. }
    unfold mbind at 1, M_bind at 1. rewrite Hle. simpl assert. unfold mret, M_ret.
    cbn [run_all run_action]. rewrite Hf.
    rewrite (invoke_args f argc (name :: _)) by (eexists; by apply find_action_in).
    assert (take argc (name :: (args ++ concat acts) ++ rest) = name :: args) as ->.
    { rewrite <-app_assoc, app_comm_cons, take_app_length'; [done|done]. }
    assert (drop argc (name :: (args ++ concat acts) ++ rest) = concat acts ++ rest) as ->.
    { rewrite <-app_assoc, app_comm_cons, drop_app_length'; [done|done]. }
    unfold mbind, M_bind. destruct (invoke f (name :: args) s) as [[[] s']| | |]; [|done..].
    rewrite IH; [done|]. simpl in Hn. rewrite !length_app in *. simpl in *. lia.
Qed.
(** Every command line is of that form. *)
Lemma actions_parse argv : ∃ acts rest, argv = concat acts ++ rest ∧ Forall action_ok acts ∧ (rest = [] ∨ malformed rest).
Proof.
  induction argv as [argv IH] using (induction_ltof1 _ (@length (list Z))). unfold ltof in IH.
  destruct argv as [|name args]; [by exists [], []; auto|].
  destruct (find_action actions name) as [[argc f]|] eqn:E; cycle 1.
  { exists [], (name :: args). split; [done|]. split; [done|]. right. exists name, args. by rewrite E. }
  destruct (decide (length (name :: args) < argc)%nat) as [Hl|Hl].
  { exists [], (name :: args). split; [done|]. split; [done|]. right. exists name, args. by rewrite E. }
  pose proof (actions_argc _ _ _ (find_action_in _ _ _ _ E)) as Hp.
  destruct (IH (drop argc (name :: args))) as (acts & rest & Ed & Ha & Hr); [rewrite length_drop; simpl in *; lia|].
  exists (take argc (name :: args) :: acts), rest. split; [|split; [|done]].
  - simpl concat. rewrite <-app_assoc, <-Ed. by rewrite take_drop.
  - constructor; [|done]. destruct argc as [|argc]; [lia|]. exists name, (take argc args), (Datatypes.S argc), f.
    split; [done|]. split; [done|]. rewrite length_take. simpl in *. lia.
Qed.
(** run_actions () runs the actions on the command line in order, each with its own
    arguments, until the end or until a word that is no action or lacks its arguments,
    where it panics; every command line can be read that way. *)
Theorem run_actions_correct argv : ∃ acts rest,
  argv = concat acts ++ rest ∧ Forall action_ok acts ∧ (rest = [] ∨ malformed rest) ∧
  ∀ s, run_actions invoke argv s = (run_all acts;; if decide (rest = []) then mret tt else panic) s.
Proof using invoke_args.
  destruct (actions_parse argv) as (acts & rest & -> & Ha & Hr). exists acts, rest.
  split; [done|]. split; [done|]. split; [done|]. intros s. apply actions_loop_spec; [done|done|lia].
Qed.
End actions.

(** ** Options *)

(** What the options say, with names as strings. *)
Record config := mk_config {
  c_format : bool; c_filesys : option (list Z); c_scratch : option (list Z);
  c_limit : Z; c_mlfqs : bool; c_how : shutdown_type }.
Inductive reading := Reads (c : config) | Helps | Fails.
(** A word split at the first equals sign; nothing behind it is as good as none. *)
Definition split_word (s : list Z) : list Z * option (list Z) :=
  let '(name, rest) := span (λ c, negb (c =? 61)) s in
  (name, match rest with _ :: v :: vs => Some (v :: vs) | _ => None end).
Definition read_option (w : list Z * option (list Z)) (c : config) : reading :=
  let '(name, value) := w in
  if decide (name = chars "-h") then Helps
  else if decide (name = chars "-q") then
    Reads (mk_config (c_format c) (c_filesys c) (c_scratch c) (c_limit c) (c_mlfqs c) SHUTDOWN_POWER_OFF)
  else if decide (name = chars "-r") then
    Reads (mk_config (c_format c) (c_filesys c) (c_scratch c) (c_limit c) (c_mlfqs c) SHUTDOWN_REBOOT)
  else if decide (name = chars "-f") then
    Reads (mk_config true (c_filesys c) (c_scratch c) (c_limit c) (c_mlfqs c) (c_how c))
  else if decide (name = chars "-filesys") then
    Reads (mk_config (c_format c) value (c_scratch c) (c_limit c) (c_mlfqs c) (c_how c))
  else if decide (name = chars "-scratch") then
    Reads (mk_config (c_format c) (c_filesys c) value (c_limit c) (c_mlfqs c) (c_how c))
  else if decide (name = chars "-rs") then match value with Some _ => Reads c | None => Fails end
  else if decide (name = chars "-mlfqs") then
    Reads (mk_config (c_format c) (c_filesys c) (c_scratch c) (c_limit c) true (c_how c))
  else if decide (name = chars "-ul") then
    match value with
    | Some v => Reads (mk_config (c_format c) (c_filesys c) (c_scratch c) (u32 (atoi v)) (c_mlfqs c) (c_how c))
    | None => Fails
    end
  else Fails.
(** The words up to the first that is no option, and the rest. *)
Fixpoint read_options (ss : list (list Z)) (c : config) : reading * list (list Z) :=
  match ss with
  | s :: rest =>
    if char0 s =? 45 then
      match read_option (split_word s) c with
      | Reads c => read_options rest c
      | r => (r, rest)
      end
    else (Reads c, ss)
  | [] => (Reads c, [])
  end.

Lemma split_word_value s name v : split_word s = (name, Some v) → v ≠ [].
Proof. unfold split_word. destruct (span _ s) as [n [|x [|y r]]]; by intros [= -> <-]. Qed.

Section options.
Context (equals empty rtc_time : Z) (fuel : nat).
Context (Heq : 0 < equals) (Hem : 0 < empty).

(** A pointer to a string below [a], or a null pointer. *)
Definition name_at (m : memory) (a p : Z) (o : option (list Z)) : Prop :=
  match o with None => p = NULL | Some v => cstr m p v ∧ 0 < p ∧ p + len v < a end.
Record options_match (m : memory) (a : Z) (o : options) (c : config) : Prop := {
  om_format : format_filesys o = c_format c;
  om_filesys : name_at m a (filesys_bdev_name o) (c_filesys c);
  om_scratch : name_at m a (scratch_bdev_name o) (c_scratch c);
  om_limit : user_page_limit o = c_limit c;
  om_mlfqs : thread_mlfqs o = c_mlfqs c;
  om_how : how o = c_how c;
}.
(** The literals, outside of [[a, b)]. *)
Definition literals (m : memory) (a b : Z) : Prop :=
  cstr m equals [61] ∧ cstr m empty [] ∧
  (equals + 1 < a ∨ b ≤ equals) ∧ (empty < a ∨ b ≤ empty).

Lemma name_at_frame m m' a b p o : (∀ q, q < a → m' !! q = m !! q) → a ≤ b → name_at m a p o → name_at m' b p o.
Proof.
  intros Hf Hab. destruct o as [v|]; [|done]. intros (Hc & Hp & Hl). split; [|lia].
  eapply cstr_frame; [|done]. intros i Hi. apply Hf. lia.
Qed.
Lemma wp_string_at n m p s Q : cstr m p s → (length s < n)%nat → Q s m → wp (string_at n p) m Q.
Proof.
  revert p s Q. induction n as [|n IH]; intros p s Q Hs Hn HQ; [lia|]. cbn [string_at]. wp_step.
  apply (wp_load_byte _ _ _ _ (cstr_load _ _ _ Hs)). destruct s as [|c s]; simpl.
  - by wp_step.
  - destruct Hs as (_ & Hc & Hs). rewrite (proj2 (Z.eqb_neq c 0)) by lia. wp_step.
    apply (IH _ s); [done|simpl in Hn; lia|]. by wp_step.
Qed.
Lemma span_ext (p q : Z → bool) s : (∀ c, p c = q c) → span p s = span q s.
Proof. intros H. induction s as [|c s IH]; simpl; [done|]. by rewrite H, IH. Qed.
Lemma is_delim_equals c : is_delim [61] c = (c =? 61).
Proof. unfold is_delim. case_bool_decide as E; rewrite list_elem_of_singleton in E; lia. Qed.
Lemma span_all (p : Z → bool) s : (∀ c, p c = true) → span p s = (s, []).
Proof. intros H. induction s as [|c s IH]; simpl; [done|]. by rewrite H, IH. Qed.
Lemma span_none (p : Z → bool) s : (∀ c, p c = false) → span p s = ([], s).
Proof. intros H. destruct s; simpl; [done|]. by rewrite H. Qed.
(** The call of strtok_r () with no delimiters returns what is left, if anything. *)
Lemma wp_strtok_rest m p s Q : cstr m empty [] → cstr m p s → 0 < p → (length s < fuel)%nat →
  (s = [] → Q (NULL, p) m) → (s ≠ [] → Q (p, p + len s) m) →
  wp (strtok_r fuel NULL empty p) m Q.
Proof using Hem.
  intros He Hs Hp Hf H0 H1. eapply (wp_strtok_r empty [] Hem m fuel NULL p p s [] s s []); try done.
  - simpl. lia.
  - by apply span_none.
  - by apply span_all.
  - simpl. rewrite Z.add_0_r. done.
  - simpl. rewrite Z.add_0_r. auto.
Qed.
(** The call that finds the name of an option. *)
Lemma wp_strtok_name m a w Q : let s := 45 :: w in let '(name, value) := split_word s in
  cstr m equals [61] → cstr m a s → 0 < a → (length s + 1 < fuel)%nat →
  (∀ m' save, cstr m' a name → cstr m' save (default [] value) → same_except a (len s + 1) m m' →
     0 < save → a + len name ≤ save → save + len (default [] value) ≤ a + len s → Q (a, save) m') →
  wp (strtok_r fuel a equals 0) m Q.
Proof using Heq.
  intros s. unfold split_word. destruct (span (λ c, negb (c =? 61)) s) as [name rest] eqn:E.
  intros He Hs Ha Hf HQ. pose proof (span_app (λ c, negb (c =? 61)) s) as Es. rewrite E in Es. simpl in Es.
  assert (name ≠ []) as Hne by (intros ->; unfold s in E; simpl in E; by destruct (span _ w)).
  assert (len s = len name + len rest) as Hlen by (rewrite Es, length_app; lia).
  assert (span (is_delim [61]) s = ([], s)) as E0 by done. clearbody s.
  eapply (wp_strtok_r equals [61] Heq m fuel a 0 a s [] s name rest).
  - done.
  - done.
  - done.
  - by rewrite (nonnull a).
  - simpl in *. lia.
  - done.
  - rewrite <-E. apply span_ext. intros c. by rewrite is_delim_equals.
  - done.
  - intros _ ->. simpl. rewrite Z.add_0_r. rewrite app_nil_r in Es. rewrite Es in Hs. cbn [length] in Hlen.
    apply HQ; simpl; [done| |done|lia|lia|lia]. rewrite <-(app_nil_r name) in Hs. by apply cstr_app in Hs as [_ Hs].
  - intros c r _ ->. simpl. rewrite Z.add_0_r. cbn [length] in Hlen. rewrite Es in Hs.
    assert (default [] (match r with [] => None | v :: vs => Some (v :: vs) end) = r) as Er by by destruct r.
    apply HQ; rewrite ?Er; [|apply cstr_app in Hs as [_ (_ & _ & Hs)]| |lia|lia|lia].
    + by eapply cstr_cut.
    + eapply cstr_frame; [|done]. intros i Hi. apply lookup_insert_ne. lia.
    + intros q Hq. apply lookup_insert_ne. lia.
Qed.

(** Running [m] has the outcome [r]: it returns with [P] for the configuration read, it
    returns with [off] when the machine is powered off, or it panics. *)
Definition leads {A} (r : reading) (m : M kernel A) (k : kernel) (P : config → A → kernel → Prop) (off : A → Prop) : Prop :=
  match m k with
  | Ok (x, k') => match r with Reads c => P c x k' | Helps => off x | Fails => False end
  | Panic => r = Fails
  | _ => False
  end.
Lemma leads_bind {A B} r (m : M kernel A) (f : A → M kernel B) k P off :
  wp m k (λ a k', leads r (f a) k' P off) → leads r (m ≫= f) k P off.
Proof. unfold wp, leads, mbind, M_bind. by destruct (m k) as [[a k']| | |]. Qed.
Lemma leads_reads {A} c (m : M kernel A) k P off : wp m k (P c) → leads (Reads c) m k P off.
Proof. unfold wp, leads. by destruct (m k) as [[a k']| | |]. Qed.
Lemma wp_in_memory {A} (m : M memory A) k Q :
  wp m (k_mem k) (λ a x, Q a (mk_kernel x (k_options k) (k_random k))) → wp (in_memory m) k Q.
Proof. intros H. by apply wp_zoom. Qed.
Lemma wp_seed_random seed k Q : (∀ x, Q tt (mk_kernel (k_mem k) (k_options k) x)) → wp (seed_random seed) k Q.
Proof. intros HQ. apply wp_zoom. apply wp_random_init. intros r' _ _. apply HQ. Qed.
Lemma wp_atoi_at m b p v Q : name_at m b p (Some v) → (length v < fuel)%nat → Q (atoi v) m → wp (atoi_at fuel p) m Q.
Proof.
  intros (Hc & Hp & _) Hf HQ. unfold atoi_at. do 2 wp_step; [by rewrite (nonnull p)|].
  wp_step. apply (wp_string_at _ _ _ v); [done|done|]. by wp_step.
Qed.

Lemma do_option_spec name value p b k c : options_match (k_mem k) b (k_options k) c → name_at (k_mem k) b p value →
  (length (default [] value) < fuel)%nat →
  leads (read_option (name, value) c) (do_option fuel name p) k
    (λ c' go k', go = true ∧ k_mem k' = k_mem k ∧ options_match (k_mem k) b (k_options k') c') (λ go, go = false).
Proof.
  intros Ho Hv Hf. unfold read_option, do_option. destruct Ho.
  repeat (case_decide; [by try (apply leads_reads; unfold shutdown_configure, set_options; repeat wp_step)|]).
  case_decide; [|case_decide; [by apply leads_reads; unfold set_options; repeat wp_step|case_decide; [|done]]].
  - destruct value as [v|]; [|by rewrite Hv]. apply leads_reads. wp_step. apply wp_in_memory.
    eapply wp_atoi_at; [done|done|]. wp_step. apply wp_seed_random. intros x. by wp_step.
  - destruct value as [v|]; [|by rewrite Hv]. apply leads_reads. wp_step. apply wp_in_memory.
    eapply wp_atoi_at; [done|done|]. unfold set_options. by repeat wp_step.
Qed.

Lemma strings_at_frame m m' a ss : (∀ q, a ≤ q → m' !! q = m !! q) → strings_at m a ss → strings_at m' a ss.
Proof.
  revert a. induction ss as [|s ss IH]; intros a Hf; [done|]. intros [Hs Hss]. split.
  - eapply cstr_frame; [|done]. intros i Hi. apply Hf. lia.
  - apply IH; [|done]. intros q Hq. apply Hf. lia.
Qed.
Lemma literals_frame m m' a b c d : (∀ q, ¬ (a ≤ q < b) → m' !! q = m !! q) → literals m a d → a ≤ c → b ≤ d →
  literals m' c d.
Proof.
  intros Hf (H1 & H2 & H3 & H4) Hc Hd. split; [|split; [|lia]].
  - eapply cstr_frame; [|done]. intros i Hi. simpl in Hi. apply Hf. lia.
  - eapply cstr_frame; [|done]. intros i Hi. simpl in Hi. apply Hf. lia.
Qed.
(** What is known before the word at [a]: the words, the literals, and that the options
    say [c]. *)
Record before (a : Z) (ss : list (list Z)) (c : config) (k : kernel) : Prop := {
  be_pos : 0 < a;
  be_words : strings_at (k_mem k) a ss;
  be_literals : literals (k_mem k) a (a + room ss);
  be_options : options_match (k_mem k) a (k_options k) c;
}.
Lemma options_loop_spec ss a k c : before a ss c k → Forall (λ s, (length s + 1 < fuel)%nat) ss →
  leads (read_options ss c).1 (options_loop equals empty fuel (addresses a ss)) k
    (λ c' r k', ∃ b, r = Some (addresses b (read_options ss c).2) ∧ before b (read_options ss c).2 c' k') (λ r, r = None).
Proof using Heq Hem.
  intros Hb Hf. revert a k c Hb. induction Hf as [|s ss Hs Hf IH]; intros a k c Hb.
  { apply leads_reads. cbn [options_loop addresses]. wp_step. by exists a. }
  destruct (Hb) as [Ha [Hcs Hss] Hl Ho]. cbn [addresses options_loop]. simpl in Hl. pose proof (room_nonneg ss).
  apply leads_bind, wp_in_memory, (wp_load_byte _ _ _ _ (cstr_load _ _ _ Hcs)).
  assert (mk_kernel (k_mem k) (k_options k) (k_random k) = k) as -> by by destruct k.
  cbn [read_options]. destruct (Z.eqb_spec (char0 s) 45) as [E|E]; cycle 1.
  { apply leads_reads. wp_step. by exists a. }
  destruct s as [|c0 w]; [done|]. simpl in E. subst c0. set (s := 45 :: w) in *.
  pose proof (wp_strtok_name (k_mem k) a w) as Hname. cbv zeta in Hname. fold s in Hname.
  destruct (split_word s) as [name value] eqn:Ew.
  apply leads_bind, wp_in_memory, Hname; [apply Hl|done|done|done|]. clear Hname.
  intros m1 save Hn Hv Hsame Hsv Hlo Hhi. clearbody s.
  assert (∀ q, q < a → m1 !! q = k_mem k !! q) as Hlow by (intros q Hq; apply Hsame; lia).
  assert (literals m1 (a + len s + 1) (a + (len s + 1 + room ss))) as Hl1.
  { eapply (literals_frame (k_mem k) _ a (a + len s + 1)); [intros q Hq; apply Hsame; lia|done|lia|lia]. }
  assert (options_match m1 (a + len s + 1) (k_options k) c) as Ho1.
  { destruct Ho. split; try done; (eapply name_at_frame; [exact Hlow|lia|done]). }
  apply leads_bind, wp_in_memory. simpl k_mem. set (rest := options_loop equals empty fuel (addresses (a + len s + 1) ss)) in *.
  assert (∀ p, name_at m1 (a + len s + 1) p value →
    leads (match read_option (name, value) c with Reads c' => read_options ss c' | r => (r, ss) end).1
      (x ← in_memory (string_at fuel a); go ← do_option fuel x p; if go : bool then rest else mret None)
      (mk_kernel m1 (k_options k) (k_random k))
      (λ c' r k', ∃ b, let rest := (match read_option (name, value) c with Reads c' => read_options ss c' | r => (r, ss) end).2 in
         r = Some (addresses b rest) ∧ before b rest c' k') (λ r, r = None)) as Hgo.
  { intros p Hp. apply leads_bind, wp_in_memory, (wp_string_at _ _ _ name); [done|lia|].
    assert (length (default [] value) < fuel)%nat as Hfv by lia.
    pose proof (do_option_spec name value p (a + len s + 1) (mk_kernel m1 (k_options k) (k_random k)) c Ho1 Hp Hfv) as Hd.
    unfold leads in Hd |- *. unfold mbind, M_bind. simpl k_mem in *. simpl k_options in *. simpl k_random in *.
    destruct (do_option _ _ _ _) as [[go k2]| | |]; [|by rewrite Hd|done|done].
    destruct (read_option (name, value) c) as [c'| |]; [|by rewrite Hd|done].
    destruct Hd as (-> & Em & Ho2). apply IH. split; rewrite ?Em; [lia| |by rewrite Z.add_assoc, Z.add_assoc in Hl1|done].
    eapply strings_at_frame; [|exact Hss]. intros q Hq. apply Hsame. lia. }
  apply (wp_strtok_rest m1 save (default [] value)); [apply Hl1|done|done|lia| |].
  - intros Ev. apply Hgo. destruct value as [v|]; [|done]. by apply split_word_value in Ew.
  - intros Ev. apply Hgo. destruct value as [v|]; [|done]. simpl in *. split; [done|]. lia.
Qed.

(** ** The seed *)

Lemma init_loop_indexes n seedp i j l l' a b c a' b' c' :
  init_loop n seedp i j (mk_rc4 l a b c) = Ok (tt, mk_rc4 l' a b c) →
  init_loop n seedp i j (mk_rc4 l a' b' c') = Ok (tt, mk_rc4 l' a' b' c').
Proof.
  revert i j l. induction n as [|n IH]; intros i j l; cbn [init_loop].
  { intros [= ->]. done. }
  unfold mbind, M_bind, swap_byte, s_at, modify, get, from_option. unfold mbind, M_bind. simpl.
  destruct (l !! Z.to_nat i) as [x|] eqn:Ei; [|done]. simpl.
  destruct (seedp !! Z.to_nat (i mod 4)) as [y|]; [|done]. simpl. rewrite Ei. simpl.
  destruct (l !! Z.to_nat (u8 (j + (x + y)))) as [z|]; [|done]. simpl. apply IH.
Qed.
(** The state of the generator after random_init () is a function of the seed. *)
Lemma random_init_total seed (r : rc4) : ∃ r', ∀ r0, random_init seed r0 = Ok (tt, r').
Proof.
  assert (wp (init_loop 256 (word_bytes (u32 seed)) 0 0) (mk_rc4 (seqZ 0 256) (s_i r) (s_j r) (inited r))
    (λ _ r', ∃ l, r' = mk_rc4 l (s_i r) (s_j r) (inited r))) as Hl.
  { apply wp_init_loop; [done|done|done|done|]. intros l _. by exists l. }
  apply wp_ok in Hl as ([] & r' & E & l & ->). exists (mk_rc4 l 0 0 true). intros r0.
  unfold random_init, mbind, M_bind, modify. apply (init_loop_indexes _ _ _ _ _ _ _ _ _ (s_i r0) (s_j r0) (inited r0)) in E.
  by rewrite E.
Qed.
(** The seed given with -rs is lost: whatever the options are, the generator starts
    from the time of the real-time clock. *)
Theorem random_seed_ignored k k' argv argv' k0 :
  parse_options equals empty rtc_time fuel argv k = Ok (Some argv', k') →
  random_init (u32 rtc_time) k0 = Ok (tt, k_random k').
Proof.
  unfold parse_options, mbind, M_bind. destruct (options_loop _ _ _ _ _) as [[[r|] k1]| | |]; [|done..].
  unfold seed_random, zoom, mret, M_ret. destruct (random_init_total (u32 rtc_time) (k_random k1)) as [r' E].
  rewrite E. intros [= <- <-]. apply E.
Qed.
End options.

(** ** Block devices *)

(** The first device of a type, from position [i] on. *)
Definition next_of_type (role : block_kind) (i : nat) (ds : list device) : option nat :=
  (λ '(j, _), (i + j)%nat) <$> list_find (λ d, dev_type d = role) (drop i ds).
Lemma first_of_type_spec n role i r : (length (all_blocks r) ≤ i + n)%nat → (i ≤ length (all_blocks r))%nat →
  first_of_type n role (if (i <? length (all_blocks r))%nat then Some i else None) r =
    Ok (next_of_type role i (all_blocks r), r).
Proof.
  revert i. induction n as [|n IH]; intros i Hn Hi.
  { rewrite (proj2 (Nat.ltb_ge _ _)) by lia. unfold next_of_type. by rewrite drop_ge by lia. }
  destruct (Nat.ltb_spec i (length (all_blocks r))) as [Hl|Hl].
  - cbn [first_of_type]. destruct (lookup_lt_is_Some_2 (all_blocks r) i Hl) as [d Hd].
    unfold mbind at 1, M_bind at 1. simpl. rewrite Hd. unfold mbind at 1, M_bind at 1. simpl.
    unfold next_of_type. rewrite (drop_S _ d) by done. simpl. destruct (decide (dev_type d = role)); simpl.
    + unfold mret, M_ret. do 3 f_equal. lia.
    + unfold block_next, list_elem_to_block, mbind, M_bind. simpl. unfold mbind, M_bind. simpl.
      rewrite IH by lia. unfold next_of_type. do 2 f_equal.
      destruct (list_find _ (drop (S i) (all_blocks r))) as [[j x]|]; simpl; [|done]. f_equal. lia.
  - unfold next_of_type. by rewrite drop_ge by lia.
Qed.
(** Without a name, a role goes to the first device of its type, and stays as it is
    when there is none; with a name, to the device of that name, and the kernel panics
    when there is none. *)
Theorem locate_block_device_correct role name r : (kind_no role < BLOCK_ROLE_CNT)%nat →
  locate_block_device role name r =
    match name, (match name with Some s => name_search (all_blocks r) 0 s | None => next_of_type role 0 (all_blocks r) end) with
    | Some _, None => Panic
    | None, None => Ok (tt, r)
    | _, Some i => Ok (tt, mk_registry (all_blocks r) (<[kind_no role := Some i]> (block_by_role r)))
    end.
Proof.
  intros Hk. unfold locate_block_device. destruct name as [s|].
  - unfold block_get_by_name, gets, block_set_role, modify, mbind, M_bind. simpl.
    destruct (name_search (all_blocks r) 0 s) as [i|]; [|done]. simpl. by rewrite (proj2 (Nat.ltb_lt _ _)) by done.
  - unfold mbind at 1, M_bind at 1. unfold mbind at 1, M_bind at 1. unfold block_first, list_elem_to_block.
    unfold mbind at 1, M_bind at 1. simpl. unfold mret at 1, M_ret at 1. unfold mbind at 1, M_bind at 1. simpl.
    rewrite first_of_type_spec by lia. destruct (next_of_type _ _ _); [|done].
    unfold block_set_role, modify, mbind, M_bind, assert. by rewrite (proj2 (Nat.ltb_lt _ _)) by done.
Qed.

(** ** Examples *)

(** The command line "-q -filesys=hdb1 run 'ls -l'", and the literals at 16 and 20. *)
Definition ex_words : list (list Z) := [chars "-q"; chars "-filesys=hdb1"; chars "run"; chars "ls -l"].
Definition ex_memory : memory :=
  CString.block (PHYS_BASE + LOADER_ARG_CNT) ([4; 0; 0; 0] ++ concat ((λ s, s ++ [0]) <$> ex_words)) ∪
  CString.block 16 [61; 0; 0; 0; 0].
Lemma ex_words_at : strings_at ex_memory (PHYS_BASE + LOADER_ARGS) ex_words.
Proof. repeat split; try (vm_compute; reflexivity). Qed.
Lemma read_command_line_correct_witness :
  read_command_line ex_memory = Ok ([0xc0007d3e; 0xc0007d41; 0xc0007d4f; 0xc0007d53], ex_memory).
Proof.
  apply (read_command_line_correct ex_memory ex_words).
  - apply ex_words_at.
  - vm_compute. discriminate.
  - vm_compute. discriminate.
  - repeat split; vm_compute; reflexivity.
Defined.
Definition ex_kernel : kernel :=
  mk_kernel ex_memory (mk_options false 0 0 (2 ^ 32 - 1) false SHUTDOWN_NONE) (mk_rc4 [] 0 0 false).
(** Functions that write down their names. *)
Definition ex_invoke (f : function) (argv : list (list Z)) : M (list (function * list (list Z))) unit :=
  modify (λ l, l ++ [(f, take 1 argv)]).
Lemma ex_invoke_args f argc argv : (∃ n, (n, argc, f) ∈ actions) → ex_invoke f argv = ex_invoke f (take argc argv).
Proof. intros [n Hn%actions_argc]. unfold ex_invoke. destruct argc; [lia|]. by destruct argv. Qed.
Lemma run_actions_correct_witness : ∃ acts rest, [chars "ls"; chars "cat"; chars "f"] = concat acts ++ rest ∧
  (rest = [] ∨ malformed rest) ∧
  (run_all ex_invoke acts;; if decide (rest = []) then mret tt else panic) [] =
    Ok (tt, [(fsutil_ls, [chars "ls"]); (fsutil_cat, [chars "cat"])]).
Proof.
  destruct (run_actions_correct ex_invoke ex_invoke_args [chars "ls"; chars "cat"; chars "f"]) as (acts & rest & E & _ & Hr & Hs).
  exists acts, rest. split; [exact E|]. split; [exact Hr|]. rewrite <-Hs. vm_compute. reflexivity.
Defined.
Lemma locate_block_device_correct_witness :
  locate_block_device BLOCK_SCRATCH None (mk_registry [mk_device (chars "hda1") BLOCK_SCRATCH 8 (Partition 0 1)] [None; None; None; None]) =
    Ok (tt, mk_registry [mk_device (chars "hda1") BLOCK_SCRATCH 8 (Partition 0 1)] [None; None; Some 0%nat; None]).
Proof. rewrite locate_block_device_correct; [reflexivity|vm_compute; lia]. Defined.
(** The seed given on the command line does not matter. *)
Lemma random_seed_ignored_witness : ∃ k',
  parse_options 16 20 7 200 [0xc0007d3e] (mk_kernel
    (CString.block 0xc0007d3e (chars "-rs=42" ++ [0]) ∪ CString.block 16 [61; 0; 0; 0; 0])
    (mk_options false 0 0 0 false SHUTDOWN_NONE) (mk_rc4 [] 0 0 false)) = Ok (Some [], k') ∧
  random_init 7 (mk_rc4 [] 0 0 false) = Ok (tt, k_random k').
Proof.
  destruct (parse_options 16 20 7 200 [0xc0007d3e] (mk_kernel
    (CString.block 0xc0007d3e (chars "-rs=42" ++ [0]) ∪ CString.block 16 [61; 0; 0; 0; 0])
    (mk_options false 0 0 0 false SHUTDOWN_NONE) (mk_rc4 [] 0 0 false))) as [[[[|p argv]|] k']| | |] eqn:E.
  - exists k'. split; [reflexivity|]. exact (random_seed_ignored 16 20 7 200 _ k' _ [] (mk_rc4 [] 0 0 false) E).
  - vm_compute in E. discriminate E.
  - vm_compute in E. discriminate E.
  - vm_compute in E. discriminate E.
  - vm_compute in E. discriminate E.
  - vm_compute in E. discriminate E.
Defined.
